(* ===== verification/_CoqProject ===== *)
-Q . S2P
Prelude.v
GoStrings.v
Float64.v
LinkedList.v
GoPath.v
Hash.v
Radix.v
Location.v
Target.v
Balancer.v
ConsistentHash.v
Health.v
SharedDict.v
FileCache.v
ProxyCache.v
NginxParser.v
NetIP.v
Access.v
RateLimit.v
ReqVars.v
Config.v
ConfigUpdate.v
Validate.v
GoTime.v
Lru.v
FileInfo.v
Static.v
Resolver.v
Base64.v
Sticky.v
Selector.v
Selection.v
Failover.v
VHost.v
TicketKeys.v
Pool.v
CodeCache.v
Rewrite.v
ProxyHeaders.v
Stream.v
Http.v
Auth.v
BodyLimit.v
ResponseHeaders.v
ErrorPages.v
Compression.v
AuthRequest.v
LuaMiddleware.v
Chain.v
Threads.v
Sockets.v
Timers.v
FloatInt.v
GJson.v
Ocsp.v
Tls.v
Upstream.v
WebSocket.v
Listeners.v
App.v
LuaEngine.v
Server.v
Convert.v
ConvertSpec.v
