(* ===== verification/Prelude.v ===== *)
(** * A verified model of lolly

    lolly is an HTTP server and reverse proxy written in Go (src/internal). This
    library translates its deciding code into executable definitions and proves what
    makes that code correct. This file is the root and the prelude: after this header
    it holds notation, integer and string primitives, tactics and shared lemmas.

    ** The program and the files

    A configuration is loaded (config/) or converted from one of nginx
    (converter/nginx/), servers are registered by host name (server/vhost.go) and
    routes by path (matcher/); a request passes the middlewares that the configuration
    asks for (server/middleware_builder.go: access, limits, authentication, rewriting,
    compression, headers, error pages, scripts) to a handler: static files
    (handler/static.go) or the proxy (proxy/), which selects a target (loadbalance/),
    tries it and its alternatives, and caches the answer (cache/). TCP and UDP are
    proxied by stream/. Scripts of Lua have dictionaries, sockets, timers and JSON.

    Foundations, which model Go's libraries and not src/:
    [Prelude]; [GoStrings], [GoPath] and [GoTime] (strings, strconv, path/filepath,
    durations); [Float64] and [FloatInt] (binary64 on Z, and its integers);
    [LinkedList] (container/list); [Lru] (the list-and-map caches share it); [Base64]
    (encoding/base64); [Threads] (goroutines as lists of sections over a shared state,
    class Machine, with the conservation laws that its clients share).

    Routing: [Radix] and [Location] (matcher/, server/router.go): a radix tree as a
    mutual tree type, the location engine over it, and the registration of routes;
    [VHost] (server/vhost.go, netutil/): maps by host name.

    Balancing: [Target] (targets in a heap of pointers, their circuit breaker and
    averages), [Balancer] (class Balancer with laws, and an instance per algorithm of
    loadbalance/balancer.go, least_time.go, random.go), [ConsistentHash], [Health]
    (health checks, slow start), [Sticky] (cookies, createBalancerByName), [Selector]
    (proxy/target_selector.go with scripts of lua/api_balancer.go), [Selection] (what the
    whole selection finds, and what it leaves of the targets), [Failover] (the retry loop
    of Proxy.ServeHTTP over Selector, so for every algorithm, key, cookie and script).

    Caches: [FileCache], [ProxyCache] (cache/file_cache.go, proxy/cache_handler.go,
    server/purge.go), [SharedDict] and [CodeCache] (lua/shared_dict.go, lua/cache.go),
    [FileInfo] (handler/fileinfo_cache.go, mimeutil/detect.go), [Resolver] (resolver/).

    Requests: [NetIP] (utils/ipallowlist.go, netutil/ip.go), [Access] and [RateLimit]
    (middleware/security/), [ReqVars] (variable/), [Rewrite] (middleware/rewrite/),
    [ProxyHeaders] (proxy/headers.go, header_modifier.go, redirect_rewrite.go),
    [Static] (handler/static.go, autoindex.go, compression/gzip_static.go).

    Middlewares: [Http] (the requests and answers of fasthttp that the middlewares use,
    class FastHTTP; middleware/middleware.go), [Auth] and [AuthRequest]
    (security/auth.go, auth_request.go), [BodyLimit], [ResponseHeaders] (cors/,
    security/headers.go, requestid), [ErrorPages] (error pages and their interception),
    [Compression], [LuaMiddleware] (lua/middleware.go, context.go, route_handler.go),
    [Chain] (server/middleware_builder.go and the access log, over all of these).

    Configuration: [NginxParser] (converter/nginx/parser.go), [Convert] and
    [ConvertSpec] (converter/nginx/converter.go, and what descriptions of sites become),
    [Config] and [ConfigUpdate] (the records of config/, Load with includes),
    [Validate] (config/validate.go, defaults.go).

    The process: [Listeners] (sockets, descriptors and files of an operating system;
    createListener and the rest of server.go about listeners, server/upgrade.go), [App]
    (Start, server/lifecycle.go, app/: signals, reload, upgrade), [Server] (server.go and
    router.go: what each mode registers; the endpoints of healthz.go, pprof.go and the
    access to status.go and purge.go).

    Lua: [Sockets] (lua/socket_manager.go, api_socket_tcp.go, ip_guard.go) and [Timers]
    (lua/api_timer.go) over [Threads]; [GJson] (src/gjson); [LuaEngine] (lua/pool.go,
    engine.go, server/init.go: the states that requests share, over [Threads]).

    TLS: [TicketKeys] (ssl/session_tickets.go), [Ocsp] (ssl/ocsp.go), [Tls] (the rest of
    ssl/, sslutil/, proxy/proxy_ssl.go: certificates by name, versions, client
    verification, what a handshake gets).

    Others: [Pool] (server/pool.go), [Stream] (stream/stream.go), [Hash] (hash/hash.go),
    [Upstream] (proxy.go's host clients, proxy_dns.go: targets of names that change),
    [WebSocket] (proxy/websocket.go over [Threads]).

    ** How state and operations correspond

    A Go struct is a Record with the same fields, a method a Definition from the old
    state to the results and the new state, under its Go name (with a prefix where Go
    methods of several types share a name, and an underscore where Rocq has the name).
    Pointers to targets are keys of a heap (a gmap), so that aliasing is visible.
    Strings are lists of bytes, machine integers are Z with [swrap64] and [wrap64]
    where the code can overflow, time is an int64 of nanoseconds, passed in where the
    code reads the clock. Errors are values: [option], [res] or an error type per
    component. A panic is [None].

    Concurrency: a section that holds a mutex is one step. Where the code drops the
    lock between sections, uses atomics or channels, the model has one step per
    section or atomic operation and the theorems quantify over every interleaving
    (FileCache, ProxyCache, RateLimit's connection limiter, Pool, Stream, Failover,
    Sockets, Timers, Ocsp, WebSocket, LuaEngine). A signal to the process is one step,
    and the end of a replaced server another (App).

    ** What the theorems show

    Refinement of an abstract specification: Radix.insert_all_refines and
    Location.engine_registration_refines (a map keyed by path, a list of accepted
    routes), SharedDict.dict_is_map, VHost.FindHost_selects (nginx's order of names),
    ConvertSpec.convert_describes (a printed description of pools and sites, parsed and
    converted, is the configuration described).

    Invariants over every sequence or interleaving of operations: FileCache.cache_invariant,
    Stream.stream_counts_exact, Pool.pool_conserves_tasks, Selector.served_configured,
    App.reload_keeps_serving (a process with one address and those it starts accept on one
    socket, unless a set-up fails late),
    Resolver.dns_cache_bounded, Failover.failover_connections, Config.includes_only_add,
    Sockets.operations_conserved, Timers.timers_conserved, WebSocket.bridge_transparent
    (what a side receives is a prefix of what the other sent, all of it but the bytes that
    came with an error) and handler_closes.

    Safety: Static.nothing_outside_root, Failover.failover_distinct and
    failover_exhaustive (no target twice; none left out, but by a stale ring),
    Chain.served_was_admitted (no handler is reached past a guard, limiters included),
    ProxyCache.lock_single_flight, NetIP.client_ip_not_spoofable (for the functions that
    take trusted proxies; leftmost_is_the_clients for the others),
    RateLimit.conn_limit_safe (and moved_key_exceeds, where a handler moves the key), ReqVars.context_isolation, ResponseHeaders.cors_policy,
    BodyLimit.reader_bounded, Sockets.dialed_unrestricted, Timers.cancelled_never_runs,
    Tls.client_verify_enforced (who completes a handshake) and tls_floor,
    Ocsp.stapled_is_good, LuaEngine.states_exclusive (no two requests share a state) and
    coroutines_bounded, Server.pprof_in_range.

    Functional behaviour on every branch: Location.engine_match_priority,
    ConsistentHash.minimal_disruption, ProxyCache.cache_freshness, Balancer.rr_fair and
    wrr_proportional, Target.breaker_trips, RateLimit.precise_window_exact,
    Access.access_decision, ReqVars.expand_segments, Sticky.sticky_affinity,
    Compression.compression_transparent, Chain.sampling_records, Timers.queue_order,
    Tls.staple_sticks, Upstream.refresh_addresses, WebSocket.upgrade_request_lines,
    Server.monitoring_reachable and start_fails_iff, Listeners.createListener_reuses.

    Round trips, types, errors, termination: NginxParser.parse_print,
    TicketKeys.key_file_roundtrip, GJson.encode_decode; Validate.validate_sound;
    Access.update_atomic, Convert.convert_panics, ErrorPages.error_pages_loaded,
    App.multi_never_reloads, LuaEngine.close_crashes_requests;
    NginxParser.parse_total, Rewrite.rewrite_terminates, Sticky.createBalancer_terminates.

    Other theorems show where the code does not do what it means to; each says so in
    its comment. Where a property needs a condition, the same file shows, where it can,
    what happens without it (App.slow_failure_stops_serving, Tls.revoked_accepted,
    WebSocket.last_bytes_dropped, NetIP.inside_client_spoofs, RateLimit.moved_key_exceeds,
    Failover.ring_refuses_recovered, Compression.ex_refused_encoding).

    ** Fuel

    Loops whose end is not structural take fuel: the nginx parser (the length of the
    text, and the number of distinct files for includes; parse_total shows it is
    enough), Rewrite.loop (11 passes over the rules; rewrite_terminates), the
    inclusion of configuration files (the depth the code itself allows),
    Sticky.createBalancerByName (2, and sticky_fallback_diverges shows that none is
    enough for one configuration), ConsistentHash.search_loop (the length of the ring),
    BodyLimit's read_all (the length of the body), GJson.encodeLuaValue (the levels that
    the limit of the configuration leaves, which is the code's own bound),
    Tls.pem_loop (the length of the text), WebSocket.read_head (the bytes that come).
    Decimal and hexadecimal printing recur on the number of digits of the value.

    ** Where the model is coarser than the code

    The workers of Pool are counted without the bound of an int32. Sticky_Select takes one
    time where the code reads the clock for the age of a cookie and again for the state of
    a target. Stream's weights and connection counters are not wrapped. The branch of
    Compression for a compressor that cannot be made is left out: the factories of the
    code cannot fail.

    ** Parameters

    Code that is not under src/ is an argument: regular expressions (class Regexp of
    Location), the disk (Static.Disk, NginxParser.FileSystem), the MIME table, YAML
    decoding, DNS answers, the GeoIP database, compilation of Lua and SHA-256, random
    numbers, the HTTP client (the outcome of an attempt), contexts of fasthttp (class
    FastHTTP), bcrypt and Argon2, compressors, what a script does, the order in which a
    map is ranged over, JSON texts of strings, answers of the network, PEM and X.509,
    answers of OCSP, url.Parse, names that the kernel binds (class Network of
    Listeners), what the profiler writes.

    ** Not modelled

    HTTP/2 and HTTP/3 (adapters of contexts), logging and its reopening, the Lua
    interpreter and its bindings for requests, PID files, the variants for Windows,
    sendfile, the text of the status pages, the entry of the program and test support:
    they are input and output or calls of libraries. *)

From Stdlib Require Export Ascii String ZArith Lia.
From stdpp Require Export base tactics option list numbers gmap strings.

#[global] Open Scope Z_scope.

Declare Scope go_scope.
Delimit Scope go_scope with go.

(** ** Go byte strings

    A Go [string] or [[]byte] is a sequence of bytes; [ascii] is the type of
    8-bit characters, so both are lists of [ascii]. *)

Abbreviation gostring := (list ascii).
Notation "'go!' x" := (list_ascii_of_string x%string) (at level 9, x at level 9, only parsing).

#[global] Arguments list_ascii_of_string : simpl never.

(** Go's [len], an [int]. *)
Abbreviation zlen l := (Z.of_nat (length l)).

(** The numeric value of a byte, Go's [uint64(s[i])] or [int(c)]. *)
Definition byteZ (c : ascii) : Z := Z.of_N (N_of_ascii c).

(** ** Results of fallible operations: Go's [(T, error)] *)

Inductive res (E A : Type) : Type :=
  | Ok (a : A)
  | Err (e : E).
Arguments Ok {E A} _.
Arguments Err {E A} _.

Definition is_ok {E A} (r : res E A) : bool :=
  match r with Ok _ => true | Err _ => false end.

#[export] Instance res_ret {E} : MRet (res E) := λ A a, Ok a.
#[export] Instance res_bind {E} : MBind (res E) := λ A B k r,
  match r with Ok a => k a | Err e => Err e end.

(** What is known of an optional value through a function of it. *)
Lemma fmap_known {A B : Type} (f : A → B) o x y : o = Some x → f <$> o = Some y → f x = y.
Proof. by intros -> [=]. Qed.

(** ** Tactics

    [bool_to_prop] turns the boolean tests of executable definitions into the
    propositions they decide; [case_tests] splits on every test of the goal. *)

Ltac bool_to_prop :=
  repeat match goal with
  | H : (_ && _)%bool = true |- _ => apply andb_true_iff in H; destruct H
  | H : (_ && _)%bool = false |- _ => apply andb_false_iff in H
  | H : (_ || _)%bool = true |- _ => apply orb_true_iff in H
  | H : (_ || _)%bool = false |- _ => apply orb_false_iff in H; destruct H
  | H : _ = false ∨ _ = false |- _ => destruct H
  | H : _ = true ∨ _ = true |- _ => destruct H
  | H : negb _ = true |- _ => apply negb_true_iff in H
  | H : negb _ = false |- _ => apply negb_false_iff in H
  | H : (_ <? _) = true |- _ => apply Z.ltb_lt in H
  | H : (_ <? _) = false |- _ => apply Z.ltb_ge in H
  | H : (_ <=? _) = true |- _ => apply Z.leb_le in H
  | H : (_ <=? _) = false |- _ => apply Z.leb_gt in H
  | H : (_ =? _) = true |- _ => apply Z.eqb_eq in H
  | H : (_ =? _) = false |- _ => apply Z.eqb_neq in H
  | H : (_ <? _)%nat = true |- _ => apply Nat.ltb_lt in H
  | H : (_ <? _)%nat = false |- _ => apply Nat.ltb_ge in H
  | H : (_ <=? _)%nat = true |- _ => apply Nat.leb_le in H
  | H : (_ <=? _)%nat = false |- _ => apply Nat.leb_gt in H
  | H : (_ =? _)%nat = true |- _ => apply Nat.eqb_eq in H
  | H : (_ =? _)%nat = false |- _ => apply Nat.eqb_neq in H
  | H : bool_decide _ = true |- _ => apply bool_decide_eq_true_1 in H
  | H : bool_decide _ = false |- _ => apply bool_decide_eq_false_1 in H
  end.

Ltac case_tests :=
  repeat match goal with
  | |- context [if ?b then _ else _] =>
      let E := fresh "E" in destruct b eqn:E
  end; bool_to_prop; simplify_eq/=.

(** [case_tests_in H] does the same for the tests of a hypothesis. *)
Ltac case_tests_in H :=
  repeat match type of H with
  | context [if ?b then _ else _] =>
      let E := fresh "E" in destruct b eqn:E
  end; bool_to_prop; simplify_eq/=.

(** ** Machine integers

    Go's [int], [int64] and [time.Duration] are 64-bit two's complement
    integers; [uint64] is 64-bit unsigned.  A value is a [Z] inside its range
    and every operation that can leave it wraps. *)

Definition wrap64 (z : Z) : Z := z mod 2 ^ 64.

Definition int64_max : Z := 2 ^ 63 - 1.
Definition int64_min : Z := - 2 ^ 63.

Definition swrap64 (z : Z) : Z := (z + 2 ^ 63) mod 2 ^ 64 - 2 ^ 63.

Definition in_int64 (z : Z) : Prop := int64_min ≤ z ≤ int64_max.
Definition in_uint64 (z : Z) : Prop := 0 ≤ z < 2 ^ 64.

(** [int32]. *)
Definition swrap32 (z : Z) : Z := (z + 2 ^ 31) mod 2 ^ 32 - 2 ^ 31.

Lemma wrap64_divide z : (2 ^ 64 | wrap64 z - z).
Proof. exists (- (z / 2 ^ 64)). unfold wrap64. rewrite Zmod_eq by done. ring. Qed.

Lemma swrap32_divide z : (2 ^ 32 | swrap32 z - z).
Proof. exists (- ((z + 2 ^ 31) / 2 ^ 32)). unfold swrap32. rewrite Zmod_eq by done. ring. Qed.

Lemma wrap64_range z : in_uint64 (wrap64 z).
Proof. apply Z.mod_pos_bound. lia. Qed.

Lemma wrap64_id z : in_uint64 z → wrap64 z = z.
Proof. apply Z.mod_small. Qed.

Lemma swrap64_range z : in_int64 (swrap64 z).
Proof.
  unfold in_int64, swrap64, int64_min, int64_max.
  pose proof (Z.mod_pos_bound (z + 2 ^ 63) (2 ^ 64)). lia.
Qed.

Lemma swrap64_id z : in_int64 z → swrap64 z = z.
Proof.
  unfold in_int64, swrap64, int64_min, int64_max. intros H.
  rewrite Z.mod_small; lia.
Qed.

Lemma swrap64_mod z : swrap64 z mod 2 ^ 64 = z mod 2 ^ 64.
Proof.
  unfold swrap64. rewrite Zminus_mod, Zmod_mod, <- Zminus_mod. f_equal. lia.
Qed.

Lemma swrap64_congr a b : a mod 2 ^ 64 = b mod 2 ^ 64 → swrap64 a = swrap64 b.
Proof.
  intros H. unfold swrap64. by rewrite (Zplus_mod a), H, <- Zplus_mod.
Qed.

(** Wrapping early or late makes no difference to sums. *)
Lemma swrap64_add_l a b : swrap64 (swrap64 a + b) = swrap64 (a + b).
Proof. apply swrap64_congr. by rewrite Zplus_mod, swrap64_mod, <- Zplus_mod. Qed.

Lemma swrap64_sub_l a b : swrap64 (swrap64 a - b) = swrap64 (a - b).
Proof. apply swrap64_congr. by rewrite Zminus_mod, swrap64_mod, <- Zminus_mod. Qed.

(** ** Time

    A [time.Time] is its instant in nanoseconds, a [Z]; [time.Now()] is an
    argument of the operation that calls it.  [t.Sub(u)] saturates at the
    bounds of [Duration]; [t.After(u)] compares instants. *)

Definition time_sub (t u : Z) : Z := Z.max int64_min (Z.min int64_max (t - u)).
Definition time_after (t u : Z) : bool := u <? t.

(** The zero [time.Time], midnight of January 1 of year 1. *)
Definition zero_time : Z := -62135596800000000000.

Definition nanosecond : Z := 1.
Definition millisecond : Z := 1000000.
Definition second : Z := 1000000000.

Lemma time_sub_gt t u d : in_int64 d → d < int64_max → d < time_sub t u ↔ d < t - u.
Proof. unfold in_int64, time_sub, int64_min, int64_max. lia. Qed.

Lemma time_sub_range t u : in_int64 (time_sub t u).
Proof. unfold in_int64, time_sub, int64_min, int64_max. lia. Qed.

(** ** Functions of Go's [strings] package *)

(** [strings.HasPrefix(s, p)] *)
Fixpoint HasPrefix (s p : gostring) : bool :=
  match p, s with
  | [], _ => true
  | c :: p', d :: s' => Ascii.eqb c d && HasPrefix s' p'
  | _ :: _, [] => false
  end.

(** [strings.HasSuffix(s, p)] *)
Definition HasSuffix (s p : gostring) : bool := HasPrefix (reverse s) (reverse p).

(** [strings.CutSuffix(s, p)] *)
Definition CutSuffix (s p : gostring) : option gostring :=
  if HasSuffix s p then Some (take (length s - length p) s) else None.

(** [strings.Contains(s, sep)] for a one-byte [sep]; [strings.Index] of it. *)
Definition ContainsByte (s : gostring) (c : ascii) : bool := existsb (Ascii.eqb c) s.

Fixpoint IndexByte (s : gostring) (c : ascii) : option nat :=
  match s with
  | [] => None
  | d :: s' => if Ascii.eqb d c then Some 0%nat else S <$> IndexByte s' c
  end.

(** [strings.Split(s, sep)] for a one-byte [sep]: never the empty list. *)
Fixpoint SplitByte (s : gostring) (c : ascii) : list gostring :=
  match s with
  | [] => [[]]
  | d :: s' =>
      if Ascii.eqb d c then [] :: SplitByte s' c
      else match SplitByte s' c with
           | [] => [[d]]
           | w :: ws => (d :: w) :: ws
           end
  end.

Lemma HasPrefix_spec s p : HasPrefix s p = true ↔ p `prefix_of` s.
Proof.
  revert s. induction p as [|c p IH]; intros s; simpl.
  - destruct s; split; [intros _; apply prefix_nil | done | intros _; apply prefix_nil | done].
  - destruct s as [|d s]; simpl.
    + split; [done|]. intros [k Hk]. done.
    + rewrite andb_true_iff, Ascii.eqb_eq, IH. split.
      * intros [-> H]. by apply prefix_cons.
      * intros [k Hk]. simplify_eq/=. split; [done | by exists k].
Qed.

Lemma HasPrefix_false s p : HasPrefix s p = false ↔ ¬ p `prefix_of` s.
Proof. rewrite <- HasPrefix_spec. destruct (HasPrefix s p); naive_solver. Qed.

Lemma HasPrefix_app p s : HasPrefix (p ++ s) p = true.
Proof. apply HasPrefix_spec. by apply prefix_app_r. Qed.

Lemma HasSuffix_spec s p : HasSuffix s p = true ↔ p `suffix_of` s.
Proof.
  unfold HasSuffix. rewrite HasPrefix_spec. split.
  - intros [k Hk]. exists (reverse k).
    apply (f_equal reverse) in Hk.
    by rewrite reverse_involutive, reverse_app, reverse_involutive in Hk.
  - intros [k ->]. exists (reverse k). apply reverse_app.
Qed.

Lemma drop_prefix (p s : gostring) : p `prefix_of` s → p ++ drop (length p) s = s.
Proof. intros [k ->]. by rewrite drop_app_length. Qed.

Lemma ContainsByte_spec s c : ContainsByte s c = true ↔ c ∈ s.
Proof.
  unfold ContainsByte. rewrite existsb_exists. setoid_rewrite <- list_elem_of_In. split.
  - intros (x & Hx & ->%Ascii.eqb_eq). done.
  - intros H. exists c. by rewrite Ascii.eqb_refl.
Qed.

Lemma SplitByte_cons s c : ∃ w ws, SplitByte s c = w :: ws.
Proof.
  destruct s as [|d s]; simpl; [eauto|].
  destruct (Ascii.eqb d c); [eauto|]. destruct (SplitByte s c); eauto.
Qed.

(** ** Lists *)

Lemma filter_none {A} (P : A → Prop) `{∀ x, Decision (P x)} (l : list A) :
  (∀ x, x ∈ l → ¬ P x) → filter P l = [].
Proof.
  intros Hl. induction l as [|x l IH]; [done|].
  rewrite filter_cons_False by (apply Hl; left). apply IH. intros y Hy. apply Hl. by right.
Qed.

Lemma filter_all {A} (P : A → Prop) `{∀ x, Decision (P x)} (l : list A) :
  (∀ x, x ∈ l → P x) → filter P l = l.
Proof.
  intros Hl. induction l as [|x l IH]; [done|].
  rewrite filter_cons_True by (apply Hl; left). f_equal. apply IH. intros y Hy. apply Hl. by right.
Qed.

(** ** Hint database of the development *)

Create HintDb lolly.
Create Rewrite HintDb lolly.
#[export] Hint Resolve wrap64_range swrap64_range time_sub_range HasPrefix_app : lolly.
