(* ===== verification/GoStrings.v ===== *)
(** * GoStrings: the functions of Go's [strings] and [strconv] the program uses

    Text is handled byte by byte: [ToLower] acts on ASCII characters and leaves every
    byte above 127 as it is (Go also folds the multi-byte characters of Unicode);
    [TrimSpace] trims the white space of Unicode too, by its encodings.  [Atoi] and
    [FormatInt] are the conversions between decimal text and [int], and inverse to
    each other. *)

From S2P Require Import Prelude.

(** ** Characters *)

Definition is_upper (c : ascii) : bool := (65 <=? byteZ c) && (byteZ c <=? 90).
Definition is_lower (c : ascii) : bool := (97 <=? byteZ c) && (byteZ c <=? 122).
Definition is_digit (c : ascii) : bool := (48 <=? byteZ c) && (byteZ c <=? 57).

Definition lower_byte (c : ascii) : ascii :=
  if is_upper c then ascii_of_N (N_of_ascii c + 32) else c.

(** [strings.ToLower] *)
Definition ToLower (s : gostring) : gostring := lower_byte <$> s.

(** [strings.ToUpper] *)
Definition upper_byte (c : ascii) : ascii := if is_lower c then ascii_of_N (N_of_ascii c - 32) else c.
Definition ToUpper (s : gostring) : gostring := upper_byte <$> s.

(** [strings.EqualFold], [bytes.EqualFold] *)
Definition EqualFold (s t : gostring) : bool := bool_decide (ToLower s = ToLower t).

(** The ASCII white space of [unicode.IsSpace]. *)
Definition is_space (c : ascii) : bool :=
  (byteZ c =? 32) || ((9 <=? byteZ c) && (byteZ c <=? 13)).

(** The encodings of the white space of [unicode.IsSpace]: the six bytes of ASCII, and
    U+0085, U+00A0, U+1680, U+2000 to U+200A, U+2028, U+2029, U+202F, U+205F, U+3000. *)
Definition of_bytes (l : list Z) : gostring := (λ z, ascii_of_N (Z.to_N z)) <$> l.

Definition white : list gostring :=
  of_bytes <$> ([[32]; [9]; [10]; [11]; [12]; [13]; [194; 133]; [194; 160]; [225; 154; 128]] ++
    ((λ z, [226; 128; z]) <$> seqZ 128 11) ++
    [[226; 128; 168]; [226; 128; 169]; [226; 128; 175]; [226; 129; 159]; [227; 128; 128]]).

(** What is left when the texts of [pats] are taken off the front; a text of [n] bytes
    has at most [n] of them. *)
Fixpoint trim_front (pats : list gostring) (fuel : nat) (s : gostring) : gostring :=
  match fuel with
  | O => s
  | S fuel =>
      match find (λ p, HasPrefix s p) pats with
      | Some p => trim_front pats fuel (drop (length p) s)
      | None => s
      end
  end.

Definition TrimLeftSpace (s : gostring) : gostring := trim_front white (length s) s.

(** [strings.TrimSpace].  No encoding ends within another, so that a character before
    the end is one that the reversed text begins with. *)
Definition TrimSpace (s : gostring) : gostring :=
  let l := reverse (TrimLeftSpace s) in reverse (trim_front (reverse <$> white) (length l) l).

(** [strings.TrimPrefix] and [strings.TrimSuffix] *)
Definition TrimPrefix (s p : gostring) : gostring :=
  if HasPrefix s p then drop (length p) s else s.
Definition TrimSuffix (s p : gostring) : gostring := default s (CutSuffix s p).

(** [strings.TrimRight(s, c)] for one byte [c]. *)
Fixpoint TrimLeftByte (s : gostring) (c : ascii) : gostring :=
  match s with
  | [] => []
  | d :: s' => if Ascii.eqb d c then TrimLeftByte s' c else s
  end.
Definition TrimRightByte (s : gostring) (c : ascii) : gostring :=
  reverse (TrimLeftByte (reverse s) c).

(** [strings.Join] *)
Fixpoint Join (l : list gostring) (sep : gostring) : gostring :=
  match l with
  | [] => []
  | [s] => s
  | s :: l' => s ++ sep ++ Join l' sep
  end.

(** [strings.Index(s, sub)] and [strings.Contains(s, sub)]. *)
Fixpoint Index (s sub : gostring) : option nat :=
  if HasPrefix s sub then Some 0%nat
  else match s with
       | [] => None
       | _ :: s' => S <$> Index s' sub
       end.

Definition Contains (s sub : gostring) : bool := bool_decide (is_Some (Index s sub)).

(** [strings.LastIndexByte] *)
Fixpoint LastIndexByte (s : gostring) (c : ascii) : option nat :=
  match s with
  | [] => None
  | d :: s' =>
      match LastIndexByte s' c with
      | Some i => Some (S i)
      | None => if Ascii.eqb d c then Some 0%nat else None
      end
  end.

(** ** Decimal numbers *)

Definition digit_val (c : ascii) : Z := byteZ c - 48.
Definition digit_char (d : Z) : ascii := ascii_of_N (Z.to_N (48 + d)).

Definition digits_val (s : gostring) : Z := foldl (λ acc c, acc * 10 + digit_val c) 0 s.

(** [strconv.Atoi]: the number, or an error for a syntax or a range error. *)
Definition Atoi (s : gostring) : option Z :=
  let '(neg, ds) :=
    match s with
    | c :: s' => if Ascii.eqb c "-" then (true, s') else if Ascii.eqb c "+" then (false, s') else (false, s)
    | [] => (false, [])
    end in
  match ds with
  | [] => None
  | _ =>
      if forallb is_digit ds then
        let n := if neg then - digits_val ds else digits_val ds in
        if (int64_min <=? n) && (n <=? int64_max) then Some n else None
      else None
  end.

(** The digits of a non-negative number, most significant first; [fuel] bounds
    their number. *)
Fixpoint digits_of (fuel : nat) (n : Z) (acc : gostring) : gostring :=
  match fuel with
  | O => acc
  | S f =>
      let acc := digit_char (n mod 10) :: acc in
      if n <? 10 then acc else digits_of f (n / 10) acc
  end.

(** [strconv.Itoa], [strconv.FormatInt(n, 10)]: an [int64] has at most 19 digits. *)
Definition FormatInt (n : Z) : gostring :=
  if n <? 0 then "-"%char :: digits_of 20 (- n) [] else digits_of 20 n [].

(** ** Lemmas *)

Lemma lower_byte_idem c : lower_byte (lower_byte c) = lower_byte c.
Proof. by destruct c as [[] [] [] [] [] [] [] []]. Qed.

Lemma ToLower_idem s : ToLower (ToLower s) = ToLower s.
Proof. unfold ToLower. rewrite <- list_fmap_compose. apply list_fmap_ext. intros _ c _. apply lower_byte_idem. Qed.

Lemma lower_byte_upper c : is_upper (lower_byte c) = false.
Proof. by destruct c as [[] [] [] [] [] [] [] []]. Qed.

Lemma ToLower_no_upper s c : c ∈ ToLower s → is_upper c = false.
Proof. intros (d & -> & _)%list_elem_of_fmap. apply lower_byte_upper. Qed.

Lemma digit_char_val d : 0 ≤ d < 10 → digit_val (digit_char d) = d ∧ is_digit (digit_char d) = true.
Proof.
  intros H. assert (d ∈ [0;1;2;3;4;5;6;7;8;9]) as Hin.
  { assert (d = 0 ∨ d = 1 ∨ d = 2 ∨ d = 3 ∨ d = 4 ∨ d = 5 ∨ d = 6 ∨ d = 7 ∨ d = 8 ∨ d = 9) by lia.
    set_solver. }
  set_unfold in Hin. repeat destruct Hin as [->|Hin]; done.
Qed.

Lemma digits_val_snoc s c : digits_val (s ++ [c]) = digits_val s * 10 + digit_val c.
Proof. unfold digits_val. by rewrite foldl_app. Qed.

Lemma digits_val_acc s a : foldl (λ acc c, acc * 10 + digit_val c) a s = a * 10 ^ zlen s + digits_val s.
Proof.
  revert a. induction s as [|c s IH] using rev_ind; intros a;
    [unfold digits_val; cbn [foldl length]; lia|].
  rewrite foldl_app, digits_val_snoc. simpl. rewrite IH, length_app. simpl.
  rewrite Nat2Z.inj_add, Z.pow_add_r by lia. change (10 ^ Z.of_nat 1) with 10. ring.
Qed.

Lemma digits_of_spec fuel n acc :
  0 ≤ n < 10 ^ Z.of_nat fuel → forallb is_digit acc = true → (0 < fuel)%nat →
  forallb is_digit (digits_of fuel n acc) = true ∧ digits_of fuel n acc ≠ [] ∧
  digits_val (digits_of fuel n acc) = n * 10 ^ zlen acc + digits_val acc.
Proof.
  revert n acc. induction fuel as [|f IH]; intros n acc Hn Hacc Hf; [lia|]. cbn [digits_of].
  destruct (digit_char_val (n mod 10)) as [Hv Hd]; [apply Z.mod_pos_bound; lia|].
  assert (forallb is_digit (digit_char (n mod 10) :: acc) = true) as Hacc'
    by (simpl; by rewrite Hd).
  assert (digits_val (digit_char (n mod 10) :: acc) = (n mod 10) * 10 ^ zlen acc + digits_val acc) as Hval.
  { unfold digits_val at 1. simpl. rewrite digits_val_acc, Hv. lia. }
  destruct (Z.ltb_spec n 10).
  - split_and!; [done|done|]. rewrite Hval, Z.mod_small; lia.
  - assert (n / 10 < 10 ^ Z.of_nat f).
    { apply Z.div_lt_upper_bound; [lia|]. rewrite Nat2Z.inj_succ, Z.pow_succ_r in Hn; lia. }
    assert (0 < n / 10) by (apply Z.div_str_pos; lia).
    destruct (IH (n / 10) (digit_char (n mod 10) :: acc)) as (Ha & Hb & Hc).
    + lia.
    + done.
    + destruct f; [simpl in *; lia|lia].
    + split_and!; [done|done|]. rewrite Hc, Hval. simpl length.
      rewrite Nat2Z.inj_succ, Z.pow_succ_r by lia.
      pose proof (Z.div_mod n 10 ltac:(lia)). nia.
Qed.

Lemma digit_not_sign c : is_digit c = true → Ascii.eqb c "-" = false ∧ Ascii.eqb c "+" = false.
Proof. destruct c as [[] [] [] [] [] [] [] []]; try done. Qed.

(** Parsing what was printed gives the number back. *)
Lemma Atoi_FormatInt n : in_int64 n → Atoi (FormatInt n) = Some n.
Proof.
  unfold in_int64, int64_min, int64_max. intros Hn. unfold FormatInt.
  assert (∀ m, 0 ≤ m ≤ 2 ^ 63 → let d := digits_of 20 m [] in
     forallb is_digit d = true ∧ d ≠ [] ∧ digits_val d = m) as Hd.
  { intros m Hm. destruct (digits_of_spec 20 m []) as (? & ? & Hv); [lia|done|lia|].
    split_and!; [done..|]. rewrite Hv. unfold digits_val. simpl. lia. }
  destruct (Z.ltb_spec n 0).
  - destruct (Hd (- n)) as (H1 & H2 & H3); [lia|]. unfold Atoi. rewrite (Ascii.eqb_refl "-").
    rewrite H1, H3. destruct (digits_of 20 (- n) []) eqn:E; [done|].
    unfold int64_min, int64_max. rewrite Z.opp_involutive.
    by rewrite !(proj2 (Z.leb_le _ _)) by lia.
  - destruct (Hd n) as (H1 & H2 & H3); [lia|]. unfold Atoi.
    destruct (digits_of 20 n []) as [|c ds] eqn:E; [done|].
    assert (is_digit c = true) as Hc by (simpl in H1; by apply andb_true_iff in H1 as [? _]).
    destruct (digit_not_sign c Hc) as [-> ->]. rewrite H1, H3.
    unfold int64_min, int64_max. by rewrite !(proj2 (Z.leb_le _ _)) by lia.
Qed.

Lemma Join_SplitByte s c : Join (SplitByte s c) [c] = s.
Proof.
  induction s as [|d s IH]; [done|]. simpl.
  destruct (SplitByte_cons s c) as (w & ws & E). rewrite E in *.
  destruct (Ascii.eqb_spec d c) as [->|Hne].
  - cbn [Join app] in *. by rewrite IH.
  - rewrite <- IH. by destruct ws.
Qed.

Lemma Index_spec s sub i :
  Index s sub = Some i → sub `prefix_of` drop i s ∧ (i ≤ length s)%nat ∧
    ∀ j, (j < i)%nat → ¬ sub `prefix_of` drop j s.
Proof.
  revert i. induction s as [|c s IH]; intros i; cbn [Index length].
  - destruct (HasPrefix [] sub) eqn:E; [|done]. intros [= <-].
    apply HasPrefix_spec in E. split_and!; [done|lia|lia].
  - destruct (HasPrefix (c :: s) sub) eqn:E.
    + intros [= <-]. apply HasPrefix_spec in E. split_and!; [done|lia|lia].
    + destruct (Index s sub) as [k|] eqn:Ek; simpl; [|done]. intros [= <-].
      destruct (IH k eq_refl) as (H1 & H2 & H3). split_and!; [done|lia|].
      intros [|j] Hj; [by apply HasPrefix_false in E|]. apply H3. lia.
Qed.

Lemma Index_None s sub j : Index s sub = None → ¬ sub `prefix_of` drop j s.
Proof.
  revert j. induction s as [|c s IH]; intros j; cbn [Index].
  - destruct (HasPrefix [] sub) eqn:E; [done|]. intros _. rewrite drop_nil.
    by apply HasPrefix_false in E.
  - destruct (HasPrefix (c :: s) sub) eqn:E; [done|].
    destruct (Index s sub) eqn:Ek; [done|]. intros _.
    destruct j; [by apply HasPrefix_false in E|]. by apply IH.
Qed.

Lemma FormatInt_digits n :
  0 ≤ n ≤ int64_max → forallb is_digit (FormatInt n) = true ∧ FormatInt n ≠ [].
Proof.
  unfold int64_max. intros Hn. unfold FormatInt. rewrite (proj2 (Z.ltb_ge n 0)) by lia.
  destruct (digits_of_spec 20 n []) as (? & ? & _); [lia|done|lia|done].
Qed.

Lemma SplitByte_none s c : c ∉ s → SplitByte s c = [s].
Proof.
  induction s as [|d s IH]; intros Hc; [done|]. apply not_elem_of_cons in Hc as [Hne Hc].
  simpl. rewrite IH by done. destruct (Ascii.eqb_spec d c); congruence.
Qed.

Lemma SplitByte_app a b c : c ∉ a → SplitByte (a ++ c :: b) c = a :: SplitByte b c.
Proof.
  induction a as [|d a IH]; intros Hc; simpl; [by rewrite Ascii.eqb_refl|].
  apply not_elem_of_cons in Hc as [Hne Hc]. rewrite IH by done.
  destruct (Ascii.eqb_spec d c); congruence.
Qed.

(** What is joined by a byte that is in none of the parts. *)
Lemma SplitByte_Join l c : l ≠ [] → Forall (λ s, c ∉ s) l → SplitByte (Join l [c]) c = l.
Proof.
  intros Hl H. induction H as [|s l Hs H IH]; [done|]. destruct l as [|t l].
  - cbn. by apply SplitByte_none.
  - change (Join (s :: t :: l) [c]) with (s ++ c :: Join (t :: l) [c]).
    by rewrite SplitByte_app, IH.
Qed.

Lemma Join_free l sep c : c ∉ sep → Forall (λ s, c ∉ s) l → c ∉ Join l sep.
Proof.
  intros Hsep H. induction H as [|s l Hs H IH]; [apply not_elem_of_nil|]. destruct l as [|t l]; [done|].
  change (Join (s :: t :: l) sep) with (s ++ sep ++ Join (t :: l) sep). rewrite !elem_of_app. tauto.
Qed.

(** No byte of a white space. *)
Definition plain (c : ascii) : bool := negb (is_space c) && (byteZ c <? 128).

Lemma white_bytes p : p ∈ white → ∃ c r r', p = c :: r ∧ reverse p = r' ∧
  plain c = false ∧ ∃ d r'', r' = d :: r'' ∧ plain d = false.
Proof.
  intros Hp.
  assert (forallb (λ p, match p, reverse p with
    | c :: _, d :: _ => negb (plain c) && negb (plain d) | _, _ => false end) white = true) as H by by vm_compute.
  rewrite forallb_forall in H. apply list_elem_of_In, H in Hp.
  destruct p as [|c r]; [done|]. destruct (reverse (c :: r)) as [|d r''] eqn:E; [done|].
  apply andb_true_iff in Hp as [Hc%negb_true_iff Hd%negb_true_iff].
  exists c, r, (d :: r''). split_and!; [done|done|done|]. by exists d, r''.
Qed.

Lemma trim_front_id pats fuel s :
  (∀ p, p ∈ pats → ∃ c r, p = c :: r ∧ plain c = false) → (∀ c, c ∈ s → plain c = true) →
  trim_front pats fuel s = s.
Proof.
  intros Hp Hs. destruct fuel as [|fuel]; [done|]. cbn [trim_front].
  destruct (find _ pats) as [p|] eqn:E; [|done]. apply find_some in E as [Hin Hpre].
  apply list_elem_of_In, Hp in Hin as (c & r & -> & Hc). apply HasPrefix_spec in Hpre as [k ->].
  rewrite (Hs c) in Hc by by left. done.
Qed.

(** Nothing to trim in a text without a byte of a white space. *)
Lemma TrimSpace_id s : (∀ c, c ∈ s → plain c = true) → TrimSpace s = s.
Proof.
  intros Hs. unfold TrimSpace, TrimLeftSpace. rewrite (trim_front_id white).
  - rewrite trim_front_id; [apply reverse_involutive| |].
    + intros p (q & -> & Hq)%list_elem_of_fmap. destruct (white_bytes q Hq) as (c & l & l' & -> & <- & _ & d & l'' & -> & Hd).
      by exists d, l''.
    + intros c Hc. apply Hs. by rewrite <- elem_of_reverse.
  - intros p Hp. destruct (white_bytes p Hp) as (c & l & _ & -> & _ & Hc & _). by exists c, l.
  - done.
Qed.

Lemma trim_front_nil pats fuel s :
  trim_front pats fuel s = [] → s = [] ∨ ∃ p k, p ∈ pats ∧ s = k ++ p.
Proof.
  revert s. induction fuel as [|fuel IH]; intros s; cbn [trim_front]; [by left|].
  destruct (find _ pats) as [p|] eqn:E; [|by left]. apply find_some in E as [Hin [k ->]%HasPrefix_spec].
  apply list_elem_of_In in Hin. rewrite drop_app_length. intros [->|(q & k' & Hq & ->)]%IH; right.
  - exists p, []. by rewrite app_nil_r.
  - exists q, (p ++ k'). by rewrite app_assoc.
Qed.

(** A text that is trimmed to nothing begins with a white space. *)
Lemma TrimSpace_nil s : TrimSpace s = [] → s = [] ∨ ∃ p k, p ∈ white ∧ s = p ++ k.
Proof.
  unfold TrimSpace. intros H. apply (f_equal reverse) in H. rewrite reverse_involutive in H.
  apply trim_front_nil in H as [H|(p & k & (q & -> & Hq)%list_elem_of_fmap & H)].
  - apply (f_equal reverse) in H. rewrite reverse_involutive in H. unfold TrimLeftSpace in H.
    destruct s as [|c s]; [by left|right]. cbn [length trim_front] in H.
    destruct (find _ white) as [p|] eqn:E; [|done]. apply find_some in E as [Hin [k Hk]%HasPrefix_spec].
    apply list_elem_of_In in Hin. by exists p, k.
  - apply (f_equal reverse) in H. rewrite reverse_involutive, reverse_app, reverse_involutive in H.
    unfold TrimLeftSpace in H. destruct s as [|c s]; [by left|right]. cbn [length trim_front] in H.
    destruct (find _ white) as [p|] eqn:E.
    + apply find_some in E as [Hin [l Hl]%HasPrefix_spec]. apply list_elem_of_In in Hin. by exists p, l.
    + by exists q, (reverse k).
Qed.

Lemma digit_plain c : is_digit c = true → plain c = true.
Proof. by destruct c as [[] [] [] [] [] [] [] []]. Qed.

Lemma digits_char s c :
  forallb is_digit s = true → c ∈ s → is_space c = false ∧ c ≠ "-"%char ∧ c ≠ ":"%char.
Proof.
  rewrite forallb_forall. intros Hs Hc. rewrite list_elem_of_In in Hc. specialize (Hs c Hc).
  destruct c as [[] [] [] [] [] [] [] []]; done.
Qed.

#[export] Hint Rewrite ToLower_idem Join_SplitByte : lolly.

(** The decimal digits that a loop of the code collects from the last to the first. *)
Fixpoint rev_digits (fuel : nat) (n : Z) (buf : gostring) : gostring :=
  match fuel with
  | O => buf
  | S fuel => if 0 <? n then rev_digits fuel (n / 10) (buf ++ [digit_char (n mod 10)]) else buf
  end.

Lemma rev_digits_spec fuel n :
  0 < n < 10 ^ Z.of_nat fuel →
  ∃ D, (∀ acc, digits_of fuel n acc = D ++ acc) ∧ (∀ buf, rev_digits fuel n buf = buf ++ reverse D).
Proof.
  revert n. induction fuel as [|fuel IH]; intros n Hn; [cbn in Hn; lia|]. cbn [digits_of rev_digits].
  rewrite (proj2 (Z.ltb_lt 0 n)) by lia. destruct (n <? 10) eqn:H10; bool_to_prop.
  - exists [digit_char (n mod 10)]. split; [done|]. intros buf. rewrite Z.div_small by lia. by destruct fuel.
  - destruct (IH (n / 10)) as (D & HD & HR).
    { split; [apply Z.div_str_pos; lia|]. apply Z.div_lt_upper_bound; [lia|].
      replace (Z.of_nat (S fuel)) with (1 + Z.of_nat fuel) in Hn by lia. rewrite Z.pow_add_r in Hn by lia. lia. }
    exists (D ++ [digit_char (n mod 10)]). split; intros x.
    + by rewrite HD, <- app_assoc.
    + by rewrite HR, reverse_app, <- app_assoc.
Qed.

(** Turned around they are [FormatInt]. *)
Lemma rev_digits_FormatInt n : 0 < n ≤ int64_max → reverse (rev_digits 20 n []) = FormatInt n.
Proof.
  unfold int64_max. intros Hn. unfold FormatInt. rewrite (proj2 (Z.ltb_ge n 0)) by lia.
  destruct (rev_digits_spec 20 n) as (D & HD & HR); [lia|]. by rewrite HD, HR, app_nil_r, app_nil_l, reverse_involutive.
Qed.
