(* ===== verification/Float64.v ===== *)
(** * Float64: Go's [float64]

    IEEE 754 binary64 arithmetic, computed by the specification of floating
    point numbers of the Standard Library ([SpecFloat]): every operation rounds
    to nearest, ties to even.  Conversions from [int] round; conversions to
    [int] truncate towards zero, with the result the amd64 instruction gives
    where the value is out of range. *)

From Corelib Require Import SpecFloat.
From S2P Require Import Prelude.

Definition f64_prec : Z := 53.
Definition f64_emax : Z := 1024.

Abbreviation float64 := spec_float.

(** [float64(z)] *)
Definition f64_of_int (z : Z) : float64 := binary_normalize f64_prec f64_emax z 0 false.

Definition f64_add : float64 → float64 → float64 := SFadd f64_prec f64_emax.
Definition f64_sub : float64 → float64 → float64 := SFsub f64_prec f64_emax.
Definition f64_mul : float64 → float64 → float64 := SFmul f64_prec f64_emax.
Definition f64_div : float64 → float64 → float64 := SFdiv f64_prec f64_emax.
Definition f64_ltb : float64 → float64 → bool := SFltb.
Definition f64_leb : float64 → float64 → bool := SFleb.

(** [math.Min], on numbers other than NaN. *)
Definition f64_min (a b : float64) : float64 := if f64_ltb b a then b else a.

(** The integer part of a finite number. *)
Definition f64_trunc (f : float64) : Z :=
  match f with
  | S754_finite s m e => let v := Z.shiftl (Zpos m) e in if s then - v else v
  | _ => 0
  end.

(** [int(f)] *)
Definition int_of_f64 (f : float64) : Z :=
  match f with
  | S754_nan | S754_infinity _ => int64_min
  | _ => let v := f64_trunc f in
         if (int64_min <=? v) && (v <=? int64_max) then v else int64_min
  end.

Lemma int_of_f64_range f : in_int64 (int_of_f64 f).
Proof.
  unfold in_int64, int_of_f64.
  assert (int64_min ≤ int64_min ≤ int64_max) by (unfold int64_min, int64_max; lia).
  repeat case_match; bool_to_prop; lia.
Qed.

#[export] Hint Resolve int_of_f64_range : lolly.
