(* ===== verification/LinkedList.v ===== *)
(** * LinkedList: Go's [container/list]

    A doubly linked list is the sequence of its nodes, front first; a node is an
    identity (the [*list.Element] the program keeps) with the value pushed with
    it.  The dictionary of [SharedDict] and the file cache of [FileCache] keep
    their order of use in such a list. *)

From S2P Require Import Prelude.

Section LinkedList.
Context {A : Type}.
Implicit Types l : list (nat * A).

(** [l.Remove(e)] *)
Definition Remove l (id : nat) : list (nat * A) := filter (λ n, n.1 ≠ id) l.

(** [l.MoveToFront(e)]: a node that is not on the list is left alone. *)
Definition MoveToFront l (id : nat) : list (nat * A) :=
  match list_find (λ n : nat * A, n.1 = id) l with
  | Some (_, n) => n :: Remove l id
  | None => l
  end.

Lemma NoDup_fst_inj l id a a' :
  NoDup l.*1 → (id, a) ∈ l → (id, a') ∈ l → a = a'.
Proof.
  intros Hnd Ha Ha'. apply list_elem_of_lookup in Ha as [i Hi], Ha' as [j Hj].
  assert (i = j) as ->.
  { eapply (NoDup_lookup l.*1); [done|rewrite list_lookup_fmap, Hi; done|by rewrite list_lookup_fmap, Hj]. }
  congruence.
Qed.

Lemma Remove_sublist l id : Remove l id `sublist_of` l.
Proof. apply sublist_filter. Qed.

Lemma elem_of_Remove l id n : n ∈ Remove l id ↔ n ∈ l ∧ n.1 ≠ id.
Proof. unfold Remove. rewrite list_elem_of_filter. tauto. Qed.

Lemma NoDup_Remove {B} (f : nat * A → B) l id : NoDup (f <$> l) → NoDup (f <$> Remove l id).
Proof. intros Hnd. eapply sublist_NoDup; [exact Hnd|]. apply fmap_sublist, Remove_sublist. Qed.

(** Taking a node off the list: where it was. *)
Lemma Remove_split l l1 l2 id a :
  NoDup l.*1 → l = l1 ++ (id, a) :: l2 → Remove l id = l1 ++ l2.
Proof.
  intros Hnd ->. rewrite fmap_app, fmap_cons in Hnd. unfold Remove.
  rewrite filter_app, filter_cons_False by auto.
  apply NoDup_app in Hnd as (_ & Hd & [Hn _]%NoDup_cons).
  rewrite !filter_all; [done| |].
  - intros m Hm Heq. apply Hn. simpl. rewrite <- Heq. by apply list_elem_of_fmap_2.
  - intros m Hm Heq. apply (Hd m.1); [by apply list_elem_of_fmap_2|]. rewrite Heq. by left.
Qed.

Lemma Remove_last l id a : NoDup (l ++ [(id, a)]).*1 → Remove (l ++ [(id, a)]) id = l.
Proof. intros Hnd. by rewrite (Remove_split _ l [] id a), app_nil_r. Qed.

Lemma MoveToFront_perm l id : NoDup l.*1 → MoveToFront l id ≡ₚ l.
Proof.
  intros Hnd. unfold MoveToFront. destruct (list_find _ l) as [[i [id' a]]|] eqn:E; [|done].
  apply list_find_Some in E as (Hi & <- & _). simpl in *.
  apply list_elem_of_split_length in Hi as (l1 & l2 & Hl & _).
  rewrite (Remove_split l l1 l2 id' a) by done. rewrite Hl. by rewrite Permutation_middle.
Qed.

(** A node on the list comes first after the move. *)
Lemma MoveToFront_In l id a :
  NoDup l.*1 → (id, a) ∈ l → MoveToFront l id = (id, a) :: Remove l id.
Proof.
  intros Hnd Hin. unfold MoveToFront. destruct (list_find _ l) as [[i [id' a']]|] eqn:E.
  - apply list_find_Some in E as (Hi & Heq & _). simpl in *. subst id'.
    apply list_elem_of_lookup_2 in Hi. by rewrite (NoDup_fst_inj l id a a').
  - apply list_find_None in E. rewrite Forall_forall in E. by apply E in Hin.
Qed.
End LinkedList.
