(* ===== verification/GoPath.v ===== *)
(** * GoPath: the slash-separated paths of Go's [path] package

    [path.Clean], [path.Join], [path.Dir] and [path.Base] (and those of
    [filepath] on Unix), as the parser of nginx files, the proxy and the static
    file handler use them, with the facts that make cleaning a defence: a cleaned
    rooted path has no [..] left. *)

From S2P Require Import Prelude GoStrings.

Definition slash : ascii := "/".
Definition dot : gostring := go!".".
Definition dotdot : gostring := go!"..".

(** One element of the path; [stack] holds the result so far, last element first. *)
Definition clean_step (rooted : bool) (stack : list gostring) (elem : gostring) : list gostring :=
  if decide (elem = [] ∨ elem = dot) then stack
  else if decide (elem = dotdot) then
    match stack with
    | top :: below => if decide (top = dotdot) then elem :: stack else below
    | [] => if rooted then [] else [elem]
    end
  else elem :: stack.

Definition IsAbs (path : gostring) : bool := HasPrefix path [slash].

Definition clean_elems (path : gostring) : list gostring :=
  reverse (foldl (clean_step (IsAbs path)) [] (SplitByte path slash)).

Definition Clean (path : gostring) : gostring :=
  let body := GoStrings.Join (clean_elems path) [slash] in
  if IsAbs path then slash :: body
  else if decide (body = []) then dot else body.

(** [path.Join] of two elements. *)
Definition JoinPath (a b : gostring) : gostring :=
  if decide (a = []) then (if decide (b = []) then [] else Clean b)
  else if decide (b = []) then Clean a
  else Clean (a ++ slash :: b).

(** [path.Dir]: what precedes the last slash, cleaned. *)
Definition Dir (path : gostring) : gostring :=
  match LastIndexByte path slash with
  | Some i => Clean (take (S i) path)
  | None => dot
  end.

(** ** What is left after cleaning *)

(** An element that cleaning keeps. *)
Definition plain (e : gostring) : Prop := e ≠ [] ∧ e ≠ dot ∧ e ≠ dotdot ∧ slash ∉ e.

Lemma SplitByte_no_sep s c e : e ∈ SplitByte s c → c ∉ e.
Proof.
  revert e. induction s as [|d s IH]; intros e; simpl.
  - intros ->%list_elem_of_singleton Hc. by apply elem_of_nil in Hc.
  - destruct (Ascii.eqb d c) eqn:E.
    + intros [->|He]%elem_of_cons; [by intros ?%elem_of_nil|by apply IH].
    + apply Ascii.eqb_neq in E. destruct (SplitByte s c) as [|x l].
      * intros ->%list_elem_of_singleton ?%list_elem_of_singleton. congruence.
      * intros [->|He]%elem_of_cons; [|apply IH; by right].
        intros [?|Hc]%elem_of_cons; [congruence|]. apply (IH x); [by left|done].
Qed.

Lemma clean_step_plain stack e :
  slash ∉ e → Forall plain stack → Forall plain (clean_step true stack e).
Proof.
  intros He Hs. unfold clean_step. case_decide as H1; [done|]. case_decide as H2.
  - destruct Hs as [|top below Ht Hb]; [done|]. case_decide as H3; [|done]. by destruct Ht as (_ & _ & ? & _).
  - constructor; [|done]. split_and!; [tauto|tauto|done|done].
Qed.

Lemma clean_elems_plain path : IsAbs path = true → Forall plain (clean_elems path).
Proof.
  intros Ha. unfold clean_elems. rewrite Ha. apply Forall_reverse.
  assert (∀ e, e ∈ SplitByte path slash → slash ∉ e) as Hsep by (intros e; apply SplitByte_no_sep).
  revert Hsep. generalize (Forall_nil_2 plain). generalize (@nil gostring) as stack.
  induction (SplitByte path slash) as [|e l IH]; intros stack Hst Hsep; [done|]. simpl.
  apply IH; [|intros; apply Hsep; by right]. apply clean_step_plain; [apply Hsep; by left|done].
Qed.

Lemma clean_step_keep stack e : plain e → clean_step true stack e = e :: stack.
Proof.
  intros (H1 & H2 & H3 & _). unfold clean_step. rewrite decide_False by tauto. by rewrite decide_False.
Qed.

Lemma clean_plain l stack : Forall plain l → foldl (clean_step true) stack l = reverse l ++ stack.
Proof.
  revert stack. induction l as [|e l IH]; intros stack Hl; [done|].
  apply Forall_cons in Hl as [He Hl]. simpl. rewrite clean_step_keep by done. rewrite IH by done.
  by rewrite reverse_cons, <- app_assoc.
Qed.

Lemma IsAbs_slash s : IsAbs (slash :: s) = true.
Proof. apply (HasPrefix_app [slash]). Qed.

(** Cleaning is idempotent on rooted paths, and its elements are those it kept. *)
Lemma clean_elems_Clean path : IsAbs path = true → clean_elems (Clean path) = clean_elems path.
Proof.
  intros Ha. pose proof (clean_elems_plain path Ha) as Hp. unfold Clean. rewrite Ha.
  unfold clean_elems at 1. rewrite IsAbs_slash. cbn [SplitByte].
  rewrite Ascii.eqb_refl. cbn [foldl]. change (clean_step true [] []) with (@nil gostring).
  destruct (decide (clean_elems path = [])) as [->|Hne]; [done|].
  rewrite SplitByte_Join; [|done|].
  - rewrite clean_plain by done. by rewrite app_nil_r, reverse_involutive.
  - eapply Forall_impl; [done|]. by intros e (_ & _ & _ & ?).
Qed.

Lemma Clean_idem path : IsAbs path = true → Clean (Clean path) = Clean path.
Proof.
  intros Ha. assert (IsAbs (Clean path) = true) as Ha' by (unfold Clean; rewrite Ha; apply IsAbs_slash).
  unfold Clean at 1. rewrite Ha', clean_elems_Clean by done. unfold Clean. by rewrite Ha.
Qed.

(** ** Staying below a directory *)

Lemma SplitByte_app_any a b c : SplitByte (a ++ c :: b) c = SplitByte a c ++ SplitByte b c.
Proof.
  induction a as [|d a IH]; cbn [SplitByte app]; [by rewrite Ascii.eqb_refl|]. rewrite IH.
  destruct (Ascii.eqb d c); [done|]. by destruct (SplitByte_cons a c) as (w & ws & ->).
Qed.

(** No element of the path is [..]. *)
Definition no_dotdot (p : gostring) : Prop := dotdot ∉ SplitByte p slash.

Lemma SplitByte_elem_split p c e : e ∈ SplitByte p c → ∃ a b, p = a ++ e ++ b.
Proof.
  revert e. induction p as [|d p IH]; intros e; cbn [SplitByte].
  - intros ->%list_elem_of_singleton. by exists [], [].
  - destruct (Ascii.eqb d c).
    + intros [->|(a & b & ->)%IH]%elem_of_cons; [by exists [], (d :: p)|by exists (d :: a), b].
    + pose proof (SplitByte_cons p c) as (w & ws & E). rewrite E in *.
      intros [->|Hin]%elem_of_cons.
      * assert (∃ b, p = w ++ b) as [b ->]; [|by exists [], b].
        pose proof (Join_SplitByte p c) as HJ. rewrite E in HJ. destruct ws as [|w' ws]; cbn in HJ.
        { exists []. by rewrite app_nil_r. }
        by exists (c :: GoStrings.Join (w' :: ws) [c]).
      * destruct (IH e) as (a & b & ->); [by right|]. by exists (d :: a), b.
Qed.

Lemma Contains_app a e b : GoStrings.Contains (a ++ e ++ b) e = true.
Proof.
  unfold GoStrings.Contains. apply bool_decide_eq_true. induction a as [|c a IH]; cbn [app].
  - destruct (e ++ b) eqn:E; cbn [GoStrings.Index]; rewrite <- ?E; [|by rewrite HasPrefix_app; eexists].
    apply app_eq_nil in E as [-> ->]. by eexists.
  - cbn [GoStrings.Index]. destruct (HasPrefix _ _); [by eexists|]. destruct IH as [i ->]. by eexists.
Qed.

Lemma no_dotdot_contains p : GoStrings.Contains p dotdot = false → no_dotdot p.
Proof.
  intros Hc Hin. apply SplitByte_elem_split in Hin as (a & b & ->). by rewrite Contains_app in Hc.
Qed.

Lemma clean_keep_all stack l :
  dotdot ∉ l → ∃ kept, foldl (clean_step true) stack l = reverse kept ++ stack.
Proof.
  revert stack. induction l as [|e l IH]; intros stack Hl; [by exists []|]. cbn [foldl].
  apply not_elem_of_cons in Hl as [He Hl]. unfold clean_step at 2. case_decide; [by apply IH|].
  rewrite decide_False by done. destruct (IH (e :: stack) Hl) as [kept ->].
  exists (e :: kept). by rewrite reverse_cons, <- app_assoc.
Qed.

Lemma Join_app xs ys c : xs ≠ [] → ys ≠ [] → GoStrings.Join (xs ++ ys) c = GoStrings.Join xs c ++ c ++ GoStrings.Join ys c.
Proof.
  intros Hx Hy. induction xs as [|x xs IH]; [done|]. destruct xs as [|x' xs].
  - cbn. by destruct ys.
  - cbn [app] in *. change (GoStrings.Join (x :: x' :: xs ++ ys) c) with (x ++ c ++ GoStrings.Join (x' :: xs ++ ys) c).
    rewrite IH by done. cbn. by rewrite <- !app_assoc.
Qed.

(** [root] or a path below it. *)
Definition below (root p : gostring) : Prop := p = root ∨ ∃ q, p = root ++ slash :: q.

(** A rooted directory other than the root of the file system. *)
Definition proper_dir (d : gostring) : Prop := IsAbs d = true ∧ Clean d ≠ [slash].

Lemma Clean_below d p : proper_dir d → no_dotdot p → below (Clean d) (Clean (d ++ slash :: p)).
Proof.
  intros [Ha Hne] Hp.
  assert (IsAbs (d ++ slash :: p) = true) as Ha'.
  { unfold IsAbs in *. apply HasPrefix_spec in Ha as [k ->]. apply (HasPrefix_app [slash]). }
  assert (∃ kept, clean_elems (d ++ slash :: p) = clean_elems d ++ kept) as [kept He].
  { unfold clean_elems. rewrite Ha', Ha, SplitByte_app_any, foldl_app.
    destruct (clean_keep_all (foldl (clean_step true) [] (SplitByte d slash)) (SplitByte p slash) Hp) as [kept ->].
    exists kept. by rewrite reverse_app, reverse_involutive. }
  unfold Clean in *. rewrite Ha', Ha, He in *. destruct kept as [|k kept]; [left; by rewrite app_nil_r|right].
  exists (GoStrings.Join (k :: kept) [slash]). rewrite Join_app; [done| |done]. intros Hnil. by rewrite Hnil in Hne.
Qed.

Lemma JoinPath_below d p : proper_dir d → no_dotdot p → below (Clean d) (JoinPath d p).
Proof.
  intros Hd Hp. unfold JoinPath. rewrite (decide_False (P := d = [])) by (intros ->; by destruct Hd).
  case_decide; [by left|by apply Clean_below].
Qed.

Lemma Clean_abs d : IsAbs d = true → IsAbs (Clean d) = true.
Proof. intros Ha. unfold Clean. rewrite Ha. apply IsAbs_slash. Qed.

Lemma JoinPath_clean d p : IsAbs d = true → Clean (JoinPath d p) = JoinPath d p.
Proof.
  intros Ha. unfold JoinPath. rewrite (decide_False (P := d = [])) by (by intros ->).
  case_decide; [by apply Clean_idem|]. apply Clean_idem. unfold IsAbs in *.
  apply HasPrefix_spec in Ha as [k ->]. apply (HasPrefix_app [slash]).
Qed.

Lemma below_proper root p : proper_dir root → Clean root = root → Clean p = p → below root p → proper_dir p.
Proof.
  intros [Ha Hne] Hc Hp [->|[q ->]]; [by split|]. split.
  - unfold IsAbs in *. apply HasPrefix_spec in Ha as [k ->]. apply (HasPrefix_app [slash]).
  - rewrite Hp. rewrite Hc in Hne. intros E. apply (f_equal length) in E. rewrite length_app in E. cbn in E.
    destruct root; [done|cbn in E; lia].
Qed.

Lemma below_trans a b c : below a b → below b c → below a c.
Proof.
  intros [->|[q ->]] [->|[q' ->]]; [by left|by right; eexists|by right; eexists|].
  right. exists (q ++ slash :: q'). by rewrite <- app_assoc.
Qed.

(** Text without separators goes to the last element. *)
Lemma SplitByte_app_last p t c :
  c ∉ t → ∃ ws w, SplitByte p c = ws ++ [w] ∧ SplitByte (p ++ t) c = ws ++ [w ++ t].
Proof.
  intros Ht. induction p as [|d p (ws & w & IH & IH')]; cbn [SplitByte app].
  - exists [], []. by rewrite SplitByte_none.
  - rewrite IH, IH'. destruct (Ascii.eqb d c); [by exists ([] :: ws), w|].
    destruct ws as [|x ws]; [by exists [], (d :: w)|by exists ((d :: x) :: ws), w].
Qed.

(** An extension keeps a path free of [..]. *)
Lemma no_dotdot_extension p ext :
  no_dotdot p → slash ∉ ext → ext ≠ [] → HasPrefix ext dot = false → no_dotdot (p ++ "."%char :: ext).
Proof.
  intros Hp Hs Hne Hd. destruct (SplitByte_app_last p ("."%char :: ext) slash) as (ws & w & E & E').
  { by apply not_elem_of_cons. }
  unfold no_dotdot in *. rewrite E'. rewrite E in Hp. rewrite elem_of_app in *.
  intros [?|Hin%list_elem_of_singleton]; [tauto|].
  change dotdot with ["."; "."]%char in Hin.
  destruct w as [|a [|b w]]; cbn in Hin; [injection Hin as <-; by cbn in Hd|by injection Hin as _ <-|].
  by destruct w.
Qed.

Lemma no_dotdot_slash p : no_dotdot p → no_dotdot (p ++ [slash]).
Proof.
  unfold no_dotdot. rewrite SplitByte_app_any, elem_of_app. intros Hp [?|Hin]; [done|].
  by apply list_elem_of_singleton in Hin.
Qed.

Lemma no_dotdot_cons_slash p : no_dotdot p → no_dotdot (slash :: p).
Proof. unfold no_dotdot. cbn [SplitByte]. rewrite Ascii.eqb_refl. by rewrite not_elem_of_cons. Qed.

Lemma no_dotdot_drop p n : GoStrings.Contains p dotdot = false → no_dotdot (drop n p).
Proof.
  intros Hc Hin. apply SplitByte_elem_split in Hin as (a & b & E).
  rewrite <- (take_drop n p), E, app_assoc, Contains_app in Hc. done.
Qed.

Lemma JoinPath_root q : IsAbs q = true → JoinPath [slash] q = Clean q.
Proof.
  intros Ha. unfold JoinPath. rewrite decide_False by done. case_decide as Hq; [by rewrite Hq in Ha|].
  change ([slash] ++ slash :: q) with (slash :: slash :: q).
  assert (clean_elems (slash :: slash :: q) = clean_elems q) as He.
  { unfold clean_elems. rewrite IsAbs_slash, Ha. cbn [SplitByte]. by rewrite Ascii.eqb_refl. }
  unfold Clean. by rewrite He, IsAbs_slash, Ha.
Qed.
