(* ===== verification/Hash.v ===== *)
(** * Hash: the FNV-1a hash of [src/internal/hash/hash.go]

    [FNV64a] is the hash every sharded table and every hash-based balancer of
    the program uses.  The file gives it as the loop of the source over 64-bit
    words and shows that each round is a bijection of the state, hence that two
    keys that differ in one byte never collide. *)

From S2P Require Import Prelude.

Definition fnv_offset : Z := 14695981039346656037.
Definition fnv_prime : Z := 1099511628211.

(** One iteration: [h ^= uint64(key[i]); h *= 1099511628211]. *)
Definition fnv_step (h : Z) (c : ascii) : Z := wrap64 (Z.lxor h (byteZ c) * fnv_prime).

(** [FNV64aBytes] is the same loop over a byte slice. *)
Definition FNV64a (key : gostring) : Z := foldl fnv_step fnv_offset key.
Definition FNV64aBytes (key : gostring) : Z := foldl fnv_step fnv_offset key.

(** ** Words *)

(** The inverse of the FNV prime modulo [2 ^ 64]. *)
Definition fnv_prime_inv : Z := 14886173955864302971.

Lemma byteZ_range c : 0 ≤ byteZ c < 256.
Proof. unfold byteZ. pose proof (N_ascii_bounded c). lia. Qed.

Lemma byteZ_inj a b : byteZ a = byteZ b → a = b.
Proof.
  unfold byteZ. intros H%N2Z.inj.
  by rewrite <- (ascii_N_embedding a), <- (ascii_N_embedding b), H.
Qed.

Lemma lxor_uint64 a b : in_uint64 a → in_uint64 b → in_uint64 (Z.lxor a b).
Proof.
  unfold in_uint64. intros Ha Hb.
  assert (0 ≤ Z.lxor a b) as Hnn by (apply Z.lxor_nonneg; lia).
  split; [done|].
  destruct (decide (Z.lxor a b = 0)) as [->|Hne]; [lia|].
  apply Z.log2_lt_pow2; [lia|].
  pose proof (Z.log2_lxor a b ltac:(lia) ltac:(lia)) as Hl.
  assert (∀ z, 0 ≤ z < 2 ^ 64 → Z.log2 z < 64) as Hlog.
  { intros z Hz. destruct (decide (z = 0)) as [->|]; [done|]. apply Z.log2_lt_pow2; lia. }
  pose proof (Hlog a Ha). pose proof (Hlog b Hb). lia.
Qed.

Lemma byteZ_uint64 c : in_uint64 (byteZ c).
Proof. pose proof (byteZ_range c). unfold in_uint64. lia. Qed.

#[export] Hint Resolve byteZ_uint64 lxor_uint64 : lolly.

Lemma lxor_cancel_r a b c : Z.lxor a c = Z.lxor b c → a = b.
Proof.
  intros H. apply (f_equal (λ z, Z.lxor z c)) in H.
  by rewrite !Z.lxor_assoc, Z.lxor_nilpotent, !Z.lxor_0_r in H.
Qed.

Lemma lxor_cancel_l a b c : Z.lxor c a = Z.lxor c b → a = b.
Proof. rewrite !(Z.lxor_comm c). apply lxor_cancel_r. Qed.

(** Multiplication by the prime is invertible on 64-bit words. *)
Lemma fnv_mul_inj x y :
  in_uint64 x → in_uint64 y → wrap64 (x * fnv_prime) = wrap64 (y * fnv_prime) → x = y.
Proof.
  intros Hx Hy H.
  assert (∀ z, in_uint64 z → wrap64 (wrap64 (z * fnv_prime) * fnv_prime_inv) = z) as Hinv.
  { intros z Hz. unfold wrap64. rewrite Z.mul_mod_idemp_l by lia.
    rewrite <- Z.mul_assoc, <- Z.mul_mod_idemp_r by lia.
    change ((fnv_prime * fnv_prime_inv) mod 2 ^ 64) with 1.
    rewrite Z.mul_1_r. by apply Z.mod_small. }
  by rewrite <- (Hinv x Hx), <- (Hinv y Hy), H.
Qed.

Lemma fnv_step_range h c : in_uint64 (fnv_step h c).
Proof. apply wrap64_range. Qed.

Lemma fnv_step_inj_state h h' c :
  in_uint64 h → in_uint64 h' → fnv_step h c = fnv_step h' c → h = h'.
Proof.
  intros ?? H. apply (lxor_cancel_r _ _ (byteZ c)).
  by apply fnv_mul_inj; auto with lolly.
Qed.

Lemma fnv_step_inj_byte h a b :
  in_uint64 h → fnv_step h a = fnv_step h b → a = b.
Proof.
  intros ? H. apply byteZ_inj, (lxor_cancel_l _ _ h).
  by apply fnv_mul_inj; auto with lolly.
Qed.

Lemma fnv_foldl_range s h : in_uint64 h → in_uint64 (foldl fnv_step h s).
Proof. revert h. induction s as [|c s IH]; simpl; auto using fnv_step_range. Qed.

Lemma fnv_foldl_inj s h h' :
  in_uint64 h → in_uint64 h' → foldl fnv_step h s = foldl fnv_step h' s → h = h'.
Proof.
  revert h h'. induction s as [|c s IH]; simpl; [done|]. intros h h' ?? H.
  eapply fnv_step_inj_state; [done..|]. eapply IH; eauto using fnv_step_range.
Qed.

Lemma fnv_offset_range : in_uint64 fnv_offset.
Proof. unfold in_uint64, fnv_offset. lia. Qed.

Lemma FNV64a_range key : in_uint64 (FNV64a key).
Proof. apply fnv_foldl_range, fnv_offset_range. Qed.

#[export] Hint Resolve FNV64a_range fnv_offset_range : lolly.

(** ** Properties *)

(** Two keys that differ in exactly one byte have different FNV-1a hashes,
    whatever surrounds that byte. *)
Theorem FNV64a_one_byte (p q : gostring) (a b : ascii) :
  a ≠ b → FNV64a (p ++ a :: q) ≠ FNV64a (p ++ b :: q).
Proof.
  intros Hab H. unfold FNV64a in H. rewrite !foldl_app in H. simpl in H.
  apply fnv_foldl_inj in H; auto using fnv_step_range.
  apply fnv_step_inj_byte in H; [done|]. apply fnv_foldl_range, fnv_offset_range.
Qed.

Lemma FNV64a_one_byte_witness :
  FNV64a (go!"/a" ++ "1"%char :: go!"/x") ≠ FNV64a (go!"/a" ++ "2"%char :: go!"/x").
Proof. apply FNV64a_one_byte. discriminate. Defined.

(** The hash of the source on a published test vector. *)
Example FNV64a_vector : FNV64a (go!"a") = 0xaf63dc4c8601ec8c.
Proof. vm_compute. reflexivity. Qed.
