(* ===== verification/Radix.v ===== *)
(** * Radix: the prefix tree of [src/internal/matcher/radix.go] *)

From S2P Require Import Prelude.

(** The type of [fasthttp.RequestHandler] values is a parameter; a nil handler
    is [None]. *)
Section Radix.
Context {H : Type}.

(** ** Data *)

Inductive RadixNode : Type := mkNode {
  node_prefix : gostring;
  node_handler : option H;
  node_priority : Z;
  node_internal : bool;
  node_isLeaf : bool;
  node_locationType : gostring;
  node_children : list RadixNode
}.

Record RadixTree := mkTree { root : RadixNode; tree_initialized : bool }.

Record MatchResult := mkResult {
  r_Captures : option (gmap gostring gostring);
  r_Handler : option H;
  r_Internal : bool;
  r_LocationType : gostring;
  r_Path : gostring;
  r_Priority : Z
}.

Inductive radix_error := RadixInitialized | PathExists.

Definition NewRadixTree : RadixTree :=
  mkTree (mkNode [] None 0 false false [] []) false.

(** [&RadixNode{prefix: path, handler: handler, isLeaf: true, ...}] *)
Definition newLeaf (path : gostring) (h : option H) (pr : Z) (lt : gostring) (int : bool)
  : RadixNode := mkNode path h pr int true lt [].

Definition minInt (a b : nat) : nat := if (a <? b)%nat then a else b.

(** The loop of case 2: the length of the common prefix, at most [maxLen]. *)
Fixpoint commonLen_loop (maxLen : nat) (p path : gostring) : nat :=
  match maxLen, p, path with
  | S n, c :: p', d :: path' =>
      if Ascii.eqb c d then S (commonLen_loop n p' path') else O
  | _, _, _ => O
  end.

Definition commonLen (p path : gostring) : nat :=
  commonLen_loop (minInt (length p) (length path)) p path.

(** The search among the children in case 3: the first child whose fragment is
    a prefix of what remains takes it; otherwise a new child is appended. *)
Definition insertChild (ins : RadixNode → res radix_error RadixNode)
    (remaining : gostring) (leaf : RadixNode) :=
  fix go (l : list RadixNode) : res radix_error (list RadixNode) :=
    match l with
    | [] => Ok [leaf]
    | c :: l' =>
        if HasPrefix remaining (node_prefix c)
        then c' ← ins c; Ok (c' :: l')
        else l'' ← go l'; Ok (c :: l'')
    end.

(** [insertNode] returns the node that takes the place of its argument in the
    parent: the argument itself, updated, or in case 4 the new [splitNode] (the
    source writes it into [parent.children] or [t.root]). *)
Fixpoint insertNode (node : RadixNode) (path : gostring) (h : option H)
    (pr : Z) (lt : gostring) (int : bool) {struct node} : res radix_error RadixNode :=
  match node with
  | mkNode p nh npr nint nleaf nlt cs =>
    if bool_decide (p = []) && bool_decide (length cs = 0%nat)
       && negb (bool_decide (is_Some nh))
    then
      match path with
      | [] => Ok (mkNode p h pr int true lt cs)
      | _ => Ok (mkNode p nh npr nint nleaf nlt (cs ++ [newLeaf path h pr lt int]))
      end
    else
      let common := commonLen p path in
      if (common =? length p)%nat then
        match drop common path with
        | [] =>
            match nh with
            | Some _ => Err PathExists
            | None => Ok (mkNode p h pr int true lt cs)
            end
        | remaining =>
            insertChild (λ c, insertNode c remaining h pr lt int) remaining
              (newLeaf remaining h pr lt int) cs
            ≫= λ cs', Ok (mkNode p nh npr nint nleaf nlt cs')
        end
      else
        Ok (mkNode (take common p) None 0 false false []
              [mkNode (drop common p) nh npr nint nleaf nlt cs;
               newLeaf (drop common path) h pr lt int])
  end.

Definition Insert (t : RadixTree) (path : gostring) (h : option H) (pr : Z)
    (lt : gostring) (int : bool) : res radix_error RadixTree :=
  if tree_initialized t then Err RadixInitialized
  else insertNode (root t) path h pr lt int ≫= λ r, Ok (mkTree r (tree_initialized t)).

(** The update of [bestNode] by a candidate. *)
Definition better (n : RadixNode) (best : option RadixNode) : option RadixNode :=
  match best with
  | None => Some n
  | Some b =>
      if node_priority n <? node_priority b then Some n
      else if (node_priority n =? node_priority b)
              && (length (node_prefix b) <? length (node_prefix n))%nat
      then Some n else best
  end.

(** The test [result != bestNode] of the source skips an update that [better]
    would refuse anyway, a node never being better than itself. *)
Fixpoint searchLongest (node : RadixNode) (path : gostring) (best : option RadixNode)
    {struct node} : option RadixNode :=
  match path with
  | [] => best
  | _ =>
    match node with
    | mkNode p nh _ _ _ _ cs =>
      if negb (HasPrefix path p) then best
      else
        let remaining := drop (length p) path in
        let best := match nh with Some _ => better node best | None => best end in
        foldl (λ best c,
          match searchLongest c remaining best with
          | None => best
          | Some result => better result best
          end) best cs
    end
  end.

Definition FindLongestPrefix (t : RadixTree) (path : gostring) : option MatchResult :=
  match searchLongest (root t) path None with
  | None => None
  | Some n => Some (mkResult None (node_handler n) (node_internal n) (node_locationType n)
                      (node_prefix n) (node_priority n))
  end.

Definition MarkInitialized (t : RadixTree) : RadixTree := mkTree (root t) true.

(** ** Specification

    [stored n] lists, in preorder, the locations below [n]: the full path of
    every node that has a handler, with that node. *)

Fixpoint stored (node : RadixNode) : list (gostring * RadixNode) :=
  match node with
  | mkNode p nh _ _ _ _ cs =>
      (match nh with Some _ => [(p, node)] | None => [] end)
      ++ (prod_map (app p) id <$> concat (stored <$> cs))
  end.

(** What a location carries, apart from its place in the tree. *)
Definition attrs (n : RadixNode) : option H * Z * gostring * bool :=
  (node_handler n, node_priority n, node_locationType n, node_internal n).

(** The locations of a tree, as an association list from paths. *)
Definition entries (node : RadixNode) : list (gostring * (option H * Z * gostring * bool)) :=
  prod_map id attrs <$> stored node.

(** Well-formed: below a node no fragment is empty, and a path that goes
    through a child could not have been routed to an earlier sibling. *)
Inductive wf_node : RadixNode → Prop :=
  | wf_mk p nh npr nint nleaf nlt cs :
      Forall wf_node cs →
      Forall (λ c, node_prefix c ≠ []) cs →
      ForallOrdPairs (λ ci cj, ∀ q, q ∈ (stored cj).*1 → ¬ node_prefix ci `prefix_of` q) cs →
      wf_node (mkNode p nh npr nint nleaf nlt cs).

Lemma RadixNode_ind' (P : RadixNode → Prop) :
  (∀ p nh npr nint nleaf nlt cs, Forall P cs → P (mkNode p nh npr nint nleaf nlt cs)) →
  ∀ n, P n.
Proof.
  intros IH. fix F 1. intros [p nh npr nint nleaf nlt cs]. apply IH.
  induction cs as [|c cs IHcs]; constructor; [apply F | apply IHcs].
Qed.

(** *** Searching is a fold over the matching locations *)

Definition best_of (l : list RadixNode) (best : option RadixNode) : option RadixNode :=
  foldl (λ b n, better n b) best l.

Lemma best_of_app l1 l2 b : best_of (l1 ++ l2) b = best_of l2 (best_of l1 b).
Proof. apply foldl_app. Qed.

Lemma better_self n : better n (Some n) = Some n.
Proof. simpl. by rewrite Z.ltb_irrefl, Nat.ltb_irrefl, andb_false_r. Qed.

(** [n] is at least as good as [b]: the order behind [better]. *)
Definition at_least (n b : RadixNode) : Prop :=
  node_priority n < node_priority b ∨
  node_priority n = node_priority b ∧ (length (node_prefix b) ≤ length (node_prefix n))%nat.

Lemma better_spec n b r :
  better n (Some b) = Some r → (r = n ∧ at_least n b ∧ ¬ at_least b n) ∨ (r = b ∧ at_least b n).
Proof. unfold better, at_least. intros E. case_tests_in E; first [by left; intuition lia | by right; intuition lia]. Qed.

Lemma better_is_some n b : is_Some (better n b).
Proof. destruct b; simpl; [|done]. case_tests; eauto. Qed.

Lemma at_least_trans a b c : at_least a b → at_least b c → at_least a c.
Proof. unfold at_least. lia. Qed.

Lemma at_least_refl a : at_least a a.
Proof. unfold at_least. lia. Qed.

Lemma best_of_some l b : ∃ r, best_of l (Some b) = Some r ∧ at_least r b ∧ (r = b ∨ r ∈ l).
Proof.
  revert b. induction l as [|n l IH]; intros b.
  - exists b. eauto using at_least_refl.
  - change (best_of (n :: l) (Some b)) with (best_of l (better n (Some b))).
    destruct (better_is_some n (Some b)) as [r Hr]. rewrite Hr.
    destruct (IH r) as (r' & -> & Hle & Hin). exists r'. split; [done|].
    rewrite elem_of_cons.
    apply better_spec in Hr as [(-> & ? & _)|(-> & ?)];
      (split; [eauto using at_least_trans | tauto]).
Qed.

Lemma best_of_optimal l b r n : best_of l b = Some r → n ∈ l → at_least r n.
Proof.
  revert b. induction l as [|m l IH]; intros b Hr Hn; [by apply elem_of_nil in Hn|].
  change (best_of (m :: l) b) with (best_of l (better m b)) in Hr.
  apply elem_of_cons in Hn as [->|Hn]; [|eauto].
  destruct (better_is_some m b) as [x Hx]. rewrite Hx in Hr.
  destruct (best_of_some l x) as (r' & Hr' & Hle & _). rewrite Hr in Hr'. simplify_eq.
  destruct b as [b|]; simpl in Hx; [|by simplify_eq].
  apply better_spec in Hx as [(-> & _)|(-> & ?)]; eauto using at_least_trans.
Qed.

Lemma best_of_None l : best_of l None = None ↔ l = [].
Proof.
  destruct l as [|n l]; [done|]. split; [|done].
  change (best_of (n :: l) None) with (best_of l (Some n)).
  destruct (best_of_some l n) as (r & -> & _). done.
Qed.

Lemma best_of_In l r : best_of l None = Some r → r ∈ l.
Proof.
  destruct l as [|n l]; [done|]. change (best_of (n :: l) None) with (best_of l (Some n)).
  destruct (best_of_some l n) as (r' & -> & _ & Hin). intros [= ->]. set_solver.
Qed.

(** Comparing again with the result of a search that started from the current
    best changes nothing. *)
Lemma best_of_absorb l b :
  match best_of l b with None => b | Some r => better r b end = best_of l b.
Proof.
  destruct b as [b|].
  - destruct (best_of_some l b) as (r & Hr & Hle & Hin). rewrite Hr.
    revert b r Hr Hle Hin. induction l as [|n l IH]; intros b r Hr Hle Hin.
    + injection Hr as <-. apply better_self.
    + change (best_of (n :: l) (Some b)) with (best_of l (better n (Some b))) in Hr.
      destruct (better_is_some n (Some b)) as [x Hx]. rewrite Hx in Hr.
      destruct (best_of_some l x) as (r' & Hr' & Hle' & Hin').
      assert (r' = r) as -> by congruence.
      apply better_spec in Hx as [(-> & Hs & Hns)|(-> & ?)].
      * assert (¬ at_least b r) as Hn by eauto using at_least_trans.
        unfold better, at_least in *. case_tests; first [done | exfalso; lia].
      * eapply IH; eauto.
  - destruct (best_of l None) as [r|] eqn:E; [done|done].
Qed.

(** The stored locations whose path is a prefix of [path], in preorder. *)
Definition matching (node : RadixNode) (path : gostring) : list RadixNode :=
  (filter (λ pn, HasPrefix path pn.1 = true) (stored node)).*2.

Lemma HasPrefix_drop path p q :
  HasPrefix path p = true → HasPrefix path (p ++ q) = HasPrefix (drop (length p) path) q.
Proof.
  intros [k ->]%HasPrefix_spec. rewrite drop_app_length.
  apply eq_true_iff_eq. rewrite !HasPrefix_spec. split.
  - by intros ?%prefix_app_inv.
  - by apply prefix_app.
Qed.

Lemma filter_app_prefix path p (l : list (gostring * RadixNode)) :
  filter (λ pn, HasPrefix path pn.1 = true) (prod_map (app p) id <$> l)
  = if HasPrefix path p
    then prod_map (app p) id <$> filter (λ pn, HasPrefix (drop (length p) path) pn.1 = true) l
    else [].
Proof.
  induction l as [|[q n] l IH]; [by case_tests|].
  rewrite fmap_cons, !filter_cons, IH. simpl.
  destruct (HasPrefix path p) eqn:Hp.
  - rewrite HasPrefix_drop by done. by repeat case_decide.
  - rewrite decide_False; [done|].
    rewrite HasPrefix_spec. intros ?%prefix_app_l. apply HasPrefix_false in Hp. done.
Qed.

Lemma matching_app path (l1 l2 : list (gostring * RadixNode)) :
  (filter (λ pn, HasPrefix path pn.1 = true) (l1 ++ l2)).*2
  = (filter (λ pn, HasPrefix path pn.1 = true) l1).*2
    ++ (filter (λ pn, HasPrefix path pn.1 = true) l2).*2.
Proof. by rewrite filter_app, fmap_app. Qed.

Lemma matching_children path cs :
  (filter (λ pn, HasPrefix path pn.1 = true) (concat (stored <$> cs))).*2
  = concat ((λ c, matching c path) <$> cs).
Proof.
  induction cs as [|c cs IH]; [done|]. rewrite !fmap_cons. simpl concat.
  by rewrite matching_app, IH.
Qed.

Lemma stored_prefix node q n : (q, n) ∈ stored node → node_prefix node `prefix_of` q.
Proof.
  destruct node as [p nh npr nint nleaf nlt cs]. simpl. rewrite elem_of_app. intros [Hq|Hq].
  - destruct nh; [|by apply elem_of_nil in Hq].
    apply list_elem_of_singleton in Hq. by simplify_eq.
  - apply list_elem_of_fmap in Hq as ([q' n'] & [= -> ->] & _). by apply prefix_app_r.
Qed.

Lemma matching_nil_path node : node_prefix node ≠ [] → matching node [] = [].
Proof.
  intros Hne. unfold matching. rewrite filter_none; [done|].
  intros [q n] Hq%stored_prefix Hp%HasPrefix_spec. simpl in Hp.
  assert (node_prefix node `prefix_of` []) as ?%prefix_nil_inv by (by etrans). done.
Qed.

Lemma searchLongest_spec node path best :
  wf_node node → (path ≠ [] ∨ node_prefix node ≠ []) →
  searchLongest node path best = best_of (matching node path) best.
Proof.
  revert path best. induction node as [p nh npr nint nleaf nlt cs IH] using RadixNode_ind'.
  intros path best Hwf Hne. inversion Hwf as [??????? Hcs Hps _]; subst. simpl in Hne.
  destruct (decide (path = [])) as [->|Hpath].
  { rewrite matching_nil_path by (by destruct Hne). done. }
  clear Hne. unfold matching. simpl stored. rewrite matching_app, filter_app_prefix.
  cbn [searchLongest]. destruct path as [|x path'] eqn:Hx; [done|].
  rewrite <- Hx in *. clear Hx x path'.
  destruct (HasPrefix path p) eqn:Hp; simpl negb; cbv iota.
  - rewrite <- list_fmap_compose. change (snd ∘ prod_map (app p) id) with (@snd gostring RadixNode).
    rewrite matching_children.
    set (remaining := drop (length p) path).
    set (own := match nh with Some _ => _ | None => [] end).
    replace (match nh with Some _ => better _ best | None => best end)
      with (best_of (filter (λ pn, HasPrefix path pn.1 = true) own).*2 best).
    2:{ subst own. destruct nh; [|done]. by rewrite filter_cons_True. }
    rewrite best_of_app. generalize (best_of (filter (λ pn, HasPrefix path pn.1 = true) own).*2 best).
    clear own Hwf. induction cs as [|c cs IHcs]; intros b0; [done|].
    apply Forall_cons in IH as [IHc IH], Hcs as [Hc Hcs], Hps as [Hpc Hps].
    simpl. rewrite IHc by auto. rewrite best_of_absorb, best_of_app.
    by apply IHcs.
  - destruct nh; [|done]. by rewrite filter_cons_False by (simpl; congruence).
Qed.


(** *** Inserting adds exactly one location *)

Abbreviation info := (option H * Z * gostring * bool)%type.

#[local] Arguments entries : simpl never.

Lemma concat_entries cs :
  concat (entries <$> cs) = prod_map id attrs <$> concat (stored <$> cs).
Proof. induction cs as [|c cs IH]; [done|]. rewrite !fmap_cons. simpl. by rewrite IH, fmap_app. Qed.

Lemma entries_mk p nh npr nint nleaf nlt cs :
  entries (mkNode p nh npr nint nleaf nlt cs)
  = (match nh with Some _ => [(p, (nh, npr, nlt, nint))] | None => [] end)
    ++ (prod_map (app p) id <$> concat (entries <$> cs)).
Proof.
  rewrite concat_entries. unfold entries. simpl stored. rewrite fmap_app.
  f_equal; [by destruct nh|]. rewrite <- !list_fmap_compose.
  by apply list_fmap_ext; intros ? [].
Qed.

Lemma entries_paths node : (entries node).*1 = (stored node).*1.
Proof. unfold entries. rewrite <- list_fmap_compose. by apply list_fmap_ext; intros ? []. Qed.

Lemma entries_prefix node q : q ∈ (entries node).*1 → node_prefix node `prefix_of` q.
Proof.
  rewrite entries_paths. intros ([q' n] & -> & Hq)%list_elem_of_fmap. by eapply stored_prefix.
Qed.

Lemma commonLen_prefix p k : commonLen p (p ++ k) = length p.
Proof.
  unfold commonLen, minInt. rewrite length_app.
  destruct (length p <? length p + length k)%nat eqn:E; bool_to_prop;
    [|replace (length p + length k)%nat with (length p) by lia];
    clear E; induction p as [|c p IH]; simpl; try done;
    by rewrite Ascii.eqb_refl, IH.
Qed.

(** The condition on the siblings of the list [cs] that follow [c]. *)
Definition not_stolen (c : RadixNode) (cs : list RadixNode) : Prop :=
  ∀ q, q ∈ (concat (entries <$> cs)).*1 → ¬ node_prefix c `prefix_of` q.

Lemma not_stolen_Forall c cs :
  Forall (λ cj, ∀ q, q ∈ (stored cj).*1 → ¬ node_prefix c `prefix_of` q) cs
  ↔ not_stolen c cs.
Proof.
  unfold not_stolen. rewrite Forall_forall. induction cs as [|d cs IH]; simpl.
  - split; [by intros _ ? ?%elem_of_nil | by intros _ ? ?%elem_of_nil].
  - setoid_rewrite fmap_app. setoid_rewrite elem_of_app. setoid_rewrite elem_of_cons.
    rewrite entries_paths. naive_solver.
Qed.

(** The children of a well-formed node. *)
Inductive wf_children : list RadixNode → Prop :=
  | wf_children_nil : wf_children []
  | wf_children_cons c cs :
      wf_node c → node_prefix c ≠ [] → not_stolen c cs → wf_children cs →
      wf_children (c :: cs).

Lemma wf_node_children p nh npr nint nleaf nlt cs :
  wf_node (mkNode p nh npr nint nleaf nlt cs) ↔ wf_children cs.
Proof.
  split.
  - intros Hwf. inversion Hwf as [??????? Hcs Hps Hop]; subst. clear Hwf.
    induction cs as [|c cs IH]; constructor;
      inversion Hop; inversion Hcs; inversion Hps; subst; auto.
    by apply not_stolen_Forall.
  - intros Hcs. constructor; induction Hcs; constructor; auto.
    by apply not_stolen_Forall.
Qed.

(** What an insertion does: [path] was new and is now stored, nothing else
    changes, or it was stored and the insertion is refused. *)
Definition insert_post (node : RadixNode) (path : gostring) (new : info)
    (r : res radix_error RadixNode) : Prop :=
  match r with
  | Ok node' =>
      path ∉ (entries node).*1 ∧ wf_node node' ∧ node_prefix node' = node_prefix node ∧
      entries node' ≡ₚ (path, new) :: entries node
  | Err e => e = PathExists ∧ path ∈ (entries node).*1
  end.

Definition insert_children_post (cs : list RadixNode) (k : gostring) (new : info)
    (r : res radix_error (list RadixNode)) : Prop :=
  match r with
  | Ok cs' =>
      k ∉ (concat (entries <$> cs)).*1 ∧ wf_children cs' ∧
      concat (entries <$> cs') ≡ₚ (k, new) :: concat (entries <$> cs)
  | Err e => e = PathExists ∧ k ∈ (concat (entries <$> cs)).*1
  end.

Lemma not_stolen_perm c cs cs' k new :
  concat (entries <$> cs') ≡ₚ (k, new) :: concat (entries <$> cs) →
  ¬ node_prefix c `prefix_of` k → not_stolen c cs → not_stolen c cs'.
Proof.
  intros Hp Hk Hns q. rewrite Hp. simpl. rewrite elem_of_cons.
  intros [->|Hq]; [done | by apply Hns].
Qed.

Lemma wf_newLeaf k h pr lt int : wf_node (newLeaf k h pr lt int).
Proof. apply wf_node_children. constructor. Qed.

Lemma entries_newLeaf k hd pr lt int :
  entries (newLeaf k (Some hd) pr lt int) = [(k, (Some hd, pr, lt, int))].
Proof. done. Qed.

Lemma insertChild_spec ins cs k hd pr lt int :
  let new := (Some hd, pr, lt, int) in
  wf_children cs → k ≠ [] →
  Forall (λ c, node_prefix c `prefix_of` k → insert_post c k new (ins c)) cs →
  insert_children_post cs k new (insertChild ins k (newLeaf k (Some hd) pr lt int) cs).
Proof.
  intros new Hwf Hk. induction Hwf as [|c cs Hc Hpc Hns Hcs IH]; intros Hins.
  - split; [apply not_elem_of_nil|]. split; [|done].
    repeat constructor; auto using wf_newLeaf. by intros ? ?%elem_of_nil.
  - apply Forall_cons in Hins as [Hins Hrest]. simpl.
    destruct (HasPrefix k (node_prefix c)) eqn:Hp.
    + apply HasPrefix_spec in Hp. specialize (Hins Hp).
      destruct (ins c) as [c'|e]; simpl in *.
      2:{ destruct Hins as [-> ?]. split; [done|]. rewrite fmap_app, elem_of_app. auto. }
      destruct Hins as (Hnew & Hwf' & Hpre & Hperm). split_and!.
      * rewrite fmap_app, not_elem_of_app. split; [done|]. intros ?%Hns. done.
      * constructor; try done; [by rewrite Hpre|]. intros q ?%Hns. by rewrite Hpre.
      * by rewrite Hperm.
    + apply HasPrefix_false in Hp. specialize (IH Hrest).
      destruct (insertChild _ _ _ cs) as [cs'|e]; simpl in *.
      2:{ destruct IH as [-> ?]. split; [done|]. rewrite fmap_app, elem_of_app. auto. }
      destruct IH as (Hnew & Hwf' & Hperm). split_and!.
      * rewrite fmap_app, not_elem_of_app. split; [|done]. by intros ?%entries_prefix.
      * constructor; try done. eapply not_stolen_perm; eauto.
      * rewrite Hperm. by rewrite <- Permutation_middle.
Qed.

Lemma elem_of_shift p k (l : list (gostring * info)) :
  p ++ k ∈ (prod_map (app p) id <$> l).*1 ↔ k ∈ l.*1.
Proof.
  rewrite <- list_fmap_compose. rewrite !list_elem_of_fmap. split.
  - intros ([q i] & Hq%app_inv_head & ?). exists (q, i). done.
  - intros ([q i] & -> & ?). exists (q, i). done.
Qed.

Lemma children_nonempty cs : wf_children cs → [] ∉ (concat (entries <$> cs)).*1.
Proof.
  induction 1 as [|c cs Hc Hpc Hns Hcs IH]; simpl; [apply not_elem_of_nil|].
  rewrite fmap_app, not_elem_of_app. split; [|done].
  by intros ?%entries_prefix%prefix_nil_inv.
Qed.

Lemma insertNode_spec node path hd pr lt int :
  wf_node node → node_prefix node `prefix_of` path →
  insert_post node path (Some hd, pr, lt, int) (insertNode node path (Some hd) pr lt int).
Proof.
  revert path. induction node as [p nh npr nint nleaf nlt cs IH] using RadixNode_ind'.
  intros path Hwf [k ->]. apply wf_node_children in Hwf as Hcs. simpl in k.
  cbn [insertNode node_prefix].
  destruct (bool_decide (p = []) && bool_decide (length cs = 0%nat)
            && negb (bool_decide (is_Some nh)))%bool eqn:Hempty.
  { bool_to_prop. destruct cs; [|done]. subst p.
    destruct nh as [h|]; [exfalso; eauto|]. destruct k as [|x k]; simpl;
      (split_and!; [by apply not_elem_of_nil | apply wf_node_children | done | done]);
      repeat constructor; auto using wf_newLeaf. by intros ? ?%elem_of_nil. }
  clear Hempty. rewrite commonLen_prefix, Nat.eqb_refl, drop_app_length.
  destruct k as [|x k0] eqn:Hk.
  { rewrite app_nil_r. destruct nh as [h|]; cbn [insert_post].
    - split; [done|]. rewrite entries_mk. by left.
    - rewrite !entries_mk. split_and!; [|by apply wf_node_children|done|done].
      rewrite <- (app_nil_r p) at 1. simpl. rewrite elem_of_shift.
      by apply children_nonempty. }
  rewrite <- Hk. assert (k ≠ []) as Hne by congruence. clear Hk x k0.
  assert (insert_children_post cs k (Some hd, pr, lt, int)
    (insertChild (λ c, insertNode c k (Some hd) pr lt int) k (newLeaf k (Some hd) pr lt int) cs))
    as Hpost.
  { apply insertChild_spec; [done..|]. clear -IH Hcs.
    induction Hcs as [|c cs Hc Hpc Hns Hcs IHcs]; [done|].
    apply Forall_cons in IH as [IHc IH]. constructor; auto. }
  destruct (insertChild _ _ _ cs) as [cs'|e]; cbn [mbind res_bind insert_post] in *.
  - destruct Hpost as (Hnew & Hwf' & Hperm). rewrite !entries_mk. split_and!.
    + rewrite fmap_app, not_elem_of_app. rewrite elem_of_shift. split; [|done].
      destruct nh; simpl; [|apply not_elem_of_nil]. rewrite list_elem_of_singleton.
      intros ?. apply Hne. by apply (app_inv_head p); rewrite app_nil_r.
    + by apply wf_node_children.
    + done.
    + rewrite Hperm. simpl. by rewrite <- Permutation_middle.
  - destruct Hpost as [-> Hin]. split; [done|].
    rewrite entries_mk, fmap_app, elem_of_app, elem_of_shift. auto.
Qed.

(** ** Trees *)

(** The invariant of a [RadixTree]: its root carries the empty fragment. *)
Definition wf_tree (t : RadixTree) : Prop :=
  node_prefix (root t) = [] ∧ wf_node (root t).

Definition tree_entries (t : RadixTree) : list (gostring * info) := entries (root t).
Definition tree_paths (t : RadixTree) : list gostring := (stored (root t)).*1.

Definition result_of (n : RadixNode) : MatchResult :=
  mkResult None (node_handler n) (node_internal n) (node_locationType n)
    (node_prefix n) (node_priority n).

Lemma wf_NewRadixTree : wf_tree NewRadixTree.
Proof. split; [done|]. apply wf_node_children. constructor. Qed.

Lemma tree_paths_entries t : tree_paths t = (tree_entries t).*1.
Proof. symmetry. apply entries_paths. Qed.

Definition Insert_post (t : RadixTree) (path : gostring) (new : info)
    (r : res radix_error RadixTree) : Prop :=
  match r with
  | Ok t' =>
      tree_initialized t = false ∧ path ∉ tree_paths t ∧
      wf_tree t' ∧ tree_initialized t' = false ∧ tree_entries t' ≡ₚ (path, new) :: tree_entries t
  | Err RadixInitialized => tree_initialized t = true
  | Err PathExists => tree_initialized t = false ∧ path ∈ tree_paths t
  end.

Lemma Insert_correct t path hd pr lt int :
  wf_tree t → Insert_post t path (Some hd, pr, lt, int) (Insert t path (Some hd) pr lt int).
Proof.
  intros [Hp Hwf]. unfold Insert. destruct (tree_initialized t) eqn:Hi; [done|].
  pose proof (insertNode_spec (root t) path hd pr lt int Hwf) as Hs.
  rewrite Hp in Hs. specialize (Hs (prefix_nil _)).
  destruct (insertNode _ _ _ _ _ _) as [r|e]; cbn [mbind res_bind insert_post Insert_post] in *.
  - rewrite tree_paths_entries. destruct Hs as (? & ? & ? & ?). rewrite Hp in *. done.
  - destruct Hs as [-> Hin]. by rewrite tree_paths_entries.
Qed.

Lemma stored_In_paths t q n : (q, n) ∈ stored (root t) → q ∈ tree_paths t.
Proof. intros. unfold tree_paths. apply list_elem_of_fmap. by exists (q, n). Qed.

Lemma matching_In node path n :
  n ∈ matching node path ↔ ∃ q, (q, n) ∈ stored node ∧ q `prefix_of` path.
Proof.
  unfold matching. rewrite list_elem_of_fmap. split.
  - intros ([q n'] & -> & [Hp Hin]%list_elem_of_filter).
    exists q. split; [done|]. by apply HasPrefix_spec.
  - intros (q & Hin & Hp). exists (q, n). split; [done|].
    apply list_elem_of_filter. split; [|done]. by apply HasPrefix_spec.
Qed.

(** What a lookup returns: a stored location whose path is a prefix of the
    request path and that no other such location beats, or nothing when no
    stored path is a prefix. *)
Definition Find_post (t : RadixTree) (path : gostring) (r : option MatchResult) : Prop :=
  match r with
  | Some r => ∃ q n,
      (q, n) ∈ stored (root t) ∧ q `prefix_of` path ∧ r = result_of n ∧
      ∀ q' n', (q', n') ∈ stored (root t) → q' `prefix_of` path → at_least n n'
  | None => ∀ q, q ∈ tree_paths t → ¬ q `prefix_of` path
  end.

Lemma FindLongestPrefix_unfold t path :
  wf_tree t → path ≠ [] →
  FindLongestPrefix t path = result_of <$> best_of (matching (root t) path) None.
Proof.
  intros [Hp Hwf] Hne. unfold FindLongestPrefix.
  rewrite searchLongest_spec by auto. by destruct (best_of _ _).
Qed.

Lemma Find_correct t path :
  wf_tree t → path ≠ [] → Find_post t path (FindLongestPrefix t path).
Proof.
  intros Hwf Hne. rewrite FindLongestPrefix_unfold by done.
  destruct (best_of _ _) as [n|] eqn:E; simpl.
  - pose proof (best_of_In _ _ E) as (q & Hq & Hpre)%matching_In.
    exists q, n. split_and!; try done. intros q' n' Hq' Hpre'.
    eapply best_of_optimal; [done|]. apply matching_In. eauto.
  - apply best_of_None in E. intros q ([q' n] & -> & Hin)%list_elem_of_fmap Hpre.
    assert (n ∈ matching (root t) path) as Hn by (apply matching_In; eauto).
    rewrite E in Hn. by apply elem_of_nil in Hn.
Qed.

(** The condition under which comparing fragments compares whole paths: a
    stored path that properly extends another has the longer fragment, and all
    locations have the same priority. *)
Definition frag_mono (t : RadixTree) : Prop :=
  Forall (λ qn, Forall (λ qn',
    node_priority qn.2 = node_priority qn'.2 ∧
    (qn.1 `prefix_of` qn'.1 → qn.1 ≠ qn'.1 →
     (length (node_prefix qn.2) < length (node_prefix qn'.2))%nat))
    (stored (root t))) (stored (root t)).

#[global] Instance frag_mono_dec t : Decision (frag_mono t).
Proof. unfold frag_mono. apply _. Defined.

Lemma prefixes_comparable (a b s : gostring) :
  a `prefix_of` s → b `prefix_of` s → a `prefix_of` b ∨ b `prefix_of` a.
Proof. intros. by apply (prefix_weak_total a b s). Qed.

(** Registration of a list of locations in order, as start-up does. *)
Definition location : Type := gostring * (H * Z * gostring * bool).

Definition InsertAll (t : RadixTree) (locs : list location) : res radix_error RadixTree :=
  foldl (λ r l, t ← r; let '(path, (h, pr, lt, int)) := l in Insert t path (Some h) pr lt int)
    (Ok t) locs.

Definition entry_of (l : location) : gostring * info :=
  let '(path, (h, pr, lt, int)) := l in (path, (Some h, pr, lt, int)).

Lemma InsertAll_Err (locs : list location) e :
  foldl (λ r l, t ← r; let '(path, (h, pr, lt, int)) := l in Insert t path (Some h) pr lt int)
    (Err e) locs = Err e.
Proof. by induction locs. Qed.

Lemma InsertAll_cons t path h pr lt int locs :
  InsertAll t ((path, (h, pr, lt, int)) :: locs)
  = t' ← Insert t path (Some h) pr lt int; InsertAll t' locs.
Proof.
  unfold InsertAll. simpl. destruct (Insert _ _ _ _ _ _); [done|]. by rewrite InsertAll_Err.
Qed.

Lemma InsertAll_correct t locs :
  wf_tree t → tree_initialized t = false → NoDup (tree_paths t) →
  match InsertAll t locs with
  | Ok t' => wf_tree t' ∧ NoDup (tree_paths t') ∧
             tree_entries t' ≡ₚ (entry_of <$> locs) ++ tree_entries t
  | Err e => e = PathExists ∧ ¬ NoDup ((entry_of <$> locs).*1 ++ tree_paths t)
  end.
Proof.
  revert t. induction locs as [|[path [[[h pr] lt] int]] locs IH]; intros t Hwf Hi Hnd; [done|].
  rewrite InsertAll_cons. pose proof (Insert_correct t path h pr lt int Hwf) as Hins.
  destruct (Insert _ _ _ _ _ _) as [t'|[]]; cbn [mbind res_bind Insert_post] in *.
  - destruct Hins as (_ & Hnew & Hwf' & Hi' & Hperm).
    assert (NoDup (tree_paths t')) as Hnd'.
    { rewrite tree_paths_entries, Hperm. simpl. constructor; by rewrite <- tree_paths_entries. }
    specialize (IH t' Hwf' Hi' Hnd'). destruct (InsertAll t' locs) as [t2|e].
    + destruct IH as (? & ? & Hp2). split_and!; [done..|].
      rewrite Hp2, Hperm. simpl. by rewrite <- Permutation_middle.
    + destruct IH as [-> Hn]. split; [done|]. contradict Hn.
      rewrite (tree_paths_entries t'), Hperm. simpl in *.
      rewrite <- Permutation_middle. by rewrite <- tree_paths_entries.
  - congruence.
  - destruct Hins as [_ Hin]. split; [done|]. simpl. intros Hn%NoDup_cons_1_1.
    apply Hn, elem_of_app. by right.
Qed.

Lemma tree_paths_New : tree_paths NewRadixTree = [].
Proof. done. Qed.

Lemma entry_of_fst (locs : list location) : (entry_of <$> locs).*1 = locs.*1.
Proof. rewrite <- list_fmap_compose. by apply list_fmap_ext; intros ? [? [[[]]]]. Qed.

(** The tree built from a list of locations. *)
Lemma InsertAll_New locs t :
  InsertAll NewRadixTree locs = Ok t →
  wf_tree t ∧ tree_paths t ≡ₚ locs.*1 ∧ tree_entries t ≡ₚ entry_of <$> locs.
Proof.
  intros Hb.
  pose proof (InsertAll_correct NewRadixTree locs wf_NewRadixTree eq_refl (NoDup_nil_2)) as Hs.
  rewrite Hb in Hs. destruct Hs as (Hwf & _ & Hp). rewrite app_nil_r in Hp.
  split_and!; [done| |done]. by rewrite tree_paths_entries, Hp, entry_of_fst.
Qed.

(** ** Properties *)

(** C8: A radix tree refines the association list of its registrations:
    registering a list of locations succeeds exactly when their paths are
    pairwise distinct, and the resulting tree stores exactly those locations. *)
Theorem insert_all_refines (locs : list location) :
  match InsertAll NewRadixTree locs with
  | Ok t => NoDup locs.*1 ∧ tree_entries t ≡ₚ entry_of <$> locs
  | Err e => e = PathExists ∧ ¬ NoDup locs.*1
  end.
Proof.
  pose proof (InsertAll_correct NewRadixTree locs wf_NewRadixTree eq_refl (NoDup_nil_2)) as Hs.
  destruct (InsertAll _ _) as [t|e].
  - destruct Hs as (_ & Hnd & Hp). rewrite app_nil_r in Hp. split; [|done].
    by rewrite <- entry_of_fst, <- Hp, <- tree_paths_entries.
  - destruct Hs as [-> Hn]. split; [done|]. by rewrite entry_of_fst, tree_paths_New, app_nil_r in Hn.
Qed.

(** A lookup in a tree built from a list of locations finds something
    exactly when a registered path is a prefix of the request path, and then
    the handler, the priority, the type and the internal flag it returns are
    those of one such location. *)
Theorem find_sound_complete (locs : list location) (t : RadixTree) (path : gostring) :
  InsertAll NewRadixTree locs = Ok t → path ≠ [] →
  match FindLongestPrefix t path with
  | Some r => ∃ q h, (q, (h, r_Priority r, r_LocationType r, r_Internal r)) ∈ locs
                     ∧ r_Handler r = Some h ∧ q `prefix_of` path
  | None => ∀ q, q ∈ locs.*1 → ¬ q `prefix_of` path
  end.
Proof.
  intros Hb Hne. destruct (InsertAll_New _ _ Hb) as (Hwf & Hpaths & Hp).
  pose proof (Find_correct t path Hwf Hne) as Hf.
  destruct (FindLongestPrefix t path) as [r|]; simpl in Hf.
  - destruct Hf as (q & n & Hin & Hpre & -> & _).
    assert ((q, attrs n) ∈ tree_entries t) as He.
    { apply list_elem_of_fmap. by exists (q, n). }
    rewrite Hp in He. apply list_elem_of_fmap in He as ([q' [[[h pr] lt] int]] & He & Hl).
    unfold attrs in He. simpl in He. injection He as <- Hh <- <- <-.
    exists q, h. simpl. by rewrite Hh.
  - intros q Hq. apply Hf. by rewrite Hpaths.
Qed.

(** When every stored path that extends another one has the longer
    fragment, the location a lookup returns has the longest stored path among
    those that are prefixes of the request path. *)
Theorem find_longest (locs : list location) (t : RadixTree) (path : gostring)
    (r : MatchResult) :
  InsertAll NewRadixTree locs = Ok t → frag_mono t → path ≠ [] →
  FindLongestPrefix t path = Some r →
  ∃ q n, (q, n) ∈ stored (root t) ∧ q `prefix_of` path ∧ r = result_of n ∧
    ∀ q', q' ∈ locs.*1 → q' `prefix_of` path → (length q' ≤ length q)%nat.
Proof.
  intros Hb Hmono Hne Hr. destruct (InsertAll_New _ _ Hb) as (Hwf & Hpaths & _).
  pose proof (Find_correct t path Hwf Hne) as Hf.
  rewrite Hr in Hf. destruct Hf as (q & n & Hin & Hpre & -> & Hbest).
  exists q, n. split_and!; try done. intros q' Hq' Hpre'.
  rewrite <- Hpaths in Hq'. apply list_elem_of_fmap in Hq' as ([q2 n'] & Heq & Hin').
  simpl in Heq. subst q2.
  destruct (prefixes_comparable _ _ _ Hpre Hpre') as [Hqq|Hqq]; [|by apply prefix_length].
  destruct (decide (q = q')) as [->|Hneq]; [done|].
  unfold frag_mono in Hmono. rewrite Forall_forall in Hmono. specialize (Hmono _ Hin).
  rewrite Forall_forall in Hmono. destruct (Hmono _ Hin') as [Hpr Hlen]. simpl in *.
  specialize (Hlen Hqq Hneq). specialize (Hbest _ _ Hin' Hpre'). unfold at_least in Hbest. lia.
Qed.

End Radix.

Arguments RadixNode : clear implicits.
Arguments RadixTree : clear implicits.
Arguments MatchResult : clear implicits.

(** ** Concrete trees *)

Definition ex_prefix (p : gostring) (h : nat) : location := (p, (h, 4, go!"prefix", false)).

Lemma insert_all_refines_example :
  is_ok (InsertAll NewRadixTree [ex_prefix (go!"/api") 1; ex_prefix (go!"/api/v1") 2]) = true.
Proof. vm_compute. reflexivity. Qed.

Lemma find_sound_complete_witness :
  ∃ t : RadixTree nat,
    InsertAll NewRadixTree [ex_prefix (go!"/") 1; ex_prefix (go!"/static") 2] = Ok t ∧
    match FindLongestPrefix t (go!"/static/a.css") with
    | Some r => ∃ q h, (q, (h, r_Priority r, r_LocationType r, r_Internal r))
                         ∈ [ex_prefix (go!"/") 1; ex_prefix (go!"/static") 2]
                       ∧ r_Handler r = Some h ∧ q `prefix_of` (go!"/static/a.css")
    | None => ∀ q, q ∈ [ex_prefix (go!"/") 1; ex_prefix (go!"/static") 2].*1 →
                   ¬ q `prefix_of` (go!"/static/a.css")
    end.
Proof.
  eexists. split; [vm_compute; reflexivity|].
  apply find_sound_complete; [vm_compute; reflexivity | discriminate].
Defined.

Lemma find_longest_witness :
  ∃ (t : RadixTree nat) r,
    let locs := [ex_prefix (go!"/") 1; ex_prefix (go!"/static") 2] in
    InsertAll NewRadixTree locs = Ok t ∧ frag_mono t ∧
    FindLongestPrefix t (go!"/static/a.css") = Some r ∧
    ∃ q n, (q, n) ∈ stored (root t) ∧ q `prefix_of` (go!"/static/a.css") ∧ r = result_of n ∧
      ∀ q', q' ∈ locs.*1 → q' `prefix_of` (go!"/static/a.css") → (length q' ≤ length q)%nat.
Proof.
  eexists _, _. cbv zeta. split; [vm_compute; reflexivity|].
  split; [apply (bool_decide_unpack _); vm_compute; exact I|].
  split; [vm_compute; reflexivity|].
  apply (find_longest [ex_prefix (go!"/") 1; ex_prefix (go!"/static") 2]);
    [vm_compute; reflexivity | apply (bool_decide_unpack _); vm_compute; exact I
    | discriminate | vm_compute; reflexivity].
Defined.

(** The lookup is not a longest-prefix match in general: it compares the
    fragments of nodes, not the paths they stand for.  With [/api/] and
    [/api/v1] registered, [/api/v1/x] goes to the handler of [/api/], although
    [/api/v1] is a longer registered prefix of it. *)
Theorem find_longest_shadowed :
  ∃ t : RadixTree nat,
    InsertAll NewRadixTree [ex_prefix (go!"/api/") 1; ex_prefix (go!"/api/v1") 2] = Ok t ∧
    (go!"/api/v1") `prefix_of` (go!"/api/v1/x") ∧
    r_Handler <$> FindLongestPrefix t (go!"/api/v1/x") = Some (Some 1%nat).
Proof.
  eexists. split; [vm_compute; reflexivity|]. split; [by exists (go!"/x")|].
  vm_compute. reflexivity.
Qed.
