(* ===== verification/Location.v ===== *)
(** * Location: the matching engine of [src/internal/matcher/location.go]

    The exact, regex and named matchers, the [LocationEngine] that combines
    them with two radix trees, and the route registration and dispatch of
    [src/internal/server] that drive it.  The engine is shown to refine the
    ordered list of the registrations it accepted. *)

From S2P Require Import Prelude Radix.

(** Go's [regexp] package, as the matcher uses it. *)
Class Regexp := {
  regexp : Type;
  regexp_Compile : gostring → option regexp;
  MatchString : regexp → gostring → bool;
  FindStringSubmatch : regexp → gostring → option (list gostring);
  SubexpNames : regexp → list gostring;
  regexp_String : regexp → gostring
}.

Section Location.
Context `{Regexp} {Hd : Type}.

(** ** Matchers ([matcher.go], [exact.go], [regex.go], [named.go]) *)

Definition LocationTypeExact := go!"exact".
Definition LocationTypePrefix := go!"prefix".
Definition LocationTypePrefixPriority := go!"prefix_priority".
Definition LocationTypeRegex := go!"regex".
Definition LocationTypeRegexCaseless := go!"regex_caseless".
Definition LocationTypeNamed := go!"named".

Record ExactMatcher := mkExact {
  em_handler : option Hd; em_internal : bool; em_path : gostring; em_priority : Z }.

Definition NewExactMatcher (path : gostring) (h : option Hd) (priority : Z) (int : bool) :=
  mkExact h int path priority.

Definition ExactResult (m : ExactMatcher) : MatchResult Hd :=
  mkResult None (em_handler m) (em_internal m) LocationTypeExact (em_path m) (em_priority m).

Record NamedMatcher := mkNamed { nm_handler : option Hd; nm_name : gostring }.

Definition NewNamedMatcher (name : gostring) (h : option Hd) := mkNamed h name.

Record RegexMatcher := mkRegex {
  rm_pattern : regexp;
  rm_handler : option Hd;
  rm_captures : gmap gostring gostring;
  rm_priority : Z;
  rm_internal : bool;
  rm_caseInsensitive : bool
}.

Definition NewRegexMatcher (pattern : gostring) (h : option Hd) (priority : Z)
    (caseInsensitive int : bool) : option RegexMatcher :=
  re ← regexp_Compile pattern; Some (mkRegex re h ∅ priority int caseInsensitive).

Definition RegexMatch (m : RegexMatcher) (path : gostring) : bool :=
  MatchString (rm_pattern m) path.

Definition RegexResult (m : RegexMatcher) : MatchResult Hd :=
  let locType :=
    if rm_caseInsensitive m then LocationTypeRegexCaseless else LocationTypeRegex in
  mkResult (Some (rm_captures m)) (rm_handler m) (rm_internal m) locType
    (regexp_String (rm_pattern m)) (rm_priority m).

(** The loop over [SubexpNames]: [i] is the index of the next name. *)
Fixpoint captures_loop (i : nat) (names matches : list gostring) (result : gmap gostring gostring)
  : gmap gostring gostring :=
  match names with
  | [] => result
  | name :: names' =>
      let result :=
        if (i =? 0)%nat then result
        else if bool_decide (name ≠ []) && (i <? length matches)%nat
        then <[name := nth i matches []]> result
        else result in
      captures_loop (S i) names' matches result
  end.

Definition GetCaptures (m : RegexMatcher) (path : gostring) : option (gmap gostring gostring) :=
  match FindStringSubmatch (rm_pattern m) path with
  | None => None
  | Some matches => Some (captures_loop 0 (SubexpNames (rm_pattern m)) matches ∅)
  end.

(** ** The engine ([location.go]) *)

Record LocationEngine := mkEngine {
  prefixPriorityTree : RadixTree Hd;
  prefixTree : RadixTree Hd;
  exactMatchers : gmap gostring ExactMatcher;
  namedMatchers : gmap gostring NamedMatcher;
  registeredPaths : gmap gostring gostring;
  regexMatchers : list RegexMatcher;
  initialized : bool
}.

Inductive engine_error :=
  | EngineInitialized
  | ConflictError (Path ExistingType NewType : gostring)
  | InvalidRegex
  | TreeError (e : radix_error).

Definition NewLocationEngine : LocationEngine :=
  mkEngine NewRadixTree NewRadixTree ∅ ∅ ∅ [] false.

(** An operation returns the engine and the error, if any: [checkConflict]
    records the path before the matcher itself is added. *)
Definition outcome : Type := LocationEngine * option engine_error.

Definition set_registered (e : LocationEngine) (path locType : gostring) : LocationEngine :=
  mkEngine (prefixPriorityTree e) (prefixTree e) (exactMatchers e) (namedMatchers e)
    (<[path := locType]> (registeredPaths e)) (regexMatchers e) (initialized e).

Definition checkConflict (e : LocationEngine) (path locType : gostring) : outcome :=
  match registeredPaths e !! path with
  | Some existing => (e, Some (ConflictError path existing locType))
  | None => (set_registered e path locType, None)
  end.

Definition AddExact (e : LocationEngine) (path : gostring) (h : option Hd) (int : bool) : outcome :=
  if initialized e then (e, Some EngineInitialized)
  else match checkConflict e path (go!"exact") with
  | (e, Some err) => (e, Some err)
  | (e, None) =>
      (mkEngine (prefixPriorityTree e) (prefixTree e)
        (<[path := NewExactMatcher path h 1 int]> (exactMatchers e)) (namedMatchers e)
        (registeredPaths e) (regexMatchers e) (initialized e), None)
  end.

Definition AddPrefixPriority (e : LocationEngine) (path : gostring) (h : option Hd) (int : bool)
  : outcome :=
  if initialized e then (e, Some EngineInitialized)
  else match checkConflict e path (go!"prefix_priority") with
  | (e, Some err) => (e, Some err)
  | (e, None) =>
      match Insert (prefixPriorityTree e) path h 2 (go!"prefix_priority") int with
      | Err err => (e, Some (TreeError err))
      | Ok t => (mkEngine t (prefixTree e) (exactMatchers e) (namedMatchers e)
                   (registeredPaths e) (regexMatchers e) (initialized e), None)
      end
  end.

Definition AddRegex (e : LocationEngine) (pattern : gostring) (h : option Hd)
    (caseInsensitive int : bool) : outcome :=
  if initialized e then (e, Some EngineInitialized)
  else match NewRegexMatcher pattern h 3 caseInsensitive int with
  | None => (e, Some InvalidRegex)
  | Some m => (mkEngine (prefixPriorityTree e) (prefixTree e) (exactMatchers e) (namedMatchers e)
                 (registeredPaths e) (regexMatchers e ++ [m]) (initialized e), None)
  end.

Definition AddPrefix (e : LocationEngine) (path : gostring) (h : option Hd) (int : bool) : outcome :=
  if initialized e then (e, Some EngineInitialized)
  else match checkConflict e path (go!"prefix") with
  | (e, Some err) => (e, Some err)
  | (e, None) =>
      match Insert (prefixTree e) path h 4 (go!"prefix") int with
      | Err err => (e, Some (TreeError err))
      | Ok t => (mkEngine (prefixPriorityTree e) t (exactMatchers e) (namedMatchers e)
                   (registeredPaths e) (regexMatchers e) (initialized e), None)
      end
  end.

Definition AddNamed (e : LocationEngine) (name : gostring) (h : option Hd) : outcome :=
  if initialized e then (e, Some EngineInitialized)
  else match namedMatchers e !! name with
  | Some _ => (e, Some (ConflictError (go!"@" ++ name) (go!"named") (go!"named")))
  | None => (mkEngine (prefixPriorityTree e) (prefixTree e) (exactMatchers e)
               (<[name := NewNamedMatcher name h]> (namedMatchers e))
               (registeredPaths e) (regexMatchers e) (initialized e), None)
  end.

Definition set_captures (r : MatchResult Hd) (c : option (gmap gostring gostring)) :=
  mkResult c (r_Handler r) (r_Internal r) (r_LocationType r) (r_Path r) (r_Priority r).

(** The loop over the regex matchers: the first that matches wins. *)
Fixpoint regex_loop (ms : list RegexMatcher) (path : gostring) : option (MatchResult Hd) :=
  match ms with
  | [] => None
  | m :: ms' =>
      if RegexMatch m path then Some (set_captures (RegexResult m) (GetCaptures m path))
      else regex_loop ms' path
  end.

Definition Match (e : LocationEngine) (path : gostring) : option (MatchResult Hd) :=
  match exactMatchers e !! path with
  | Some m => Some (ExactResult m)
  | None =>
      let after_prefix_priority :=
        match regex_loop (regexMatchers e) path with
        | Some r => Some r
        | None => FindLongestPrefix (prefixTree e) path
        end in
      match FindLongestPrefix (prefixPriorityTree e) path with
      | Some r => match r_Handler r with Some _ => Some r | None => after_prefix_priority end
      | None => after_prefix_priority
      end
  end.

Definition EngineMarkInitialized (e : LocationEngine) : LocationEngine :=
  mkEngine (MarkInitialized (prefixPriorityTree e)) (MarkInitialized (prefixTree e))
    (exactMatchers e) (namedMatchers e) (registeredPaths e) (regexMatchers e) true.

(** ** Registration and dispatch in the server ([router.go], [server.go]) *)

(** Conflicts are logged and skipped, other errors abort the start. *)
Definition handleRegistrationError (err : engine_error) : option engine_error :=
  match err with ConflictError _ _ _ => None | _ => Some err end.

Definition registerRoute (e : LocationEngine) (locType path : gostring) (h : option Hd)
    (int : bool) : outcome :=
  let '(e', err) :=
    if decide (locType = LocationTypeExact) then AddExact e path h int
    else if decide (locType = LocationTypePrefixPriority) then AddPrefixPriority e path h int
    else if decide (locType = LocationTypeRegex) then AddRegex e path h false int
    else if decide (locType = LocationTypeRegexCaseless) then AddRegex e path h true int
    else if decide (locType = LocationTypeNamed) then AddNamed e path h
    else AddPrefix e path h int in
  match err with
  | Some err => (e', handleRegistrationError err)
  | None => (e', None)
  end.

(** The base handler: the handler to run, or [None] for the 404 response. *)
Definition dispatch (e : LocationEngine) (path : gostring) : option Hd :=
  match Match e path with
  | Some r => r_Handler r
  | None => None
  end.

(** ** Specification

    A registration request, as [registerRoute] receives it; the abstract engine
    is the list of accepted registrations, in order, and a flag. *)
Inductive reg :=
  | RExact (path : gostring) (h : Hd) (int : bool)
  | RPrefixPriority (path : gostring) (h : Hd) (int : bool)
  | RRegex (pattern : gostring) (h : Hd) (ci int : bool)
  | RPrefix (path : gostring) (h : Hd) (int : bool)
  | RNamed (name : gostring) (h : Hd).

Definition apply_reg (e : LocationEngine) (r : reg) : outcome :=
  match r with
  | RExact p h int => AddExact e p (Some h) int
  | RPrefixPriority p h int => AddPrefixPriority e p (Some h) int
  | RRegex p h ci int => AddRegex e p (Some h) ci int
  | RPrefix p h int => AddPrefix e p (Some h) int
  | RNamed n h => AddNamed e n (Some h)
  end.

Record spec_engine := mkSpec { accepted : list reg; closed : bool }.

(** The path a registration claims, with the type it claims it for. *)
Definition claimed (r : reg) : option (gostring * gostring) :=
  match r with
  | RExact p _ _ => Some (p, go!"exact")
  | RPrefixPriority p _ _ => Some (p, go!"prefix_priority")
  | RPrefix p _ _ => Some (p, go!"prefix")
  | _ => None
  end.

Definition named_of (r : reg) : option (gostring * NamedMatcher) :=
  match r with RNamed n h => Some (n, NewNamedMatcher n (Some h)) | _ => None end.

Definition exact_of (r : reg) : option (gostring * ExactMatcher) :=
  match r with RExact p h int => Some (p, NewExactMatcher p (Some h) 1 int) | _ => None end.

Definition priority_of (r : reg) : option (location (H:=Hd)) :=
  match r with
  | RPrefixPriority p h int => Some (p, (h, 2, go!"prefix_priority", int))
  | _ => None
  end.

Definition prefix_of_reg (r : reg) : option (location (H:=Hd)) :=
  match r with RPrefix p h int => Some (p, (h, 4, go!"prefix", int)) | _ => None end.

Definition regex_of (r : reg) : option RegexMatcher :=
  match r with RRegex p h ci int => NewRegexMatcher p (Some h) 3 ci int | _ => None end.

Definition claims (s : spec_engine) : gmap gostring gostring :=
  list_to_map (omap claimed (accepted s)).
Definition names (s : spec_engine) : gmap gostring NamedMatcher :=
  list_to_map (omap named_of (accepted s)).

Definition spec_accept (s : spec_engine) (r : reg) : spec_engine * option engine_error :=
  (mkSpec (accepted s ++ [r]) (closed s), None).

Definition spec_apply (s : spec_engine) (r : reg) : spec_engine * option engine_error :=
  if closed s then (s, Some EngineInitialized)
  else match r with
  | RRegex p _ _ _ =>
      match regexp_Compile p with
      | None => (s, Some InvalidRegex)
      | Some _ => spec_accept s r
      end
  | RNamed n _ =>
      match names s !! n with
      | Some _ => (s, Some (ConflictError (go!"@" ++ n) (go!"named") (go!"named")))
      | None => spec_accept s r
      end
  | RExact p _ _ | RPrefixPriority p _ _ | RPrefix p _ _ =>
      match claims s !! p, claimed r with
      | Some existing, Some (_, ty) => (s, Some (ConflictError p existing ty))
      | _, _ => spec_accept s r
      end
  end.

(** The refinement relation between the engine and the accepted registrations. *)
Record refines (e : LocationEngine) (s : spec_engine) : Prop := {
  ref_exact : exactMatchers e = list_to_map (omap exact_of (accepted s));
  ref_named : namedMatchers e = names s;
  ref_claims : registeredPaths e = claims s;
  ref_regex : regexMatchers e = omap regex_of (accepted s);
  ref_pp : tree_entries (prefixPriorityTree e) ≡ₚ entry_of <$> omap priority_of (accepted s);
  ref_p : tree_entries (prefixTree e) ≡ₚ entry_of <$> omap prefix_of_reg (accepted s);
  ref_wf_pp : wf_tree (prefixPriorityTree e);
  ref_wf_p : wf_tree (prefixTree e);
  ref_init : initialized e = closed s;
  ref_init_pp : tree_initialized (prefixPriorityTree e) = closed s;
  ref_init_p : tree_initialized (prefixTree e) = closed s
}.

Lemma refines_new : refines NewLocationEngine (mkSpec [] false).
Proof. split; try done; apply wf_NewRadixTree. Qed.

Lemma refines_close e s :
  refines e s → refines (EngineMarkInitialized e) (mkSpec (accepted s) true).
Proof. intros []. by split. Qed.

(** A key of one of the component tables is claimed. *)
Lemma unclaimed {A} (f : reg → option (gostring * A)) ty s p :
  (∀ r x, f r = Some x → claimed r = Some (x.1, ty)) →
  claims s !! p = None → p ∉ (omap f (accepted s)).*1.
Proof.
  intros Hf Hc%not_elem_of_list_to_map Hp. apply Hc. clear Hc.
  apply list_elem_of_fmap in Hp as ([q m] & -> & (r & Hr & Ho)%list_elem_of_omap).
  apply list_elem_of_fmap. exists (q, ty). split; [done|].
  apply list_elem_of_omap. exists r. split; [done|]. by apply Hf in Ho.
Qed.

Lemma omap_snoc {A B} (f : A → option B) (l : list A) (x : A) :
  omap f (l ++ [x]) = omap f l ++ match f x with Some y => [y] | None => [] end.
Proof. rewrite omap_app. simpl. by destruct (f x). Qed.

(** The tables after accepting one registration more. *)
Ltac accepted_one := simpl; rewrite ?omap_snoc; simpl; rewrite ?app_nil_r.

Lemma claims_accept s r p ty :
  claimed r = Some (p, ty) → claims s !! p = None →
  claims (mkSpec (accepted s ++ [r]) (closed s)) = <[p := ty]> (claims s).
Proof.
  intros Hr Hc. unfold claims in *. simpl. rewrite omap_snoc, Hr.
  apply list_to_map_snoc. by apply not_elem_of_list_to_map.
Qed.

(** Inserting an unclaimed path into a tree that holds the registrations
    selected by [f] succeeds. *)
Lemma tree_insert_accept (f : reg → option (location (H:=Hd))) t s r p h pr lt int :
  (∀ r x, f r = Some x → claimed r = Some (x.1, lt)) → f r = Some (p, (h, pr, lt, int)) →
  wf_tree t → tree_initialized t = false →
  tree_entries t ≡ₚ entry_of <$> omap f (accepted s) → claims s !! p = None →
  ∃ t', Insert t p (Some h) pr lt int = Ok t' ∧ wf_tree t' ∧ tree_initialized t' = false ∧
    tree_entries t' ≡ₚ entry_of <$> omap f (accepted s ++ [r]).
Proof.
  intros Hf Hr Hwf Hi Hp Hc.
  pose proof (Insert_correct t p h pr lt int Hwf) as Hins.
  destruct (Insert _ _ _ _ _ _) as [t'|[]]; simpl in Hins.
  - destruct Hins as (_ & _ & Hwf' & Hi' & Hp'). exists t'. split_and!; try done.
    rewrite Hp', Hp, omap_snoc, Hr, fmap_app. simpl. by rewrite <- Permutation_cons_append.
  - congruence.
  - destruct Hins as [_ Hin]. exfalso. eapply unclaimed; [exact Hf | exact Hc |].
    by rewrite tree_paths_entries, Hp, entry_of_fst in Hin.
Qed.

Lemma checkConflict_refines e s p ty :
  refines e s →
  checkConflict e p ty = match claims s !! p with
    | Some existing => (e, Some (ConflictError p existing ty))
    | None => (set_registered e p ty, None) end.
Proof. intros Hr. unfold checkConflict. by rewrite (ref_claims _ _ Hr). Qed.

(** One simulation lemma per kind of registration. *)
Definition simulates (o : outcome) (so : spec_engine * option engine_error) : Prop :=
  o.2 = so.2 ∧ refines o.1 so.1.

Lemma sim_exact e s p h int :
  refines e s → simulates (AddExact e p (Some h) int) (spec_apply s (RExact p h int)).
Proof.
  intros Hr. unfold AddExact, spec_apply. rewrite (ref_init _ _ Hr).
  destruct (closed s) eqn:Hcl; [done|]. rewrite (checkConflict_refines _ _ _ _ Hr).
  simpl. destruct (claims s !! p) eqn:Hc; [done|]. split; [done|].
  destruct Hr. split; accepted_one; try done.
  - rewrite ref_exact0. symmetry. apply list_to_map_snoc.
    apply (unclaimed exact_of (go!"exact")); [|done]. by intros [] ? ?; simplify_eq/=.
  - unfold names in *. by accepted_one.
  - rewrite ref_claims0. symmetry. by eapply claims_accept.
Qed.

Lemma sim_prefix_priority e s p h int :
  refines e s →
  simulates (AddPrefixPriority e p (Some h) int) (spec_apply s (RPrefixPriority p h int)).
Proof.
  intros Hr. unfold AddPrefixPriority, spec_apply. rewrite (ref_init _ _ Hr).
  destruct (closed s) eqn:Hcl; [done|]. rewrite (checkConflict_refines _ _ _ _ Hr).
  simpl. destruct (claims s !! p) eqn:Hc; [done|]. destruct Hr. rewrite Hcl in *. simpl.
  destruct (tree_insert_accept priority_of (prefixPriorityTree e) s (RPrefixPriority p h int)
    p h 2 (go!"prefix_priority") int) as (t & -> & ? & ? & ?); try done.
  { by intros [] ? ?; simplify_eq/=. }
  split; [done|]. split; accepted_one; try congruence.
  - unfold names in *. by accepted_one.
  - rewrite ref_claims0. symmetry. by eapply claims_accept.
  - by rewrite omap_snoc in *.
Qed.

Lemma sim_prefix e s p h int :
  refines e s → simulates (AddPrefix e p (Some h) int) (spec_apply s (RPrefix p h int)).
Proof.
  intros Hr. unfold AddPrefix, spec_apply. rewrite (ref_init _ _ Hr).
  destruct (closed s) eqn:Hcl; [done|]. rewrite (checkConflict_refines _ _ _ _ Hr).
  simpl. destruct (claims s !! p) eqn:Hc; [done|]. destruct Hr. rewrite Hcl in *. simpl.
  destruct (tree_insert_accept prefix_of_reg (prefixTree e) s (RPrefix p h int)
    p h 4 (go!"prefix") int) as (t & -> & ? & ? & ?); try done.
  { by intros [] ? ?; simplify_eq/=. }
  split; [done|]. split; accepted_one; try congruence.
  - unfold names in *. by accepted_one.
  - rewrite ref_claims0. symmetry. by eapply claims_accept.
  - by rewrite omap_snoc in *.
Qed.

Lemma sim_regex e s p h ci int :
  refines e s → simulates (AddRegex e p (Some h) ci int) (spec_apply s (RRegex p h ci int)).
Proof.
  intros Hr. unfold AddRegex, spec_apply. rewrite (ref_init _ _ Hr).
  destruct (closed s) eqn:Hcl; [done|].
  destruct (regexp_Compile p) as [re|] eqn:Hre; unfold NewRegexMatcher; rewrite Hre; simpl; [|done].
  split; [done|]. destruct Hr. split; accepted_one; try done.
  - unfold names in *. by accepted_one.
  - unfold claims in *. by accepted_one.
  - unfold NewRegexMatcher. rewrite Hre. simpl. by rewrite ref_regex0.
Qed.

Lemma sim_named e s n h :
  refines e s → simulates (AddNamed e n (Some h)) (spec_apply s (RNamed n h)).
Proof.
  intros Hr. unfold AddNamed, spec_apply. rewrite (ref_init _ _ Hr), (ref_named _ _ Hr).
  destruct (closed s) eqn:Hcl; [done|].
  destruct (names s !! n) eqn:Hn; [done|]. split; [done|].
  destruct Hr. split; accepted_one; try done.
  - unfold names in *. accepted_one. symmetry. apply list_to_map_snoc.
    by apply not_elem_of_list_to_map.
  - unfold claims in *. by accepted_one.
Qed.

Lemma sim_apply e s r : refines e s → simulates (apply_reg e r) (spec_apply s r).
Proof.
  intros Hr. destruct r.
  - by apply sim_exact.
  - by apply sim_prefix_priority.
  - by apply sim_regex.
  - by apply sim_prefix.
  - by apply sim_named.
Qed.

(** Start-up registers a list of routes and goes on after a conflict. *)
Definition register_all (e : LocationEngine) (rs : list reg) : LocationEngine :=
  foldl (λ e r, (apply_reg e r).1) e rs.
Definition spec_register_all (s : spec_engine) (rs : list reg) : spec_engine :=
  foldl (λ s r, (spec_apply s r).1) s rs.

Lemma sim_all rs e s :
  refines e s → refines (register_all e rs) (spec_register_all s rs).
Proof.
  revert e s. induction rs as [|r rs IH]; intros e s Hr; [done|]. simpl.
  apply IH. by destruct (sim_apply e s r Hr).
Qed.

(** *** What a match returns *)

Definition no_exact (st : list reg) (path : gostring) : Prop :=
  ∀ h int, RExact path h int ∉ st.
Definition no_priority (st : list reg) (path : gostring) : Prop :=
  ∀ q h int, RPrefixPriority q h int ∈ st → ¬ q `prefix_of` path.
Definition no_regex (st : list reg) (path : gostring) : Prop :=
  ∀ pat h ci int re, RRegex pat h ci int ∈ st → regexp_Compile pat = Some re →
    MatchString re path = false.
Definition no_prefix (st : list reg) (path : gostring) : Prop :=
  ∀ q h int, RPrefix q h int ∈ st → ¬ q `prefix_of` path.

(** The priority order of the engine over the accepted registrations: the exact
    location, else a [^~] location that is a prefix, else the first regular
    expression that matches, else an ordinary prefix location. *)
Inductive match_spec (st : list reg) (path : gostring) : option (MatchResult Hd) → Prop :=
  | match_exact h int :
      RExact path h int ∈ st →
      match_spec st path (Some (mkResult None (Some h) int (go!"exact") path 1))
  | match_priority q h r :
      no_exact st path → RPrefixPriority q h (r_Internal r) ∈ st → q `prefix_of` path →
      r_Handler r = Some h → r_LocationType r = go!"prefix_priority" → r_Priority r = 2 →
      match_spec st path (Some r)
  | match_regex st1 pat h ci st2 re r :
      no_exact st path → no_priority st path →
      st = st1 ++ RRegex pat h ci (r_Internal r) :: st2 → no_regex st1 path →
      regexp_Compile pat = Some re → MatchString re path = true →
      r_Handler r = Some h → r_Path r = regexp_String re → r_Priority r = 3 →
      r_LocationType r = (if ci then go!"regex_caseless" else go!"regex") →
      match_spec st path (Some r)
  | match_prefix q h r :
      no_exact st path → no_priority st path → no_regex st path →
      RPrefix q h (r_Internal r) ∈ st → q `prefix_of` path →
      r_Handler r = Some h → r_LocationType r = go!"prefix" → r_Priority r = 4 →
      match_spec st path (Some r)
  | match_none :
      no_exact st path → no_priority st path → no_regex st path → no_prefix st path →
      match_spec st path None.

Lemma exact_lookup st path :
  match (list_to_map (omap exact_of st) : gmap gostring ExactMatcher) !! path with
  | Some m => ∃ h int, RExact path h int ∈ st ∧
                ExactResult m = mkResult None (Some h) int (go!"exact") path 1
  | None => no_exact st path
  end.
Proof.
  destruct (list_to_map _ !! path) as [m|] eqn:E.
  - apply elem_of_list_to_map_2, list_elem_of_omap in E as (r & Hr & Ho).
    destruct r as [p h int| | | |]; simplify_eq/=. by exists h, int.
  - apply not_elem_of_list_to_map in E. intros h int Hin. apply E.
    apply list_elem_of_fmap. exists (path, NewExactMatcher path (Some h) 1 int).
    split; [done|]. apply list_elem_of_omap. by eexists.
Qed.

(** A lookup in a tree that holds the registrations selected by [f]. *)
Lemma tree_lookup (f : reg → option (location (H:=Hd))) t st path :
  wf_tree t → tree_entries t ≡ₚ entry_of <$> omap f st → path ≠ [] →
  match FindLongestPrefix t path with
  | Some r => ∃ q h reg, reg ∈ st ∧
      f reg = Some (q, (h, r_Priority r, r_LocationType r, r_Internal r)) ∧
      q `prefix_of` path ∧ r_Handler r = Some h
  | None => ∀ reg l, reg ∈ st → f reg = Some l → ¬ l.1 `prefix_of` path
  end.
Proof.
  intros Hwf Hp Hne. pose proof (Find_correct t path Hwf Hne) as Hf.
  destruct (FindLongestPrefix t path) as [r|]; simpl in Hf.
  - destruct Hf as (q & n & Hin & Hpre & -> & _).
    assert ((q, attrs n) ∈ tree_entries t) as He.
    { apply list_elem_of_fmap. by exists (q, n). }
    rewrite Hp in He. apply list_elem_of_fmap in He as (l & He & Hl).
    apply list_elem_of_omap in Hl as (rg & Hrg & Hl).
    destruct l as [q' [[[h pr] lt] int]]. unfold attrs in He. injection He as <- Hh <- <- <-.
    exists q, h, rg. simpl. by rewrite Hl, Hh.
  - intros rg l Hrg Hl. apply Hf. rewrite tree_paths_entries, Hp, entry_of_fst.
    apply list_elem_of_fmap. exists l. split; [done|]. apply list_elem_of_omap. by exists rg.
Qed.

Lemma regex_loop_spec st path :
  match regex_loop (omap regex_of st) path with
  | Some r => ∃ st1 pat h ci st2 re, st = st1 ++ RRegex pat h ci (r_Internal r) :: st2 ∧
      no_regex st1 path ∧ regexp_Compile pat = Some re ∧ MatchString re path = true ∧
      r_Handler r = Some h ∧ r_Path r = regexp_String re ∧ r_Priority r = 3 ∧
      r_LocationType r = (if ci then go!"regex_caseless" else go!"regex")
  | None => no_regex st path
  end.
Proof.
  induction st as [|rg st IH]; [by intros ????? ?%elem_of_nil|].
  assert (regex_of rg = None ∨ (∃ pat h ci int re, rg = RRegex pat h ci int ∧
    regexp_Compile pat = Some re ∧ regex_of rg = Some (mkRegex re (Some h) ∅ 3 int ci)))
    as [Hn|(pat & h & ci & int & re & -> & Hre & Ho)].
  { destruct rg; simpl; auto. unfold NewRegexMatcher.
    destruct (regexp_Compile _) eqn:Hre; [right|by left]. do 5 eexists; split_and!; eauto. }
  - assert (no_regex st path → no_regex (rg :: st) path) as Hskip.
    { intros Hst pat h ci int re [<-|Hin]%elem_of_cons Hre; [|by eapply Hst].
      simpl in Hn. unfold NewRegexMatcher in Hn. by rewrite Hre in Hn. }
    simpl. rewrite Hn. destruct (regex_loop _ _) as [r|]; [|auto].
    destruct IH as (st1 & pat & h & ci & st2 & re & -> & Hst1 & ?).
    exists (rg :: st1), pat, h, ci, st2, re. split_and!; try naive_solver.
    intros pat' h' ci' int' re' [<-|Hin]%elem_of_cons Hre'; [|by eapply Hst1].
    simpl in Hn. unfold NewRegexMatcher in Hn. by rewrite Hre' in Hn.
  - cbn [omap list_omap]. rewrite Ho. cbn [regex_loop]. unfold RegexMatch. simpl rm_pattern.
    destruct (MatchString re path) eqn:Hm.
    + exists [], pat, h, ci, st, re. simpl. split_and!; try done.
      by intros ????? ?%elem_of_nil.
    + destruct (regex_loop _ _) as [r|].
      * destruct IH as (st1 & pat1 & h1 & ci1 & st2 & re1 & -> & Hst1 & ?).
        exists (RRegex pat h ci int :: st1), pat1, h1, ci1, st2, re1.
        split_and!; try naive_solver.
        intros pat' h' ci' int' re' [?|Hin]%elem_of_cons Hre'; [by simplify_eq|by eapply Hst1].
      * intros pat' h' ci' int' re' [?|Hin]%elem_of_cons Hre'; [by simplify_eq|by eapply IH].
Qed.

Lemma Match_refines e s path :
  refines e s → path ≠ [] → match_spec (accepted s) path (Match e path).
Proof.
  intros Hr Hne. unfold Match. rewrite (ref_exact _ _ Hr).
  pose proof (exact_lookup (accepted s) path) as Hex.
  destruct (list_to_map _ !! path) as [m|].
  { destruct Hex as (h & int & Hin & ->). by constructor. }
  pose proof (tree_lookup priority_of _ _ path (ref_wf_pp _ _ Hr) (ref_pp _ _ Hr) Hne) as Hpp.
  destruct (FindLongestPrefix (prefixPriorityTree e) path) as [r|].
  { destruct Hpp as (q & h & rg & Hin & Ho & Hpre & Hh). rewrite Hh.
    destruct rg; simplify_eq/=. by eapply match_priority. }
  assert (no_priority (accepted s) path) as Hnp.
  { intros q h int Hin. by apply (Hpp _ (q, (h, 2, go!"prefix_priority", int)) Hin). }
  rewrite (ref_regex _ _ Hr). pose proof (regex_loop_spec (accepted s) path) as Hrx.
  destruct (regex_loop _ path) as [r|].
  { destruct Hrx as (st1 & pat & h & ci & st2 & re & ? & ? & ? & ? & ? & ? & ? & ?).
    by eapply match_regex. }
  pose proof (tree_lookup prefix_of_reg _ _ path (ref_wf_p _ _ Hr) (ref_p _ _ Hr) Hne) as Hp.
  destruct (FindLongestPrefix (prefixTree e) path) as [r|].
  - destruct Hp as (q & h & rg & Hin & Ho & Hpre & Hh).
    destruct rg; simplify_eq/=. by eapply match_prefix.
  - constructor; try done. intros q h int Hin. by apply (Hp _ (q, (h, 4, go!"prefix", int)) Hin).
Qed.

(** ** Properties *)

(** The engine and the specification after registering a list of routes. *)
Definition engine_of (rs : list reg) : LocationEngine := register_all NewLocationEngine rs.
Definition spec_of (rs : list reg) : spec_engine := spec_register_all (mkSpec [] false) rs.

Lemma engine_of_refines rs : refines (engine_of rs) (spec_of rs).
Proof. apply sim_all, refines_new. Qed.

(** C1: The request router picks, among the registrations that were accepted,
    the exact location, else a [^~] location that is a prefix of the path, else
    the first regular expression in registration order that matches, else an
    ordinary location that is a prefix, and nothing when there is none. *)
Theorem engine_match_priority (rs : list reg) (path : gostring) :
  path ≠ [] →
  match_spec (accepted (spec_of rs)) path (Match (EngineMarkInitialized (engine_of rs)) path).
Proof.
  intros Hne. apply (Match_refines _ (mkSpec (accepted (spec_of rs)) true)); [|done].
  apply refines_close, engine_of_refines.
Qed.

(** The operations on an engine: a registration, or the mark that ends them, after which
    the engine only answers. *)
Inductive engine_op := OpAdd (r : reg) | OpMarkInitialized.

Definition apply_op (e : LocationEngine) (o : engine_op) : outcome :=
  match o with
  | OpAdd r => apply_reg e r
  | OpMarkInitialized => (EngineMarkInitialized e, None)
  end.

Definition spec_op (s : spec_engine) (o : engine_op) : spec_engine * option engine_error :=
  match o with
  | OpAdd r => spec_apply s r
  | OpMarkInitialized => (mkSpec (accepted s) true, None)
  end.

Definition engine_after (os : list engine_op) : LocationEngine :=
  foldl (λ e o, (apply_op e o).1) NewLocationEngine os.
Definition spec_after (os : list engine_op) : spec_engine :=
  foldl (λ s o, (spec_op s o).1) (mkSpec [] false) os.

Lemma sim_op e s o : refines e s → simulates (apply_op e o) (spec_op s o).
Proof.
  intros Hr. destruct o as [r|]; [by apply sim_apply|]. split; [done|]. by apply refines_close.
Qed.

Lemma engine_after_refines os : refines (engine_after os) (spec_after os).
Proof.
  unfold engine_after, spec_after. generalize refines_new.
  generalize NewLocationEngine (mkSpec [] false).
  induction os as [|o os IH]; intros e s Hr; [done|]. cbn [foldl]. apply IH, sim_op, Hr.
Qed.

Lemma spec_apply_closed s r : closed (spec_apply s r).1 = closed s.
Proof. unfold spec_apply. destruct (closed s) eqn:Hc; [done|]. destruct r; by repeat case_match. Qed.

(** The abstract engine is closed from the first mark on. *)
Lemma spec_after_closed os : closed (spec_after os) = true ↔ OpMarkInitialized ∈ os.
Proof.
  induction os as [|o os IH] using rev_ind; [by split; [|intros ?%elem_of_nil]|].
  unfold spec_after in *. rewrite foldl_snoc, elem_of_app, list_elem_of_singleton, <-IH.
  destruct o as [r|]; cbn [spec_op fst].
  - rewrite spec_apply_closed. naive_solver.
  - naive_solver.
Qed.

(** C38: Whatever is registered, in whatever order, and wherever among the registrations
    the engine is marked initialized, the next operation returns the error that the
    abstract list of accepted routes gives (a path already claimed by an exact, [^~] or
    prefix location, a name in use, an invalid pattern, a closed engine), never that of a
    tree insertion, and the engine's tables stay those of the accepted routes; and once
    the engine has been marked every registration is refused with the error that says so
    and leaves the engine as it was. *)
Theorem engine_registration_refines (os : list engine_op) :
  (∀ o, (apply_op (engine_after os) o).2 = (spec_op (spec_after os) o).2 ∧
     (∀ err, (apply_op (engine_after os) o).2 ≠ Some (TreeError err)) ∧
     refines (apply_op (engine_after os) o).1 (spec_op (spec_after os) o).1) ∧
  (OpMarkInitialized ∈ os → ∀ r,
     apply_reg (engine_after os) r = (engine_after os, Some EngineInitialized)).
Proof.
  pose proof (engine_after_refines os) as Hr. split.
  - intros o. destruct (sim_op _ _ o Hr) as [Herr Href].
    split_and!; [done| |done]. rewrite Herr. intros err. destruct o as [r|]; [|done].
    cbn [spec_op]. unfold spec_apply. destruct (closed _); [done|].
    destruct r; simpl; repeat case_match; done.
  - intros Hin%spec_after_closed r. rewrite <-(ref_init _ _ Hr) in Hin.
    destruct r; cbn [apply_reg]; unfold AddExact, AddPrefixPriority, AddRegex, AddPrefix, AddNamed; by rewrite Hin.
Qed.

(** Once the engine is marked initialized no registration changes it. *)
Theorem engine_closed (rs : list reg) (r : reg) :
  let e := EngineMarkInitialized (engine_of rs) in
  apply_reg e r = (e, Some EngineInitialized).
Proof. by destruct r. Qed.

(** The case-insensitive flag of a [~*] location does not reach the regular
    expression: whatever its value, the matcher accepts the same paths. *)
Theorem caseless_flag_ignored (pattern path : gostring) (h : option Hd) (int : bool) :
  (λ m, RegexMatch m path) <$> NewRegexMatcher pattern h 3 true int
  = (λ m, RegexMatch m path) <$> NewRegexMatcher pattern h 3 false int.
Proof. unfold NewRegexMatcher. by destruct (regexp_Compile pattern). Qed.

End Location.

Arguments ExactMatcher : clear implicits.
Arguments LocationEngine {_} _.
Arguments RegexMatcher {_} _.

(** ** A concrete engine

    Patterns are literal prefixes: enough of a [Regexp] to run the engine. *)
#[local] Instance literal_regexp : Regexp := {|
  regexp := gostring;
  regexp_Compile := Some;
  MatchString re s := HasPrefix s re;
  FindStringSubmatch re s := if HasPrefix s re then Some [re] else None;
  SubexpNames _ := [[]];
  regexp_String re := re
|}.

Definition ex_routes : list (reg (Hd:=nat)) :=
  [RExact (go!"/status") 1%nat false; RPrefixPriority (go!"/debug/") 2%nat false;
   RRegex (go!"/img") 3%nat false false; RPrefix (go!"/") 4%nat false;
   RPrefix (go!"/status") 5%nat false].

Lemma engine_match_priority_witness :
  match_spec (accepted (spec_of ex_routes)) (go!"/img/a.png")
    (Match (EngineMarkInitialized (engine_of ex_routes)) (go!"/img/a.png")).
Proof. apply engine_match_priority. discriminate. Defined.

Example ex_dispatch :
  (λ p, dispatch (engine_of ex_routes) p) <$>
    [go!"/status"; go!"/debug/x"; go!"/img/a"; go!"/other"]
  = [Some 1; Some 2; Some 3; Some 4]%nat.
Proof. vm_compute. reflexivity. Qed.

(** A route accepted, one refused for its path, the mark, one refused for the mark. *)
Definition ex_ops : list (engine_op (Hd:=nat)) :=
  [OpAdd (RExact (go!"/status") 1%nat false); OpAdd (RPrefix (go!"/status") 2%nat false);
   OpMarkInitialized].

Lemma engine_registration_refines_witness :
  apply_reg (engine_after ex_ops) (RNamed (go!"late") 3%nat)
    = (engine_after ex_ops, Some EngineInitialized) ∧
  (apply_op (engine_after (take 1 ex_ops)) (OpAdd (RPrefix (go!"/status") 2%nat false))).2
    = Some (ConflictError (go!"/status") (go!"exact") (go!"prefix")).
Proof.
  split.
  - apply (engine_registration_refines ex_ops). by right; right; left.
  - rewrite (proj1 (proj1 (engine_registration_refines (take 1 ex_ops)) _)). by vm_compute.
Defined.
