(* ===== verification/Target.v ===== *)
(** * Target: back-end servers and their availability

    [src/internal/loadbalance/balancer.go] (the [Target] structure, its failure
    counters and the filters every balancer starts from) and [ewma.go].  Targets
    are shared by pointer, so they live in a store; reading the list of targets
    for a selection resets the counters of those whose cool-down has elapsed,
    and the file shows that this never changes which targets are available. *)

From S2P Require Import Prelude.

(** ** Response-time statistics ([ewma.go]) *)

Record EWMAStats := mkStats { headerTime : Z; lastByteTime : Z; sampleCount : Z }.

Definition NewEWMAStats : EWMAStats := mkStats 0 0 0.

Definition defaultAlphaScale : Z := 300.

(** One successful [CompareAndSwap] round of [recordAtomic]: the new value of
    the cell.  [Z.quot] is Go's division, which truncates towards zero. *)
Definition recordAtomic (old newNano : Z) : Z :=
  if old =? 0 then newNano
  else Z.quot (swrap64 (swrap64 (defaultAlphaScale * newNano)
                        + swrap64 ((1000 - defaultAlphaScale) * old))) 1000.

Definition Record_ (e : EWMAStats) (header lastByte : Z) : EWMAStats :=
  mkStats (recordAtomic (headerTime e) header) (recordAtomic (lastByteTime e) lastByte)
    (swrap64 (sampleCount e + 1)).

Definition Reset (e : EWMAStats) : EWMAStats := mkStats 0 0 0.

(** ** Targets ([balancer.go]) *)

Record Target := mkTarget {
  URL : gostring;
  hostname : gostring;
  resolvedIPs : option (list gostring);
  lastResolved : Z;
  VirtualHashes : list Z;
  Weight : Z;
  Connections : Z;
  Healthy : bool;
  MaxConns : Z;
  MaxFails : Z;
  FailTimeout : Z;
  Backup : bool;
  Down : bool;
  ProxyURI : gostring;
  failCount : Z;
  failedUntil : Z;
  EffectiveWeight : Z;
  SlowStart : Z;
  Stats : option EWMAStats
}.

(** Field updates. *)
Definition set_breaker (t : Target) (count until : Z) : Target :=
  mkTarget (URL t) (hostname t) (resolvedIPs t) (lastResolved t) (VirtualHashes t) (Weight t)
    (Connections t) (Healthy t) (MaxConns t) (MaxFails t) (FailTimeout t) (Backup t) (Down t)
    (ProxyURI t) count until (EffectiveWeight t) (SlowStart t) (Stats t).

Definition set_connections (t : Target) (n : Z) : Target :=
  mkTarget (URL t) (hostname t) (resolvedIPs t) (lastResolved t) (VirtualHashes t) (Weight t)
    n (Healthy t) (MaxConns t) (MaxFails t) (FailTimeout t) (Backup t) (Down t)
    (ProxyURI t) (failCount t) (failedUntil t) (EffectiveWeight t) (SlowStart t) (Stats t).

Definition set_healthy (t : Target) (b : bool) : Target :=
  mkTarget (URL t) (hostname t) (resolvedIPs t) (lastResolved t) (VirtualHashes t) (Weight t)
    (Connections t) b (MaxConns t) (MaxFails t) (FailTimeout t) (Backup t) (Down t)
    (ProxyURI t) (failCount t) (failedUntil t) (EffectiveWeight t) (SlowStart t) (Stats t).

Definition set_effective (t : Target) (w : Z) : Target :=
  mkTarget (URL t) (hostname t) (resolvedIPs t) (lastResolved t) (VirtualHashes t) (Weight t)
    (Connections t) (Healthy t) (MaxConns t) (MaxFails t) (FailTimeout t) (Backup t) (Down t)
    (ProxyURI t) (failCount t) (failedUntil t) w (SlowStart t) (Stats t).

Definition set_hashes (t : Target) (hs : list Z) : Target :=
  mkTarget (URL t) (hostname t) (resolvedIPs t) (lastResolved t) hs (Weight t)
    (Connections t) (Healthy t) (MaxConns t) (MaxFails t) (FailTimeout t) (Backup t) (Down t)
    (ProxyURI t) (failCount t) (failedUntil t) (EffectiveWeight t) (SlowStart t) (Stats t).

Definition set_stats (t : Target) (s : option EWMAStats) : Target :=
  mkTarget (URL t) (hostname t) (resolvedIPs t) (lastResolved t) (VirtualHashes t) (Weight t)
    (Connections t) (Healthy t) (MaxConns t) (MaxFails t) (FailTimeout t) (Backup t) (Down t)
    (ProxyURI t) (failCount t) (failedUntil t) (EffectiveWeight t) (SlowStart t) s.

Definition set_resolved (t : Target) (ips : option (list gostring)) (at_ : Z) : Target :=
  mkTarget (URL t) (hostname t) ips at_ (VirtualHashes t) (Weight t)
    (Connections t) (Healthy t) (MaxConns t) (MaxFails t) (FailTimeout t) (Backup t) (Down t)
    (ProxyURI t) (failCount t) (failedUntil t) (EffectiveWeight t) (SlowStart t) (Stats t).

Definition GetEffectiveWeight (t : Target) : Z :=
  let ew := EffectiveWeight t in if ew =? 0 then Weight t else ew.

(** The answer, and the target after the reset the call may perform. *)
Definition IsAvailable (now : Z) (t : Target) : bool * Target :=
  if negb (Healthy t) || Down t then (false, t)
  else if (0 <? MaxConns t) && (MaxConns t <=? Connections t) then (false, t)
  else if 0 <? MaxFails t then
    if MaxFails t <=? failCount t then
      if now <? failedUntil t then (false, t)
      else if 0 <? failedUntil t then (true, set_breaker t 0 0)
      else (true, t)
    else (true, t)
  else (true, t).

Definition RecordFailure (now : Z) (t : Target) : Z * Target :=
  if MaxFails t <=? 0 then (0, t)
  else
    let count := swrap64 (failCount t + 1) in
    if MaxFails t <=? count then
      let timeout := if FailTimeout t <=? 0 then 10 * second else FailTimeout t in
      (count, set_breaker t count (swrap64 (now + timeout)))
    else (count, set_breaker t count (failedUntil t)).

Definition RecordSuccess (t : Target) : Target :=
  if MaxFails t <=? 0 then t else set_breaker t 0 0.

Definition IsBackup (t : Target) : bool := Backup t.

Definition IncrementConnections (t : Target) : Target :=
  set_connections t (swrap64 (Connections t + 1)).
Definition DecrementConnections (t : Target) : Target :=
  set_connections t (swrap64 (Connections t - 1)).

Definition SetResolvedIPs (now : Z) (t : Target) (ips : list gostring) : Target :=
  set_resolved t (Some ips) now.

(** [net.ParseIP] is a parameter: does the host parse as an address? *)
Definition NeedsResolve (is_ip : gostring → bool) (now ttl : Z) (t : Target) : bool :=
  if is_ip (hostname t) then false
  else if lastResolved t =? 0 then true
  else ttl <? time_sub now (lastResolved t).

(** [host] is the host name [url.Parse] and [net.SplitHostPort] find. *)
Definition NewTargetFromConfig (host url : gostring) (weight maxConns maxFails failTimeout : Z)
    (backup down : bool) (proxyURI : gostring) : Target :=
  mkTarget url host None 0 [] weight 0 (negb down) maxConns maxFails failTimeout backup down
    proxyURI 0 0 0 0 (Some NewEWMAStats).

(** ** The store of targets *)

Abbreviation ptr := nat.
Abbreviation heap := (gmap nat Target).

(** A value for a pointer outside the store; the balancers never receive one. *)
Definition no_target : Target :=
  mkTarget [] [] None 0 [] 0 0 false 0 0 0 false false [] 0 0 0 0 None.

Definition deref (h : heap) (p : ptr) : Target := default no_target (h !! p).

(** [*p = t] on an allocated pointer. *)
Definition store (h : heap) (p : ptr) (t : Target) : heap := alter (λ _, t) p h.

(** The loop of [filterInto] and [filterIntoExcluding]: [skip] is the exclusion
    test, which follows the call of [IsAvailable]. *)
Fixpoint filter_loop (now : Z) (skip : Target → bool) (h : heap) (targets : list ptr)
    (available backups : list ptr) : heap * (list ptr * list ptr) :=
  match targets with
  | [] => (h, (available, backups))
  | p :: rest =>
      let '(ok, t') := IsAvailable now (deref h p) in
      let h' := store h p t' in
      if negb ok || skip t' then filter_loop now skip h' rest available backups
      else if IsBackup t' then filter_loop now skip h' rest available (backups ++ [p])
      else filter_loop now skip h' rest (available ++ [p]) backups
  end.

Definition filterInto (now : Z) (h : heap) (targets : list ptr) : heap * list ptr :=
  let '(h', (available, backups)) := filter_loop now (λ _, false) h targets [] [] in
  (h', if (0 <? length available)%nat then available else backups).

(** [excludeSet], the URLs of the excluded targets. *)
Definition exclude_set (h : heap) (excluded : list ptr) : gset gostring :=
  list_to_set ((λ p, URL (deref h p)) <$> excluded).

Definition filterIntoExcluding (now : Z) (h : heap) (targets excluded : list ptr)
  : heap * list ptr :=
  let set := exclude_set h excluded in
  let '(h', (available, backups)) :=
    filter_loop now (λ t, bool_decide (URL t ∈ set)) h targets [] [] in
  (h', if (0 <? length available)%nat then available else backups).

(** ** Availability *)

Definition available_now (now : Z) (t : Target) : bool := (IsAvailable now t).1.

(** Two targets a selection at [now] cannot tell apart: they differ at most in
    the failure counters and agree on availability. *)
Definition target_eqv (now : Z) (t t' : Target) : Prop :=
  set_breaker t 0 0 = set_breaker t' 0 0 ∧ available_now now t = available_now now t'.

Definition heap_eqv (now : Z) (h h' : heap) : Prop :=
  ∀ p, target_eqv now (deref h p) (deref h' p).

#[export] Instance target_eqv_equiv now : Equivalence (target_eqv now).
Proof.
  split.
  - done.
  - intros t t' []. done.
  - intros t t' t'' [] []. split; congruence.
Qed.

#[export] Instance heap_eqv_equiv now : Equivalence (heap_eqv now).
Proof.
  split.
  - intros h p. reflexivity.
  - intros h h' Hh p. symmetry. apply Hh.
  - intros h h' h'' H1 H2 p. transitivity (deref h' p); [apply H1 | apply H2].
Qed.

#[export] Instance deref_proper now : Proper (heap_eqv now ==> eq ==> target_eqv now) deref.
Proof. intros h h' Hh p ? <-. apply Hh. Qed.

#[export] Instance available_proper now : Proper (target_eqv now ==> eq) (available_now now).
Proof. by intros t t' []. Qed.

(** Fields other than the failure counters are the same in equivalent targets. *)
Lemma eqv_field {A} (f : Target → A) now t t' :
  (∀ t, f (set_breaker t 0 0) = f t) → target_eqv now t t' → f t = f t'.
Proof. intros Hf [Ht _]. by rewrite <- (Hf t), <- (Hf t'), Ht. Qed.

#[export] Instance URL_proper now : Proper (target_eqv now ==> eq) URL.
Proof. intros t t'. by apply eqv_field. Qed.
#[export] Instance Backup_proper now : Proper (target_eqv now ==> eq) Backup.
Proof. intros t t'. by apply eqv_field. Qed.
#[export] Instance Weight_proper now : Proper (target_eqv now ==> eq) Weight.
Proof. intros t t'. by apply eqv_field. Qed.
#[export] Instance Connections_proper now : Proper (target_eqv now ==> eq) Connections.
Proof. intros t t'. by apply eqv_field. Qed.
#[export] Instance Stats_proper now : Proper (target_eqv now ==> eq) Stats.
Proof. intros t t'. by apply eqv_field. Qed.

(** Availability in one formula. *)
Lemma available_char now t :
  available_now now t =
    Healthy t && negb (Down t) && ((MaxConns t <=? 0) || (Connections t <? MaxConns t))
    && ((MaxFails t <=? 0) || (failCount t <? MaxFails t) || (failedUntil t <=? now)).
Proof.
  unfold available_now, IsAvailable.
  destruct (Healthy t), (Down t); simpl; try done.
  destruct (Z.ltb_spec 0 (MaxConns t)), (Z.leb_spec (MaxConns t) 0); try lia; simpl.
  all: destruct (Z.leb_spec (MaxConns t) (Connections t)),
    (Z.ltb_spec (Connections t) (MaxConns t)); try lia; simpl; try done.
  all: destruct (Z.ltb_spec 0 (MaxFails t)), (Z.leb_spec (MaxFails t) 0); try lia; simpl; try done.
  all: destruct (Z.leb_spec (MaxFails t) (failCount t)),
    (Z.ltb_spec (failCount t) (MaxFails t)); try lia; simpl; try done.
  all: destruct (Z.ltb_spec now (failedUntil t)), (Z.leb_spec (failedUntil t) now); try lia; try done.
  all: by destruct (0 <? failedUntil t).
Qed.

(** Asking does not change the answer: the reset keeps the target available. *)
Lemma IsAvailable_eqv now t : target_eqv now t (IsAvailable now t).2.
Proof.
  assert ((IsAvailable now t).2 = t ∨
          (available_now now t = true ∧ (IsAvailable now t).2 = set_breaker t 0 0 ∧ 0 < MaxFails t))
    as [->|(Ha & -> & Hm)]; [|reflexivity|].
  { unfold available_now, IsAvailable. repeat case_match; bool_to_prop; auto. }
  split; [done|]. rewrite Ha. symmetry. rewrite available_char in *. simpl.
  apply andb_true_iff in Ha as [-> _].
  by rewrite (proj2 (Z.ltb_lt 0 (MaxFails t)) Hm), orb_true_r.
Qed.

Lemma deref_store h p q t :
  deref (store h p t) q = if decide (p = q ∧ is_Some (h !! p)) then t else deref h q.
Proof.
  unfold deref, store. rewrite lookup_alter. case_decide; simplify_eq.
  - destruct (h !! q) eqn:E; simpl; case_decide; naive_solver.
  - rewrite decide_False by naive_solver. done.
Qed.

Lemma store_eqv now h p t :
  target_eqv now (deref h p) t → heap_eqv now h (store h p t).
Proof.
  intros Ht q. rewrite deref_store. case_decide as Hpq; [|reflexivity].
  by destruct Hpq as [-> _].
Qed.

Lemma deref_all (P : Target → Prop) h :
  P no_target → map_Forall (λ _ t, P t) h → ∀ p, P (deref h p).
Proof.
  intros H0 Hh p. unfold deref. destruct (h !! p) as [t|] eqn:Hp; [|done].
  by apply (Hh p).
Qed.

(** ** What the filters compute *)

Definition usable (now : Z) (skip : Target → bool) (h : heap) (p : ptr) : bool :=
  available_now now (deref h p) && negb (skip (deref h p)).

(** The available targets that are not skipped; the backups only when no
    primary target is left. *)
Definition candidates (now : Z) (skip : Target → bool) (h : heap) (targets : list ptr) : list ptr :=
  let primary := filter (λ p, usable now skip h p = true ∧ Backup (deref h p) = false) targets in
  let backups := filter (λ p, usable now skip h p = true ∧ Backup (deref h p) = true) targets in
  match primary with [] => backups | _ => primary end.

Lemma filter_loop_spec now skip h ts av bk :
  (∀ t t', target_eqv now t t' → skip t = skip t') →
  let '(h', (av', bk')) := filter_loop now skip h ts av bk in
  heap_eqv now h h' ∧
  av' = av ++ filter (λ p, usable now skip h p = true ∧ Backup (deref h p) = false) ts ∧
  bk' = bk ++ filter (λ p, usable now skip h p = true ∧ Backup (deref h p) = true) ts.
Proof.
  intros Hskip. revert h av bk. induction ts as [|p ts IH]; intros h av bk.
  { simpl. by rewrite !app_nil_r. }
  cbn [filter_loop]. pose proof (IsAvailable_eqv now (deref h p)) as Hq.
  destruct (IsAvailable now (deref h p)) as [ok t'] eqn:Hok. simpl in Hq.
  assert (ok = available_now now (deref h p)) as Hav by (unfold available_now; by rewrite Hok).
  assert (heap_eqv now h (store h p t')) as Hst by by apply store_eqv.
  rewrite <- (Hskip _ _ Hq). unfold IsBackup. rewrite <- (Backup_proper _ _ _ Hq).
  rewrite !filter_cons.
  assert (usable now skip h p = ok && negb (skip (deref h p))) as Hu by (unfold usable; congruence).
  assert (∀ b, filter (λ q, usable now skip (store h p t') q = true
                            ∧ Backup (deref (store h p t') q) = b) ts
             = filter (λ q, usable now skip h q = true ∧ Backup (deref h q) = b) ts) as Hf.
  { intros b. apply list_filter_iff. intros q. unfold usable.
    by rewrite (Hskip _ _ (Hst q)), <- (available_proper _ _ _ (Hst q)),
      <- (Backup_proper _ _ _ (Hst q)). }
  destruct ok, (skip (deref h p)) eqn:Hsk; simpl in Hu |- *.
  2: destruct (Backup (deref h p)) eqn:Hbk.
  all: match goal with |- context [filter_loop ?n ?s ?h' ?l ?a ?b] =>
         specialize (IH h' a b); destruct (filter_loop n s h' l a b) as [h2 [av2 bk2]] end.
  all: destruct IH as (IHh & -> & ->); rewrite !Hf; (split; [by transitivity (store h p t')|]).
  all: split; repeat case_decide; try (exfalso; intuition congruence).
  all: by rewrite <- ?app_assoc.
Qed.

Lemma candidates_choice {A} (av bk : list A) :
  (if (0 <? length av)%nat then av else bk) = match av with [] => bk | _ => av end.
Proof. by destruct av. Qed.

Lemma filterInto_spec now h ts :
  heap_eqv now h (filterInto now h ts).1 ∧
  (filterInto now h ts).2 = candidates now (λ _, false) h ts.
Proof.
  unfold filterInto. pose proof (filter_loop_spec now (λ _, false) h ts [] []) as Hs.
  destruct (filter_loop _ _ _ _ _ _) as [h' [av bk]]. destruct Hs as (? & -> & ->); [done|].
  split; [done|]. apply candidates_choice.
Qed.

(** Is the target's URL among those of the excluded targets? *)
Definition is_excluded (h : heap) (excluded : list ptr) (t : Target) : bool :=
  bool_decide (URL t ∈ exclude_set h excluded).

Lemma filterIntoExcluding_spec now h ts ex :
  heap_eqv now h (filterIntoExcluding now h ts ex).1 ∧
  (filterIntoExcluding now h ts ex).2 = candidates now (is_excluded h ex) h ts.
Proof.
  unfold filterIntoExcluding.
  pose proof (filter_loop_spec now (is_excluded h ex) h ts [] []) as Hs.
  change (λ t, bool_decide (URL t ∈ exclude_set h ex)) with (is_excluded h ex).
  destruct (filter_loop _ _ _ _ _ _) as [h' [av bk]]. destruct Hs as (? & -> & ->).
  { intros t t' Ht. unfold is_excluded. by rewrite (URL_proper _ _ _ Ht). }
  split; [done|]. apply candidates_choice.
Qed.

Lemma elem_of_candidates now skip h ts p :
  p ∈ candidates now skip h ts → p ∈ ts ∧ usable now skip h p = true.
Proof.
  unfold candidates.
  set (primary := filter _ ts). assert (∀ q, q ∈ primary → q ∈ ts ∧ usable now skip h q = true) as Hp.
  { by intros q [[] ?]%list_elem_of_filter. }
  destruct primary; [|apply Hp]. by intros [[] ?]%list_elem_of_filter.
Qed.

Lemma candidates_nil now skip h ts :
  candidates now skip h ts = [] ↔ ∀ p, p ∈ ts → usable now skip h p = false.
Proof.
  unfold candidates. split.
  - intros Hn p Hp. apply not_true_iff_false. intros Hu.
    destruct (Backup (deref h p)) eqn:Hb.
    + assert (p ∈ filter (λ p, usable now skip h p = true ∧ Backup (deref h p) = true) ts) as Hin
        by by apply list_elem_of_filter.
      destruct (filter _ ts) eqn:E in Hn; [|done]. rewrite Hn in Hin. by apply elem_of_nil in Hin.
    + assert (p ∈ filter (λ p, usable now skip h p = true ∧ Backup (deref h p) = false) ts) as Hin
        by by apply list_elem_of_filter.
      destruct (filter (λ p, _ ∧ _ = false) ts) eqn:E in Hn; [|done].
      rewrite E in Hin. by apply elem_of_nil in Hin.
  - intros Hu. rewrite !filter_none; [done|..]; intros p Hp [Hp' _]; by rewrite Hu in Hp'.
Qed.

(** A backup is a candidate only when no primary target is usable. *)
Lemma candidates_backup now skip h ts p q :
  p ∈ candidates now skip h ts → Backup (deref h p) = true →
  q ∈ ts → usable now skip h q = true → Backup (deref h q) = true.
Proof.
  unfold candidates. intros Hp Hb Hq Hu.
  set (primary := filter _ ts) in Hp.
  assert (∀ x, x ∈ primary → Backup (deref h x) = false) as Hprim
    by (by intros x [[] ?]%list_elem_of_filter).
  destruct primary eqn:E; [|by rewrite (Hprim _ Hp) in Hb].
  destruct (Backup (deref h q)) eqn:Hbq; [done|exfalso].
  assert (q ∈ primary) as Hin by by apply list_elem_of_filter.
  rewrite E in Hin. by apply elem_of_nil in Hin.
Qed.

(** ** The failure counters as a circuit breaker *)

Definition cooldown (t : Target) : Z :=
  if FailTimeout t <=? 0 then 10 * second else FailTimeout t.

(** Failures recorded one after the other, at the given instants. *)
Definition fail_at (t : Target) (nows : list Z) : Target :=
  foldl (λ t now, (RecordFailure now t).2) t nows.

Lemma set_breaker_same t : set_breaker t (failCount t) (failedUntil t) = t.
Proof. by destruct t. Qed.

Lemma fail_at_below t nows :
  0 ≤ failCount t → 0 < MaxFails t ≤ int64_max → failCount t + zlen nows < MaxFails t →
  fail_at t nows = set_breaker t (failCount t + zlen nows) (failedUntil t).
Proof.
  revert t. induction nows as [|now nows IH]; intros t Hc Hm Hlt; simpl in *.
  { by rewrite Z.add_0_r, set_breaker_same. }
  unfold fail_at in *. simpl.
  assert ((RecordFailure now t).2 = set_breaker t (failCount t + 1) (failedUntil t)) as ->.
  { unfold RecordFailure. rewrite swrap64_id by (unfold in_int64, int64_min, int64_max in *; lia).
    case_tests; try done; lia. }
  rewrite IH; simpl; try lia. unfold set_breaker; simpl. f_equal. lia.
Qed.

Lemma available_breaker t count until now :
  0 < MaxFails t →
  available_now now (set_breaker t count until) =
    Healthy t && negb (Down t) && ((MaxConns t <=? 0) || (Connections t <? MaxConns t))
    && ((count <? MaxFails t) || (until <=? now)).
Proof.
  intros Hm. rewrite available_char. simpl.
  by rewrite (proj2 (Z.leb_gt (MaxFails t) 0) Hm).
Qed.

(** ** Properties *)

(** The failure counter is a circuit breaker.  A healthy, enabled target
    below its connection limit stays available through its first [MaxFails - 1]
    failures; the failure that makes [MaxFails] takes it out until the cool-down
    has elapsed and no longer; the first availability check after that clears
    both counters. *)
Theorem breaker_trips (t : Target) (nows : list Z) (last : Z) :
  let t' := fail_at t (nows ++ [last]) in
  Healthy t = true → Down t = false → (MaxConns t ≤ 0 ∨ Connections t < MaxConns t) →
  failCount t = 0 → failedUntil t = 0 → MaxFails t = zlen nows + 1 → MaxFails t ≤ int64_max →
  0 ≤ last → last + cooldown t ≤ int64_max →
  (∀ now, available_now now (fail_at t nows) = true) ∧
  (∀ now, available_now now t' = (last + cooldown t <=? now)) ∧
  (∀ now, last + cooldown t ≤ now → IsAvailable now t' = (true, t)).
Proof.
  intros t' Hh Hd Hcap Hc Hu Hm Hmax Hl Hov.
  assert (0 < cooldown t) as Hcool by (unfold cooldown, second; case_tests; lia).
  assert (fail_at t nows = set_breaker t (zlen nows) 0) as Hn.
  { rewrite fail_at_below by lia. by rewrite Hc, Hu. }
  assert (t' = set_breaker t (MaxFails t) (last + cooldown t)) as Ht'.
  { subst t'. unfold fail_at. rewrite foldl_app. simpl. fold (fail_at t nows). rewrite Hn.
    unfold RecordFailure. simpl. fold (cooldown t).
    rewrite !swrap64_id by (unfold in_int64, int64_min, int64_max in *; lia).
    case_tests; simpl; try lia. by rewrite Hm. }
  assert ((MaxConns t <=? 0) || (Connections t <? MaxConns t) = true) as Hcapb
    by (destruct Hcap; apply orb_true_iff; [left|right]; lia).
  split_and!.
  - intros now. rewrite Hn, available_breaker, Hh, Hd, Hcapb by lia. simpl.
    by rewrite (proj2 (Z.ltb_lt _ _)) by lia.
  - intros now. rewrite Ht', available_breaker, Hh, Hd, Hcapb by lia. simpl.
    by rewrite Z.ltb_irrefl.
  - intros now Hnow. rewrite Ht'. unfold IsAvailable. simpl. rewrite Hh, Hd. simpl.
    assert ((0 <? MaxConns t) && (MaxConns t <=? Connections t) = false) as ->
      by (apply andb_false_iff; destruct Hcap; [left|right]; lia).
    rewrite (proj2 (Z.ltb_lt _ _)) by lia. rewrite Z.leb_refl.
    rewrite (proj2 (Z.ltb_ge _ _)) by lia. rewrite (proj2 (Z.ltb_lt _ _)) by lia.
    f_equal. transitivity (set_breaker t (failCount t) (failedUntil t));
      [by rewrite Hc, Hu | apply set_breaker_same].
Qed.

Definition ex_target : Target :=
  set_breaker (NewTargetFromConfig (go!"b") (go!"http://b") 1 0 2 second false false []) 0 0.

Lemma breaker_trips_witness :
  let t' := fail_at ex_target [5; 7] in
  (∀ now, available_now now (fail_at ex_target [5]) = true) ∧
  (∀ now, available_now now t' = (7 + cooldown ex_target <=? now)) ∧
  (∀ now, 7 + cooldown ex_target ≤ now → IsAvailable now t' = (true, ex_target)).
Proof.
  apply (breaker_trips ex_target [5] 7); try reflexivity; try (left; reflexivity);
    vm_compute; discriminate.
Defined.

(** After any positive sample the moving average lies between the old
    average and the sample, the first sample being taken as it is, as long as
    the times are below [2 ^ 53] nanoseconds (about 104 days). *)
Theorem recordAtomic_between (old sample : Z) :
  0 ≤ old ≤ 2 ^ 53 → 0 ≤ sample ≤ 2 ^ 53 →
  (old = 0 → recordAtomic old sample = sample) ∧
  (0 < old → Z.min old sample ≤ recordAtomic old sample ≤ Z.max old sample).
Proof.
  intros Ho Hs. unfold recordAtomic, defaultAlphaScale. split.
  - intros ->. done.
  - intros Hpos. rewrite (proj2 (Z.eqb_neq old 0)) by lia.
    rewrite (swrap64_id (300 * _)), (swrap64_id ((1000 - 300) * _)), swrap64_id
      by (unfold in_int64, int64_min, int64_max; lia).
    rewrite Z.quot_div_nonneg by lia.
    split; [apply Z.div_le_lower_bound; lia | apply Z.div_le_upper_bound; lia].
Qed.

Lemma recordAtomic_between_witness :
  recordAtomic 0 1000 = 1000 ∧ Z.min 2000 1000 ≤ recordAtomic 2000 1000 ≤ Z.max 2000 1000.
Proof.
  split; [apply (recordAtomic_between 0 1000) | apply (recordAtomic_between 2000 1000)];
    reflexivity || (vm_compute; intuition discriminate).
Defined.
