(* ===== verification/Balancer.v ===== *)
(** * Balancer: the selection algorithms of [src/internal/loadbalance]

    Round robin, weighted round robin, least connections, IP hash
    ([balancer.go]), least time ([least_time.go]) and power of two choices
    ([random.go]), behind the interface [Balancer] of the source.  The classes
    [SelectOk] and [FailoverOk] state what a client may rely on; the selection of
    the proxy, and through it the failover loop, is verified against them
    ([Selection]). *)

From S2P Require Import Prelude Hash Target.

(** ** The interface *)

Class Balancer (B : Type) := {
  Select : B → heap → Z → list ptr → option ptr * B * heap;
  SelectExcluding : B → heap → Z → list ptr → list ptr → option ptr * B * heap
}.

Definition skip_none : Target → bool := λ _, false.

(** The sum of the weights, none counted below 1. *)
Definition weight_of (t : Target) : Z := if Weight t <=? 0 then 1 else Weight t.
Definition total_weight (h : heap) (l : list ptr) : Z :=
  foldr (λ p acc, weight_of (deref h p) + acc) 0 l.

(** A selection returns a candidate, and nothing only when there is none
    (weights must not overflow an [int] together); it changes nothing in the
    store that a selection at that instant can observe. *)
Class SelectOk (B : Type) `{Balancer B} : Prop := {
  select_some b h now ts p b' h' :
    Select b h now ts = (Some p, b', h') → p ∈ candidates now skip_none h ts;
  select_none b h now ts b' h' :
    total_weight h (candidates now skip_none h ts) ≤ int64_max →
    Select b h now ts = (None, b', h') → candidates now skip_none h ts = [];
  select_heap b h now ts : heap_eqv now h (Select b h now ts).2
}.

(** What even the first choice of least connections meets. *)
Class SelectIn (B : Type) `{Balancer B} : Prop := {
  select_in b h now ts p b' h' : Select b h now ts = (Some p, b', h') → p ∈ ts;
  select_keeps b h now ts : heap_eqv now h (Select b h now ts).2
}.

Class FailoverOk (B : Type) `{Balancer B} : Prop := {
  excluding_some b h now ts ex p b' h' :
    SelectExcluding b h now ts ex = (Some p, b', h') →
    p ∈ candidates now (is_excluded h ex) h ts;
  excluding_none b h now ts ex b' h' :
    total_weight h (candidates now (is_excluded h ex) h ts) ≤ int64_max →
    SelectExcluding b h now ts ex = (None, b', h') →
    candidates now (is_excluded h ex) h ts = [];
  excluding_heap b h now ts ex : heap_eqv now h (SelectExcluding b h now ts ex).2
}.

(** ** Round robin *)

Record RoundRobin := mkRR { rr_counter : Z }.

Definition NewRoundRobin : RoundRobin := mkRR 0.

(** [idx := counter.Add(1) - 1; return healthy[idx % len(healthy)]] *)
Definition rr_pick (r : RoundRobin) (healthy : list ptr) : option ptr * RoundRobin :=
  match healthy with
  | [] => (None, r)
  | _ =>
      let c := wrap64 (rr_counter r + 1) in
      let idx := wrap64 (c - 1) in
      (healthy !! Z.to_nat (idx mod zlen healthy), mkRR c)
  end.

Definition RR_Select (r : RoundRobin) (h : heap) (now : Z) (targets : list ptr) :=
  let '(h', healthy) := filterInto now h targets in
  (rr_pick r healthy, h').

Definition RR_SelectExcluding (r : RoundRobin) (h : heap) (now : Z)
    (targets excluded : list ptr) :=
  let '(h', available) := filterIntoExcluding now h targets excluded in
  (rr_pick r available, h').

#[export] Instance RoundRobin_balancer : Balancer RoundRobin :=
  {| Select := RR_Select; SelectExcluding := RR_SelectExcluding |}.

(** ** Weighted round robin *)

Record WeightedRoundRobin := mkWRR { wrr_counter : Z }.

Definition NewWeightedRoundRobin : WeightedRoundRobin := mkWRR 0.

Fixpoint totalWeight_loop (h : heap) (l : list ptr) (total : Z) : Z :=
  match l with
  | [] => total
  | p :: l' =>
      let w := Weight (deref h p) in
      totalWeight_loop h l' (if w <=? 0 then swrap64 (total + 1) else swrap64 (total + w))
  end.

(** The scan for the target whose cumulated weight passes [pos]; [last] is
    [healthy[len(healthy)-1]], the fall-back after the loop. *)
Fixpoint weight_scan (h : heap) (l : list ptr) (pos currentWeight : Z) (last : option ptr)
  : option ptr :=
  match l with
  | [] => last
  | p :: l' =>
      let weight := if Weight (deref h p) <=? 0 then 1 else Weight (deref h p) in
      let currentWeight := swrap64 (currentWeight + weight) in
      if pos <? currentWeight then Some p else weight_scan h l' pos currentWeight last
  end.

Definition wrr_pick (w : WeightedRoundRobin) (h : heap) (healthy : list ptr)
  : option ptr * WeightedRoundRobin :=
  match healthy with
  | [] => (None, w)
  | _ =>
      let total := totalWeight_loop h healthy 0 in
      if total =? 0 then (None, w)
      else
        let c := wrap64 (wrr_counter w + 1) in
        let idx := wrap64 (c - 1) in
        let pos := swrap64 (idx mod wrap64 total) in
        (weight_scan h healthy pos 0 (last healthy), mkWRR c)
  end.

Definition WRR_Select (w : WeightedRoundRobin) (h : heap) (now : Z) (targets : list ptr) :=
  let '(h', healthy) := filterInto now h targets in
  (wrr_pick w h' healthy, h').

Definition WRR_SelectExcluding (w : WeightedRoundRobin) (h : heap) (now : Z)
    (targets excluded : list ptr) :=
  let '(h', available) := filterIntoExcluding now h targets excluded in
  (wrr_pick w h' available, h').

#[export] Instance WeightedRoundRobin_balancer : Balancer WeightedRoundRobin :=
  {| Select := WRR_Select; SelectExcluding := WRR_SelectExcluding |}.

(** ** Least connections *)

Record LeastConnections := NewLeastConnections {}.

(** The loop shared by the minimum searches: [selected] and its key. *)
Fixpoint min_loop (key : ptr → Z) (l : list ptr) (selected : option ptr) (minKey : Z)
  : option ptr :=
  match l with
  | [] => selected
  | p :: l' =>
      let k := key p in
      if negb (bool_decide (is_Some selected)) || (k <? minKey)
      then min_loop key l' (Some p) k
      else min_loop key l' selected minKey
  end.

(** [Select] looks at [Healthy] only ([continue] on the others). *)
Definition LC_Select (l : LeastConnections) (h : heap) (now : Z) (targets : list ptr) :=
  (min_loop (λ p, Connections (deref h p))
     (filter (λ p, Healthy (deref h p) = true) targets) None (-1), l, h).

(** The loop of [SelectExcluding], with its two minima. *)
Fixpoint lc_loop (now : Z) (set : gset gostring) (h : heap) (targets : list ptr)
    (selected : option ptr) (minConns : Z) (selectedBackup : option ptr) (minBackupConns : Z)
  : heap * (option ptr * option ptr) :=
  match targets with
  | [] => (h, (selected, selectedBackup))
  | p :: rest =>
      let '(ok, t) := IsAvailable now (deref h p) in
      let h' := store h p t in
      if negb ok || bool_decide (URL t ∈ set)
      then lc_loop now set h' rest selected minConns selectedBackup minBackupConns
      else
        let conns := Connections t in
        if IsBackup t then
          if negb (bool_decide (is_Some selectedBackup)) || (conns <? minBackupConns)
          then lc_loop now set h' rest selected minConns (Some p) conns
          else lc_loop now set h' rest selected minConns selectedBackup minBackupConns
        else
          if negb (bool_decide (is_Some selected)) || (conns <? minConns)
          then lc_loop now set h' rest (Some p) conns selectedBackup minBackupConns
          else lc_loop now set h' rest selected minConns selectedBackup minBackupConns
  end.

Definition LC_SelectExcluding (l : LeastConnections) (h : heap) (now : Z)
    (targets excluded : list ptr) :=
  let '(h', (selected, selectedBackup)) :=
    lc_loop now (exclude_set h excluded) h targets None (-1) None (-1) in
  (match selected with Some p => Some p | None => selectedBackup end, l, h').

#[export] Instance LeastConnections_balancer : Balancer LeastConnections :=
  {| Select := LC_Select; SelectExcluding := LC_SelectExcluding |}.

(** ** IP hash *)

Record IPHash := NewIPHash {}.

Definition iphash_pick (healthy : list ptr) (clientIP : gostring) : option ptr :=
  match healthy with
  | [] => None
  | _ => healthy !! Z.to_nat (FNV64a clientIP mod zlen healthy)
  end.

Definition SelectByIP (i : IPHash) (h : heap) (now : Z) (targets : list ptr)
    (clientIP : gostring) :=
  let '(h', healthy) := filterInto now h targets in
  (iphash_pick healthy clientIP, i, h').

Definition SelectExcludingByIP (i : IPHash) (h : heap) (now : Z) (targets excluded : list ptr)
    (clientIP : gostring) :=
  let '(h', available) := filterIntoExcluding now h targets excluded in
  (iphash_pick available clientIP, i, h').

#[export] Instance IPHash_balancer : Balancer IPHash :=
  {| Select := λ i h now ts, SelectByIP i h now ts [];
     SelectExcluding := λ i h now ts ex, SelectExcludingByIP i h now ts ex [] |}.

(** ** Least time *)

Record LeastTime := mkLT { lt_metric : gostring; lt_defaultTime : Z }.

Definition NewLeastTime (metric : gostring) (defaultTime : Z) : LeastTime :=
  mkLT (if decide (metric = go!"header") then metric else go!"last_byte")
    (if defaultTime <=? 0 then millisecond else defaultTime).

(** [currentTime] of the loop: the average of the metric, or the default. *)
Definition lt_time (l : LeastTime) (t : Target) : Z :=
  let current :=
    match Stats t with
    | Some s => if decide (lt_metric l = go!"header") then headerTime s else lastByteTime s
    | None => 0
    end in
  if current =? 0 then lt_defaultTime l else current.

Definition selectFrom (l : LeastTime) (h : heap) (available : list ptr) : option ptr :=
  match available with
  | [] => None
  | _ => min_loop (λ p, lt_time l (deref h p)) available None (-1)
  end.

Definition LT_Select (l : LeastTime) (h : heap) (now : Z) (targets : list ptr) :=
  let '(h', available) := filterInto now h targets in
  (selectFrom l h' available, l, h').

Definition LT_SelectExcluding (l : LeastTime) (h : heap) (now : Z) (targets excluded : list ptr) :=
  let '(h', available) := filterIntoExcluding now h targets excluded in
  (selectFrom l h' available, l, h').

Definition RecordResponseTime (h : heap) (target : ptr) (header lastByte : Z) : heap :=
  match Stats (deref h target) with
  | Some s => store h target (set_stats (deref h target) (Some (Record_ s header lastByte)))
  | None => h
  end.

#[export] Instance LeastTime_balancer : Balancer LeastTime :=
  {| Select := LT_Select; SelectExcluding := LT_SelectExcluding |}.

(** ** Power of two choices

    [rand.IntN(n)] yields the next number of a tape, reduced below [n]; the
    tape is the state of the global generator. *)

Record Random := mkRandom { tape : list nat }.

Definition IntN (n : nat) (r : Random) : nat * Random :=
  match tape r with
  | [] => (0%nat, r)
  | x :: xs => ((x mod n)%nat, mkRandom xs)
  end.

Definition random_pick (r : Random) (h : heap) (available : list ptr) : option ptr * Random :=
  match available with
  | [] => (None, r)
  | [p] => (Some p, r)
  | _ =>
      let '(i, r) := IntN (length available) r in
      let '(j, r) := IntN (length available - 1) r in
      let j := if (i <=? j)%nat then S j else j in
      match available !! i, available !! j with
      | Some a, Some b =>
          (Some (if Connections (deref h a) <=? Connections (deref h b) then a else b), r)
      | _, _ => (None, r)
      end
  end.

Definition Random_Select (r : Random) (h : heap) (now : Z) (targets : list ptr) :=
  let '(h', available) := filterInto now h targets in
  (random_pick r h' available, h').

Definition Random_SelectExcluding (r : Random) (h : heap) (now : Z) (targets excluded : list ptr) :=
  let '(h', available) := filterIntoExcluding now h targets excluded in
  (random_pick r h' available, h').

#[export] Instance Random_balancer : Balancer Random :=
  {| Select := Random_Select; SelectExcluding := Random_SelectExcluding |}.

(** [algorithms.go] *)
Definition validAlgorithms : list gostring :=
  [go!"round_robin"; go!"weighted_round_robin"; go!"least_conn"; go!"ip_hash";
   go!"consistent_hash"; go!"random"; go!"least_time"; go!"sticky"].

Definition IsValidAlgorithm (alg : gostring) : bool :=
  if decide (alg = []) then true else bool_decide (alg ∈ validAlgorithms).

(** ** Lemmas on the picks *)

Lemma lookup_mod {A} (l : list A) (i : Z) :
  l ≠ [] → 0 ≤ i → ∃ x, l !! Z.to_nat (i mod zlen l) = Some x ∧ x ∈ l.
Proof.
  intros Hl Hi. assert (0 < zlen l) by (destruct l; simpl; [done|lia]).
  pose proof (Z.mod_pos_bound i (zlen l)).
  destruct (lookup_lt_is_Some_2 l (Z.to_nat (i mod zlen l))) as [x Hx]; [lia|].
  exists x. split; [done|]. by eapply list_elem_of_lookup_2.
Qed.

Lemma rr_pick_spec r l :
  match (rr_pick r l).1 with Some p => p ∈ l | None => l = [] end.
Proof.
  unfold rr_pick. destruct l as [|p l]; [done|]. set (l' := p :: l).
  destruct (lookup_mod l' (wrap64 (wrap64 (rr_counter r + 1) - 1))) as (x & Hx & Hin);
    [done | apply wrap64_range |]. cbn [fst]. by rewrite Hx.
Qed.

Lemma iphash_pick_spec l ip :
  match iphash_pick l ip with Some p => p ∈ l | None => l = [] end.
Proof.
  unfold iphash_pick. destruct l as [|p l]; [done|]. set (l' := p :: l).
  destruct (lookup_mod l' (FNV64a ip)) as (x & -> & Hin); [done | apply FNV64a_range | done].
Qed.

Lemma min_loop_some key l s :
  ∃ p, min_loop key l (Some s) (key s) = Some p ∧ p ∈ s :: l ∧
       ∀ q, q ∈ s :: l → key p ≤ key q.
Proof.
  revert s. induction l as [|x l IH]; intros s; simpl.
  { exists s. split_and!; [done|by left|]. intros q ->%list_elem_of_singleton. lia. }
  destruct (Z.ltb_spec (key x) (key s)) as [Hlt|Hge].
  - destruct (IH x) as (p & -> & Hin & Hmin). exists p. split_and!; [done|by right|].
    intros q [->|Hq]%elem_of_cons; [|by apply Hmin].
    pose proof (Hmin x ltac:(by left)). lia.
  - destruct (IH s) as (p & -> & Hin & Hmin). exists p. split_and!; [done|set_solver|].
    intros q [->|[->|Hq]%elem_of_cons]%elem_of_cons.
    + apply Hmin. by left.
    + pose proof (Hmin s ltac:(by left)). lia.
    + apply Hmin. by right.
Qed.

(** [p] has the least key of the list [l]. *)
Definition argmin (key : ptr → Z) (l : list ptr) (p : ptr) : Prop :=
  p ∈ l ∧ ∀ q, q ∈ l → key p ≤ key q.

Lemma min_loop_spec key l m :
  match min_loop key l None m with
  | Some p => argmin key l p
  | None => l = []
  end.
Proof.
  destruct l as [|x l]; [done|]. simpl.
  destruct (min_loop_some key l x) as (p & -> & ?). done.
Qed.

Lemma selectFrom_spec l h av :
  match selectFrom l h av with
  | Some p => argmin (λ p, lt_time l (deref h p)) av p
  | None => av = []
  end.
Proof. unfold selectFrom. destruct av; [done|]. apply min_loop_spec. Qed.

Lemma random_pick_spec r h l :
  match (random_pick r h l).1 with Some p => p ∈ l | None => l = [] end.
Proof.
  unfold random_pick. destruct l as [|p [|q l]]; [done| |]; [by left|].
  set (l' := p :: q :: l). assert (2 ≤ length l')%nat as Hlen by (simpl; lia).
  assert (∀ n r, (0 < n)%nat → ((IntN n r).1 < n)%nat) as Hint.
  { intros n r' Hn. unfold IntN. destruct (tape r'); cbn [fst]; [done|]. apply Nat.mod_upper_bound. lia. }
  destruct (IntN (length l') r) as [i r1] eqn:Hi.
  destruct (IntN (length l' - 1) r1) as [j r2] eqn:Hj.
  pose proof (Hint (length l') r ltac:(lia)) as Hi'. rewrite Hi in Hi'.
  pose proof (Hint (length l' - 1)%nat r1 ltac:(lia)) as Hj'. rewrite Hj in Hj'. cbn [fst] in Hi', Hj'.
  destruct (lookup_lt_is_Some_2 l' i) as [a Ha]; [lia|].
  destruct (lookup_lt_is_Some_2 l' (if (i <=? j)%nat then S j else j)) as [b Hb];
    [destruct (i <=? j)%nat; lia|].
  rewrite Ha, Hb. cbn [fst]. destruct (_ <=? _); by eapply list_elem_of_lookup_2.
Qed.

(** ** Weights *)

(** The list in which every target occurs as often as its weight. *)
Definition expand (h : heap) (l : list ptr) : list ptr :=
  concat ((λ p, replicate (Z.to_nat (weight_of (deref h p))) p) <$> l).

Lemma weight_of_pos t : 1 ≤ weight_of t.
Proof. unfold weight_of. case_tests; lia. Qed.

Lemma total_weight_nonneg h l : 0 ≤ total_weight h l.
Proof. induction l as [|p l IH]; simpl; [lia|]. pose proof (weight_of_pos (deref h p)). lia. Qed.

Lemma total_weight_pos h l : l ≠ [] → 0 < total_weight h l.
Proof.
  destruct l as [|p l]; [done|]. intros _. simpl.
  pose proof (weight_of_pos (deref h p)). pose proof (total_weight_nonneg h l). lia.
Qed.

Lemma expand_cons h p l :
  expand h (p :: l) = replicate (Z.to_nat (weight_of (deref h p))) p ++ expand h l.
Proof. done. Qed.

Lemma length_expand h l : zlen (expand h l) = total_weight h l.
Proof.
  induction l as [|p l IH]; [done|]. rewrite expand_cons. simpl total_weight.
  rewrite length_app, length_replicate. pose proof (weight_of_pos (deref h p)). lia.
Qed.

Lemma totalWeight_loop_spec h l acc :
  0 ≤ acc → acc + total_weight h l ≤ int64_max →
  totalWeight_loop h l acc = acc + total_weight h l.
Proof.
  revert acc. induction l as [|p l IH]; intros acc Ha Hb; simpl in *; [lia|].
  pose proof (total_weight_nonneg h l). pose proof (weight_of_pos (deref h p)) as Hw.
  assert ((if Weight (deref h p) <=? 0 then swrap64 (acc + 1)
           else swrap64 (acc + Weight (deref h p))) = acc + weight_of (deref h p)) as ->.
  { unfold weight_of in *. destruct (Weight (deref h p) <=? 0); apply swrap64_id;
      unfold in_int64, int64_min; lia. }
  rewrite IH; lia.
Qed.

Lemma weight_scan_In h l pos cur d p :
  weight_scan h l pos cur d = Some p → p ∈ l ∨ d = Some p.
Proof.
  revert cur. induction l as [|x l IH]; intros cur; simpl; [by right|].
  case_match; [intros [= ->]; left; by left|]. intros [?|?]%IH; [left; by right|by right].
Qed.

Lemma weight_scan_None h l pos cur d : weight_scan h l pos cur d = None → d = None.
Proof.
  revert cur. induction l as [|x l IH]; intros cur; simpl; [done|].
  case_match; [done|apply IH].
Qed.

(** Scanning for a position is indexing the expanded list. *)
Lemma weight_scan_expand h l pos cur d :
  0 ≤ cur ≤ pos → pos < cur + total_weight h l → cur + total_weight h l ≤ int64_max →
  weight_scan h l pos cur d = expand h l !! Z.to_nat (pos - cur).
Proof.
  revert cur. induction l as [|p l IH]; intros cur Hc Hp Hb; simpl in *; [lia|].
  pose proof (total_weight_nonneg h l). pose proof (weight_of_pos (deref h p)) as Hw.
  fold (weight_of (deref h p)).
  rewrite swrap64_id by (unfold in_int64, int64_min; lia).
  rewrite expand_cons.
  destruct (Z.ltb_spec pos (cur + weight_of (deref h p))) as [Hlt|Hge].
  - rewrite lookup_app_l by (rewrite length_replicate; lia).
    symmetry. apply lookup_replicate_2. lia.
  - rewrite IH by lia. rewrite lookup_app_r by (rewrite length_replicate; lia).
    rewrite length_replicate. f_equal. lia.
Qed.

Lemma wrr_pick_spec w h l :
  match (wrr_pick w h l).1 with
  | Some p => p ∈ l
  | None => total_weight h l ≤ int64_max → l = []
  end.
Proof.
  unfold wrr_pick. destruct l as [|p l]; [done|]. set (l' := p :: l).
  destruct (totalWeight_loop h l' 0 =? 0) eqn:Ht; cbn [fst].
  - intros Hb. bool_to_prop. rewrite totalWeight_loop_spec in Ht by lia.
    pose proof (total_weight_pos h l' ltac:(done)). lia.
  - destruct (weight_scan _ _ _ _ _) as [q|] eqn:E.
    + apply weight_scan_In in E as [?|Hl]; [done|]. by apply last_Some_elem_of in Hl.
    + assert (is_Some (last l')) as [q Hq] by by apply last_is_Some.
      rewrite Hq in E. by apply weight_scan_None in E.
Qed.

(** ** The balancers meet the interface *)

Lemma total_weight_eqv now h h' l : heap_eqv now h h' → total_weight h l = total_weight h' l.
Proof.
  intros Hh. induction l as [|p l IH]; [done|]. simpl. rewrite IH.
  unfold weight_of. by rewrite (Weight_proper _ _ _ (Hh p)).
Qed.

(** A balancer that filters and then picks from the candidates. *)
Lemma pick_ok {B} (pick : B → heap → list ptr → option ptr * B) now h h' l b :
  (∀ b h l, match (pick b h l).1 with
            | Some p => p ∈ l
            | None => total_weight h l ≤ int64_max → l = []
            end) →
  heap_eqv now h h' →
  match (pick b h' l).1 with
  | Some p => p ∈ l
  | None => total_weight h l ≤ int64_max → l = []
  end.
Proof.
  intros Hpick Hh. specialize (Hpick b h' l). destruct (pick b h' l).1; [done|].
  by rewrite (total_weight_eqv _ _ _ _ Hh).
Qed.

Section FilterPick.
(** The shape all these balancers share. *)
Context {B : Type} (pick : B → heap → list ptr → option ptr * B).
Context (pick_spec : ∀ b h l, match (pick b h l).1 with
  | Some p => p ∈ l | None => total_weight h l ≤ int64_max → l = [] end).

Definition filter_pick_select b h now ts : option ptr * B * heap :=
  let '(h', l) := filterInto now h ts in (pick b h' l, h').
Definition filter_pick_excluding b h now ts ex : option ptr * B * heap :=
  let '(h', l) := filterIntoExcluding now h ts ex in (pick b h' l, h').

Definition filter_pick_balancer : Balancer B :=
  {| Select := filter_pick_select; SelectExcluding := filter_pick_excluding |}.

Lemma filter_pick_SelectOk : @SelectOk B filter_pick_balancer.
Proof.
  split; simpl; unfold filter_pick_select; intros b h now ts;
    pose proof (filterInto_spec now h ts) as [Hh Hl];
    change (λ _ : Target, false) with skip_none in Hl;
    destruct (filterInto now h ts) as [h2 l]; simpl in Hh, Hl; subst l;
    pose proof (pick_ok pick now h h2 (candidates now skip_none h ts) b pick_spec Hh) as Hp.
  - intros p b' h' [= Heq ->]. by rewrite Heq in Hp.
  - intros b' h' Hw [= Heq ->]. rewrite Heq in Hp. by apply Hp.
  - done.
Qed.

Lemma filter_pick_FailoverOk : @FailoverOk B filter_pick_balancer.
Proof.
  split; simpl; unfold filter_pick_excluding; intros b h now ts ex;
    pose proof (filterIntoExcluding_spec now h ts ex) as [Hh Hl];
    destruct (filterIntoExcluding now h ts ex) as [h2 l]; simpl in Hh, Hl; subst l;
    pose proof (pick_ok pick now h h2 (candidates now (is_excluded h ex) h ts) b pick_spec Hh)
      as Hp.
  - intros p b' h' [= Heq ->]. by rewrite Heq in Hp.
  - intros b' h' Hw [= Heq ->]. rewrite Heq in Hp. by apply Hp.
  - done.
Qed.
End FilterPick.

Lemma weaken_pick (o : option ptr) (l : list ptr) (P : Prop) :
  match o with Some p => p ∈ l | None => l = [] end →
  match o with Some p => p ∈ l | None => P → l = [] end.
Proof. by destruct o. Qed.

#[export] Instance RoundRobin_SelectOk : SelectOk RoundRobin.
Proof.
  apply (filter_pick_SelectOk (λ r _ l, rr_pick r l)).
  intros. apply weaken_pick, rr_pick_spec.
Qed.
#[export] Instance RoundRobin_FailoverOk : FailoverOk RoundRobin.
Proof.
  apply (filter_pick_FailoverOk (λ r _ l, rr_pick r l)).
  intros. apply weaken_pick, rr_pick_spec.
Qed.

#[export] Instance WeightedRoundRobin_SelectOk : SelectOk WeightedRoundRobin.
Proof. apply (filter_pick_SelectOk wrr_pick), wrr_pick_spec. Qed.
#[export] Instance WeightedRoundRobin_FailoverOk : FailoverOk WeightedRoundRobin.
Proof. apply (filter_pick_FailoverOk wrr_pick), wrr_pick_spec. Qed.

#[export] Instance IPHash_SelectOk : SelectOk IPHash.
Proof.
  apply (filter_pick_SelectOk (λ i _ l, (iphash_pick l [], i))).
  intros. apply weaken_pick, iphash_pick_spec.
Qed.
#[export] Instance IPHash_FailoverOk : FailoverOk IPHash.
Proof.
  apply (filter_pick_FailoverOk (λ i _ l, (iphash_pick l [], i))).
  intros. apply weaken_pick, iphash_pick_spec.
Qed.

Lemma selectFrom_In l h av :
  match selectFrom l h av with Some p => p ∈ av | None => av = [] end.
Proof.
  pose proof (selectFrom_spec l h av) as Hs.
  destruct (selectFrom l h av); [|done]. by destruct Hs.
Qed.

#[export] Instance LeastTime_SelectOk : SelectOk LeastTime.
Proof.
  apply (filter_pick_SelectOk (λ l h av, (selectFrom l h av, l))).
  intros. apply weaken_pick, selectFrom_In.
Qed.
#[export] Instance LeastTime_FailoverOk : FailoverOk LeastTime.
Proof.
  apply (filter_pick_FailoverOk (λ l h av, (selectFrom l h av, l))).
  intros. apply weaken_pick, selectFrom_In.
Qed.

#[export] Instance Random_SelectOk : SelectOk Random.
Proof.
  apply (filter_pick_SelectOk random_pick). intros. apply weaken_pick, random_pick_spec.
Qed.
#[export] Instance Random_FailoverOk : FailoverOk Random.
Proof.
  apply (filter_pick_FailoverOk random_pick). intros. apply weaken_pick, random_pick_spec.
Qed.

(** ** The loop of least connections *)

Lemma min_loop_ext key key' l s m :
  (∀ p, p ∈ l → key p = key' p) → min_loop key l s m = min_loop key' l s m.
Proof.
  revert s m. induction l as [|x l IH]; intros s m Hk; [done|]. simpl.
  rewrite (Hk x) by by left. case_match; apply IH; intros; apply Hk; by right.
Qed.

Definition conns (h : heap) (p : ptr) : Z := Connections (deref h p).

Lemma lc_loop_spec now set h ts s m sb mb :
  let skip t := bool_decide (URL t ∈ set) in
  let '(h', (s', sb')) := lc_loop now set h ts s m sb mb in
  heap_eqv now h h' ∧
  s' = min_loop (conns h)
         (filter (λ p, usable now skip h p = true ∧ Backup (deref h p) = false) ts) s m ∧
  sb' = min_loop (conns h)
         (filter (λ p, usable now skip h p = true ∧ Backup (deref h p) = true) ts) sb mb.
Proof.
  intros skip. revert h s m sb mb. induction ts as [|p ts IH]; intros h s m sb mb; [done|].
  cbn [lc_loop]. pose proof (IsAvailable_eqv now (deref h p)) as Hq.
  destruct (IsAvailable now (deref h p)) as [ok t] eqn:Hok. simpl in Hq.
  assert (ok = available_now now (deref h p)) as Hav by (unfold available_now; by rewrite Hok).
  set (h1 := store h p t). assert (heap_eqv now h h1) as Hst by by apply store_eqv.
  unfold IsBackup. rewrite <- (URL_proper _ _ _ Hq), <- (Backup_proper _ _ _ Hq),
    <- (Connections_proper _ _ _ Hq).
  fold (skip (deref h p)). fold (conns h p). rewrite !filter_cons.
  assert (usable now skip h p = ok && negb (skip (deref h p))) as Hu by (unfold usable; congruence).
  assert (∀ b, filter (λ q, usable now skip h1 q = true ∧ Backup (deref h1 q) = b) ts
             = filter (λ q, usable now skip h q = true ∧ Backup (deref h q) = b) ts) as Hf.
  { intros b. apply list_filter_iff. intros q. unfold usable, skip.
    by rewrite (URL_proper _ _ _ (Hst q)), (available_proper _ _ _ (Hst q)),
      (Backup_proper _ _ _ (Hst q)). }
  assert (∀ l s m, min_loop (conns h1) l s m = min_loop (conns h) l s m) as Hk.
  { intros. apply min_loop_ext. intros q _. unfold conns.
    by rewrite (Connections_proper _ _ _ (Hst q)). }
  assert (∀ s m sb mb,
    let '(h', (s', sb')) := lc_loop now set h1 ts s m sb mb in
    heap_eqv now h h' ∧
    s' = min_loop (conns h)
      (filter (λ p, usable now skip h p = true ∧ Backup (deref h p) = false) ts) s m ∧
    sb' = min_loop (conns h)
      (filter (λ p, usable now skip h p = true ∧ Backup (deref h p) = true) ts) sb mb) as IH'.
  { intros s0 m0 sb0 mb0. specialize (IH h1 s0 m0 sb0 mb0).
    destruct (lc_loop _ _ _ _ _ _ _ _) as [h2 [s2 sb2]].
    rewrite !Hf, !Hk in IH. destruct IH as (? & ? & ?). split; [by transitivity h1|done]. }
  clearbody h1. clear IH Hf Hk Hst.
  destruct (negb ok || skip (deref h p)) eqn:Hskip.
  - assert (usable now skip h p = false) as Huf by (destruct ok, (skip (deref h p)); done).
    rewrite !decide_False by (rewrite Huf; by intros [? _]). apply IH'.
  - assert (usable now skip h p = true) as Hut by (destruct ok, (skip (deref h p)); done).
    destruct (Backup (deref h p)) eqn:Hb; repeat case_decide;
      try (exfalso; intuition congruence); cbn [min_loop];
      match goal with |- context [if ?b then lc_loop _ _ _ _ _ _ _ _ else _] => destruct b end;
      apply IH'.
Qed.

Lemma lc_spec now h ts ex :
  let '(h', (s, sb)) := lc_loop now (exclude_set h ex) h ts None (-1) None (-1) in
  heap_eqv now h h' ∧
  match (match s with Some p => Some p | None => sb end) with
  | Some p => argmin (conns h) (candidates now (is_excluded h ex) h ts) p
  | None => candidates now (is_excluded h ex) h ts = []
  end.
Proof.
  pose proof (lc_loop_spec now (exclude_set h ex) h ts None (-1) None (-1)) as Hs. simpl in Hs.
  destruct (lc_loop _ _ _ _ _ _ _ _) as [h' [s sb]]. destruct Hs as (Hh & Hs & Hsb).
  split; [done|]. unfold candidates. fold (is_excluded h ex) in Hs, Hsb.
  set (av := filter (λ p, _ ∧ _ = false) ts) in *. set (bk := filter (λ p, _ ∧ _ = true) ts) in *.
  pose proof (min_loop_spec (conns h) av (-1)) as Ha. rewrite <- Hs in Ha.
  pose proof (min_loop_spec (conns h) bk (-1)) as Hb. rewrite <- Hsb in Hb.
  clearbody av bk. clear Hs Hsb.
  destruct s as [p|]; [destruct av; [by destruct Ha as [?%elem_of_nil _]|done]|].
  by rewrite Ha.
Qed.

#[export] Instance LeastConnections_FailoverOk : FailoverOk LeastConnections.
Proof.
  split; simpl; unfold LC_SelectExcluding; intros b h now ts ex;
    pose proof (lc_spec now h ts ex) as Hs; destruct (lc_loop _ _ _ _ _ _ _ _) as [h2 [s sb]];
    destruct Hs as [Hh Hp]; [..|done].
  - intros p b' h' [= Heq _]. rewrite Heq in Hp. by destruct Hp.
  - intros b' h' _ [= Heq _]. by rewrite Heq in Hp.
Qed.

#[export] Instance SelectOk_SelectIn {B} `{SelectOk B} : SelectIn B.
Proof.
  split; [|apply select_heap]. intros b h now ts p b' h' Hs.
  by apply select_some, elem_of_candidates in Hs as [? _].
Qed.

#[export] Instance LeastConnections_SelectIn : SelectIn LeastConnections.
Proof.
  split; [|intros; reflexivity]. intros b h now ts p b' h' [= Heq _].
  pose proof (min_loop_spec (λ q, Connections (deref h q))
    (filter (λ q, Healthy (deref h q) = true) ts) (-1)) as Hs.
  rewrite Heq in Hs. destruct Hs as [[_ ?]%list_elem_of_filter _]. done.
Qed.

(** ** Runs of selections at one instant *)


Lemma candidates_eqv now skip h h' ts :
  (∀ t t', target_eqv now t t' → skip t = skip t') → heap_eqv now h h' →
  candidates now skip h ts = candidates now skip h' ts.
Proof.
  intros Hskip Hh. unfold candidates.
  assert (∀ b, filter (λ p, usable now skip h p = true ∧ Backup (deref h p) = b) ts
             = filter (λ p, usable now skip h' p = true ∧ Backup (deref h' p) = b) ts) as Hf.
  { intros b. apply list_filter_iff. intros p. unfold usable.
    by rewrite (Hskip _ _ (Hh p)), (available_proper _ _ _ (Hh p)), (Backup_proper _ _ _ (Hh p)). }
  by rewrite !Hf.
Qed.

(** The results of [n] selections in a row. *)
Fixpoint selects {B} `{Balancer B} (n : nat) (b : B) (h : heap) (now : Z) (ts : list ptr)
  : list (option ptr) :=
  match n with
  | O => []
  | S n' =>
      let '(p, b', h') := Select b h now ts in
      p :: selects n' b' h' now ts
  end.

Lemma rotation_perm {A} (l : list A) (c : Z) :
  0 ≤ c → (λ i, l !! Z.to_nat ((c + i) mod zlen l)) <$> seqZ 0 (zlen l) ≡ₚ Some <$> l.
Proof.
  intros Hc. set (n := zlen l).
  assert (Some <$> l = (λ i, l !! Z.to_nat i) <$> seqZ 0 n) as ->.
  { apply list_eq. intros i. rewrite !list_lookup_fmap.
    destruct (decide (i < length l)%nat).
    - rewrite lookup_seqZ_lt by lia. simpl.
      destruct (lookup_lt_is_Some_2 l i) as [x Hx]; [done|].
      rewrite Hx. simpl. f_equal. rewrite <- Hx. f_equal. lia.
    - rewrite lookup_ge_None_2 by lia. by rewrite lookup_seqZ_ge by lia. }
  assert ((λ i, l !! Z.to_nat ((c + i) mod n)) <$> seqZ 0 n
    = (λ i, l !! Z.to_nat i) <$> ((λ i, (c + i) mod n) <$> seqZ 0 n)) as ->
    by by rewrite <- list_fmap_compose.
  apply Permutation_map. symmetry.
  apply submseteq_length_Permutation; [|by rewrite length_fmap].
  apply NoDup_submseteq; [apply NoDup_seqZ|]. intros i Hi%elem_of_seqZ.
  apply list_elem_of_fmap. exists ((i - c) mod n). split.
  - rewrite Zplus_mod_idemp_r. replace (c + (i - c)) with i by lia. rewrite Z.mod_small; lia.
  - apply elem_of_seqZ. pose proof (Z.mod_pos_bound (i - c) n). lia.
Qed.

Lemma counter_next c : 0 ≤ c < 2 ^ 64 → wrap64 (wrap64 (c + 1) - 1) = c.
Proof. intros H. unfold wrap64. rewrite Zminus_mod_idemp_l. replace (c + 1 - 1) with c by lia.
  by apply Z.mod_small. Qed.

(** A balancer whose [k]-th pick is the element of the list [t] at the value of
    its counter runs through [t] in circles; [I] is kept by its selections. *)
Lemma selects_counter {B} `{Balancer B} (counter : B → Z) (I : heap → Prop) (t : list ptr) now ts :
  (∀ b h, I h → 0 ≤ counter b < 2 ^ 64 →
     ∃ b' h', Select b h now ts = (t !! Z.to_nat (counter b mod zlen t), b', h') ∧
       counter b' = wrap64 (counter b + 1) ∧ I h') →
  ∀ n b h, I h → 0 ≤ counter b → counter b + Z.of_nat n ≤ 2 ^ 64 →
    selects n b h now ts =
      (λ i, t !! Z.to_nat ((counter b + i) mod zlen t)) <$> seqZ 0 (Z.of_nat n).
Proof.
  intros Hstep n. induction n as [|n IH]; intros b h HI Hc Hn; [done|].
  cbn [selects]. destruct (Hstep b h HI) as (b' & h' & -> & Hc' & HI'); [lia|].
  rewrite seqZ_cons by lia. cbn [fmap list_fmap]. rewrite Z.add_0_r. f_equal.
  replace (Z.pred (Z.of_nat (S n))) with (Z.of_nat n) by lia.
  destruct (decide (n = 0)%nat) as [->|Hn0]; [done|].
  rewrite wrap64_id in Hc' by (unfold in_uint64; lia).
  rewrite IH by (done || lia).
  rewrite <- (fmap_add_seqZ 1 0). rewrite <- list_fmap_compose.
  apply list_fmap_ext. intros i x _. simpl. rewrite Hc'. do 2 f_equal. f_equal. lia.
Qed.

Lemma Select_candidates {B} `{SelectOk B} b h now ts :
  candidates now skip_none (Select b h now ts).2 ts = candidates now skip_none h ts.
Proof. symmetry. apply candidates_eqv; [done|]. apply select_heap. Qed.

Lemma expand_eqv now h h' l : heap_eqv now h h' → expand h l = expand h' l.
Proof.
  intros Hh. unfold expand. f_equal. apply list_fmap_ext. intros _ p _.
  unfold weight_of. by rewrite (Weight_proper _ _ _ (Hh p)).
Qed.

(** A pick of weighted round robin indexes the expanded list. *)
Lemma wrr_pick_counter w h l :
  l ≠ [] → total_weight h l ≤ int64_max → 0 ≤ wrr_counter w < 2 ^ 64 →
  wrr_pick w h l = (expand h l !! Z.to_nat (wrr_counter w mod zlen (expand h l)),
                    mkWRR (wrap64 (wrr_counter w + 1))).
Proof.
  intros Hl Hmax Hc. pose proof (total_weight_pos h l Hl) as H0. unfold wrr_pick.
  rewrite totalWeight_loop_spec, Z.add_0_l, counter_next, length_expand by lia.
  pose proof (Z.mod_pos_bound (wrr_counter w) (total_weight h l) H0) as Hm.
  unfold int64_max in Hmax. rewrite (wrap64_id (total_weight h l)) by (unfold in_uint64; lia).
  rewrite (proj2 (Z.eqb_neq _ _)) by lia.
  rewrite swrap64_id by (unfold in_int64, int64_max, int64_min; lia).
  rewrite weight_scan_expand, Z.sub_0_r by (unfold int64_max; lia). by destruct l.
Qed.

(** The random pick is the less loaded of two distinct positions. *)
Lemma random_pick_two r h l p :
  (random_pick r h l).1 = Some p →
  l = [p] ∨ ∃ i j q, i ≠ j ∧ l !! i = Some p ∧ l !! j = Some q ∧ conns h p ≤ conns h q.
Proof.
  unfold random_pick. destruct l as [|a [|b l]]; [done|intros [= ->]; by left|].
  set (l' := a :: b :: l). destruct (IntN (length l') r) as [i r1].
  destruct (IntN (length l' - 1) r1) as [j r2].
  set (k := if (i <=? j)%nat then S j else j).
  assert (i ≠ k) by (subst k; destruct (Nat.leb_spec i j); lia).
  destruct (l' !! i) as [x|] eqn:Hi, (l' !! k) as [y|] eqn:Hk; [|done..].
  cbn [fst]. intros [= Hp]. right.
  destruct (Z.leb_spec (Connections (deref h x)) (Connections (deref h y))); subst p.
  - by exists i, k, y.
  - exists k, i, x. unfold conns. split_and!; [done..|lia].
Qed.

(** ** Properties *)

(** Round robin is fair.  When [n] targets are candidates, [n] selections
    in a row return each of them exactly once, wherever the shared counter
    stands (short of its wrap at [2 ^ 64]). *)
Theorem rr_fair (r : RoundRobin) (h : heap) (now : Z) (ts : list ptr) :
  let l := candidates now skip_none h ts in
  0 ≤ rr_counter r → rr_counter r + zlen l ≤ 2 ^ 64 →
  selects (length l) r h now ts ≡ₚ Some <$> l.
Proof.
  intros l Hc Hn.
  destruct l as [|p l'] eqn:El; [done|].
  rewrite (selects_counter rr_counter (λ h, candidates now skip_none h ts = l) l); subst l;
    rewrite ?El; [by apply rotation_perm| |done..].
  intros b h0 Hh0 Hb. unfold Select; simpl; unfold RR_Select.
  pose proof (filterInto_spec now h0 ts) as [Hh Hl].
  destruct (filterInto now h0 ts) as [h1 c]. cbn [fst snd] in *. subst c.
  change (λ _ : Target, false) with skip_none. rewrite Hh0.
  eexists _, _. split; [unfold rr_pick; by rewrite counter_next by lia|]. split; [done|].
  rewrite <- Hh0. symmetry. by apply candidates_eqv.
Qed.

Definition ex_heap : heap :=
  list_to_map
    [(0%nat, set_connections (NewTargetFromConfig (go!"a") (go!"http://a") 3 0 1 0 false false []) 9);
     (1%nat, set_connections (NewTargetFromConfig (go!"b") (go!"http://b") 1 0 1 0 false false []) 5);
     (2%nat, NewTargetFromConfig (go!"c") (go!"http://c") 1 0 1 0 true false []);
     (3%nat, NewTargetFromConfig (go!"d") (go!"http://d") 1 0 1 0 false true [])].

Definition ex_targets : list ptr := [0; 1; 2; 3]%nat.

Lemma rr_fair_witness :
  selects 2 (mkRR 5) ex_heap 0 ex_targets ≡ₚ [Some 0%nat; Some 1%nat].
Proof. apply (rr_fair (mkRR 5) ex_heap 0 ex_targets); vm_compute; discriminate. Defined.

(** Weighted round robin is exact.  In as many selections as the weights
    sum to, every candidate is returned exactly as often as its weight (1 for
    a weight that is not positive). *)
Theorem wrr_proportional (w : WeightedRoundRobin) (h : heap) (now : Z) (ts : list ptr) :
  let l := candidates now skip_none h ts in
  total_weight h l ≤ int64_max →
  0 ≤ wrr_counter w → wrr_counter w + total_weight h l ≤ 2 ^ 64 →
  selects (Z.to_nat (total_weight h l)) w h now ts ≡ₚ Some <$> expand h l.
Proof.
  intros l Hmax Hc Hn. set (t := expand h l).
  assert (zlen t = total_weight h l) as Ht by apply length_expand.
  destruct (decide (l = [])) as [El|El].
  { subst t. rewrite El in *. done. }
  pose proof (total_weight_pos h l El) as H0.
  rewrite (selects_counter wrr_counter (heap_eqv now h) t);
    [rewrite Z2Nat.id, <- Ht by lia; by apply rotation_perm | | done | done | lia].
  intros b h0 Hh0 Hb. unfold Select; simpl; unfold WRR_Select.
  pose proof (filterInto_spec now h0 ts) as [Hh Hl].
  destruct (filterInto now h0 ts) as [h1 c]. cbn [fst snd] in *. subst c.
  change (λ _ : Target, false) with skip_none.
  rewrite <- (candidates_eqv now skip_none h h0) by done. fold l.
  assert (heap_eqv now h h1) as Hh1 by by transitivity h0.
  rewrite (wrr_pick_counter b h1 l El), <- (expand_eqv now h h1) by
    (done || (rewrite <- (total_weight_eqv now h h1) by done; lia)).
  by eexists _, _.
Qed.

Lemma wrr_proportional_witness :
  selects 4 (mkWRR 2) ex_heap 0 ex_targets
    ≡ₚ [Some 0%nat; Some 0%nat; Some 0%nat; Some 1%nat].
Proof. apply (wrr_proportional (mkWRR 2) ex_heap 0 ex_targets); vm_compute; discriminate. Defined.

(** The failover choice of least connections has the fewest connections
    among the candidates, primary targets before backups. *)
Theorem least_conn_minimal (b b' : LeastConnections) (h h' : heap) (now : Z) (ts ex : list ptr) (p : ptr) :
  SelectExcluding b h now ts ex = (Some p, b', h') →
  argmin (conns h) (candidates now (is_excluded h ex) h ts) p.
Proof.
  unfold SelectExcluding; simpl; unfold LC_SelectExcluding.
  pose proof (lc_spec now h ts ex) as Hs. destruct (lc_loop _ _ _ _ _ _ _ _) as [h2 [s sb]].
  destruct Hs as [_ Hs]. intros [= Heq _]. by rewrite Heq in Hs.
Qed.

Lemma least_conn_minimal_witness : argmin (conns ex_heap) [0; 1]%nat 1%nat.
Proof.
  apply (least_conn_minimal NewLeastConnections NewLeastConnections ex_heap ex_heap 0
    ex_targets [] 1%nat). reflexivity.
Defined.

(** The first choice of least connections does not honour the candidates:
    with the same targets, [Select] returns the target marked as a backup and
    at its connection limit where the failover choice returns the free primary. *)
Theorem least_conn_first_choice_ignores_limits :
  ∃ (h : heap) (ts : list ptr) (p q : ptr),
    (Select NewLeastConnections h 0 ts).1.1 = Some p ∧
    (SelectExcluding NewLeastConnections h 0 ts []).1.1 = Some q ∧
    available_now 0 (deref h p) = false ∧ Backup (deref h p) = true ∧
    available_now 0 (deref h q) = true ∧ Backup (deref h q) = false.
Proof.
  exists (list_to_map
    [(0%nat, set_connections (NewTargetFromConfig (go!"a") (go!"http://a") 1 1 0 0 true false []) 1);
     (1%nat, set_connections (NewTargetFromConfig (go!"b") (go!"http://b") 1 0 0 0 false false []) 2)]),
    [0; 1]%nat, 0%nat, 1%nat.
  by vm_compute.
Qed.

(** Least time returns a candidate whose moving average (or the default
    where it has none) is the least. *)
Theorem least_time_minimal (l l' : LeastTime) (h h' : heap) (now : Z) (ts : list ptr) (p : ptr) :
  Select l h now ts = (Some p, l', h') →
  argmin (λ q, lt_time l (deref h q)) (candidates now skip_none h ts) p.
Proof.
  unfold Select; simpl; unfold LT_Select.
  pose proof (filterInto_spec now h ts) as [Hh Hl].
  destruct (filterInto now h ts) as [h1 c]. cbn [fst snd] in *. subst c.
  change (λ _ : Target, false) with skip_none.
  intros [= Heq _]. pose proof (selectFrom_spec l h1 (candidates now skip_none h ts)) as Hs.
  rewrite Heq in Hs. destruct Hs as [Hin Hmin]. split; [done|]. intros q Hq.
  specialize (Hmin q Hq). unfold lt_time in *.
  by rewrite (Stats_proper _ _ _ (Hh p)), (Stats_proper _ _ _ (Hh q)).
Qed.

Lemma least_time_minimal_witness :
  let h := RecordResponseTime ex_heap 0%nat 1000 2000 in
  argmin (λ q, lt_time (NewLeastTime (go!"header") 5000) (deref h q)) [0; 1]%nat 0%nat.
Proof.
  intros h. apply (least_time_minimal (NewLeastTime (go!"header") 5000)
    (NewLeastTime (go!"header") 5000) h h 0 ex_targets 0%nat). reflexivity.
Defined.

(** The random choice is the better of two distinct candidates, whatever
    numbers the generator yields, so it never returns the only most loaded one. *)
Theorem random_better_of_two (r : Random) (h : heap) (now : Z) (ts : list ptr) (p : ptr) :
  (Select r h now ts).1.1 = Some p →
  let l := candidates now skip_none h ts in
  l = [p] ∨ ∃ i j q, i ≠ j ∧ l !! i = Some p ∧ l !! j = Some q ∧ conns h p ≤ conns h q.
Proof.
  unfold Select; simpl; unfold Random_Select.
  pose proof (filterInto_spec now h ts) as [Hh Hl].
  destruct (filterInto now h ts) as [h1 c]. cbn [fst snd] in *. subst c.
  change (λ _ : Target, false) with skip_none.
  set (l := candidates now skip_none h ts). intros Hp.
  destruct (random_pick_two r h1 l p Hp) as [?|(i & j & q & ? & ? & ? & Hle)]; [by left|right].
  exists i, j, q. split_and!; [done..|]. unfold conns in *.
  by rewrite (Connections_proper _ _ _ (Hh p)), (Connections_proper _ _ _ (Hh q)).
Qed.

Lemma random_better_of_two_witness :
  let l := candidates 0 skip_none ex_heap ex_targets in
  l = [1%nat] ∨ ∃ i j q, i ≠ j ∧ l !! i = Some 1%nat ∧ l !! j = Some q ∧
    conns ex_heap 1%nat ≤ conns ex_heap q.
Proof. apply (random_better_of_two (mkRandom [0; 0]%nat) ex_heap 0 ex_targets). reflexivity. Defined.
