(* ===== verification/ConsistentHash.v ===== *)
(** * ConsistentHash: the hash ring of [src/internal/loadbalance/consistent_hash.go]

    The ring is the sorted list of the virtual nodes' hashes with a map from a
    hash to its target.  The file shows that [SelectByKey] finds the clockwise
    successor of the key (through Go's binary search), that removing a target
    moves only that target's keys, how failover walks the ring, and that the
    ring is never rebuilt once it exists. *)

From stdpp Require Import sorting.
From S2P Require Import Prelude GoStrings Hash Target Balancer.

(** ** Binary search

    [sort.Search(n, f)]: the loop [for i < j { h := (i+j)/2; if !f(h) { i = h+1 }
    else { j = h } }], with fuel for its iterations. *)
Fixpoint search_loop (fuel : nat) (f : nat → bool) (i j : nat) : nat :=
  match fuel with
  | O => i
  | S fuel' =>
      if (i <? j)%nat then
        let h := ((i + j) / 2)%nat in
        if negb (f h) then search_loop fuel' f (S h) j else search_loop fuel' f i h
      else i
  end.

(** The interval shrinks in every iteration, so [n] of them are enough. *)
Definition Search (n : nat) (f : nat → bool) : nat := search_loop n f 0 n.

(** ** The ring *)

Record ConsistentHash := mkCH {
  circle : gmap Z ptr;
  hashKey : gostring;
  sortedHashes : list Z;
  virtualNodes : Z;
  rebuilt : bool
}.

Definition NewConsistentHash (vn : Z) (key : gostring) : ConsistentHash :=
  mkCH ∅ key [] (if vn <=? 0 then 150 else vn) false.

Definition hashKeyString (key : gostring) : Z := FNV64a key.

(** [fmt.Sprintf("%s#%d", target.URL, i)] for the virtual nodes of a target. *)
Definition virtual_hashes (url : gostring) (n : Z) : list Z :=
  (λ i, hashKeyString (url ++ go!"#" ++ FormatInt i)) <$> seqZ 0 n.

(** The loop over the targets, with the ring built so far. *)
Fixpoint rebuild_loop (vn : Z) (h : heap) (targets : list ptr) (circ : gmap Z ptr) (hashes : list Z)
  : heap * (gmap Z ptr * list Z) :=
  match targets with
  | [] => (h, (circ, hashes))
  | p :: rest =>
      if negb (Healthy (deref h p)) then rebuild_loop vn h rest circ hashes
      else
        let h :=
          match VirtualHashes (deref h p) with
          | [] => store h p (set_hashes (deref h p) (virtual_hashes (URL (deref h p)) vn))
          | _ => h
          end in
        let vh := VirtualHashes (deref h p) in
        rebuild_loop vn h rest (foldl (λ m x, <[x := p]> m) circ vh) (hashes ++ vh)
  end.

Definition rebuildCircle (c : ConsistentHash) (h : heap) (targets : list ptr)
  : ConsistentHash * heap :=
  let '(h', (circ, hashes)) := rebuild_loop (virtualNodes c) h targets ∅ [] in
  (mkCH circ (hashKey c) (merge_sort Z.le hashes) (virtualNodes c) true, h').

(** [rebuilt.Store(false)] is overwritten at the end of [rebuildCircle]. *)
Definition Rebuild (c : ConsistentHash) (h : heap) (targets : list ptr) : ConsistentHash * heap :=
  rebuildCircle (mkCH (circle c) (hashKey c) (sortedHashes c) (virtualNodes c) false) h targets.

Definition ensureRebuilt (c : ConsistentHash) (h : heap) (targets : list ptr)
  : ConsistentHash * heap :=
  if rebuilt c then (c, h) else rebuildCircle c h targets.

(** The index of the first hash not below [x], through the binary search. *)
Definition search_hash (l : list Z) (x : Z) : nat :=
  Search (length l) (λ i, x <=? nth i l 0).

Definition SelectByKey (c : ConsistentHash) (h : heap) (targets : list ptr) (key : gostring)
  : option ptr * ConsistentHash * heap :=
  let '(c, h) := ensureRebuilt c h targets in
  match sortedHashes c with
  | [] => (None, c, h)
  | l =>
      let idx := search_hash l (FNV64a key) in
      let idx := if (length l <=? idx)%nat then 0%nat else idx in
      (circle c !! nth idx l 0, c, h)
  end.

(** [targetSet]: the URLs of the healthy targets, then the excluded ones off. *)
Definition set_on (h : heap) (m : gmap gostring bool) (p : ptr) : gmap gostring bool :=
  if Healthy (deref h p) then <[URL (deref h p) := true]> m else m.
Definition set_off (h : heap) (m : gmap gostring bool) (p : ptr) : gmap gostring bool :=
  <[URL (deref h p) := false]> m.
Definition target_set (h : heap) (targets excluded : list ptr) : gmap gostring bool :=
  foldl (set_off h) (foldl (set_on h) ∅ targets) excluded.

(** The walk [for i := 0; i < n; i++] around the ring; [left] iterations remain. *)
Fixpoint walk (left : nat) (i idx : nat) (c : ConsistentHash) (h : heap) (set : gmap gostring bool)
  : option ptr :=
  match left with
  | O => None
  | S left' =>
      let l := sortedHashes c in
      match circle c !! nth ((idx + i) mod length l)%nat l 0 with
      | Some p =>
          if default false (set !! URL (deref h p)) then Some p
          else walk left' (S i) idx c h set
      | None => walk left' (S i) idx c h set
      end
  end.

Definition SelectExcludingByKey (c : ConsistentHash) (h : heap) (targets excluded : list ptr)
    (key : gostring) : option ptr * ConsistentHash * heap :=
  let '(c, h) := ensureRebuilt c h targets in
  let set := target_set h targets excluded in
  match sortedHashes c with
  | [] => (None, c, h)
  | l =>
      let idx := search_hash l (hashKeyString key) in
      (walk (length l) 0 idx c h set, c, h)
  end.

#[export] Instance ConsistentHash_balancer : Balancer ConsistentHash :=
  {| Select := λ c h _ ts, SelectByKey c h ts [];
     SelectExcluding := λ c h _ ts ex, SelectExcludingByKey c h ts ex [] |}.

Definition PrecomputeHashes (h : heap) (targets : list ptr) (vn : Z) : heap :=
  let vn := if vn <=? 0 then 150 else vn in
  foldl (λ h p,
    let t := deref h p in
    if decide (zlen (VirtualHashes t) = vn) then h
    else store h p (set_hashes t (virtual_hashes (URL t) vn))) h targets.

Record ConsistentHashStats := mkCHStats { st_VirtualNodes : Z; st_CircleSize : Z; st_SortedHashes : Z }.

Definition GetStats (c : ConsistentHash) : ConsistentHashStats :=
  mkCHStats (virtualNodes c) (Z.of_nat (size (circle c))) (zlen (sortedHashes c)).

(** ** The binary search finds the boundary *)

Definition monotone (f : nat → bool) (n : nat) : Prop :=
  ∀ a b, (a ≤ b < n)%nat → f a = true → f b = true.

Lemma search_loop_spec fuel f i j n :
  monotone f n → (i ≤ j ≤ n)%nat → (j - i ≤ fuel)%nat →
  (∀ k, (k < i)%nat → f k = false) → (∀ k, (j ≤ k < n)%nat → f k = true) →
  let r := search_loop fuel f i j in
  (i ≤ r ≤ j)%nat ∧ (∀ k, (k < r)%nat → f k = false) ∧ (∀ k, (r ≤ k < n)%nat → f k = true).
Proof.
  intros Hm. revert i j. induction fuel as [|fuel IH]; intros i j Hij Hf Hlo Hhi;
    cbn [search_loop]; cbv zeta.
  { assert (i = j) as -> by lia. done. }
  destruct (Nat.ltb_spec i j) as [Hlt|Hge].
  2: { assert (i = j) as -> by lia. done. }
  set (h := ((i + j) / 2)%nat).
  assert (i ≤ h < j)%nat as Hh.
  { subst h. split; [apply Nat.div_le_lower_bound; lia|apply Nat.Div0.div_lt_upper_bound; lia]. }
  clearbody h.
  destruct (f h) eqn:E; cbn [negb].
  - destruct (IH i h) as (? & ? & ?); [lia|lia|done| |split_and!; [lia|lia|done|done]].
    intros k Hk. by apply (Hm h k).
  - destruct (IH (S h) j) as (? & ? & ?); [lia|lia| |done|split_and!; [lia|lia|done|done]].
    intros k Hk. destruct (f k) eqn:Ek; [|done].
    rewrite (Hm k h) in E by (done || lia). done.
Qed.

Lemma Search_spec n f :
  monotone f n →
  (Search n f ≤ n)%nat ∧ (∀ k, (k < Search n f)%nat → f k = false) ∧
  (∀ k, (Search n f ≤ k < n)%nat → f k = true).
Proof.
  intros Hm. destruct (search_loop_spec n f 0 n n Hm) as (? & ? & ?); [lia..|].
  by split_and!; [unfold Search; lia|..].
Qed.

(** ** The points of the ring *)

(** The virtual hashes of a target once the ring is built. *)
Definition hashes_of (vn : Z) (t : Target) : list Z :=
  match VirtualHashes t with [] => virtual_hashes (URL t) vn | l => l end.

(** The points of the healthy targets, in the order in which they are placed. *)
Definition points (vn : Z) (h : heap) (targets : list ptr) : list (Z * ptr) :=
  concat ((λ p, (λ x, (x, p)) <$> hashes_of vn (deref h p)) <$>
          filter (λ p, Healthy (deref h p) = true) targets).

(** A hash belongs to the last target that placed a point on it. *)
Definition place (m : gmap Z ptr) (l : list (Z * ptr)) : gmap Z ptr :=
  foldl (λ m e, <[e.1 := e.2]> m) m l.

Lemma place_app m l l' : place m (l ++ l') = place (place m l) l'.
Proof. apply foldl_app. Qed.

Lemma place_fmap m p l : foldl (λ (m : gmap Z ptr) x, <[x := p]> m) m l = place m ((λ x, (x, p)) <$> l).
Proof. unfold place. by rewrite foldl_fmap. Qed.

Lemma place_None m l s : place m l !! s = None ↔ m !! s = None ∧ s ∉ l.*1.
Proof.
  revert m. induction l as [|[x p] l IH]; intros m; [simpl; set_solver|].
  simpl. rewrite IH, lookup_insert_None, not_elem_of_cons. naive_solver.
Qed.

(** Points of other hashes do not matter, and neither do earlier points. *)
Lemma place_Some m l s q :
  place m l !! s = Some q ↔
    (∃ l1 l2, l = l1 ++ (s, q) :: l2 ∧ s ∉ l2.*1) ∨ (m !! s = Some q ∧ s ∉ l.*1).
Proof.
  revert m. induction l as [|[x p] l IH] using rev_ind; intros m.
  { simpl. split; [intros ?; right; set_solver|]. intros [(l1 & l2 & Hl & _)|[? _]]; [|done].
    by destruct l1. }
  rewrite place_app. simpl. rewrite lookup_insert_Some, IH, fmap_app. split.
  - intros [[-> ->]|[Hne [(l1 & l2 & -> & Hn)|[Hm Hn]]]].
    + left. exists l, []. set_solver.
    + left. exists l1, (l2 ++ [(x, p)]). split; [by rewrite <- app_assoc|]. rewrite fmap_app. set_solver.
    + right. set_solver.
  - intros [(l1 & l2 & Hl & Hn)|[Hm Hn]].
    + destruct l2 as [|e l2 _] using rev_ind.
      * apply app_inj_tail in Hl as [-> [= -> ->]]. by left.
      * rewrite app_comm_cons, app_assoc in Hl. apply app_inj_tail in Hl as [-> <-].
        rewrite fmap_app in Hn. right. split; [set_solver|]. left. exists l1, l2. set_solver.
    + right. set_solver.
Qed.

#[local] Lemma set_hashes_idem vn t :
  hashes_of vn (set_hashes t (virtual_hashes (URL t) vn)) = virtual_hashes (URL t) vn.
Proof. unfold hashes_of. simpl. by destruct (virtual_hashes _ _) eqn:E. Qed.

(** Filling in the hashes of a target leaves the points as they are. *)
Definition same_points (vn : Z) (h h' : heap) : Prop :=
  ∀ p, hashes_of vn (deref h p) = hashes_of vn (deref h' p) ∧
       Healthy (deref h p) = Healthy (deref h' p) ∧ URL (deref h p) = URL (deref h' p).

#[export] Instance same_points_equiv vn : Equivalence (same_points vn).
Proof.
  split.
  - by intros h p.
  - intros h h' Hh p. destruct (Hh p) as (? & ? & ?). done.
  - intros h h' h'' H1 H2 p. destruct (H1 p) as (-> & -> & ->). apply H2.
Qed.

Lemma points_same vn h h' ts : same_points vn h h' → points vn h ts = points vn h' ts.
Proof.
  intros Hh. unfold points. f_equal.
  rewrite (list_filter_iff _ (λ p, Healthy (deref h' p) = true)) by (intros p; by rewrite (proj1 (proj2 (Hh p)))).
  apply list_fmap_ext. intros _ p _. by rewrite (proj1 (Hh p)).
Qed.

Lemma healthy_allocated h p : Healthy (deref h p) = true → is_Some (h !! p).
Proof. unfold deref. by destruct (h !! p). Qed.

(** Making sure a healthy target has its hashes. *)
Lemma fill_hashes vn h p :
  Healthy (deref h p) = true →
  let h' := match VirtualHashes (deref h p) with
            | [] => store h p (set_hashes (deref h p) (virtual_hashes (URL (deref h p)) vn))
            | _ => h
            end in
  same_points vn h h' ∧ VirtualHashes (deref h' p) = hashes_of vn (deref h p).
Proof.
  intros Hp. apply healthy_allocated in Hp. unfold hashes_of at 1.
  destruct (VirtualHashes (deref h p)) eqn:E; [|by split].
  split.
  - intros q. rewrite deref_store. case_decide as Hd; [|done]. destruct Hd as [<- _].
    split; [|done]. rewrite set_hashes_idem. unfold hashes_of. by rewrite E.
  - rewrite deref_store, decide_True by done. done.
Qed.

Lemma points_cons vn h p ts :
  points vn h (p :: ts) =
    (if Healthy (deref h p) then (λ x, (x, p)) <$> hashes_of vn (deref h p) else []) ++ points vn h ts.
Proof.
  unfold points. destruct (Healthy (deref h p)) eqn:E.
  - by rewrite filter_cons_True.
  - rewrite filter_cons_False by congruence. done.
Qed.

Lemma rebuild_loop_spec vn h ts circ hashes :
  let '(h', (circ', hashes')) := rebuild_loop vn h ts circ hashes in
  same_points vn h h' ∧ circ' = place circ (points vn h ts) ∧ hashes' = hashes ++ (points vn h ts).*1.
Proof.
  revert h circ hashes. induction ts as [|p ts IH]; intros h circ hashes.
  { simpl. split_and!; [reflexivity|done|]. by rewrite app_nil_r. }
  cbn [rebuild_loop]. rewrite points_cons.
  destruct (Healthy (deref h p)) eqn:Hp; cbn [negb]; [|apply IH].
  destruct (fill_hashes vn h p Hp) as [Hs Hvh].
  set (h1 := match VirtualHashes (deref h p) with [] => _ | _ => _ end) in *. clearbody h1.
  rewrite Hvh, place_fmap.
  specialize (IH h1 (place circ ((λ x, (x, p)) <$> hashes_of vn (deref h p)))
    (hashes ++ hashes_of vn (deref h p))).
  destruct (rebuild_loop _ _ _ _ _) as [h2 [c2 l2]]. destruct IH as (Hs2 & -> & ->).
  rewrite <- (points_same vn h h1) by done. split_and!.
  - by transitivity h1.
  - by rewrite place_app.
  - rewrite fmap_app, <- list_fmap_compose, <- app_assoc.
    do 2 f_equal. symmetry. apply list_fmap_id.
Qed.

(** ** The ring a rebuild gives *)

Record ring_of (vn : Z) (h : heap) (ts : list ptr) (c : ConsistentHash) : Prop := {
  ring_circle : circle c = place ∅ (points vn h ts);
  ring_sorted : StronglySorted Z.le (sortedHashes c);
  ring_hashes : sortedHashes c ≡ₚ (points vn h ts).*1;
  ring_built : rebuilt c = true
}.

Lemma rebuildCircle_ring c h ts :
  ring_of (virtualNodes c) h ts (rebuildCircle c h ts).1 ∧
  same_points (virtualNodes c) h (rebuildCircle c h ts).2.
Proof.
  unfold rebuildCircle. pose proof (rebuild_loop_spec (virtualNodes c) h ts ∅ []) as Hs.
  destruct (rebuild_loop _ _ _ _ _) as [h' [circ hashes]]. destruct Hs as (? & -> & ->).
  split; [|done]. split; simpl; [done| | |done].
  - apply StronglySorted_merge_sort; [intros ???; lia|]. intros ??. lia.
  - apply merge_sort_Permutation.
Qed.

(** [s] is the clockwise successor of [x] on the ring of the hashes [l]. *)
Definition successor (l : list Z) (x s : Z) : Prop :=
  s ∈ l ∧
  ((x ≤ s ∧ ∀ s', s' ∈ l → x ≤ s' → s ≤ s') ∨ ((∀ s', s' ∈ l → s' < x) ∧ ∀ s', s' ∈ l → s ≤ s')).

Lemma successor_unique l x s s' : successor l x s → successor l x s' → s = s'.
Proof.
  intros [Hs H1] [Hs' H2].
  destruct H1 as [[Hx Hmin]|[Hall Hmin]], H2 as [[Hx' Hmin']|[Hall' Hmin']].
  - pose proof (Hmin s' Hs' Hx'). pose proof (Hmin' s Hs Hx). lia.
  - specialize (Hall' s Hs). lia.
  - specialize (Hall s' Hs'). lia.
  - pose proof (Hmin s' Hs'). pose proof (Hmin' s Hs). lia.
Qed.

Lemma sorted_nth l i j :
  StronglySorted Z.le l → (i ≤ j < length l)%nat → nth i l 0 ≤ nth j l 0.
Proof.
  intros Hs. revert i j. induction Hs as [|x l Hs IH Hx]; intros i j Hij; [simpl in *; lia|].
  destruct i as [|i], j as [|j]; simpl in *; [lia| |lia|apply IH; lia].
  rewrite Forall_forall in Hx. apply Hx. apply list_elem_of_In, nth_In. lia.
Qed.

(** The binary search finds the successor. *)
Lemma search_hash_successor l x :
  StronglySorted Z.le l → l ≠ [] →
  let idx := search_hash l x in
  successor l x (nth (if (length l <=? idx)%nat then 0%nat else idx) l 0).
Proof.
  intros Hs Hne idx. assert (0 < length l)%nat as Hlen by (destruct l; [done|simpl; lia]).
  destruct (Search_spec (length l) (λ i, x <=? nth i l 0)) as (Hle & Hlo & Hhi).
  { intros a b Hab Ha. apply Z.leb_le. apply Z.leb_le in Ha.
    pose proof (sorted_nth l a b Hs Hab). lia. }
  fold (search_hash l x) in Hle, Hlo, Hhi. fold idx in Hle, Hlo, Hhi.
  assert (∀ s, s ∈ l → ∃ k, (k < length l)%nat ∧ nth k l 0 = s) as Hel.
  { intros s Hin%list_elem_of_In%(In_nth _ _ 0). naive_solver. }
  destruct (Nat.leb_spec (length l) idx) as [Hge|Hlt].
  - split; [apply list_elem_of_In, nth_In; lia|]. right. split.
    + intros s (k & Hk & <-)%Hel. specialize (Hlo k ltac:(lia)). bool_to_prop. lia.
    + intros s (k & Hk & <-)%Hel. apply sorted_nth; [done|lia].
  - split; [apply list_elem_of_In, nth_In; lia|]. left. split.
    + specialize (Hhi idx ltac:(lia)). bool_to_prop. lia.
    + intros s (k & Hk & <-)%Hel Hx. apply sorted_nth; [done|].
      destruct (decide (k < idx)%nat) as [Hk'|]; [|lia].
      specialize (Hlo k Hk'). bool_to_prop. lia.
Qed.

(** The owner of the successor of a key's hash: what a lookup answers. *)
Definition clockwise (vn : Z) (h : heap) (ts : list ptr) (x : Z) (p : ptr) : Prop :=
  ∃ s, successor (points vn h ts).*1 x s ∧ place ∅ (points vn h ts) !! s = Some p.

Lemma successor_perm l l' x s : l ≡ₚ l' → successor l x s ↔ successor l' x s.
Proof. intros Hl. unfold successor. by setoid_rewrite Hl. Qed.

(** The hash the lookup of [x] reads. *)
Definition found_hash (l : list Z) (x : Z) : Z :=
  nth (if (length l <=? search_hash l x)%nat then 0%nat else search_hash l x) l 0.

Lemma lookup_ring vn h ts c x :
  ring_of vn h ts c → sortedHashes c ≠ [] →
  ∃ p, circle c !! found_hash (sortedHashes c) x = Some p ∧ clockwise vn h ts x p.
Proof.
  intros [Hc Hso Hp _] Hne. pose proof (search_hash_successor (sortedHashes c) x Hso Hne) as Hs.
  change (successor (sortedHashes c) x (found_hash (sortedHashes c) x)) in Hs. revert Hs. generalize (found_hash (sortedHashes c) x).
  intros s Hs. rewrite (successor_perm _ _ _ _ Hp) in Hs. rewrite Hc.
  destruct (place ∅ (points vn h ts) !! s) as [p|] eqn:E.
  - exists p. split; [done|]. by exists s.
  - apply place_None in E as [_ E]. by destruct Hs.
Qed.

Lemma points_nil vn h ts :
  0 < vn → points vn h ts = [] → ∀ p, p ∈ ts → Healthy (deref h p) = false.
Proof.
  intros Hvn. induction ts as [|q ts IH]; [by intros _ p ?%elem_of_nil|].
  rewrite points_cons. intros [Hq Hts]%app_nil p [->|Hp]%elem_of_cons; [|by apply IH].
  destruct (Healthy (deref h q)); [|done]. apply fmap_nil_inv in Hq. unfold hashes_of in Hq.
  destruct (VirtualHashes (deref h q)); [|done]. apply (f_equal length) in Hq.
  unfold virtual_hashes in Hq. rewrite length_fmap, length_seqZ in Hq. simpl in Hq. lia.
Qed.

Lemma elem_of_points vn h ts s p :
  (s, p) ∈ points vn h ts ↔ p ∈ ts ∧ Healthy (deref h p) = true ∧ s ∈ hashes_of vn (deref h p).
Proof.
  induction ts as [|q ts IH]; [unfold points; simpl; set_solver|].
  rewrite points_cons, elem_of_app, IH, elem_of_cons.
  assert ((s, p) ∈ (if Healthy (deref h q) then (λ x, (x, q)) <$> hashes_of vn (deref h q) else [])
    ↔ p = q ∧ Healthy (deref h p) = true ∧ s ∈ hashes_of vn (deref h p)) as ->; [|tauto].
  destruct (Healthy (deref h q)) eqn:E.
  - rewrite list_elem_of_fmap. split.
    + by intros (x & [= -> ->] & Hx).
    + intros (-> & _ & Hx). by exists s.
  - rewrite elem_of_nil. split; [done|]. intros (-> & ? & _). congruence.
Qed.

Lemma place_points vn h ts s p :
  place ∅ (points vn h ts) !! s = Some p → p ∈ ts ∧ Healthy (deref h p) = true.
Proof.
  intros [(l1 & l2 & Hl & _)|[Hn _]]%place_Some; [|by rewrite lookup_empty in Hn].
  assert ((s, p) ∈ points vn h ts) as Hin by (rewrite Hl; set_solver).
  apply elem_of_points in Hin. naive_solver.
Qed.

Lemma clockwise_unique vn h ts x p q : clockwise vn h ts x p → clockwise vn h ts x q → p = q.
Proof.
  intros (s & Hs & Hp) (s' & Hs' & Hq). rewrite (successor_unique _ _ _ _ Hs' Hs) in Hq. congruence.
Qed.

Lemma SelectByKey_iff c h ts key p :
  rebuilt c = false →
  (SelectByKey c h ts key).1.1 = Some p ↔ clockwise (virtualNodes c) h ts (FNV64a key) p.
Proof.
  intros Hr. unfold SelectByKey, ensureRebuilt. rewrite Hr.
  destruct (rebuildCircle_ring c h ts) as [Hring _].
  destruct (rebuildCircle c h ts) as [c' h']. cbn [fst] in Hring.
  destruct (sortedHashes c') as [|s l] eqn:El.
  - cbn [fst]. split; [done|]. intros (s & [Hin _] & _). destruct Hring as [_ _ Hp _].
    rewrite <- Hp, El in Hin. by apply elem_of_nil in Hin.
  - rewrite <- El. destruct (lookup_ring (virtualNodes c) h ts c' (FNV64a key) Hring) as (q & Hl & Hc);
      [by rewrite El|].
    unfold found_hash in Hl. cbv zeta. rewrite Hl. cbn [fst]. split; [by intros [= ->]|]. intros Hp. f_equal. by eapply clockwise_unique.
Qed.

Lemma points_filter vn h ts gone :
  points vn h (filter (λ p, p ≠ gone) ts) = filter (λ e, e.2 ≠ gone) (points vn h ts).
Proof.
  induction ts as [|p ts IH]; [done|]. rewrite points_cons, filter_app, filter_cons.
  destruct (decide (p ≠ gone)) as [Hp|Hp].
  - rewrite points_cons, IH. f_equal. destruct (Healthy (deref h p)); [|done].
    symmetry. apply filter_all. intros e (x & -> & _)%list_elem_of_fmap. exact Hp.
  - rewrite IH, (filter_none (λ e, e.2 ≠ gone) (if Healthy _ then _ else _)); [done|].
    destruct (Healthy (deref h p)); [|by intros ??%elem_of_nil].
    intros e (x & -> & _)%list_elem_of_fmap. exact Hp.
Qed.

(** The point a key finds is still its successor when other points leave. *)
Lemma points_without vn h ts gone q s x :
  q ≠ gone → successor (points vn h ts).*1 x s → place ∅ (points vn h ts) !! s = Some q →
  successor (points vn h (filter (λ p, p ≠ gone) ts)).*1 x s ∧
  place ∅ (points vn h (filter (λ p, p ≠ gone) ts)) !! s = Some q.
Proof.
  intros Hne [Hin Hs] Hq. rewrite points_filter. set (l := points vn h ts) in *. clearbody l.
  apply place_Some in Hq as [(l1 & l2 & -> & Hl2)|[Hq _]]; [|by rewrite lookup_empty in Hq].
  rewrite filter_app, filter_cons_True by done.
  assert (∀ y, y ∈ (filter (λ e : Z * ptr, e.2 ≠ gone) l1 ++ (s, q) :: filter (λ e, e.2 ≠ gone) l2).*1 →
            y ∈ (l1 ++ (s, q) :: l2).*1) as Hsub.
  { intros y. rewrite !list_elem_of_fmap. setoid_rewrite elem_of_app. setoid_rewrite elem_of_cons.
    intros (e & -> & [[_ He]%list_elem_of_filter|[->|[_ He]%list_elem_of_filter]]); eauto. }
  split.
  - split; [rewrite fmap_app; apply elem_of_app; right; by left|].
    destruct Hs as [[Hx Hmin]|[Hall Hmin]]; [left|right]; split; auto.
  - apply place_Some. left. eexists _, _. split; [done|].
    intros (e & -> & [_ He]%list_elem_of_filter)%list_elem_of_fmap. apply Hl2, list_elem_of_fmap. by exists e.
Qed.

(** ** The walk around the ring *)

Lemma target_set_spec h ts ex u :
  default false (target_set h ts ex !! u) = true ↔
    (∃ p, p ∈ ts ∧ Healthy (deref h p) = true ∧ URL (deref h p) = u) ∧
    u ∉ (λ p, URL (deref h p)) <$> ex.
Proof.
  unfold target_set. set (m0 := foldl (set_on h) ∅ ts).
  assert (default false (m0 !! u) = true ↔
    ∃ p, p ∈ ts ∧ Healthy (deref h p) = true ∧ URL (deref h p) = u) as <-.
  { subst m0. induction ts as [|p ts IH] using rev_ind.
    { simpl. rewrite lookup_empty. split; [done|]. by intros (? & ?%elem_of_nil & _). }
    rewrite foldl_app. cbn [foldl]. set (m := foldl (set_on h) ∅ ts) in *. clearbody m.
    setoid_rewrite elem_of_app. setoid_rewrite list_elem_of_singleton. unfold set_on.
    destruct (Healthy (deref h p)) eqn:Hp; [rewrite lookup_insert; case_decide as Hu|].
    - simpl. split; [|done]. intros _. exists p. auto.
    - rewrite IH. split; [naive_solver|]. intros (q & [?| ->] & ? & ?); [by exists q|done].
    - rewrite IH. split; [naive_solver|]. intros (q & [?| ->] & ? & ?); [by exists q|congruence]. }
  generalize m0. clear m0 ts. induction ex as [|p ex IH]; intros m; cbn [foldl].
  { split; [|tauto]. intros ?. split; [done|]. by apply not_elem_of_nil. }
  rewrite IH. unfold set_off. cbn [fmap list_fmap].
  rewrite not_elem_of_cons, lookup_insert. case_decide as Hu; simpl; [|naive_solver].
  split; [by intros [? _]|]. intros (_ & ? & _). congruence.
Qed.

(** The target set depends on the fields a ring keeps. *)
Lemma target_set_same vn h h' ts ex : same_points vn h h' → target_set h ts ex = target_set h' ts ex.
Proof.
  intros Hh. unfold target_set.
  assert (∀ m, foldl (set_on h) m ts = foldl (set_on h') m ts) as ->.
  { induction ts as [|p ts IH]; intros m; [done|]. cbn [foldl]. unfold set_on at 2 4.
    destruct (Hh p) as (_ & -> & ->). apply IH. }
  generalize (foldl (set_on h') ∅ ts).
  induction ex as [|p ex IH]; intros m; [done|]. cbn [foldl]. unfold set_off at 2 4.
  destruct (Hh p) as (_ & _ & ->). apply IH.
Qed.

Definition eligible (h : heap) (set : gmap gostring bool) (p : ptr) : bool :=
  default false (set !! URL (deref h p)).

Lemma walk_spec left i idx c h set :
  match walk left i idx c h set with
  | Some p => eligible h set p = true ∧ ∃ s, s ∈ sortedHashes c ∧ circle c !! s = Some p
  | None => ∀ k p, (i ≤ k < i + left)%nat →
      circle c !! nth ((idx + k) mod length (sortedHashes c))%nat (sortedHashes c) 0 = Some p →
      eligible h set p = false
  end ∨ sortedHashes c = [].
Proof.
  destruct (sortedHashes c) as [|x l] eqn:El; [by right|]. left. rewrite <- El.
  assert (length (sortedHashes c) ≠ 0%nat) as Hne by by rewrite El.
  clear x l El. revert i. induction left as [|left IH]; intros i; cbn [walk]; [lia|].
  set (s := nth _ _ 0). destruct (circle c !! s) as [p|] eqn:Hp.
  - fold (eligible h set p). destruct (eligible h set p) eqn:He.
    + split; [done|]. exists s. split; [|done]. apply list_elem_of_In, nth_In, Nat.mod_upper_bound. done.
    + specialize (IH (S i)). destruct (walk _ _ _ _ _ _); [done|]. intros k q Hk Hq.
      destruct (decide (k = i)) as [->|]; [|apply (IH k q); [lia|done]].
      fold s in Hq. congruence.
  - specialize (IH (S i)). destruct (walk _ _ _ _ _ _); [done|]. intros k q Hk Hq.
    destruct (decide (k = i)) as [->|]; [|apply (IH k q); [lia|done]].
    fold s in Hq. congruence.
Qed.

(** Every position of the ring is visited. *)
Lemma walk_visits (l : list Z) idx s :
  s ∈ l → ∃ k, (k < length l)%nat ∧ nth ((idx + k) mod length l)%nat l 0 = s.
Proof.
  intros Hin%list_elem_of_In%(In_nth _ _ 0). destruct Hin as (j & Hj & <-).
  set (n := length l) in *. exists ((j + (n - idx mod n)) mod n)%nat.
  assert (n ≠ 0%nat) as Hn by lia. split; [by apply Nat.mod_upper_bound|]. f_equal.
  rewrite Nat.Div0.add_mod_idemp_r. rewrite <- (Nat.Div0.add_mod_idemp_l idx).
  pose proof (Nat.mod_upper_bound idx n Hn).
  replace (idx mod n + (j + (n - idx mod n)))%nat with (j + 1 * n)%nat by lia.
  rewrite Nat.Div0.mod_add. apply Nat.mod_small. done.
Qed.

(** ** Properties of selection *)

(** Selection by key answers the owner of the clockwise successor of the
    key's hash on the ring of the healthy targets, and [nil] exactly when no
    target is healthy (the first call builds the ring). *)
Theorem SelectByKey_clockwise (c : ConsistentHash) (h : heap) (ts : list ptr) (key : gostring) :
  rebuilt c = false → 0 < virtualNodes c →
  match (SelectByKey c h ts key).1.1 with
  | Some p => clockwise (virtualNodes c) h ts (FNV64a key) p ∧ p ∈ ts ∧ Healthy (deref h p) = true
  | None => ∀ p, p ∈ ts → Healthy (deref h p) = false
  end.
Proof.
  intros Hr Hvn. unfold SelectByKey, ensureRebuilt. rewrite Hr.
  destruct (rebuildCircle_ring c h ts) as [Hring _].
  destruct (rebuildCircle c h ts) as [c' h']. cbn [fst] in Hring.
  destruct (sortedHashes c') as [|s l] eqn:El.
  - cbn [fst]. destruct Hring as [_ _ Hp _]. rewrite El in Hp.
    apply Permutation_nil_l in Hp. symmetry in Hp. apply fmap_nil_inv in Hp. by apply (points_nil (virtualNodes c) h ts).
  - rewrite <- El. destruct (lookup_ring (virtualNodes c) h ts c' (FNV64a key) Hring) as (p & Hl & Hc);
      [by rewrite El|].
    unfold found_hash in Hl. cbv zeta. rewrite Hl. cbn [fst]. split; [done|]. destruct Hc as (s' & _ & Hp).
    by eapply place_points.
Qed.

(** C27: Minimal disruption.  When one target leaves, a key that was not on it
    keeps its target, however the hashes of the virtual nodes collide. *)
Theorem minimal_disruption (c : ConsistentHash) (h : heap) (ts : list ptr) (gone q : ptr) (key : gostring) :
  rebuilt c = false →
  (SelectByKey c h ts key).1.1 = Some q → q ≠ gone →
  (SelectByKey c h (filter (λ p, p ≠ gone) ts) key).1.1 = Some q.
Proof.
  intros Hr Hq Hne.
  assert (∀ ts p, (SelectByKey c h ts key).1.1 = Some p ↔ clockwise (virtualNodes c) h ts (FNV64a key) p) as Hiff
    by (intros; by apply SelectByKey_iff).
  apply Hiff. apply Hiff in Hq. destruct Hq as (s & Hs & Hp). exists s.
  by eapply points_without.
Qed.

(** Failover on the ring.  The answer is a healthy target of the list whose
    URL was not tried, and it is [nil] only if no such target owns a point. *)
Theorem SelectExcludingByKey_spec (c : ConsistentHash) (h : heap) (ts ex : list ptr) (key : gostring) :
  rebuilt c = false →
  match (SelectExcludingByKey c h ts ex key).1.1 with
  | Some p => p ∈ ts ∧ Healthy (deref h p) = true ∧ URL (deref h p) ∉ (λ p, URL (deref h p)) <$> ex
  | None => ∀ p s, place ∅ (points (virtualNodes c) h ts) !! s = Some p →
      URL (deref h p) ∈ (λ p, URL (deref h p)) <$> ex
  end.
Proof.
  intros Hr. unfold SelectExcludingByKey, ensureRebuilt. rewrite Hr.
  destruct (rebuildCircle_ring c h ts) as [[Hc _ Hp _] Hsame].
  destruct (rebuildCircle c h ts) as [c' h']. cbn [fst snd] in *.
  rewrite <- (target_set_same (virtualNodes c) h h') by done.
  assert (∀ p s, circle c' !! s = Some p → p ∈ ts ∧ Healthy (deref h p) = true) as Hown
    by (intros p s; rewrite Hc; apply place_points).
  assert (∀ p, eligible h' (target_set h ts ex) p = true ↔
     (∃ q, q ∈ ts ∧ Healthy (deref h q) = true ∧ URL (deref h q) = URL (deref h p)) ∧
     URL (deref h p) ∉ (λ p, URL (deref h p)) <$> ex) as Hel.
  { intros p. unfold eligible. rewrite <- (proj2 (proj2 (Hsame p))). apply target_set_spec. }
  destruct (sortedHashes c') as [|x l] eqn:El.
  - cbn [fst]. intros p s [(l1 & l2 & Hl & _)|[Hn _]]%place_Some; [|by rewrite lookup_empty in Hn].
    rewrite Hl in Hp. apply Permutation_nil_l in Hp. by destruct l1.
  - rewrite <- El in Hp |- *. pose proof (walk_spec (length (sortedHashes c')) 0
      (search_hash (sortedHashes c') (hashKeyString key)) c' h' (target_set h ts ex)) as [Hw|Hw];
      [|congruence].
    cbv zeta. destruct (walk _ _ _ _ _ _) as [p|]; cbn [fst].
    + destruct Hw as (He & s & _ & Hs). apply Hel in He as [_ He].
      destruct (Hown p s Hs). done.
    + intros p s Hs. rewrite <- Hc in Hs. destruct (Hown p s Hs) as [Hin Hh].
      destruct (walk_visits (sortedHashes c') (search_hash (sortedHashes c') (hashKeyString key)) s)
        as (k & Hk & Hnth).
      { rewrite Hp. destruct (decide (s ∈ (points (virtualNodes c) h ts).*1)) as [|Hn]; [done|].
        rewrite Hc, (proj2 (place_None _ _ _)) in Hs; [done|]. split; [apply lookup_empty|done]. }
      specialize (Hw k p ltac:(lia)). rewrite Hnth in Hw. specialize (Hw Hs).
      apply not_true_iff_false in Hw. rewrite Hel in Hw.
      destruct (decide (URL (deref h p) ∈ (λ p, URL (deref h p)) <$> ex)); [done|].
      exfalso. apply Hw. split; [by exists p|done].
Qed.

(** The ring is built once.  If every target is down when the first request
    arrives, selection by key answers [nil] for ever after, whichever targets
    recover: nothing resets [rebuilt]. *)
Theorem ring_never_rebuilt (c : ConsistentHash) (h : heap) (ts : list ptr) (key : gostring) :
  rebuilt c = false → (∀ p, p ∈ ts → Healthy (deref h p) = false) →
  let c' := (SelectByKey c h ts key).1.2 in
  ∀ h' ts' ex key', (SelectByKey c' h' ts' key').1.1 = None ∧
                    (SelectExcludingByKey c' h' ts' ex key').1.1 = None.
Proof.
  intros Hr Hdown. unfold SelectByKey at 1, ensureRebuilt. rewrite Hr.
  destruct (rebuildCircle_ring c h ts) as [[_ _ Hp Hb] _].
  destruct (rebuildCircle c h ts) as [c1 h1]. cbn [fst] in Hp, Hb.
  assert (points (virtualNodes c) h ts = []) as Hnil.
  { unfold points. rewrite filter_none; [done|]. intros p Hin Hh. by rewrite Hdown in Hh. }
  rewrite Hnil in Hp. apply Permutation_nil_r in Hp. rewrite Hp. cbn [fst snd].
  intros h' ts' ex key'. unfold SelectByKey, SelectExcludingByKey, ensureRebuilt.
  rewrite Hb. cbv beta iota. by rewrite Hp.
Qed.

(** ** Witnesses *)

Definition ex_ring : ConsistentHash := NewConsistentHash 3 (go!"ip").

Definition ring_heap : heap :=
  list_to_map
    [(0%nat, NewTargetFromConfig (go!"a") (go!"http://a") 1 0 1 0 false false []);
     (1%nat, NewTargetFromConfig (go!"b") (go!"http://b") 1 0 1 0 false false []);
     (2%nat, NewTargetFromConfig (go!"c") (go!"http://c") 1 0 1 0 false false [])].

Lemma SelectByKey_clockwise_witness :
  clockwise 3 ring_heap [0; 1; 2]%nat (FNV64a (go!"10.0.0.1")) 2%nat ∧
  2%nat ∈ [0; 1; 2]%nat ∧ Healthy (deref ring_heap 2%nat) = true.
Proof.
  assert ((SelectByKey ex_ring ring_heap [0; 1; 2]%nat (go!"10.0.0.1")).1.1 = Some 2%nat) as Hs by by vm_compute.
  pose proof (SelectByKey_clockwise ex_ring ring_heap [0; 1; 2]%nat (go!"10.0.0.1") eq_refl eq_refl) as Hc.
  rewrite Hs in Hc. exact Hc.
Defined.

Lemma minimal_disruption_witness :
  (SelectByKey ex_ring ring_heap (filter (λ p, p ≠ 0%nat) [0; 1; 2]%nat) (go!"10.0.0.1")).1.1 = Some 2%nat.
Proof.
  apply (minimal_disruption ex_ring ring_heap [0; 1; 2]%nat 0%nat 2%nat (go!"10.0.0.1"));
    [reflexivity | by vm_compute | discriminate].
Defined.

Lemma SelectExcludingByKey_spec_witness :
  ∃ p, (SelectExcludingByKey ex_ring ring_heap [0; 1; 2]%nat [2]%nat (go!"10.0.0.1")).1.1 = Some p ∧
    p ∈ [0; 1; 2]%nat ∧ URL (deref ring_heap p) ∉ [go!"http://c"].
Proof.
  assert ((SelectExcludingByKey ex_ring ring_heap [0; 1; 2]%nat [2]%nat (go!"10.0.0.1")).1.1 = Some 1%nat) as Hs
    by by vm_compute.
  pose proof (SelectExcludingByKey_spec ex_ring ring_heap [0; 1; 2]%nat [2]%nat (go!"10.0.0.1") eq_refl) as Hc.
  rewrite Hs in Hc. exists 1%nat. split; [exact Hs|]. destruct Hc as (H1 & _ & H3). split; [exact H1|exact H3].
Defined.

Lemma ring_never_rebuilt_witness :
  let down : heap := {[0%nat := set_healthy (deref ring_heap 0%nat) false]} in
  let c' := (SelectByKey ex_ring down [0]%nat []).1.2 in
  (SelectByKey c' ring_heap [0]%nat (go!"k")).1.1 = None.
Proof.
  apply (ring_never_rebuilt ex_ring {[0%nat := set_healthy (deref ring_heap 0%nat) false]} [0]%nat []
    eq_refl ltac:(by intros p ->%list_elem_of_singleton) ring_heap [0]%nat []).
Defined.
