(* ===== verification/Health.v ===== *)
(** * Health: active health checks and slow start

    [src/internal/proxy/health.go] and [health_match.go] (the checker that marks
    targets, and the tests it applies to a response) and
    [src/internal/loadbalance/slow_start.go] (the effective weight a target has
    while it recovers). *)

From S2P Require Import Prelude GoStrings Float64 Location Target.

(** ** Slow start ([slow_start.go]) *)

Record SlowStartState := mkSlow { BaseWeight : Z; RecoverTime : Z; ss_SlowStart : Z }.

(** The fields of the manager: [channels] is the number of stop channels made so
    far (the current [stopCh] is the last one), [closed_chans] those closed, and
    [loops] the channels the running update loops wait on. *)
Record SlowStartManager := mkManager {
  ss_targets : gmap gostring SlowStartState;
  ss_interval : Z;
  ss_running : bool;
  stopCh : nat;
  closed_chans : gset nat;
  loops : list nat
}.

Definition NewSlowStartManager (interval : Z) : SlowStartManager :=
  mkManager ∅ (if interval <=? 0 then second else interval) false 0 ∅ [].

Definition set_targets (m : SlowStartManager) (t : gmap gostring SlowStartState) :=
  mkManager t (ss_interval m) (ss_running m) (stopCh m) (closed_chans m) (loops m).

Definition OnTargetHealthy (now : Z) (m : SlowStartManager) (h : heap) (p : ptr)
  : SlowStartManager * heap :=
  let t := deref h p in
  if SlowStart t <=? 0 then (m, h)
  else (set_targets m (<[URL t := mkSlow (Weight t) now (SlowStart t)]> (ss_targets m)),
        store h p (set_effective t 1)).

Definition OnTargetUnhealthy (m : SlowStartManager) (h : heap) (p : ptr)
  : SlowStartManager * heap :=
  let t := deref h p in
  (set_targets m (delete (URL t) (ss_targets m)), store h p (set_effective t 0)).

(** A new channel, on which the new loop waits. *)
Definition Start (m : SlowStartManager) : SlowStartManager :=
  if ss_running m then m
  else let c := S (stopCh m) in
    mkManager (ss_targets m) (ss_interval m) true c (closed_chans m) (loops m ++ [c]).

(** Closing a channel ends the loops that wait on it. *)
Definition Stop (m : SlowStartManager) : SlowStartManager :=
  if negb (ss_running m) then m
  else
    let closed :=
      if decide (stopCh m ∈ closed_chans m) then closed_chans m
      else {[stopCh m]} ∪ closed_chans m in
    mkManager (ss_targets m) (ss_interval m) false (stopCh m) closed
      (filter (λ c, c ∉ closed) (loops m)).

(** [min(max(int(1+progress*float64(BaseWeight-1)), 1), BaseWeight)], in binary64. *)
Definition slow_weight (st : SlowStartState) (elapsed : Z) : Z :=
  let progress := f64_div (f64_of_int elapsed) (f64_of_int (ss_SlowStart st)) in
  Z.min (Z.max (int_of_f64 (f64_add (f64_of_int 1)
                              (f64_mul progress (f64_of_int (swrap64 (BaseWeight st - 1)))))) 1)
    (BaseWeight st).

(** [target.EffectiveWeight.Store(w)] on the target the callback finds. *)
Definition set_found (findTarget : option (gostring → option ptr)) (h : heap) (url : gostring) (w : Z)
  : heap :=
  match findTarget with
  | Some find =>
      match find url with Some p => store h p (set_effective (deref h p) w) | None => h end
  | None => h
  end.

(** The first loop: the new store and [toDelete]. *)
Fixpoint update_loop (now : Z) (findTarget : option (gostring → option ptr)) (h : heap)
    (states : list (gostring * SlowStartState)) (toDelete : list gostring) : heap * list gostring :=
  match states with
  | [] => (h, toDelete)
  | (url, st) :: rest =>
      let elapsed := time_sub now (RecoverTime st) in
      if ss_SlowStart st <=? elapsed then update_loop now findTarget h rest (toDelete ++ [url])
      else update_loop now findTarget (set_found findTarget h url (slow_weight st elapsed)) rest toDelete
  end.

(** The second loop. *)
Fixpoint delete_loop (findTarget : option (gostring → option ptr)) (h : heap)
    (targets : gmap gostring SlowStartState) (toDelete : list gostring)
  : heap * gmap gostring SlowStartState :=
  match toDelete with
  | [] => (h, targets)
  | url :: rest => delete_loop findTarget (set_found findTarget h url 0) (delete url targets) rest
  end.

(** [order] is the order in which the iteration over the map yields its entries. *)
Definition updateEffectiveWeights (now : Z) (findTarget : option (gostring → option ptr))
    (order : list (gostring * SlowStartState)) (m : SlowStartManager) (h : heap)
  : SlowStartManager * heap :=
  let '(h', toDelete) := update_loop now findTarget h order [] in
  let '(h'', targets) := delete_loop findTarget h' (ss_targets m) toDelete in
  (set_targets m targets, h'').

(** ** Tests on the response ([health_match.go]) *)

Record statusRange := mkRange { sr_min : Z; sr_max : Z }.

Definition parseStatusRange (s : gostring) : option statusRange :=
  let s := TrimSpace s in
  if ContainsByte s "-" then
    match SplitByte s "-" with
    | [a; b] =>
        match Atoi (TrimSpace a), Atoi (TrimSpace b) with
        | Some min, Some max => Some (mkRange min max)
        | _, _ => None
        end
    | _ => None
    end
  else code ← Atoi s; Some (mkRange code code).

Section Checker.
Context `{Regexp}.

Record customHealthMatch := mkCustom {
  statusRanges : list statusRange;
  bodyRegex : option regexp;
  headerMatches : list (gostring * gostring)
}.

Inductive HealthMatch :=
  | defaultHealthMatch
  | custom (m : customHealthMatch).

Definition matchStatus (m : customHealthMatch) (status : Z) : bool :=
  existsb (λ r, (sr_min r <=? status) && (status <=? sr_max r)) (statusRanges m).

(** The loop over [headerMatches]. *)
Fixpoint match_headers (l : list (gostring * gostring)) (headers : gmap gostring gostring) : bool :=
  match l with
  | [] => true
  | (k, v) :: l' =>
      match headers !! k with
      | Some value => if decide (value = v) then match_headers l' headers else false
      | None => false
      end
  end.

Definition HealthMatch_Match (m : HealthMatch) (status : Z) (body : gostring)
    (headers : gmap gostring gostring) : bool :=
  match m with
  | defaultHealthMatch => (200 <=? status) && (status <? 300)
  | custom m =>
      if negb (matchStatus m status) then false
      else if match bodyRegex m with Some re => negb (MatchString re body) | None => false end
      then false
      else match_headers (headerMatches m) headers
  end.

Record HealthMatchConfig := mkMatchConfig {
  cfg_Status : list gostring; cfg_Body : gostring; cfg_Headers : list (gostring * gostring) }.

(** [None] is the panic of [regexp.MustCompile]. *)
Definition NewHealthMatch (cfg : option HealthMatchConfig) : option HealthMatch :=
  match cfg with
  | None => Some defaultHealthMatch
  | Some cfg =>
      let ranges := omap parseStatusRange (cfg_Status cfg) in
      let ranges := match ranges with [] => [mkRange 200 299] | _ => ranges end in
      let headers := (λ kv : gostring * gostring, (ToLower kv.1, kv.2)) <$> cfg_Headers cfg in
      if decide (cfg_Body cfg = []) then Some (custom (mkCustom ranges None headers))
      else re ← regexp_Compile (cfg_Body cfg); Some (custom (mkCustom ranges (Some re) headers))
  end.

(** ** The checker ([health.go]) *)

Record HealthChecker := mkChecker {
  hc_path : gostring;
  hc_targets : list ptr;
  hc_interval : Z;
  hc_timeout : Z;
  hc_matcher : HealthMatch;
  slowStartManager : option SlowStartManager
}.

Record HealthCheckConfig := mkCheckConfig {
  c_Interval : Z; c_Timeout : Z; c_Path : gostring; c_Match : option HealthMatchConfig;
  c_SlowStart : Z }.

Definition empty_config : HealthCheckConfig := mkCheckConfig 0 0 [] None 0.

Definition NewHealthChecker (targets : list ptr) (cfg : option HealthCheckConfig)
  : option HealthChecker :=
  let cfg := default empty_config cfg in
  matcher ← NewHealthMatch (c_Match cfg);
  Some (mkChecker (if decide (c_Path cfg = []) then go!"/health" else c_Path cfg) targets
    (if c_Interval cfg <=? 0 then 10 * second else c_Interval cfg)
    (if c_Timeout cfg <=? 0 then 5 * second else c_Timeout cfg)
    matcher
    (if 0 <? c_SlowStart cfg then Some (NewSlowStartManager (c_SlowStart cfg)) else None)).

Definition set_manager (c : HealthChecker) (m : option SlowStartManager) : HealthChecker :=
  mkChecker (hc_path c) (hc_targets c) (hc_interval c) (hc_timeout c) (hc_matcher c) m.

Fixpoint find_url (h : heap) (targets : list ptr) (url : gostring) : option ptr :=
  match targets with
  | [] => None
  | p :: rest => if decide (URL (deref h p) = url) then Some p else find_url h rest url
  end.

Definition findTargetByURL (c : HealthChecker) (h : heap) (url : gostring) : option ptr :=
  find_url h (hc_targets c) url.

Definition MarkUnhealthy (now : Z) (c : HealthChecker) (h : heap) (p : ptr) : HealthChecker * heap :=
  let h := store h p (set_healthy (deref h p) false) in
  let h := store h p (RecordFailure now (deref h p)).2 in
  match slowStartManager c with
  | Some m => let '(m', h') := OnTargetUnhealthy m h p in (set_manager c (Some m'), h')
  | None => (c, h)
  end.

Definition MarkHealthy (now : Z) (c : HealthChecker) (h : heap) (p : ptr) : HealthChecker * heap :=
  let h := store h p (set_healthy (deref h p) true) in
  let h := store h p (RecordSuccess (deref h p)) in
  match slowStartManager c with
  | Some m => let '(m', h') := OnTargetHealthy now m h p in (set_manager c (Some m'), h')
  | None => (c, h)
  end.

(** What [client.DoTimeout] brings back: an error, or the status, the body and
    the header fields with the names the HTTP library gives them. *)
Definition response : Type := option (Z * gostring * list (gostring * gostring)).

Definition healthy_response (c : HealthChecker) (r : response) : bool :=
  match r with
  | None => false
  | Some (status, body, fields) =>
      HealthMatch_Match (hc_matcher c) status body
        (foldl (λ m kv, <[kv.1 := kv.2]> m) ∅ fields)
  end.

Definition checkTarget (now : Z) (r : response) (c : HealthChecker) (h : heap) (p : ptr)
  : HealthChecker * heap :=
  if healthy_response c r then MarkHealthy now c h p else MarkUnhealthy now c h p.

(** The checks of all targets, in the order in which they complete. *)
Definition checkAll (now : Z) (answer : ptr → response) (done : list ptr) (ch : HealthChecker * heap)
  : HealthChecker * heap :=
  foldl (λ ch p, checkTarget now (answer p) ch.1 ch.2 p) ch done.

(** A tick of the slow-start ticker. *)
Definition tick (now : Z) (order : list (gostring * SlowStartState)) (c : HealthChecker) (h : heap)
  : HealthChecker * heap :=
  match slowStartManager c with
  | Some m =>
      let '(m', h') := updateEffectiveWeights now (Some (findTargetByURL c h)) order m h in
      (set_manager c (Some m'), h')
  | None => (c, h)
  end.

End Checker.

(** ** Lemmas on the store *)

Lemma deref_store_same h p t : is_Some (h !! p) → deref (store h p t) p = t.
Proof. intros Hp. rewrite deref_store. by rewrite decide_True. Qed.

Lemma deref_store_other h p q t : p ≠ q → deref (store h p t) q = deref h q.
Proof. intros Hpq. rewrite deref_store. rewrite decide_False; [done|]. by intros [? _]. Qed.

Lemma store_allocated h p q t : is_Some (store h p t !! q) ↔ is_Some (h !! q).
Proof. unfold store. apply lookup_alter_is_Some. Qed.

(** ** One tick of slow start *)

Definition expired (now : Z) (st : SlowStartState) : bool :=
  ss_SlowStart st <=? time_sub now (RecoverTime st).

(** The weight a tick gives to the target of an entry. *)
Definition tick_weight (now : Z) (st : SlowStartState) : Z :=
  if expired now st then 0 else slow_weight st (time_sub now (RecoverTime st)).

Section Tick.
Context (now : Z) (find : gostring → option ptr) (U : ptr → gostring).
Context (find_U : ∀ url p, find url = Some p → U p = url).

Lemma set_found_other h url w p :
  U p ≠ url → deref (set_found (Some find) h url w) p = deref h p.
Proof.
  intros Hne. simpl. destruct (find url) as [q|] eqn:Hq; [|done].
  apply deref_store_other. intros ->. by apply find_U in Hq.
Qed.

Lemma set_found_same h p w :
  find (U p) = Some p → is_Some (h !! p) →
  deref (set_found (Some find) h (U p) w) p = set_effective (deref h p) w.
Proof. intros Hf Hp. simpl. rewrite Hf. by apply deref_store_same. Qed.

Lemma set_found_allocated f h url w p : is_Some (set_found f h url w !! p) ↔ is_Some (h !! p).
Proof.
  unfold set_found. destruct f as [g|]; [|done]. destruct (g url); [|done]. apply store_allocated.
Qed.

Lemma update_loop_other h states acc p :
  U p ∉ states.*1 → deref (update_loop now (Some find) h states acc).1 p = deref h p.
Proof.
  revert h acc. induction states as [|[url st] states IH]; intros h acc; [done|].
  intros [Hne Hnot]%not_elem_of_cons. cbn [update_loop].
  case_match; rewrite IH by done; [done|]. by apply set_found_other.
Qed.

Lemma update_loop_same h states acc p st :
  NoDup states.*1 → (U p, st) ∈ states → find (U p) = Some p → is_Some (h !! p) →
  expired now st = false →
  deref (update_loop now (Some find) h states acc).1 p =
    set_effective (deref h p) (slow_weight st (time_sub now (RecoverTime st))).
Proof.
  revert h acc. induction states as [|[url st'] states IH]; intros h acc; [by intros _ ?%elem_of_nil|].
  cbn [fmap list_fmap]. intros [Hnot Hnd]%NoDup_cons Hin Hf Hp He. cbn [update_loop].
  apply elem_of_cons in Hin as [[= <- <-]|Hin].
  - fold (expired now st). rewrite He. rewrite update_loop_other by done. by apply set_found_same.
  - assert (url ≠ U p) by (intros ->; apply Hnot; by apply (list_elem_of_fmap_2 fst) in Hin).
    case_match; [by apply IH|]. rewrite IH by (done || by apply set_found_allocated).
    by rewrite set_found_other by congruence.
Qed.

Lemma update_loop_expired h states acc p st :
  NoDup states.*1 → (U p, st) ∈ states → expired now st = true →
  deref (update_loop now (Some find) h states acc).1 p = deref h p.
Proof.
  revert h acc. induction states as [|[url st'] states IH]; intros h acc; [by intros _ ?%elem_of_nil|].
  cbn [fmap list_fmap]. intros [Hnot Hnd]%NoDup_cons Hin He. cbn [update_loop].
  apply elem_of_cons in Hin as [[= <- <-]|Hin].
  - fold (expired now st). rewrite He. by apply update_loop_other.
  - assert (url ≠ U p) by (intros ->; apply Hnot; by apply (list_elem_of_fmap_2 fst) in Hin).
    case_match; rewrite IH by done; [done|]. apply set_found_other. congruence.
Qed.

Lemma update_loop_delete f h states acc :
  (update_loop now f h states acc).2 =
    acc ++ (filter (λ e : gostring * SlowStartState, expired now e.2 = true) states).*1.
Proof.
  revert h acc. induction states as [|[url st] states IH]; intros h acc; [by rewrite app_nil_r|].
  cbn [update_loop]. rewrite filter_cons. fold (expired now st). cbn [snd].
  destruct (expired now st); cbn [decide bool_eq_dec]; rewrite IH; [|done].
  by rewrite <- app_assoc.
Qed.

Lemma update_loop_allocated f h states acc p :
  is_Some ((update_loop now f h states acc).1 !! p) ↔ is_Some (h !! p).
Proof.
  revert h acc. induction states as [|[url st] states IH]; intros h acc; [done|].
  cbn [update_loop]. case_match; rewrite IH; [done|]. apply set_found_allocated.
Qed.

Lemma delete_loop_map f h m del :
  (delete_loop f h m del).2 = filter (λ e, e.1 ∉ del) m.
Proof.
  revert h m. induction del as [|url del IH]; intros h m; cbn [delete_loop].
  - symmetry. apply map_filter_id. intros; by apply not_elem_of_nil.
  - rewrite IH. apply map_eq. intros k. apply option_eq. intros st.
    rewrite !map_lookup_filter_Some. simpl. rewrite lookup_delete_Some, not_elem_of_cons.
    naive_solver.
Qed.

Lemma delete_loop_other h m del p :
  U p ∉ del → deref (delete_loop (Some find) h m del).1 p = deref h p.
Proof.
  revert h m. induction del as [|url del IH]; intros h m; [done|].
  intros [Hne Hnot]%not_elem_of_cons. cbn [delete_loop]. rewrite IH by done.
  by apply set_found_other.
Qed.

Lemma delete_loop_same h m del p :
  NoDup del → U p ∈ del → find (U p) = Some p → is_Some (h !! p) →
  deref (delete_loop (Some find) h m del).1 p = set_effective (deref h p) 0.
Proof.
  revert h m. induction del as [|url del IH]; intros h m; [by intros _ ?%elem_of_nil|].
  intros [Hnot Hnd]%NoDup_cons Hin Hf Hp. cbn [delete_loop].
  destruct (decide (U p = url)) as [<-|Hne].
  - rewrite delete_loop_other by done. by apply set_found_same.
  - rewrite IH by (set_solver || by apply set_found_allocated). by rewrite set_found_other.
Qed.

End Tick.

Lemma slow_weight_bounds st e : 1 ≤ BaseWeight st → 1 ≤ slow_weight st e ≤ BaseWeight st.
Proof. unfold slow_weight. lia. Qed.

Lemma find_url_spec h ts url p : find_url h ts url = Some p → p ∈ ts ∧ URL (deref h p) = url.
Proof.
  induction ts as [|q ts IH]; simpl; [done|]. case_decide.
  - intros [= <-]. split; [by left|done].
  - intros [? ?]%IH. split; [by right|done].
Qed.

(** The tick, for the target of one entry. *)
Lemma updateEffectiveWeights_spec now find U order m h p :
  (∀ url p, find url = Some p → U p = url) → order ≡ₚ map_to_list (ss_targets m) →
  let '(m', h') := updateEffectiveWeights now (Some find) order m h in
  ss_targets m' = filter (λ e, expired now e.2 = false) (ss_targets m) ∧
  (is_Some (h !! p) → find (U p) = Some p →
   deref h' p = match ss_targets m !! U p with
                | Some st => set_effective (deref h p) (tick_weight now st)
                | None => deref h p
                end).
Proof.
  intros HU Hord.
  assert (NoDup order.*1) as Hnd by (rewrite Hord; apply NoDup_fst_map_to_list).
  assert (∀ k st, (k, st) ∈ order ↔ ss_targets m !! k = Some st) as Hel
    by (intros; by rewrite Hord, elem_of_map_to_list).
  unfold updateEffectiveWeights.
  pose proof (update_loop_delete now (Some find) h order []) as Hdel. cbn [app] in Hdel.
  pose proof (update_loop_allocated now (Some find) h order [] p) as Hall.
  pose proof (update_loop_other now find U HU h order [] p) as Hoth.
  pose proof (update_loop_same now find U HU h order [] p) as Hsame.
  pose proof (update_loop_expired now find U HU h order [] p) as Hexp.
  destruct (update_loop now (Some find) h order []) as [h1 del]. cbn [fst snd] in *.
  assert (∀ k, k ∈ del ↔ ∃ st, ss_targets m !! k = Some st ∧ expired now st = true) as Hdel'.
  { intros k. rewrite Hdel, list_elem_of_fmap. split.
    - intros ([k' st] & -> & [? ?%Hel]%list_elem_of_filter). by exists st.
    - intros (st & Hk & He). exists (k, st). split; [done|]. apply list_elem_of_filter.
      split; [done|]. by apply Hel. }
  assert (NoDup del) as Hdnd.
  { rewrite Hdel. eapply sublist_NoDup; [exact Hnd|]. apply fmap_sublist, sublist_filter. }
  pose proof (delete_loop_map (Some find) h1 (ss_targets m) del) as Hmap.
  pose proof (delete_loop_other find U HU h1 (ss_targets m) del p) as Hdo.
  pose proof (delete_loop_same find U HU h1 (ss_targets m) del p Hdnd) as Hds.
  destruct (delete_loop _ _ _ _) as [h2 t2]. cbn [fst snd] in *. split.
  - cbn [ss_targets set_targets]. rewrite Hmap. apply map_filter_ext. intros k st Hk. cbn [fst snd].
    rewrite Hdel'. destruct (expired now st) eqn:E; naive_solver congruence.
  - intros Hp Hf. destruct (ss_targets m !! U p) as [st|] eqn:Hst.
    + unfold tick_weight. destruct (expired now st) eqn:E.
      * rewrite Hds; [|by apply Hdel'; exists st|done|by apply Hall].
        by rewrite (Hexp st Hnd ltac:(by apply Hel) E).
      * rewrite Hdo by (rewrite Hdel'; naive_solver congruence).
        by rewrite (Hsame st Hnd ltac:(by apply Hel) Hf Hp E).
    + rewrite Hdo by (rewrite Hdel'; naive_solver congruence).
      apply Hoth. intros ([k st'] & Hk & Hin%Hel)%list_elem_of_fmap. naive_solver congruence.
Qed.

(** ** Runs of the checker *)

Section Runs.
Context `{Regexp}.

(** What changes targets at run time: checks and passive marks, and the ticks of
    the slow-start timer. *)
Inductive check_event :=
  | EHealthy (now : Z) (p : ptr)
  | EUnhealthy (now : Z) (p : ptr)
  | ETick (now : Z).

Definition check_step (ch : HealthChecker * heap) (e : check_event) : HealthChecker * heap :=
  match e with
  | EHealthy now p => MarkHealthy now ch.1 ch.2 p
  | EUnhealthy now p => MarkUnhealthy now ch.1 ch.2 p
  | ETick now =>
      tick now (match slowStartManager ch.1 with
                | Some m => map_to_list (ss_targets m) | None => [] end) ch.1 ch.2
  end.

(** A check of a target changes that target only, and marks it. *)
Lemma MarkHealthy_spec now c h p q :
  let '(c', h') := MarkHealthy now c h p in
  hc_matcher c' = hc_matcher c ∧ (is_Some (h' !! q) ↔ is_Some (h !! q)) ∧
  (q ≠ p → deref h' q = deref h q) ∧
  (is_Some (h !! p) → Healthy (deref h' p) = true).
Proof.
  unfold MarkHealthy. set (h1 := store h p _). set (h2 := store h1 p _).
  assert (is_Some (h2 !! q) ↔ is_Some (h !! q)) as Hall
    by (subst h2 h1; by rewrite !store_allocated).
  assert (q ≠ p → deref h2 q = deref h q) as Hoth
    by (intros ?; subst h2 h1; by rewrite !deref_store_other by congruence).
  assert (is_Some (h !! p) → Healthy (deref h2 p) = true) as Hp.
  { intros Hp. subst h2 h1. rewrite !deref_store_same by (rewrite ?store_allocated; done).
    unfold RecordSuccess. by case_match. }
  destruct (slowStartManager c) as [m|]; [|done]. unfold OnTargetHealthy.
  destruct (_ <=? 0); cbn [set_manager hc_matcher]; [by split_and!|]. split_and!; [done| | |].
  - by rewrite store_allocated.
  - intros ?. rewrite deref_store_other by congruence. by apply Hoth.
  - intros Hs. rewrite deref_store_same by (subst h2 h1; by rewrite !store_allocated). by apply Hp.
Qed.

Lemma MarkUnhealthy_spec now c h p q :
  let '(c', h') := MarkUnhealthy now c h p in
  hc_matcher c' = hc_matcher c ∧ (is_Some (h' !! q) ↔ is_Some (h !! q)) ∧
  (q ≠ p → deref h' q = deref h q) ∧
  (is_Some (h !! p) → Healthy (deref h' p) = false).
Proof.
  unfold MarkUnhealthy. set (h1 := store h p _). set (h2 := store h1 p _).
  assert (is_Some (h2 !! q) ↔ is_Some (h !! q)) as Hall
    by (subst h2 h1; by rewrite !store_allocated).
  assert (q ≠ p → deref h2 q = deref h q) as Hoth
    by (intros ?; subst h2 h1; by rewrite !deref_store_other by congruence).
  assert (is_Some (h !! p) → Healthy (deref h2 p) = false) as Hp.
  { intros Hp. subst h2 h1. rewrite !deref_store_same by (rewrite ?store_allocated; done).
    unfold RecordFailure. by repeat case_match. }
  destruct (slowStartManager c) as [m|]; [|done]. unfold OnTargetUnhealthy.
  cbn [set_manager hc_matcher]. split_and!; [done| | |].
  - by rewrite store_allocated.
  - intros ?. rewrite deref_store_other by congruence. by apply Hoth.
  - intros Hs. rewrite deref_store_same by (subst h2 h1; by rewrite !store_allocated). by apply Hp.
Qed.

Lemma checkTarget_spec now r c h p q :
  let '(c', h') := checkTarget now r c h p in
  hc_matcher c' = hc_matcher c ∧ (is_Some (h' !! q) ↔ is_Some (h !! q)) ∧
  (q ≠ p → deref h' q = deref h q) ∧
  (is_Some (h !! p) → Healthy (deref h' p) = healthy_response c r).
Proof.
  unfold checkTarget. destruct (healthy_response c r).
  - apply MarkHealthy_spec.
  - apply MarkUnhealthy_spec.
Qed.

Lemma healthy_response_matcher c c' r :
  hc_matcher c = hc_matcher c' → healthy_response c r = healthy_response c' r.
Proof. unfold healthy_response. by intros ->. Qed.

(** ** Properties *)

(** A round of health checks leaves every target marked exactly as its own
    response says, whatever the order in which the concurrent checks complete,
    and touches nothing else. *)
Theorem checkAll_marks (now : Z) (answer : ptr → response) (c : HealthChecker) (h : heap)
    (done : list ptr) (p : ptr) :
  done ≡ₚ hc_targets c → NoDup (hc_targets c) → is_Some (h !! p) →
  let '(_, h') := checkAll now answer done (c, h) in
  (p ∈ hc_targets c → Healthy (deref h' p) = healthy_response c (answer p)) ∧
  (p ∉ hc_targets c → deref h' p = deref h p).
Proof.
  intros Hdone Hnd Hp. rewrite <- Hdone in Hnd.
  assert (∀ c0 h0, hc_matcher c0 = hc_matcher c → is_Some (h0 !! p) →
    let '(_, h') := checkAll now answer done (c0, h0) in
    (p ∈ done → Healthy (deref h' p) = healthy_response c (answer p)) ∧
    (p ∉ done → deref h' p = deref h0 p)) as Hgen.
  { clear Hdone Hp h. induction done as [|x done IH]; intros c0 h0 Hc0 Hp.
    { split; [by intros ?%elem_of_nil|done]. }
    apply NoDup_cons in Hnd as [Hx Hnd]. change (checkAll now answer (x :: done) (c0, h0)) with
      (checkAll now answer done (checkTarget now (answer x) c0 h0 x)).
    pose proof (checkTarget_spec now (answer x) c0 h0 x p) as Hs.
    destruct (checkTarget now (answer x) c0 h0 x) as [c1 h1].
    destruct Hs as (Hm & Hall & Hoth & Hpx).
    specialize (IH Hnd c1 h1 ltac:(congruence) (proj2 Hall Hp)).
    destruct (checkAll now answer done (c1, h1)) as [c2 h2]. destruct IH as [IH1 IH2].
    split.
    - intros [->|Hin]%elem_of_cons; [|by apply IH1]. rewrite IH2 by done.
      rewrite Hpx by done. by apply healthy_response_matcher.
    - intros [Hne Hnot]%not_elem_of_cons. rewrite IH2 by done. by apply Hoth. }
  specialize (Hgen c h eq_refl Hp). destruct (checkAll now answer done (c, h)) as [c' h'].
  by rewrite <- Hdone.
Qed.

(** A tick of slow start gives each recovering target a weight between 1
    and its configured weight, whatever the rounding of the interpolation, and
    hands a target whose period is over back to its configured weight; the
    other targets are untouched. *)
Theorem slow_start_tick (now : Z) (order : list (gostring * SlowStartState)) (c : HealthChecker)
    (m : SlowStartManager) (h : heap) (p : ptr) :
  slowStartManager c = Some m → order ≡ₚ map_to_list (ss_targets m) → is_Some (h !! p) →
  findTargetByURL c h (URL (deref h p)) = Some p →
  let '(c', h') := tick now order c h in
  let url := URL (deref h p) in
  match ss_targets m !! url with
  | None => deref h' p = deref h p
  | Some st =>
      if expired now st
      then GetEffectiveWeight (deref h' p) = Weight (deref h p) ∧
           (∀ m', slowStartManager c' = Some m' → ss_targets m' !! url = None)
      else EffectiveWeight (deref h' p) = slow_weight st (time_sub now (RecoverTime st)) ∧
           (1 ≤ BaseWeight st → 1 ≤ EffectiveWeight (deref h' p) ≤ BaseWeight st) ∧
           (∀ m', slowStartManager c' = Some m' → ss_targets m' !! url = Some st)
  end.
Proof.
  intros Hc Hord Hp Hf. unfold tick. rewrite Hc.
  pose proof (updateEffectiveWeights_spec now (findTargetByURL c h) (λ q, URL (deref h q)) order m h p
    ltac:(by intros url q [_ ?]%find_url_spec) Hord) as Hs.
  destruct (updateEffectiveWeights _ _ _ _ _) as [m' h']. destruct Hs as [Hmap Hw].
  rewrite Hw by done. cbn zeta. cbn [slowStartManager set_manager].
  destruct (ss_targets m !! URL (deref h p)) as [st|] eqn:Hst; [|done].
  unfold tick_weight. destruct (expired now st) eqn:He; split_and!; try done.
  - intros m0 [= <-]. rewrite Hmap. apply map_lookup_filter_None. right.
    intros st' Hst'. simplify_eq. simpl. by rewrite He.
  - apply slow_weight_bounds.
  - intros m0 [= <-]. rewrite Hmap. by apply map_lookup_filter_Some.
Qed.

(** What no configuration path changes: no target has a slow-start time. *)
Definition no_slow_start (ch : HealthChecker * heap) : Prop :=
  (∀ q, SlowStart (deref ch.2 q) = 0 ∧ EffectiveWeight (deref ch.2 q) = 0) ∧
  (∀ m, slowStartManager ch.1 = Some m → ss_targets m = ∅).

Lemma no_slow_start_store h p t :
  (∀ q, SlowStart (deref h q) = 0 ∧ EffectiveWeight (deref h q) = 0) →
  SlowStart t = 0 → EffectiveWeight t = 0 →
  ∀ q, SlowStart (deref (store h p t) q) = 0 ∧ EffectiveWeight (deref (store h p t) q) = 0.
Proof. intros Hh Hs He q. rewrite deref_store. by case_decide. Qed.

Lemma no_slow_start_update h p t :
  (∀ q, SlowStart (deref h q) = 0 ∧ EffectiveWeight (deref h q) = 0) →
  SlowStart t = SlowStart (deref h p) ∧ EffectiveWeight t = EffectiveWeight (deref h p) →
  ∀ q, SlowStart (deref (store h p t) q) = 0 ∧ EffectiveWeight (deref (store h p t) q) = 0.
Proof. intros Hh [Hs He]. destruct (Hh p). apply no_slow_start_store; [done|congruence..]. Qed.

Lemma RecordSuccess_slow t :
  SlowStart (RecordSuccess t) = SlowStart t ∧ EffectiveWeight (RecordSuccess t) = EffectiveWeight t.
Proof. unfold RecordSuccess. by case_match. Qed.

Lemma RecordFailure_slow now t :
  SlowStart (RecordFailure now t).2 = SlowStart t ∧
  EffectiveWeight (RecordFailure now t).2 = EffectiveWeight t.
Proof. unfold RecordFailure. by repeat case_match. Qed.

Lemma no_slow_start_step ch e : no_slow_start ch → no_slow_start (check_step ch e).
Proof.
  destruct ch as [c h]. intros [Hh Hm]. destruct e as [now p|now p|now]; cbn [check_step fst snd] in *.
  - unfold MarkHealthy. set (h1 := store h p _). set (h2 := store h1 p _).
    assert (∀ q, SlowStart (deref h2 q) = 0 ∧ EffectiveWeight (deref h2 q) = 0) as Hh2.
    { apply no_slow_start_update; [|apply RecordSuccess_slow].
      apply no_slow_start_update; [done|]. by split. }
    destruct (slowStartManager c) as [m|] eqn:Ec; [|split; [done|cbn; congruence]].
    unfold OnTargetHealthy. rewrite (proj1 (Hh2 p)). cbn. split; [done|].
    intros ? [= <-]. by apply Hm.
  - unfold MarkUnhealthy. set (h1 := store h p _). set (h2 := store h1 p _).
    assert (∀ q, SlowStart (deref h2 q) = 0 ∧ EffectiveWeight (deref h2 q) = 0) as Hh2.
    { apply no_slow_start_update; [|apply RecordFailure_slow].
      apply no_slow_start_update; [done|]. by split. }
    destruct (slowStartManager c) as [m|] eqn:Ec; [|split; [done|cbn; congruence]].
    unfold OnTargetUnhealthy. cbn. split.
    + intros q. apply no_slow_start_store; [done| |done]. apply Hh2.
    + intros ? [= <-]. cbn. rewrite (Hm m eq_refl). by rewrite delete_empty.
  - unfold tick. destruct (slowStartManager c) as [m|] eqn:Ec; [|split; [done|cbn; congruence]].
    rewrite (Hm m eq_refl), map_to_list_empty. cbn. split; [done|]. intros ? [= <-]. cbn. by apply Hm.
Qed.

(** Slow start never takes effect.  The configuration gives no target a
    slow-start time, and from there no sequence of checks, marks and timer ticks
    ever makes the effective weight of a target differ from its weight. *)
Theorem slow_start_inert (c : HealthChecker) (h : heap) (cfg : option HealthCheckConfig)
    (ts : list ptr) (es : list check_event) (p : ptr) :
  NewHealthChecker ts cfg = Some c →
  (∀ q t, h !! q = Some t → ∃ host url weight maxConns maxFails failTimeout backup down uri,
     t = NewTargetFromConfig host url weight maxConns maxFails failTimeout backup down uri) →
  let h' := (foldl check_step (c, h) es).2 in
  GetEffectiveWeight (deref h' p) = Weight (deref h' p).
Proof.
  intros Hc Hh h'. assert (no_slow_start (foldl check_step (c, h) es)) as [Hinv _].
  { assert (no_slow_start (c, h)) as H0.
    - split.
      + intros q. unfold deref; simpl. destruct (h !! q) as [t|] eqn:Hq; [|done]. simpl.
        destruct (Hh q t Hq) as (? & ? & ? & ? & ? & ? & ? & ? & ? & ->). done.
      + intros m. unfold NewHealthChecker in Hc. destruct (NewHealthMatch _); [|done].
        injection Hc as <-. cbn. case_match; [|done]. by intros [= <-].
    - revert H0. generalize (c, h). clear. induction es as [|e es IH]; intros ch H0; [done|].
      simpl. by apply IH, no_slow_start_step. }
  subst h'. unfold GetEffectiveWeight. by rewrite (proj2 (Hinv p)).
Qed.

(** A header condition can never hold on the headers of a real response:
    the names of the conditions are in lower case, those of the response as the
    HTTP library spells them, with a capital. *)
Theorem header_match_never (cfg : HealthMatchConfig) (m : HealthMatch) (status : Z)
    (body : gostring) (fields : list (gostring * gostring)) :
  NewHealthMatch (Some cfg) = Some m → cfg_Headers cfg ≠ [] →
  (∀ kv, kv ∈ fields → existsb is_upper kv.1 = true) →
  HealthMatch_Match m status body (foldl (λ m kv, <[kv.1 := kv.2]> m) ∅ fields) = false.
Proof.
  intros Hm Hne Hup.
  assert (∃ r re, m = custom (mkCustom r re ((λ kv, (ToLower kv.1, kv.2)) <$> cfg_Headers cfg)))
    as (r & re & ->).
  { unfold NewHealthMatch in Hm. case_decide; [injection Hm as <-; eauto|].
    destruct (regexp_Compile _); [|done]. injection Hm as <-. eauto. }
  destruct (cfg_Headers cfg) as [|[k v] l]; [done|]. unfold HealthMatch_Match.
  cbn [fmap list_fmap headerMatches match_headers fst snd].
  assert (foldl (λ (m : gmap gostring gostring) kv, <[kv.1 := kv.2]> m) ∅ fields !! ToLower k = None) as ->.
  { assert (∀ m : gmap gostring gostring, m !! ToLower k = None →
      foldl (λ m kv, <[kv.1 := kv.2]> m) m fields !! ToLower k = None) as Hg; [|by apply Hg].
    induction fields as [|kv fields IH]; intros m Hk; [done|]. simpl. apply IH.
    { intros; apply Hup; by right. }
    rewrite lookup_insert_ne; [done|]. intros Heq.
    pose proof (Hup kv ltac:(by left)) as Hu. apply existsb_exists in Hu as (c & Hc & Hu).
    rewrite Heq in Hc. rewrite <- list_elem_of_In in Hc. by rewrite (ToLower_no_upper k c Hc) in Hu. }
  by repeat case_match.
Qed.
End Runs.

(** Status ranges round-trip: the text of a code or of a range of codes is
    read back as that range. *)
Theorem parseStatusRange_text (a b : Z) :
  0 ≤ a ≤ int64_max → 0 ≤ b ≤ int64_max →
  parseStatusRange (FormatInt a) = Some (mkRange a a) ∧
  parseStatusRange (FormatInt a ++ go!"-" ++ FormatInt b) = Some (mkRange a b).
Proof.
  intros Ha Hb.
  destruct (FormatInt_digits a Ha) as [Hda _], (FormatInt_digits b Hb) as [Hdb _].
  assert ("-"%char ∉ FormatInt a) as Hna by (intros Hin; by destruct (digits_char _ _ Hda Hin) as (_ & ? & _)).
  assert ("-"%char ∉ FormatInt b) as Hnb by (intros Hin; by destruct (digits_char _ _ Hdb Hin) as (_ & ? & _)).
  assert (∀ n, 0 ≤ n ≤ int64_max → Atoi (FormatInt n) = Some n) as HA
    by (intros n ?; apply Atoi_FormatInt; unfold in_int64, int64_min; lia).
  assert (∀ s, forallb is_digit s = true → TrimSpace s = s) as HT
    by (intros s Hs; apply TrimSpace_id; intros c Hc; rewrite forallb_forall in Hs; by apply digit_plain, Hs, list_elem_of_In).
  unfold parseStatusRange. split.
  - rewrite HT by done. destruct (ContainsByte _ _) eqn:E; [by apply ContainsByte_spec in E|].
    by rewrite HA.
  - rewrite TrimSpace_id.
    2: { rewrite forallb_forall in Hda, Hdb. intros c [Hc|[->%list_elem_of_singleton|Hc]%elem_of_app]%elem_of_app; [|done|].
         - by apply digit_plain, Hda, list_elem_of_In.
         - by apply digit_plain, Hdb, list_elem_of_In. }
    rewrite (proj2 (ContainsByte_spec _ _)) by set_solver.
    change (go!"-" ++ FormatInt b) with ("-"%char :: FormatInt b).
    rewrite SplitByte_app, SplitByte_none by done. by rewrite !HT, !HA.
Qed.

(** Starting and stopping the slow-start timer in any order leaves one
    update loop while it runs and none when it is stopped. *)
Theorem slow_start_loops (interval : Z) (ops : list bool) :
  let m := foldl (λ m (start : bool), if start then Start m else Stop m)
             (NewSlowStartManager interval) ops in
  loops m = if ss_running m then [stopCh m] else [].
Proof.
  intros m.
  assert (loops m = (if ss_running m then [stopCh m] else []) ∧
          (∀ c, c ∈ closed_chans m → (c ≤ stopCh m)%nat) ∧
          (ss_running m = true → stopCh m ∉ closed_chans m)) as [? _]; [|done].
  subst m. induction ops as [|op ops IH] using rev_ind; [simpl; split_and!; set_solver|].
  rewrite foldl_app. simpl. set (m := foldl _ _ ops) in *. clearbody m.
  destruct IH as (Hl & Hc & Hr). destruct op.
  - unfold Start. destruct (ss_running m) eqn:E; [rewrite E in *; done|]. simpl. rewrite Hl.
    split_and!; [done| |].
    + intros c ?%Hc. lia.
    + intros _ ?%Hc. lia.
  - unfold Stop. destruct (ss_running m) eqn:E; simpl; [|rewrite E in *; done].
    rewrite decide_False by auto. rewrite Hl. rewrite filter_cons_False by set_solver.
    split_and!; [done| |done]. intros c [->%elem_of_singleton|?%Hc]%elem_of_union; lia.
Qed.

(** ** Witnesses *)

#[local] Existing Instance literal_regexp.

Definition ex_store : heap :=
  list_to_map
    [(0%nat, NewTargetFromConfig (go!"a") (go!"http://a") 10 0 1 0 false false []);
     (1%nat, NewTargetFromConfig (go!"b") (go!"http://b") 1 0 1 0 false false [])].

Definition ex_checker : HealthChecker :=
  mkChecker (go!"/health") [0; 1]%nat (10 * second) (5 * second) defaultHealthMatch
    (Some (set_targets (NewSlowStartManager second) {[go!"http://a" := mkSlow 10 0 1000]})).

Lemma checkAll_marks_witness :
  let '(_, h') := checkAll 5 (λ p, if decide (p = 0%nat) then Some (200, [], []) else None)
                    [1; 0]%nat (ex_checker, ex_store) in
  (0%nat ∈ hc_targets ex_checker → Healthy (deref h' 0%nat) = true) ∧
  (0%nat ∉ hc_targets ex_checker → deref h' 0%nat = deref ex_store 0%nat).
Proof.
  refine (checkAll_marks 5 (λ p, if decide (p = 0%nat) then Some (200, [], []) else None)
           ex_checker ex_store [1; 0]%nat 0%nat _ _ _).
  - apply Permutation_swap.
  - by apply (bool_decide_unpack _).
  - by eexists.
Defined.

Lemma slow_start_tick_witness :
  let '(c', h') := tick 500 [(go!"http://a", mkSlow 10 0 1000)] ex_checker ex_store in
  EffectiveWeight (deref h' 0%nat) = 5 ∧ (1 ≤ 10 → 1 ≤ EffectiveWeight (deref h' 0%nat) ≤ 10) ∧
  (∀ m', slowStartManager c' = Some m' → ss_targets m' !! (go!"http://a") = Some (mkSlow 10 0 1000)).
Proof.
  refine (slow_start_tick 500 [(go!"http://a", mkSlow 10 0 1000)] ex_checker
    (set_targets (NewSlowStartManager second) {[go!"http://a" := mkSlow 10 0 1000]}) ex_store 0%nat _ _ _ _);
    [reflexivity | reflexivity | by eexists | reflexivity].
Defined.

Lemma slow_start_inert_witness :
  let c := mkChecker (go!"/health") [0]%nat (10 * second) (5 * second) defaultHealthMatch
             (Some (NewSlowStartManager 30)) in
  let h : heap := {[0%nat := NewTargetFromConfig (go!"a") (go!"http://a") 10 0 1 0 false false []]} in
  let h' := (foldl check_step (c, h) [EUnhealthy 1 0%nat; EHealthy 2 0%nat; ETick 3]).2 in
  GetEffectiveWeight (deref h' 0%nat) = Weight (deref h' 0%nat).
Proof.
  apply (slow_start_inert _ _ (Some (mkCheckConfig 0 0 [] None 30)) [0%nat]); [reflexivity|].
  intros q t [<- <-]%lookup_singleton_Some. by eexists _, _, _, _, _, _, _, _, _.
Defined.

Lemma header_match_never_witness :
  HealthMatch_Match (custom (mkCustom [mkRange 200 299] None [(go!"content-type", go!"text/plain")]))
    200 [] (foldl (λ m kv, <[kv.1 := kv.2]> m) ∅ [(go!"Content-Type", go!"text/plain")]) = false.
Proof.
  apply (header_match_never (mkMatchConfig [go!"200-299"] [] [(go!"Content-Type", go!"text/plain")]));
    [reflexivity | discriminate |].
  intros kv ->%list_elem_of_singleton. reflexivity.
Defined.

Lemma parseStatusRange_text_witness :
  parseStatusRange (FormatInt 200) = Some (mkRange 200 200) ∧
  parseStatusRange (FormatInt 200 ++ go!"-" ++ FormatInt 299) = Some (mkRange 200 299).
Proof. apply (parseStatusRange_text 200 299); vm_compute; intuition discriminate. Defined.
