(* ===== verification/SharedDict.v ===== *)
(** * SharedDict: the shared dictionary of [src/internal/lua/shared_dict.go]

    A bounded key-value store with a time to live per entry and eviction of the
    least recently used one: a map from keys to entries and a doubly linked list
    of keys, each entry holding its node of the list.  Nodes have an identity
    here, and the file shows that map and list always describe each other, that
    a dictionary large enough for the keys in use is an unbounded map with expiry for
    every sequence of operations, and what
    eviction takes away otherwise. *)

From S2P Require Import Prelude GoStrings LinkedList.

(** Nodes of the list: an identity and the key pushed with it. *)
Abbreviation node := (nat * gostring)%type.

(** ** The dictionary *)

(** [expiredAt]: [None] is the zero time. *)
Record sharedDictEntry := mkEntry {
  expiredAt : option Z; element : nat; e_key : gostring; e_value : gostring }.

Record SharedDict := mkDict {
  data : gmap gostring sharedDictEntry;
  lruList : list node;
  next_node : nat;
  dict_name : gostring;
  maxItems : Z
}.

Definition NewSharedDict (name : gostring) (maxItems : Z) : SharedDict :=
  mkDict ∅ [] 0 name maxItems.

Definition with_store (d : SharedDict) (m : gmap gostring sharedDictEntry) (l : list node) :=
  mkDict m l (next_node d) (dict_name d) (maxItems d).

Definition Len (d : SharedDict) : Z := Z.of_nat (size (data d)).

(** [!expiredAt.IsZero() && now.After(expiredAt)] *)
Definition is_expired (now : Z) (e : option Z) : bool :=
  match e with Some t => time_after now t | None => false end.

(** [time.Now().Add(ttl)] if [ttl > 0], the zero time otherwise. *)
Definition expiry (now ttl : Z) : option Z := if 0 <? ttl then Some (now + ttl) else None.

Definition deleteEntry (d : SharedDict) (e : sharedDictEntry) : SharedDict :=
  with_store d (delete (e_key e) (data d)) (Remove (lruList d) (element e)).

(** The loop over the back of the list, and [count]; every iteration removes a
    node, so the length of the list is enough fuel. *)
Fixpoint expired_loop (fuel : nat) (now : Z) (d : SharedDict) (count : Z) : SharedDict * Z :=
  match fuel with
  | O => (d, count)
  | S fuel' =>
      match last (lruList d) with
      | None => (d, count)
      | Some (id, key) =>
          match data d !! key with
          | None => expired_loop fuel' now (with_store d (data d) (Remove (lruList d) id)) count
          | Some e =>
              if is_expired now (expiredAt e)
              then expired_loop fuel' now (deleteEntry d e) (count + 1)
              else (d, count)
          end
      end
  end.

Definition evictExpired (now : Z) (d : SharedDict) : SharedDict * Z :=
  expired_loop (length (lruList d)) now d 0.

Fixpoint evict_loop (fuel : nat) (d : SharedDict) : SharedDict * bool :=
  match fuel with
  | O => (d, false)
  | S fuel' =>
      match last (lruList d) with
      | None => (d, false)
      | Some (id, key) =>
          match data d !! key with
          | Some e => (deleteEntry d e, true)
          | None => evict_loop fuel' (with_store d (data d) (Remove (lruList d) id))
          end
      end
  end.

Definition evictLRU (d : SharedDict) : SharedDict * bool := evict_loop (length (lruList d)) d.

(** The check of the capacity before a new entry: [false] if there is no room. *)
Definition make_room (now : Z) (d : SharedDict) : SharedDict * bool :=
  if maxItems d <=? Len d then
    let d := (evictExpired now d).1 in
    if maxItems d <=? Len d then evictLRU d else (d, true)
  else (d, true).

(** [PushFront(key)] and the new entry that holds the node. *)
Definition push_entry (d : SharedDict) (key value : gostring) (exp : option Z) : SharedDict :=
  mkDict (<[key := mkEntry exp (next_node d) key value]> (data d))
    ((next_node d, key) :: lruList d) (S (next_node d)) (dict_name d) (maxItems d).

(** Fields of an entry the map points to. *)
Definition set_entry (d : SharedDict) (key value : gostring) (exp : option Z) : SharedDict :=
  with_store d (alter (λ e, mkEntry exp (element e) (e_key e) value) key (data d)) (lruList d).

Definition touch (d : SharedDict) (e : sharedDictEntry) : SharedDict :=
  with_store d (data d) (MoveToFront (lruList d) (element e)).

Definition Get (now : Z) (d : SharedDict) (key : gostring) : (gostring * bool) * SharedDict :=
  match data d !! key with
  | None => (([], false), d)
  | Some e =>
      if is_expired now (expiredAt e) then (([], true), deleteEntry d e)
      else ((e_value e, false), touch d e)
  end.

Definition Set_ (now : Z) (d : SharedDict) (key value : gostring) (ttl : Z) : bool * SharedDict :=
  match data d !! key with
  | Some e => (true, touch (set_entry d key value (expiry now ttl)) e)
  | None =>
      let '(d, ok) := make_room now d in
      if ok then (true, push_entry d key value (expiry now ttl)) else (false, d)
  end.

Definition Add (now : Z) (d : SharedDict) (key value : gostring) (ttl : Z) : bool * SharedDict :=
  match data d !! key with
  | Some _ => (false, d)
  | None =>
      let '(d, ok) := make_room now d in
      if ok then (true, push_entry d key value (expiry now ttl)) else (false, d)
  end.

(** The digits of [intToStr], least significant first; [fuel] bounds their number. *)
Fixpoint int_digits (fuel : nat) (n : Z) : gostring :=
  match fuel with
  | O => []
  | S f => if 0 <? n then digit_char (n mod 10) :: int_digits f (n / 10) else []
  end.

Definition intToStr (n : Z) : gostring :=
  if n =? 0 then go!"0"
  else
    let negative := n <? 0 in
    let n := if negative then swrap64 (- n) else n in
    let buf := int_digits 20 n in
    reverse (if negative then buf ++ go!"-" else buf).

(** The loop over the characters of the value; [None] is the error. *)
Fixpoint parse_loop (s : gostring) (current : Z) : option Z :=
  match s with
  | [] => Some current
  | c :: s' =>
      if is_digit c then parse_loop s' (swrap64 (swrap64 (current * 10) + digit_val c)) else None
  end.

(** The new value, or the error "not a number". *)
Definition Incr (now : Z) (d : SharedDict) (key : gostring) (increment : Z)
  : option Z * SharedDict :=
  let add d e :=
    match parse_loop (e_value e) 0 with
    | None => (None, d)
    | Some current =>
        let newValue := swrap64 (current + increment) in
        (Some newValue, touch (set_entry d key (intToStr newValue) (expiredAt e)) e)
    end in
  match data d !! key with
  | Some e => add d e
  | None =>
      let '(d, ok) := make_room now d in
      if ok then
        let d := push_entry d key (go!"0") None in
        add d (mkEntry None (pred (next_node d)) key (go!"0"))
      else (Some 0, d)
  end.

Definition Delete (d : SharedDict) (key : gostring) : SharedDict :=
  match data d !! key with Some e => deleteEntry d e | None => d end.

(** [list.New()] makes a list with none of the old nodes. *)
Definition FlushAll (d : SharedDict) : SharedDict := with_store d ∅ [].

Definition FlushExpired (now : Z) (d : SharedDict) : Z * SharedDict :=
  let '(d', n) := evictExpired now d in (n, d').

Definition Size (d : SharedDict) : Z := Len d.
Definition FreeSlots (d : SharedDict) : Z := maxItems d - Len d.

(** ** The invariant *)

(** Map and list describe each other: each key has one node, held by its entry. *)
Record wf (d : SharedDict) : Prop := {
  wf_nodes : NoDup (lruList d).*1;
  wf_keys : NoDup (lruList d).*2;
  wf_next : ∀ id k, (id, k) ∈ lruList d → (id < next_node d)%nat;
  wf_list id k : (id, k) ∈ lruList d ↔ ∃ e, data d !! k = Some e ∧ element e = id;
  wf_entry k e : data d !! k = Some e → e_key e = k
}.

(** The key and the node of an entry determine each other. *)
Lemma wf_same d k e id k' :
  wf d → data d !! k = Some e → (id, k') ∈ lruList d → id = element e ↔ k' = k.
Proof.
  intros Hwf Hk Hin. assert ((element e, k) ∈ lruList d) as Hin' by (apply (wf_list d Hwf); eauto).
  split.
  - intros ->. by eapply NoDup_fst_inj; [apply (wf_nodes d Hwf)|..].
  - intros ->. apply (wf_list d Hwf) in Hin as (e' & ? & <-). congruence.
Qed.

Lemma wf_New name n : wf (NewSharedDict name n).
Proof.
  split; simpl; [constructor|constructor|by intros ?? ?%elem_of_nil| |by intros ?? ?%lookup_empty_Some].
  intros id k. rewrite elem_of_nil. split; [done|]. by intros (e & ?%lookup_empty_Some & _).
Qed.

Lemma wf_deleteEntry d k e : wf d → data d !! k = Some e → wf (deleteEntry d e).
Proof.
  intros Hwf Hk. pose proof (wf_entry d Hwf k e Hk) as He. unfold deleteEntry. rewrite He.
  split; simpl.
  - apply NoDup_Remove, (wf_nodes d Hwf).
  - apply NoDup_Remove, (wf_keys d Hwf).
  - intros id k' [? _]%elem_of_Remove. by eapply (wf_next d Hwf).
  - intros id k'. rewrite elem_of_Remove. simpl. setoid_rewrite lookup_delete_Some. split.
    + intros [Hin Hne]. pose proof Hin as (e' & ? & ?)%(wf_list d Hwf). exists e'.
      split_and!; [|done|done]. intros Heq. by apply Hne, (wf_same d k e id k').
    + intros (e' & [Hne Hk'] & <-). assert ((element e', k') ∈ lruList d) as Hin
        by (apply (wf_list d Hwf); eauto).
      split; [done|]. intros Heq. apply Hne. symmetry. by eapply (wf_same d k e).
  - intros k' e' [_ ?]%lookup_delete_Some. by apply (wf_entry d Hwf).
Qed.

Lemma wf_touch d e : wf d → wf (touch d e).
Proof.
  intros Hwf. pose proof (MoveToFront_perm (lruList d) (element e) (wf_nodes d Hwf)) as Hp.
  split; simpl.
  - rewrite Hp. apply (wf_nodes d Hwf).
  - rewrite Hp. apply (wf_keys d Hwf).
  - intros id k. rewrite Hp. apply (wf_next d Hwf).
  - intros id k. rewrite Hp. apply (wf_list d Hwf).
  - apply (wf_entry d Hwf).
Qed.

Lemma wf_set_entry d k v exp : wf d → wf (set_entry d k v exp).
Proof.
  intros Hwf. split; simpl; [apply Hwf..| |].
  - intros id k'. rewrite (wf_list d Hwf). split.
    + intros (e & He & <-). destruct (decide (k' = k)) as [->|].
      * eexists. split; [rewrite lookup_alter_eq, He; done|done].
      * exists e. by rewrite lookup_alter_ne.
    + intros (e & He & <-). apply lookup_alter_Some in He as [(-> & e' & ? & ->)|[_ ?]]; eauto.
  - intros k' e He. apply lookup_alter_Some in He as [(-> & e' & ? & ->)|[_ ?]]; simpl;
      by apply (wf_entry d Hwf).
Qed.

Lemma wf_push d k v exp : wf d → data d !! k = None → wf (push_entry d k v exp).
Proof.
  intros Hwf Hk. split; simpl.
  - apply NoDup_cons. split; [|apply Hwf]. intros ([id k'] & Hid & Hin)%list_elem_of_fmap.
    simpl in Hid. apply (wf_next d Hwf) in Hin. lia.
  - apply NoDup_cons. split; [|apply Hwf]. intros ([id k'] & Hid & Hin)%list_elem_of_fmap.
    simpl in Hid. subst k'. apply (wf_list d Hwf) in Hin as (e & ? & _). congruence.
  - intros id k' [[= -> ->]|Hin]%elem_of_cons; [lia|]. apply (wf_next d Hwf) in Hin. lia.
  - intros id k'. rewrite elem_of_cons, (wf_list d Hwf). destruct (decide (k' = k)) as [->|Hne].
    + rewrite lookup_insert_eq. split.
      * intros [[= ->]|(e & ? & _)]; [eauto|congruence].
      * intros (e & [= <-] & <-). by left.
    + rewrite lookup_insert_ne by done. split; [|by right]. intros [[= _ ->]|?]; done.
  - intros k' e He. apply lookup_insert_Some in He as [[<- <-]|[_ ?]]; [done|by apply (wf_entry d Hwf)].
Qed.

(** The list has a node per entry. *)
Lemma wf_length d : wf d → Len d = zlen (lruList d).
Proof.
  intros Hwf. unfold Len. f_equal. rewrite <- length_map_to_list, <- (length_fmap fst).
  rewrite <- (length_fmap snd (lruList d)). apply Permutation_length, NoDup_Permutation.
  - apply NoDup_fst_map_to_list.
  - apply (wf_keys d Hwf).
  - intros k. rewrite !list_elem_of_fmap. split.
    + intros ([k' e] & -> & Hin%elem_of_map_to_list). exists (element e, k'). split; [done|].
      apply (wf_list d Hwf). eauto.
    + intros ([id k'] & -> & (e & He & _)%(wf_list d Hwf)). exists (k', e). split; [done|].
      by apply elem_of_map_to_list.
Qed.

(** ** Eviction *)

(** What eviction keeps: a prefix of the list, and the entries of its keys. *)
Record evicted (d d' : SharedDict) (gone : list node) : Prop := {
  ev_wf : wf d';
  ev_list : lruList d = lruList d' ++ gone;
  ev_data k : data d' !! k = if decide (k ∈ gone.*2) then None else data d !! k;
  ev_max : maxItems d' = maxItems d;
  ev_name : dict_name d' = dict_name d
}.

Lemma evicted_refl d : wf d → evicted d d [].
Proof. split; [done|by rewrite app_nil_r|by intros k; rewrite decide_False by apply not_elem_of_nil|done|done]. Qed.

Lemma evicted_trans d d1 d2 g1 g2 : evicted d d1 g1 → evicted d1 d2 g2 → evicted d d2 (g2 ++ g1).
Proof.
  intros [_ Hl1 Hd1 Hm1 Hn1] [Hw2 Hl2 Hd2 Hm2 Hn2]. split; [done| | |congruence|congruence].
  - by rewrite Hl1, Hl2, app_assoc.
  - intros k. rewrite Hd2, Hd1. rewrite fmap_app.
    repeat case_decide; set_solver.
Qed.

(** Deleting the entry of the last node takes that node off the list. *)
Lemma evicted_last d l id k e :
  wf d → lruList d = l ++ [(id, k)] → data d !! k = Some e → evicted d (deleteEntry d e) [(id, k)].
Proof.
  intros Hwf Hl Hk. pose proof (wf_entry d Hwf k e Hk) as He.
  assert (element e = id) as Hid.
  { symmetry. apply (wf_same d k e id k Hwf Hk); [|done]. rewrite Hl. set_solver. }
  split; [by eapply wf_deleteEntry| | |done|done].
  - simpl. rewrite Hid, Hl. f_equal. unfold Remove. rewrite filter_app, filter_all.
    + rewrite filter_cons_False by auto. by rewrite app_nil_r.
    + intros n Hn Heq. pose proof (wf_nodes d Hwf) as Hnd. rewrite Hl, fmap_app in Hnd.
      apply NoDup_app in Hnd as (_ & Hd & _). apply (Hd n.1); [by apply list_elem_of_fmap_2|].
      rewrite Heq. by left.
  - intros k'. simpl. rewrite He. case_decide as Hd.
    + apply list_elem_of_singleton in Hd as ->. apply lookup_delete_eq.
    + apply lookup_delete_ne. set_solver.
Qed.

Lemma wf_last d l id k : wf d → lruList d = l ++ [(id, k)] → ∃ e, data d !! k = Some e.
Proof.
  intros Hwf Hl. assert ((id, k) ∈ lruList d) as Hin by (rewrite Hl; set_solver).
  apply (wf_list d Hwf) in Hin as (e & ? & _). eauto.
Qed.

Definition expired_at (now : Z) (d : SharedDict) (k : gostring) : bool :=
  match data d !! k with Some e => is_expired now (expiredAt e) | None => false end.

(** The loop takes the longest expired tail of the list, and counts it. *)
Lemma expired_loop_spec fuel now d c :
  wf d → (length (lruList d) ≤ fuel)%nat →
  ∃ gone, evicted d (expired_loop fuel now d c).1 gone ∧
    (expired_loop fuel now d c).2 = c + zlen gone ∧
    (∀ n, n ∈ gone → expired_at now d n.2 = true) ∧
    (∀ n, last (lruList (expired_loop fuel now d c).1) = Some n → expired_at now d n.2 = false).
Proof.
  revert d c. induction fuel as [|fuel IH]; intros d c Hwf Hlen.
  { exists []. destruct (lruList d) eqn:E; [|simpl in Hlen; lia]. cbn [expired_loop fst snd].
    split_and!; [by apply evicted_refl|simpl; lia|by intros ??%elem_of_nil|by rewrite E]. }
  cbn [expired_loop]. destruct (last (lruList d)) as [[id k]|] eqn:El.
  2: { exists []. cbn [fst snd]. split_and!; [by apply evicted_refl|simpl; lia|by intros ??%elem_of_nil|].
       by rewrite El. }
  apply last_Some in El as [l Hl]. destruct (wf_last d l id k Hwf Hl) as [e He]. rewrite He.
  destruct (is_expired now (expiredAt e)) eqn:Hx.
  - pose proof (evicted_last d l id k e Hwf Hl He) as Hev.
    assert (lruList (deleteEntry d e) = l) as Hl1.
    { pose proof (ev_list _ _ _ Hev) as Hl'. rewrite Hl in Hl'. by apply app_inj_tail in Hl' as [-> _]. }
    destruct (IH (deleteEntry d e) (c + 1)) as (gone & Hg & Hc & Hexp & Hlast).
    { apply Hev. } { rewrite Hl1. rewrite Hl, length_app in Hlen. simpl in Hlen. lia. }
    assert (∀ k', k' ≠ k → expired_at now (deleteEntry d e) k' = expired_at now d k') as Hsame.
    { intros k' Hne. unfold expired_at. rewrite (ev_data _ _ _ Hev), decide_False; [done|]. set_solver. }
    assert (∀ n, n ∈ l → n.2 ≠ k) as Hne.
    { intros n Hn Heq. pose proof (wf_keys d Hwf) as Hnd. rewrite Hl, fmap_app in Hnd.
      apply NoDup_app in Hnd as (_ & Hd & _). apply (Hd n.2); [by apply list_elem_of_fmap_2|].
      rewrite Heq. by left. }
    pose proof (ev_list _ _ _ Hg) as Hlg. rewrite Hl1 in Hlg.
    exists (gone ++ [(id, k)]). split_and!.
    + by eapply evicted_trans.
    + rewrite Hc, length_app. simpl. lia.
    + intros n [Hn| ->%list_elem_of_singleton]%elem_of_app.
      * rewrite <- Hsame; [by apply Hexp|]. apply Hne. rewrite Hlg. set_solver.
      * unfold expired_at. simpl. by rewrite He.
    + intros n Hn. rewrite <- Hsame; [by apply Hlast|]. apply Hne. rewrite Hlg.
      apply last_Some_elem_of in Hn. set_solver.
  - exists []. cbn [fst snd]. split_and!; [by apply evicted_refl|simpl; lia|by intros ??%elem_of_nil|].
    intros n. rewrite Hl, last_snoc. intros [= <-]. unfold expired_at. simpl. by rewrite He.
Qed.

Lemma evictLRU_spec d :
  wf d →
  match last (lruList d) with
  | Some n => (evictLRU d).2 = true ∧ evicted d (evictLRU d).1 [n]
  | None => evictLRU d = (d, false)
  end.
Proof.
  intros Hwf. unfold evictLRU. destruct (last (lruList d)) as [[id k]|] eqn:El.
  - apply last_Some in El as [l Hl]. destruct (wf_last d l id k Hwf Hl) as [e He].
    rewrite Hl, length_app, Nat.add_comm. cbn [length Nat.add evict_loop]. rewrite Hl, last_snoc, He.
    split; [done|]. by eapply evicted_last.
  - apply last_None in El. by rewrite El.
Qed.

(** The invariant of a dictionary in use. *)
Record good (d : SharedDict) : Prop := {
  good_wf :> wf d;
  good_size : Len d ≤ Z.max 0 (maxItems d)
}.

Lemma evicted_len d d' gone : wf d → evicted d d' gone → Len d = Len d' + zlen gone.
Proof.
  intros Hwf Hev. rewrite (wf_length d Hwf), (wf_length d' (ev_wf _ _ _ Hev)), (ev_list _ _ _ Hev), length_app.
  lia.
Qed.

(** Making room takes nothing while there is room; otherwise the expired tail
    of the list, and if there is none, the least recently used entry.  It fails
    only for a dictionary that can hold nothing. *)
Lemma make_room_spec now d :
  good d →
  ∃ gone, evicted d (make_room now d).1 gone ∧
    (make_room now d).2 = (0 <? maxItems d) ∧
    (0 < maxItems d → Len (make_room now d).1 < maxItems d) ∧
    (Len d < maxItems d → gone = []) ∧
    (gone = [] ∨ (∀ n, n ∈ gone → expired_at now d n.2 = true) ∨
     (∃ n, gone = [n] ∧ last (lruList d) = Some n ∧ expired_at now d n.2 = false)).
Proof.
  intros [Hwf Hsz]. unfold make_room. assert (0 ≤ Len d) by (unfold Len; lia).
  destruct (Z.leb_spec (maxItems d) (Len d)) as [Hfull|Hroom].
  2: { exists []. cbn [fst snd]. split_and!; [by apply evicted_refl| |done|done|by left].
       symmetry. apply Z.ltb_lt. lia. }
  destruct (expired_loop_spec (length (lruList d)) now d 0 Hwf) as (gone & Hev & _ & Hexp & Hlast); [lia|].
  fold (evictExpired now d) in *. set (d1 := (evictExpired now d).1) in *. clearbody d1. cbv zeta.
  pose proof (evicted_len _ _ _ Hwf Hev) as Hlen. pose proof (ev_max _ _ _ Hev) as Hmax.
  pose proof (ev_wf _ _ _ Hev) as Hwf1.
  destruct (Z.leb_spec (maxItems d1) (Len d1)) as [Hfull1|Hroom1].
  2: { exists gone. cbn [fst snd]. split_and!; [done| |lia|lia|by right; left].
       symmetry. apply Z.ltb_lt. unfold Len in *. lia. }
  pose proof (evictLRU_spec d1 Hwf1) as Hlru. destruct (last (lruList d1)) as [n|] eqn:El.
  - destruct Hlru as [Hok Hev1]. pose proof (evicted_len _ _ _ Hwf1 Hev1) as Hlen1. simpl in Hlen1.
    assert (0 ≤ Len d1) by (unfold Len; lia).
    assert (gone = []) as -> by (destruct gone; [done|cbn [length] in *; lia]).
    exists [n]. pose proof (ev_list _ _ _ Hev) as Hl. rewrite app_nil_r in Hl.
    split_and!; [by apply (evicted_trans d d1 (evictLRU d1).1 [] [n])| | lia | lia |].
    + rewrite Hok. symmetry. apply Z.ltb_lt. unfold Len in *. lia.
    + right; right. exists n. rewrite Hl. split_and!; [done|done|]. by apply Hlast.
  - rewrite Hlru. exists gone. cbn [fst snd]. apply last_None in El.
    rewrite (wf_length d1 Hwf1), El in *. simpl in *.
    split_and!; [done| |lia|lia|by right; left]. symmetry. apply Z.ltb_ge. lia.
Qed.

(** Under the invariant, the keys of an evicted tail are no longer there, and
    the entries that stay are the ones there were. *)
Lemma evicted_new_key d d' gone k : evicted d d' gone → data d !! k = None → data d' !! k = None.
Proof. intros Hev Hk. rewrite (ev_data _ _ _ Hev). by case_decide. Qed.

Lemma Len_push d k v exp : data d !! k = None → Len (push_entry d k v exp) = Len d + 1.
Proof. intros Hk. unfold Len. simpl. rewrite map_size_insert_None by done. lia. Qed.

Lemma good_push d k v exp : wf d → data d !! k = None → Len d < maxItems d → good (push_entry d k v exp).
Proof. intros Hwf Hk Hl. split; [by apply wf_push|]. rewrite Len_push by done. simpl. lia. Qed.

Lemma good_evicted d d' gone : good d → evicted d d' gone → good d'.
Proof.
  intros [Hwf Hsz] Hev. split; [apply Hev|]. rewrite (ev_max _ _ _ Hev).
  pose proof (evicted_len _ _ _ Hwf Hev). lia.
Qed.

Lemma good_deleteEntry d k e : good d → data d !! k = Some e → good (deleteEntry d e).
Proof.
  intros [Hwf Hsz] Hk. split; [by eapply wf_deleteEntry|]. unfold Len in *. simpl.
  rewrite (wf_entry d Hwf k e Hk). rewrite map_size_delete, Hk. simpl. lia.
Qed.

Lemma good_touch d e : good d → good (touch d e).
Proof. intros [Hwf Hsz]. split; [by apply wf_touch|done]. Qed.

Lemma good_set_entry d k v exp : good d → good (set_entry d k v exp).
Proof.
  intros [Hwf Hsz]. split; [by apply wf_set_entry|]. unfold Len in *. simpl.
  by rewrite <- size_dom, dom_alter_L, size_dom.
Qed.

(** A new key: the dictionary after making room, and after the insertion. *)
Lemma good_insert now d k v exp :
  good d → data d !! k = None →
  let '(d', ok) := make_room now d in
  good (if ok then push_entry d' k v exp else d').
Proof.
  intros Hg Hk. destruct (make_room_spec now d Hg) as (gone & Hev & Hok & Hlt & _).
  destruct (make_room now d) as [d' ok]. cbn [fst snd] in *.
  destruct ok; [|by eapply good_evicted]. symmetry in Hok. apply Z.ltb_lt in Hok.
  apply good_push; [apply Hev|by eapply evicted_new_key|]. rewrite (ev_max _ _ _ Hev). by apply Hlt.
Qed.

(** ** Operations as requests *)

Inductive op :=
  | OGet (key : gostring)
  | OSet (key value : gostring) (ttl : Z)
  | OAdd (key value : gostring) (ttl : Z)
  | OIncr (key : gostring) (increment : Z)
  | ODelete (key : gostring)
  | OFlushAll
  | OFlushExpired.

Inductive answer :=
  | AValue (value : gostring) (expired : bool)
  | ADone (ok : bool)
  | ANumber (n : option Z)
  | ACount (n : Z).

Definition run (now : Z) (o : op) (d : SharedDict) : answer * SharedDict :=
  match o with
  | OGet k => let '((v, x), d') := Get now d k in (AValue v x, d')
  | OSet k v ttl => let '(b, d') := Set_ now d k v ttl in (ADone b, d')
  | OAdd k v ttl => let '(b, d') := Add now d k v ttl in (ADone b, d')
  | OIncr k n => let '(r, d') := Incr now d k n in (ANumber r, d')
  | ODelete k => (ADone true, Delete d k)
  | OFlushAll => (ADone true, FlushAll d)
  | OFlushExpired => let '(n, d') := FlushExpired now d in (ACount n, d')
  end.

Fixpoint runs (d : SharedDict) (l : list (Z * op)) : list answer * SharedDict :=
  match l with
  | [] => ([], d)
  | (now, o) :: l' =>
      let '(a, d) := run now o d in
      let '(rest, d) := runs d l' in
      (a :: rest, d)
  end.

Lemma good_run now o d : good d → good (run now o d).2.
Proof.
  intros Hg. destruct o as [k|k v ttl|k v ttl|k n|k| |]; simpl.
  - unfold Get. destruct (data d !! k) as [e|] eqn:Hk; [|done].
    destruct (is_expired _ _); [by eapply good_deleteEntry|by apply good_touch].
  - unfold Set_. destruct (data d !! k) as [e|] eqn:Hk.
    + by apply good_touch, good_set_entry.
    + pose proof (good_insert now d k v (expiry now ttl) Hg Hk) as Hi.
      destruct (make_room now d) as [d' []]; done.
  - unfold Add. destruct (data d !! k) as [e|] eqn:Hk; [done|].
    pose proof (good_insert now d k v (expiry now ttl) Hg Hk) as Hi.
    destruct (make_room now d) as [d' []]; done.
  - unfold Incr. destruct (data d !! k) as [e|] eqn:Hk.
    + destruct (parse_loop _ _); [|done]. by apply good_touch, good_set_entry.
    + pose proof (good_insert now d k (go!"0") None Hg Hk) as Hi.
      destruct (make_room now d) as [d' []]; [|done].
      destruct (parse_loop _ _); [|done]. by apply good_touch, good_set_entry.
  - unfold Delete. destruct (data d !! k) as [e|] eqn:Hk; [|done]. by eapply good_deleteEntry.
  - destruct Hg as [Hwf _]. split; [|unfold Len; cbn; rewrite map_size_empty; lia].
    split; simpl; [constructor|constructor|by intros ?? ?%elem_of_nil| |by intros ?? ?%lookup_empty_Some].
    intros id k. rewrite elem_of_nil. split; [done|]. by intros (e & ?%lookup_empty_Some & _).
  - unfold FlushExpired, evictExpired.
    destruct (expired_loop_spec (length (lruList d)) now d 0) as (gone & Hev & _); [apply Hg|lia|].
    destruct (expired_loop _ _ _ _) as [d' c]. by eapply good_evicted.
Qed.

Lemma maxItems_run now o d : good d → maxItems (run now o d).2 = maxItems d.
Proof.
  intros Hg. pose proof (make_room_spec now d Hg) as (gone & Hev & _). apply ev_max in Hev.
  destruct o as [k|k v ttl|k v ttl|k n|k| |]; simpl.
  - unfold Get. destruct (data d !! k); [|done]. by destruct (is_expired _ _).
  - unfold Set_. destruct (data d !! k); [done|]. by destruct (make_room now d) as [d' []].
  - unfold Add. destruct (data d !! k); [done|]. by destruct (make_room now d) as [d' []].
  - unfold Incr. destruct (data d !! k); [by destruct (parse_loop _ _)|].
    by destruct (make_room now d) as [d' []].
  - unfold Delete. by destruct (data d !! k).
  - done.
  - unfold FlushExpired, evictExpired.
    destruct (expired_loop_spec (length (lruList d)) now d 0) as (g & Hev' & _); [apply Hg|lia|].
    apply ev_max in Hev'. by destruct (expired_loop _ _ _ _).
Qed.

Lemma good_New name n : good (NewSharedDict name n).
Proof. split; [apply wf_New|]. unfold Len. simpl. rewrite map_size_empty. lia. Qed.

Lemma good_runs d l : good d → good (runs d l).2 ∧ maxItems (runs d l).2 = maxItems d.
Proof.
  revert d. induction l as [|[now o] l IH]; intros d Hg; [done|]. simpl.
  pose proof (good_run now o d Hg) as Hg1. pose proof (maxItems_run now o d Hg) as Hm.
  destruct (run now o d) as [a d1]. destruct (IH d1 Hg1) as [Hg2 Hm2].
  destruct (runs d1 l) as [rest d2]. simpl in *. split; [done|congruence].
Qed.

(** ** The unbounded map

    What the interface promises when there is always room.  A number is a text of
    decimal digits, read modulo 2^64; it is written as [strconv] writes it, but for the
    smallest, which is written as its sign alone. *)

Abbreviation spec_map := (gmap gostring (gostring * option Z)).

Definition view (d : SharedDict) : spec_map := (λ e, (e_value e, expiredAt e)) <$> data d.

Definition number (v : gostring) : option Z :=
  if forallb is_digit v then Some (swrap64 (digits_val v)) else None.

Definition numeral (n : Z) : gostring := if decide (n = int64_min) then go!"-" else FormatInt n.

Definition stale (now : Z) (m : spec_map) (k : gostring) : Prop :=
  ∃ v x, m !! k = Some (v, x) ∧ is_expired now x = true.

(** An operation has one answer and one effect, but for [FlushExpired], which may take
    any expired entries and counts those it takes. *)
Definition promised (now : Z) (o : op) (m : spec_map) (r : answer * spec_map) : Prop :=
  match o with
  | OGet k =>
      r = match m !! k with
          | None => (AValue [] false, m)
          | Some (v, x) => if is_expired now x then (AValue [] true, delete k m) else (AValue v false, m)
          end
  | OSet k v ttl => r = (ADone true, <[k := (v, expiry now ttl)]> m)
  | OAdd k v ttl =>
      r = match m !! k with
          | Some _ => (ADone false, m)
          | None => (ADone true, <[k := (v, expiry now ttl)]> m)
          end
  | OIncr k n =>
      let '(v, x) := default (go!"0", None) (m !! k) in
      r = match number v with
          | None => (ANumber None, m)
          | Some c => (ANumber (Some (swrap64 (c + n))), <[k := (numeral (swrap64 (c + n)), x)]> m)
          end
  | ODelete k => r = (ADone true, delete k m)
  | OFlushAll => r = (ADone true, ∅)
  | OFlushExpired =>
      ∃ gone : gset gostring, (∀ k, k ∈ gone → stale now m k) ∧
        r.1 = ACount (Z.of_nat (size gone)) ∧ ∀ k, r.2 !! k = if decide (k ∈ gone) then None else m !! k
  end.

Inductive promises : spec_map → list (Z * op) → list answer → spec_map → Prop :=
  | promises_nil m : promises m [] [] m
  | promises_cons m now o a m1 l rest m2 :
      promised now o m (a, m1) → promises m1 l rest m2 → promises m ((now, o) :: l) (a :: rest) m2.

Definition op_keys (o : op) : gset gostring :=
  match o with
  | OGet k | OSet k _ _ | OAdd k _ _ | OIncr k _ | ODelete k => {[k]}
  | OFlushAll | OFlushExpired => ∅
  end.

Lemma view_lookup d k : view d !! k = (λ e, (e_value e, expiredAt e)) <$> data d !! k.
Proof. apply lookup_fmap. Qed.

Lemma view_deleteEntry d k e : wf d → data d !! k = Some e → view (deleteEntry d e) = delete k (view d).
Proof. intros Hwf Hk. unfold view. simpl. by rewrite (wf_entry d Hwf k e Hk), fmap_delete. Qed.

Lemma view_set_entry d k e v x :
  data d !! k = Some e → view (touch (set_entry d k v x) e) = <[k := (v, x)]> (view d).
Proof.
  intros Hk. apply map_eq. intros k'. unfold view. simpl. rewrite lookup_fmap.
  destruct (decide (k = k')) as [<-|Hne].
  - by rewrite lookup_alter_eq, Hk, lookup_insert_eq.
  - by rewrite lookup_alter_ne, lookup_insert_ne, lookup_fmap.
Qed.

Lemma view_push d k v x : view (push_entry d k v x) = <[k := (v, x)]> (view d).
Proof. unfold view. simpl. by rewrite fmap_insert. Qed.

(** ** Numbers *)

Lemma parse_loop_snoc s c a :
  parse_loop (s ++ [c]) a =
    match parse_loop s a with
    | Some x => if is_digit c then Some (swrap64 (swrap64 (x * 10) + digit_val c)) else None
    | None => None
    end.
Proof.
  revert a. induction s as [|d s IH]; intros a; simpl; [by destruct (is_digit c)|].
  destruct (is_digit d); [apply IH|done].
Qed.

Lemma parse_int_digits fuel n :
  0 ≤ n < 10 ^ Z.of_nat fuel → n ≤ int64_max →
  parse_loop (reverse (int_digits fuel n)) 0 = Some n.
Proof.
  revert n. induction fuel as [|f IH]; intros n Hn Hmax.
  { simpl in Hn. by assert (n = 0) as -> by lia. }
  cbn [int_digits]. destruct (Z.ltb_spec 0 n) as [Hpos|Hz].
  2: { by assert (n = 0) as -> by lia. }
  rewrite reverse_cons, parse_loop_snoc. unfold int64_max in Hmax.
  assert (0 ≤ n / 10 < 10 ^ Z.of_nat f).
  { split; [apply Z.div_pos; lia|]. apply Z.div_lt_upper_bound; [lia|].
    rewrite Nat2Z.inj_succ, Z.pow_succ_r in Hn; lia. }
  pose proof (Z.div_mod n 10 ltac:(lia)) as Hdm. pose proof (Z.mod_pos_bound n 10 ltac:(lia)).
  rewrite IH; [|done|unfold int64_max; lia].
  destruct (digit_char_val (n mod 10)) as [-> ->]; [done|].
  rewrite !swrap64_id by (unfold in_int64, int64_min, int64_max; rewrite ?swrap64_id;
    unfold in_int64, int64_min, int64_max; lia).
  f_equal. lia.
Qed.

(** What [Incr] writes it reads back, unless it is negative: then it is not a
    number for the next [Incr]. *)
Lemma parse_intToStr n :
  in_int64 n → parse_loop (intToStr n) 0 = if 0 <=? n then Some n else None.
Proof.
  unfold in_int64, int64_min, int64_max. intros Hn. unfold intToStr.
  destruct (Z.eqb_spec n 0) as [->|Hne]; [done|].
  destruct (Z.ltb_spec n 0) as [Hneg|Hpos].
  - rewrite (proj2 (Z.leb_gt _ _)) by lia. cbv zeta.
    change (go!"-") with ["-"%char]. rewrite reverse_app. done.
  - rewrite (proj2 (Z.leb_le _ _)) by lia. apply parse_int_digits; [|unfold int64_max; lia].
    split; [lia|]. change (10 ^ Z.of_nat 20) with 100000000000000000000. lia.
Qed.

(** The loop reads a number, and what is written is a numeral. *)
Lemma swrap64_step x y : swrap64 (swrap64 x + y) = swrap64 (x + y).
Proof.
  unfold swrap64. replace ((x + 2 ^ 63) mod 2 ^ 64 - 2 ^ 63 + y + 2 ^ 63) with ((x + 2 ^ 63) mod 2 ^ 64 + y) by lia.
  rewrite Zplus_mod_idemp_l. f_equal. f_equal. lia.
Qed.

Lemma swrap64_digit x d : swrap64 (swrap64 (swrap64 x * 10) + d) = swrap64 (x * 10 + d).
Proof.
  rewrite swrap64_step. unfold swrap64. f_equal.
  replace (((x + 2 ^ 63) mod 2 ^ 64 - 2 ^ 63) * 10 + d + 2 ^ 63)
    with ((x + 2 ^ 63) mod 2 ^ 64 * 10 + (d - 2 ^ 63 * 9)) by lia.
  rewrite <- Zplus_mod_idemp_l, Zmult_mod_idemp_l, Zplus_mod_idemp_l. f_equal. lia.
Qed.

Lemma parse_number s : parse_loop s 0 = number s.
Proof.
  induction s as [|c s IH] using rev_ind; [done|]. rewrite parse_loop_snoc, IH. unfold number.
  rewrite forallb_app, digits_val_snoc. cbn [forallb]. destruct (forallb is_digit s); [|done].
  destruct (is_digit c); cbn; [|done]. by rewrite swrap64_digit.
Qed.

Lemma int_digits_of fuel n acc :
  0 < n < 10 ^ Z.of_nat fuel → reverse (int_digits fuel n) ++ acc = digits_of fuel n acc.
Proof.
  revert n acc. induction fuel as [|f IH]; intros n acc Hn; [simpl in Hn; lia|].
  cbn [int_digits digits_of]. rewrite (proj2 (Z.ltb_lt 0 n)) by lia. rewrite reverse_cons, <- app_assoc. cbn [app].
  destruct (Z.ltb_spec n 10) as [Hs|Hs].
  - assert (n / 10 = 0) as -> by (apply Z.div_small; lia). by destruct f.
  - rewrite IH; [done|]. split; [apply Z.div_str_pos; lia|]. apply Z.div_lt_upper_bound; [lia|].
    rewrite Nat2Z.inj_succ, Z.pow_succ_r in Hn; lia.
Qed.

Lemma intToStr_numeral n : in_int64 n → intToStr n = numeral n.
Proof.
  unfold in_int64, int64_min, int64_max. intros Hn. unfold intToStr, numeral, FormatInt, int64_min.
  destruct (Z.eqb_spec n 0) as [->|Hne]; [done|]. case_decide as Hm; [by subst|].
  destruct (Z.ltb_spec n 0) as [Hneg|Hpos].
  - rewrite swrap64_id by (unfold in_int64, int64_min, int64_max; lia).
    change (go!"-") with ["-"%char]. rewrite reverse_app. change (reverse ["-"%char]) with ["-"%char]. cbn [app]. f_equal.
    rewrite <- (app_nil_r (reverse _)). apply int_digits_of. change (10 ^ Z.of_nat 20) with 100000000000000000000. lia.
  - rewrite <- (app_nil_r (reverse _)). apply int_digits_of. change (10 ^ Z.of_nat 20) with 100000000000000000000. lia.
Qed.

(** A new key fits as long as the keys in use do. *)
Lemma make_room_fits (now : Z) (d : SharedDict) (K : gset gostring) (k : gostring) :
  dom (data d) ⊆ K → k ∈ K → data d !! k = None → Z.of_nat (size K) ≤ maxItems d →
  make_room now d = (d, true).
Proof.
  intros Hdom Hk Hnone HK. unfold make_room.
  assert (Len d < maxItems d) as Hlt.
  { assert (dom (data d) ⊂ K) as Hs.
    { split; [done|]. intros Hsub. apply Hsub, elem_of_dom in Hk as [? ?]. congruence. }
    apply subset_size in Hs. rewrite size_dom in Hs. unfold Len. lia. }
  by rewrite (proj2 (Z.leb_gt _ _) Hlt).
Qed.

(** What [FlushExpired] takes. *)
Lemma flush_expired_fits (now : Z) (d : SharedDict) :
  good d → promised now OFlushExpired (view d) (ACount (FlushExpired now d).1, view (FlushExpired now d).2) ∧
  dom (data (FlushExpired now d).2) ⊆ dom (data d) ∧ maxItems (FlushExpired now d).2 = maxItems d.
Proof.
  intros Hg. pose proof (good_wf d Hg) as Hwf. unfold FlushExpired, evictExpired.
  destruct (expired_loop_spec (length (lruList d)) now d 0 Hwf) as (gone & Hev & Hc & Hexp & _); [lia|].
  destruct (expired_loop _ _ _ _) as [d' c]. cbn [fst snd] in *. split; [|split; [|apply Hev]].
  - exists (list_to_set gone.*2). cbn [fst snd]. split; [|split].
    + intros k (n & -> & Hn)%elem_of_list_to_set%list_elem_of_fmap. specialize (Hexp n Hn). unfold expired_at in Hexp.
      destruct (data d !! n.2) as [e|] eqn:He; [|done]. exists (e_value e), (expiredAt e). by rewrite view_lookup, He.
    + rewrite Hc, size_list_to_set, length_fmap; [done|]. pose proof (wf_keys d Hwf) as Hnd.
      rewrite (ev_list _ _ _ Hev), fmap_app in Hnd. by apply NoDup_app in Hnd as (_ & _ & ?).
    + intros k. rewrite !view_lookup, (ev_data _ _ _ Hev). repeat case_decide; set_solver.
  - intros k [e He]%elem_of_dom. rewrite (ev_data _ _ _ Hev) in He. apply elem_of_dom. case_decide; [done|eauto].
Qed.

Lemma run_fits (now : Z) (o : op) (d : SharedDict) (K : gset gostring) :
  good d → dom (data d) ⊆ K → op_keys o ⊆ K → Z.of_nat (size K) ≤ maxItems d →
  promised now o (view d) ((run now o d).1, view (run now o d).2) ∧
  dom (data (run now o d).2) ⊆ K ∧ maxItems (run now o d).2 = maxItems d.
Proof.
  intros Hg Hdom Hkeys HK. pose proof (good_wf d Hg) as Hwf.
  assert (∀ k v x, k ∈ K → dom (data (push_entry d k v x)) ⊆ K) as Hpush
    by (intros k v x Hk; simpl; rewrite dom_insert; set_solver).
  destruct o as [k|k v ttl|k v ttl|k n|k| |]; cbn [op_keys] in Hkeys; cbn [run promised].
  - unfold Get. rewrite view_lookup. destruct (data d !! k) as [e|] eqn:Hk; simpl; [|done].
    destruct (is_expired now (expiredAt e)); simpl; [|done].
    rewrite (view_deleteEntry d k e) by done. split_and!; [done| |done].
    rewrite dom_delete. set_solver.
  - unfold Set_. destruct (data d !! k) as [e|] eqn:Hk; simpl.
    + rewrite (view_set_entry d k e) by done. split_and!; [done| |done]. by rewrite dom_alter.
    + rewrite (make_room_fits now d K k) by (done || set_solver). simpl.
      rewrite view_push. split_and!; [done| |done]. apply Hpush. set_solver.
  - unfold Add. rewrite view_lookup. destruct (data d !! k) as [e|] eqn:Hk; simpl; [done|].
    rewrite (make_room_fits now d K k) by (done || set_solver). simpl.
    rewrite view_push. split_and!; [done| |done]. apply Hpush. set_solver.
  - unfold Incr. rewrite view_lookup. destruct (data d !! k) as [e|] eqn:Hk; simpl.
    + rewrite parse_number. destruct (number (e_value e)) as [c|]; simpl; [|done].
      rewrite (view_set_entry d k e), intToStr_numeral by (done || apply swrap64_range).
      split_and!; [done| |done]. by rewrite dom_alter.
    + rewrite (make_room_fits now d K k) by (done || set_solver). simpl.
      split_and!; [|rewrite dom_alter; apply Hpush; set_solver|done]. f_equal.
      rewrite intToStr_numeral by apply swrap64_range.
      apply map_eq. intros k'. rewrite view_lookup. simpl. unfold view.
      destruct (decide (k = k')) as [<-|Hne].
      * by rewrite lookup_alter_eq, !lookup_insert_eq.
      * by rewrite lookup_alter_ne, !lookup_insert_ne, lookup_fmap.
  - unfold Delete. destruct (data d !! k) as [e|] eqn:Hk; simpl.
    + rewrite (view_deleteEntry d k e) by done. split_and!; [done| |done]. rewrite dom_delete. set_solver.
    + split_and!; [|done|done]. f_equal. rewrite delete_id; [done|]. by rewrite view_lookup, Hk.
  - split_and!; [done|simpl; set_solver|done].
  - destruct (flush_expired_fits now d Hg) as (Hp & Hd & Hm). destruct (FlushExpired now d) as [n d']. cbn [fst snd] in *.
    split; [done|]. split; [by etransitivity|done].
Qed.

Lemma data_make_room_none now d k :
  good d → data d !! k = None → data (make_room now d).1 !! k = None.
Proof.
  intros Hg Hk. destruct (make_room_spec now d Hg) as (gone & Hev & _). by eapply evicted_new_key.
Qed.

(** ** Properties *)

(** In every state a dictionary can reach, its map and its list describe
    each other, node by node and key by key, and it holds at most [maxItems]
    entries. *)
Theorem dict_invariant (name : gostring) (n : Z) (l : list (Z * op)) :
  let d := (runs (NewSharedDict name n) l).2 in
  wf d ∧ Len d ≤ Z.max 0 n.
Proof.
  intros d. destruct (good_runs (NewSharedDict name n) l (good_New name n)) as [[Hwf Hsz] Hm].
  split; [done|]. by rewrite Hm in Hsz.
Qed.

(** The smallest integer is its own opposite: it is written as a sign without digits. *)
Example intToStr_smallest : intToStr int64_min = go!"-".
Proof. by vm_compute. Qed.

(** C11: A dictionary that has room for the keys in use is the unbounded map with
    expiry: any sequence of requests on at most [maxItems] distinct keys gets answers
    that the map promises and ends in its contents.  A value that is not a number makes
    [Incr] fail and stays (where the documentation says that it counts as 0), and
    [FlushExpired] takes only expired entries and counts them, though not always all
    (flush_expired_incomplete). *)
Theorem dict_is_map (name : gostring) (n : Z) (l : list (Z * op)) (K : gset gostring) :
  (∀ o, o ∈ l.*2 → op_keys o ⊆ K) → Z.of_nat (size K) ≤ n →
  let '(answers, d) := runs (NewSharedDict name n) l in
  promises ∅ l answers (view d).
Proof.
  intros Hl HK.
  assert (∀ d, good d → dom (data d) ⊆ K → maxItems d = n →
    let '(answers, d') := runs d l in promises (view d) l answers (view d')) as Hr.
  { induction l as [|[now o] l IH]; intros d Hg Hdom Hmax; [constructor|]. simpl.
    pose proof (Hl o ltac:(by left)) as Hk.
    destruct (run_fits now o d K Hg Hdom Hk ltac:(lia)) as (Hp & Hdom1 & Hmax1).
    pose proof (good_run now o d Hg) as Hg1. destruct (run now o d) as [a d1]. simpl in *.
    specialize (IH ltac:(intros; apply Hl; by right) d1 Hg1 Hdom1 ltac:(congruence)).
    destruct (runs d1 l) as [rest d2]. by econstructor. }
  apply (Hr (NewSharedDict name n)); [apply good_New|simpl; set_solver|done].
Qed.

(** Eviction.  Storing a new key in a dictionary takes nothing while there is
    room; otherwise either a tail of expired entries or, when the least recently
    used entry has not expired, that entry alone.  Everything else stays, with
    the new key most recent. *)
Theorem set_evicts (now : Z) (d : SharedDict) (k v : gostring) (ttl : Z) :
  good d → 0 < maxItems d → data d !! k = None →
  let '(ok, d') := Set_ now d k v ttl in
  ok = true ∧ view d' !! k = Some (v, expiry now ttl) ∧
  ∃ kept gone, lruList d = kept ++ gone ∧ (lruList d').*2 = k :: kept.*2 ∧
    (∀ k', k' ≠ k → view d' !! k' = if decide (k' ∈ gone.*2) then None else view d !! k') ∧
    (Len d < maxItems d → gone = []) ∧
    (gone = [] ∨ (∀ n, n ∈ gone → expired_at now d n.2 = true) ∨
     (∃ n, gone = [n] ∧ last (lruList d) = Some n ∧ expired_at now d n.2 = false)).
Proof.
  intros Hg Hmax Hk. unfold Set_. rewrite Hk.
  destruct (make_room_spec now d Hg) as (gone & Hev & Hok & _ & Hroom & Hwho).
  destruct (make_room now d) as [d1 ok]. cbn [fst snd] in *. subst ok.
  rewrite (proj2 (Z.ltb_lt _ _) Hmax). split_and!; [done|by rewrite view_push, lookup_insert_eq|].
  exists (lruList d1), gone. split_and!; [apply Hev|done| |done|done].
  intros k' Hne. rewrite view_push, lookup_insert_ne, !view_lookup, (ev_data _ _ _ Hev) by done.
  by case_decide.
Qed.

(** [Incr] counts: after an [Incr] that gave [v ≥ 0], the next one gives
    [v + b] (in 64 bits); after one that gave a negative number every further
    [Incr] fails, since the minus sign is not read back. *)
Theorem incr_incr (now now' : Z) (d : SharedDict) (k : gostring) (a b v : Z) :
  good d → 0 < maxItems d → (Incr now d k a).1 = Some v →
  (Incr now' (Incr now d k a).2 k b).1 = if 0 <=? v then Some (swrap64 (v + b)) else None.
Proof.
  intros Hg Hmax Hv.
  assert (∃ e, data (Incr now d k a).2 !! k = Some e ∧ e_value e = intToStr v ∧ in_int64 v) as (e & He & Hval & Hin).
  { revert Hv. unfold Incr. destruct (data d !! k) as [e|] eqn:Hk.
    - destruct (parse_loop (e_value e) 0) as [c|]; [|done]. cbn [fst snd]. intros [= <-].
      eexists. split; [simpl; by rewrite lookup_alter_eq, Hk|]. split; [done|apply swrap64_range].
    - pose proof (data_make_room_none now d k Hg Hk) as Hk'.
      destruct (make_room_spec now d Hg) as (gone & Hev & Hok & _).
      destruct (make_room now d) as [d1 ok]. cbn [fst snd] in *. subst ok.
      rewrite (proj2 (Z.ltb_lt _ _) Hmax). cbn [e_value]. change (parse_loop (go!"0") 0) with (Some 0).
      cbn [fst snd]. intros [= <-].
      eexists. split; [simpl; by rewrite lookup_alter_eq, lookup_insert_eq|]. split; [done|apply swrap64_range]. }
  unfold Incr at 1. rewrite He, Hval, parse_intToStr by done. by destruct (0 <=? v).
Qed.

(** [FlushExpired] stops at the first entry from the back that has not
    expired, so it can leave expired entries and report that there were none. *)
Theorem flush_expired_incomplete :
  ∃ (l : list (Z * op)) (now : Z) (k : gostring),
    let d := (runs (NewSharedDict (go!"d") 10) l).2 in
    expired_at now d k = true ∧ FlushExpired now d = (0, d).
Proof.
  exists [(0, OSet (go!"live") (go!"1") 0); (1, OSet (go!"dead") (go!"2") 5)], 100, (go!"dead").
  by vm_compute.
Qed.

(** ** Witnesses *)

Definition ex_ops : list (Z * op) :=
  [(0, OSet (go!"a") (go!"1") 10); (1, OAdd (go!"a") (go!"2") 0); (5, OIncr (go!"b") 7);
   (6, OIncr (go!"b") (-3)); (20, OFlushExpired); (21, OGet (go!"a")); (22, OGet (go!"b"))].

Lemma dict_is_map_witness :
  let '(answers, d) := runs (NewSharedDict (go!"d") 2) ex_ops in
  promises ∅ ex_ops answers (view d).
Proof.
  refine (dict_is_map (go!"d") 2 ex_ops {[go!"a"; go!"b"]} _ _).
  - intros o Ho. cbn in Ho. rewrite !elem_of_cons, elem_of_nil in Ho.
    destruct_or? Ho; subst; done || (apply (bool_decide_unpack _); vm_compute; exact I).
  - by vm_compute.
Defined.

(** The flush takes [a] and counts it. *)
Example ex_answers :
  (runs (NewSharedDict (go!"d") 2) ex_ops).1 =
    [ADone true; ADone false; ANumber (Some 7); ANumber (Some 4); ACount 1; AValue [] false; AValue (go!"4") false].
Proof. by vm_compute. Qed.

Definition ex_full : SharedDict := (runs (NewSharedDict (go!"d") 2) (take 3 ex_ops)).2.

(** [a] has expired at 20, and [b] is the more recent one. *)
Lemma set_evicts_witness :
  let '(ok, d') := Set_ 20 ex_full (go!"c") (go!"3") 0 in
  ok = true ∧ view d' !! (go!"c") = Some (go!"3", None).
Proof.
  pose proof (set_evicts 20 ex_full (go!"c") (go!"3") 0
    (proj1 (good_runs _ (take 3 ex_ops) (good_New (go!"d") 2))) eq_refl eq_refl) as Hs.
  destruct (Set_ 20 ex_full (go!"c") (go!"3") 0) as [ok d']. destruct Hs as (H1 & H2 & _). exact (conj H1 H2).
Defined.

Lemma incr_incr_witness :
  (Incr 1 (Incr 0 ex_full (go!"b") (-9)).2 (go!"b") 5).1 = None ∧
  (Incr 1 (Incr 0 ex_full (go!"b") 1).2 (go!"b") 5).1 = Some 13.
Proof.
  split.
  - apply (incr_incr 0 1 ex_full (go!"b") (-9) 5 (-2)
      (proj1 (good_runs _ (take 3 ex_ops) (good_New (go!"d") 2))) eq_refl eq_refl).
  - apply (incr_incr 0 1 ex_full (go!"b") 1 5 8
      (proj1 (good_runs _ (take 3 ex_ops) (good_New (go!"d") 2))) eq_refl eq_refl).
Defined.
