(* ===== verification/FileCache.v ===== *)
(** * FileCache: the static-file cache of [src/internal/cache/file_cache.go]

    A cache of file contents with a limit on the number of entries and on their
    total size, eviction of the least recently used entry and recycling of
    entries through a [sync.Pool].  Entries are shared by pointer, so they live
    in a store.  [Get] is given as the critical sections the code takes one
    after the other; the invariant holds in every interleaving of the sections
    of concurrent calls. *)

From S2P Require Import Prelude GoStrings LinkedList.

(** ** State *)

Abbreviation fptr := nat.

Record FileEntry := mkFile {
  ModTime : Z; CachedAt : Z; LastAccess : Z; f_element : option nat; Path : gostring;
  Data : gostring; f_Size : Z; ETag : gostring; ContentType : gostring }.

(** [&FileEntry{}] *)
Definition empty_file : FileEntry :=
  mkFile zero_time zero_time zero_time None [] [] 0 [] [].

(** [files] is the store of entries, [next_ptr] and [next_elem] the next pointer
    and list element to be allocated; [pool] holds the recycled entries. *)
Record FileCache := mkCache {
  entries : gmap gostring fptr;
  lruList : list (nat * fptr);
  maxEntries : Z;
  maxSize : Z;
  inactive : Z;
  currentSize : Z;
  pool : list fptr;
  files : gmap nat FileEntry;
  next_ptr : nat;
  next_elem : nat
}.

Definition NewFileCache (maxEntries maxSize inactive : Z) : FileCache :=
  mkCache ∅ [] maxEntries maxSize inactive 0 [] ∅ 0 0.

Definition file (c : FileCache) (p : fptr) : FileEntry := default empty_file (files c !! p).

Definition set_file (c : FileCache) (p : fptr) (e : FileEntry) : FileCache :=
  mkCache (entries c) (lruList c) (maxEntries c) (maxSize c) (inactive c) (currentSize c)
    (pool c) (<[p := e]> (files c)) (next_ptr c) (next_elem c).

Definition set_lru (c : FileCache) (l : list (nat * fptr)) : FileCache :=
  mkCache (entries c) l (maxEntries c) (maxSize c) (inactive c) (currentSize c)
    (pool c) (files c) (next_ptr c) (next_elem c).

(** [strconv.AppendInt(b, n, 16)] *)
Definition hex_char (d : Z) : ascii := ascii_of_N (Z.to_N (if d <? 10 then 48 + d else 87 + d)).
Fixpoint hex_of (fuel : nat) (n : Z) (acc : gostring) : gostring :=
  match fuel with
  | O => acc
  | S f =>
      let acc := hex_char (n mod 16) :: acc in
      if n <? 16 then acc else hex_of f (n / 16) acc
  end.
Definition FormatHex (n : Z) : gostring :=
  if n <? 0 then "-"%char :: hex_of 16 (- n) [] else hex_of 16 n [].

(** [utils.GenerateETag]: [modTime.Unix()] is the second of the instant. *)
Definition GenerateETag (modTime size : Z) : gostring :=
  let quote := ascii_of_N 34 in
  quote :: FormatHex (modTime / second) ++ go!"-" ++ FormatHex size ++ [quote].

(** ** Removal and eviction *)

Definition remove_node (l : list (nat * fptr)) (id : option nat) : list (nat * fptr) :=
  match id with Some id => Remove l id | None => l end.

(** The entry is cleared and goes back to the pool. *)
Definition removeEntry (c : FileCache) (p : fptr) : FileCache :=
  let e := file c p in
  mkCache (delete (Path e) (entries c)) (remove_node (lruList c) (f_element e))
    (maxEntries c) (maxSize c) (inactive c) (swrap64 (currentSize c - f_Size e))
    (p :: pool c) (<[p := empty_file]> (files c)) (next_ptr c) (next_elem c).

Definition evictLRU (c : FileCache) : FileCache :=
  match last (lruList c) with
  | Some (_, p) => removeEntry c p
  | None => c
  end.

(** The two loops, with fuel; a node leaves the list in each iteration. *)
Fixpoint evict_count (fuel : nat) (c : FileCache) : FileCache :=
  match fuel with
  | O => c
  | S f =>
      if (maxEntries c <? zlen (lruList c)) && (0 <? maxEntries c) then evict_count f (evictLRU c) else c
  end.

Fixpoint evict_size (fuel : nat) (c : FileCache) : FileCache :=
  match fuel with
  | O => c
  | S f =>
      if (maxSize c <? currentSize c) && (0 <? maxSize c) then evict_size f (evictLRU c) else c
  end.

Definition evictIfNeeded (c : FileCache) : FileCache :=
  let c := evict_count (length (lruList c)) c in
  evict_size (length (lruList c)) c.

(** ** Operations *)

Definition touched (now : Z) (e : FileEntry) : FileEntry :=
  mkFile (ModTime e) (CachedAt e) now (f_element e) (Path e) (Data e) (f_Size e) (ETag e) (ContentType e).

Definition recached (now : Z) (e : FileEntry) : FileEntry :=
  mkFile (ModTime e) now now (f_element e) (Path e) (Data e) (f_Size e) (ETag e) (ContentType e).

(** [c.lruList.MoveToFront(entry.element)] *)
Definition move_front (c : FileCache) (p : fptr) : FileCache :=
  match f_element (file c p) with
  | Some id => set_lru c (MoveToFront (lruList c) id)
  | None => c
  end.

(** [time.Since(entry.LastAccess) > c.inactive] *)
Definition is_inactive (now : Z) (c : FileCache) (p : fptr) : bool :=
  inactive c <? time_sub now (LastAccess (file c p)).

(** *** The critical sections of [Get] *)

Inductive get_decision :=
  | GMiss
  | GExpired
  | GMigrate
  | GHit (p : fptr).

(** Under the read lock. *)
Definition Get_read (now : Z) (c : FileCache) (path : gostring) : get_decision :=
  match entries c !! path with
  | None => GMiss
  | Some p =>
      if is_inactive now c p then GExpired
      else if CachedAt (file c p) =? zero_time then GMigrate
      else GHit p
  end.

Definition Get_expire (now : Z) (c : FileCache) (path : gostring) : FileCache :=
  match entries c !! path with
  | Some p => if is_inactive now c p then removeEntry c p else c
  | None => c
  end.

Definition Get_migrate (now : Z) (c : FileCache) (path : gostring) : option fptr * FileCache :=
  match entries c !! path with
  | None => (None, c)
  | Some p =>
      if is_inactive now c p then (None, removeEntry c p)
      else (Some p, move_front (set_file c p (recached now (file c p))) p)
  end.

(** The section that refreshes the access time of [entry]. *)
Definition Get_touch (now : Z) (c : FileCache) (path : gostring) (entry : fptr) : FileCache :=
  match entries c !! path with
  | Some p => if decide (p = entry) then move_front (set_file c p (touched now (file c p))) p else c
  | None => c
  end.

Definition accessUpdateInterval : Z := 5 * second.

(** A call that no other call interrupts. *)
Definition Get (now : Z) (c : FileCache) (path : gostring) : option fptr * FileCache :=
  match Get_read now c path with
  | GMiss => (None, c)
  | GExpired => (None, Get_expire now c path)
  | GMigrate => Get_migrate now c path
  | GHit p =>
      (Some p,
       if accessUpdateInterval <? time_sub now (LastAccess (file c p))
       then Get_touch now c path p else c)
  end.

(** [c.entryPool.Get()]: a recycled entry, the one [choice] says, or a new one. *)
Definition pool_get (choice : nat) (c : FileCache) : fptr * FileCache :=
  match pool c !! choice with
  | Some p =>
      (p, mkCache (entries c) (lruList c) (maxEntries c) (maxSize c) (inactive c) (currentSize c)
            (delete choice (pool c)) (files c) (next_ptr c) (next_elem c))
  | None =>
      (next_ptr c,
       mkCache (entries c) (lruList c) (maxEntries c) (maxSize c) (inactive c) (currentSize c)
         (pool c) (<[next_ptr c := empty_file]> (files c)) (S (next_ptr c)) (next_elem c))
  end.

(** The two assignments to [currentSize] wrap one after the other. *)
Definition Set_ (now : Z) (choice : nat) (c : FileCache) (path data : gostring) (size modTime : Z)
    (contentType : gostring) : FileCache :=
  let etag := GenerateETag modTime size in
  match entries c !! path with
  | Some p =>
      let e := file c p in
      let c' := mkCache (entries c) (lruList c) (maxEntries c) (maxSize c) (inactive c)
                  (swrap64 (swrap64 (currentSize c - f_Size e) + size)) (pool c)
                  (<[p := mkFile modTime now now (f_element e) (Path e) data size etag contentType]> (files c))
                  (next_ptr c) (next_elem c) in
      evictIfNeeded (move_front c' p)
  | None =>
      let '(p, c) := pool_get choice c in
      evictIfNeeded
        (mkCache (<[path := p]> (entries c)) ((next_elem c, p) :: lruList c)
           (maxEntries c) (maxSize c) (inactive c) (swrap64 (currentSize c + size)) (pool c)
           (<[p := mkFile modTime now now (Some (next_elem c)) path data size etag contentType]> (files c))
           (next_ptr c) (S (next_elem c)))
  end.

Definition Delete (c : FileCache) (path : gostring) : FileCache :=
  match entries c !! path with Some p => removeEntry c p | None => c end.

Definition RefreshCachedAt (now : Z) (c : FileCache) (path : gostring) : FileCache :=
  match entries c !! path with
  | Some p => move_front (set_file c p (recached now (file c p))) p
  | None => c
  end.

Record FileCacheStats := mkFCStats { s_Entries : Z; s_MaxEntries : Z; s_Size : Z; s_MaxSize : Z }.

Definition FileCache_Stats (c : FileCache) : FileCacheStats :=
  mkFCStats (Z.of_nat (size (entries c))) (maxEntries c) (currentSize c) (maxSize c).

(** ** The invariant

    The entries on the list are those of the map, each with its own element and
    path; no entry is at once in use and in the pool; the size is the sum. *)

Definition total_of (f : fptr → Z) (l : list (nat * fptr)) : Z := foldr (λ n acc, f n.2 + acc) 0 l.
Definition total (c : FileCache) : Z := total_of (λ p, f_Size (file c p)) (lruList c).

Record wf (c : FileCache) : Prop := {
  w_elems : NoDup (lruList c).*1;
  w_ptrs : NoDup (lruList c).*2;
  w_next id p : (id, p) ∈ lruList c → (id < next_elem c)%nat;
  w_lru id p : (id, p) ∈ lruList c →
    entries c !! Path (file c p) = Some p ∧ f_element (file c p) = Some id;
  w_entries path p : entries c !! path = Some p → Path (file c p) = path ∧ p ∈ (lruList c).*2;
  w_pool : NoDup (pool c);
  w_free p : p ∈ pool c → p ∉ (lruList c).*2;
  w_alloc p : p ∈ (lruList c).*2 ∨ p ∈ pool c → (p < next_ptr c)%nat;
  w_size : currentSize c = swrap64 (total c)
}.

Lemma total_app f l l' : total_of f (l ++ l') = total_of f l + total_of f l'.
Proof. induction l as [|n l IH]; simpl; [done|]. rewrite IH. lia. Qed.

Lemma total_perm f l l' : l ≡ₚ l' → total_of f l = total_of f l'.
Proof. induction 1; simpl; lia. Qed.

Lemma total_ext f g l : (∀ p, p ∈ l.*2 → f p = g p) → total_of f l = total_of g l.
Proof.
  intros Hfg. induction l as [|n l IH]; [done|]. simpl.
  rewrite (Hfg n.2) by (by left). rewrite IH; [done|]. intros p Hp. apply Hfg. by right.
Qed.

Lemma snd_elem (l : list (nat * fptr)) p : p ∈ l.*2 ↔ ∃ id, (id, p) ∈ l.
Proof.
  rewrite list_elem_of_fmap. split.
  - intros ([id q] & -> & Hin). by exists id.
  - intros [id Hin]. by exists (id, p).
Qed.

Lemma file_insert c p e q : file (set_file c p e) q = if decide (q = p) then e else file c q.
Proof.
  unfold file. simpl. case_decide as Hq; [subst; by rewrite lookup_insert_eq|].
  by rewrite lookup_insert_ne.
Qed.

(** An entry of the map, with its place on the list. *)
Lemma wf_entry c path p :
  wf c → entries c !! path = Some p →
  ∃ id l1 l2, f_element (file c p) = Some id ∧ Path (file c p) = path ∧
    lruList c = l1 ++ (id, p) :: l2.
Proof.
  intros Hwf Hp. destruct (w_entries c Hwf path p Hp) as [Hpath [id Hin]%snd_elem].
  destruct (w_lru c Hwf id p Hin) as [_ He]. apply list_elem_of_split in Hin as (l1 & l2 & Hl). eauto 10.
Qed.

Lemma file_wf_New a b t : wf (NewFileCache a b t).
Proof.
  split; simpl; try (by constructor); try (intros; set_solver); try (by intros ? ? ?%elem_of_nil).
Qed.

(** *** Removing an entry *)

Lemma removeEntry_split c p id l1 l2 :
  wf c → lruList c = l1 ++ (id, p) :: l2 →
  lruList (removeEntry c p) = l1 ++ l2 ∧ p ∉ (l1 ++ l2).*2 ∧
  (∀ q, q ≠ p → file (removeEntry c p) q = file c q).
Proof.
  intros Hwf Hl. assert ((id, p) ∈ lruList c) as Hin by (rewrite Hl; set_solver).
  destruct (w_lru c Hwf id p Hin) as [_ He]. split_and!.
  - simpl. rewrite He. simpl. apply (Remove_split _ l1 l2 id p); [apply (w_elems c Hwf)|done].
  - pose proof (w_ptrs c Hwf) as Hnd. rewrite Hl, fmap_app, fmap_cons in Hnd. simpl in Hnd.
    rewrite fmap_app. apply NoDup_app in Hnd as (_ & Hd & [Hn _]%NoDup_cons).
    rewrite elem_of_app. intros [Hp|Hp]; [|done]. apply (Hd p Hp). by left.
  - intros q Hq. unfold file. simpl. by rewrite lookup_insert_ne.
Qed.

Lemma wf_removeEntry c p id l1 l2 :
  wf c → lruList c = l1 ++ (id, p) :: l2 → wf (removeEntry c p).
Proof.
  intros Hwf Hl. destruct (removeEntry_split c p id l1 l2 Hwf Hl) as (Hl' & Hp & Hf).
  assert ((id, p) ∈ lruList c) as Hin by (rewrite Hl; set_solver).
  destruct (w_lru c Hwf id p Hin) as [Hent He].
  assert (∀ n, n ∈ l1 ++ l2 → n ∈ lruList c) as Hsub by (rewrite Hl; set_solver).
  assert (∀ i q, (i, q) ∈ l1 ++ l2 → q ≠ p) as Hne.
  { intros i q Hq ->. apply Hp, snd_elem. by exists i. }
  assert (sublist (l1 ++ l2) (lruList c)) as Hs.
  { rewrite Hl. apply sublist_app; [done|by apply sublist_cons]. }
  split; rewrite ?Hl'; simpl.
  - eapply sublist_NoDup; [apply (w_elems c Hwf)|by apply fmap_sublist].
  - eapply sublist_NoDup; [apply (w_ptrs c Hwf)|by apply fmap_sublist].
  - intros i q Hq. by apply (w_next c Hwf i q), Hsub.
  - intros i q Hq. rewrite Hf by by eapply Hne. destruct (w_lru c Hwf i q) as [Hq1 Hq2]; [by apply Hsub|].
    split; [|done]. rewrite lookup_delete_ne; [done|]. intros Heq. rewrite <- Heq, Hent in Hq1.
    injection Hq1 as ->. by eapply Hne.
  - intros path q [Hpath Hq]%lookup_delete_Some. destruct (w_entries c Hwf path q Hq) as [Hq1 Hq2].
    assert (q ≠ p) by (intros ->; done). rewrite Hf by done. split; [done|].
    rewrite Hl in Hq2. rewrite fmap_app in *. set_solver.
  - apply NoDup_cons. split; [|apply (w_pool c Hwf)]. intros Hq%(w_free c Hwf). apply Hq, snd_elem. by exists id.
  - intros q [->|Hq]%elem_of_cons; [done|]. apply (w_free c Hwf) in Hq.
    intros Hq'. apply Hq. rewrite Hl. rewrite fmap_app in *. set_solver.
  - intros q [Hq|[->|Hq]%elem_of_cons]; apply (w_alloc c Hwf); [left|left|by right].
    + rewrite Hl. rewrite fmap_app in *. set_solver.
    + apply snd_elem. by exists id.
  - rewrite (w_size c Hwf), swrap64_sub_l. f_equal. unfold total. rewrite Hl', Hl, !total_app. simpl.
    rewrite (total_ext (λ q, f_Size (file (removeEntry c p) q)) (λ q, f_Size (file c q)) l1),
      (total_ext (λ q, f_Size (file (removeEntry c p) q)) (λ q, f_Size (file c q)) l2); [lia| |];
      intros q [i Hq]%snd_elem; rewrite Hf; try done; eapply Hne; apply elem_of_app; eauto.
Qed.

(** *** Eviction *)

(** What eviction leaves: a prefix of the list, with its entries unchanged. *)
Record evicted (c c' : FileCache) (gone : list (nat * fptr)) : Prop := {
  ev_wf : wf c';
  ev_list : lruList c = lruList c' ++ gone;
  ev_file p : p ∈ (lruList c').*2 → file c' p = file c p;
  ev_limits : maxEntries c' = maxEntries c ∧ maxSize c' = maxSize c ∧ inactive c' = inactive c
}.

Lemma file_evicted_refl c : wf c → evicted c c [].
Proof. by split; rewrite ?app_nil_r. Qed.

Lemma file_evicted_trans c c1 c2 g1 g2 : evicted c c1 g1 → evicted c1 c2 g2 → evicted c c2 (g2 ++ g1).
Proof.
  intros [_ Hl1 Hf1 (? & ? & ?)] [Hw2 Hl2 Hf2 (? & ? & ?)]. split; [done| | |split_and!; congruence].
  - by rewrite Hl1, Hl2, app_assoc.
  - intros p Hp. rewrite Hf2, Hf1; [done| |done]. rewrite Hl2, fmap_app. set_solver.
Qed.

Lemma file_evictLRU_spec c l n :
  wf c → lruList c = l ++ [n] → lruList (evictLRU c) = l ∧ evicted c (evictLRU c) [n].
Proof.
  intros Hwf Hl. destruct n as [id p]. unfold evictLRU. rewrite Hl, last_snoc.
  destruct (removeEntry_split c p id l [] Hwf Hl) as (Hl' & Hp & Hf). rewrite app_nil_r in *.
  split; [done|]. split; [by eapply wf_removeEntry| | |done].
  - by rewrite Hl', Hl.
  - intros q Hq. apply Hf. intros ->. rewrite Hl' in Hq. done.
Qed.

Definition over_count (c : FileCache) : bool := (maxEntries c <? zlen (lruList c)) && (0 <? maxEntries c).
Definition over_size (c : FileCache) : bool := (maxSize c <? currentSize c) && (0 <? maxSize c).

(** Both loops end because their condition fails, never for lack of fuel. *)
Lemma evict_count_spec fuel c :
  wf c → (length (lruList c) ≤ fuel)%nat →
  ∃ gone, evicted c (evict_count fuel c) gone ∧ over_count (evict_count fuel c) = false ∧
    (over_count c = false → gone = []) ∧
    (∀ n g, gone = n :: g →
       0 < maxEntries c ∧ maxEntries c < zlen (lruList (evict_count fuel c)) + 1).
Proof.
  revert c. induction fuel as [|f IH]; intros c Hwf Hlen; cbn [evict_count].
  { exists []. split_and!; [by apply file_evicted_refl| |done|done].
    unfold over_count. destruct (lruList c); [|simpl in Hlen; lia].
    apply andb_false_iff. simpl. destruct (Z.ltb_spec 0 (maxEntries c)); [left; apply Z.ltb_ge; lia|by right]. }
  fold (over_count c). destruct (over_count c) eqn:E; [|exists []; (split_and!; [by apply file_evicted_refl|done|done|done])].
  destruct (lruList c) as [|n l _] eqn:El using rev_ind.
  { unfold over_count in E. rewrite El in E. bool_to_prop. simpl in *. lia. }
  destruct (file_evictLRU_spec c l n Hwf El) as [Hl Hev]. pose proof (ev_limits _ _ _ Hev) as (Hm & _ & _).
  destruct (IH (evictLRU c)) as (gone & Hg & Hover & _ & Hfirst).
  { apply Hev. } { rewrite Hl. rewrite length_app in Hlen. simpl in Hlen. lia. }
  exists (gone ++ [n]). split_and!; [by eapply file_evicted_trans|done|done|].
  intros n' g Hn'. destruct gone as [|n0 gone].
  - pose proof (ev_list _ _ _ Hg) as Hl2. rewrite app_nil_r, Hl in Hl2. rewrite <- Hl2.
    unfold over_count in E. rewrite El, length_app in E. bool_to_prop. simpl in *. lia.
  - rewrite <- Hm. by eapply Hfirst.
Qed.

Lemma total_nil c : wf c → lruList c = [] → currentSize c = 0.
Proof. intros Hwf Hl. rewrite (w_size c Hwf). unfold total. by rewrite Hl. Qed.

Lemma evict_size_spec fuel c :
  wf c → (length (lruList c) ≤ fuel)%nat →
  ∃ gone, evicted c (evict_size fuel c) gone ∧ over_size (evict_size fuel c) = false ∧
    (over_size c = false → gone = []) ∧
    (∀ n g, gone = n :: g → 0 < maxSize c ∧
       maxSize c < swrap64 (total_of (λ p, f_Size (file c p)) (lruList (evict_size fuel c) ++ [n]))).
Proof.
  revert c. induction fuel as [|f IH]; intros c Hwf Hlen; cbn [evict_size].
  { exists []. split_and!; [by apply file_evicted_refl| |done|done].
    unfold over_size. rewrite (total_nil c Hwf) by (destruct (lruList c); [done|simpl in Hlen; lia]).
    apply andb_false_iff. destruct (Z.ltb_spec 0 (maxSize c)); [left; apply Z.ltb_ge; lia|by right]. }
  fold (over_size c). destruct (over_size c) eqn:E; [|exists []; (split_and!; [by apply file_evicted_refl|done|done|done])].
  destruct (lruList c) as [|n l _] eqn:El using rev_ind.
  { unfold over_size in E. rewrite (total_nil c Hwf El) in E. bool_to_prop. lia. }
  destruct (file_evictLRU_spec c l n Hwf El) as [Hl Hev]. pose proof (ev_limits _ _ _ Hev) as (_ & Hm & _).
  destruct (IH (evictLRU c)) as (gone & Hg & Hover & _ & Hfirst).
  { apply Hev. } { rewrite Hl. rewrite length_app in Hlen. simpl in Hlen. lia. }
  exists (gone ++ [n]). split_and!; [by eapply file_evicted_trans|done|done|].
  intros n' g Hn'. pose proof (ev_list _ _ _ Hg) as Hl2. rewrite Hl in Hl2.
  destruct gone as [|n0 gone]; injection Hn' as <- <-.
  - rewrite app_nil_r in Hl2. rewrite <- Hl2, <- El.
    unfold over_size in E. rewrite (w_size c Hwf) in E. bool_to_prop. done.
  - destruct (Hfirst n0 gone eq_refl) as [H1 H2]. rewrite Hm in H1, H2. split; [done|].
    rewrite (total_ext _ (λ p, f_Size (file (evictLRU c) p))); [done|]. intros p Hp.
    rewrite (ev_file _ _ _ Hev); [done|]. rewrite Hl, Hl2, cons_middle, app_assoc, fmap_app.
    apply elem_of_app. by left.
Qed.

Lemma over_count_prefix c c' gone : evicted c c' gone → over_count c = false → over_count c' = false.
Proof.
  intros [_ Hl _ (Hm & _)]. unfold over_count. rewrite Hm, Hl, length_app.
  destruct (0 <? maxEntries c); [|by rewrite !andb_false_r]. rewrite !andb_true_r, !Z.ltb_ge. lia.
Qed.

(** The entries taken are the oldest, and no fewer would have done. *)
Lemma evictIfNeeded_spec c :
  wf c →
  ∃ gone, evicted c (evictIfNeeded c) gone ∧
    over_count (evictIfNeeded c) = false ∧ over_size (evictIfNeeded c) = false ∧
    (∀ n g, gone = n :: g →
       (0 < maxEntries c ∧ maxEntries c < zlen (lruList (evictIfNeeded c)) + 1) ∨
       (0 < maxSize c ∧
        maxSize c < swrap64 (total_of (λ p, f_Size (file c p)) (lruList (evictIfNeeded c) ++ [n])))).
Proof.
  intros Hwf. unfold evictIfNeeded.
  destruct (evict_count_spec (length (lruList c)) c Hwf) as (g1 & Hg1 & Ho1 & _ & Hf1); [lia|].
  set (c1 := evict_count _ c) in *. cbv zeta. clearbody c1.
  destruct (evict_size_spec (length (lruList c1)) c1) as (g2 & Hg2 & Ho2 & _ & Hf2); [apply Hg1|lia|].
  set (c2 := evict_size _ c1) in *. clearbody c2.
  pose proof (ev_limits _ _ _ Hg1) as (_ & Hm & _). pose proof (ev_list _ _ _ Hg2) as Hl2.
  exists (g2 ++ g1). split_and!; [by eapply file_evicted_trans|by eapply over_count_prefix|done|].
  intros n g Hn. destruct g2 as [|n0 g2].
  - left. rewrite app_nil_r in Hl2. rewrite <- Hl2. by eapply Hf1.
  - right. injection Hn as <- _. destruct (Hf2 n0 g2 eq_refl) as [H1 H2]. rewrite Hm in H1, H2.
    split; [done|]. rewrite (total_ext _ (λ p, f_Size (file c1 p))); [done|]. intros p Hp.
    rewrite (ev_file _ _ _ Hg1); [done|]. rewrite Hl2, cons_middle, app_assoc, fmap_app.
    apply elem_of_app. by left.
Qed.

(** *** Updates *)

(** The same structure with other sizes: [c'] differs from [c] in the contents of
    entries, not in their paths and elements. *)
Lemma wf_contents c c' :
  wf c → entries c' = entries c → lruList c' = lruList c → pool c' = pool c →
  next_ptr c' = next_ptr c → next_elem c' = next_elem c →
  (∀ p, p ∈ (lruList c).*2 → Path (file c' p) = Path (file c p) ∧
                             f_element (file c' p) = f_element (file c p)) →
  currentSize c' = swrap64 (total c') → wf c'.
Proof.
  intros Hwf He Hl Hpo Hnp Hne Hf Hs. split; rewrite ?He, ?Hl, ?Hpo, ?Hnp, ?Hne; try apply Hwf; [| |done].
  - intros id p Hin. destruct (Hf p) as [-> ->]; [apply snd_elem; by exists id|]. by apply (w_lru c Hwf).
  - intros path p Hp. destruct (w_entries c Hwf path p Hp) as [? Hin]. destruct (Hf p Hin) as [-> _]. done.
Qed.

Lemma wf_set_file c p e :
  wf c → Path e = Path (file c p) → f_element e = f_element (file c p) → f_Size e = f_Size (file c p) →
  wf (set_file c p e).
Proof.
  intros Hwf Hp He Hs. apply (wf_contents c); try done.
  - intros q _. rewrite file_insert. by case_decide; subst.
  - change (currentSize (set_file c p e)) with (currentSize c).
    rewrite (w_size c Hwf). f_equal. unfold total. apply total_ext.
    intros q _. rewrite file_insert. by case_decide; subst.
Qed.

Lemma wf_set_lru c l : wf c → l ≡ₚ lruList c → wf (set_lru c l).
Proof.
  intros Hwf Hl. assert (∀ n, n ∈ l ↔ n ∈ lruList c) as Hm by (intros; by rewrite Hl).
  assert (∀ p, p ∈ l.*2 ↔ p ∈ (lruList c).*2) as Hm2 by (intros; by rewrite Hl).
  split; simpl; try apply Hwf.
  - rewrite Hl. apply Hwf.
  - rewrite Hl. apply Hwf.
  - intros id p ?%Hm. by apply (w_next c Hwf id p).
  - intros id p ?%Hm. by apply (w_lru c Hwf).
  - intros path p Hp. rewrite Hm2. by apply (w_entries c Hwf).
  - intros p Hp ?%Hm2. by apply (w_free c Hwf p).
  - intros p. rewrite Hm2. apply (w_alloc c Hwf).
  - rewrite (w_size c Hwf). f_equal. symmetry. by apply total_perm.
Qed.

Lemma wf_move_front c p : wf c → wf (move_front c p).
Proof.
  intros Hwf. unfold move_front. destruct (f_element _); [|done].
  apply wf_set_lru; [done|]. apply MoveToFront_perm, (w_elems c Hwf).
Qed.

(** A new size for an entry in use. *)
Lemma total_set_file c p e id l1 l2 :
  wf c → lruList c = l1 ++ (id, p) :: l2 →
  total (set_file c p e) = total c - f_Size (file c p) + f_Size e.
Proof.
  intros Hwf Hl. destruct (removeEntry_split c p id l1 l2 Hwf Hl) as (_ & Hp & _).
  unfold total. simpl. rewrite Hl, !total_app. simpl.
  rewrite (total_ext (λ q, f_Size (file (set_file c p e) q)) (λ q, f_Size (file c q)) l1),
    (total_ext (λ q, f_Size (file (set_file c p e) q)) (λ q, f_Size (file c q)) l2).
  - rewrite file_insert, decide_True by done. lia.
  - intros q Hq. rewrite file_insert, decide_False; [done|]. intros ->. apply Hp. rewrite fmap_app. set_solver.
  - intros q Hq. rewrite file_insert, decide_False; [done|]. intros ->. apply Hp. rewrite fmap_app. set_solver.
Qed.

(** Taking an entry out of the pool. *)
Lemma pool_get_spec choice c :
  wf c →
  let '(p, c') := pool_get choice c in
  wf c' ∧ p ∉ (lruList c').*2 ∧ p ∉ pool c' ∧ (p < next_ptr c')%nat ∧
  entries c' = entries c ∧ lruList c' = lruList c ∧ currentSize c' = currentSize c ∧
  maxEntries c' = maxEntries c ∧ maxSize c' = maxSize c ∧ inactive c' = inactive c ∧
  (∀ q, q ∈ (lruList c).*2 → file c' q = file c q).
Proof.
  intros Hwf. unfold pool_get. destruct (pool c !! choice) as [p|] eqn:Hp.
  - assert (p ∈ pool c) as Hin by by eapply list_elem_of_lookup_2.
    assert (pool c ≡ₚ p :: delete choice (pool c)) as Hperm by by apply delete_Permutation.
    pose proof (w_pool c Hwf) as Hnd. rewrite Hperm in Hnd. apply NoDup_cons in Hnd as [Hnot Hnd].
    split_and!; try done; simpl; [|by apply (w_free c Hwf)|apply (w_alloc c Hwf); by right].
    + destruct Hwf. split; simpl; try done.
      * intros q Hq. apply w_free0. rewrite Hperm. by right.
      * intros q [Hq|Hq]; apply w_alloc0; [by left|right]. rewrite Hperm. by right.
  - assert (∀ q, q ∈ (lruList c).*2 → q ≠ next_ptr c) as Hne.
    { intros q Hq ->. assert (next_ptr c < next_ptr c)%nat; [|lia]. apply (w_alloc c Hwf). by left. }
    assert (∀ q, q ≠ next_ptr c → default empty_file (<[next_ptr c:=empty_file]> (files c) !! q) = file c q) as Hf.
    { intros q Hq. unfold file. by rewrite lookup_insert_ne. }
    split_and!; try done; simpl; [| | |lia|].
    + set (c' := mkCache _ _ _ _ _ _ _ _ _ _).
      assert (wf (set_file c (next_ptr c) empty_file)) as Hwf'.
      { apply (wf_contents c); try done.
        - intros q Hq. rewrite file_insert, decide_False; [done|]. by apply Hne.
        - change (currentSize (set_file c (next_ptr c) empty_file)) with (currentSize c).
          rewrite (w_size c Hwf). f_equal. apply total_ext. intros q Hq.
          rewrite file_insert, decide_False; [done|]. by apply Hne. }
      destruct Hwf'. split; try done. intros q Hq. apply w_alloc0 in Hq. simpl in *. lia.
    + intros Hq. by apply (Hne _ Hq).
    + intros Hq. assert (next_ptr c < next_ptr c)%nat; [|lia]. apply (w_alloc c Hwf). by right.
    + intros q Hq. apply Hf. by apply Hne.
Qed.

(** *** Operations keep the invariant *)

Lemma wf_evictIfNeeded c : wf c → wf (evictIfNeeded c).
Proof. intros Hwf. destruct (evictIfNeeded_spec c Hwf) as (g & Hg & _). apply Hg. Qed.

Lemma wf_remove c path p : wf c → entries c !! path = Some p → wf (removeEntry c p).
Proof.
  intros Hwf Hp. destruct (wf_entry c path p Hwf Hp) as (id & l1 & l2 & _ & _ & Hl).
  by eapply wf_removeEntry.
Qed.

(** The state of [Set] before eviction. *)
Definition stored (now : Z) (choice : nat) (c : FileCache) (path data : gostring) (size modTime : Z)
    (contentType : gostring) : fptr * FileCache :=
  match entries c !! path with
  | Some p =>
      let e := file c p in
      (p, move_front (mkCache (entries c) (lruList c) (maxEntries c) (maxSize c) (inactive c)
                  (swrap64 (swrap64 (currentSize c - f_Size e) + size)) (pool c)
                  (<[p := mkFile modTime now now (f_element e) (Path e) data size
                            (GenerateETag modTime size) contentType]> (files c))
                  (next_ptr c) (next_elem c)) p)
  | None =>
      let '(p, c) := pool_get choice c in
      (p, mkCache (<[path := p]> (entries c)) ((next_elem c, p) :: lruList c)
           (maxEntries c) (maxSize c) (inactive c) (swrap64 (currentSize c + size)) (pool c)
           (<[p := mkFile modTime now now (Some (next_elem c)) path data size
                     (GenerateETag modTime size) contentType]> (files c))
           (next_ptr c) (S (next_elem c)))
  end.

Lemma Set_stored now choice c path data size modTime ctype :
  Set_ now choice c path data size modTime ctype =
    evictIfNeeded (stored now choice c path data size modTime ctype).2.
Proof.
  unfold Set_, stored. destruct (entries c !! path); [done|]. by destruct (pool_get choice c).
Qed.

(** After the store and before eviction, the entry is first, the others follow
    in their old order, and only the limits may be exceeded. *)
Lemma stored_spec now choice c path data size modTime ctype :
  wf c →
  let '(p, c') := stored now choice c path data size modTime ctype in
  wf c' ∧ entries c' !! path = Some p ∧
  (∃ id rest, lruList c' = (id, p) :: rest ∧ rest.*2 = filter (λ q, q ≠ p) (lruList c).*2 ∧
     total c' = size + total_of (λ q, f_Size (file c q)) rest) ∧
  (∃ el, file c' p = mkFile modTime now now el path data size (GenerateETag modTime size) ctype) ∧
  (∀ q, q ∈ (lruList c).*2 → q ≠ p → file c' q = file c q) ∧
  maxEntries c' = maxEntries c ∧ maxSize c' = maxSize c ∧ inactive c' = inactive c.
Proof.
  intros Hwf. unfold stored. destruct (entries c !! path) as [p|] eqn:Hp.
  - destruct (wf_entry c path p Hwf Hp) as (id & l1 & l2 & He & Hpath & Hl).
    set (e' := mkFile modTime now now (f_element (file c p)) (Path (file c p)) data size _ ctype).
    set (c' := mkCache _ _ _ _ _ _ _ _ _ _).
    assert (∀ q, file c' q = file (set_file c p e') q) as Hf by done.
    assert (total c' = total c - f_Size (file c p) + size) as Ht
      by apply (total_set_file c p e' id l1 l2 Hwf Hl).
    assert (wf c') as Hwf'.
    { apply (wf_contents c); try done.
      - intros q _. rewrite Hf, file_insert. by case_decide; subst.
      - rewrite Ht. simpl. rewrite (w_size c Hwf), swrap64_sub_l, swrap64_add_l. done. }
    assert (f_element (file c' p) = Some id) as He' by (rewrite Hf, file_insert, decide_True by done; done).
    assert (lruList (move_front c' p) = (id, p) :: l1 ++ l2) as Hl'.
    { unfold move_front. rewrite He'. simpl. rewrite (MoveToFront_In _ id p).
      - f_equal. by apply (Remove_split _ l1 l2 id p); [apply (w_elems c Hwf)|].
      - apply (w_elems c Hwf).
      - rewrite Hl. set_solver. }
    assert (∀ q, file (move_front c' p) q = file c' q) as Hfm by (intros; unfold move_front; by rewrite He').
    destruct (removeEntry_split c p id l1 l2 Hwf Hl) as (_ & Hnot & _).
    assert (∀ q, q ∈ (l1 ++ l2).*2 → q ≠ p) as Hne by (intros q Hq ->; done).
    split_and!.
    + by apply wf_move_front.
    + unfold move_front. by rewrite He'.
    + exists id, (l1 ++ l2). split_and!; [done| |].
      * rewrite Hl, !fmap_app, fmap_cons, filter_app, filter_cons_False by auto.
        rewrite fmap_app in Hne.
        rewrite !filter_all; [done|..]; intros q Hq; apply Hne; set_solver.
      * unfold total. rewrite Hl'. cbn [total_of foldr snd]. fold (total_of (λ q, f_Size (file (move_front c' p) q)) (l1 ++ l2)).
        f_equal; [rewrite Hfm, Hf, file_insert, decide_True by done; done|].
        apply total_ext. intros q Hq. rewrite Hfm, Hf, file_insert, decide_False by by apply Hne. done.
    + eexists. rewrite Hfm, Hf, file_insert, decide_True by done. subst e'. by rewrite Hpath.
    + intros q _ Hq. rewrite Hfm, Hf, file_insert, decide_False by done. done.
    + unfold move_front. by rewrite He'.
    + unfold move_front. by rewrite He'.
    + unfold move_front. by rewrite He'.
  - pose proof (pool_get_spec choice c Hwf) as Hpg.
    destruct (pool_get choice c) as [p c1].
    destruct Hpg as (Hwf1 & Hnl & Hnp & Hlt & Hent & Hl & Hcs & H1 & H2 & H3 & Hf).
    set (c' := mkCache _ _ _ _ _ _ _ _ _ _).
    assert (∀ q, q ≠ p → file c' q = file c1 q) as Hf' by (intros q Hq; unfold file; simpl; by rewrite lookup_insert_ne).
    assert (file c' p = mkFile modTime now now (Some (next_elem c1)) path data size (GenerateETag modTime size) ctype) as Hfp
      by (unfold file; simpl; by rewrite lookup_insert_eq).
    assert (∀ q, q ∈ (lruList c1).*2 → q ≠ p) as Hne by (intros q Hq ->; done).
    assert (total c' = size + total_of (λ q, f_Size (file c q)) (lruList c)) as Ht.
    { unfold total. simpl. rewrite Hfp. simpl. f_equal. rewrite Hl. apply total_ext. intros q Hq.
      rewrite <- Hl in Hq. rewrite Hf' by by apply Hne. rewrite Hf; [done|]. by rewrite <- Hl. }
    split_and!; try done.
    + split; simpl.
      * apply NoDup_cons. split; [|apply Hwf1]. intros ([id q] & Hid & Hin)%list_elem_of_fmap.
        simpl in Hid. apply (w_next c1 Hwf1) in Hin. lia.
      * apply NoDup_cons. split; [done|apply Hwf1].
      * intros id q [[= -> ->]|Hin]%elem_of_cons; [lia|]. apply (w_next c1 Hwf1) in Hin. lia.
      * intros id q [[= -> ->]|Hin]%elem_of_cons.
        -- rewrite Hfp. simpl. by rewrite lookup_insert_eq.
        -- rewrite Hf' by (apply Hne, snd_elem; by exists id). destruct (w_lru c1 Hwf1 id q Hin) as [Hq He].
           split; [|done]. rewrite lookup_insert_ne; [done|]. intros Heq.
           rewrite <- Heq, Hent in Hq. congruence.
      * intros path' q [[<- <-]|[Hpne Hq]]%lookup_insert_Some; [rewrite Hfp; split; [done|by left]|].
        destruct (w_entries c1 Hwf1 path' q Hq) as [Hq1 Hq2]. rewrite Hf' by by apply Hne. split; [done|by right].
      * apply Hwf1.
      * intros q Hq [->|Hq']%elem_of_cons; [done|]. by apply (w_free c1 Hwf1 q).
      * intros q [[->|Hq]%elem_of_cons|Hq]; [done|apply (w_alloc c1 Hwf1); by left|apply (w_alloc c1 Hwf1); by right].
      * rewrite Ht, (w_size c1 Hwf1), swrap64_add_l. f_equal. unfold total. rewrite Hl, Z.add_comm. f_equal.
        apply total_ext. intros q Hq. by rewrite Hf.
    + simpl. by rewrite lookup_insert_eq.
    + exists (next_elem c1), (lruList c1). split_and!; [done| |by rewrite Hl].
      rewrite <- Hl. symmetry. by apply filter_all.
    + by eexists.
    + intros q Hq Hqp. by rewrite Hf', Hf.
Qed.

(** *** Limits *)

Record good (c : FileCache) : Prop := {
  good_wf :> wf c;
  good_sizes p : p ∈ (lruList c).*2 → 0 ≤ f_Size (file c p);
  good_count : 0 < maxEntries c → zlen (lruList c) ≤ maxEntries c;
  good_total : 0 < maxSize c → total c ≤ maxSize c;
  good_max : maxSize c ≤ int64_max
}.

Lemma total_nonneg f l : (∀ p, p ∈ l.*2 → 0 ≤ f p) → 0 ≤ total_of f l.
Proof.
  intros Hf. induction l as [|n l IH]; simpl; [lia|].
  assert (0 ≤ f n.2) by (apply Hf; by left).
  assert (0 ≤ total_of f l); [|lia]. apply IH. intros p Hp. apply Hf. by right.
Qed.

Lemma total_sublist f l l' :
  (∀ p, p ∈ l'.*2 → 0 ≤ f p) → l `sublist_of` l' → total_of f l ≤ total_of f l'.
Proof.
  intros Hf Hs. revert Hf. induction Hs as [|n l l' _ IH|n l l' _ IH]; intros Hf; simpl; [lia| |].
  - specialize (IH ltac:(intros p Hp; apply Hf; by right)). lia.
  - specialize (IH ltac:(intros p Hp; apply Hf; by right)).
    assert (0 ≤ f n.2) by (apply Hf; by left). lia.
Qed.

(** A cache with fewer entries, in any order, contents as they were. *)
Lemma good_sub c c' :
  good c → wf c' → (∃ l, lruList c' ≡ₚ l ∧ l `sublist_of` lruList c) →
  (∀ p, p ∈ (lruList c').*2 → f_Size (file c' p) = f_Size (file c p)) →
  maxEntries c' = maxEntries c → maxSize c' = maxSize c → good c'.
Proof.
  intros [Hwf Hs Hc Ht Hm] Hwf' (l & Hl & Hsub) Hf He Hx.
  assert (∀ p, p ∈ (lruList c').*2 → p ∈ (lruList c).*2) as Hin.
  { intros p (id & Hp)%snd_elem. rewrite Hl in Hp. apply snd_elem. exists id. by eapply elem_of_sublist. }
  split; [done| | | |by rewrite Hx].
  - intros p Hp. rewrite Hf by done. by apply Hs, Hin.
  - rewrite He. intros H. specialize (Hc H). rewrite Hl. apply sublist_length in Hsub. lia.
  - rewrite Hx. intros H. specialize (Ht H). unfold total. rewrite (total_ext _ (λ p, f_Size (file c p)) _ Hf).
    rewrite (total_perm _ _ _ Hl).
    pose proof (total_sublist (λ p, f_Size (file c p)) l (lruList c) Hs Hsub). unfold total in Ht. lia.
Qed.

Lemma good_removeEntry c path p : good c → entries c !! path = Some p → good (removeEntry c p).
Proof.
  intros Hg Hp. destruct (wf_entry c path p Hg Hp) as (id & l1 & l2 & _ & _ & Hl).
  destruct (removeEntry_split c p id l1 l2 Hg Hl) as (Hl' & Hnot & Hf).
  apply (good_sub c); try done.
  - by apply (wf_remove c path p Hg).
  - exists (l1 ++ l2). rewrite Hl', Hl. split; [done|]. apply sublist_app; [done|by apply sublist_cons].
  - intros q Hq. rewrite Hf; [done|]. intros ->. rewrite Hl' in Hq. done.
Qed.

(** Refreshing the times of an entry and moving it to the front. *)
Lemma good_refresh c p e :
  good c → Path e = Path (file c p) → f_element e = f_element (file c p) → f_Size e = f_Size (file c p) →
  good (move_front (set_file c p e) p).
Proof.
  intros Hg Hp He Hs. pose proof (wf_set_file c p e Hg Hp He Hs) as Hwf1.
  assert (∀ q, f_Size (file (set_file c p e) q) = f_Size (file c q)) as Hsz
    by (intros q; rewrite file_insert; by case_decide; subst).
  apply (good_sub c); try done.
  - by apply wf_move_front.
  - exists (lruList c). split; [|done]. unfold move_front. destruct (f_element (file (set_file c p e) p)); [|reflexivity].
    apply MoveToFront_perm, (w_elems c Hg).
  - intros q _. rewrite <- Hsz. unfold move_front. by destruct (f_element (file (set_file c p e) p)).
  - unfold move_front. by destruct (f_element (file (set_file c p e) p)).
  - unfold move_front. by destruct (f_element (file (set_file c p e) p)).
Qed.

(** A size that can be added to a cache within its limits. *)
Definition size_ok (c : FileCache) (size : Z) : Prop :=
  0 ≤ size ∧ (0 < maxSize c → maxSize c + size ≤ int64_max).

Lemma good_Set now choice c path data size modTime ctype :
  good c → size_ok c size → good (Set_ now choice c path data size modTime ctype).
Proof.
  intros Hg [Hs Hov]. rewrite Set_stored.
  pose proof (stored_spec now choice c path data size modTime ctype Hg) as Hst.
  destruct (stored _ _ _ _ _ _ _ _) as [p c']. cbn [snd].
  destruct Hst as (Hwf & _ & (id & rest & Hl & Hrest & Ht) & (el & Hfp) & Hf & He & Hx & _).
  destruct (evictIfNeeded_spec c' Hwf) as (gone & Hev & Hoc & Hos & _).
  pose proof (ev_limits _ _ _ Hev) as (He' & Hx' & _). pose proof (ev_list _ _ _ Hev) as Hlg.
  assert (∀ q, q ∈ rest.*2 → q ∈ (lruList c).*2 ∧ q ≠ p) as Hr.
  { intros q. rewrite Hrest, list_elem_of_filter. tauto. }
  assert (∀ q, q ∈ (lruList c').*2 → 0 ≤ f_Size (file c' q)) as Hnn.
  { intros q. rewrite Hl. intros [->|Hq]%elem_of_cons; [simpl; by rewrite Hfp|].
    destruct (Hr q Hq). rewrite Hf by done. by apply (good_sizes c Hg). }
  assert (∀ q, q ∈ (lruList (evictIfNeeded c')).*2 → q ∈ (lruList c').*2) as Hin.
  { intros q Hq. rewrite Hlg, fmap_app. apply elem_of_app. by left. }
  assert (total (evictIfNeeded c') = total_of (λ q, f_Size (file c' q)) (lruList (evictIfNeeded c'))) as Hte.
  { unfold total. apply total_ext. intros q Hq. by rewrite (ev_file _ _ _ Hev). }
  assert (0 ≤ total (evictIfNeeded c')) as Hnn'.
  { rewrite Hte. apply total_nonneg. intros q Hq. by apply Hnn, Hin. }
  split; [apply Hev| | | |].
  - intros q Hq. rewrite (ev_file _ _ _ Hev) by done. by apply Hnn, Hin.
  - unfold over_count in Hoc. intros H. bool_to_prop; lia.
  - intros H. unfold over_size in Hos.
    assert (total (evictIfNeeded c') ≤ total c') as Hle.
    { rewrite Hte. unfold total. apply total_sublist; [done|]. rewrite Hlg. by apply sublist_inserts_r. }
    rewrite Hx', Hx in H. specialize (Hov H).
    assert (total_of (λ q, f_Size (file c q)) rest ≤ total c) as Hrt.
    { transitivity (total_of (λ q : fptr, f_Size (file c q)) (filter (λ n : nat * fptr, n.2 ≠ p) (lruList c))).
      - clear -Hrest. revert Hrest. set (l := lruList c). clearbody l. intros Hrest.
        assert (∀ r r' : list (nat * fptr), r.*2 = r'.*2 →
          total_of (λ q, f_Size (file c q)) r = total_of (λ q, f_Size (file c q)) r') as Hsame.
        { induction r as [|[i q] r IH]; intros [|[i' q'] r']; simpl; try done.
          intros [= -> Hr]. by rewrite (IH r'). }
        rewrite (Hsame rest (filter (λ n : nat * fptr, n.2 ≠ p) l)); [done|]. rewrite Hrest. clear.
        induction l as [|[i q] l IH]; [done|]. rewrite fmap_cons, !filter_cons. simpl.
        repeat case_decide; try done; simpl; by rewrite IH.
      - apply total_sublist; [apply Hg|apply sublist_filter]. }
    pose proof (good_total c Hg H).
    assert (currentSize (evictIfNeeded c') = total (evictIfNeeded c')) as Hcur.
    { rewrite (w_size _ (ev_wf _ _ _ Hev)). apply swrap64_id. unfold in_int64, int64_min, int64_max in *. lia. }
    rewrite Hcur, Hx', Hx in *. bool_to_prop; lia.
  - rewrite Hx', Hx. apply Hg.
Qed.

(** ** Concurrent calls

    Each critical section runs alone; between the sections of one call those of
    other calls may run.  What is done under the read lock changes nothing. *)
Inductive section :=
  | SExpire (now : Z) (path : gostring)
  | SMigrate (now : Z) (path : gostring)
  | STouch (now : Z) (path : gostring) (entry : fptr)
  | SSet (now : Z) (choice : nat) (path data : gostring) (size modTime : Z) (contentType : gostring)
  | SDelete (path : gostring)
  | SRefresh (now : Z) (path : gostring).

Definition run_section (c : FileCache) (s : section) : FileCache :=
  match s with
  | SExpire now path => Get_expire now c path
  | SMigrate now path => (Get_migrate now c path).2
  | STouch now path p => Get_touch now c path p
  | SSet now choice path data size modTime ctype => Set_ now choice c path data size modTime ctype
  | SDelete path => Delete c path
  | SRefresh now path => RefreshCachedAt now c path
  end.

(** The limits never change. *)
Definition same_limits (c c' : FileCache) : Prop :=
  maxEntries c' = maxEntries c ∧ maxSize c' = maxSize c ∧ inactive c' = inactive c.

Lemma refresh_limits c p e : same_limits c (move_front (set_file c p e) p).
Proof. unfold move_front. by destruct (f_element (file (set_file c p e) p)). Qed.

Lemma Set_limits now choice c path data size modTime ctype :
  wf c → same_limits c (Set_ now choice c path data size modTime ctype).
Proof.
  intros Hwf. rewrite Set_stored. pose proof (stored_spec now choice c path data size modTime ctype Hwf) as Hst.
  destruct (stored _ _ _ _ _ _ _ _) as [p c']. destruct Hst as (Hwf' & _ & _ & _ & _ & H1 & H2 & H3).
  destruct (evictIfNeeded_spec c' Hwf') as (g & Hev & _).
  destruct (ev_limits _ _ _ Hev) as (? & ? & ?). split_and!; simpl; congruence.
Qed.

Lemma run_section_limits c s : wf c → same_limits c (run_section c s).
Proof.
  intros Hwf. destruct s as [now path|now path|now path p|now choice path data size mt ct|path|now path]; simpl.
  - unfold Get_expire. destruct (entries c !! path); [|done]. by case_match.
  - unfold Get_migrate. destruct (entries c !! path); [|done]. case_match; [done|]. apply refresh_limits.
  - unfold Get_touch. destruct (entries c !! path); [|done]. case_match; [|done]. apply refresh_limits.
  - by apply Set_limits.
  - unfold Delete. by destruct (entries c !! path).
  - unfold RefreshCachedAt. destruct (entries c !! path); [|done]. apply refresh_limits.
Qed.

Definition section_ok (maxSize : Z) (s : section) : Prop :=
  match s with
  | SSet _ _ _ _ size _ _ => 0 ≤ size ∧ (0 < maxSize → maxSize + size ≤ int64_max)
  | _ => True
  end.

Lemma good_section c s : good c → section_ok (maxSize c) s → good (run_section c s).
Proof.
  intros Hg Hs. destruct s as [now path|now path|now path p|now choice path data size mt ct|path|now path]; simpl.
  - unfold Get_expire. destruct (entries c !! path) eqn:Hp; [|done].
    case_match; [by eapply good_removeEntry|done].
  - unfold Get_migrate. destruct (entries c !! path) eqn:Hp; [|done].
    case_match; [by eapply good_removeEntry|by apply good_refresh].
  - unfold Get_touch. destruct (entries c !! path) eqn:Hp; [|done].
    case_match; [by apply good_refresh|done].
  - by apply good_Set.
  - unfold Delete. destruct (entries c !! path) eqn:Hp; [by eapply good_removeEntry|done].
  - unfold RefreshCachedAt. destruct (entries c !! path) eqn:Hp; [by apply good_refresh|done].
Qed.

Lemma file_good_New a b t : b ≤ int64_max → good (NewFileCache a b t).
Proof. intros Hb. split; [apply file_wf_New| |simpl; lia|unfold total; simpl; lia|done]. intros p Hp. by apply elem_of_nil in Hp. Qed.

(** A file larger than the whole cache empties it. *)
Lemma set_too_big (now : Z) (choice : nat) (c : FileCache) (path data : gostring) (size modTime : Z)
    (ctype : gostring) :
  good c → size_ok c size → 0 < maxSize c < size →
  let c' := Set_ now choice c path data size modTime ctype in entries c' = ∅.
Proof.
  intros Hg [Hs0 Hov] Hsize c'. pose proof (good_Set now choice c path data size modTime ctype Hg (conj Hs0 Hov)) as Hg'.
  fold c' in Hg'. subst c'. rewrite Set_stored in *.
  pose proof (stored_spec now choice c path data size modTime ctype Hg) as Hst.
  destruct (stored _ _ _ _ _ _ _ _) as [p c1]. cbn [snd] in *.
  destruct Hst as (Hwf & Hent & (id & rest & Hl & Hrest & Ht) & (el & Hfp) & Hf & He & Hx & _).
  destruct (evictIfNeeded_spec c1 Hwf) as (gone & Hev & _ & _ & Hfirst).
  set (c' := evictIfNeeded c1) in *. pose proof (ev_list _ _ _ Hev) as Hlg. rewrite Hl in Hlg.
  pose proof (ev_limits _ _ _ Hev) as (He' & Hx' & _).
  destruct (lruList c') as [|n l'] eqn:El.
  + apply map_eq. intros k. rewrite lookup_empty. destruct (entries c' !! k) as [q|] eqn:Hq; [|done].
    apply (w_entries c' Hg') in Hq as [_ Hq]. rewrite El in Hq. by apply elem_of_nil in Hq.
  + injection Hlg as <- _. exfalso.
    pose proof (good_total c' Hg' ltac:(lia)) as Htot. unfold total in Htot. rewrite El in Htot. simpl in Htot.
    rewrite (ev_file _ _ _ Hev), Hfp in Htot by (rewrite El; by left). simpl in Htot.
    assert (0 ≤ total_of (λ q, f_Size (file c' q)) l').
    { apply total_nonneg. intros q Hq. apply (good_sizes c' Hg'). rewrite El. by right. }
    lia.
Qed.

(** Any other file is stored, in front of the others. *)
Lemma set_fits (now : Z) (choice : nat) (c : FileCache) (path data : gostring) (size modTime : Z)
    (ctype : gostring) :
  good c → size_ok c size → ¬ (0 < maxSize c < size) →
  let c' := Set_ now choice c path data size modTime ctype in
  ∃ p el gone, entries c' !! path = Some p ∧
    file c' p = mkFile modTime now now el path data size (GenerateETag modTime size) ctype ∧
    (lruList c').*2 ++ gone = p :: filter (λ q, q ≠ p) (lruList c).*2 ∧
    (∀ q g, gone = q :: g →
       (0 < maxEntries c ∧ maxEntries c < zlen (lruList c') + 1) ∨
       (0 < maxSize c ∧ maxSize c < swrap64 (total c' + f_Size (file c q)))).
Proof.
  intros Hg [Hs0 Hov] Hsize c'. pose proof (good_Set now choice c path data size modTime ctype Hg (conj Hs0 Hov)) as Hg'.
  fold c' in Hg'. subst c'. rewrite Set_stored in *.
  pose proof (stored_spec now choice c path data size modTime ctype Hg) as Hst.
  destruct (stored _ _ _ _ _ _ _ _) as [p c1]. cbn [snd] in *.
  destruct Hst as (Hwf & Hent & (id & rest & Hl & Hrest & Ht) & (el & Hfp) & Hf & He & Hx & _).
  destruct (evictIfNeeded_spec c1 Hwf) as (gone & Hev & _ & _ & Hfirst).
  set (c' := evictIfNeeded c1) in *. pose proof (ev_list _ _ _ Hev) as Hlg. rewrite Hl in Hlg.
  pose proof (ev_limits _ _ _ Hev) as (He' & Hx' & _).
  destruct (lruList c') as [|n l'] eqn:El.
  { exfalso. simpl in Hlg. subst gone. destruct (Hfirst (id, p) rest eq_refl) as [[H1 H2]|[H1 H2]].
    - rewrite ?El in H2. simpl in H2. lia.
    - rewrite ?El in H2. cbn [app total_of foldr snd] in H2. rewrite Hfp in H2. cbn [f_Size] in H2.
      rewrite Z.add_0_r in H2. rewrite Hx in H1, H2. specialize (Hov H1).
      rewrite swrap64_id in H2 by (unfold in_int64, int64_min, int64_max in *; lia).
      lia. }
  injection Hlg as <- Hlg. exists p, el, gone.*2.
  assert (p ∈ (lruList c').*2) as Hin by (rewrite El; by left).
  assert (file c' p = file c1 p) as Hfe by by apply (ev_file _ _ _ Hev).
  split_and!.
  + assert ((id, p) ∈ lruList c') as Hin' by (rewrite El; by left).
    destruct (w_lru c' Hg' id p Hin') as [Hp _]. by rewrite Hfe, Hfp in Hp.
  + by rewrite Hfe.
  + rewrite <- Hrest, Hlg, fmap_app. done.
  + intros q g Hq. destruct gone as [|[i q'] gone]; [done|]. injection Hq as <- _.
    destruct (Hfirst (i, q') gone eq_refl) as [[H1 H2]|[H1 H2]]; [left|right].
    * by rewrite He in H1, H2; rewrite ?El in H2.
    * rewrite Hx in H1, H2. split; [done|]. rewrite ?El, total_app in H2. simpl in H2.
      assert (q' ∈ rest.*2) as Hr by (rewrite Hlg, fmap_app; set_solver).
      rewrite Hrest in Hr. apply list_elem_of_filter in Hr as [Hqp Hqin].
      rewrite (Hf q' Hqin Hqp), Z.add_0_r in H2.
      unfold total. rewrite El. simpl. rewrite Hfe.
      rewrite (total_ext (λ q, f_Size (file c' q)) (λ q, f_Size (file c1 q)) l'); [done|].
      intros x Hxx. rewrite (ev_file _ _ _ Hev); [done|]. rewrite El. by right.
Qed.

(** ** Properties *)

(** C10: In every interleaving of concurrent calls the map and the list hold the
    same entries, each entry in use is out of the pool, the size is the sum of
    the sizes of the entries, and neither limit is exceeded. *)
Theorem cache_invariant (a b t : Z) (ss : list section) :
  b ≤ int64_max → (∀ s, s ∈ ss → section_ok b s) →
  let c := foldl run_section (NewFileCache a b t) ss in
  wf c ∧ (0 < a → zlen (lruList c) ≤ a) ∧ (0 < b → total c ≤ b).
Proof.
  intros Hb Hss.
  assert (∀ c, good c → maxEntries c = a → maxSize c = b →
    let c' := foldl run_section c ss in good c' ∧ maxEntries c' = a ∧ maxSize c' = b) as Hr.
  { induction ss as [|s ss IH]; intros c Hg H1 H2; [done|]. simpl.
    destruct (run_section_limits c s Hg) as (H3 & H4 & _).
    apply IH; [intros; apply Hss; by right| |congruence|congruence].
    apply good_section; [done|]. rewrite H2. apply Hss. by left. }
  intros c. destruct (Hr (NewFileCache a b t) (file_good_New a b t Hb) eq_refl eq_refl) as (Hg & H1 & H2).
  fold c in Hg, H1, H2. split_and!; [apply Hg| |].
  - rewrite <- H1. apply Hg.
  - rewrite <- H2. apply Hg.
Qed.

(** After [Set] the file is in the cache with the given contents and most
    recently used, the other entries follow in their old order less a tail of
    the oldest ones, and a tail goes only as far as the limits demand; but a file
    larger than the whole cache empties it. *)
Theorem set_result (now : Z) (choice : nat) (c : FileCache) (path data : gostring) (size modTime : Z)
    (ctype : gostring) :
  good c → size_ok c size →
  let c' := Set_ now choice c path data size modTime ctype in
  if (0 <? maxSize c) && (maxSize c <? size) then entries c' = ∅
  else ∃ p el gone, entries c' !! path = Some p ∧
    file c' p = mkFile modTime now now el path data size (GenerateETag modTime size) ctype ∧
    (lruList c').*2 ++ gone = p :: filter (λ q, q ≠ p) (lruList c).*2 ∧
    (∀ q g, gone = q :: g →
       (0 < maxEntries c ∧ maxEntries c < zlen (lruList c') + 1) ∨
       (0 < maxSize c ∧ maxSize c < swrap64 (total c' + f_Size (file c q)))).
Proof.
  intros Hg Hs c'. destruct ((0 <? maxSize c) && (maxSize c <? size)) eqn:Hbig.
  - bool_to_prop. by apply set_too_big.
  - apply set_fits; [done|done|]. bool_to_prop; lia.
Qed.

(** What [Set] stored [Get] returns, unchanged, while the file stays in the
    cache and is not idle for longer than the limit. *)
Theorem get_after_set (now now' : Z) (choice : nat) (c : FileCache) (path data : gostring)
    (size modTime : Z) (ctype : gostring) :
  good c → size_ok c size → ¬ (0 < maxSize c < size) →
  0 ≤ now' - now ≤ inactive c → now' - now ≤ int64_max →
  let c' := Set_ now choice c path data size modTime ctype in
  ∃ p, (Get now' c' path).1 = Some p ∧
    Data (file (Get now' c' path).2 p) = data ∧ f_Size (file (Get now' c' path).2 p) = size ∧
    ETag (file (Get now' c' path).2 p) = GenerateETag modTime size.
Proof.
  intros Hg Hs Hbig Hidle Hmax c'.
  assert (∃ p el, entries c' !! path = Some p ∧
    file c' p = mkFile modTime now now el path data size (GenerateETag modTime size) ctype) as (p & el & Hp & Hfp).
  { destruct (set_fits now choice c path data size modTime ctype Hg Hs Hbig) as (p & el & _ & ? & ? & _). eauto. }
  assert (inactive c' = inactive c) as Hin by apply (Set_limits now choice c path data size modTime ctype Hg).
  exists p. unfold Get, Get_read. rewrite Hp. unfold is_inactive. rewrite Hfp, Hin. cbn [LastAccess CachedAt].
  assert (time_sub now' now = now' - now) as Hsub by (unfold time_sub, int64_min; lia).
  rewrite Hsub, (proj2 (Z.ltb_ge _ _)) by lia.
  assert (∀ e, file (move_front (set_file c' p e) p) p = e) as Hfm.
  { intros e. unfold move_front. destruct (f_element (file (set_file c' p e) p));
      [change (file (set_lru ?x ?y) p) with (file x p)|]; by rewrite file_insert, decide_True. }
  destruct (now =? zero_time).
  - unfold Get_migrate. rewrite Hp. unfold is_inactive. rewrite Hfp, Hin. cbn [LastAccess].
    rewrite Hsub, (proj2 (Z.ltb_ge _ _)) by lia. cbn [fst snd]. by rewrite Hfm.
  - cbn [fst snd]. split; [done|]. case_match; [|by rewrite Hfp].
    unfold Get_touch. rewrite Hp, decide_True by done. by rewrite Hfm, Hfp.
Qed.

(** Access times are refreshed at most every five seconds, whatever the idle
    limit: with a limit of four seconds a file that is read every two seconds
    still expires. *)
Theorem hot_entry_expires :
  let c0 := Set_ 0 0 (NewFileCache 10 0 (4 * second)) (go!"/a") (go!"x") 1 0 [] in
  let '(r1, c1) := Get (2 * second) c0 (go!"/a") in
  let '(r2, c2) := Get (4 * second) c1 (go!"/a") in
  let '(r3, _) := Get (6 * second) c2 (go!"/a") in
  is_Some r1 ∧ is_Some r2 ∧ r3 = None.
Proof. vm_compute. split_and!; [by eexists..|done]. Qed.

(** [Get] hands out a pointer that the cache recycles: after the file has
    been evicted, the caller of an earlier [Get] reads the contents of another
    file through it. *)
Theorem returned_entry_is_recycled :
  let c0 := Set_ 0 0 (NewFileCache 1 0 (60 * second)) (go!"/a") (go!"A") 1 0 [] in
  let '(r, c1) := Get 1 c0 (go!"/a") in
  let c2 := Set_ 3 0 (Set_ 2 0 c1 (go!"/b") (go!"B") 1 0 []) (go!"/c") (go!"C") 1 0 [] in
  ∃ p, r = Some p ∧ Data (file c1 p) = go!"A" ∧ Path (file c2 p) = go!"/c" ∧ Data (file c2 p) = go!"C".
Proof. exists 0%nat. by vm_compute. Qed.

(** ** Witnesses *)

Definition ex_sections : list section :=
  [SSet 0 0 (go!"/a") (go!"aa") 2 7 []; SSet 1 0 (go!"/b") (go!"bbb") 3 8 [];
   STouch 9 (go!"/a") 0; SSet 10 0 (go!"/c") (go!"c") 1 9 []; SExpire 99 (go!"/a")].

Definition ex_cache : FileCache := foldl run_section (NewFileCache 2 5 (10 * second)) (take 3 ex_sections).

Lemma ex_sections_ok s : s ∈ ex_sections → section_ok 5 s.
Proof.
  unfold ex_sections. rewrite !elem_of_cons, elem_of_nil.
  intros Hs. destruct_or? Hs; subst; simpl; try done; unfold int64_max; lia.
Qed.

Lemma cache_invariant_witness :
  let c := foldl run_section (NewFileCache 2 5 (10 * second)) ex_sections in
  wf c ∧ (0 < 2 → zlen (lruList c) ≤ 2) ∧ (0 < 5 → total c ≤ 5).
Proof.
  apply (cache_invariant 2 5 (10 * second) ex_sections); [vm_compute; discriminate|apply ex_sections_ok].
Defined.

Lemma ex_cache_good : good ex_cache.
Proof.
  unfold ex_cache. cbn [take ex_sections foldl].
  repeat apply good_section; try done; try (vm_compute; intuition discriminate).
  apply file_good_New. by vm_compute.
Qed.

(** The fourth store takes the third place: [/b], the oldest, goes. *)
Lemma set_result_witness :
  let c' := Set_ 10 0 ex_cache (go!"/c") (go!"c") 1 9 [] in
  ∃ p el gone, entries c' !! (go!"/c") = Some p ∧
    file c' p = mkFile 9 10 10 el (go!"/c") (go!"c") 1 (GenerateETag 9 1) [] ∧
    (lruList c').*2 ++ gone = p :: filter (λ q, q ≠ p) [0; 1]%nat ∧
    (∀ q g, gone = q :: g → (0 < 2 ∧ 2 < zlen (lruList c') + 1) ∨
       (0 < 5 ∧ 5 < swrap64 (total c' + f_Size (file ex_cache q)))).
Proof.
  apply (set_result 10 0 ex_cache (go!"/c") (go!"c") 1 9 [] ex_cache_good).
  split; [lia|]. intros _. by vm_compute.
Defined.

Lemma get_after_set_witness :
  let c' := Set_ 10 0 ex_cache (go!"/c") (go!"c") 1 9 [] in
  ∃ p, (Get 20 c' (go!"/c")).1 = Some p ∧ Data (file (Get 20 c' (go!"/c")).2 p) = go!"c" ∧
    f_Size (file (Get 20 c' (go!"/c")).2 p) = 1 ∧
    ETag (file (Get 20 c' (go!"/c")).2 p) = GenerateETag 9 1.
Proof.
  apply (get_after_set 10 20 0 ex_cache (go!"/c") (go!"c") 1 9 [] ex_cache_good).
  - split; [lia|]. intros _. by vm_compute.
  - intros [_ H]. by vm_compute in H.
  - by vm_compute.
  - by vm_compute.
Defined.
