(* ===== verification/ProxyCache.v ===== *)
(** * ProxyCache: the response cache of the proxy

    The cache of [src/internal/cache/file_cache.go] (second half), the keys of
    [src/internal/proxy/cache_handler.go] and [proxy.go], and the purge requests
    of [src/internal/server/purge.go]: which requests and responses a rule
    covers, when an entry is fresh, stale or gone, and the lock that lets one
    request at a time fill an entry. *)

From S2P Require Import Prelude GoStrings Hash.

(** ** Patterns and rules *)

Definition MatchPattern (pattern path : gostring) : bool :=
  if decide (pattern = go!"*") then true
  else if HasSuffix pattern (go!"/") then HasPrefix path pattern
  else if negb (ContainsByte pattern "*") then bool_decide (path = pattern)
  else match CutSuffix pattern (go!"*") with
       | Some prefix => HasPrefix path prefix
       | None =>
           match SplitByte pattern "*" with
           | [a; b] => HasPrefix path a && HasSuffix path b
           | _ => false
           end
       end.

Record ProxyCacheRule := mkRule {
  r_Path : gostring; r_Methods : list gostring; r_Statuses : list Z; r_MaxAge : Z }.

Definition matchPath (rulePath path : gostring) : bool :=
  if decide (rulePath = []) then true
  else if HasSuffix rulePath (go!"/") then HasPrefix path rulePath
  else if ContainsByte rulePath "*" then MatchPattern rulePath path
  else if decide (path = rulePath) then true
  else HasPrefix path (rulePath ++ go!"/") || HasPrefix path (rulePath ++ go!"?").

Definition matchMethod (methods : list gostring) (method : gostring) : bool :=
  match methods with [] => true | _ => bool_decide (method ∈ methods) end.

Definition matchStatus (statuses : list Z) (status : Z) : bool :=
  match statuses with [] => true | _ => bool_decide (status ∈ statuses) end.

Fixpoint MatchRule (rules : list ProxyCacheRule) (path method : gostring) (status : Z)
  : option ProxyCacheRule :=
  match rules with
  | [] => None
  | r :: rest =>
      if negb (matchPath (r_Path r) path) then MatchRule rest path method status
      else if negb (matchMethod (r_Methods r) method) then MatchRule rest path method status
      else if negb (matchStatus (r_Statuses r) status) then MatchRule rest path method status
      else Some r
  end.

(** ** Keys *)

(** [HashPathWithMethod]: the standard library's FNV-1a of [method:path]. *)
Definition HashPathWithMethod (path method : gostring) : Z :=
  let method := if decide (method = []) then go!"GET" else method in
  FNV64aBytes (method ++ go!":" ++ path).

(** What a key is computed from: the parts of a request. [header] is
    [ctx.Request.Header.Peek]. *)
Record request := mkRequest {
  q_method : gostring; q_host : gostring; q_uri : gostring; header : gostring → gostring }.

(** One round of the loops: a colon, then the bytes. *)
Definition hash_part (h : Z) (b : gostring) : Z := foldl fnv_step (fnv_step h ":"%char) b.

Definition buildCacheKeyHashWithHost (q : request) (host : gostring) (varyHeaders : list gostring)
  : Z * gostring :=
  let h := foldl hash_part fnv_offset [q_method q; host; q_uri q] in
  let h := foldl (λ h name, hash_part h (header q name)) h varyHeaders in
  let origKey := q_method q ++ go!":" ++ host ++ q_uri q in
  (h, foldl (λ k name, k ++ go!":" ++ name ++ go!"=" ++ header q name) origKey varyHeaders).

Definition buildCacheKeyHash (q : request) (varyHeaders : list gostring) : Z * gostring :=
  buildCacheKeyHashWithHost q (q_host q) varyHeaders.

(** The loop over the parts of the response's [Vary] header. *)
Fixpoint vary_loop (parts : list gostring) (seen : gset gostring) (result : list gostring)
  : list gostring :=
  match parts with
  | [] => result
  | part :: rest =>
      let name := TrimSpace part in
      if decide (name = []) then vary_loop rest seen result
      else if decide (ToLower name ∈ seen) then vary_loop rest seen result
      else vary_loop rest ({[ToLower name]} ∪ seen) (result ++ [name])
  end.

Definition cacheVaryHeaders (configured : list gostring) (varyResponse : gostring) : list gostring :=
  match varyResponse with
  | [] => configured
  | _ => vary_loop (SplitByte varyResponse ",") (list_to_set (ToLower <$> configured)) configured
  end.

Record CacheValid := mkValid {
  v_OK : Z; v_Redirect : Z; v_NotFound : Z; v_ClientError : Z; v_ServerError : Z }.

Definition getCacheDuration (valid : option CacheValid) (maxAge statusCode : Z) : Z :=
  match valid with
  | None => maxAge
  | Some cv =>
      if (200 <=? statusCode) && (statusCode <? 300) then
        if 0 <? v_OK cv then v_OK cv else maxAge
      else if (statusCode =? 301) || (statusCode =? 302) then v_Redirect cv
      else if statusCode =? 404 then v_NotFound cv
      else if (400 <=? statusCode) && (statusCode <? 500) then v_ClientError cv
      else if 500 <=? statusCode then v_ServerError cv
      else 0
  end.

(** ** Entries *)

Record ProxyCacheEntry := mkPEntry {
  Created : Z; Headers : list (gostring * gostring); Key : gostring; OrigKey : gostring;
  p_Data : gostring; Status : Z; MaxAge : Z; Uses : Z; Updating : bool;
  LastModified : gostring; p_ETag : gostring; LastValidated : Z }.

(** The cache; a pending request is its channel, and [closed] are the channels
    that have been closed, [next_chan] the next one to be made. *)
Record ProxyCache := mkPCache {
  p_entries : gmap Z ProxyCacheEntry;
  pending : gmap Z nat;
  rules : list ProxyCacheRule;
  staleTime : Z;
  staleIfError : Z;
  staleIfTimeout : Z;
  cacheLock : bool;
  closed : gset nat;
  next_chan : nat
}.

Definition NewProxyCache (rules : list ProxyCacheRule) (cacheLock : bool)
    (staleTime staleIfError staleIfTimeout : Z) : ProxyCache :=
  mkPCache ∅ ∅ rules staleTime staleIfError staleIfTimeout cacheLock ∅ 0.

Definition with_entries (c : ProxyCache) (m : gmap Z ProxyCacheEntry) : ProxyCache :=
  mkPCache m (pending c) (rules c) (staleTime c) (staleIfError c) (staleIfTimeout c)
    (cacheLock c) (closed c) (next_chan c).

Definition used (e : ProxyCacheEntry) : ProxyCacheEntry :=
  let u := Uses e + 1 in
  mkPEntry (Created e) (Headers e) (Key e) (OrigKey e) (p_Data e) (Status e) (MaxAge e)
    ((u + 2 ^ 31) mod 2 ^ 32 - 2 ^ 31) (Updating e) (LastModified e) (p_ETag e) (LastValidated e).

(** The entry, found and stale; the counter of its uses goes up even when it has
    expired. *)
Definition PGet (now : Z) (c : ProxyCache) (hashKey : Z) (origKey : gostring)
  : (option ProxyCacheEntry * bool * bool) * ProxyCache :=
  match p_entries c !! hashKey with
  | None => ((None, false, false), c)
  | Some e =>
      if decide (OrigKey e = origKey) then
        let e := used e in
        let c := with_entries c (<[hashKey := e]> (p_entries c)) in
        if MaxAge e <? time_sub now (Created e) then
          if (0 <? staleTime c) && (time_sub now (Created e) <=? swrap64 (MaxAge e + staleTime c))
          then ((Some e, true, true), c)
          else ((None, false, false), c)
        else ((Some e, true, false), c)
      else ((None, false, false), c)
  end.

Definition GetStale (now : Z) (c : ProxyCache) (hashKey : Z) (origKey : gostring) (isTimeout : bool)
  : option ProxyCacheEntry :=
  match p_entries c !! hashKey with
  | None => None
  | Some e =>
      if decide (OrigKey e = origKey) then
        let expiresAt := Created e + MaxAge e in
        if negb (time_after now expiresAt) then Some e
        else
          let window := if isTimeout then staleIfTimeout c else staleIfError c in
          if window <=? 0 then None
          else if window <? time_sub now expiresAt then None
          else Some e
      else None
  end.

(** [close(pending.done)] and [delete(c.pending, hashKey)]; closing a closed
    channel panics, which is [None]. *)
Definition wake (c : ProxyCache) (hashKey : Z) : option ProxyCache :=
  match pending c !! hashKey with
  | Some ch =>
      if decide (ch ∈ closed c) then None
      else Some (mkPCache (p_entries c) (delete hashKey (pending c)) (rules c) (staleTime c)
                   (staleIfError c) (staleIfTimeout c) (cacheLock c) ({[ch]} ∪ closed c) (next_chan c))
  | None => Some c
  end.

Definition PSet (now : Z) (c : ProxyCache) (hashKey : Z) (origKey data : gostring)
    (headers : list (gostring * gostring)) (status maxAge : Z) : option ProxyCache :=
  let e := mkPEntry now headers origKey origKey data status maxAge 0 false [] [] zero_time in
  wake (with_entries c (<[hashKey := e]> (p_entries c))) hashKey.

(** What the locked part of [AcquireLockWithTimeout] decides: no waiting (the
    lock is off, or the entry exists), the lock is granted, or another request
    is generating the entry and this one waits on its channel. *)
Inductive lock_decision :=
  | LNone
  | LGranted
  | LWait (ch : nat).

Definition AcquireLock (c : ProxyCache) (hashKey : Z) : lock_decision * ProxyCache :=
  if negb (cacheLock c) then (LNone, c)
  else match p_entries c !! hashKey with
       | Some _ => (LNone, c)
       | None =>
           match pending c !! hashKey with
           | Some ch => (LWait ch, c)
           | None =>
               (LGranted,
                mkPCache (p_entries c) (<[hashKey := next_chan c]> (pending c)) (rules c) (staleTime c)
                  (staleIfError c) (staleIfTimeout c) (cacheLock c) (closed c) (S (next_chan c)))
           end
       end.

(** The rest of the call: with a time-out it waits itself, until the channel is
    closed or the time is over ([fired]); [None] while it still waits. *)
Definition lock_result (timeout : Z) (c : ProxyCache) (fired : bool) (d : lock_decision)
  : option (option nat * bool) :=
  match d with
  | LNone | LGranted => Some (None, false)
  | LWait ch =>
      if 0 <? timeout then
        if decide (ch ∈ closed c) then Some (None, false)
        else if fired then Some (None, true) else None
      else Some (Some ch, false)
  end.

Definition ReleaseLock (c : ProxyCache) (hashKey : Z) : option ProxyCache :=
  if negb (cacheLock c) then Some c else wake c hashKey.

Definition PDelete (c : ProxyCache) (hashKey : Z) : ProxyCache :=
  with_entries c (delete hashKey (p_entries c)).

(** The entries a pattern purge takes. *)
Definition purged (pattern method : gostring) (e : ProxyCacheEntry) : bool :=
  MatchPattern pattern (OrigKey e) &&
  (bool_decide (method = []) || HasPrefix (OrigKey e) (method ++ go!":")).

Definition DeleteByPatternWithMethod (c : ProxyCache) (pattern method : gostring) : Z * ProxyCache :=
  let gone := filter (λ ke, purged pattern method ke.2 = true) (p_entries c) in
  (Z.of_nat (size gone), with_entries c (filter (λ ke, purged pattern method ke.2 = false) (p_entries c))).

Definition RefreshTTL (now : Z) (c : ProxyCache) (hashKey : Z) (origKey : gostring)
    (newHeaders : option (gmap gostring gostring)) : bool * ProxyCache :=
  match p_entries c !! hashKey with
  | None => (false, c)
  | Some e =>
      if decide (OrigKey e = origKey) then
        let get k d := match newHeaders with Some m => default d (m !! k) | None => d end in
        let e' := mkPEntry (Created e) (Headers e) (Key e) (OrigKey e) (p_Data e) (Status e) (MaxAge e)
                    (Uses e) (Updating e) (get (go!"Last-Modified") (LastModified e))
                    (get (go!"ETag") (p_ETag e)) now in
        (true, with_entries c (<[hashKey := e']> (p_entries c)))
      else (false, c)
  end.

Definition SetValidationHeaders (c : ProxyCache) (hashKey : Z) (origKey lastModified etag : gostring)
  : bool * ProxyCache :=
  match p_entries c !! hashKey with
  | None => (false, c)
  | Some e =>
      if decide (OrigKey e = origKey) then
        let e' := mkPEntry (Created e) (Headers e) (Key e) (OrigKey e) (p_Data e) (Status e) (MaxAge e)
                    (Uses e) (Updating e) lastModified etag (LastValidated e) in
        (true, with_entries c (<[hashKey := e']> (p_entries c)))
      else (false, c)
  end.

(** ** Purge requests *)

(** The caches of the server's proxies, [None] where caching is off. *)
Fixpoint purgeByPath (caches : list (option ProxyCache)) (path method : gostring)
  : Z * list (option ProxyCache) :=
  match caches with
  | [] => (0, [])
  | o :: rest =>
      let '(n, rest) := purgeByPath rest path method in
      match o with
      | Some c => (n + 1, Some (PDelete c (HashPathWithMethod path method)) :: rest)
      | None => (n, None :: rest)
      end
  end.

Fixpoint purgeByPattern (caches : list (option ProxyCache)) (pattern method : gostring)
  : Z * list (option ProxyCache) :=
  match caches with
  | [] => (0, [])
  | o :: rest =>
      let '(n, rest) := purgeByPattern rest pattern method in
      match o with
      | Some c => let '(k, c') := DeleteByPatternWithMethod c pattern method in (n + k, Some c' :: rest)
      | None => (n, None :: rest)
      end
  end.

Inductive purge_reply :=
  | MethodNotAllowed | Forbidden | Unauthorized | InvalidBody | MissingTarget
  | Deleted (n : Z).

(** [body] is the decoded JSON: path, pattern and method; [allowed] and
    [authorized] the answers of [CheckIPAccess] and [CheckTokenAuth]. *)
Definition purge_ServeHTTP (caches : list (option ProxyCache)) (method : gostring)
    (allowed authorized : bool) (body : option (gostring * gostring * gostring))
  : purge_reply * list (option ProxyCache) :=
  if negb (bool_decide (method = go!"POST")) then (MethodNotAllowed, caches)
  else if negb allowed then (Forbidden, caches)
  else if negb authorized then (Unauthorized, caches)
  else match body with
       | None => (InvalidBody, caches)
       | Some (path, pattern, m) =>
           if negb (bool_decide (path = [])) then
             let '(n, cs) := purgeByPath caches path m in (Deleted n, cs)
           else if negb (bool_decide (pattern = [])) then
             let '(n, cs) := purgeByPattern caches pattern m in (Deleted n, cs)
           else (MissingTarget, caches)
       end.

(** ** Lemmas on patterns *)

Lemma HasSuffix_snoc s c d : HasSuffix (s ++ [c]) [d] = Ascii.eqb d c.
Proof.
  unfold HasSuffix. rewrite reverse_app. simpl. unfold HasPrefix.
  by destruct (Ascii.eqb d c); [destruct (reverse s)|].
Qed.

Lemma HasSuffix_app_ne a b c : b ≠ [] → HasSuffix (a ++ b) [c] = HasSuffix b [c].
Proof.
  intros Hb. destruct b as [|d b _] using rev_ind; [done|]. by rewrite app_assoc, !HasSuffix_snoc.
Qed.

Lemma CutSuffix_snoc s c : CutSuffix (s ++ [c]) [c] = Some s.
Proof.
  unfold CutSuffix. rewrite HasSuffix_snoc, Ascii.eqb_refl. f_equal.
  rewrite length_app. simpl. replace (length s + 1 - 1)%nat with (length s) by lia. apply take_app_length.
Qed.

Lemma HasSuffix_not_in b c : c ∉ b → HasSuffix b [c] = false.
Proof.
  intros Hc. destruct b as [|d b _] using rev_ind; [done|]. rewrite HasSuffix_snoc.
  apply Ascii.eqb_neq. intros ->. set_solver.
Qed.

(** A pattern with one star is a prefix and a suffix. *)
Lemma MatchPattern_star a b path :
  "*"%char ∉ a → "*"%char ∉ b → HasSuffix b (go!"/") = false →
  MatchPattern (a ++ "*"%char :: b) path = HasPrefix path a && HasSuffix path b.
Proof.
  intros Ha Hb Hs. unfold MatchPattern.
  change (go!"/") with ["/"%char] in *. change (go!"*") with ["*"%char] in *. case_decide as Hall.
  { destruct a as [|c a]; [injection Hall as ->|].
    - unfold HasSuffix. by destruct (reverse path), path.
    - injection Hall as -> Hn. by destruct a. }
  assert (HasSuffix (a ++ "*"%char :: b) ["/"%char] = false) as ->.
  { destruct (decide (b = [])) as [->|Hbn]; [apply HasSuffix_snoc|].
    rewrite cons_middle, app_assoc. by rewrite HasSuffix_app_ne. }
  rewrite (proj2 (ContainsByte_spec _ _)) by set_solver. simpl.
  destruct (decide (b = [])) as [->|Hbn].
  - rewrite CutSuffix_snoc. unfold HasSuffix. simpl. by destruct (reverse path); rewrite andb_true_r.
  - unfold CutSuffix at 1. rewrite cons_middle, app_assoc.
    rewrite HasSuffix_app_ne, HasSuffix_not_in by done.
    rewrite <- app_assoc. simpl. by rewrite SplitByte_app, SplitByte_none.
Qed.

Lemma prefix_suffix_middle (a b s : gostring) :
  a `prefix_of` s → b `suffix_of` s → (length a + length b ≤ length s)%nat →
  ∃ m, s = a ++ m ++ b.
Proof.
  intros [k ->] [k' Hk] Hlen. rewrite length_app in Hlen.
  apply List.app_eq_app in Hk as (l & [[-> ->]|[-> ->]]).
  - rewrite !length_app in Hlen. destruct l; [|simpl in Hlen; lia]. exists []. by rewrite app_nil_r.
  - by exists l.
Qed.

(** ** Keys *)

Lemma hash_part_app h b : hash_part h b = foldl fnv_step h (":"%char :: b).
Proof. done. Qed.

(** The hash is the FNV-1a hash of the parts, each after a colon. *)
Definition joined (parts : list gostring) : gostring := concat ((λ b, ":"%char :: b) <$> parts).

Lemma foldl_hash_part h parts : foldl hash_part h parts = foldl fnv_step h (joined parts).
Proof.
  revert h. induction parts as [|b parts IH]; intros h; [done|]. unfold joined.
  cbn [foldl fmap list_fmap concat]. rewrite IH, hash_part_app, <- foldl_app. done.
Qed.

Lemma vary_loop_spec parts seen result :
  (∀ n, ToLower n ∈ seen ↔ ToLower n ∈ ToLower <$> result) → NoDup (ToLower <$> result) →
  let r := vary_loop parts seen result in
  NoDup (ToLower <$> r) ∧ result `prefix_of` r ∧
  (∀ n, n ∈ r → n ∈ result ∨ (n ≠ [] ∧ n ∈ TrimSpace <$> parts)) ∧
  (∀ p, p ∈ parts → TrimSpace p = [] ∨ ToLower (TrimSpace p) ∈ ToLower <$> r).
Proof.
  revert seen result. induction parts as [|p parts IH]; intros seen result Hseen Hnd; simpl.
  { split_and!; [done|done|by left|by intros ? ?%elem_of_nil]. }
  case_decide as Hempty; [|case_decide as Hin].
  - destruct (IH seen result Hseen Hnd) as (H1 & H2 & H3 & H4). split_and!; [done|done| |].
    + intros n [?|[? ?]]%H3; [by left|right; set_solver].
    + intros q [->|Hq]%elem_of_cons; [by left|by apply H4].
  - destruct (IH seen result Hseen Hnd) as (H1 & H2 & H3 & H4). split_and!; [done|done| |].
    + intros n [?|[? ?]]%H3; [by left|right; set_solver].
    + intros q [->|Hq]%elem_of_cons; [right|by apply H4]. apply Hseen in Hin.
      destruct H2 as [k Hk]. rewrite Hk, fmap_app. apply elem_of_app. by left.
  - destruct (IH ({[ToLower (TrimSpace p)]} ∪ seen) (result ++ [TrimSpace p])) as (H1 & H2 & H3 & H4).
    + intros n. rewrite fmap_app, elem_of_union, elem_of_app, Hseen. set_solver.
    + rewrite fmap_app. apply NoDup_app. split_and!; [done| |apply NoDup_singleton].
      intros x Hx ->%list_elem_of_singleton. by apply Hin, Hseen.
    + split_and!; [done|by eapply prefix_app_l| |].
      * intros n [Hn|[? ?]]%H3; [|right; set_solver]. apply elem_of_app in Hn as [?|?%list_elem_of_singleton];
          [by left|right; set_solver].
      * intros q [->|Hq]%elem_of_cons; [right|by apply H4].
        destruct H2 as [k Hk]. rewrite Hk, !fmap_app. set_solver.
Qed.

(** ** The lock *)

(** What runs under the cache's mutex, or on its entries. *)
Inductive psection :=
  | PGetS (now : Z) (k : Z) (origKey : gostring)
  | PAcquireS (k : Z)
  | PSetS (now k : Z) (origKey data : gostring) (headers : list (gostring * gostring)) (status maxAge : Z)
  | PReleaseS (k : Z)
  | PDeleteS (k : Z)
  | PPurgeS (pattern method : gostring)
  | PRefreshS (now k : Z) (origKey : gostring) (headers : option (gmap gostring gostring))
  | PValidateS (k : Z) (origKey lastModified etag : gostring).

Definition run_psection (c : ProxyCache) (s : psection) : option ProxyCache :=
  match s with
  | PGetS now k ok => Some (PGet now c k ok).2
  | PAcquireS k => Some (AcquireLock c k).2
  | PSetS now k ok d hd st ma => PSet now c k ok d hd st ma
  | PReleaseS k => ReleaseLock c k
  | PDeleteS k => Some (PDelete c k)
  | PPurgeS p m => Some (DeleteByPatternWithMethod c p m).2
  | PRefreshS now k ok hd => Some (RefreshTTL now c k ok hd).2
  | PValidateS k ok lm et => Some (SetValidationHeaders c k ok lm et).2
  end.

Fixpoint run_psections (c : ProxyCache) (ss : list psection) : option ProxyCache :=
  match ss with
  | [] => Some c
  | s :: ss => match run_psection c s with Some c => run_psections c ss | None => None end
  end.

(** Does a section wake the waiters of key [k]? *)
Definition wakes (k : Z) (s : psection) : Prop :=
  match s with PSetS _ k' _ _ _ _ _ | PReleaseS k' => k' = k | _ => False end.

Record lock_inv (c : ProxyCache) : Prop := {
  li_open k ch : pending c !! k = Some ch → ch ∉ closed c;
  li_next k ch : pending c !! k = Some ch → (ch < next_chan c)%nat;
  li_closed ch : ch ∈ closed c → (ch < next_chan c)%nat;
  li_inj k k' ch : pending c !! k = Some ch → pending c !! k' = Some ch → k = k'
}.

(** Sections that leave the lock alone. *)
Definition same_lock (c c' : ProxyCache) : Prop :=
  pending c' = pending c ∧ closed c' = closed c ∧ next_chan c' = next_chan c ∧ cacheLock c' = cacheLock c.

Lemma lock_inv_same c c' : same_lock c c' → lock_inv c → lock_inv c'.
Proof. intros (H1 & H2 & H3 & _) []. split; rewrite ?H1, ?H2, ?H3; done. Qed.

Lemma wake_spec c k :
  lock_inv c →
  ∃ c', wake c k = Some c' ∧ lock_inv c' ∧ cacheLock c' = cacheLock c ∧ next_chan c' = next_chan c ∧
    pending c' = delete k (pending c) ∧
    (∀ ch, pending c !! k = Some ch → ch ∈ closed c') ∧ closed c ⊆ closed c'.
Proof.
  intros Hinv. unfold wake. destruct (pending c !! k) as [ch|] eqn:Hk.
  - rewrite decide_False by by eapply li_open. eexists. split; [done|]. split_and!; simpl; try done; try set_solver.
    destruct Hinv as [Ho Hn Hc Hi]. split; simpl.
    + intros k' ch' [Hne Hk']%lookup_delete_Some. rewrite elem_of_union, elem_of_singleton.
      intros [->|Hcl]; [by apply Hne, (Hi k k' ch)|by eapply Ho].
    + intros k' ch' [_ ?]%lookup_delete_Some. by eapply Hn.
    + intros ch' [->%elem_of_singleton|?]%elem_of_union; [by eapply Hn|by apply Hc].
    + intros k' k'' ch' [_ ?]%lookup_delete_Some [_ ?]%lookup_delete_Some. by eapply Hi.
  - exists c. split_and!; try done. by rewrite delete_id.
Qed.

Lemma PGet_lock now c k ok : same_lock c (PGet now c k ok).2.
Proof. unfold PGet. destruct (p_entries c !! k); [|done]. case_decide; [|done]. by repeat case_match. Qed.

Lemma run_psection_spec c s :
  lock_inv c →
  ∃ c', run_psection c s = Some c' ∧ lock_inv c' ∧ closed c ⊆ closed c' ∧ cacheLock c' = cacheLock c ∧
    (∀ k ch, ¬ wakes k s → pending c !! k = Some ch → pending c' !! k = Some ch).
Proof.
  intros Hinv.
  assert (∀ c', same_lock c c' → lock_inv c' ∧ closed c ⊆ closed c' ∧ cacheLock c' = cacheLock c ∧
    ∀ k ch, ¬ wakes k s → pending c !! k = Some ch → pending c' !! k = Some ch) as Hsame.
  { intros c' Hs. split; [by eapply lock_inv_same|]. destruct Hs as (-> & -> & _ & ->). by split_and!. }
  assert (∀ c0 k, same_lock c c0 → (∀ k', wakes k' s ↔ k = k') →
    ∃ c', wake c0 k = Some c' ∧ lock_inv c' ∧ closed c ⊆ closed c' ∧ cacheLock c' = cacheLock c ∧
    ∀ k ch, ¬ wakes k s → pending c !! k = Some ch → pending c' !! k = Some ch) as Hwake.
  { intros c0 k Hs Hk. destruct (wake_spec c0 k) as (c' & Hc' & Hinv' & Hcl & _ & Hp & _ & Hsub).
    { by eapply lock_inv_same. }
    destruct Hs as (Hs1 & Hs2 & _ & Hs4). exists c'. split_and!; [done|done|by rewrite <- Hs2|congruence|].
    intros k' ch Hw Hch. rewrite Hp, lookup_delete_ne by by rewrite <- Hk. by rewrite Hs1. }
  destruct s as [now k ok|k|now k ok d hd st ma|k|k|p m|now k ok hd|k ok lm et]; cbn [run_psection].
  - eexists. split; [done|]. apply Hsame, PGet_lock.
  - eexists. split; [done|]. unfold AcquireLock. destruct (cacheLock c) eqn:El; simpl; [|by apply Hsame].
    destruct (p_entries c !! k); [by apply Hsame|]. destruct (pending c !! k) as [ch|] eqn:Hk; simpl; [by apply Hsame|].
    destruct Hinv as [Ho Hn Hc Hi]. split_and!; [|done|done|].
    + split; simpl.
      * intros k' ch [[<- <-]|[_ Hk']]%lookup_insert_Some; [|by eapply Ho]. intros ?%Hc. lia.
      * intros k' ch [[<- <-]|[_ Hk']]%lookup_insert_Some; [lia|]. apply Hn in Hk'. lia.
      * intros ch Hch%Hc. lia.
      * intros k1 k2 ch [[<- <-]|[_ H1]]%lookup_insert_Some [[<- ?]|[_ H2]]%lookup_insert_Some; try done.
        -- apply Hn in H2. lia.
        -- subst. apply Hn in H1. lia.
        -- by eapply Hi.
    + intros k' ch' _ Hch'. rewrite lookup_insert_ne; [done|]. congruence.
  - apply Hwake; [done|]. done.
  - unfold ReleaseLock. destruct (cacheLock c) eqn:El; simpl.
    + by apply Hwake.
    + eexists. split; [done|]. by apply Hsame.
  - eexists. split; [done|]. by apply Hsame.
  - eexists. split; [done|]. by apply Hsame.
  - eexists. split; [done|]. apply Hsame. unfold RefreshTTL. destruct (p_entries c !! k); [|done]. by case_decide.
  - eexists. split; [done|]. apply Hsame. unfold SetValidationHeaders. destruct (p_entries c !! k); [|done]. by case_decide.
Qed.

Lemma run_psections_spec c ss :
  lock_inv c →
  ∃ c', run_psections c ss = Some c' ∧ lock_inv c' ∧ closed c ⊆ closed c' ∧ cacheLock c' = cacheLock c ∧
    (∀ k ch, (∀ s, s ∈ ss → ¬ wakes k s) → pending c !! k = Some ch → pending c' !! k = Some ch).
Proof.
  revert c. induction ss as [|s ss IH]; intros c Hinv; [exists c; by split_and!|].
  destruct (run_psection_spec c s Hinv) as (c1 & Hc1 & Hinv1 & Hsub1 & Hl1 & Hp1).
  destruct (IH c1 Hinv1) as (c2 & Hc2 & Hinv2 & Hsub2 & Hl2 & Hp2).
  exists c2. cbn [run_psections]. rewrite Hc1. split_and!; [done|done|set_solver|congruence|].
  intros k ch Hw Hk. apply Hp2; [intros; apply Hw; by right|]. apply Hp1; [apply Hw; by left|done].
Qed.

Lemma lock_inv_New r l a b t : lock_inv (NewProxyCache r l a b t).
Proof. split; simpl; set_solver. Qed.

(** A granted lock is the pending request of its key. *)
Lemma granted_pending c k :
  (AcquireLock c k).1 = LGranted → pending (AcquireLock c k).2 !! k = Some (next_chan c).
Proof.
  unfold AcquireLock. destruct (cacheLock c); [|done]. simpl. destruct (p_entries c !! k); [done|].
  destruct (pending c !! k); [done|]. intros _. simpl. apply lookup_insert_eq.
Qed.

Lemma wake_entries c k c' : wake c k = Some c' → p_entries c' = p_entries c.
Proof. unfold wake. destruct (pending c !! k); [case_decide; [done|]|]; by intros [= <-]. Qed.

(** Only [Set] makes an entry. *)
Lemma run_psection_absent c s c' k :
  run_psection c s = Some c' → ¬ wakes k s → p_entries c !! k = None → p_entries c' !! k = None.
Proof.
  intros Hr Hw Hk.
  destruct s as [now k' ok|k'|now k' ok d hd st ma|k'|k'|p m|now k' ok hd|k' ok lm et]; cbn [run_psection] in Hr.
  - injection Hr as <-. unfold PGet. destruct (p_entries c !! k') as [e|] eqn:He; [|done]. case_decide; [|done].
    assert (k' ≠ k) by congruence. repeat case_match; simpl; by rewrite lookup_insert_ne.
  - injection Hr as <-. unfold AcquireLock. by repeat case_match.
  - unfold PSet in Hr. apply wake_entries in Hr as ->. simpl. rewrite lookup_insert_ne; [done|].
    intros ->. by apply Hw.
  - unfold ReleaseLock in Hr. destruct (negb (cacheLock c)); [by injection Hr as <-|].
    by apply wake_entries in Hr as ->.
  - injection Hr as <-. simpl. rewrite lookup_delete_None. by right.
  - injection Hr as <-. simpl. apply map_lookup_filter_None. by left.
  - injection Hr as <-. unfold RefreshTTL. destruct (p_entries c !! k') as [e|] eqn:He; [|done].
    case_decide; [|done]. simpl. rewrite lookup_insert_ne; [done|]. congruence.
  - injection Hr as <-. unfold SetValidationHeaders. destruct (p_entries c !! k') as [e|] eqn:He; [|done].
    case_decide; [|done]. simpl. rewrite lookup_insert_ne; [done|]. congruence.
Qed.

Lemma run_psections_absent c ss c' k :
  run_psections c ss = Some c' → (∀ s, s ∈ ss → ¬ wakes k s) →
  p_entries c !! k = None → p_entries c' !! k = None.
Proof.
  revert c. induction ss as [|s ss IH]; intros c Hr Hw Hk; simpl in Hr; [by injection Hr as <-|].
  destruct (run_psection c s) as [c1|] eqn:H1; [|done]. apply (IH c1); [done| |].
  - intros s' Hs. apply Hw. by right.
  - eapply run_psection_absent; [done| |done]. apply Hw. by left.
Qed.

Lemma granted_absent c k : (AcquireLock c k).1 = LGranted → p_entries c !! k = None ∧ cacheLock c = true.
Proof. unfold AcquireLock. destruct (cacheLock c); [|done]. simpl. by destruct (p_entries c !! k). Qed.

(** What a section that wakes [k] does to the channel of [k]. *)
Lemma run_psection_wakes c s k ch :
  lock_inv c → cacheLock c = true → wakes k s → pending c !! k = Some ch →
  ∃ c', run_psection c s = Some c' ∧ ch ∈ closed c' ∧ pending c' !! k = None.
Proof.
  intros Hinv Hl Hw Hk.
  assert (∀ c0, same_lock c c0 → ∃ c', wake c0 k = Some c' ∧ ch ∈ closed c' ∧ pending c' !! k = None) as H.
  { intros c0 Hs. destruct (wake_spec c0 k) as (c' & Hc' & _ & _ & _ & Hp & Hcl & _).
    { by eapply lock_inv_same. }
    destruct Hs as (Hs1 & _). exists c'. split_and!; [done| |].
    - apply Hcl. by rewrite Hs1.
    - rewrite Hp. apply lookup_delete_eq. }
  destruct s; simpl in Hw; try done; subst; cbn [run_psection].
  - by apply H.
  - unfold ReleaseLock. rewrite Hl. by apply H.
Qed.

(** ** Properties *)

(** No sequence of cache operations, in whatever order the requests make
    them, closes a channel twice (which would panic): the cache lock is safe. *)
Theorem lock_never_panics rules lock stale ifError ifTimeout ss :
  ∃ c, run_psections (NewProxyCache rules lock stale ifError ifTimeout) ss = Some c ∧ lock_inv c.
Proof.
  destruct (run_psections_spec _ ss (lock_inv_New rules lock stale ifError ifTimeout)) as (c & Hc & Hi & _).
  by exists c.
Qed.

(** C9: The cache lock is a single flight: once a request holds the lock of a
    key, every other one that asks for it, after any operations that do not set or
    release the key, waits on the holder's channel; and the [Set] or the
    [ReleaseLock] that comes wakes them all and frees the key. *)
Theorem lock_single_flight rules stale ifError ifTimeout ss c k ss' :
  run_psections (NewProxyCache rules true stale ifError ifTimeout) ss = Some c →
  (AcquireLock c k).1 = LGranted →
  (∀ s, s ∈ ss' → ¬ wakes k s) →
  ∃ c', run_psections (AcquireLock c k).2 ss' = Some c' ∧
    AcquireLock c' k = (LWait (next_chan c), c') ∧
    ∀ s, wakes k s →
      ∃ c'', run_psection c' s = Some c'' ∧
        (∀ timeout fired, 0 < timeout →
          lock_result timeout c'' fired (LWait (next_chan c)) = Some (None, false)) ∧
        (p_entries c'' !! k = None → (AcquireLock c'' k).1 = LGranted).
Proof.
  intros Hc Hg Hss.
  destruct (run_psections_spec _ ss (lock_inv_New rules true stale ifError ifTimeout)) as (c0 & Hc0 & Hi & _).
  rewrite Hc in Hc0. injection Hc0 as <-. apply granted_absent in Hg as Ha. destruct Ha as [Ha Hl].
  destruct (run_psection_spec c (PAcquireS k) Hi) as (c1 & [= <-] & Hi1 & _ & Hl1 & _).
  destruct (run_psections_spec _ ss' Hi1) as (c2 & Hc2 & Hi2 & _ & Hl2 & Hp2).
  exists c2. split; [done|].
  assert (p_entries c2 !! k = None) as Ha2.
  { apply (run_psections_absent _ _ _ _ Hc2 Hss). apply (run_psection_absent c (PAcquireS k)); [done|by intros []|done]. }
  assert (pending c2 !! k = Some (next_chan c)) as Hk2 by (apply Hp2; [done|by apply granted_pending]).
  assert (cacheLock c2 = true) as Hl' by congruence.
  split; [unfold AcquireLock; by rewrite Hl', Ha2, Hk2|].
  intros s Hw. destruct (run_psection_wakes c2 s k _ Hi2 Hl' Hw Hk2) as (c3 & Hc3 & Hcl & Hn).
  exists c3. split_and!; [done| |].
  - intros timeout fired Ht. unfold lock_result. rewrite (proj2 (Z.ltb_lt _ _)) by done. by rewrite decide_True.
  - intros Ha3. destruct (run_psection_spec c2 s Hi2) as (c4 & Hc4 & _ & _ & Hl4 & _).
    rewrite Hc3 in Hc4. injection Hc4 as <-. unfold AcquireLock. by rewrite Hl4, Hl', Ha3, Hn.
Qed.

Lemma lock_single_flight_witness :
  let c := NewProxyCache [] true 0 0 0 in
  ∃ c', run_psections (AcquireLock c 7).2 [PSetS 0 8 [] [] [] 200 60] = Some c' ∧
    AcquireLock c' 7 = (LWait (next_chan c), c') ∧
    ∀ s, wakes 7 s →
      ∃ c'', run_psection c' s = Some c'' ∧
        (∀ timeout fired, 0 < timeout →
          lock_result timeout c'' fired (LWait (next_chan c)) = Some (None, false)) ∧
        (p_entries c'' !! 7 = None → (AcquireLock c'' 7).1 = LGranted).
Proof.
  refine (lock_single_flight [] 0 0 0 [] _ 7 [PSetS 0 8 [] [] [] 200 60] _ _ _).
  - reflexivity.
  - vm_compute. reflexivity.
  - intros s [->|[]%elem_of_nil]%elem_of_cons. simpl. lia.
Defined.

(** A lock taken under the key of the request stays taken when the response
    is stored, and the lock released, under another key (what the proxy does when
    the response's [Vary] header changes the key): every later request for the key
    waits for it. *)
Theorem vary_leaks_lock c k1 k2 now origKey data headers status maxAge :
  lock_inv c → (AcquireLock c k1).1 = LGranted → k1 ≠ k2 →
  ∃ c1 c2, PSet now (AcquireLock c k1).2 k2 origKey data headers status maxAge = Some c1 ∧
    ReleaseLock c1 k2 = Some c2 ∧
    AcquireLock c2 k1 = (LWait (next_chan c), c2) ∧
    lock_result 5 c2 false (LWait (next_chan c)) = None.
Proof.
  intros Hi Hg Hne. apply granted_absent in Hg as Ha. destruct Ha as [Ha Hl].
  destruct (run_psection_spec c (PAcquireS k1) Hi) as (c0 & [= <-] & Hi0 & _ & Hl0 & _).
  destruct (run_psection_spec _ (PSetS now k2 origKey data headers status maxAge) Hi0)
    as (c1 & Hc1 & Hi1 & _ & Hl1 & Hp1).
  destruct (run_psection_spec _ (PReleaseS k2) Hi1) as (c2 & Hc2 & Hi2 & _ & Hl2 & Hp2).
  exists c1, c2. split_and!; [done|done| |].
  - assert (p_entries c2 !! k1 = None) as Ha2.
    { eapply (run_psection_absent _ (PReleaseS k2)); [done|intros ?; simpl in *; congruence|].
      eapply (run_psection_absent _ (PSetS _ _ _ _ _ _ _)); [done|intros ?; simpl in *; congruence|].
      apply (run_psection_absent c (PAcquireS k1)); [done|by intros []|done]. }
    assert (pending c2 !! k1 = Some (next_chan c)) as Hk.
    { apply Hp2; [intros ?; simpl in *; congruence|]. apply Hp1; [intros ?; simpl in *; congruence|]. by apply granted_pending. }
    assert (cacheLock c2 = true) as Hl' by congruence.
    unfold AcquireLock. by rewrite Hl', Ha2, Hk.
  - unfold lock_result. simpl. rewrite decide_False; [done|].
    apply (li_open _ Hi2 k1). apply Hp2; [intros ?; simpl in *; congruence|]. apply Hp1; [intros ?; simpl in *; congruence|]. by apply granted_pending.
Qed.

Lemma vary_leaks_lock_witness :
  let c := NewProxyCache [] true 0 0 0 in
  ∃ c1 c2, PSet 0 (AcquireLock c 1).2 2 [] [] [] 200 60 = Some c1 ∧
    ReleaseLock c1 2 = Some c2 ∧
    AcquireLock c2 1 = (LWait (next_chan c), c2) ∧
    lock_result 5 c2 false (LWait (next_chan c)) = None.
Proof.
  refine (vary_leaks_lock _ 1 2 0 [] [] [] 200 60 (lock_inv_New _ _ _ _ _) _ _); [vm_compute; reflexivity|lia].
Defined.

(** C29: A cached response is fresh for exactly its [MaxAge], then served stale
    for exactly the stale window, then gone; it is never served to a request with
    another original key, even under the same hash; and on an upstream error it is
    served for the error (or time-out) window after it expired. *)
Theorem cache_freshness c t0 now k origKey data headers status maxAge :
  lock_inv c → 0 ≤ maxAge → 0 ≤ staleTime c → maxAge + staleTime c ≤ int64_max →
  t0 ≤ now → now - t0 < int64_max →
  ∃ c', PSet t0 c k origKey data headers status maxAge = Some c' ∧
    let e := mkPEntry t0 headers origKey origKey data status maxAge 0 false [] [] zero_time in
    (PGet now c' k origKey).1 =
      (if now - t0 <=? maxAge then (Some (used e), true, false)
       else if now - t0 <=? maxAge + staleTime c then (Some (used e), true, true)
       else (None, false, false)) ∧
    (∀ other, other ≠ origKey →
       PGet now c' k other = ((None, false, false), c') ∧ GetStale now c' k other true = None) ∧
    (∀ isTimeout, 0 ≤ staleIfError c → 0 ≤ staleIfTimeout c →
       GetStale now c' k origKey isTimeout =
         if now - t0 <=? maxAge + (if isTimeout then staleIfTimeout c else staleIfError c)
         then Some e else None).
Proof.
  intros Hi Hm Hs Hov Ht Hov2. unfold PSet.
  set (e := mkPEntry t0 headers origKey origKey data status maxAge 0 false [] [] zero_time).
  set (c0 := with_entries c (<[k:=e]> (p_entries c))).
  assert (∃ c', wake c0 k = Some c' ∧ p_entries c' = p_entries c0 ∧ staleTime c' = staleTime c ∧
    staleIfError c' = staleIfError c ∧ staleIfTimeout c' = staleIfTimeout c) as (c' & Hw & He & Hst & Hse & Hsi).
  { destruct (wake_spec c0 k) as (c' & Hc' & _). { by apply (lock_inv_same c). }
    exists c'. split; [done|]. unfold wake in Hc'. repeat case_match; simplify_eq; by split_and!. }
  exists c'. split; [done|]. cbv zeta. fold e.
  assert (p_entries c' !! k = Some e) as Hk by (rewrite He; apply lookup_insert_eq).
  assert (time_sub now t0 = now - t0) as Hsub by (unfold time_sub, int64_max, int64_min in *; lia).
  assert (swrap64 (maxAge + staleTime c) = maxAge + staleTime c) as Hwrap
    by (apply swrap64_id; unfold in_int64, int64_max, int64_min in *; lia).
  split_and!.
  - unfold PGet. rewrite Hk, decide_True by done. cbn [used MaxAge Created e staleTime with_entries]. rewrite Hsub, Hst, Hwrap.
    destruct (Z.ltb_spec maxAge (now - t0)); destruct (Z.leb_spec (now - t0) maxAge); try lia; [|done].
    destruct (Z.ltb_spec 0 (staleTime c)); destruct (Z.leb_spec (now - t0) (maxAge + staleTime c));
      cbn [andb]; try done; lia.
  - intros other Hne. unfold PGet, GetStale. assert (OrigKey e ≠ other) by done.
    by rewrite Hk, !decide_False by done.
  - intros isTimeout H1 H2. unfold GetStale. rewrite Hk, decide_True by done. cbn [MaxAge Created e].
    rewrite Hse, Hsi. set (w := if isTimeout then staleIfTimeout c else staleIfError c).
    assert (0 ≤ w) by (unfold w; by destruct isTimeout).
    assert (time_sub now (t0 + maxAge) = now - (t0 + maxAge)) as ->
      by (unfold time_sub, int64_max, int64_min in *; lia).
    unfold time_after. destruct (Z.ltb_spec (t0 + maxAge) now); simpl.
    + destruct (Z.leb_spec w 0); destruct (Z.leb_spec (now - t0) (maxAge + w)); try lia; try done;
        destruct (Z.ltb_spec w (now - (t0 + maxAge))); try lia; done.
    + destruct (Z.leb_spec (now - t0) (maxAge + w)); [done|lia].
Qed.

Lemma cache_freshness_witness :
  let c := NewProxyCache [] false 60 30 10 in
  ∃ c', PSet 1000 c 9 (go!"GET:h/") (go!"x") [] 200 300 = Some c' ∧
    let e := mkPEntry 1000 [] (go!"GET:h/") (go!"GET:h/") (go!"x") 200 300 0 false [] [] zero_time in
    (PGet 1350 c' 9 (go!"GET:h/")).1 =
      (if 1350 - 1000 <=? 300 then (Some (used e), true, false)
       else if 1350 - 1000 <=? 300 + staleTime c then (Some (used e), true, true)
       else (None, false, false)) ∧
    (∀ other, other ≠ go!"GET:h/" →
       PGet 1350 c' 9 other = ((None, false, false), c') ∧ GetStale 1350 c' 9 other true = None) ∧
    (∀ isTimeout : bool, 0 ≤ staleIfError c → 0 ≤ staleIfTimeout c →
       GetStale 1350 c' 9 (go!"GET:h/") isTimeout =
         if 1350 - 1000 <=? 300 + (if isTimeout then staleIfTimeout c else staleIfError c)
         then Some e else None).
Proof.
  refine (cache_freshness _ 1000 1350 9 (go!"GET:h/") (go!"x") [] 200 300 (lock_inv_New _ _ _ _ _) _ _ _ _ _);
    vm_compute; congruence.
Defined.

(** A pattern with one star matches exactly the paths that have the part before
    it as prefix and the part after it as suffix, that is, when the path is long
    enough for both, those that are the two parts with something in between. *)
Theorem match_pattern_star a b path :
  "*"%char ∉ a → "*"%char ∉ b → HasSuffix b (go!"/") = false →
  (MatchPattern (a ++ "*"%char :: b) path = true ↔ a `prefix_of` path ∧ b `suffix_of` path) ∧
  ((length a + length b ≤ length path)%nat →
   (MatchPattern (a ++ "*"%char :: b) path = true ↔ ∃ middle, path = a ++ middle ++ b)).
Proof.
  intros Ha Hb Hs.
  assert (MatchPattern (a ++ "*"%char :: b) path = true ↔ a `prefix_of` path ∧ b `suffix_of` path) as H.
  { rewrite MatchPattern_star by done. by rewrite andb_true_iff, HasPrefix_spec, HasSuffix_spec. }
  split; [done|]. intros Hlen. rewrite H. split.
  - intros [H1 H2]. by apply prefix_suffix_middle.
  - intros [m ->]. split; [by exists (m ++ b)|]. exists (a ++ m). by rewrite app_assoc.
Qed.

Lemma match_pattern_star_witness :
  (MatchPattern (go!"/img/" ++ "*"%char :: go!".png") (go!"/img/a.png") = true ↔
     go!"/img/" `prefix_of` go!"/img/a.png" ∧ go!".png" `suffix_of` go!"/img/a.png") ∧
  ((length (go!"/img/") + length (go!".png") ≤ length (go!"/img/a.png"))%nat →
   (MatchPattern (go!"/img/" ++ "*"%char :: go!".png") (go!"/img/a.png") = true ↔
      ∃ middle, go!"/img/a.png" = go!"/img/" ++ middle ++ go!".png")).
Proof. apply (match_pattern_star (go!"/img/") (go!".png") (go!"/img/a.png")); [set_solver|set_solver|reflexivity]. Defined.

(** The names a key varies on are the configured ones, then those of the
    response that are not among them, without repetition up to case. *)
Theorem vary_headers_dedup configured vary :
  NoDup (ToLower <$> configured) → vary ≠ [] →
  let names := cacheVaryHeaders configured vary in
  NoDup (ToLower <$> names) ∧ configured `prefix_of` names ∧
  (∀ n, n ∈ names → n ∈ configured ∨ (n ≠ [] ∧ n ∈ TrimSpace <$> SplitByte vary ",")) ∧
  (∀ p, p ∈ SplitByte vary "," → TrimSpace p = [] ∨ ToLower (TrimSpace p) ∈ ToLower <$> names).
Proof.
  intros Hnd Hv. unfold cacheVaryHeaders. destruct vary as [|x vary]; [done|].
  apply vary_loop_spec; [|done]. intros n. apply elem_of_list_to_set.
Qed.

Lemma vary_headers_dedup_witness :
  let names := cacheVaryHeaders [go!"Accept"] (go!"accept, Cookie") in
  NoDup (ToLower <$> names) ∧ [go!"Accept"] `prefix_of` names ∧
  (∀ n, n ∈ names → n ∈ [go!"Accept"] ∨ (n ≠ [] ∧ n ∈ TrimSpace <$> SplitByte (go!"accept, Cookie") ",")) ∧
  (∀ p, p ∈ SplitByte (go!"accept, Cookie") "," →
     TrimSpace p = [] ∨ ToLower (TrimSpace p) ∈ ToLower <$> names).
Proof. refine (vary_headers_dedup [go!"Accept"] (go!"accept, Cookie") (NoDup_singleton _) _). done. Defined.

(** The key of a request is the FNV-1a hash of its method, host, URI and
    varying headers, each after a colon; requests that agree on them share it. *)
Theorem cache_key_spec q host vary :
  (buildCacheKeyHashWithHost q host vary).1 =
    FNV64aBytes (joined ([q_method q; host; q_uri q] ++ (header q <$> vary))).
Proof.
  unfold buildCacheKeyHashWithHost, FNV64aBytes. cbn [fst].
  rewrite <- foldl_hash_part, foldl_app.
  generalize (foldl hash_part fnv_offset [q_method q; host; q_uri q]).
  induction vary as [|n vary IH]; intros h; [done|]. simpl. apply IH.
Qed.

(** The look-up of the proxy, which asks for a rule with status 0 before the
    response is known, finds no rule when every rule restricts the status codes. *)
Theorem lookup_ignores_status_rules rules path method :
  Forall (λ r, r_Statuses r ≠ [] ∧ 0 ∉ r_Statuses r) rules →
  MatchRule rules path method 0 = None.
Proof.
  induction 1 as [|r rules [Hs H0] _ IH]; simpl; [done|].
  rewrite IH. assert (matchStatus (r_Statuses r) 0 = false) as ->.
  { unfold matchStatus. revert Hs H0. destruct (r_Statuses r); [done|]. intros _ H0. by rewrite bool_decide_eq_false. }
  by destruct (matchPath (r_Path r) path), (matchMethod (r_Methods r) method).
Qed.

Lemma lookup_ignores_status_rules_witness :
  MatchRule [mkRule (go!"/") [] [200; 404] 60] (go!"/a") (go!"GET") 0 = None.
Proof.
  apply lookup_ignores_status_rules. constructor; [|constructor]. simpl. split; [done|]. set_solver.
Defined.

(** What starts with a slash matches only what does. *)
Lemma MatchPattern_slash pattern path :
  HasPrefix pattern (go!"/") = true → MatchPattern pattern path = true → HasPrefix path (go!"/") = true.
Proof.
  rewrite !HasPrefix_spec. intros Hp. unfold MatchPattern.
  assert (∀ p, go!"/" `prefix_of` p → p `prefix_of` path → go!"/" `prefix_of` path) as Htr
    by (intros ?; apply transitivity).
  destruct Hp as [t ->]. case_decide as Hall; [done|].
  destruct (HasSuffix _ (go!"/")); [rewrite HasPrefix_spec; apply Htr; by eexists|].
  destruct (negb (ContainsByte (go!"/" ++ t) "*")).
  { intros ->%bool_decide_eq_true. by eexists. }
  change (go!"/" ++ t) with ("/"%char :: t) in *.
  destruct (CutSuffix ("/"%char :: t) (go!"*")) as [p|] eqn:Hc.
  - rewrite HasPrefix_spec. apply Htr. unfold CutSuffix in Hc.
    destruct (HasSuffix ("/"%char :: t) (go!"*")) eqn:Hsuf; [|done]. injection Hc as <-.
    destruct t as [|x t _] using rev_ind; [done|].
    rewrite length_app. simpl. rewrite Nat.sub_0_r, Nat.add_1_r. by eexists.
  - cbn [SplitByte]. rewrite (proj2 (Ascii.eqb_neq "/" "*")) by done.
    destruct (SplitByte t "*") as [|u [|v [|? ?]]]; try done.
    rewrite andb_true_iff, HasPrefix_spec. intros [Hu _]. eapply Htr; [|done]. by eexists.
Qed.

(** A key begins with the method. *)
Lemma origKey_method q host vary :
  q_method q `prefix_of` (buildCacheKeyHashWithHost q host vary).2.
Proof.
  unfold buildCacheKeyHashWithHost. cbn [snd].
  transitivity (q_method q ++ go!":" ++ host ++ q_uri q); [by eexists|].
  generalize (q_method q ++ go!":" ++ host ++ q_uri q).
  induction vary as [|n vary IH]; intros acc; simpl; [done|]. etransitivity; [|apply IH]. by eexists.
Qed.

Lemma DeleteByPattern_none c pattern method :
  (∀ k e, p_entries c !! k = Some e → purged pattern method e = false) →
  DeleteByPatternWithMethod c pattern method = (0, c).
Proof.
  intros Hno. unfold DeleteByPatternWithMethod. rewrite map_empty_filter_2, map_filter_id.
  - by destruct c.
  - intros k e He. by apply (Hno k e).
  - intros k e He. simpl. by rewrite (Hno k e He).
Qed.

(** A purge whose pattern is a path, as "/api/*", deletes nothing: patterns are
    matched against the whole keys, which begin with the method of a request. *)
Theorem purge_path_pattern_misses caches pattern method :
  HasPrefix pattern (go!"/") = true →
  (∀ c k e, Some c ∈ caches → p_entries c !! k = Some e →
     ∃ q host vary, OrigKey e = (buildCacheKeyHashWithHost q host vary).2 ∧
       HasPrefix (q_method q) (go!"/") = false ∧ q_method q ≠ []) →
  purge_ServeHTTP caches (go!"POST") true true (Some ([], pattern, method)) = (Deleted 0, caches).
Proof.
  intros Hp Hkeys. unfold purge_ServeHTTP. simpl.
  rewrite bool_decide_eq_false_2 by (by intros ->). simpl.
  enough (purgeByPattern caches pattern method = (0, caches)) as -> by done.
  induction caches as [|[c|] caches IH]; cbn [purgeByPattern]; [done| |]; (rewrite IH by (intros; eapply Hkeys; [by right|done]));
    [|done]. rewrite DeleteByPattern_none; [done|]. intros k e He.
  unfold purged. apply andb_false_iff. left. apply not_true_iff_false. intros Hm%MatchPattern_slash; [|done].
  destruct (Hkeys c k e) as (q & host & vary & Ho & Hq & Hne); [by left|done|].
  rewrite Ho in Hm. apply not_true_iff_false in Hq. apply Hq.
  destruct (origKey_method q host vary) as [t Ht]. rewrite Ht in Hm.
  destruct (q_method q) as [|m ms]; [done|]. simpl in *. apply andb_true_iff in Hm as [-> _]. by destruct ms.
Qed.

Lemma purge_path_pattern_misses_witness :
  let e := mkPEntry 0 [] [] (go!"GET:h/api/x") [] 200 60 0 false [] [] 0 in
  let c := with_entries (NewProxyCache [] false 0 0 0) {[ 5 := e ]} in
  purge_ServeHTTP [Some c] (go!"POST") true true (Some ([], go!"/api/*", [])) = (Deleted 0, [Some c]).
Proof.
  refine (purge_path_pattern_misses [_] (go!"/api/*") [] _ _); [reflexivity|].
  intros c' k e' [[= ->]|[]%elem_of_nil]%elem_of_cons. simpl.
  intros [<- <-]%lookup_singleton_Some.
  exists (mkRequest (go!"GET") (go!"h") (go!"/api/x") (λ _, [])), (go!"h"), [].
  split_and!; [vm_compute; reflexivity|reflexivity|done].
Defined.

(** A purge by path reports one deletion per cache whether or not the path was
    cached, and removes the entry under a hash of [method:path], which is not the
    hash the proxy stores responses under: the purged response is still served. *)
Theorem purge_by_path_misses :
  (∀ caches path method, path ≠ [] →
     (purge_ServeHTTP caches (go!"POST") true true (Some (path, [], method))).1 =
       Deleted (Z.of_nat (length (filter is_Some caches)))) ∧
  let q := mkRequest (go!"GET") (go!"example.com") (go!"/a") (λ _, []) in
  let '(h, orig) := buildCacheKeyHash q [] in
  (PSet 0 (NewProxyCache [] false 0 0 0) h orig (go!"body") [] 200 60 ≫= λ c,
   match purge_ServeHTTP [Some c] (go!"POST") true true (Some (go!"/a", [], go!"GET")) with
   | (reply, [Some c']) => Some (reply, p_Data <$> (PGet 1 c' h orig).1.1.1)
   | _ => None
   end) = Some (Deleted 1, Some (go!"body")).
Proof.
  split.
  - intros caches path method Hp. unfold purge_ServeHTTP. simpl. rewrite bool_decide_eq_false_2 by done. simpl.
    enough ((purgeByPath caches path method).1 = Z.of_nat (length (filter is_Some caches))) as H
      by (destruct (purgeByPath caches path method); simpl in *; by rewrite H).
    induction caches as [|[c|] caches IH]; [done| |].
    + rewrite filter_cons_True by done. simpl. destruct (purgeByPath caches path method). simpl in *. lia.
    + rewrite filter_cons_False by by intros [? ?]. simpl. by destruct (purgeByPath caches path method).
  - vm_compute. reflexivity.
Qed.

(** [RefreshTTL] does not refresh the time to live: after a revalidation an
    expired entry is as expired as before. *)
Theorem refresh_keeps_age now now' c k origKey newHeaders e :
  p_entries c !! k = Some e → OrigKey e = origKey →
  (RefreshTTL now c k origKey newHeaders).1 = true ∧
  (∀ isTimeout, is_Some (GetStale now' (RefreshTTL now c k origKey newHeaders).2 k origKey isTimeout) ↔
                is_Some (GetStale now' c k origKey isTimeout)) ∧
  (PGet now' (RefreshTTL now c k origKey newHeaders).2 k origKey).1.2 = (PGet now' c k origKey).1.2 ∧
  (PGet now' (RefreshTTL now c k origKey newHeaders).2 k origKey).1.1.2 = (PGet now' c k origKey).1.1.2.
Proof.
  intros He Ho. unfold RefreshTTL. rewrite He, decide_True by done. cbn [fst snd]. split; [done|]. split.
  - intros t. unfold GetStale. cbn [p_entries with_entries]. rewrite lookup_insert_eq, He.
    cbn [OrigKey Created MaxAge staleIfTimeout staleIfError with_entries]. rewrite !decide_True by done.
    repeat case_match; split; intros [? ?]; eauto; done.
  - unfold PGet. cbn [p_entries with_entries]. rewrite lookup_insert_eq, He. cbn [OrigKey].
    rewrite !decide_True by done. cbn [used Created MaxAge staleTime with_entries].
    by repeat case_match.
Qed.

Lemma refresh_keeps_age_witness :
  let e := mkPEntry 0 [] [] (go!"k") [] 200 60 0 false [] [] 0 in
  let c := with_entries (NewProxyCache [] false 0 30 0) {[ 5 := e ]} in
  (RefreshTTL 50 c 5 (go!"k") None).1 = true ∧
  (∀ isTimeout, is_Some (GetStale 70 (RefreshTTL 50 c 5 (go!"k") None).2 5 (go!"k") isTimeout) ↔
                is_Some (GetStale 70 c 5 (go!"k") isTimeout)) ∧
  (PGet 70 (RefreshTTL 50 c 5 (go!"k") None).2 5 (go!"k")).1.2 = (PGet 70 c 5 (go!"k")).1.2 ∧
  (PGet 70 (RefreshTTL 50 c 5 (go!"k") None).2 5 (go!"k")).1.1.2 = (PGet 70 c 5 (go!"k")).1.1.2.
Proof. refine (refresh_keeps_age 50 70 _ 5 (go!"k") None _ _ _); reflexivity. Defined.
