(* ===== verification/NginxParser.v ===== *)
(** * NginxParser: the recursive descent parser of nginx configurations

    [src/internal/converter/nginx/parser.go].  The parser works on the bytes that
    remain and the number of the current line; [parseDirectives], [parseDirective]
    and its loop over arguments call each other, with a fuel that the length of
    the file bounds, and included files are parsed by a nested call whose depth
    the source limits.  Shown: parsing always ends, what is printed is read back,
    and where a stray brace cuts a file off. *)

From S2P Require Import Prelude GoStrings GoPath.

Inductive Directive := mkDirective {
  Name : gostring; Args : list gostring; Block : list Directive; Line : Z; File : gostring }.

(** The messages of [ParseError], with what they quote. *)
Inductive message :=
  | AbsFailed | SymlinksFailed | ReadFailed
  | DepthExceeded | InvalidPattern (pattern : gostring) | IncludeNotFound (path : gostring)
  | IncludeSymlinks (path : gostring) | CircularInclude (path : gostring)
  | ExpectedName | UnexpectedEnd | ExpectedBrace | UnexpectedChar (c : ascii)
  | UnterminatedEscape | UnterminatedString.

Record ParseError := mkParseError { pe_File : gostring; pe_Line : Z; pe_Message : message }.

Inductive failure :=
  | Failed (e : ParseError)
  | NoFuel.

Record parser := mkParser {
  rest : gostring; line : Z; file : gostring; includeStack : gset gostring; depth : nat }.

Definition maxDepth : nat := 10.

Definition at_rest (p : parser) (s : gostring) (l : Z) : parser :=
  mkParser s l (file p) (includeStack p) (depth p).

Definition errorf {A} (p : parser) (m : message) : res failure A :=
  Err (Failed (mkParseError (file p) (line p) m)).

(** ** Lexical level *)

Definition nl : ascii := "010".
Definition quote2 : ascii := "034".
Definition backslash : ascii := "\".
Definition is_blank (c : ascii) : bool := bool_decide (c ∈ [" "; "009"; "013"]%char).

(** [comment] is the inner loop of a comment; the newline that ends it is left to
    the outer one. *)
Fixpoint skip_loop (comment : bool) (s : gostring) (l : Z) : gostring * Z :=
  match s with
  | [] => ([], l)
  | c :: s' =>
      if decide (c = nl) then skip_loop false s' (l + 1)
      else if comment then skip_loop true s' l
      else if is_blank c then skip_loop false s' l
      else if decide (c = "#"%char) then skip_loop true s' l
      else (s, l)
  end.

Definition skipWhitespaceAndComments (p : parser) : parser :=
  let '(s, l) := skip_loop false (rest p) (line p) in at_rest p s l.

Fixpoint quoted_loop (p : parser) (quote : ascii) (s : gostring) (l : Z) (buf : gostring)
  : res failure (gostring * parser) :=
  match s with
  | [] => errorf (at_rest p [] l) UnterminatedString
  | c :: s' =>
      if decide (c = backslash) then
        match s' with
        | [] => errorf (at_rest p [] l) UnterminatedEscape
        | d :: s'' => quoted_loop p quote s'' l (buf ++ [d])
        end
      else if decide (c = quote) then Ok (buf, at_rest p s' l)
      else quoted_loop p quote s' (if decide (c = nl) then l + 1 else l) (buf ++ [c])
  end.

Definition readQuotedString (p : parser) (quote : ascii) : res failure (gostring * parser) :=
  quoted_loop p quote (drop 1 (rest p)) (line p) [].

Definition is_delimiter (c : ascii) : bool :=
  is_blank c || bool_decide (c ∈ [nl; "{"; "}"; ";"; "#"; quote2; "'"]%char).

Fixpoint bare_loop (s : gostring) : gostring * gostring :=
  match s with
  | [] => ([], [])
  | c :: s' => if is_delimiter c then ([], s) else let '(t, r) := bare_loop s' in (c :: t, r)
  end.

Definition readToken (p : parser) : res failure (gostring * parser) :=
  match rest p with
  | [] => Ok ([], p)
  | c :: _ =>
      if bool_decide (c ∈ [quote2; "'"]%char) then
        '(token, p) ← readQuotedString p c;
        Ok (if decide (token = []) then [quote2; quote2] else token, p)
      else if bool_decide (c ∈ ["{"; "}"; ";"]%char) then Ok ([], p)
      else let '(t, r) := bare_loop (rest p) in Ok (t, at_rest p r (line p))
  end.

(** [isGlobPattern]. *)
Definition isGlobPattern (path : gostring) : bool :=
  existsb (λ c, bool_decide (c ∈ ["*"; "?"; "["]%char)) path.

(** ** Directives *)

(** What the operating system answers: the contents of a file, the target of
    symbolic links, the files that match a pattern, the absolute path. *)
Class FileSystem := {
  ReadFile : gostring → option gostring;
  EvalSymlinks : gostring → option gostring;
  Glob : gostring → option (list gostring);
  Abs : gostring → option gostring
}.

Section Parser.
Context `{FileSystem}.

(** How an included file is parsed, given its path, the stack and the depth. *)
Context (parse_file : gostring → gset gostring → nat → res failure (list Directive)).

Fixpoint include_loop (p : parser) (files : list gostring) (all : list Directive)
  : res failure (list Directive) :=
  match files with
  | [] => Ok all
  | f :: fs =>
      match EvalSymlinks f with
      | None => errorf p (IncludeSymlinks f)
      | Some resolved =>
          if decide (resolved ∈ includeStack p) then errorf p (CircularInclude resolved)
          else
            ds ← parse_file resolved (includeStack p) (S (depth p));
            include_loop p fs (all ++ ds)
      end
  end.

(** The first directive, and the others, which [parseDirectives] appends. *)
Definition handleInclude (p : parser) (pattern : gostring)
  : res failure (option Directive * list Directive) :=
  if (maxDepth <=? depth p)%nat then errorf p DepthExceeded
  else
    let fullPattern := if IsAbs pattern then pattern else JoinPath (Dir (file p)) pattern in
    match Glob fullPattern with
    | None => errorf p (InvalidPattern pattern)
    | Some [] =>
        if isGlobPattern pattern then Ok (None, []) else errorf p (IncludeNotFound fullPattern)
    | Some files =>
        all ← include_loop p files [];
        Ok (head all, tail all)
    end.

(** The end of [parseDirective]: an include is replaced by what it contains. *)
Definition finish (p : parser) (d : Directive) : res failure (option Directive * list Directive * parser) :=
  match Args d with
  | pattern :: _ =>
      if decide (Name d = go!"include") then
        '(o, extra) ← handleInclude p pattern; Ok (o, extra, p)
      else Ok (Some d, [], p)
  | [] => Ok (Some d, [], p)
  end.

Fixpoint parseDirectives (fuel : nat) (p : parser) (acc : list Directive) {struct fuel}
  : res failure (list Directive * parser) :=
  match fuel with
  | O => Err NoFuel
  | S fuel =>
      let p := skipWhitespaceAndComments p in
      match rest p with
      | [] => Ok (acc, p)
      | c :: _ =>
          if decide (c = "}"%char) then Ok (acc, p)
          else
            '(d, extra, p) ← parseDirective fuel p;
            match d with
            | None => parseDirectives fuel p acc
            | Some d => parseDirectives fuel p (acc ++ d :: extra)
            end
      end
  end
with parseDirective (fuel : nat) (p : parser) {struct fuel}
  : res failure (option Directive * list Directive * parser) :=
  match fuel with
  | O => Err NoFuel
  | S fuel =>
      let p := skipWhitespaceAndComments p in
      '(name, p') ← readToken p;
      if decide (name = []) then errorf p' ExpectedName
      else parse_args fuel p' (mkDirective name [] [] (line p) (file p))
  end
with parse_args (fuel : nat) (p : parser) (d : Directive) {struct fuel}
  : res failure (option Directive * list Directive * parser) :=
  match fuel with
  | O => Err NoFuel
  | S fuel =>
      let p := skipWhitespaceAndComments p in
      match rest p with
      | [] => errorf p UnexpectedEnd
      | c :: s =>
          if decide (c = ";"%char) then finish (at_rest p s (line p)) d
          else if decide (c = "{"%char) then
            '(block, p) ← parseDirectives fuel (at_rest p s (line p)) [];
            let p := skipWhitespaceAndComments p in
            match rest p with
            | c' :: s' =>
                if decide (c' = "}"%char) then
                  finish (at_rest p s' (line p)) (mkDirective (Name d) (Args d) block (Line d) (File d))
                else errorf p ExpectedBrace
            | [] => errorf p ExpectedBrace
            end
          else
            '(arg, p) ← readToken p;
            if decide (arg = []) then errorf p (UnexpectedChar c)
            else parse_args fuel p (mkDirective (Name d) (Args d ++ [arg]) (Block d) (Line d) (File d))
      end
  end.

(** Three calls for every byte, and three more. *)
Definition enough (s : gostring) : nat := 3 * length s + 3.

Definition parse_all (p : parser) : res failure (list Directive) :=
  '(ds, _) ← parseDirectives (enough (rest p)) p [];
  Ok ds.

End Parser.

(** Included files are parsed one level deeper; the level [S maxDepth] is never
    reached, since [handleInclude] refuses to go there. *)
Fixpoint parseFileWithStack `{FileSystem} (levels : nat) (path : gostring)
    (includeStack : gset gostring) (depth : nat) : res failure (list Directive) :=
  match levels with
  | O => Err NoFuel
  | S levels =>
      match ReadFile path with
      | None => Err (Failed (mkParseError path 1 ReadFailed))
      | Some data =>
          parse_all (parseFileWithStack levels) (mkParser data 1 path ({[path]} ∪ includeStack) depth)
      end
  end.

Definition ParseString `{FileSystem} (content : gostring) : res failure (list Directive) :=
  parse_all (parseFileWithStack maxDepth) (mkParser content 1 (go!"<string>") ∅ 0).

Definition ParseFile `{FileSystem} (path : gostring) : res failure (list Directive) :=
  match Abs path with
  | None => Err (Failed (mkParseError path 1 AbsFailed))
  | Some absPath =>
      match EvalSymlinks absPath with
      | None => Err (Failed (mkParseError path 1 SymlinksFailed))
      | Some resolved => parseFileWithStack (S maxDepth) resolved {[resolved]} 0
      end
  end.

(** ** The printed form of a configuration *)

Definition bare (s : gostring) : bool := negb (bool_decide (s = [])) && forallb (λ c, negb (is_delimiter c)) s.

Definition escape (s : gostring) : gostring :=
  s ≫= λ c, if decide (c = quote2 ∨ c = backslash) then [backslash; c] else [c].

Definition print_token (s : gostring) : gostring :=
  if bare s then s else quote2 :: escape s ++ [quote2].

Definition print_args (args : list gostring) : gostring := args ≫= λ a, " "%char :: print_token a.

Fixpoint print (d : Directive) : gostring :=
  print_token (Name d) ++ print_args (Args d) ++
  match Block d with
  | [] => [";"%char; nl]
  | ds => [" "; "{"; nl]%char ++ concat (map print ds) ++ ["}"%char; nl]
  end.

Definition print_all (ds : list Directive) : gostring := concat (map print ds).

(** A directive without its position. *)
Fixpoint erase (d : Directive) : Directive :=
  mkDirective (Name d) (Args d) (map erase (Block d)) 0 [].

(** Directives that can be written down: no empty name or argument (an empty
    string is read back as two quotes), and no include. *)
Fixpoint printable (d : Directive) : bool :=
  negb (bool_decide (Name d = [])) && forallb (λ a, negb (bool_decide (a = []))) (Args d) &&
  (bool_decide (Args d = []) || negb (bool_decide (Name d = go!"include"))) &&
  forallb printable (Block d).

(** ** The parser ends *)

Definition same_file (p p' : parser) : Prop :=
  file p' = file p ∧ includeStack p' = includeStack p ∧ depth p' = depth p.

#[export] Instance same_file_preorder : PreOrder same_file.
Proof. split; [done|]. intros p q r (?&?&?) (?&?&?). unfold same_file. split_and!; congruence. Qed.

(** [p'] is what is left of [p]. *)
Definition consumes (p p' : parser) : Prop := (length (rest p') ≤ length (rest p))%nat ∧ same_file p p'.

#[export] Instance consumes_preorder : PreOrder consumes.
Proof.
  split; [intros p; split; [lia|reflexivity]|]. intros p q r [? H1] [? H2].
  split; [lia|by etransitivity].
Qed.

Lemma skip_loop_length b s l : (length (skip_loop b s l).1 ≤ length s)%nat.
Proof.
  revert b l. induction s as [|c s IH]; intros b l; simpl; [lia|].
  pose proof (IH true l). pose proof (IH false l). pose proof (IH false (l + 1)).
  repeat case_match; simpl in *; lia.
Qed.

Lemma skip_consumes p : consumes p (skipWhitespaceAndComments p).
Proof.
  unfold skipWhitespaceAndComments. pose proof (skip_loop_length false (rest p) (line p)).
  destruct (skip_loop _ _ _) as [s l]. simpl in *. by split.
Qed.

Lemma quoted_loop_length p q s l buf t p' :
  quoted_loop p q s l buf = Ok (t, p') → (length (rest p') < length s)%nat ∧ same_file p p'.
Proof.
  remember (length s) as n eqn:Hn. revert s l buf Hn.
  induction (lt_wf n) as [n _ IH]. intros [|c s] l buf -> Hq; simpl in Hq; [done|].
  case_decide.
  - destruct s as [|d s]; [done|].
    destruct (IH (length s) ltac:(simpl; lia) s _ _ eq_refl Hq). simpl. split; [lia|done].
  - case_decide; [injection Hq as <- <-; simpl; split; [lia|done]|].
    destruct (IH (length s) ltac:(simpl; lia) s _ _ eq_refl Hq). simpl. split; [lia|done].
Qed.

Lemma bare_loop_length s : (length (bare_loop s).1 + length (bare_loop s).2 = length s)%nat.
Proof.
  induction s as [|c s IH]; simpl; [done|]. destruct (is_delimiter c); [done|].
  destruct (bare_loop s). simpl in *. lia.
Qed.

(** A token takes at least a byte. *)
Lemma readToken_consumes p t p' :
  readToken p = Ok (t, p') → same_file p p' ∧ (t ≠ [] → (length (rest p') < length (rest p))%nat).
Proof.
  unfold readToken. destruct (rest p) as [|c s] eqn:Hr; [by intros [= <- <-]|].
  case_bool_decide.
  - unfold readQuotedString. rewrite Hr. cbn [drop]. destruct (quoted_loop _ _ _ _ _) as [[u q]|e] eqn:Hq; [|done].
    intros [= <- <-]. apply quoted_loop_length in Hq as [? ?]. split; [done|]. simpl. intros _. rewrite drop_0 in *. lia.
  - case_bool_decide; [by intros [= <- <-]|]. pose proof (bare_loop_length (c :: s)) as Hl.
    destruct (bare_loop (c :: s)) as [u r]. intros [= <- <-]. split; [done|]. simpl in *.
    intros Hu. destruct u; [done|]. simpl in *. lia.
Qed.

Lemma quoted_loop_fuel p q s l buf : quoted_loop p q s l buf ≠ Err NoFuel.
Proof.
  remember (length s) as n eqn:Hn. revert s l buf Hn. induction (lt_wf n) as [n _ IH].
  intros [|d s] l buf -> Hq; simpl in Hq; [done|]. case_decide.
  - destruct s as [|d' s]; [done|]. by apply (IH (length s) ltac:(simpl; lia) s _ _ eq_refl Hq).
  - case_decide; [done|]. by apply (IH (length s) ltac:(simpl; lia) s _ _ eq_refl Hq).
Qed.

Lemma readToken_fuel p : readToken p ≠ Err NoFuel.
Proof.
  unfold readToken. destruct (rest p) as [|c s] eqn:Hr; [done|]. case_bool_decide.
  - unfold readQuotedString. pose proof (quoted_loop_fuel p c (drop 1 (rest p)) (line p) []) as Hq.
    destruct (quoted_loop _ _ _ _ _) as [[]|e]; [done|]. intros [= ->]. done.
  - case_bool_decide; [done|]. by destruct (bare_loop _).
Qed.

Section Termination.
Context `{FileSystem} (parse_file : gostring → gset gostring → nat → res failure (list Directive)).

Abbreviation dirs := (parseDirectives parse_file).
Abbreviation dir := (parseDirective parse_file).
Abbreviation args := (parse_args parse_file).

(** The three functions, one call at a time. *)
Lemma parseDirectives_S fuel p acc :
  dirs (S fuel) p acc =
    let p := skipWhitespaceAndComments p in
    match rest p with
    | [] => Ok (acc, p)
    | c :: _ =>
        if decide (c = "}"%char) then Ok (acc, p)
        else
          '(d, extra, p) ← dir fuel p;
          match d with
          | None => dirs fuel p acc
          | Some d => dirs fuel p (acc ++ d :: extra)
          end
    end.
Proof. done. Qed.

Lemma parseDirective_S fuel p :
  dir (S fuel) p =
    let p := skipWhitespaceAndComments p in
    '(name, p') ← readToken p;
    if decide (name = []) then errorf p' ExpectedName
    else args fuel p' (mkDirective name [] [] (line p) (file p)).
Proof. done. Qed.

Lemma parse_args_S fuel p d :
  args (S fuel) p d =
    let p := skipWhitespaceAndComments p in
    match rest p with
    | [] => errorf p UnexpectedEnd
    | c :: s =>
        if decide (c = ";"%char) then finish parse_file (at_rest p s (line p)) d
        else if decide (c = "{"%char) then
          '(block, p) ← dirs fuel (at_rest p s (line p)) [];
          let p := skipWhitespaceAndComments p in
          match rest p with
          | c' :: s' =>
              if decide (c' = "}"%char) then
                finish parse_file (at_rest p s' (line p))
                  (mkDirective (Name d) (Args d) block (Line d) (File d))
              else errorf p ExpectedBrace
          | [] => errorf p ExpectedBrace
          end
        else
          '(arg, p) ← readToken p;
          if decide (arg = []) then errorf p (UnexpectedChar c)
          else args fuel p (mkDirective (Name d) (Args d ++ [arg]) (Block d) (Line d) (File d))
    end.
Proof. done. Qed.

Lemma finish_parser p d o e p' : finish parse_file p d = Ok (o, e, p') → p' = p.
Proof.
  unfold finish. destruct (Args d); [by intros [= _ _ <-]|]. case_decide; [|by intros [= _ _ <-]].
  destruct (handleInclude _ _ _) as [[]|]; [|done]. by intros [= _ _ <-].
Qed.

(** What the three functions leave; a directive takes at least a byte. *)
Lemma parse_consumes fuel :
  (∀ p acc ds p', dirs fuel p acc = Ok (ds, p') → consumes p p') ∧
  (∀ p o e p', dir fuel p = Ok (o, e, p') → consumes p p' ∧ (length (rest p') < length (rest p))%nat) ∧
  (∀ p d o e p', args fuel p d = Ok (o, e, p') → consumes p p').
Proof.
  induction fuel as [|fuel (IHs & IHd & IHa)]; [done|]. split_and!.
  - intros p acc ds p' Hp. rewrite parseDirectives_S in Hp. cbv zeta in Hp.
    etransitivity; [apply skip_consumes|]. set (q := skipWhitespaceAndComments p) in *.
    destruct (rest q) as [|c s]; [by injection Hp as <- <-|].
    case_decide; [by injection Hp as <- <-|].
    destruct (dir fuel q) as [[[o e] q']|] eqn:Hd; [|done]. apply IHd in Hd as [Hd _].
    etransitivity; [exact Hd|]. destruct o; by eapply IHs.
  - intros p o e p' Hp. rewrite parseDirective_S in Hp. cbv zeta in Hp.
    pose proof (skip_consumes p) as Hs. set (q := skipWhitespaceAndComments p) in *.
    destruct (readToken q) as [[t q']|] eqn:Ht; [|done]. cbn in Hp.
    apply readToken_consumes in Ht as [Hf Hl]. case_decide as He; [done|]. specialize (Hl He).
    apply IHa in Hp as Ha. assert (consumes q q') as Hqq by (split; [lia|done]).
    split; [by repeat (etransitivity; [eassumption|])|]. destruct Hs, Ha. lia.
  - intros p d o e p' Hp. rewrite parse_args_S in Hp. cbv zeta in Hp.
    etransitivity; [apply skip_consumes|]. set (q := skipWhitespaceAndComments p) in *.
    destruct (rest q) as [|c s] eqn:Hq; [done|].
    assert (∀ l, consumes q (at_rest q s l)) as Hat by (intros; split; [rewrite Hq; simpl; lia|done]).
    case_decide.
    { apply finish_parser in Hp as ->. apply Hat. }
    case_decide.
    + destruct (dirs fuel _ _) as [[block q']|] eqn:Hd; [|done]. cbn in Hp. apply IHs in Hd.
      etransitivity; [apply (Hat (line q))|]. etransitivity; [exact Hd|]. etransitivity; [apply skip_consumes|].
      set (q2 := skipWhitespaceAndComments q') in *. destruct (rest q2) as [|c' s'] eqn:Hq2; [done|].
      case_decide; [|done]. apply finish_parser in Hp as ->. split; [rewrite Hq2; simpl; lia|done].
    + destruct (readToken q) as [[t q']|] eqn:Ht; [|done]. cbn in Hp.
      apply readToken_consumes in Ht as [Hf Hl]. case_decide as He; [done|]. specialize (Hl He).
      etransitivity; [|by eapply IHa]. split; [lia|done].
Qed.

(** The three functions do not run out of fuel when included files do not. *)
Context (D : nat).
Hypothesis parse_file_ends : ∀ f st, (D < maxDepth)%nat → parse_file f st (S D) ≠ Err NoFuel.

Lemma include_loop_ends p fs all :
  depth p = D → (D < maxDepth)%nat → include_loop parse_file p fs all ≠ Err NoFuel.
Proof.
  intros Hp Hd. revert all. induction fs as [|f fs IH]; intros all; [done|]. simpl.
  destruct (EvalSymlinks f) as [g|]; [|done]. case_decide; [done|].
  pose proof (parse_file_ends g (includeStack p) Hd). rewrite Hp.
  destruct (parse_file _ _ _); [apply IH|]. intros [= ->]. done.
Qed.

Lemma finish_ends p d : depth p = D → finish parse_file p d ≠ Err NoFuel.
Proof.
  intros Hp. unfold finish. destruct (Args d) as [|pat ?]; [done|]. case_decide; [|done].
  enough (handleInclude parse_file p pat ≠ Err NoFuel) as Hh.
  { destruct (handleInclude _ _ _) as [[]|]; [done|]. intros [= ->]. done. }
  unfold handleInclude. destruct (Nat.leb_spec maxDepth (depth p)) as [|Hd]; [done|]. rewrite Hp in Hd.
  destruct (Glob _) as [[|f fs]|]; [by destruct (isGlobPattern _)| |done].
  pose proof (include_loop_ends p (f :: fs) [] Hp Hd). destruct (include_loop _ _ _ _); [done|].
  intros [= ->]. done.
Qed.

Lemma parse_ends fuel :
  (∀ p acc, depth p = D → (3 * length (rest p) + 3 ≤ fuel)%nat → dirs fuel p acc ≠ Err NoFuel) ∧
  (∀ p, depth p = D → (3 * length (rest p) + 2 ≤ fuel)%nat → dir fuel p ≠ Err NoFuel) ∧
  (∀ p d, depth p = D → (3 * length (rest p) + 1 ≤ fuel)%nat → args fuel p d ≠ Err NoFuel).
Proof.
  induction fuel as [|fuel (IHs & IHd & IHa)]; [split_and!; intros; lia|].
  split_and!; [intros p acc HD Hf|intros p HD Hf|intros p d HD Hf];
    [rewrite parseDirectives_S|rewrite parseDirective_S|rewrite parse_args_S]; cbv zeta;
    pose proof (skip_consumes p) as [Hs (_ & _ & Hd)]; rewrite HD in Hd;
    set (q := skipWhitespaceAndComments p) in *.
  - destruct (rest q) as [|c s] eqn:Hq; [done|].
    case_decide; [done|]. rewrite <- Hq in Hs. specialize (IHd q Hd ltac:(lia)).
    destruct (dir fuel q) as [[[o e] q']|] eqn:Hdir; [|intros [= ->]; done].
    apply parse_consumes in Hdir as [[_ (_ & _ & Hd')] Hl]. destruct o; (apply IHs; [congruence|lia]).
  - pose proof (readToken_fuel q). destruct (readToken q) as [[t q']|] eqn:Ht; [|intros [= ->]; done]. cbn.
    apply readToken_consumes in Ht as [(_ & _ & Hd') Hl]. case_decide as He; [done|]. specialize (Hl He).
    apply IHa; [congruence|lia].
  - destruct (rest q) as [|c s] eqn:Hq; [done|].
    case_decide; [by apply finish_ends|]. case_decide.
    + specialize (IHs (at_rest q s (line q)) [] Hd ltac:(simpl in *; lia)).
      destruct (dirs fuel _ _) as [[block q']|] eqn:Hb; [|intros [= ->]; done]. cbn.
      apply parse_consumes in Hb as [_ (_ & _ & Hd1)]. pose proof (skip_consumes q') as [_ (_ & _ & Hd2)].
      destruct (rest (skipWhitespaceAndComments q')); [done|]. case_decide; [apply finish_ends|done].
      simpl in *. congruence.
    + pose proof (readToken_fuel q). destruct (readToken q) as [[t q']|] eqn:Ht; [|intros [= ->]; done]. cbn.
      apply readToken_consumes in Ht as [(_ & _ & Hd') Hl]. case_decide as He; [done|]. specialize (Hl He).
      apply IHa; [congruence|]. rewrite Hq in Hl. simpl in *. lia.
Qed.

Lemma parse_all_ends p : depth p = D → parse_all parse_file p ≠ Err NoFuel.
Proof.
  intros HD. unfold parse_all. destruct (parse_ends (enough (rest p))) as [Hp _].
  specialize (Hp p [] HD ltac:(unfold enough; lia)). destruct (parseDirectives _ _ _ _) as [[]|]; [done|].
  intros [= ->]. done.
Qed.

End Termination.

Lemma parseFileWithStack_ends `{FileSystem} levels path st d :
  (S maxDepth ≤ levels + d)%nat → (d ≤ maxDepth)%nat → parseFileWithStack levels path st d ≠ Err NoFuel.
Proof.
  revert path st d. induction levels as [|levels IH]; intros path st d Hl Hd; [lia|]. simpl.
  destruct (ReadFile path); [|done]. apply (parse_all_ends _ d); [|done].
  intros f st' Hlt. apply IH; lia.
Qed.

(** ** Reading what was printed *)

(** Text at which skipping stops, and text that ends a bare token. *)
Definition stops (s : gostring) : Prop :=
  match s with [] => True | c :: _ => is_blank c = false ∧ c ≠ nl ∧ c ≠ "#"%char end.
Definition ends_token (s : gostring) : Prop :=
  match s with [] => False | c :: _ => is_delimiter c = true end.

Lemma skip_loop_spec w s l :
  Forall (λ c, is_blank c = true ∨ c = nl) w → stops s → ∃ l', skip_loop false (w ++ s) l = (s, l').
Proof.
  intros Hw Hs. revert l. induction Hw as [|c w Hc _ IH]; intros l; simpl.
  - destruct s as [|c s]; [by eexists|]. destruct Hs as (Hb & Hn & Hh). simpl.
    rewrite decide_False, Hb, decide_False by done. by eexists.
  - case_decide; [apply IH|]. destruct Hc as [->|?]; [apply IH|done].
Qed.

Lemma skip_spec p w s :
  rest p = w ++ s → Forall (λ c, is_blank c = true ∨ c = nl) w → stops s →
  rest (skipWhitespaceAndComments p) = s ∧ same_file p (skipWhitespaceAndComments p).
Proof.
  intros Hp Hw Hs. split; [|apply skip_consumes]. unfold skipWhitespaceAndComments. rewrite Hp.
  destruct (skip_loop_spec w s (line p) Hw Hs) as [l' ->]. done.
Qed.

Lemma quoted_escape p s tail l buf :
  ∃ l', quoted_loop p quote2 (escape s ++ quote2 :: tail) l buf = Ok (buf ++ s, at_rest p tail l').
Proof.
  revert l buf. induction s as [|c s IH]; intros l buf.
  - rewrite app_nil_r. by eexists.
  - change (escape (c :: s)) with ((if decide (c = quote2 ∨ c = backslash) then [backslash; c] else [c]) ++ escape s).
    rewrite <- app_assoc. case_decide as Hc.
    + cbn [app quoted_loop]. rewrite decide_True by done.
      destruct (IH l (buf ++ [c])) as [l' ->]. rewrite <- app_assoc. by eexists.
    + cbn [app quoted_loop]. rewrite !decide_False by tauto.
      destruct (IH (if decide (c = nl) then l + 1 else l) (buf ++ [c])) as [l' ->].
      rewrite <- app_assoc. by eexists.
Qed.

Lemma bare_loop_spec s tail :
  forallb (λ c, negb (is_delimiter c)) s = true → ends_token tail → bare_loop (s ++ tail) = (s, tail).
Proof.
  intros Hs Ht. induction s as [|c s IH]; simpl in *.
  - destruct tail as [|c tail]; [done|]. simpl in *. by rewrite Ht.
  - apply andb_true_iff in Hs as [Hc Hs]. apply negb_true_iff in Hc. by rewrite Hc, IH.
Qed.

(** The first byte of a printed token is none that the grammar gives a meaning. *)
Lemma print_token_head s :
  s ≠ [] → ∃ c t, print_token s = c :: t ∧ c ∉ ["{"; "}"; ";"]%char ∧ is_blank c = false ∧ c ≠ nl ∧ c ≠ "#"%char.
Proof.
  intros Hs. unfold print_token. destruct (bare s) eqn:Hb.
  - destruct s as [|c s]; [done|]. exists c, s. split; [done|].
    unfold bare in Hb. apply andb_true_iff in Hb as [_ Hb]. simpl in Hb. apply andb_true_iff in Hb as [Hb _].
    apply negb_true_iff in Hb. unfold is_delimiter in Hb. apply orb_false_iff in Hb as [Hbl Hd].
    apply bool_decide_eq_false in Hd. split_and!; [|done| |]; set_solver.
  - eexists _, _. split; [done|]. split_and!; [|done|done|done].
    intros Hin. repeat (apply elem_of_cons in Hin as [?|Hin]; [done|]). by apply elem_of_nil in Hin.
Qed.

Lemma readToken_print p s tail :
  s ≠ [] → rest p = print_token s ++ tail → ends_token tail →
  ∃ p', readToken p = Ok (s, p') ∧ rest p' = tail ∧ same_file p p'.
Proof.
  intros Hs Hp Ht. unfold readToken. rewrite Hp. unfold print_token. destruct (bare s) eqn:Hb.
  - destruct s as [|c s]; [done|]. pose proof Hb as Hb'. unfold bare in Hb. apply andb_true_iff in Hb as [_ Hb].
    assert (is_delimiter c = false) as Hc by (simpl in Hb; apply andb_true_iff in Hb as [Hb _]; by apply negb_true_iff in Hb).
    cbn [app]. unfold is_delimiter in Hc. apply orb_false_iff in Hc as [_ Hc]. apply bool_decide_eq_false in Hc.
    rewrite !bool_decide_eq_false_2 by set_solver.
    change (c :: s ++ tail) with ((c :: s) ++ tail). rewrite bare_loop_spec by done.
    by eexists.
  - cbn [app]. rewrite bool_decide_eq_true_2 by by left. unfold readQuotedString. rewrite Hp.
    unfold print_token. rewrite Hb. cbn [app drop]. rewrite <- app_assoc. cbn [app].
    destruct (quoted_escape p s tail (line p) []) as [l' Hq].
    replace (drop 0 (escape s ++ quote2 :: tail)) with (escape s ++ quote2 :: tail) by done.
    rewrite Hq. cbn. rewrite decide_False by done. by eexists.
Qed.

Section RoundTrip.
Context `{FileSystem} (parse_file : gostring → gset gostring → nat → res failure (list Directive)).

Abbreviation dirs := (parseDirectives parse_file).
Abbreviation dir := (parseDirective parse_file).
Abbreviation args := (parse_args parse_file).

Lemma print_args_ends l tail : ends_token tail → ends_token (print_args l ++ tail).
Proof. by destruct l. Qed.

Lemma parse_args_print l d fuel p tail :
  Forall (λ a, a ≠ []) l → ends_token tail → rest p = print_args l ++ tail →
  (3 * length (rest p) + 1 ≤ fuel)%nat →
  ∃ fuel' p', args fuel p d = args fuel' p' (mkDirective (Name d) (Args d ++ l) (Block d) (Line d) (File d)) ∧
    rest p' = tail ∧ same_file p p' ∧ (3 * length (rest p') + 1 ≤ fuel')%nat.
Proof.
  intros Hl Ht. revert d fuel p. induction Hl as [|a l Ha Hl IH]; intros d fuel p Hp Hf.
  - exists fuel, p. rewrite app_nil_r. destruct d. by split_and!.
  - destruct fuel as [|fuel]; [lia|]. destruct (print_token_head a Ha) as (c & t & Hc & Hn & Hst).
    rewrite parse_args_S. cbv zeta.
    change (print_args (a :: l)) with ([" "%char] ++ print_token a ++ print_args l) in Hp.
    rewrite <- !app_assoc in Hp.
    destruct (skip_spec p [" "%char] (print_token a ++ print_args l ++ tail) Hp) as [Hq Hs].
    { constructor; [by left|constructor]. }
    { by rewrite Hc. }
    set (q := skipWhitespaceAndComments p) in *.
    destruct (readToken_print q a _ Ha Hq (print_args_ends l tail Ht)) as (p1 & H1 & Hr1 & Hs1).
    rewrite Hq, Hc. cbn [app]. rewrite !decide_False by set_solver. rewrite H1. cbn.
    rewrite decide_False by done.
    destruct (IH (mkDirective (Name d) (Args d ++ [a]) (Block d) (Line d) (File d)) fuel p1 Hr1)
      as (fuel' & p' & -> & Hr' & Hs' & Hf').
    { rewrite Hr1. rewrite Hp, !length_app in Hf. rewrite length_app. simpl in Hf. lia. }
    exists fuel', p'. cbn. rewrite <- app_assoc. split_and!; [done|done| |done].
    etransitivity; [exact Hs|]. by etransitivity.
Qed.

(** What is to be shown of one directive. *)
Definition reads_back (d : Directive) : Prop :=
  ∀ fuel p tail, printable d = true → rest p = print d ++ tail → (3 * length (rest p) + 2 ≤ fuel)%nat →
  ∃ d' p', dir fuel p = Ok (Some d', [], p') ∧ erase d' = erase d ∧ rest p' = nl :: tail ∧ same_file p p'.

Lemma print_stops d tail : printable d = true → stops (print d ++ tail) ∧
  ∃ c s, print d ++ tail = c :: s ∧ c ≠ "}"%char.
Proof.
  intros Hp. destruct d as [n a b l f]. cbn [printable Name] in Hp.
  rewrite !andb_true_iff, negb_true_iff, bool_decide_eq_false in Hp.
  destruct (print_token_head n) as (c & t & Hc & Hn & Hst); [tauto|].
  cbn [print Name]. rewrite Hc. cbn [app]. split; [done|]. eexists _, _. split; [done|]. set_solver.
Qed.

Lemma parseDirectives_print ds w tail fuel p acc :
  Forall reads_back ds → forallb printable ds = true →
  Forall (λ c, is_blank c = true ∨ c = nl) w → (tail = [] ∨ head tail = Some "}"%char) →
  rest p = w ++ print_all ds ++ tail → (3 * length (rest p) + 3 ≤ fuel)%nat →
  ∃ ds' p', dirs fuel p acc = Ok (acc ++ ds', p') ∧ map erase ds' = map erase ds ∧
    rest p' = tail ∧ same_file p p'.
Proof.
  intros Hds. revert w fuel p acc. induction Hds as [|d ds Hd Hds IH]; intros w fuel p acc Hpr Hw Ht Hp Hf;
    (destruct fuel as [|fuel]; [lia|]); rewrite parseDirectives_S; cbv zeta.
  - assert (stops tail) as Hst by (destruct Ht as [->|?]; [done|]; destruct tail; simplify_eq/=; done).
    destruct (skip_spec p w tail Hp Hw Hst) as [Hq Hs]. rewrite Hq.
    exists [], (skipWhitespaceAndComments p). rewrite app_nil_r.
    destruct Ht as [->|?]; [done|]. by destruct tail; simplify_eq/=.
  - cbn [forallb] in Hpr. apply andb_true_iff in Hpr as [Hpd Hpr].
    change (print_all (d :: ds)) with (print d ++ print_all ds) in Hp. rewrite <- app_assoc in Hp.
    destruct (print_stops d (print_all ds ++ tail) Hpd) as [Hst (c & s & Hc & Hne)].
    destruct (skip_spec p w _ Hp Hw Hst) as [Hq Hs]. set (q := skipWhitespaceAndComments p) in *.
    rewrite Hq, Hc, decide_False by done.
    assert (length (rest q) ≤ length (rest p))%nat as Hlen by (rewrite Hq, Hp, !length_app; lia).
    destruct (Hd fuel q (print_all ds ++ tail) Hpd Hq ltac:(lia)) as (d' & p1 & Hd1 & He & Hr1 & Hs1).
    rewrite Hd1. cbn.
    destruct (IH [nl] fuel p1 (acc ++ [d']) Hpr) as (ds' & p' & Hds' & Hes & Hr' & Hs'); [|done|done| |].
    { constructor; [by right|constructor]. }
    { apply parse_consumes in Hd1 as [_ ?]. lia. }
    exists (d' :: ds'), p'. rewrite <- app_assoc in Hds'. split_and!; [done|simpl; congruence|done|].
    etransitivity; [exact Hs|]. by etransitivity.
Qed.

(** A fixpoint over trees of directives. *)
Lemma Directive_ind' (P : Directive → Prop) :
  (∀ n a b l f, Forall P b → P (mkDirective n a b l f)) → ∀ d, P d.
Proof.
  intros HP. fix IH 1. intros [n a b l f]. apply HP. induction b as [|d b IHb]; constructor; [apply IH|apply IHb].
Qed.

Lemma finish_print p d :
  Args d = [] ∨ Name d ≠ go!"include" → finish parse_file p d = Ok (Some d, [], p).
Proof. unfold finish. intros [->|Hn]; [done|]. destruct (Args d); [done|]. by rewrite decide_False. Qed.

(** The end of a directive: a semicolon, or a block. *)
Definition print_body (b : list Directive) : gostring :=
  match b with
  | [] => [";"%char; nl]
  | ds => [" "; "{"; nl]%char ++ print_all ds ++ ["}"%char; nl]
  end.

Lemma print_unfold n a b l f :
  print (mkDirective n a b l f) = print_token n ++ print_args a ++ print_body b.
Proof. by destruct b. Qed.

Lemma parse_body_print d b fuel p tail :
  Forall reads_back b → forallb printable b = true → Block d = [] →
  Args d = [] ∨ Name d ≠ go!"include" →
  rest p = print_body b ++ tail → (3 * length (rest p) + 1 ≤ fuel)%nat →
  ∃ b' p', args fuel p d = Ok (Some (mkDirective (Name d) (Args d) b' (Line d) (File d)), [], p') ∧
    map erase b' = map erase b ∧ rest p' = nl :: tail ∧ same_file p p'.
Proof.
  intros Hb Hpb Hbl Hi Hp Hf. destruct fuel as [|fuel]; [lia|]. rewrite parse_args_S. cbv zeta.
  destruct b as [|d0 b].
  - destruct (skip_spec p [] _ Hp ltac:(constructor) ltac:(done)) as [Hq Hs].
    set (q := skipWhitespaceAndComments p) in *. rewrite Hq. cbn [app print_body].
    rewrite decide_True by done. rewrite finish_print by done.
    exists [], (at_rest q (nl :: tail) (line q)). split_and!; [|done|done|done].
    destruct d. simpl in *. by subst.
  - unfold print_body in Hp. rewrite <- !app_assoc in Hp.
    destruct (skip_spec p [" "%char] ("{"%char :: nl :: print_all (d0 :: b) ++ "}"%char :: nl :: tail) Hp) as [Hq Hs];
      [constructor; [by left|constructor]|done|].
    set (q := skipWhitespaceAndComments p) in *. rewrite Hq. rewrite decide_False, decide_True by done.
    destruct (parseDirectives_print (d0 :: b) [nl] ("}"%char :: nl :: tail) fuel
      (at_rest q (nl :: print_all (d0 :: b) ++ "}"%char :: nl :: tail) (line q)) [])
      as (b' & p1 & H1 & He & Hr1 & Hs1); [done|done| |by right|done| |].
    { constructor; [by right|constructor]. }
    { rewrite Hp in Hf. cbn [at_rest rest]. simpl in Hf |- *. lia. }
    rewrite H1. cbn. destruct (skip_spec p1 [] _ Hr1 ltac:(constructor) ltac:(done)) as [Hq2 Hs2].
    set (q2 := skipWhitespaceAndComments p1) in *. rewrite Hq2. rewrite decide_True by done.
    rewrite finish_print by done.
    exists b', (at_rest q2 (nl :: tail) (line q2)). split_and!; [done|done|done|].
    etransitivity; [exact Hs|]. etransitivity; [exact Hs1|]. exact Hs2.
Qed.

Lemma reads_back_all d : reads_back d.
Proof.
  induction d as [n a b l f Hb] using Directive_ind'. intros fuel p tail Hpr Hp Hf.
  cbn [printable Name Args Block] in Hpr. rewrite !andb_true_iff, negb_true_iff, bool_decide_eq_false in Hpr.
  destruct Hpr as [[[Hn Ha] Hi] Hpb]. rewrite forallb_forall in Ha.
  assert (Forall (λ x, x ≠ []) a) as Ha'.
  { apply Forall_forall. intros x Hx%list_elem_of_In%Ha. apply negb_true_iff, bool_decide_eq_false in Hx. done. }
  assert (a = [] ∨ n ≠ go!"include") as Hi'.
  { apply orb_true_iff in Hi as [Hi|Hi]; [left; by apply bool_decide_eq_true in Hi|right].
    by apply negb_true_iff, bool_decide_eq_false in Hi. }
  destruct fuel as [|fuel]; [lia|]. rewrite parseDirective_S. cbv zeta.
  rewrite print_unfold, <- !app_assoc in Hp. destruct (print_token_head n Hn) as (c & t & Hc & Hcn & Hcs).
  destruct (skip_spec p [] _ Hp ltac:(constructor)) as [Hq Hs]; [by rewrite Hc|].
  set (q := skipWhitespaceAndComments p) in *.
  assert (ends_token (print_body b ++ tail)) as Hbody by by destruct b.
  destruct (readToken_print q n _ Hn Hq (print_args_ends a _ Hbody)) as (p1 & H1 & Hr1 & Hs1).
  rewrite H1. cbn. rewrite decide_False by done.
  destruct (parse_args_print a (mkDirective n [] [] (line q) (file q)) fuel p1 (print_body b ++ tail) Ha' Hbody Hr1)
    as (fuel' & p2 & -> & Hr2 & Hs2 & Hf2).
  { rewrite Hr1. rewrite Hp in Hf. assert (length (print_token n) ≠ 0)%nat by by rewrite Hc.
    rewrite length_app in Hf. lia. }
  edestruct parse_body_print as (b' & p3 & -> & He & Hr3 & Hs3); [exact Hb|exact Hpb|done|exact Hi'|exact Hr2|done|].
  eexists _, p3. split; [done|]. cbn. rewrite He. split_and!; [done|done|].
  by repeat (etransitivity; [eassumption|]).
Qed.

End RoundTrip.

(** ** Properties *)

(** C30: Parsing ends, with a configuration or an error that has a position,
    whatever the text, the file system and the cycles among included files. *)
Theorem parse_total `{FileSystem} :
  (∀ content, (∃ ds, ParseString content = Ok ds) ∨ (∃ e, ParseString content = Err (Failed e))) ∧
  (∀ path, (∃ ds, ParseFile path = Ok ds) ∨ (∃ e, ParseFile path = Err (Failed e))).
Proof.
  assert (∀ r : res failure (list Directive), r ≠ Err NoFuel →
    (∃ ds, r = Ok ds) ∨ (∃ e, r = Err (Failed e))) as Hr.
  { intros [ds|[e|]] Hr; [left; by exists ds|right; by exists e|done]. }
  split; intros x; apply Hr.
  - apply (parse_all_ends _ 0); [|done]. intros f st _. apply parseFileWithStack_ends; unfold maxDepth; lia.
  - unfold ParseFile. destruct (Abs x); [|done]. destruct (EvalSymlinks _); [|done].
    apply parseFileWithStack_ends; unfold maxDepth; lia.
Qed.

(** Printed directives are read up to the end of the text or a closing brace. *)
Lemma parse_print_tail `{FileSystem} ds tail :
  forallb printable ds = true → (tail = [] ∨ head tail = Some "}"%char) →
  ∃ ds', ParseString (print_all ds ++ tail) = Ok ds' ∧ map erase ds' = map erase ds.
Proof.
  intros Hp Ht. unfold ParseString, parse_all. set (p := mkParser _ _ _ _ _).
  destruct (parseDirectives_print (parseFileWithStack maxDepth) ds [] tail (enough (rest p)) p [])
    as (ds' & p' & Hd & He & _); [|done|constructor|done|done|unfold enough; lia|].
  - apply Forall_forall. intros. apply reads_back_all.
  - rewrite Hd. by exists ds'.
Qed.

(** C14: What is printed is read back: the printed form of any directives with
    non-empty words and no include parses to the same directives, at other
    positions; quotes, backslashes, newlines and special bytes survive. *)
Theorem parse_print `{FileSystem} ds :
  forallb printable ds = true →
  ∃ ds', ParseString (print_all ds) = Ok ds' ∧ map erase ds' = map erase ds.
Proof.
  intros Hp. rewrite <- (app_nil_r (print_all ds)). apply parse_print_tail; [done|by left].
Qed.

(** A stray closing brace ends the file: the parser answers what came before
    it, without an error, whatever follows. *)
Theorem stray_brace_truncates `{FileSystem} ds junk :
  forallb printable ds = true →
  ∃ ds', ParseString (print_all ds ++ "}"%char :: junk) = Ok ds' ∧ map erase ds' = map erase ds.
Proof. intros Hp. apply parse_print_tail; [done|by right]. Qed.

(** ** Examples *)

(** Two files, the second included by the first. *)
#[local] Instance ex_fs : FileSystem := {|
  ReadFile f :=
    if decide (f = go!"/etc/a.conf") then Some (go!"server { include 'b*.conf'; } # end")
    else if decide (f = go!"/etc/b1.conf") then Some (go!"listen 80; root /www;")
    else None;
  EvalSymlinks f := Some f;
  Glob f := Some (if decide (f = go!"/etc/b*.conf") then [go!"/etc/b1.conf"] else []);
  Abs f := Some f
|}.

Example ex_include :
  map erase <$> match ParseFile (go!"/etc/a.conf") with Ok ds => Some ds | Err _ => None end =
  Some [mkDirective (go!"server") []
          [mkDirective (go!"listen") [go!"80"] [] 0 []; mkDirective (go!"root") [go!"/www"] [] 0 []] 0 []].
Proof. vm_compute. reflexivity. Qed.

Definition ex_directives : list Directive :=
  [mkDirective (go!"user") [go!"www data"; [quote2; backslash; nl]] [] 0 [];
   mkDirective (go!"server") [] [mkDirective (go!"listen") [go!"80"] [] 0 []] 0 []].

Lemma parse_print_witness :
  ∃ ds', ParseString (print_all ex_directives) = Ok ds' ∧ map erase ds' = map erase ex_directives.
Proof. apply parse_print. reflexivity. Defined.

Lemma stray_brace_truncates_witness :
  ∃ ds', ParseString (print_all ex_directives ++ "}"%char :: go!"listen 443;") = Ok ds' ∧
    map erase ds' = map erase ex_directives.
Proof. apply stray_brace_truncates. reflexivity. Defined.
