(* ===== verification/NetIP.v ===== *)
(** * NetIP: addresses, networks, and who the client is

    The addresses of Go's [net] package as the security code uses them
    ([net.ParseIP], [net.ParseCIDR], [IPNet.Contains]), the text forms of
    [src/internal/netutil/ip.go], the lists of [src/internal/utils/ipallowlist.go]
    and the extraction of the client's address behind trusted proxies.  An address
    is its bytes: four, sixteen, or none ([nil]).  Shown: whose address the lists of
    trusted proxies give ([client_ip_not_spoofable]), and that without them it is the
    one that the client writes ([leftmost_is_the_clients]). *)

From S2P Require Import Prelude GoStrings.

Abbreviation IP := (list Z).

(** ** [net.ParseIP] *)

Definition v4InV6Prefix : IP := replicate 10 0 ++ [255; 255].

Definition To4 (ip : IP) : option IP :=
  if (length ip =? 4)%nat then Some ip
  else if (length ip =? 16)%nat && bool_decide (take 12 ip = v4InV6Prefix) then Some (drop 12 ip)
  else None.

(** A decimal field: no leading zero, at most 255. *)
Definition octet (s : gostring) : option Z :=
  match s with
  | [] => None
  | c :: s' =>
      if forallb is_digit s && (bool_decide (s' = []) || negb (Ascii.eqb c "0")) && (digits_val s <=? 255)
      then Some (digits_val s) else None
  end.

Definition parseIPv4Fields (s : gostring) : option IP :=
  match SplitByte s "." with
  | [a; b; c; d] => a ← octet a; b ← octet b; c ← octet c; d ← octet d; Some [a; b; c; d]
  | _ => None
  end.

Definition hex_val (c : ascii) : option Z :=
  let z := byteZ c in
  if is_digit c then Some (z - 48)
  else if (97 <=? z) && (z <=? 102) then Some (z - 87)
  else if (65 <=? z) && (z <=? 70) then Some (z - 55)
  else None.

(** The hexadecimal digits at the front: their values and the rest. *)
Fixpoint hex_digits (s : gostring) : list Z * gostring :=
  match s with
  | [] => ([], [])
  | c :: s' => match hex_val c with Some d => let '(ds, r) := hex_digits s' in (d :: ds, r) | None => ([], s) end
  end.

(** The groups of an IPv6 address: the bytes so far, the place of the ellipsis,
    what is left of the text. Eight groups make sixteen bytes. *)
Fixpoint v6_loop (groups : nat) (s : gostring) (bytes : IP) (ellipsis : option nat)
  : option (IP * option nat * gostring) :=
  match groups with
  | O => Some (bytes, ellipsis, s)
  | S groups =>
      let '(ds, r) := hex_digits s in
      let acc := foldl (λ acc d, acc * 16 + d) 0 ds in
      if (length ds =? 0)%nat || (4 <? length ds)%nat then None
      else
        let bytes' := bytes ++ [acc / 256; acc mod 256] in
        match r with
        | [] => Some (bytes', ellipsis, [])
        | c :: r' =>
            if Ascii.eqb c "." then
              if bool_decide (ellipsis = None) && negb (length bytes =? 12)%nat then None
              else if (16 <? length bytes + 4)%nat then None
              else fields ← parseIPv4Fields s; Some (bytes ++ fields, ellipsis, [])
            else if negb (Ascii.eqb c ":") then None
            else
              match r' with
              | [] => None
              | c' :: r'' =>
                  if Ascii.eqb c' ":" then
                    match ellipsis, r'' with
                    | Some _, _ => None
                    | None, [] => Some (bytes', Some (length bytes'), [])
                    | None, _ => v6_loop groups r'' bytes' (Some (length bytes'))
                    end
                  else v6_loop groups r' bytes' ellipsis
              end
        end
  end.

Definition v6_finish (bytes : IP) (ellipsis : option nat) (r : gostring) : option IP :=
  match r with
  | _ :: _ => None
  | [] =>
      if (length bytes <? 16)%nat then
        e ← ellipsis; Some (take e bytes ++ replicate (16 - length bytes) 0 ++ drop e bytes)
      else match ellipsis with Some _ => None | None => Some bytes end
  end.

Definition parseIPv6 (s : gostring) : option IP :=
  if ContainsByte s "%" then None
  else if HasPrefix s (go!"::") then
    match drop 2 s with
    | [] => Some (replicate 16 0)
    | s' => '(bytes, e, r) ← v6_loop 8 s' [] (Some 0%nat); v6_finish bytes e r
    end
  else '(bytes, e, r) ← v6_loop 8 s [] None; v6_finish bytes e r.

(** [netip.ParseAddr], without zones: the bytes, 4 or 16 of them. *)
Fixpoint addr_kind (s : gostring) : option ascii :=
  match s with
  | [] => None
  | c :: s' => if bool_decide (c ∈ ["."; ":"; "%"]%char) then Some c else addr_kind s'
  end.

Definition ParseAddr (s : gostring) : option IP :=
  match addr_kind s with
  | Some c =>
      if Ascii.eqb c "." then parseIPv4Fields s else if Ascii.eqb c ":" then parseIPv6 s else None
  | None => None
  end.

Definition As16 (ip : IP) : IP := if (length ip =? 4)%nat then v4InV6Prefix ++ ip else ip.

Definition ParseIP (s : gostring) : option IP := As16 <$> ParseAddr s.

(** ** Networks *)

Record IPNet := mkIPNet { net_IP : IP; net_Mask : IP }.

(** The byte of a mask with [n] bits left. *)
Definition mask_byte (n : nat) : Z := if (8 <=? n)%nat then 255 else 255 - 255 / 2 ^ Z.of_nat n.

(** [net.CIDRMask(ones, 8*len)] *)
Fixpoint CIDRMask (ones len : nat) : IP :=
  match len with O => [] | S len => mask_byte ones :: CIDRMask (ones - 8) len end.

Definition net_ParseCIDR (s : gostring) : option (IP * IP) :=
  match SplitByte s "/" with
  | addr :: rest =>
      match rest with
      | [] => None
      | _ =>
          let mask := GoStrings.Join rest (go!"/") in
          ip ← ParseAddr addr;
          if bool_decide (mask = []) || negb (forallb is_digit mask) then None
          else if 8 * zlen ip <? digits_val mask then None
          else Some (As16 ip, CIDRMask (Z.to_nat (digits_val mask)) (length ip))
      end
  | [] => None
  end.

(** [networkNumberAndMask] and [Contains]. *)
Definition networkNumberAndMask (n : IPNet) : option (IP * IP) :=
  match (match To4 (net_IP n) with
         | Some ip => Some ip
         | None => if (length (net_IP n) =? 16)%nat then Some (net_IP n) else None
         end) with
  | None => None
  | Some ip =>
      if (length (net_Mask n) =? 4)%nat then
        if (length ip =? 4)%nat then Some (ip, net_Mask n) else None
      else if (length (net_Mask n) =? 16)%nat then
        Some (ip, if (length ip =? 4)%nat then drop 12 (net_Mask n) else net_Mask n)
      else None
  end.

Definition mask_eqb (a b : IP) (m : IP) : bool :=
  forallb (λ '((x, y), k), Z.land x k =? Z.land y k) (zip (zip a b) m).

Definition Contains (n : IPNet) (ip : IP) : bool :=
  match networkNumberAndMask n with
  | None => (length ip =? 0)%nat
  | Some (nn, m) =>
      let x := default ip (To4 ip) in
      (length x =? length nn)%nat && mask_eqb nn x m
  end.

(** ** [ipallowlist.go] *)

(** [ParseCIDR]: the network keeps the address as it was written. *)
Definition ParseCIDR (cidr : gostring) : option IPNet :=
  cidr' ←
    (if ContainsByte cidr "/" then Some cidr
     else
       ip ← ParseIP cidr;
       Some (match To4 ip with Some _ => cidr ++ go!"/32" | None => cidr ++ go!"/128" end));
  '(ip, m) ← net_ParseCIDR cidr';
  Some (mkIPNet ip m).

(** [net.IP.Mask], for the network that [net.ParseCIDR] itself returns. *)
Definition masked (ip m : IP) : IP :=
  let ip := if (length m =? 4)%nat then default ip (To4 ip) else ip in
  zip_with Z.land ip m.

Definition opt_list {A} (o : option A) : list A := match o with Some a => [a] | None => [] end.

Fixpoint allow_loop (allow : list gostring) (result : list IPNet) : option (list IPNet) :=
  match allow with
  | [] => Some result
  | cidr :: rest =>
      if decide (cidr = go!"localhost") then
        allow_loop rest (result ++ opt_list (ParseCIDR (go!"127.0.0.1/32")) ++ opt_list (ParseCIDR (go!"::1/128")))
      else match net_ParseCIDR cidr with
           | Some (ip, m) => allow_loop rest (result ++ [mkIPNet (masked ip m) m])
           | None =>
               ip ← ParseIP cidr;
               let net := match To4 ip with
                          | Some _ => ParseCIDR (cidr ++ go!"/32")
                          | None => ParseCIDR (cidr ++ go!"/128")
                          end in
               allow_loop rest (result ++ opt_list net)
           end
  end.

Definition ParseIPAllowList (allow : list gostring) : option (list IPNet) := allow_loop allow [].

Definition IPInAllowList (ip : IP) (allowList : list IPNet) : bool := existsb (λ n, Contains n ip) allowList.

(** ** [net.SplitHostPort] and [net.JoinHostPort] *)

(** Host and port; [None] for an address that is not of the form host:port. *)
Definition SplitHostPort (hostport : gostring) : option (gostring * gostring) :=
  match LastIndexByte hostport ":" with
  | None => None
  | Some i =>
      let port := drop (S i) hostport in
      match hostport with
      | c :: _ =>
          if Ascii.eqb c "[" then
            match IndexByte hostport "]" with
            | None => None
            | Some e =>
                if (S e =? i)%nat then
                  if ContainsByte (drop 1 hostport) "[" || ContainsByte (drop (S e) hostport) "]" then None
                  else Some (take (e - 1) (drop 1 hostport), port)
                else None
            end
          else
            let host := take i hostport in
            if ContainsByte host ":" || ContainsByte hostport "[" || ContainsByte hostport "]" then None
            else Some (host, port)
      | [] => None
      end
  end.

Definition JoinHostPort (host port : gostring) : gostring :=
  if ContainsByte host ":" then "["%char :: host ++ go!"]:" ++ port else host ++ ":"%char :: port.

(** ** [netutil/ip.go] *)

(** What the functions read of a request: the two headers, empty when absent, and
    the TCP address of the peer, if it has one. *)
Record conn := mkConn { xff : gostring; xri : gostring; remote : option IP }.

Definition ExtractClientIPNet (c : conn) : IP :=
  let fallback := default [] (remote c) in
  let by_xri := match xri c with [] => fallback | s => default fallback (ParseIP s) end in
  match xff c with
  | [] => by_xri
  | s =>
      match SplitByte s "," with
      | first :: _ => default by_xri (ParseIP (TrimSpace first))
      | [] => by_xri
      end
  end.

Definition GetRemoteAddrIP (c : conn) : IP := default [] (remote c).

(** The loop over the entries, from the right. *)
Fixpoint xff_loop (trusted : list IPNet) (entries_rev : list gostring) : option IP :=
  match entries_rev with
  | [] => None
  | e :: es =>
      match ParseIP (TrimSpace e) with
      | Some ip => if existsb (λ n, Contains n ip) trusted then xff_loop trusted es else Some ip
      | None => xff_loop trusted es
      end
  end.

Definition ExtractClientIPWithTrustedProxies (c : conn) (trusted : list IPNet) : IP :=
  let remoteIP := GetRemoteAddrIP c in
  if bool_decide (remoteIP = []) || bool_decide (length trusted = 0%nat) then remoteIP
  else if negb (existsb (λ n, Contains n remoteIP) trusted) then remoteIP
  else if bool_decide (xff c = []) then remoteIP
  else default remoteIP (xff_loop trusted (reverse (SplitByte (xff c) ","))).

(** [writeUint8] and [formatIPv4]. *)
Definition writeUint8 (v : Z) : gostring :=
  if 100 <=? v then [digit_char (v / 100); digit_char ((v / 10) mod 10); digit_char (v mod 10)]
  else if 10 <=? v then [digit_char (v / 10); digit_char (v mod 10)]
  else [digit_char v].

Definition formatIPv4 (ip : IP) : gostring := GoStrings.Join (writeUint8 <$> ip) (go!".").

(** [CheckIPAccess] and [CheckTokenAuth] of [httperror.go]. *)
Definition CheckIPAccess (c : conn) (allowed trusted : list IPNet) : bool :=
  match allowed with
  | [] => true
  | _ =>
      let clientIP := ExtractClientIPWithTrustedProxies c trusted in
      if bool_decide (clientIP = []) then false else IPInAllowList clientIP allowed
  end.

Definition CheckTokenAuth (authorization authType token : gostring) : bool :=
  if bool_decide (authType = []) || bool_decide (authType = go!"none") then true
  else if bool_decide (authType = go!"token") then
    match authorization with
    | [] => false
    | _ =>
        if HasPrefix authorization (go!"Bearer ")
        then bool_decide (drop 7 authorization = token)
        else bool_decide (authorization = token)
    end
  else false.

Example ex_v6 : ParseIP (go!"2001:db8::1") = Some ([32; 1; 13; 184] ++ replicate 11 0 ++ [1]).
Proof. reflexivity. Qed.
Example ex_v6_mapped : ParseIP (go!"::ffff:1.2.3.4") = ParseIP (go!"1.2.3.4").
Proof. reflexivity. Qed.
Example ex_v6_bad : map ParseIP [go!"1::2::3"; go!":1"; go!"1:2:3:4:5:6:7:8:9"; go!"1.2.3"; go!"01.2.3.4"; go!"::1%eth0"; go!"12345::"] = replicate 7 None.
Proof. reflexivity. Qed.

(** ** Networks as prefixes *)

Definition is_byte (b : Z) : Prop := 0 ≤ b < 256.

(** The number an address stands for. *)
Fixpoint ip_value (ip : IP) : Z :=
  match ip with [] => 0 | b :: bs => b * 256 ^ zlen bs + ip_value bs end.

Lemma ip_value_range ip : Forall is_byte ip → 0 ≤ ip_value ip < 256 ^ zlen ip.
Proof.
  induction 1 as [|b bs Hb _ IH]; simpl; [lia|]. unfold is_byte in Hb.
  rewrite Nat2Z.inj_succ, Z.pow_succ_r by lia. nia.
Qed.

(** All bytes, to check a fact of one byte by computation. *)
Definition all_bytes : list Z := Z.of_nat <$> seq 0 256.

Lemma elem_of_all_bytes b : is_byte b → b ∈ all_bytes.
Proof.
  intros Hb. unfold is_byte in Hb. apply list_elem_of_fmap. exists (Z.to_nat b). split; [lia|].
  apply elem_of_seq. lia.
Qed.

Lemma mask_byte_land b n : is_byte b → (n ≤ 8)%nat →
  Z.land b (mask_byte n) = b / 2 ^ (8 - Z.of_nat n) * 2 ^ (8 - Z.of_nat n).
Proof.
  intros Hb Hn.
  assert (forallb (λ n, forallb (λ b, Z.land b (mask_byte n) =?
    b / 2 ^ (8 - Z.of_nat n) * 2 ^ (8 - Z.of_nat n)) all_bytes) (seq 0 9) = true) as H by (vm_compute; done).
  rewrite forallb_forall in H. specialize (H n). rewrite forallb_forall in H.
  apply Z.eqb_eq, H; [apply list_elem_of_In, elem_of_seq; lia|].
  by apply list_elem_of_In, elem_of_all_bytes.
Qed.

Lemma CIDRMask_length n l : length (CIDRMask n l) = l.
Proof. revert n. induction l; intros n; simpl; auto. Qed.

Lemma mask_eqb_cons a b m x y k : mask_eqb (x :: a) (y :: b) (k :: m) = (Z.land x k =? Z.land y k) && mask_eqb a b m.
Proof. done. Qed.

(** A network holds the addresses that agree with it on the first [n] bits. *)
Lemma mask_eqb_prefix n a b :
  length a = length b → (n ≤ 8 * length a)%nat → Forall is_byte a → Forall is_byte b →
  mask_eqb a b (CIDRMask n (length a)) = true ↔
  ip_value a / 2 ^ (8 * zlen a - Z.of_nat n) = ip_value b / 2 ^ (8 * zlen a - Z.of_nat n).
Proof.
  revert n b. induction a as [|x a IH]; intros n [|y b] Hlen Hn Ha Hb; try done.
  apply Forall_cons in Ha as [Hx Ha]. apply Forall_cons in Hb as [Hy Hb]. injection Hlen as Hlen.
  cbn [length CIDRMask]. rewrite mask_eqb_cons, andb_true_iff, Z.eqb_eq. cbn [ip_value].
  pose proof (ip_value_range a Ha) as Hva. pose proof (ip_value_range b Hb) as Hvb. rewrite <- Hlen in Hvb |- *.
  assert (256 ^ zlen a = 2 ^ (8 * zlen a)) as H256 by (change 256 with (2 ^ 8); rewrite Z.pow_mul_r; lia).
  rewrite H256 in *. destruct (decide (8 ≤ n)%nat) as [Hn8|Hn8].
  - rewrite IH by (done || simpl in Hn; lia).
    replace (8 * Z.of_nat (S (length a)) - Z.of_nat n) with (8 * zlen a - Z.of_nat (n - 8)) by lia.
    set (k := 8 * zlen a - Z.of_nat (n - 8)). assert (0 ≤ k ≤ 8 * zlen a) as Hk by (simpl in Hn; lia).
    replace (2 ^ (8 * zlen a)) with (2 ^ (8 * zlen a - k) * 2 ^ k) in * by (rewrite <- Z.pow_add_r by lia; f_equal; lia).
    set (M := 2 ^ (8 * zlen a - k)) in *. assert (0 < 2 ^ k) as Hpk by (apply Z.pow_pos_nonneg; lia).
    assert (0 < M) as HM by (apply Z.pow_pos_nonneg; lia).
    rewrite !Z.mul_assoc, !Z.div_add_l by lia.
    unfold mask_byte. rewrite (proj2 (Nat.leb_le _ _)) by done.
    assert (∀ z, is_byte z → Z.land z 255 = z) as H255.
    { intros z Hz. change 255 with (Z.ones 8). rewrite Z.land_ones by lia. apply Z.mod_small. apply Hz. }
    rewrite !H255 by done.
    assert (0 ≤ ip_value a / 2 ^ k < M) by (split; [apply Z.div_pos; lia|apply Z.div_lt_upper_bound; lia]).
    assert (0 ≤ ip_value b / 2 ^ k < M) by (split; [apply Z.div_pos; lia|apply Z.div_lt_upper_bound; lia]).
    split; [by intros [-> ->]|intros Heq]. apply (Z.div_mod_unique M); lia.
  - replace (n - 8)%nat with 0%nat by lia. rewrite IH by (done || lia).
    rewrite Z.sub_0_r, (Z.div_small (ip_value a)), (Z.div_small (ip_value b)) by lia.
    rewrite !mask_byte_land by (done || lia).
    replace (8 * Z.of_nat (S (length a)) - Z.of_nat n) with (8 * zlen a + (8 - Z.of_nat n)) by lia.
    rewrite Z.pow_add_r, <- !Z.div_div by lia.
    rewrite !Z.div_add_l, (Z.div_small (ip_value a)), (Z.div_small (ip_value b)), !Z.add_0_r by lia.
    assert (0 < 2 ^ (8 - Z.of_nat n)) by (apply Z.pow_pos_nonneg; lia). split; [intros [Hxy _]; nia|by intros ->].
Qed.

(** ** Round trip of the printed form *)

Lemma writeUint8_octet v : is_byte v → octet (writeUint8 v) = Some v ∧ "."%char ∉ writeUint8 v.
Proof.
  intros Hv.
  assert (forallb (λ v, bool_decide (octet (writeUint8 v) = Some v ∧ "."%char ∉ writeUint8 v)) all_bytes = true) as H
    by (vm_compute; done).
  rewrite forallb_forall in H. eapply bool_decide_eq_true_1, H. by apply list_elem_of_In, elem_of_all_bytes.
Qed.

Lemma parse_formatIPv4 ip :
  length ip = 4%nat → Forall is_byte ip → parseIPv4Fields (formatIPv4 ip) = Some ip.
Proof.
  intros Hlen Hip. destruct ip as [|a [|b [|c [|d [|? ?]]]]]; try done.
  repeat match goal with H : Forall _ (_ :: _) |- _ => apply Forall_cons in H as [? H] end.
  repeat match goal with H : is_byte ?v |- _ => apply writeUint8_octet in H as [? ?] end.
  unfold parseIPv4Fields, formatIPv4. cbn [fmap list_fmap GoStrings.Join].
  change (go!".") with ["."%char]. rewrite <- ?app_assoc. cbn [app].
  rewrite !SplitByte_app, SplitByte_none by done.
  repeat match goal with H : octet _ = _ |- _ => rewrite H; cbn [mbind option_bind] end. done.
Qed.

Lemma writeUint8_digits v : is_byte v → forallb is_digit (writeUint8 v) = true ∧ writeUint8 v ≠ [].
Proof.
  intros Hv.
  assert (forallb (λ v, bool_decide (forallb is_digit (writeUint8 v) = true ∧ writeUint8 v ≠ [])) all_bytes = true) as H
    by (vm_compute; done).
  rewrite forallb_forall in H. eapply bool_decide_eq_true_1, H. by apply list_elem_of_In, elem_of_all_bytes.
Qed.

Lemma digit_apart c : is_digit c = true → c ∉ ["."; ":"; "%"; "/"]%char.
Proof.
  intros Hd Hin. repeat (apply elem_of_cons in Hin as [->|Hin]; [done|]). by apply elem_of_nil in Hin.
Qed.

Lemma addr_kind_digits s t : forallb is_digit s = true → addr_kind (s ++ "."%char :: t) = Some "."%char.
Proof.
  induction s as [|c s IH]; intros Hs; [done|]. simpl in *. apply andb_true_iff in Hs as [Hc Hs].
  apply digit_apart in Hc. rewrite bool_decide_eq_false_2 by set_solver. by apply IH.
Qed.

(** A dotted address is made of digits and dots. *)
Lemma formatIPv4_chars (c : ascii) ip :
  is_digit c = false → c ≠ "."%char → Forall is_byte ip → c ∉ formatIPv4 ip.
Proof.
  intros Hc Hdot Hip. unfold formatIPv4. induction Hip as [|a ip Ha Hip IH]; [apply not_elem_of_nil|].
  apply writeUint8_digits in Ha as [Ha _]. rewrite forallb_forall in Ha.
  assert (c ∉ writeUint8 a) as Hna by (intros Hin%list_elem_of_In%Ha; congruence).
  destruct ip as [|b ip]; [done|]. cbn [fmap list_fmap GoStrings.Join] in *.
  rewrite !elem_of_app. intros [?|[Hd|?]]; [done| |by apply IH].
  change (go!".") with ["."%char] in Hd. by apply list_elem_of_singleton in Hd.
Qed.

Lemma ParseAddr_formatIPv4 ip :
  length ip = 4%nat → Forall is_byte ip → ParseAddr (formatIPv4 ip) = Some ip ∧ "/"%char ∉ formatIPv4 ip.
Proof.
  intros Hlen Hip. split.
  - unfold ParseAddr. rewrite parse_formatIPv4 by done. destruct ip as [|a [|b ip]]; try done.
    apply Forall_cons in Hip as [Ha _]. unfold formatIPv4. cbn [fmap list_fmap GoStrings.Join].
    change (go!".") with ["."%char]. cbn [app].
    rewrite addr_kind_digits by by apply writeUint8_digits. by rewrite Ascii.eqb_refl.
  - by apply formatIPv4_chars.
Qed.

(** The text of a mask length. *)
Lemma FormatInt_mask n :
  (n ≤ 128)%nat →
  forallb is_digit (FormatInt (Z.of_nat n)) = true ∧ FormatInt (Z.of_nat n) ≠ [] ∧
  digits_val (FormatInt (Z.of_nat n)) = Z.of_nat n ∧ "/"%char ∉ FormatInt (Z.of_nat n).
Proof.
  intros Hn.
  assert (forallb (λ n, bool_decide (forallb is_digit (FormatInt (Z.of_nat n)) = true ∧ FormatInt (Z.of_nat n) ≠ [] ∧
    digits_val (FormatInt (Z.of_nat n)) = Z.of_nat n ∧ "/"%char ∉ FormatInt (Z.of_nat n))) (seq 0 129) = true) as H
    by (vm_compute; done).
  rewrite forallb_forall in H. eapply bool_decide_eq_true_1, H. apply list_elem_of_In, elem_of_seq. lia.
Qed.

Lemma net_ParseCIDR_v4 ip n :
  length ip = 4%nat → Forall is_byte ip → (n ≤ 32)%nat →
  net_ParseCIDR (formatIPv4 ip ++ "/"%char :: FormatInt (Z.of_nat n)) = Some (v4InV6Prefix ++ ip, CIDRMask n 4).
Proof.
  intros Hlen Hip Hn. destruct (ParseAddr_formatIPv4 ip Hlen Hip) as [Ha Hs].
  destruct (FormatInt_mask n ltac:(lia)) as (Hd & Hne & Hv & Hns).
  unfold net_ParseCIDR. rewrite SplitByte_app, SplitByte_none by done. cbn [GoStrings.Join].
  rewrite Ha. cbn [mbind option_bind]. rewrite bool_decide_eq_false_2, Hd by done. cbn [negb orb].
  rewrite Hv, Hlen. destruct (Z.ltb_spec (8 * Z.of_nat 4) (Z.of_nat n)); [lia|].
  unfold As16. rewrite Hlen. cbn [Nat.eqb]. by rewrite Nat2Z.id.
Qed.

Lemma ParseCIDR_slash a b : ParseCIDR (a ++ "/"%char :: b) = '(ip, m) ← net_ParseCIDR (a ++ "/"%char :: b); Some (mkIPNet ip m).
Proof. unfold ParseCIDR. rewrite (proj2 (ContainsByte_spec _ _)) by set_solver. done. Qed.

Lemma To4_As16 ip : length ip = 4%nat → To4 (v4InV6Prefix ++ ip) = Some ip.
Proof. intros Hlen. unfold To4. rewrite length_app, Hlen. by destruct ip as [|a [|b [|c [|d [|? ?]]]]]. Qed.

Lemma To4_bytes ip b : To4 ip = Some b → length b = 4%nat ∧ (Forall is_byte ip → Forall is_byte b).
Proof.
  unfold To4. destruct (Nat.eqb_spec (length ip) 4); [by intros [= <-]|].
  destruct (Nat.eqb_spec (length ip) 16); [|done]. case_bool_decide; [|done]. intros [= <-].
  split; [rewrite length_drop; lia|]. apply Forall_drop.
Qed.

(** ** No address holds a slash *)

Lemma octet_no_slash s v : octet s = Some v → "/"%char ∉ s.
Proof.
  destruct s as [|c s]; [done|]. unfold octet. destruct (forallb is_digit (c :: s)) eqn:E; [|done].
  intros _ Hin%list_elem_of_In. rewrite forallb_forall in E. by apply E in Hin.
Qed.

Lemma parseIPv4Fields_spec s ip : parseIPv4Fields s = Some ip → length ip = 4%nat ∧ "/"%char ∉ s.
Proof.
  unfold parseIPv4Fields. intros H. pose proof (Join_SplitByte s ".") as Hs.
  destruct (SplitByte s ".") as [|a [|b [|c [|d [|? ?]]]]]; try done.
  destruct (octet a) eqn:Ha; [|done]. destruct (octet b) eqn:Hb; [|done]. destruct (octet c) eqn:Hc; [|done].
  destruct (octet d) eqn:Hd; [|done]. simplify_eq/=. split; [done|].
  apply octet_no_slash in Ha, Hb, Hc, Hd. repeat rewrite ?elem_of_app, ?elem_of_cons.
  intros [?|[?|[?|[?|[?|[?|?]]]]]]; done.
Qed.

Lemma hex_digits_slash s : "/"%char ∈ s → "/"%char ∈ (hex_digits s).2.
Proof.
  induction s as [|c s IH]; [done|]. cbn [hex_digits]. destruct (hex_val c) eqn:Hc; [|done].
  destruct (hex_digits s). cbn in *. intros [<-|Hin]%elem_of_cons; [done|by apply IH].
Qed.

Lemma v6_loop_slash groups s bytes e bytes' e' r :
  v6_loop groups s bytes e = Some (bytes', e', r) → "/"%char ∈ s → "/"%char ∈ r.
Proof.
  revert s bytes e. induction groups as [|n IH]; intros s bytes e; cbn [v6_loop]; [by intros [= <- <- <-]|].
  intros Hl Hs%hex_digits_slash. destruct (hex_digits s) as [ds q] eqn:Hd. cbn in Hs.
  destruct (_ || _); [done|]. destruct q as [|c q]; [by apply elem_of_nil in Hs|].
  destruct (Ascii.eqb_spec c ".") as [->|Hc].
  - destruct (_ && _); [done|]. destruct (_ <? _)%nat; [done|].
    destruct (parseIPv4Fields s) as [f|] eqn:Hf; [|done]. exfalso.
    apply parseIPv4Fields_spec in Hf as [_ Hf]. apply Hf. clear -Hd Hs.
    cut (∃ p, s = p ++ "."%char :: q); [intros [p ->]; set_solver|].
    revert ds Hd. induction s as [|c s IHs]; intros ds; cbn [hex_digits]; [by intros [= <- <-]|].
    destruct (hex_val c); [|intros [= <- -> ->]; by exists []].
    destruct (hex_digits s) as [ds' q']. intros [= <- ->]. destruct (IHs ds' eq_refl) as [p ->]. by exists (c :: p).
  - destruct (Ascii.eqb_spec c ":") as [->|]; cbn [negb] in Hl; [|done].
    apply elem_of_cons in Hs as [?|Hs]; [done|]. destruct q as [|c' q]; [done|].
    destruct (Ascii.eqb_spec c' ":") as [->|]; [|by eapply IH].
    apply elem_of_cons in Hs as [?|Hs]; [done|]. destruct e; [done|].
    destruct q as [|c'' q]; [by apply elem_of_nil in Hs|]. by eapply IH.
Qed.

(** An address is four bytes of decimal text or at least sixteen of the other. *)
Lemma ParseAddr_spec s ip :
  ParseAddr s = Some ip → (length ip = 4%nat ∨ (16 ≤ length ip)%nat) ∧ "/"%char ∉ s.
Proof.
  unfold ParseAddr. destruct (addr_kind s) as [c|]; [|done].
  destruct (Ascii.eqb c "."); [intros [? ?]%parseIPv4Fields_spec; auto|].
  destruct (Ascii.eqb c ":"); [|done]. unfold parseIPv6. destruct (ContainsByte s "%"); [done|].
  assert (Hf : ∀ b e r, v6_finish b e r = Some ip → (16 ≤ length ip)%nat ∧ r = []).
  { intros b e [|? ?]; [|done]. unfold v6_finish. destruct (Nat.ltb_spec (length b) 16).
    - destruct e as [e|]; [|done]. intros [= <-]. rewrite !length_app, length_replicate, length_take, length_drop. split; [lia|done].
    - destruct e; [done|]. by intros [= <-]. }
  assert (Hv : ∀ t e, ('(b, e, r) ← v6_loop 8 t [] e; v6_finish b e r) = Some ip → (16 ≤ length ip)%nat ∧ "/"%char ∉ t).
  { intros t e. destruct (v6_loop 8 t [] e) as [[[b e'] r]|] eqn:E; [|done]. intros [? ->]%Hf. split; [done|].
    intros Hin. eapply v6_loop_slash in Hin; [|done]. by apply elem_of_nil in Hin. }
  destruct (HasPrefix s (go!"::")) eqn:Hp; [|intros [? ?]%Hv; auto].
  apply HasPrefix_spec in Hp as [t ->]. change (drop 2 (go!"::" ++ t)) with t. destruct t as [|x t].
  - intros [= <-]. split; [right; cbn; lia|]. cbn. set_solver.
  - intros [? Ht]%Hv. split; [auto|]. change (go!"::" ++ x :: t) with (":"%char :: ":"%char :: x :: t).
    by apply not_elem_of_cons; split; [|apply not_elem_of_cons; split].
Qed.

Lemma ParseCIDR_net s n : net_ParseCIDR s = Some n → is_Some (ParseCIDR s).
Proof.
  intros Hn. unfold ParseCIDR. destruct (ContainsByte s "/") eqn:E.
  - cbn. rewrite Hn. destruct n. by eexists.
  - exfalso. assert ("/"%char ∉ s) as Hs by (intros Hin%ContainsByte_spec; congruence).
    unfold net_ParseCIDR in Hn. by rewrite SplitByte_none in Hn.
Qed.

Lemma net_ParseCIDR_host s ip mask v :
  ParseAddr s = Some ip → forallb is_digit mask = true → mask ≠ [] → digits_val mask = v → "/"%char ∉ mask →
  v ≤ 8 * zlen ip → is_Some (net_ParseCIDR (s ++ "/"%char :: mask)).
Proof.
  intros Ha Hd Hne Hv Hns Hle. unfold net_ParseCIDR.
  rewrite SplitByte_app by (by eapply ParseAddr_spec). rewrite SplitByte_none by done. cbn [GoStrings.Join].
  rewrite Ha. cbn [mbind option_bind]. rewrite bool_decide_eq_false_2, Hd, Hv by done. cbn [negb orb].
  destruct (Z.ltb_spec (8 * zlen ip) v); [lia|]. by eexists.
Qed.

(** A single address is a network of its own. *)
Lemma ParseCIDR_host s ip : ParseIP s = Some ip → is_Some (ParseCIDR s).
Proof.
  unfold ParseIP. destruct (ParseAddr s) as [b|] eqn:Ha; [|done]. intros [= <-].
  destruct (ParseAddr_spec s b Ha) as [Hlen Hs]. unfold ParseCIDR.
  assert (ContainsByte s "/" = false) as ->.
  { apply not_true_iff_false. by intros Hin%ContainsByte_spec. }
  unfold ParseIP. rewrite Ha. cbn [fmap option_fmap option_map mbind option_bind].
  assert (∀ m, is_Some (net_ParseCIDR m) → is_Some ('(ip, m) ← net_ParseCIDR m; Some (mkIPNet ip m))) as Hm.
  { intros m [[? ?] ->]. by eexists. }
  apply Hm. clear Hm. destruct (To4 (As16 b)) eqn:E.
  - apply (net_ParseCIDR_host s b (go!"32") 32); try done; [set_solver|]. lia.
  - apply (net_ParseCIDR_host s b (go!"128") 128); try done; [set_solver|].
    destruct Hlen as [Hlen|]; [|lia]. unfold As16 in E. rewrite Hlen in E. cbn [Nat.eqb] in E.
    by rewrite To4_As16 in E.
Qed.

(** ** Properties *)

(** An IPv4 network in text form holds exactly the addresses, IPv4 or mapped
    into IPv6, that share its first [n] bits, whatever the bits after them. *)
Theorem cidr_prefix a n :
  length a = 4%nat → Forall is_byte a → (n ≤ 32)%nat →
  ∃ net, ParseCIDR (formatIPv4 a ++ "/"%char :: FormatInt (Z.of_nat n)) = Some net ∧
    ∀ ip, Forall is_byte ip →
      Contains net ip = true ↔
      ∃ b, To4 ip = Some b ∧ ip_value a / 2 ^ (32 - Z.of_nat n) = ip_value b / 2 ^ (32 - Z.of_nat n).
Proof.
  intros Hlen Ha Hn. eexists. split.
  { rewrite ParseCIDR_slash, net_ParseCIDR_v4 by done. done. }
  intros ip Hip. unfold Contains, networkNumberAndMask. cbn [net_IP net_Mask].
  rewrite To4_As16, CIDRMask_length, Hlen by done. cbn [Nat.eqb].
  destruct (To4 ip) as [b|] eqn:Hb; [change (default ip (Some b)) with b|change (default ip None) with ip].
  - destruct (To4_bytes ip b Hb) as [Hlb Hbb]. rewrite Hlb, Hlen. cbn [Nat.eqb andb].
    pose proof (mask_eqb_prefix n a b) as Hm. rewrite Hlen in Hm. rewrite Hm by (auto; lia).
    change (8 * Z.of_nat 4) with 32. split; [by exists b|by intros (? & [= <-] & ?)].
  - split; [|by intros (? & ? & ?)]. unfold To4 in Hb. rewrite Hlen.
    by destruct (length ip =? 4)%nat.
Qed.

Lemma cidr_prefix_witness :
  ∃ net, ParseCIDR (formatIPv4 [10; 1; 2; 3] ++ "/"%char :: FormatInt (Z.of_nat 8)) = Some net ∧
    ∀ ip, Forall is_byte ip →
      Contains net ip = true ↔
      ∃ b, To4 ip = Some b ∧
        ip_value [10; 1; 2; 3] / 2 ^ (32 - Z.of_nat 8) = ip_value b / 2 ^ (32 - Z.of_nat 8).
Proof.
  apply (cidr_prefix [10; 1; 2; 3] 8); [reflexivity|repeat constructor; unfold is_byte; lia|lia].
Defined.

(** An address written in the mapped form, with no mask, makes a network that
    holds every IPv4 address: the mask of 32 bits is applied to the first bytes of
    the sixteen. *)
Theorem mapped_entry_matches_all :
  ∃ net, ParseCIDR (go!"::ffff:10.0.0.1") = Some net ∧
    ∀ ip b, To4 ip = Some b → Contains net ip = true.
Proof.
  eexists. split; [vm_compute; reflexivity|]. intros ip b Hb. unfold Contains. rewrite Hb. change (default ip (Some b)) with b.
  destruct (To4_bytes ip b Hb) as [Hlb _]. destruct b as [|x [|y [|z [|w [|? ?]]]]]; try done.
  change (networkNumberAndMask _) with (Some ([10; 0; 0; 1], [0; 0; 0; 0])). cbn [length Nat.eqb andb].
  rewrite !mask_eqb_cons, !Z.land_0_r. done.
Qed.

(** The printed form of an IPv4 address is read back. *)
Theorem formatIPv4_parse ip :
  length ip = 4%nat → Forall is_byte ip → ParseIP (formatIPv4 ip) = Some (v4InV6Prefix ++ ip).
Proof.
  intros Hlen Hip. unfold ParseIP. destruct (ParseAddr_formatIPv4 ip Hlen Hip) as [-> _].
  cbn. unfold As16. by rewrite Hlen.
Qed.

Lemma formatIPv4_parse_witness : ParseIP (formatIPv4 [192; 168; 0; 1]) = Some (v4InV6Prefix ++ [192; 168; 0; 1]).
Proof. apply (formatIPv4_parse [192; 168; 0; 1]); [reflexivity|repeat constructor; unfold is_byte; lia]. Defined.

(** ** The client's address *)

Lemma SplitByte_app_gen a b c : SplitByte (a ++ c :: b) c = SplitByte a c ++ SplitByte b c.
Proof.
  induction a as [|d a IH]; simpl; [by rewrite Ascii.eqb_refl|]. rewrite IH.
  destruct (Ascii.eqb d c); [done|]. destruct (SplitByte a c) eqn:E; [|done].
  exfalso. destruct a as [|x a]; [done|]. simpl in E. destruct (Ascii.eqb x c); [done|].
  by destruct (SplitByte a c).
Qed.

Lemma xff_loop_app trusted l l' : xff_loop trusted (l ++ l') =
  match xff_loop trusted l with Some ip => Some ip | None => xff_loop trusted l' end.
Proof.
  induction l as [|e l IH]; [done|]. simpl. destruct (ParseIP _); [|done]. by destruct (existsb _ _).
Qed.

Lemma xff_loop_untrusted trusted l ip :
  xff_loop trusted l = Some ip → existsb (λ n, Contains n ip) trusted = false.
Proof.
  induction l as [|e l IH]; [done|]. simpl. destruct (ParseIP _) as [i|]; [|done].
  destruct (existsb (λ n, Contains n i) trusted) eqn:E; [done|]. by intros [= <-].
Qed.

(** An entry that is the address of a trusted proxy. *)
Definition trusted_entry (trusted : list IPNet) (e : gostring) : Prop :=
  ∃ ip, ParseIP (TrimSpace e) = Some ip ∧ existsb (λ n, Contains n ip) trusted = true.

Lemma xff_loop_trusted trusted hops : Forall (trusted_entry trusted) hops → xff_loop trusted hops = None.
Proof. induction 1 as [|e hops (ip & He & Ht) _ IH]; [done|]. cbn [xff_loop]. by rewrite He, Ht. Qed.

(** The header at the server: what the client sent, if anything, then what the proxies
    appended, each the address of its peer. *)
Definition forwarded (spoof : option gostring) (appended : list gostring) : gostring :=
  match spoof with
  | Some s => s ++ ","%char :: Join appended (go!",")
  | None => Join appended (go!",")
  end.

(** C31: The address of a client that is not a trusted proxy cannot be chosen by the
    client where the lists of trusted proxies are used: from a peer that is no trusted
    proxy the headers count for nothing; and if the peer is a trusted proxy and the
    proxies append the address of the client and then those of the proxies on the way,
    the answer is that address of the client, whatever the client sent in the header.
    In general the answer is the peer's address or one that is not a proxy's. When no
    appended entry is an address outside the trusted networks, the client's own entries
    are looked at (inside_client_spoofs). *)
Theorem client_ip_not_spoofable r real trusted :
  (∀ h, existsb (λ n, Contains n r) trusted = false →
    ExtractClientIPWithTrustedProxies (mkConn h real (Some r)) trusted = r) ∧
  (∀ spoof client hops ip, r ≠ [] → existsb (λ n, Contains n r) trusted = true →
    ParseIP (TrimSpace client) = Some ip → existsb (λ n, Contains n ip) trusted = false →
    Forall (trusted_entry trusted) hops → Forall (λ e, ","%char ∉ e) (client :: hops) →
    ExtractClientIPWithTrustedProxies (mkConn (forwarded spoof (client :: hops)) real (Some r)) trusted = ip) ∧
  (∀ h, let ip := ExtractClientIPWithTrustedProxies (mkConn h real (Some r)) trusted in
    ip = r ∨ existsb (λ n, Contains n ip) trusted = false).
Proof.
  split_and!.
  - intros h Hr. unfold ExtractClientIPWithTrustedProxies. unfold GetRemoteAddrIP. cbn [remote]. change (default [] (Some r)) with r.
    rewrite Hr. cbn [negb]. by destruct (_ || _).
  - intros spoof client hops ip Hr Htr Hip Hun Hhops Hcomma. unfold ExtractClientIPWithTrustedProxies.
    unfold GetRemoteAddrIP. cbn [remote xff]. change (default [] (Some r)) with r. rewrite Htr. cbn [negb].
    rewrite bool_decide_eq_false_2 by done. destruct trusted as [|n trusted]; [done|].
    rewrite bool_decide_eq_false_2 by done. cbn [orb].
    assert (SplitByte (Join (client :: hops) (go!",")) "," = client :: hops) as Hsplit by (apply SplitByte_Join; done).
    assert (∀ l, xff_loop (n :: trusted) (reverse (l ++ client :: hops)) = Some ip) as Hloop.
    { intros l. rewrite reverse_app, xff_loop_app, reverse_cons, xff_loop_app, xff_loop_trusted by by apply Forall_reverse.
      cbn [xff_loop]. by rewrite Hip, Hun. }
    rewrite bool_decide_eq_false_2.
    + destruct spoof as [s|]; cbn [forwarded]; [rewrite SplitByte_app_gen|]; rewrite Hsplit; [by rewrite Hloop|].
      by rewrite (Hloop [] : xff_loop _ (reverse (client :: hops)) = _).
    + destruct spoof as [s|]; cbn [forwarded]; [by destruct s|]. intros Hnil. rewrite Hnil in Hsplit. cbn in Hsplit.
      injection Hsplit as <- <-. by vm_compute in Hip.
  - intros h. unfold ExtractClientIPWithTrustedProxies. unfold GetRemoteAddrIP. cbn [remote xff]. change (default [] (Some r)) with r.
    destruct (_ || _); [by left|]. destruct (negb _); [by left|].
    destruct (bool_decide (h = [])); [by left|]. destruct (xff_loop _ _) as [ip|] eqn:E; [|by left].
    right. by eapply xff_loop_untrusted.
Qed.

(** The functions that take no list of proxies believe the client: [ExtractClientIPNet],
    the key of the limiters that have no trusted proxies, is the first entry. *)
Theorem leftmost_is_the_clients spoof rest real peer ip :
  ","%char ∉ spoof → ParseIP (TrimSpace spoof) = Some ip →
  ExtractClientIPNet (mkConn (spoof ++ ","%char :: rest) real peer) = ip.
Proof.
  intros Hc Hip. unfold ExtractClientIPNet. cbn [xff].
  destruct (spoof ++ ","%char :: rest) as [|x h] eqn:E; [by destruct spoof|]. rewrite <- E, SplitByte_app by done. by rewrite Hip.
Qed.

(** ** Examples *)

(** Proxies in 10.0.0.0/8; the client 203.0.113.7 says that it is 127.0.0.1. *)
Definition ex_trusted : list IPNet := [mkIPNet [10; 0; 0; 0] [255; 0; 0; 0]].

Lemma client_ip_not_spoofable_witness :
  ExtractClientIPWithTrustedProxies
    (mkConn (go!"127.0.0.1,203.0.113.7,10.0.0.9") [] (Some [10; 0; 0; 8])) ex_trusted = v4InV6Prefix ++ [203; 0; 113; 7].
Proof.
  apply (proj1 (proj2 (client_ip_not_spoofable [10; 0; 0; 8] [] ex_trusted)) (Some (go!"127.0.0.1")) (go!"203.0.113.7") [go!"10.0.0.9"]);
    [discriminate|reflexivity..| |].
  - repeat constructor. exists (v4InV6Prefix ++ [10; 0; 0; 9]). split; reflexivity.
  - apply (bool_decide_unpack _). vm_compute. exact I.
Defined.

(** A client whose own address is inside the trusted networks is believed. *)
Example inside_client_spoofs :
  ExtractClientIPWithTrustedProxies
    (mkConn (go!"127.0.0.1,10.0.0.7,10.0.0.9") [] (Some [10; 0; 0; 8])) ex_trusted = v4InV6Prefix ++ [127; 0; 0; 1].
Proof. by vm_compute. Qed.

Lemma leftmost_is_the_clients_witness :
  ExtractClientIPNet (mkConn (go!"127.0.0.1,203.0.113.7") [] (Some [10; 0; 0; 8])) = v4InV6Prefix ++ [127; 0; 0; 1].
Proof.
  apply (leftmost_is_the_clients (go!"127.0.0.1") (go!"203.0.113.7")); [|by vm_compute].
  apply (bool_decide_unpack _). vm_compute. exact I.
Defined.
