(* ===== verification/Access.v ===== *)
(** * Access: access control by address and country

    [src/internal/middleware/security/access.go] and the part of [geoip.go] that
    is its own: the order in which the deny list, the country and the allow list
    decide, and the updates of the lists while the server runs.  The country
    database, behind its cache, is a parameter. *)

From S2P Require Import Prelude GoStrings NetIP.

Inductive Action := ActionAllow | ActionDeny.

Global Instance Action_eq_dec : EqDecision Action.
Proof. solve_decision. Defined.

Definition geoPrivateAllow : gostring := go!"PRIVATE_ALLOW".
Definition geoPrivateDeny : gostring := go!"PRIVATE_DENY".

(** [config.GeoIPConfig] and [config.AccessConfig]. *)
Record GeoIPConfig := mkGeoIPConfig {
  g_Enabled : bool; g_Database : gostring; AllowCountries : list gostring; DenyCountries : list gostring;
  g_Default : gostring; PrivateIPBehavior : gostring; CacheSize : Z; CacheTTL : Z }.

Record AccessConfig := mkAccessConfig {
  c_Allow : list gostring; c_Deny : list gostring; c_TrustedProxies : list gostring;
  c_Default : gostring; c_GeoIP : GeoIPConfig }.

(** The lookup; its cache is part of the database's answers. *)
Record GeoIPLookup := mkGeoIP { privateIPBehavior : gostring; cacheSize : Z; ttl : Z }.

Record AccessControl := mkAccess {
  allowList : list IPNet; denyList : list IPNet; trustedProxies : list IPNet;
  geoip : option GeoIPLookup; geoipConfig : GeoIPConfig; defaultAction : Action }.

Inductive access_error :=
  | InvalidCIDR (cidr : gostring)
  | InvalidDefault (action : gostring)
  | InvalidTarget (target : gostring)
  | GeoIPFailed (database : gostring).

(** [parseCIDRList], and the three loops of [NewAccessControl]. *)
Fixpoint parseCIDRList (cidrs : list gostring) : res access_error (list IPNet) :=
  match cidrs with
  | [] => Ok []
  | cidr :: rest =>
      match ParseCIDR cidr with
      | None => Err (InvalidCIDR cidr)
      | Some n => ns ← parseCIDRList rest; Ok (n :: ns)
      end
  end.

Definition parseAction (empty_ok : bool) (s : gostring) : res access_error Action :=
  if decide (ToLower s = go!"allow") then Ok ActionAllow
  else if decide (ToLower s = go!"deny") then Ok ActionDeny
  else if empty_ok && bool_decide (s = []) then Ok ActionAllow
  else Err (InvalidDefault s).

(** [isPrivateIP] *)
Definition private_blocks : list gostring :=
  [go!"10.0.0.0/8"; go!"172.16.0.0/12"; go!"192.168.0.0/16"; go!"127.0.0.0/8"].

Definition private_nets : list IPNet :=
  omap (λ s, '(ip, m) ← net_ParseCIDR s; Some (mkIPNet (masked ip m) m)) private_blocks.

Definition byte_at (ip : IP) (i : nat) : Z := nth i ip 0.

Definition isPrivateIP (ip : IP) : bool :=
  existsb (λ n, Contains n ip) private_nets ||
  match To4 ip with
  | Some _ => false
  | None =>
      (length ip =? 16)%nat &&
      (bool_decide (ip = replicate 15 0 ++ [1]) ||
       ((byte_at ip 0 =? 254) && (Z.land (byte_at ip 1) 192 =? 128)) ||
       ((byte_at ip 0 =? 255) && (Z.land (byte_at ip 1) 15 =? 2)))
  end.

Section Access.

(** The database: the country of an address, empty when it has none, or an error;
    and which database files open. *)
Context (db_country : IP → option gostring) (db_opens : gostring → bool).

Definition LookupCountry (g : GeoIPLookup) (ip : IP) : option gostring :=
  let query := (λ c, if decide (c = []) then go!"UNKNOWN" else c) <$> db_country ip in
  if isPrivateIP ip then
    if decide (privateIPBehavior g = go!"allow") then Some geoPrivateAllow
    else if decide (privateIPBehavior g = go!"deny") then Some geoPrivateDeny
    else if decide (privateIPBehavior g = go!"bypass") then None
    else query
  else query.

Definition NewGeoIPLookup (dbPath : gostring) (cacheSize ttl : Z) (behavior : gostring) : option GeoIPLookup :=
  if decide (dbPath = []) then None
  else if negb (db_opens dbPath) then None
  else if cacheSize <=? 0 then None
  else Some (mkGeoIP (if decide (behavior = []) then go!"allow" else behavior) cacheSize ttl).

Definition hour : Z := 3600 * 1000000000.

Definition NewAccessControl (cfg : AccessConfig) : res access_error AccessControl :=
  allow ← parseCIDRList (c_Allow cfg);
  deny ← parseCIDRList (c_Deny cfg);
  trusted ← parseCIDRList (c_TrustedProxies cfg);
  action ← parseAction true (c_Default cfg);
  let g := c_GeoIP cfg in
  if g_Enabled g && negb (bool_decide (g_Database g = [])) then
    let cacheSize := if CacheSize g <=? 0 then 10000 else CacheSize g in
    let ttl := if CacheTTL g <=? 0 then hour else CacheTTL g in
    match NewGeoIPLookup (g_Database g) cacheSize ttl (PrivateIPBehavior g) with
    | None => Err (GeoIPFailed (g_Database g))
    | Some l => Ok (mkAccess allow deny trusted (Some l) g action)
    end
  else Ok (mkAccess allow deny trusted None (mkGeoIPConfig false [] [] [] [] [] 0 0) action).

Definition matches (l : list IPNet) (ip : IP) : bool := existsb (λ n, Contains n ip) l.

(** The steps after the denials: the allow list, the country, the default. *)
Definition allow_or_default (ac : AccessControl) (ip : IP) (country : bool) : bool :=
  if matches (allowList ac) ip then true
  else if country then true
  else bool_decide (defaultAction ac = ActionAllow).

Definition Check (ac : AccessControl) (ip : IP) : bool :=
  if matches (denyList ac) ip then false
  else
    match geoip ac with
    | None => allow_or_default ac ip false
    | Some g =>
        if negb (g_Enabled (geoipConfig ac)) then allow_or_default ac ip false
        else
          match LookupCountry g ip with
          | None => allow_or_default ac ip false
          | Some c =>
              if decide (c = geoPrivateDeny) then false
              else if decide (c = geoPrivateAllow) then allow_or_default ac ip false
              else if decide (c ∈ DenyCountries (geoipConfig ac)) then false
              else allow_or_default ac ip (bool_decide (c ∈ AllowCountries (geoipConfig ac)))
          end
    end.

Definition UpdateList (ac : AccessControl) (target : gostring) (cidrs : list gostring)
  : option access_error * AccessControl :=
  match parseCIDRList cidrs with
  | Err e => (Some e, ac)
  | Ok l =>
      if decide (target = go!"allow") then
        (None, mkAccess l (denyList ac) (trustedProxies ac) (geoip ac) (geoipConfig ac) (defaultAction ac))
      else if decide (target = go!"deny") then
        (None, mkAccess (allowList ac) l (trustedProxies ac) (geoip ac) (geoipConfig ac) (defaultAction ac))
      else (Some (InvalidTarget target), ac)
  end.

Definition UpdateAllowList ac cidrs := UpdateList ac (go!"allow") cidrs.
Definition UpdateDenyList ac cidrs := UpdateList ac (go!"deny") cidrs.

Definition SetDefault (ac : AccessControl) (action : gostring) : option access_error * AccessControl :=
  match parseAction false action with
  | Err e => (Some e, ac)
  | Ok a => (None, mkAccess (allowList ac) (denyList ac) (trustedProxies ac) (geoip ac) (geoipConfig ac) a)
  end.

Record AccessStats := mkAccessStats { AllowCount : Z; DenyCount : Z; Default : gostring }.

Definition actionToString (a : Action) : gostring :=
  match a with ActionAllow => go!"allow" | ActionDeny => go!"deny" end.

Definition Access_GetStats (ac : AccessControl) : AccessStats :=
  mkAccessStats (zlen (allowList ac)) (zlen (denyList ac)) (actionToString (defaultAction ac)).

Definition getClientIP (ac : AccessControl) (c : conn) : IP :=
  ExtractClientIPWithTrustedProxies c (trustedProxies ac).

(** The middleware: [None] is the 403, [Some] what the next handler answers. *)
Definition Process {R} (ac : AccessControl) (next : conn → R) (c : conn) : option R :=
  if negb (Check ac (getClientIP ac c)) then None else Some (next c).

(** ** The decision as a whole *)

(** What the country says: denied, allowed, or nothing. *)
Definition country_denied (ac : AccessControl) (ip : IP) : Prop :=
  ∃ g c, geoip ac = Some g ∧ g_Enabled (geoipConfig ac) = true ∧ LookupCountry g ip = Some c ∧
    (c = geoPrivateDeny ∨ (c ≠ geoPrivateAllow ∧ c ∈ DenyCountries (geoipConfig ac))).
Definition country_allowed (ac : AccessControl) (ip : IP) : Prop :=
  ∃ g c, geoip ac = Some g ∧ g_Enabled (geoipConfig ac) = true ∧ LookupCountry g ip = Some c ∧
    c ≠ geoPrivateAllow ∧ c ∈ AllowCountries (geoipConfig ac).

Definition holds (l : list IPNet) (ip : IP) : Prop := ∃ n, n ∈ l ∧ Contains n ip = true.

Lemma matches_spec l ip : matches l ip = true ↔ holds l ip.
Proof. unfold matches, holds. rewrite existsb_exists. by setoid_rewrite <- list_elem_of_In. Qed.

Lemma rest_spec ac ip (b : bool) :
  allow_or_default ac ip b = true ↔
  holds (allowList ac) ip ∨ b = true ∨ defaultAction ac = ActionAllow.
Proof.
  unfold allow_or_default. rewrite <- matches_spec. destruct (matches (allowList ac) ip), b; try tauto.
  rewrite bool_decide_eq_true. naive_solver.
Qed.

(** An address passes exactly when no deny rule holds it, its country is not
    denied, and an allow rule, its country or the default lets it in: an explicit
    denial wins over everything. *)
Theorem access_decision ac ip :
  Check ac ip = true ↔
    ¬ holds (denyList ac) ip ∧ ¬ country_denied ac ip ∧
    (holds (allowList ac) ip ∨ country_allowed ac ip ∨ defaultAction ac = ActionAllow).
Proof.
  unfold Check, country_denied, country_allowed. rewrite <- matches_spec.
  destruct (matches (denyList ac) ip); [naive_solver|].
  destruct (geoip ac) as [g|]; [|rewrite rest_spec; naive_solver].
  destruct (g_Enabled (geoipConfig ac)); cbn [negb]; [|rewrite rest_spec; naive_solver].
  destruct (LookupCountry g ip) as [c|] eqn:Hc; [|rewrite rest_spec; naive_solver].
  case_decide as H1; [naive_solver|].
  case_decide as H2; [rewrite rest_spec; naive_solver|].
  case_decide as H3; [naive_solver|].
  rewrite rest_spec, bool_decide_eq_true. naive_solver.
Qed.

(** A failed update changes nothing, and a successful one replaces exactly the
    named list with networks for all the texts given, so that no request sees a
    list that is half updated. *)
Theorem update_atomic ac target cidrs :
  let '(e, ac') := UpdateList ac target cidrs in
  match e with
  | Some _ => ac' = ac
  | None =>
      mapM ParseCIDR cidrs = Some (if decide (target = go!"allow") then allowList ac' else denyList ac') ∧
      (target = go!"allow" ∧ denyList ac' = denyList ac ∨ target = go!"deny" ∧ allowList ac' = allowList ac) ∧
      trustedProxies ac' = trustedProxies ac ∧ geoip ac' = geoip ac ∧ geoipConfig ac' = geoipConfig ac ∧ defaultAction ac' = defaultAction ac
  end.
Proof.
  assert (∀ l, parseCIDRList cidrs = Ok l → mapM ParseCIDR cidrs = Some l) as Hp.
  { induction cidrs as [|s cidrs IH]; simpl; [by intros l [= <-]|]. intros l.
    destruct (ParseCIDR s); [|done]. destruct (parseCIDRList cidrs) as [ns|]; [|done].
    intros [= <-]. simpl. by rewrite (IH ns). }
  unfold UpdateList. destruct (parseCIDRList cidrs) as [l|e]; [|done].
  case_decide as H1; [|case_decide as H2; [|done]]; simpl.
  - split_and!; auto.
  - split_and!; auto.
Qed.

End Access.
