(* ===== verification/RateLimit.v ===== *)
(** * RateLimit: request rates and connection counts

    [sliding_window.go] and [ratelimit.go] of [src/internal/middleware/security].
    The tables of both limiters are split into sixteen shards by the hash of the
    key; a call holds the lock of its shard, so it is one step.  [now] is what
    [time.Now] answers.  Shown: the precise window admits exactly what the limit
    allows, the approximate one does not, and connections never exceed their
    maximum however the atomic steps of the requests interleave, unless a handler moves
    the key under which a slot is given back ([conn_limit_safe], [moved_key_exceeds]). *)

From Stdlib Require Import Sorted.
From S2P Require Import Prelude GoStrings Float64 Hash NetIP.

(** ** The sliding window *)

Record windowCounter := mkCounter { timestamps : list Z; count : Z }.

Abbreviation limiterBucket := (gmap gostring windowCounter).

Record SlidingWindowLimiter := mkLimiter {
  buckets : list limiterBucket; window : Z; limit : Z; precise : bool }.

Definition shard_of (key : gostring) : nat := Z.to_nat (FNV64a key mod 16).

Definition getBucket (s : SlidingWindowLimiter) (key : gostring) : limiterBucket :=
  nth (shard_of key) (buckets s) ∅.

Definition second : Z := 1000000000.

Definition NewSlidingWindowLimiter (window limit : Z) (precise : bool) : SlidingWindowLimiter :=
  mkLimiter (replicate 16 ∅) (if window <=? 0 then second else window) limit precise.

(** [bucket.counters[key] = c] *)
Definition set_counter (s : SlidingWindowLimiter) (key : gostring) (c : windowCounter) : SlidingWindowLimiter :=
  mkLimiter (<[shard_of key := <[key := c]> (getBucket s key)]> (buckets s)) (window s) (limit s) (precise s).

Definition allowPrecise (now : Z) (s : SlidingWindowLimiter) (key : gostring) : bool * SlidingWindowLimiter :=
  let windowStart := now - window s in
  let c := default (mkCounter [] 0) (getBucket s key !! key) in
  let valid := filter (λ t, time_after t windowStart = true) (timestamps c) in
  if limit s <=? zlen valid then (false, set_counter s key (mkCounter valid (count c)))
  else (true, set_counter s key (mkCounter (valid ++ [now]) (count c))).

(** The first time stamp also starts the window; the part of the window that has
    gone by is read off the clock. *)
Definition allowApproximate (now : Z) (s : SlidingWindowLimiter) (key : gostring) : bool * SlidingWindowLimiter :=
  let c := default (mkCounter [] 0) (getBucket s key !! key) in
  let c :=
    match timestamps c with
    | t0 :: _ =>
        if count c =? 0 then mkCounter [now] (count c)
        else if window s <? time_sub now t0 then mkCounter [] 0 else c
    | [] => mkCounter [now] (count c)
    end in
  let n := zlen (timestamps c) in
  let elapsed := f64_div (f64_of_int (Z.rem now (window s))) (f64_of_int (window s)) in
  let adjustedCount := f64_mul (f64_of_int n) (f64_sub (f64_of_int 1) elapsed) in
  if limit s <=? int_of_f64 adjustedCount then (false, set_counter s key c)
  else (true, set_counter s key (mkCounter (timestamps c ++ [now]) (n + 1))).

Definition Allow (now : Z) (s : SlidingWindowLimiter) (key : gostring) : bool * SlidingWindowLimiter :=
  if precise s then allowPrecise now s key else allowApproximate now s key.

Definition Reset (s : SlidingWindowLimiter) (key : gostring) : SlidingWindowLimiter :=
  mkLimiter (<[shard_of key := delete key (getBucket s key)]> (buckets s)) (window s) (limit s) (precise s).

Definition ResetAll (s : SlidingWindowLimiter) : SlidingWindowLimiter :=
  mkLimiter (replicate 16 ∅) (window s) (limit s) (precise s).

(** Counters whose last time stamp is older than [maxAge]; those without any stay. *)
Definition idle (now maxAge : Z) (c : windowCounter) : bool :=
  match last (timestamps c) with Some t => maxAge <? time_sub now t | None => false end.

Definition Cleanup (now maxAge : Z) (s : SlidingWindowLimiter) : SlidingWindowLimiter :=
  mkLimiter ((λ b : limiterBucket, filter (λ kc, idle now maxAge kc.2 = false) b) <$> buckets s)
    (window s) (limit s) (precise s).

Record SlidingWindowStats := mkSWStats {
  s_Window : Z; s_Limit : Z; s_Precise : bool; s_CounterKeys : Z }.

Definition SW_GetStats (s : SlidingWindowLimiter) : SlidingWindowStats :=
  mkSWStats (window s) (limit s) (precise s)
    (foldl (λ n (b : limiterBucket), n + Z.of_nat (size b)) 0 (buckets s)).

Definition GetCount (now : Z) (s : SlidingWindowLimiter) (key : gostring) : Z :=
  match getBucket s key !! key with
  | None => 0
  | Some c =>
      if precise s then zlen (filter (λ t, time_after t (now - window s) = true) (timestamps c))
      else count c
  end.

(** ** The token bucket *)

Record tokenBucket := mkTokens { lastUpdate : Z; tokens : float64 }.

Abbreviation shardedBucket := (gmap gostring tokenBucket).

Record RateLimiter := mkRL {
  shards : list shardedBucket; rate : float64; burst : float64; trustedProxies : list IPNet }.

Definition getShard (rl : RateLimiter) (key : gostring) : shardedBucket :=
  nth (shard_of key) (shards rl) ∅.

Definition set_shard (rl : RateLimiter) (key : gostring) (m : shardedBucket) : RateLimiter :=
  mkRL (<[shard_of key := m]> (shards rl)) (rate rl) (burst rl) (trustedProxies rl).

(** [Duration.Seconds]: whole seconds plus the nanoseconds. *)
Definition Seconds (d : Z) : float64 :=
  f64_add (f64_of_int (Z.quot d second)) (f64_div (f64_of_int (Z.rem d second)) (f64_of_int second)).

Definition consume (now : Z) (tb : tokenBucket) (rate burst : float64) : bool * tokenBucket :=
  let elapsed := Seconds (time_sub now (lastUpdate tb)) in
  let t := f64_add (tokens tb) (f64_mul elapsed rate) in
  let t := if f64_ltb burst t then burst else t in
  if f64_leb (f64_of_int 1) t then (true, mkTokens now (f64_sub t (f64_of_int 1)))
  else (false, mkTokens now t).

(** [created] is the clock when a new bucket is made, [now] when it is used. *)
Definition RL_Allow (created now : Z) (rl : RateLimiter) (key : gostring) : bool * RateLimiter :=
  let tb := default (mkTokens created (burst rl)) (getShard rl key !! key) in
  let '(ok, tb) := consume now tb (rate rl) (burst rl) in
  (ok, set_shard rl key (<[key := tb]> (getShard rl key))).

Definition getRetryAfter (rl : RateLimiter) (key : gostring) : Z :=
  match getShard rl key !! key with
  | None => 1
  | Some tb =>
      let waitTime := f64_div (f64_of_int 1) (rate rl) in
      let waitTime :=
        if f64_ltb (tokens tb) (f64_of_int 0)
        then f64_add waitTime (f64_div (f64_sub (f64_of_int 0) (tokens tb)) (rate rl)) else waitTime in
      swrap64 (int_of_f64 waitTime + 1)
  end.

Definition RL_Reset (rl : RateLimiter) (key : gostring) : RateLimiter :=
  set_shard rl key (delete key (getShard rl key)).

Definition RL_ResetAll (rl : RateLimiter) : RateLimiter :=
  mkRL (replicate 16 ∅) (rate rl) (burst rl) (trustedProxies rl).

Definition RL_Cleanup (now maxAge : Z) (rl : RateLimiter) : RateLimiter :=
  mkRL ((λ b : shardedBucket, filter (λ kt, (maxAge <? time_sub now (lastUpdate kt.2)) = false) b) <$> shards rl)
    (rate rl) (burst rl) (trustedProxies rl).

Record RateLimitStats := mkRLStats { BucketCount : Z; s_Rate : float64; s_Burst : float64 }.

Definition RL_GetStats (rl : RateLimiter) : RateLimitStats :=
  mkRLStats (foldl (λ n (b : shardedBucket), n + Z.of_nat (size b)) 0 (shards rl)) (rate rl) (burst rl).

(** ** Keys and configuration *)

Inductive key_type := ByIP | ByHeader.

Record RateLimitConfig := mkRLConfig {
  RequestRate : Z; Burst : Z; Key : gostring; Algorithm : gostring;
  SlidingWindowMode : gostring; SlidingWindow : Z; ConnLimit : Z }.

Inductive limit_error :=
  | RateNotPositive | BurstTooSmall | BadProxy (cidr : gostring) | UnknownKey (k : gostring)
  | UnknownAlgorithm (a : gostring) | MaxNotPositive.

Definition parseKeyFunc (keyType : gostring) : res limit_error key_type :=
  if decide (keyType = go!"ip" ∨ keyType = []) then Ok ByIP
  else if decide (keyType = go!"header") then Ok ByHeader
  else Err (UnknownKey keyType).

(** [net.IP.String], for addresses other than IPv4 a parameter of the callers. *)
Section Keys.
Context (ip_string : IP → gostring).

Definition keyByIP (c : conn) : gostring :=
  match ExtractClientIPNet c with [] => go!"unknown" | ip => ip_string ip end.

Definition RL_keyByIP (trusted : list IPNet) (c : conn) : gostring :=
  match ExtractClientIPWithTrustedProxies c trusted with [] => go!"unknown" | ip => ip_string ip end.

(** [header] is the value of [X-RateLimit-Key]. *)
Definition keyByHeader (header : gostring) (c : conn) : gostring :=
  match header with [] => keyByIP c | _ => header end.

Definition RL_keyByHeader (trusted : list IPNet) (header : gostring) (c : conn) : gostring :=
  match header with [] => RL_keyByIP trusted c | _ => header end.

End Keys.

Fixpoint parse_proxies (cidrs : list gostring) : res limit_error (list IPNet) :=
  match cidrs with
  | [] => Ok []
  | s :: rest =>
      match net_ParseCIDR s with
      | None => Err (BadProxy s)
      | Some (ip, m) => ns ← parse_proxies rest; Ok (mkIPNet (masked ip m) m :: ns)
      end
  end.

Definition newTokenBucketLimiter (cfg : RateLimitConfig) (proxies : list gostring)
  : res limit_error (RateLimiter * key_type) :=
  if Burst cfg <? RequestRate cfg then Err BurstTooSmall
  else
    nets ← parse_proxies proxies;
    key ← parseKeyFunc (Key cfg);
    Ok (mkRL (replicate 16 ∅) (f64_of_int (RequestRate cfg)) (f64_of_int (Burst cfg)) nets, key).

(** Which middleware a configuration makes. *)
Inductive limiter :=
  | TokenBucket (rl : RateLimiter) (key : key_type)
  | Sliding (s : SlidingWindowLimiter) (key : key_type).

Definition NewSlidingWindowLimiterWrapper (cfg : RateLimitConfig) (window : Z) (precise : bool)
  : res limit_error limiter :=
  key ← parseKeyFunc (Key cfg);
  Ok (Sliding (NewSlidingWindowLimiter window (RequestRate cfg) precise) key).

Definition NewRateLimiter (cfg : RateLimitConfig) (proxies : list gostring) : res limit_error limiter :=
  if RequestRate cfg <=? 0 then Err RateNotPositive
  else
    let algorithm := if decide (Algorithm cfg = []) then go!"token_bucket" else Algorithm cfg in
    if decide (algorithm = go!"token_bucket") then
      '(rl, key) ← newTokenBucketLimiter cfg proxies; Ok (TokenBucket rl key)
    else if decide (algorithm = go!"sliding_window") then
      let window := swrap64 (SlidingWindow cfg * second) in
      let window := if window <=? 0 then second else window in
      NewSlidingWindowLimiterWrapper cfg window (bool_decide (SlidingWindowMode cfg = go!"precise"))
    else Err (UnknownAlgorithm algorithm).

(** ** Connections *)

Record ConnLimiter := mkCL {
  counts : gmap gostring Z; max : Z; current : Z; perKey : bool; cl_key : option key_type }.

Definition NewConnLimiter (maxConns : Z) (perKey : bool) (keyType : gostring) : res limit_error ConnLimiter :=
  if maxConns <=? 0 then Err MaxNotPositive
  else if perKey then
    k ← parseKeyFunc keyType; Ok (mkCL ∅ maxConns 0 true (Some k))
  else Ok (mkCL ∅ maxConns 0 false None).

Definition with_current (cl : ConnLimiter) (n : Z) : ConnLimiter :=
  mkCL (counts cl) (max cl) (swrap64 n) (perKey cl) (cl_key cl).

Definition with_count (cl : ConnLimiter) (key : gostring) (n : Z) : ConnLimiter :=
  mkCL (<[key := n]> (counts cl)) (max cl) (current cl) (perKey cl) (cl_key cl).

(** The two atomic additions of a global [Acquire]: the first decides, the second
    takes a refused connection back. *)
Definition Acquire_add (cl : ConnLimiter) : bool * ConnLimiter :=
  let cl := with_current cl (current cl + 1) in
  (current cl <=? max cl, cl).

Definition Acquire_undo (cl : ConnLimiter) : ConnLimiter := with_current cl (current cl - 1).

(** The locked part for one key. *)
Definition Acquire_key (cl : ConnLimiter) (key : gostring) : bool * ConnLimiter :=
  let n := default 0 (counts cl !! key) in
  if max cl <=? n then (false, cl) else (true, with_count cl key (n + 1)).

Definition Release (cl : ConnLimiter) (key : gostring) : ConnLimiter :=
  if perKey cl then
    let n := default 0 (counts cl !! key) in
    if 0 <? n then with_count cl key (n - 1) else cl
  else with_current cl (current cl - 1).

(** ** Shards

    A table split into sixteen shards by the hash of the key is a table. *)

Section Shards.
Context {A : Type}.

Definition shard_get (l : list (gmap gostring A)) (k : gostring) : gmap gostring A := nth (shard_of k) l ∅.
Definition table (l : list (gmap gostring A)) (k : gostring) : option A := shard_get l k !! k.

Lemma shard_of_lt k : (shard_of k < 16)%nat.
Proof. unfold shard_of. pose proof (Z.mod_pos_bound (FNV64a k) 16). lia. Qed.

Lemma shard_get_insert l k k' m :
  length l = 16%nat →
  shard_get (<[shard_of k := m]> l) k' = if decide (shard_of k = shard_of k') then m else shard_get l k'.
Proof.
  intros Hl. unfold shard_get. rewrite !nth_lookup. case_decide as Hk.
  - rewrite <- Hk, list_lookup_insert_eq; [done|]. rewrite Hl. apply shard_of_lt.
  - by rewrite list_lookup_insert_ne.
Qed.

Lemma table_insert l k k' a :
  length l = 16%nat →
  table (<[shard_of k := <[k := a]> (shard_get l k)]> l) k' = if decide (k = k') then Some a else table l k'.
Proof.
  intros Hl. unfold table. rewrite shard_get_insert by done. case_decide as Hs.
  - destruct (decide (k = k')) as [->|Hne]; [apply lookup_insert_eq|].
    rewrite lookup_insert_ne by done. unfold shard_get. by rewrite Hs.
  - rewrite decide_False; [done|]. by intros ->.
Qed.

Lemma table_new k : table (replicate 16 ∅) k = None.
Proof.
  unfold table, shard_get. rewrite nth_lookup, lookup_replicate_2 by apply shard_of_lt. simpl. by rewrite lookup_empty.
Qed.

Lemma table_filter l k (P : gostring * A → Prop) `{!∀ x, Decision (P x)} :
  length l = 16%nat →
  table ((λ b : gmap gostring A, filter P b) <$> l) k =
    a ← table l k; if decide (P (k, a)) then Some a else None.
Proof.
  intros Hl. unfold table, shard_get. rewrite !nth_lookup, list_lookup_fmap.
  destruct (l !! shard_of k) as [m|] eqn:Hm; simpl; [|by rewrite !lookup_empty].
  rewrite map_lookup_filter. destruct (m !! k) as [a|]; simpl; [|done]. by case_guard; try case_decide.
Qed.

End Shards.

(** ** The precise window *)

Inductive sw_op :=
  | SAllow (now : Z) (key : gostring)
  | SCleanup (now maxAge : Z)
  | SGetCount (now : Z) (key : gostring).

Definition sw_time (o : sw_op) : Z :=
  match o with SAllow now _ | SCleanup now _ | SGetCount now _ => now end.

(** The limiter after a request, and what was admitted so far, oldest first. *)
Definition sw_step (sh : SlidingWindowLimiter * list (Z * gostring)) (o : sw_op)
  : SlidingWindowLimiter * list (Z * gostring) :=
  let '(s, hist) := sh in
  match o with
  | SAllow now key => let '(ok, s) := Allow now s key in (s, if ok then hist ++ [(now, key)] else hist)
  | SCleanup now maxAge => (Cleanup now maxAge s, hist)
  | SGetCount _ _ => (s, hist)
  end.

(** The times at which [key] was admitted, and those of them after [t]. *)
Definition admitted (hist : list (Z * gostring)) (key : gostring) : list Z :=
  fst <$> filter (λ tk, tk.2 = key) hist.
Definition since (t : Z) (l : list Z) : list Z := filter (λ x, t < x) l.

Definition stamps (s : SlidingWindowLimiter) (key : gostring) : list Z :=
  default [] (timestamps <$> table (buckets s) key).

(** Times do not go back, and [Cleanup] waits at least for a window. *)
Fixpoint timely (w T : Z) (ops : list sw_op) : Prop :=
  match ops with
  | [] => True
  | o :: ops =>
      T ≤ sw_time o ∧ (match o with SCleanup _ maxAge => w ≤ maxAge < int64_max | _ => True end) ∧
      timely w (sw_time o) ops
  end.

Record window_inv (w n : Z) (T : Z) (s : SlidingWindowLimiter) (hist : list (Z * gostring)) : Prop := {
  wi_shape : length (buckets s) = 16%nat;
  wi_config : window s = w ∧ limit s = n ∧ precise s = true;
  wi_past key t : t ∈ stamps s key → t ≤ T;
  wi_sorted key : StronglySorted Z.le (stamps s key);
  wi_window key t : T - w ≤ t → since t (stamps s key) = since t (admitted hist key);
  wi_limit key h a rest : admitted hist key = h ++ a :: rest → zlen (since (a - w) h) < n;
  wi_order key : StronglySorted Z.le (admitted hist key);
  wi_hist key t : t ∈ admitted hist key → t ≤ T
}.

Lemma since_since t t' l : t ≤ t' → since t' (since t l) = since t' l.
Proof.
  intros Ht. unfold since. rewrite list_filter_filter. apply list_filter_iff. intros x. lia.
Qed.

Lemma since_app t l l' : since t (l ++ l') = since t l ++ since t l'.
Proof. apply filter_app. Qed.

Lemma StronglySorted_snoc l (a : Z) :
  StronglySorted Z.le l → (∀ x, x ∈ l → x ≤ a) → StronglySorted Z.le (l ++ [a]).
Proof.
  induction 1 as [|b l Hs IH Hb]; intros Ha; simpl; [by repeat constructor|].
  constructor; [apply IH; set_solver|]. apply Forall_app. split; [done|].
  constructor; [|done]. apply Ha. by left.
Qed.

Lemma StronglySorted_filter (P : Z → Prop) `{!∀ x, Decision (P x)} l :
  StronglySorted Z.le l → StronglySorted Z.le (filter P l).
Proof.
  induction 1 as [|b l Hs IH Hb]; [constructor|]. rewrite filter_cons. case_decide; [|done].
  constructor; [done|]. rewrite Forall_forall in Hb |- *. intros x [_ Hx]%list_elem_of_filter. by apply Hb.
Qed.

(** In a sorted list the last element bounds the others. *)
Lemma StronglySorted_last l t x : StronglySorted Z.le l → last l = Some t → x ∈ l → x ≤ t.
Proof.
  induction 1 as [|b l Hs IH Hb]; [done|]. destruct l as [|c l].
  - simpl. intros [= <-] ->%list_elem_of_singleton. lia.
  - intros Hl [->|Hx]%elem_of_cons; [|by apply IH].
    rewrite Forall_forall in Hb. apply Hb. apply last_Some_elem_of. exact Hl.
Qed.

Lemma stamps_set s key c k' : length (buckets s) = 16%nat →
  stamps (set_counter s key c) k' = if decide (key = k') then timestamps c else stamps s k'.
Proof.
  intros Hl. unfold stamps, set_counter. cbn [buckets].
  change (getBucket s key) with (shard_get (buckets s) key). rewrite table_insert by done. by case_decide.
Qed.

Lemma stamps_Cleanup s now maxAge key : length (buckets s) = 16%nat →
  stamps (Cleanup now maxAge s) key = stamps s key ∨
  stamps (Cleanup now maxAge s) key = [] ∧ ∃ t, last (stamps s key) = Some t ∧ maxAge < time_sub now t.
Proof.
  intros Hl. unfold stamps, Cleanup. cbn [buckets]. rewrite table_filter by done.
  destruct (table (buckets s) key) as [c|]; [|by left]. cbn.
  case_decide as Hi; [by left|]. right. split; [done|]. apply not_false_iff_true in Hi. unfold idle in Hi.
  destruct (last (timestamps c)) as [t|]; [|done]. exists t. split; [done|]. lia.
Qed.

Lemma stamps_since s key now : 
  filter (λ t, time_after t (now - window s) = true)
    (timestamps (default (mkCounter [] 0) (table (buckets s) key))) = since (now - window s) (stamps s key).
Proof.
  unfold stamps, since. destruct (table (buckets s) key); simpl; [|done].
  apply list_filter_iff. intros x. unfold time_after. lia.
Qed.

Lemma allowPrecise_spec now s key :
  precise s = true →
  let valid := since (now - window s) (stamps s key) in
  ∃ c, Allow now s key = (negb (limit s <=? zlen valid), set_counter s key c) ∧
    timestamps c = if limit s <=? zlen valid then valid else valid ++ [now].
Proof.
  intros Hp valid. unfold Allow, allowPrecise. rewrite Hp.
  change (getBucket s key !! key) with (table (buckets s) key). cbv zeta. rewrite stamps_since.
  fold valid. destruct (limit s <=? zlen valid); by eexists.
Qed.

Lemma admitted_snoc hist now key k' :
  admitted (hist ++ [(now, key)]) k' = admitted hist k' ++ if decide (key = k') then [now] else [].
Proof.
  unfold admitted. rewrite filter_app, fmap_app. f_equal. cbn. by case_decide.
Qed.

Lemma window_inv_later w n T T' s hist : T ≤ T' → window_inv w n T s hist → window_inv w n T' s hist.
Proof.
  intros HT []. split; try done.
  - intros key t Ht%wi_past0. lia.
  - intros key t Ht. apply wi_window0. lia.
  - intros key t Ht%wi_hist0. lia.
Qed.

Lemma window_inv_allow w n T now key s hist :
  0 < w → T ≤ now → window_inv w n T s hist →
  let '(s', hist') := sw_step (s, hist) (SAllow now key) in
  window_inv w n now s' hist' ∧
  hist' = (if zlen (since (now - w) (admitted hist key)) <? n then hist ++ [(now, key)] else hist).
Proof.
  intros Hw HT Hinv. pose proof (window_inv_later _ _ _ _ _ _ HT Hinv) as [Hl (Hwn & Hn & Hp) Hpast Hsort Hwin Hlim Hord Hh].
  cbn [sw_step]. destruct (allowPrecise_spec now s key Hp) as (c & -> & Hc). rewrite Hwn, Hn in *.
  set (valid := since (now - w) (stamps s key)) in *.
  assert (valid = since (now - w) (admitted hist key)) as Hv by (apply Hwin; lia). rewrite <- Hv.
  assert (∀ x, x ∈ valid → x ≤ now) as Hvn.
  { intros x [_ Hx]%list_elem_of_filter. by apply Hpast in Hx. }
  assert (∀ hist', (∀ k t, now - w ≤ t → since t (if decide (key = k) then timestamps c else stamps s k) =
      since t (admitted hist' k)) →
    (∀ k h a rest, admitted hist' k = h ++ a :: rest → zlen (since (a - w) h) < n) →
    (∀ k, StronglySorted Z.le (admitted hist' k)) → (∀ k t, t ∈ admitted hist' k → t ≤ now) →
    StronglySorted Z.le (timestamps c) → (∀ x, x ∈ timestamps c → x ≤ now) →
    window_inv w n now (set_counter s key c) hist') as Hmk.
  { intros hist' H1 H2 H3 H4 H5 H6. split; try done; try (intros k; rewrite stamps_set by done).
    - unfold set_counter. cbn [buckets]. by rewrite length_insert.
    - intros t. case_decide; [apply H6|apply Hpast].
    - case_decide; [done|apply Hsort].
    - intros t Ht. by apply H1. }
  assert (StronglySorted Z.le valid) as Hvs by apply StronglySorted_filter, Hsort.
  destruct (Z.leb_spec n (zlen valid)) as [Hge|Hlt]; cbn [negb].
  - rewrite (proj2 (Z.ltb_ge _ _)) by done. split; [|done]. apply Hmk; rewrite ?Hc; try done.
    intros k t Ht. case_decide as Hk; [subst k|by apply Hwin].
    unfold valid. rewrite since_since by done. apply Hwin. done.
  - rewrite (proj2 (Z.ltb_lt _ _)) by done. split; [|done]. apply Hmk; rewrite ?Hc.
    + intros k t Ht. rewrite admitted_snoc, since_app. case_decide as Hk.
      * subst k. rewrite since_app. f_equal. unfold valid. rewrite since_since by done. by apply Hwin.
      * rewrite app_nil_r. by apply Hwin.
    + intros k h a rest. rewrite admitted_snoc. case_decide as Hk; [subst k|rewrite app_nil_r; apply Hlim].
      destruct rest as [|b rest _] using rev_ind.
      * intros [<- [= <-]]%app_inj_tail. by rewrite <- Hv.
      * rewrite app_comm_cons, app_assoc. intros [Hh' _]%app_inj_tail. by eapply Hlim.
    + intros k. rewrite admitted_snoc. case_decide; [|rewrite app_nil_r; apply Hord].
      apply StronglySorted_snoc; [apply Hord|apply Hh].
    + intros k t. rewrite admitted_snoc, elem_of_app. case_decide; [|intros [?%Hh|?%elem_of_nil]; done].
      intros [?%Hh| ->%list_elem_of_singleton]; lia.
    + by apply StronglySorted_snoc.
    + intros x [Hx| ->%list_elem_of_singleton]%elem_of_app; [by apply Hvn|lia].
Qed.

Lemma window_inv_cleanup w n T now maxAge s hist :
  T ≤ now → w ≤ maxAge < int64_max → 0 ≤ w →
  window_inv w n T s hist → window_inv w n now (Cleanup now maxAge s) hist.
Proof.
  intros HT Hm Hw Hinv. pose proof (window_inv_later _ _ _ _ _ _ HT Hinv) as [Hl Hcfg Hpast Hsort Hwin Hlim Hord Hh].
  split; try done.
  - unfold Cleanup. cbn [buckets]. by rewrite length_fmap.
  - intros key. destruct (stamps_Cleanup s now maxAge key Hl) as [->|[-> _]]; [apply Hpast|].
    by intros ? ?%elem_of_nil.
  - intros key. destruct (stamps_Cleanup s now maxAge key Hl) as [->|[-> _]]; [apply Hsort|constructor].
  - intros key u Hu. destruct (stamps_Cleanup s now maxAge key Hl) as [->|[-> (t & Ht & Hage)]]; [by apply Hwin|].
    rewrite <- Hwin by done. cbn. symmetry. apply filter_none. intros x Hx.
    pose proof (StronglySorted_last _ _ _ (Hsort key) Ht Hx). apply time_sub_gt in Hage; [lia| |lia].
    unfold in_int64, int64_min. lia.
Qed.

Lemma window_inv_run w n T s hist ops :
  0 < w → timely w T ops → window_inv w n T s hist →
  ∃ T', window_inv w n T' (foldl sw_step (s, hist) ops).1 (foldl sw_step (s, hist) ops).2 ∧
    T' = default T (sw_time <$> last ops).
Proof.
  intros Hw. revert T s hist. induction ops as [|o ops IH]; intros T s hist Ht Hinv; [by exists T|].
  destruct Ht as (HT & Ho & Ht). cbn [foldl].
  assert (window_inv w n (sw_time o) (sw_step (s, hist) o).1 (sw_step (s, hist) o).2) as Hstep.
  { destruct o as [now key|now maxAge|now key]; cbn [sw_time] in *.
    - pose proof (window_inv_allow w n T now key s hist Hw HT Hinv) as Ha.
      destruct (sw_step (s, hist) (SAllow now key)). apply Ha.
    - cbn. apply (window_inv_cleanup w n T); [done|lia|lia|done].
    - by eapply window_inv_later. }
  destruct (sw_step (s, hist) o) as [s1 hist1]. cbn [fst snd] in Hstep.
  destruct (IH _ _ _ Ht Hstep) as (T' & Hinv' & HT'). exists T'. split; [done|].
  rewrite HT'. destruct ops as [|o' ops]; [done|]. cbn [last]. by destruct (last (o' :: ops)) eqn:E; [|apply last_None in E].
Qed.

Lemma window_inv_New w n T : 0 < w → window_inv w n T (NewSlidingWindowLimiter w n true) [].
Proof.
  intros Hw. unfold NewSlidingWindowLimiter. rewrite (proj2 (Z.leb_gt _ _)) by done.
  assert (∀ key, stamps (mkLimiter (replicate 16 ∅) w n true) key = []) as Hs.
  { intros key. unfold stamps. cbn [buckets]. by rewrite table_new. }
  split; try done; intros key; rewrite ?Hs.
  - by intros ? ?%elem_of_nil.
  - constructor.
  - done.
  - intros h a rest. by destruct h.
  - constructor.
  - by intros ? ?%elem_of_nil.
Qed.

(** Admissions that respect the limit one by one respect it in every window. *)
Lemma window_bound w n l t :
  0 ≤ n → (∀ h a rest, l = h ++ a :: rest → zlen (since (a - w) h) < n) →
  zlen (filter (λ x, t - w < x ≤ t) l) ≤ n.
Proof.
  intros Hn. induction l as [|a l IH] using rev_ind; intros Hl; [done|].
  assert (zlen (filter (λ x, t - w < x ≤ t) l) ≤ n) as Hprev.
  { apply IH. intros h b rest ->. apply (Hl h b (rest ++ [a])). by rewrite <- app_assoc. }
  rewrite filter_app. destruct (decide (t - w < a ≤ t)) as [Ha|Ha].
  - rewrite (filter_cons_True _ a) by done. cbn. rewrite length_app. cbn.
    specialize (Hl l a [] eq_refl). unfold since in Hl.
    enough (length (filter (λ x, (t - w < x ≤ t)%Z) l) ≤ length (filter (λ x, (a - w < x)%Z) l))%nat by lia.
    apply sublist_length. clear -Ha. induction l as [|x l IHl]; [constructor|].
    rewrite !filter_cons. case_decide; case_decide; [by constructor|lia|by constructor|done].
  - rewrite (filter_cons_False _ a) by done. cbn. by rewrite app_nil_r.
Qed.

(** ** Properties *)

(** C32: The precise window is exact: after any calls, for any keys and with any
    clean-ups, a request is admitted exactly when fewer than [limit] requests for
    its key were admitted during the last window, so that no window of that length
    ever holds more than [limit] of them. *)
Theorem precise_window_exact w n ops now key :
  0 < w → 0 ≤ n → timely w 0 ops → default 0 (sw_time <$> last ops) ≤ now →
  let '(s, hist) := foldl sw_step (NewSlidingWindowLimiter w n true, []) ops in
  (Allow now s key).1 = (zlen (since (now - w) (admitted hist key)) <? n) ∧
  ∀ t, zlen (filter (λ x, t - w < x ≤ t) (admitted hist key)) ≤ n.
Proof.
  intros Hw Hn Ht Hnow.
  destruct (window_inv_run w n 0 _ [] ops Hw Ht (window_inv_New w n 0 Hw)) as (T & Hinv & ->).
  destruct (foldl sw_step _ ops) as [s hist]. cbn [fst snd] in Hinv. split.
  - pose proof (window_inv_allow w n _ now key s hist Hw Hnow Hinv) as Ha. cbn [sw_step] in Ha.
    destruct (Allow now s key) as [ok s']. destruct Ha as [_ Ha]. cbn [fst].
    destruct ok, (_ <? n); try done; apply (f_equal length) in Ha; rewrite length_app in Ha; simpl in Ha; lia.
  - intros t. apply window_bound; [done|]. apply (wi_limit _ _ _ _ _ Hinv).
Qed.

Definition ex_ops : list sw_op :=
  [SAllow 0 (go!"a"); SAllow 10 (go!"b"); SAllow 20 (go!"a"); SAllow 30 (go!"a"); SCleanup 50 100; SAllow 101 (go!"a")].

Lemma precise_window_exact_witness :
  let '(s, hist) := foldl sw_step (NewSlidingWindowLimiter 100 2 true, []) ex_ops in
  (Allow 110 s (go!"a")).1 = (zlen (since (110 - 100) (admitted hist (go!"a"))) <? 2) ∧
  ∀ t, zlen (filter (λ x, t - 100 < x ≤ t) (admitted hist (go!"a"))) ≤ 2.
Proof.
  apply (precise_window_exact 100 2 ex_ops 110 (go!"a")); [lia|lia| |vm_compute; congruence].
  unfold ex_ops. cbn [timely sw_time]. unfold int64_max. repeat split; lia.
Defined.

Example ex_precise :
  (foldl sw_step (NewSlidingWindowLimiter 100 2 true, []) ex_ops).2 =
  [(0, go!"a"); (10, go!"b"); (20, go!"a"); (101, go!"a")].
Proof. vm_compute. reflexivity. Qed.

(** The approximate window is no limit near the end of a clock interval: with a
    limit of ten requests per second, a hundred requests within a millisecond are
    all admitted. *)
Theorem approximate_window_exceeds :
  ∃ ops : list sw_op, length ops = 100%nat ∧
    Forall (λ o, 999000000 ≤ sw_time o < 1000000000) ops ∧
    let '(_, hist) := foldl sw_step (NewSlidingWindowLimiter second 10 false, []) ops in
    length (admitted hist (go!"client")) = 100%nat.
Proof.
  exists ((λ i, SAllow (999000000 + Z.of_nat i * 1000) (go!"client")) <$> seq 0 100).
  split_and!; [done| |vm_compute; reflexivity].
  apply Forall_fmap, Forall_seq. intros j Hj. cbn. lia.
Qed.

(** ** Connections under interleaving *)

(** The limiter, the connections that were granted for each key (one key stands for
    all when the limit is global), and the refused requests that have yet to take
    their addition back. *)
Record conn_state := mkConns { cs_limiter : ConnLimiter; cs_held : gostring → Z; cs_refused : Z }.

Definition bump (f : gostring → Z) (key : gostring) (d : Z) : gostring → Z :=
  λ k, if decide (k = key) then f k + d else f k.

Definition all_keys : gostring := [].

Section Steps.
(** The key of a request when its slot is given back is computed again, from what the
    handler has made of the request: [later k k'] when it may be [k'] for a request that
    took its slot under [k]. *)
Context (later : gostring → gostring → Prop).

Inductive conn_step : conn_state → conn_state → Prop :=
  | step_granted cl h r cl' :
      perKey cl = false → h all_keys + r < int64_max → Acquire_add cl = (true, cl') →
      conn_step (mkConns cl h r) (mkConns cl' (bump h all_keys 1) r)
  | step_refused cl h r cl' :
      perKey cl = false → h all_keys + r < int64_max → Acquire_add cl = (false, cl') →
      conn_step (mkConns cl h r) (mkConns cl' h (r + 1))
  | step_undo cl h r :
      perKey cl = false → 0 < r → conn_step (mkConns cl h r) (mkConns (Acquire_undo cl) h (r - 1))
  | step_key cl h r key ok cl' :
      perKey cl = true → Acquire_key cl key = (ok, cl') →
      conn_step (mkConns cl h r) (mkConns cl' (if ok then bump h key 1 else h) r)
  | step_release cl h r :
      perKey cl = false → 0 < h all_keys →
      conn_step (mkConns cl h r) (mkConns (Release cl all_keys) (bump h all_keys (-1)) r)
  | step_release_key cl h r key key' :
      perKey cl = true → 0 < h key → later key key' →
      conn_step (mkConns cl h r) (mkConns (Release cl key') (bump h key (-1)) r).

Record conn_inv (m : Z) (pk : bool) (s : conn_state) : Prop := {
  ci_config : max (cs_limiter s) = m ∧ perKey (cs_limiter s) = pk;
  ci_held k : 0 ≤ cs_held s k ≤ m;
  ci_refused : 0 ≤ cs_refused s;
  ci_global : pk = false → current (cs_limiter s) = cs_held s all_keys + cs_refused s ∧
    current (cs_limiter s) ≤ int64_max;
  ci_key k : pk = true → default 0 (counts (cs_limiter s) !! k) = cs_held s k
}.

Lemma bump_same f key d : bump f key d key = f key + d.
Proof. unfold bump. by rewrite decide_True. Qed.

Lemma bump_bounds f key d m :
  (∀ k, 0 ≤ f k ≤ m) → 0 ≤ f key + d ≤ m → ∀ k, 0 ≤ bump f key d k ≤ m.
Proof. intros Hf Hd k. unfold bump. case_decide; [by subst|apply Hf]. Qed.

Lemma counts_bump cl h key n d :
  (∀ k, default 0 (counts cl !! k) = h k) → n = h key + d →
  ∀ k, default 0 (<[key := n]> (counts cl) !! k) = bump h key d k.
Proof.
  intros Hc -> k. unfold bump. case_decide as Hk.
  - subst k. by rewrite lookup_insert_eq.
  - by rewrite lookup_insert_ne.
Qed.

(** The keys stay as they are, which only matters when there are keys. *)
Definition keys_stay (pk : bool) : Prop := pk = true → ∀ k k', later k k' → k' = k.

Lemma conn_inv_step m pk s s' :
  keys_stay pk → 0 < m ≤ int64_max → conn_inv m pk s → conn_step s s' → conn_inv m pk s'.
Proof.
  intros Hstay Hm Hinv Hs. destruct Hinv as [[Hmax Hpk] Hh Hr Hg Hk].
  assert (∀ z, 0 ≤ z ≤ int64_max → swrap64 z = z) as Hw.
  { intros z Hz. apply swrap64_id. unfold in_int64, int64_min in *. lia. }
  destruct Hs as [cl h r cl' Hp Ho Ha|cl h r cl' Hp Ho Ha|cl h r Hp Hpos|cl h r key ok cl' Hp Ha|cl h r Hp Hpos|cl h r key key' Hp Hpos Hl];
    cbn [cs_limiter cs_held cs_refused] in *; rewrite ?Hp in Hpk; subst pk.
  - destruct (Hg eq_refl) as [Hc Hb]. specialize (Hh all_keys) as Hh0.
    unfold Acquire_add in Ha. injection Ha as Hle <-. unfold with_current in *. cbn [current max] in *.
    rewrite Hw in * by lia. apply Z.leb_le in Hle.
    split; cbn [cs_limiter cs_held cs_refused current max perKey counts]; try done.
    + apply bump_bounds; [done|lia].
    + rewrite bump_same. lia.
  - destruct (Hg eq_refl) as [Hc Hb]. specialize (Hh all_keys) as Hh0.
    unfold Acquire_add in Ha. injection Ha as Hle <-. unfold with_current in *. cbn [current max] in *.
    rewrite Hw in * by lia. split; cbn [cs_limiter cs_held cs_refused current max perKey counts]; try done; lia.
  - destruct (Hg eq_refl) as [Hc Hb]. specialize (Hh all_keys) as Hh0. unfold Acquire_undo, with_current.
    split; cbn [cs_limiter cs_held cs_refused current max perKey counts]; try done; [lia|].
    intros _. rewrite Hw by lia. lia.
  - unfold Acquire_key in Ha. rewrite (Hk key eq_refl), Hmax in Ha. specialize (Hh key) as Hhk.
    destruct (Z.leb_spec m (h key)); injection Ha as <- <-; [by split|].
    split; cbn [cs_limiter cs_held cs_refused with_count current max perKey counts]; try done.
    + apply bump_bounds; [done|lia].
    + intros k _. apply counts_bump; [|done]. intros k'. by apply Hk.
  - specialize (Hh all_keys) as Hh0. unfold Release. rewrite Hp. destruct (Hg eq_refl) as [Hc Hb].
    split; cbn [cs_limiter cs_held cs_refused with_current current max perKey counts]; try done.
    + apply bump_bounds; [done|lia].
    + intros _. rewrite bump_same, Hw by lia. lia.
  - rewrite (Hstay eq_refl key key' Hl). specialize (Hh key) as Hhk. unfold Release. rewrite Hp.
    rewrite (Hk key eq_refl). rewrite (proj2 (Z.ltb_lt _ _)) by done.
    split; cbn [cs_limiter cs_held cs_refused with_count current max perKey counts]; try done.
    + apply bump_bounds; [done|lia].
    + intros k _. apply counts_bump; [|lia]. intros k'. by apply Hk.
Qed.

(** What the limiter itself counts, whatever becomes of the keys. *)
Definition counted (m : Z) (pk : bool) (cl : ConnLimiter) : Prop :=
  max cl = m ∧ perKey cl = pk ∧ ∀ k, 0 ≤ default 0 (counts cl !! k) ≤ m.

Lemma counted_conn_step m pk s s' : 0 < m → counted m pk (cs_limiter s) → conn_step s s' → counted m pk (cs_limiter s').
Proof.
  intros Hm (Hmax & Hpk & Hc) Hs.
  assert (∀ cl key n, counted m pk cl → 0 ≤ n ≤ m → counted m pk (with_count cl key n)) as Hcount.
  { intros cl key n (? & ? & Hcl) Hn. split; [done|]. split; [done|]. intros k. cbn.
    destruct (decide (key = k)) as [->|]; [by rewrite lookup_insert_eq|by rewrite lookup_insert_ne]. }
  assert (∀ cl n, counted m pk cl → counted m pk (with_current cl n)) as Hcur by by intros cl n (? & ? & ?).
  destruct Hs as [cl h r cl' Hp Ho Ha|cl h r cl' Hp Ho Ha|cl h r Hp Hpos|cl h r key ok cl' Hp Ha|cl h r Hp Hpos|cl h r key key' Hp Hpos Hl];
    cbn [cs_limiter] in *; assert (counted m pk cl) as Hcl by by split_and!.
  - injection Ha as _ <-. by apply Hcur.
  - injection Ha as _ <-. by apply Hcur.
  - by apply Hcur.
  - unfold Acquire_key in Ha. specialize (Hc key). destruct (Z.leb_spec (max cl) (default 0 (counts cl !! key)));
      injection Ha as _ <-; [done|apply Hcount; [done|lia]].
  - unfold Release. rewrite Hp. by apply Hcur.
  - unfold Release. rewrite Hp. specialize (Hc key').
    destruct (Z.ltb_spec 0 (default 0 (counts cl !! key'))); [apply Hcount; [done|lia]|done].
Qed.

(** C36: However the atomic steps of concurrent requests interleave, the connections
    held, over all or for each key, never exceed the maximum, provided that for a limit
    by key no handler changes what the key of its request is made of, since the slot is
    given back under the key that the request has then; the global counter is what is
    held plus the refusals in flight, so it is exact when none is; and a global refusal
    means that at least [max] connections were held or being refused. Without the
    proviso the counters of the keys still stay within the maximum, but they no longer
    say what is held (moved_key_exceeds). *)
Theorem conn_limit_safe maxConns pk keyType cl s :
  NewConnLimiter maxConns pk keyType = Ok cl → maxConns ≤ int64_max →
  rtc conn_step (mkConns cl (λ _, 0) 0) s →
  (keys_stay pk →
    (∀ k, 0 ≤ cs_held s k ≤ maxConns) ∧
    (pk = true → ∀ k, default 0 (counts (cs_limiter s) !! k) = cs_held s k) ∧
    (pk = false → cs_refused s = 0 → current (cs_limiter s) = cs_held s all_keys) ∧
    (∀ s', pk = false → conn_step s s' → cs_refused s' = cs_refused s + 1 →
       maxConns ≤ cs_held s all_keys + cs_refused s)) ∧
  (∀ k, 0 ≤ default 0 (counts (cs_limiter s) !! k) ≤ maxConns).
Proof.
  intros Hnew Hmax Hsteps.
  assert (0 < maxConns ∧ conn_inv maxConns pk (mkConns cl (λ _, 0) 0) ∧ counted maxConns pk cl) as (Hpos & Hinit & Hcl).
  { unfold NewConnLimiter in Hnew. destruct (Z.leb_spec maxConns 0); [done|]. split; [lia|].
    destruct pk; [destruct (parseKeyFunc keyType); [|done]|]; injection Hnew as <-.
    - split; [split; cbn; try done; intros; lia|]. split; [done|]. split; [done|]. intros k. cbn [counts]. rewrite lookup_empty. cbn. lia.
    - split; [split; cbn; try done; intros; unfold int64_max; lia|]. split; [done|]. split; [done|]. intros k. cbn [counts]. rewrite lookup_empty. cbn. lia. }
  split.
  2: { assert (counted maxConns pk (cs_limiter s)) as (_ & _ & Hc); [|done].
       clear Hinit. change cl with (cs_limiter (mkConns cl (λ _, 0) 0)) in Hcl. revert Hcl.
       induction Hsteps as [|x y z Hxy _ IH]; [done|]. intros Hx. apply IH. by eapply counted_conn_step. }
  intros Hstay. assert (conn_inv maxConns pk s) as Hinv.
  { clear Hcl. revert Hinit. induction Hsteps as [|x y z Hxy _ IH]; [done|]. intros Hx.
    apply IH. by apply (conn_inv_step _ _ x). }
  destruct Hinv as [[Hm Hpk] Hh Hr Hg Hk]. split; [done|]. split; [by intros Hp k; apply Hk|]. split.
  - intros Hp H0. destruct (Hg Hp). lia.
  - intros s' Hp Hstep Hs'. destruct (Hg Hp) as [Hc Hb].
    assert (∀ z, 0 ≤ z ≤ int64_max → swrap64 z = z) as Hw.
    { intros z Hz. apply swrap64_id. unfold in_int64, int64_min in *. lia. }
    destruct Hstep as [| cl1 h r cl' _ Ho Ha| | | |]; cbn [cs_limiter cs_held cs_refused] in *; try lia.
    unfold Acquire_add, with_current in Ha. cbn [current max] in Ha. injection Ha as Hle _.
    specialize (Hh all_keys). rewrite Hw in Hle by lia. apply Z.leb_gt in Hle. lia.
Qed.
End Steps.

(** One connection per address: a request of the address [a] is under way; one that took
    the slot of [b] gives back that of [a], and [a] gets a second connection. *)
Theorem moved_key_exceeds (a b : gostring) : a ≠ b →
  let later k k' := k = b ∧ k' = a in
  ∃ s, rtc (conn_step later) (mkConns (mkCL ∅ 1 0 true (Some ByIP)) (λ _, 0) 0) s ∧
    NewConnLimiter 1 true (go!"ip") = Ok (mkCL ∅ 1 0 true (Some ByIP)) ∧ cs_held s a = 2.
Proof.
  intros Hab later. set (c0 := mkCL ∅ 1 0 true (Some ByIP)).
  pose (c1 := with_count c0 a 1). pose (c2 := with_count c1 b 1).
  pose (c3 := with_count c2 a 0). pose (c4 := with_count c3 a 1).
  assert (Acquire_key c0 a = (true, c1)) as H1 by done.
  assert (Acquire_key c1 b = (true, c2)) as H2.
  { unfold Acquire_key, c1, c0. cbn [counts with_count]. by rewrite lookup_insert_ne. }
  assert (Release c2 a = c3) as H3.
  { unfold Release, c2, c1, c0. cbn [counts with_count perKey].
    by rewrite lookup_insert_ne, lookup_insert_eq by done. }
  assert (Acquire_key c3 a = (true, c4)) as H4.
  { unfold Acquire_key, c3. cbn [counts with_count]. by rewrite lookup_insert_eq. }
  eexists. split_and!; [|reflexivity|].
  - eapply rtc_l; [apply (step_key later c0 _ _ a true c1); done|]. cbv iota.
    eapply rtc_l; [apply (step_key later c1 _ _ b true c2); done|]. cbv iota.
    eapply rtc_l; [apply (step_release_key later c2 _ _ b a); [done| |done]|].
    { rewrite bump_same. unfold bump. by rewrite decide_False. }
    rewrite H3. eapply rtc_l; [apply (step_key later c3 _ _ a true c4); done|]. apply rtc_refl.
  - cbn [cs_held]. unfold bump. by repeat case_decide; simplify_eq.
Qed.

Lemma conn_limit_safe_witness :
  let s := mkConns (mkCL ∅ 1 2 false None) (bump (λ _, 0) all_keys 1) 1 in
  (∀ k, 0 ≤ cs_held s k ≤ 1) ∧
  (∀ s', false = false → conn_step eq s s' → cs_refused s' = cs_refused s + 1 →
     1 ≤ cs_held s all_keys + cs_refused s) ∧
  (∀ k, 0 ≤ cs_held (mkConns (mkCL {[ go!"a" := 1 ]} 1 0 true (Some ByIP)) (bump (λ _, 0) (go!"a") 1) 0) k ≤ 1).
Proof.
  cbn zeta. split; [|split].
  - refine (proj1 (proj1 (conn_limit_safe eq 1 false [] (mkCL ∅ 1 0 false None) _ eq_refl _ _) _)); [unfold int64_max; lia| |done].
    eapply rtc_l; [apply step_granted; [done|vm_compute; reflexivity|reflexivity]|].
    eapply rtc_l; [apply step_refused; [done|vm_compute; reflexivity|reflexivity]|].
    apply rtc_refl.
  - refine (proj2 (proj2 (proj2 (proj1 (conn_limit_safe eq 1 false [] (mkCL ∅ 1 0 false None) _ eq_refl _ _) _)))); [unfold int64_max; lia| |done].
    eapply rtc_l; [apply step_granted; [done|vm_compute; reflexivity|reflexivity]|].
    eapply rtc_l; [apply step_refused; [done|vm_compute; reflexivity|reflexivity]|].
    apply rtc_refl.
  - refine (proj1 (proj1 (conn_limit_safe eq 1 true (go!"ip") (mkCL ∅ 1 0 true (Some ByIP)) _ eq_refl _ _) _)); [unfold int64_max; lia| |by intros _ k k' ->].
    eapply rtc_l; [apply (step_key eq _ _ _ (go!"a") true); [done|reflexivity]|]. apply rtc_refl.
Defined.

Lemma moved_key_exceeds_witness :
  ∃ s, rtc (conn_step (λ k k', k = go!"b" ∧ k' = go!"a")) (mkConns (mkCL ∅ 1 0 true (Some ByIP)) (λ _, 0) 0) s ∧
    NewConnLimiter 1 true (go!"ip") = Ok (mkCL ∅ 1 0 true (Some ByIP)) ∧ cs_held s (go!"a") = 2.
Proof. by apply (moved_key_exceeds (go!"a") (go!"b")). Defined.
