(* ===== verification/ReqVars.v ===== *)
(** * ReqVars: request variables and their expansion in templates

    [src/internal/variable/variable.go], the getters of [builtin.go], and
    [FormatRemoteAddr] of [src/internal/netutil/ip.go].  A variable comes from the
    request's own store, the global variables, the fields that other handlers set,
    or a built-in getter behind a cache; templates name variables as [$name] or
    as a name in braces.  Shown: what a template expands to, that contexts taken from
    the pool carry nothing over, and where the two ways to read a variable differ. *)

From S2P Require Import Prelude GoStrings Float64 NetIP.
From Corelib Require Import SpecFloat.

Definition dollar : ascii := "$".
Definition lbrace : ascii := "{".
Definition rbrace : ascii := "}".

(** ** [strconv.FormatFloat(f, 'f', 3, 64)] on finite numbers: the exact value,
    rounded to three decimals, ties to even. *)

Definition pad3 (n : Z) : gostring :=
  [digit_char (n / 100 mod 10); digit_char (n / 10 mod 10); digit_char (n mod 10)].

Definition thousandths (m : positive) (e : Z) : Z :=
  let n := Zpos m * 1000 in
  if 0 <=? e then n * 2 ^ e
  else
    let d := 2 ^ (- e) in
    let q := n / d in
    let r := n mod d in
    if (d <? 2 * r) || ((d =? 2 * r) && Z.odd q) then q + 1 else q.

Definition FormatFloat3 (f : float64) : gostring :=
  match f with
  | S754_finite s m e =>
      let n := thousandths m e in
      (if s then go!"-" else []) ++ FormatInt (n / 1000) ++ go!"." ++ pad3 (n mod 1000)
  | S754_zero s => if s then go!"-0.000" else go!"0.000"
  | S754_infinity s => if s then go!"-Inf" else go!"+Inf"
  | S754_nan => go!"NaN"
  end.

Definition f64_1e9 : float64 := f64_of_int 1000000000.
Definition formatRequestTime (ns : Z) : gostring := FormatFloat3 (f64_div (f64_of_int ns) f64_1e9).

(** ** The request, as the getters read it *)

Record reqctx := mkReq {
  rq_host : gostring; rq_uri : gostring; rq_path : gostring; rq_args : gostring; rq_method : gostring;
  rq_tls : bool;
  remote_ip : IP; remote_addr : option gostring; local_addr : option gostring;
  uv_server_name : option gostring; uv_status : option Z; uv_body : option Z; uv_time : option Z;
  uv_request_id : option gostring;
  clock_local : gostring; clock_iso : gostring; fresh_uuid : gostring }.

(** [SetResponseInfoInContext] *)
Definition SetResponseInfoInContext (r : reqctx) (status bodySize durationNs : Z) : reqctx :=
  mkReq (rq_host r) (rq_uri r) (rq_path r) (rq_args r) (rq_method r) (rq_tls r) (remote_ip r) (remote_addr r)
    (local_addr r) (uv_server_name r) (Some status) (Some bodySize) (Some durationNs) (uv_request_id r)
    (clock_local r) (clock_iso r) (fresh_uuid r).

Definition set_request_id (r : reqctx) (id : gostring) : reqctx :=
  mkReq (rq_host r) (rq_uri r) (rq_path r) (rq_args r) (rq_method r) (rq_tls r) (remote_ip r) (remote_addr r)
    (local_addr r) (uv_server_name r) (uv_status r) (uv_body r) (uv_time r) (Some id)
    (clock_local r) (clock_iso r) (fresh_uuid r).

(** [s[i+1:]] for the last colon, ["-"] when there is none. *)
Definition after_colon (s : gostring) : gostring :=
  match LastIndexByte s ":" with Some i => drop (S i) s | None => go!"-" end.

(** The table of remote addresses: at most 1024 entries, first come. *)
Definition addr_cache_max : nat := 1024.

Section Getters.
Context (ip_string : IP → gostring).

Definition FormatRemoteAddr (cache : gmap gostring gostring) (r : reqctx)
  : gostring * gmap gostring gostring :=
  let whole := match remote_addr r with Some s => s | None => go!"-" end in
  match remote_ip r with
  | [] => (whole, cache)
  | ip =>
      match To4 ip with
      | Some ipv4 => (formatIPv4 ipv4, cache)
      | None =>
          match cache !! ip_string ip with
          | Some s => (s, cache)
          | None =>
              match remote_addr r with
              | None => (go!"-", cache)
              | Some s =>
                  (s, if (size cache <? addr_cache_max)%nat then <[ip_string ip := s]> cache else cache)
              end
          end
      end
  end.

(** What a getter changes: the table of addresses, and the request's identifier. *)
Record world := mkWorld { addr_cache : gmap gostring gostring; req : reqctx }.

Definition builtin_names : list gostring :=
  [go!"host"; go!"remote_addr"; go!"remote_port"; go!"request_uri"; go!"uri"; go!"args";
   go!"request_method"; go!"scheme"; go!"server_name"; go!"server_port"; go!"status"; go!"body_bytes_sent";
   go!"request_time"; go!"time_local"; go!"time_iso8601"; go!"request_id"].

Definition ssl_names : list gostring :=
  [go!"ssl_client_verify"; go!"ssl_client_serial"; go!"ssl_client_subject"; go!"ssl_client_issuer";
   go!"ssl_client_fingerprint"; go!"ssl_client_notbefore"; go!"ssl_client_notafter"; go!"ssl_client_s_dn";
   go!"ssl_client_email"].

Definition GetBuiltin (name : gostring) : bool := bool_decide (name ∈ builtin_names ++ ssl_names).

(** The getters of the client certificate read the TLS library's state. *)
Context (ssl_getter : reqctx → gostring → gostring).

Definition with_addr (w : world) (f : gostring → gostring) : gostring * world :=
  let '(s, c) := FormatRemoteAddr (addr_cache w) (req w) in (f s, mkWorld c (req w)).

Definition getter (name : gostring) (w : world) : gostring * world :=
  let r := req w in
  if decide (name = go!"host") then (rq_host r, w)
  else if decide (name = go!"remote_addr") then with_addr w id
  else if decide (name = go!"remote_port") then
    match remote_addr r with None => (go!"-", w) | Some _ => with_addr w after_colon end
  else if decide (name = go!"request_uri") then (rq_uri r, w)
  else if decide (name = go!"uri") then (rq_path r, w)
  else if decide (name = go!"args") then (rq_args r, w)
  else if decide (name = go!"request_method") then (rq_method r, w)
  else if decide (name = go!"scheme") then ((if rq_tls r then go!"https" else go!"http"), w)
  else if decide (name = go!"server_name") then (default (go!"-") (uv_server_name r), w)
  else if decide (name = go!"server_port") then
    (match local_addr r with Some s => after_colon s | None => go!"-" end, w)
  else if decide (name = go!"status") then
    (match uv_status r with Some i => FormatInt i | None => go!"-" end, w)
  else if decide (name = go!"body_bytes_sent") then
    (match uv_body r with Some i => FormatInt i | None => go!"0" end, w)
  else if decide (name = go!"request_time") then
    (match uv_time r with Some i => formatRequestTime i | None => go!"0.000" end, w)
  else if decide (name = go!"time_local") then (clock_local r, w)
  else if decide (name = go!"time_iso8601") then (clock_iso r, w)
  else if decide (name = go!"request_id") then
    match uv_request_id r with
    | Some id => (id, w)
    | None => (fresh_uuid r, mkWorld (addr_cache w) (set_request_id r (fresh_uuid r)))
    end
  else (ssl_getter r name, w).

(** ** Contexts *)

Record Context_ := mkContext {
  ctx : world; store : gmap gostring gostring; cache : gmap gostring gostring;
  bytesCache : gmap gostring gostring; serverName : gostring; upstreamAddr : gostring;
  status : Z; bodySize : Z; duration : Z; upstreamStatus : Z;
  upstreamResponseTime : float64; upstreamConnectTime : float64; upstreamHeaderTime : float64 }.

Definition f64_0 : float64 := S754_zero false.

(** [NewContext]: [pooled] is what the pool had, if anything; every field is reset. *)
Definition NewContext (pooled : option Context_) (w : world) : Context_ :=
  match pooled with
  | None => mkContext w ∅ ∅ ∅ [] [] 0 0 0 0 f64_0 f64_0 f64_0
  | Some vc =>
      let clear (m : gmap gostring gostring) := foldl (λ m k, delete k m) m (elements (dom m)) in
      mkContext w (clear (store vc)) (clear (cache vc)) (clear (bytesCache vc)) [] [] 0 0 0 0 f64_0 f64_0 f64_0
  end.

Definition SetResponseInfo (vc : Context_) (st body dur : Z) : Context_ :=
  mkContext (ctx vc) (store vc) (cache vc) (bytesCache vc) (serverName vc) (upstreamAddr vc) st body dur
    (upstreamStatus vc) (upstreamResponseTime vc) (upstreamConnectTime vc) (upstreamHeaderTime vc).

Definition SetServerName (vc : Context_) (name : gostring) : Context_ :=
  mkContext (ctx vc) (store vc) (cache vc) (bytesCache vc) name (upstreamAddr vc) (status vc) (bodySize vc)
    (duration vc) (upstreamStatus vc) (upstreamResponseTime vc) (upstreamConnectTime vc) (upstreamHeaderTime vc).

Definition SetUpstreamVars (vc : Context_) (addr : gostring) (st : Z) (resp conn head : float64) : Context_ :=
  mkContext (ctx vc) (store vc) (cache vc) (bytesCache vc) (serverName vc) addr (status vc) (bodySize vc)
    (duration vc) st resp conn head.

Definition with_maps (vc : Context_) (st c b : gmap gostring gostring) (w : world) : Context_ :=
  mkContext w st c b (serverName vc) (upstreamAddr vc) (status vc) (bodySize vc)
    (duration vc) (upstreamStatus vc) (upstreamResponseTime vc) (upstreamConnectTime vc) (upstreamHeaderTime vc).

Definition Set_ (vc : Context_) (name value : gostring) : Context_ :=
  with_maps vc (<[name := value]> (store vc)) (cache vc) (bytesCache vc) (ctx vc).

Definition evalBuiltin (vc : Context_) (name : gostring) : option (gostring * world) :=
  if GetBuiltin name then Some (getter name (ctx vc)) else None.

(** Names whose getter has a version that returns bytes. *)
Definition bytes_names : list gostring :=
  [go!"host"; go!"request_uri"; go!"uri"; go!"args"; go!"request_method"].

Definition positive_float (f : float64) : bool := f64_ltb f64_0 f.

(** The switch of [Get]: the value that a field (or a user value of the request)
    gives, [None] to go on. *)
Definition field_value (vc : Context_) (name : gostring) : option gostring :=
  let r := req (ctx vc) in
  let float f := Some (if positive_float f then FormatFloat3 f else go!"-") in
  if decide (name = go!"status") then
    if 0 <? status vc then Some (FormatInt (status vc)) else FormatInt <$> uv_status r
  else if decide (name = go!"body_bytes_sent") then
    if 0 <? bodySize vc then Some (FormatInt (bodySize vc))
    else Some (match uv_body r with Some i => FormatInt i | None => go!"0" end)
  else if decide (name = go!"request_time") then
    if 0 <? duration vc then Some (formatRequestTime (duration vc))
    else Some (match uv_time r with Some i => formatRequestTime i | None => go!"0.000" end)
  else if decide (name = go!"server_name") then
    if decide (serverName vc = []) then None else Some (serverName vc)
  else if decide (name = go!"upstream_addr") then
    Some (if decide (upstreamAddr vc = []) then go!"-" else upstreamAddr vc)
  else if decide (name = go!"upstream_status") then
    Some (if 0 <? upstreamStatus vc then FormatInt (upstreamStatus vc) else go!"-")
  else if decide (name = go!"upstream_response_time") then float (upstreamResponseTime vc)
  else if decide (name = go!"upstream_connect_time") then float (upstreamConnectTime vc)
  else if decide (name = go!"upstream_header_time") then float (upstreamHeaderTime vc)
  else None.

(** [globals] are the global variables. *)
Definition Get (globals : gmap gostring gostring) (vc : Context_) (name : gostring)
  : option gostring * Context_ :=
  match store vc !! name with
  | Some v => (Some v, vc)
  | None =>
      match globals !! name with
      | Some v => (Some v, vc)
      | None =>
          match field_value vc name with
          | Some v => (Some v, vc)
          | None =>
              match cache vc !! name with
              | Some v => (Some v, vc)
              | None =>
                  match evalBuiltin vc name with
                  | Some (v, w) => (Some v, with_maps vc (store vc) (<[name := v]> (cache vc)) (bytesCache vc) w)
                  | None => (None, vc)
                  end
              end
          end
      end
  end.

(** Does the switch of [EphemeralGet] keep the value in the cache of bytes? Not for
    the server's name, and the upstream's only when it is set. *)
Definition field_cached (vc : Context_) (name : gostring) : bool :=
  if decide (name ∈ [go!"status"; go!"body_bytes_sent"; go!"request_time"]) then true
  else if decide (name = go!"upstream_status") then 0 <? upstreamStatus vc
  else if decide (name = go!"upstream_response_time") then positive_float (upstreamResponseTime vc)
  else if decide (name = go!"upstream_connect_time") then positive_float (upstreamConnectTime vc)
  else if decide (name = go!"upstream_header_time") then positive_float (upstreamHeaderTime vc)
  else false.

(** [nil] is [None]. The getters that return bytes read the same fields. *)
Definition EphemeralGet (globals : gmap gostring gostring) (vc : Context_) (name : gostring)
  : option gostring * Context_ :=
  let cached v w := (Some v, with_maps vc (store vc) (cache vc) (<[name := v]> (bytesCache vc)) w) in
  match store vc !! name with
  | Some v => (Some v, vc)
  | None =>
      match globals !! name with
      | Some v => (Some v, vc)
      | None =>
          match bytesCache vc !! name with
          | Some v => (Some v, vc)
          | None =>
              match field_value vc name with
              | Some v => if field_cached vc name then cached v (ctx vc) else (Some v, vc)
              | None =>
                  match evalBuiltin vc name with
                  | Some (v, w) => cached v w
                  | None => (None, vc)
                  end
              end
          end
      end
  end.

Definition PersistentGet (globals : gmap gostring gostring) (vc : Context_) (name : gostring)
  : gostring * Context_ :=
  let '(v, vc) := Get globals vc name in (default [] v, vc).

(** ** Templates *)

Definition is_var_char (c : ascii) : bool :=
  let z := byteZ c in
  ((97 <=? z) && (z <=? 122)) || ((65 <=? z) && (z <=? 90)) || is_digit c || (z =? 95).

(** The longest run of name characters, and the rest. *)
Fixpoint var_name (s : gostring) : gostring * gostring :=
  match s with
  | c :: s' => if is_var_char c then let '(n, r) := var_name s' in (c :: n, r) else ([], s)
  | [] => ([], [])
  end.

(** [strings.IndexByte(s, '}')], as what precedes and what follows it. *)
Fixpoint upto_brace (s : gostring) : option (gostring * gostring) :=
  match s with
  | [] => None
  | c :: s' =>
      if Ascii.eqb c rbrace then Some ([], s')
      else '(n, r) ← upto_brace s'; Some (c :: n, r)
  end.

(** The loop of [expandCore] over what is left of the template, with a look-up that
    threads a state [S]; every round takes at least a byte. *)
Section Expand.
Context {S : Type} (lookup : S → gostring → option gostring * S) (keepOriginal : bool).

Fixpoint expand_loop (fuel : nat) (s : S) (t : gostring) : gostring * S :=
  match fuel with
  | O => ([], s)
  | Datatypes.S fuel =>
      match t with
      | [] => ([], s)
      | c :: t' =>
          let put bs s r := let '(out, s) := expand_loop fuel s r in (bs ++ out, s) in
          if negb (Ascii.eqb c dollar) then put [c] s t'
          else
            match t' with
            | [] => put [dollar] s []
            | d :: t'' =>
                if Ascii.eqb d lbrace then
                  match upto_brace t'' with
                  | None => put [dollar] s t'
                  | Some ([], r) => put [dollar; lbrace; rbrace] s r
                  | Some (name, r) =>
                      match lookup s name with
                      | (Some v, s) => put v s r
                      | (None, s) =>
                          put (if keepOriginal then [dollar; lbrace] ++ name ++ [rbrace] else []) s r
                      end
                  end
                else
                  match var_name t' with
                  | ([], _) => put [dollar] s t'
                  | (name, r) =>
                      match lookup s name with
                      | (Some v, s) => put v s r
                      | (None, s) => put (if keepOriginal then dollar :: name else []) s r
                      end
                  end
            end
      end
  end.

Definition expandCore (s : S) (template : gostring) : gostring * S :=
  if existsb (λ c, Ascii.eqb c dollar) template
  then expand_loop (length template) s template
  else (template, s).

End Expand.

Definition Expand (globals : gmap gostring gostring) (vc : Context_) (template : gostring)
  : gostring * Context_ := expandCore (Get globals) true vc template.
End Getters.

(** ** What expansion computes *)

Section ExpandFacts.
Context {S : Type} (lookup : S → gostring → option gostring * S) (keep : bool).

Abbreviation loop := (expand_loop lookup keep).

Lemma var_name_split t : (var_name t).1 ++ (var_name t).2 = t.
Proof.
  induction t as [|c t IH]; [done|]. simpl. destruct (is_var_char c); [|done].
  destruct (var_name t). simpl in *. by f_equal.
Qed.

Lemma upto_brace_split t n r : upto_brace t = Some (n, r) → t = n ++ rbrace :: r.
Proof.
  revert n r. induction t as [|c t IH]; intros n r; simpl; [done|].
  destruct (Ascii.eqb_spec c rbrace) as [->|_]; [by intros [= <- <-]|].
  destruct (upto_brace t) as [[n' r']|]; simpl; [|done]. intros [= <- <-]. simpl. f_equal. by apply IH.
Qed.

(** A template with nothing to look up in it is itself. *)
Lemma loop_undefined fuel s t :
  (∀ s n, lookup s n = (None, s)) → keep = true → (length t ≤ fuel)%nat → loop fuel s t = (t, s).
Proof.
  intros Hl Hk. revert t. induction fuel as [|fuel IH]; intros t Hf; [by destruct t; simpl in Hf; [|lia]|].
  destruct t as [|c t]; [done|]. simpl in Hf. cbn [expand_loop].
  destruct (Ascii.eqb_spec c dollar) as [->|_]; cbn [negb]; [|rewrite IH by lia; done].
  destruct t as [|d t]; [rewrite IH by (simpl; lia); done|]. simpl in Hf.
  destruct (Ascii.eqb_spec d lbrace) as [->|_].
  - destruct (upto_brace t) as [[n r]|] eqn:Hb; [|rewrite IH by (simpl; lia); done].
    apply upto_brace_split in Hb as ->. rewrite length_app in Hf. simpl in Hf.
    destruct n as [|x n]; [rewrite IH by (simpl in *; lia); done|].
    rewrite Hl. cbn beta iota. rewrite IH by (simpl in *; lia). by rewrite Hk, <- !app_assoc.
  - pose proof (var_name_split (d :: t)) as Hv. destruct (var_name (d :: t)) as [n r]. cbn [fst snd] in Hv.
    destruct n as [|x n]; [rewrite IH by (simpl; lia); done|]. 
    rewrite Hl. cbn beta iota. rewrite IH; [by rewrite Hk, <- Hv|].
    apply (f_equal length) in Hv. rewrite length_app in Hv. simpl in Hv. lia.
Qed.

(** A template as its pieces. *)
Inductive segment :=
  | Lit (s : gostring)
  | Braced (name : gostring)
  | Bare (name : gostring).

Definition render_segment (x : segment) : gostring :=
  match x with
  | Lit s => s
  | Braced n => [dollar; lbrace] ++ n ++ [rbrace]
  | Bare n => dollar :: n
  end.

Definition render (xs : list segment) : gostring := xs ≫= render_segment.

(** A bare name ends where the next piece begins. *)
Definition ends_name (t : gostring) : bool :=
  match t with c :: _ => negb (is_var_char c) | [] => true end.

Fixpoint well_formed (xs : list segment) : bool :=
  match xs with
  | [] => true
  | Lit s :: xs => forallb (λ c, negb (Ascii.eqb c dollar)) s && well_formed xs
  | Braced n :: xs =>
      negb (bool_decide (n = [])) && forallb (λ c, negb (Ascii.eqb c rbrace)) n && well_formed xs
  | Bare n :: xs =>
      negb (bool_decide (n = [])) && forallb is_var_char n && ends_name (render xs) && well_formed xs
  end.

(** Each variable is looked up once, in order; values are not expanded again. *)
Fixpoint evaluate (s : S) (xs : list segment) : gostring * S :=
  match xs with
  | [] => ([], s)
  | Lit l :: xs => let '(out, s) := evaluate s xs in (l ++ out, s)
  | (Braced n | Bare n) as x :: xs =>
      let '(v, s) := lookup s n in
      let '(out, s) := evaluate s xs in
      (default (if keep then render_segment x else []) v ++ out, s)
  end.

Lemma var_name_app n r :
  forallb is_var_char n = true → ends_name r = true → var_name (n ++ r) = (n, r).
Proof.
  intros Hn Hr. induction n as [|c n IH]; simpl in *.
  - destruct r as [|c r]; [done|]. simpl in *. apply negb_true_iff in Hr. by rewrite Hr.
  - apply andb_true_iff in Hn as [-> Hn]. by rewrite IH.
Qed.

Lemma upto_brace_app n r :
  forallb (λ c, negb (Ascii.eqb c rbrace)) n = true → upto_brace (n ++ rbrace :: r) = Some (n, r).
Proof.
  intros Hn. induction n as [|c n IH]; simpl in *; [done|].
  apply andb_true_iff in Hn as [Hc Hn]. apply negb_true_iff in Hc. by rewrite Hc, IH.
Qed.

Lemma loop_lit fuel s l r :
  forallb (λ c, negb (Ascii.eqb c dollar)) l = true →
  loop (length l + fuel) s (l ++ r) = let '(out, s) := loop fuel s r in (l ++ out, s).
Proof.
  revert s. induction l as [|c l IH]; intros s Hl; simpl in *; [by destruct (loop fuel s r)|].
  apply andb_true_iff in Hl as [-> Hl]. rewrite IH by done. by destruct (loop fuel s r).
Qed.

Lemma evaluate_loop xs fuel s :
  well_formed xs = true → (length (render xs) ≤ fuel)%nat → loop fuel s (render xs) = evaluate s xs.
Proof.
  revert fuel s. induction xs as [|x xs IH]; intros fuel s Hw Hf; [by destruct fuel|].
  change (render (x :: xs)) with (render_segment x ++ render xs) in *. rewrite length_app in Hf.
  destruct x as [l|n|n]; cbn [well_formed render_segment evaluate] in *.
  - apply andb_true_iff in Hw as [Hl Hw]. replace fuel with (length l + (fuel - length l))%nat by lia.
    rewrite loop_lit, IH by (done || lia). done.
  - rewrite !andb_true_iff, negb_true_iff, bool_decide_eq_false in Hw. destruct Hw as [[Hn Hb] Hw].
    rewrite !length_app in Hf. simpl in Hf. destruct fuel as [|fuel]; [lia|].
    rewrite <- !app_assoc. cbn [app expand_loop]. rewrite Ascii.eqb_refl. cbn [negb].
    rewrite Ascii.eqb_refl, upto_brace_app by done. destruct n as [|c n]; [done|].
    destruct (lookup s (c :: n)) as [[v|] s']; cbn [default]; rewrite IH by (done || lia); done.
  - rewrite !andb_true_iff, negb_true_iff, bool_decide_eq_false in Hw. destruct Hw as [[[Hn Hv] He] Hw].
    simpl in Hf. destruct fuel as [|fuel]; [lia|]. destruct n as [|c n]; [done|].
    cbn [app expand_loop]. rewrite Ascii.eqb_refl. cbn [negb].
    assert (Ascii.eqb c lbrace = false) as ->.
    { apply Ascii.eqb_neq. intros ->. simpl in Hv. done. }
    change (c :: n ++ render xs) with ((c :: n) ++ render xs). rewrite var_name_app by done.
    destruct (lookup s (c :: n)) as [[v|] s']; cbn [default]; rewrite IH by (done || (simpl in Hf; lia)); done.
Qed.

Lemma expandCore_loop s t : expandCore lookup keep s t = loop (length t) s t.
Proof.
  unfold expandCore. destruct (existsb _ t) eqn:E; [done|]. symmetry.
  rewrite <- (app_nil_r t) at 2. replace (length t) with (length t + 0)%nat by lia.
  rewrite loop_lit; [simpl; by rewrite app_nil_r|].
  rewrite forallb_forall. intros c Hc. apply negb_true_iff. destruct (Ascii.eqb c dollar) eqn:Ec; [|done].
  rewrite <- not_true_iff_false, existsb_exists in E. exfalso. apply E. by exists c.
Qed.

End ExpandFacts.

(** ** Properties *)

(** Expansion means what it says: a template made of text and of variables, bare
    or in braces, expands to the text with each variable replaced by the value its
    look-up gives, or left as it was written when there is none; look-ups happen in
    order, and values are never expanded again. *)
Theorem expand_segments {S} (lookup : S → gostring → option gostring * S) keep s xs :
  well_formed xs = true →
  expandCore lookup keep s (render xs) = evaluate lookup keep s xs.
Proof. intros Hw. rewrite expandCore_loop. by apply evaluate_loop. Qed.

(** A look-up in a fixed table. *)
Definition ex_lookup (u : unit) (n : gostring) : option gostring * unit :=
  (if decide (n = go!"uri") then Some (go!"/a?$x") else None, u).

Lemma expand_segments_witness :
  expandCore ex_lookup true tt (render [Lit (go!"to "); Braced (go!"uri"); Bare (go!"y"); Lit (go!".html")]) =
  evaluate ex_lookup true tt [Lit (go!"to "); Braced (go!"uri"); Bare (go!"y"); Lit (go!".html")].
Proof. apply expand_segments. reflexivity. Defined.

Example ex_expand :
  (expandCore ex_lookup true tt (go!"to ${uri}$y.html $ ${} ${z")).1 = go!"to /a?$x$y.html $ ${} ${z".
Proof. reflexivity. Qed.

(** A template none of whose variables is defined expands to itself, byte for
    byte, malformed references included. *)
Theorem expand_undefined {S} (lookup : S → gostring → option gostring * S) s t :
  (∀ s n, lookup s n = (None, s)) → expandCore lookup true s t = (t, s).
Proof. intros Hl. rewrite expandCore_loop. by apply loop_undefined. Qed.

Lemma expand_undefined_witness :
  expandCore (λ s n, (None, s)) true tt (go!"$a ${ ${} $$") = (go!"$a ${ ${} $$", tt).
Proof. apply expand_undefined. done. Defined.

Lemma clear_all {A} (m : gmap gostring A) : foldl (λ m k, delete k m) m (elements (dom m)) = ∅.
Proof.
  apply map_empty. intros k.
  assert (H : ∀ ks (m : gmap gostring A), foldl (λ m k, delete k m) m ks !! k = if decide (k ∈ ks) then None else m !! k).
  { intros ks. induction ks as [|x ks IH]; intros n; [by rewrite decide_False by apply not_elem_of_nil|].
    cbn [foldl]. rewrite IH. destruct (decide (k = x)) as [->|Hx].
    - rewrite (decide_True (P := x ∈ x :: ks)) by apply list_elem_of_here. by rewrite lookup_delete_eq; case_decide.
    - rewrite lookup_delete_ne by done. apply decide_ext. rewrite elem_of_cons. tauto. }
  rewrite H. case_decide as Hd; [done|]. apply not_elem_of_dom. by rewrite <- elem_of_elements.
Qed.

(** Contexts do not leak between requests: a context taken from the pool, whatever
    the request that used it before left in its variables, caches and fields, is the
    one a fresh allocation gives. *)
Theorem context_isolation vc w : NewContext (Some vc) w = NewContext None w.
Proof. unfold NewContext. by rewrite !clear_all. Qed.

Lemma after_colon_none s : ":"%char ∉ s → after_colon s = go!"-".
Proof.
  intros H. unfold after_colon. replace (LastIndexByte s ":") with (@None nat); [done|].
  induction s as [|c s IH]; [done|]. apply not_elem_of_cons in H as [Hc H]. simpl. rewrite <- IH by done.
  destruct (Ascii.eqb_spec c ":"); [|done]. by subst.
Qed.

(** No client that connects over IPv4 has a port: [$remote_port] takes what
    follows the last colon of the formatted address, and the address of an IPv4 client
    is formatted without its port. *)
Theorem remote_port_never_ipv4 ips ssl w ip4 :
  To4 (remote_ip (req w)) = Some ip4 → Forall is_byte (remote_ip (req w)) →
  getter ips ssl (go!"remote_port") w = (go!"-", w).
Proof.
  intros H4 Hb. unfold getter. cbn [decide]. rewrite !decide_False, decide_True by done.
  destruct w as [c r]. cbn [req addr_cache] in *. destruct (remote_addr r); [|done].
  unfold with_addr, FormatRemoteAddr. cbn [req addr_cache].
  destruct (remote_ip r) eqn:Hr; [done|]. rewrite H4. rewrite after_colon_none; [done|].
  apply formatIPv4_chars; [done..|]. by eapply To4_bytes.
Qed.

Definition ex_req : reqctx :=
  mkReq (go!"h") (go!"/a?x=1") (go!"/a") (go!"x=1") (go!"GET") false [10; 0; 0; 7] (Some (go!"10.0.0.7:4321"))
    (Some (go!"10.0.0.1:80")) None None None None None (go!"t") (go!"t") (go!"uuid").
Definition ex_world : world := mkWorld ∅ ex_req.

Lemma remote_port_never_ipv4_witness :
  getter (λ _, []) (λ _ _, []) (go!"remote_port") ex_world = (go!"-", ex_world).
Proof. refine (remote_port_never_ipv4 (λ _, []) (λ _ _, []) ex_world [10; 0; 0; 7] eq_refl _). repeat constructor; unfold is_byte; lia. Defined.

(** ** Two ways to read a variable *)

(** The two ways to read agree on a new context: whatever the request, the global
    variables and the name, [EphemeralGet] and [Get] give the same value. *)
Theorem fresh_reads_agree ips ssl globals w name :
  (EphemeralGet ips ssl globals (NewContext None w) name).1 = (Get ips ssl globals (NewContext None w) name).1.
Proof.
  unfold EphemeralGet, Get. cbn [store cache bytesCache NewContext]. rewrite !lookup_empty.
  destruct (globals !! name); [done|]. destruct (field_value _ name).
  - by destruct (field_cached _ name).
  - destruct (evalBuiltin _ _ _ name) as [[v w']|]; done.
Qed.

(** They stop agreeing once the response is there: [EphemeralGet] caches the value of
    [status] or [body_bytes_sent] at its first use and [SetResponseInfo] does not clear that cache, so
    the access log of a request that read it early keeps the early value. *)
Theorem ephemeral_value_is_stale ips ssl st body dur :
  0 < body →
  let vc := (EphemeralGet ips ssl ∅ (NewContext None ex_world) (go!"body_bytes_sent")).2 in
  let vc := SetResponseInfo vc st body dur in
  (EphemeralGet ips ssl ∅ vc (go!"body_bytes_sent")).1 = Some (go!"0") ∧
  (Get ips ssl ∅ vc (go!"body_bytes_sent")).1 = Some (FormatInt body).
Proof.
  intros Hb. set (vc := (EphemeralGet _ _ _ _ _).2). split; [reflexivity|].
  assert (field_value (SetResponseInfo vc st body dur) (go!"body_bytes_sent") = Some (FormatInt body)) as Hf.
  { transitivity (if 0 <? body then Some (FormatInt body) else Some (go!"0")); [reflexivity|].
    by rewrite (proj2 (Z.ltb_lt 0 body)). }
  unfold Get. rewrite Hf. reflexivity.
Qed.

Lemma ephemeral_value_is_stale_witness :
  let vc := (EphemeralGet (λ _, []) (λ _ _, []) ∅ (NewContext None ex_world) (go!"body_bytes_sent")).2 in
  let vc := SetResponseInfo vc 200 512 1000 in
  (EphemeralGet (λ _, []) (λ _ _, []) ∅ vc (go!"body_bytes_sent")).1 = Some (go!"0") ∧
  (Get (λ _, []) (λ _ _, []) ∅ vc (go!"body_bytes_sent")).1 = Some (FormatInt 512).
Proof. apply ephemeral_value_is_stale. reflexivity. Defined.
