(* ===== verification/Config.v ===== *)
(** * Config: the configuration tree

    The structures of [src/internal/config] as the YAML files fill them, with the
    operations of [config.go] that do not validate: the mode of the server, sizes,
    included files, environment variables, loading, and the default configuration of
    [defaults.go].  The YAML decoder and the file system are parameters.  Shown: an
    included file can only add servers, streams and variables that are not set.

    Every field is the source's, with a prefix for its structure; durations are
    nanoseconds.  The structures that other parts define are used from there. *)

From S2P Require Import Prelude GoStrings Float64 GoPath Health ProxyCache Access RateLimit ReqVars.
From Corelib Require Import SpecFloat.

Abbreviation ServerMode := gostring.

Record VariablesConfig := mkVariablesConfig {
  vr_Set : gmap gostring gostring }.

Record AccessLogConfig := mkAccessLogConfig {
  al_Path : gostring; al_Format : gostring; al_SampleRate : float64 }.

Record ErrorLogConfig := mkErrorLogConfig {
  el_Path : gostring; el_Level : gostring }.

Record LoggingConfig := mkLoggingConfig {
  lg_Format : gostring; lg_Access : AccessLogConfig; lg_Error : ErrorLogConfig }.

Record CacheAPIAuthConfig := mkCacheAPIAuthConfig {
  caa_Type : gostring; caa_Token : gostring }.

Record CacheAPIConfig := mkCacheAPIConfig {
  ca_Auth : CacheAPIAuthConfig; ca_Path : gostring; ca_Allow : list gostring; ca_Enabled : bool }.

Record LuaScriptConfig := mkLuaScriptConfig {
  ls_Path : gostring; ls_Phase : gostring; ls_Route : gostring; ls_RouteType : gostring; ls_Timeout : Z;
  ls_Enabled : bool }.

Record LuaGlobalSettings := mkLuaGlobalSettings {
  lgs_MaxConcurrentCoroutines : Z; lgs_CoroutineTimeout : Z; lgs_CodeCacheSize : Z;
  lgs_MaxExecutionTime : Z; lgs_CoroutineStackSize : Z; lgs_CoroutinePoolWarmup : Z;
  lgs_EnableFileWatch : bool; lgs_MinimizeStackMemory : bool; lgs_LStatePoolInitialSize : Z;
  lgs_LStatePoolMaxSize : Z }.

Record LuaMiddlewareConfig := mkLuaMiddlewareConfig {
  lua_Scripts : list LuaScriptConfig; lua_GlobalSettings : LuaGlobalSettings; lua_Enabled : bool }.

Record StaticConfig := mkStaticConfig {
  st_Path : gostring; st_Root : gostring; st_Alias : gostring; st_Index : list gostring;
  st_TryFiles : list gostring; st_TryFilesPass : bool; st_SymlinkCheck : bool;
  st_LocationType : gostring; st_Internal : bool; st_Expires : gostring; st_AutoIndex : bool;
  st_AutoIndexFormat : gostring; st_AutoIndexLocaltime : bool; st_AutoIndexExactSize : bool }.

Record RedirectRewriteRule := mkRedirectRewriteRule {
  rrr_Pattern : gostring; rrr_Replacement : gostring }.

Record RedirectRewriteConfig := mkRedirectRewriteConfig {
  rr_Mode : gostring; rr_Rules : list RedirectRewriteRule }.

Record ProxySSLConfig := mkProxySSLConfig {
  ps_ServerName : gostring; ps_TrustedCA : gostring; ps_ClientCert : gostring; ps_ClientKey : gostring;
  ps_MinVersion : gostring; ps_MaxVersion : gostring; ps_Enabled : bool; ps_InsecureSkipVerify : bool }.

Record ProxyBufferingConfig := mkProxyBufferingConfig {
  bf_Mode : gostring; bf_BufferSize : Z; bf_Buffers : gostring; bf_BufferCount : Z;
  bf_BufferSizeEach : Z }.

Record ProxyTarget := mkProxyTarget {
  tg_URL : gostring; tg_Weight : Z; tg_MaxConns : Z; tg_MaxFails : Z; tg_FailTimeout : Z;
  tg_Backup : bool; tg_Down : bool; tg_ProxyURI : gostring }.

Record ProxyHeaders := mkProxyHeaders {
  hd_SetRequest : gmap gostring gostring; hd_SetResponse : gmap gostring gostring;
  hd_Remove : list gostring; hd_HideResponse : list gostring; hd_PassResponse : list gostring;
  hd_IgnoreHeaders : list gostring; hd_CookieDomain : gostring; hd_CookiePath : gostring;
  hd_SetForwardedHost : option bool; hd_SetForwardedProto : option bool }.

Record BalancerByLuaConfig := mkBalancerByLuaConfig {
  bl_Script : gostring; bl_Fallback : gostring; bl_Timeout : Z; bl_Enabled : bool }.

Record NextUpstreamConfig := mkNextUpstreamConfig {
  nu_HTTPCodes : list Z; nu_Tries : Z }.

Record ProxyCacheConfig := mkProxyCacheConfig {
  pc_MaxAge : Z; pc_StaleWhileRevalidate : Z; pc_StaleIfError : Z; pc_StaleIfTimeout : Z;
  pc_Enabled : bool; pc_CacheLock : bool; pc_Methods : list gostring; pc_MinUses : Z;
  pc_CacheLockTimeout : Z; pc_BackgroundUpdateDisable : bool; pc_CacheIgnoreHeaders : list gostring;
  pc_Vary : list gostring; pc_Revalidate : bool }.

Record ProxyTimeout := mkProxyTimeout {
  to_Dial : Z; to_Connect : Z; to_Read : Z; to_Write : Z }.

Record LeastTimeConfig := mkLeastTimeConfig {
  lt_Metric : gostring; lt_DefaultTime : Z }.

Record StickyConfig := mkStickyConfig {
  sk_Enabled : bool; sk_Name : gostring; sk_Expires : Z; sk_Domain : gostring; sk_Path : gostring;
  sk_Secure : bool; sk_HttpOnly : bool; sk_SameSite : gostring; sk_FallbackAlgo : gostring }.

Record ProxyConfig := mkProxyConfig {
  px_RedirectRewrite : option RedirectRewriteConfig; px_ProxySSL : option ProxySSLConfig;
  px_CacheValid : option CacheValid; px_Buffering : option ProxyBufferingConfig;
  px_Targets : list ProxyTarget; px_Path : gostring; px_LoadBalance : gostring; px_HashKey : gostring;
  px_ClientMaxBodySize : gostring; px_ProxyBind : gostring; px_Headers : ProxyHeaders;
  px_BalancerByLua : BalancerByLuaConfig; px_HealthCheck : HealthCheckConfig;
  px_NextUpstream : NextUpstreamConfig; px_Cache : ProxyCacheConfig; px_Timeout : ProxyTimeout;
  px_LeastTime : LeastTimeConfig; px_Sticky : StickyConfig; px_VirtualNodes : Z;
  px_LocationType : gostring; px_LocationName : gostring; px_Internal : bool }.

Record RewriteRule := mkRewriteRule {
  rw_Pattern : gostring; rw_Replacement : gostring; rw_Flag : gostring }.

Record SecurityHeaders := mkSecurityHeaders {
  sh_XFrameOptions : gostring; sh_XContentTypeOptions : gostring; sh_ContentSecurityPolicy : gostring;
  sh_ReferrerPolicy : gostring; sh_PermissionsPolicy : gostring }.

Record ErrorPageConfig := mkErrorPageConfig {
  ep_Pages : gmap Z gostring; ep_Default : gostring; ep_ResponseCode : Z }.

Record User := mkUser {
  u_Name : gostring; u_Password : gostring }.

Record AuthConfig := mkAuthConfig {
  au_Type : gostring; au_Algorithm : gostring; au_Realm : gostring; au_Users : list User;
  au_MinPasswordLength : Z; au_RequireTLS : bool }.

Record AuthRequestConfig := mkAuthRequestConfig {
  ar_Headers : gmap gostring gostring; ar_URI : gostring; ar_Method : gostring;
  ar_ForwardHeaders : list gostring; ar_Timeout : Z; ar_Enabled : bool }.

Record CORSConfig := mkCORSConfig {
  co_Enabled : bool; co_AllowedOrigins : list gostring; co_AllowedMethods : list gostring;
  co_AllowedHeaders : list gostring; co_ExposeHeaders : list gostring; co_AllowCredentials : bool;
  co_MaxAge : Z }.

Record SecurityConfig := mkSecurityConfig {
  sec_Headers : SecurityHeaders; sec_Access : AccessConfig; sec_ErrorPage : ErrorPageConfig;
  sec_Auth : AuthConfig; sec_AuthRequest : AuthRequestConfig; sec_RateLimit : RateLimitConfig;
  sec_CORS : CORSConfig }.

Record CompressionConfig := mkCompressionConfig {
  cp_Type : gostring; cp_Types : list gostring; cp_GzipStaticExtensions : list gostring; cp_Level : Z;
  cp_MinSize : Z; cp_GzipStatic : bool }.

Record ClientVerifyConfig := mkClientVerifyConfig {
  cv_Mode : gostring; cv_ClientCA : gostring; cv_CRL : gostring; cv_VerifyDepth : Z;
  cv_Enabled : bool }.

Record SessionTicketsConfig := mkSessionTicketsConfig {
  tk_KeyFile : gostring; tk_RotateInterval : Z; tk_RetainKeys : Z; tk_Enabled : bool }.

Record HTTP2Config := mkHTTP2Config {
  h2_MaxConcurrentStreams : Z; h2_MaxHeaderListSize : Z; h2_IdleTimeout : Z; h2_Enabled : bool;
  h2_PushEnabled : bool; h2_H2CEnabled : bool; h2_GracefulShutdownTimeout : Z; h2_MaxBodySize : Z }.

Record HSTSConfig := mkHSTSConfig {
  hsts_MaxAge : Z; hsts_IncludeSubDomains : bool; hsts_Preload : bool }.

Record SSLConfig := mkSSLConfig {
  ssl_ClientVerify : ClientVerifyConfig; ssl_Cert : gostring; ssl_Key : gostring;
  ssl_CertChain : gostring; ssl_Protocols : list gostring; ssl_Ciphers : list gostring;
  ssl_SessionTickets : SessionTicketsConfig; ssl_HTTP2 : HTTP2Config; ssl_HSTS : HSTSConfig;
  ssl_OCSPStapling : bool }.

Record UnixSocketConfig := mkUnixSocketConfig {
  us_Mode : Z; us_User : gostring; us_Group : gostring }.

Record LimitRateConfig := mkLimitRateConfig {
  lr_Rate : Z; lr_Burst : Z; lr_LargeFileThreshold : Z; lr_LargeFileStrategy : gostring }.

Record TypesConfig := mkTypesConfig {
  ty_DefaultType : gostring; ty_Map : gmap gostring gostring }.

Record ServerConfig := mkServerConfig {
  srv_CacheAPI : option CacheAPIConfig; srv_Lua : option LuaMiddlewareConfig;
  srv_Static : list StaticConfig; srv_Proxy : list ProxyConfig; srv_Rewrite : list RewriteRule;
  srv_ClientMaxBodySize : gostring; srv_Name : gostring; srv_Listen : gostring;
  srv_Security : SecurityConfig; srv_Compression : CompressionConfig; srv_SSL : SSLConfig;
  srv_UnixSocket : UnixSocketConfig; srv_LimitRate : LimitRateConfig; srv_Types : TypesConfig;
  srv_ServerNames : list gostring; srv_ReadTimeout : Z; srv_IdleTimeout : Z; srv_WriteTimeout : Z;
  srv_MaxRequestsPerConn : Z; srv_MaxConnsPerIP : Z; srv_Concurrency : Z; srv_ReadBufferSize : Z;
  srv_WriteBufferSize : Z; srv_Default : bool; srv_ReduceMemoryUsage : bool; srv_ServerTokens : bool }.

Record StreamTarget := mkStreamTarget {
  stt_Addr : gostring; stt_Weight : Z }.

Record StreamUpstream := mkStreamUpstream {
  su_LoadBalance : gostring; su_Targets : list StreamTarget }.

Record StreamProxySSLConfig := mkStreamProxySSLConfig {
  ssl_sp_TrustedCA : gostring; ssl_sp_ServerName : gostring; ssl_sp_Cert : gostring;
  ssl_sp_Key : gostring; ssl_sp_Protocols : list gostring; ssl_sp_Enabled : bool; ssl_sp_Verify : bool;
  ssl_sp_SessionReuse : bool }.

Record StreamSSLConfig := mkStreamSSLConfig {
  ssl_s_Cert : gostring; ssl_s_Key : gostring; ssl_s_ClientCA : gostring;
  ssl_s_Protocols : list gostring; ssl_s_Ciphers : list gostring; ssl_s_VerifyDepth : Z;
  ssl_s_Enabled : bool }.

Record StreamConfig := mkStreamConfig {
  sm_Listen : gostring; sm_Protocol : gostring; sm_Upstream : StreamUpstream;
  sm_ProxySSL : StreamProxySSLConfig; sm_SSL : StreamSSLConfig }.

Record StatusConfig := mkStatusConfig {
  sx_Path : gostring; sx_Format : gostring; sx_Allow : list gostring; sx_Enabled : bool }.

Record PprofConfig := mkPprofConfig {
  pp_Path : gostring; pp_Allow : list gostring; pp_Enabled : bool }.

Record HealthzConfig := mkHealthzConfig {
  hz_Path : gostring; hz_Enabled : bool }.

Record ReadyzConfig := mkReadyzConfig {
  rz_Path : gostring; rz_Enabled : bool }.

Record MonitoringConfig := mkMonitoringConfig {
  mo_Status : StatusConfig; mo_Pprof : PprofConfig; mo_Healthz : HealthzConfig;
  mo_Readyz : ReadyzConfig }.

Record HTTP3Config := mkHTTP3Config {
  h3_Listen : gostring; h3_MaxStreams : Z; h3_IdleTimeout : Z; h3_Enabled : bool; h3_Enable0RTT : bool;
  h3_MaxBodySize : Z }.

Record ResolverConfig := mkResolverConfig {
  rs_Addresses : list gostring; rs_Valid : Z; rs_Timeout : Z; rs_CacheSize : Z; rs_Enabled : bool;
  rs_IPv4 : bool; rs_IPv6 : bool }.

Record GoroutinePoolConfig := mkGoroutinePoolConfig {
  gp_Enabled : bool; gp_MaxWorkers : Z; gp_MinWorkers : Z; gp_IdleTimeout : Z }.

Record FileCacheConfig := mkFileCacheConfig {
  fc_MaxEntries : Z; fc_MaxSize : Z; fc_Inactive : Z }.

Record TransportConfig := mkTransportConfig {
  tr_IdleConnTimeout : Z; tr_MaxConnsPerHost : Z }.

Record PerformanceConfig := mkPerformanceConfig {
  pf_GoroutinePool : GoroutinePoolConfig; pf_FileCache : FileCacheConfig;
  pf_Transport : TransportConfig }.

Record ShutdownConfig := mkShutdownConfig {
  sd_GracefulTimeout : Z; sd_FastTimeout : Z; sd_ReloadTimeout : Z }.

Record IncludeConfig := mkIncludeConfig {
  inc_Path : gostring }.

Record Config := mkConfig {
  cfg_Mode : ServerMode; cfg_Variables : VariablesConfig; cfg_Logging : LoggingConfig;
  cfg_Servers : list ServerConfig; cfg_Stream : list StreamConfig; cfg_Monitoring : MonitoringConfig;
  cfg_HTTP3 : HTTP3Config; cfg_Resolver : ResolverConfig; cfg_Performance : PerformanceConfig;
  cfg_Shutdown : ShutdownConfig; cfg_Include : list IncludeConfig }.

(** ** Zero values *)

Definition zero_VariablesConfig : VariablesConfig := mkVariablesConfig ∅.
Definition zero_AccessLogConfig : AccessLogConfig := mkAccessLogConfig [] [] (S754_zero false).
Definition zero_ErrorLogConfig : ErrorLogConfig := mkErrorLogConfig [] [].
Definition zero_LoggingConfig : LoggingConfig := mkLoggingConfig [] zero_AccessLogConfig zero_ErrorLogConfig.
Definition zero_CacheAPIAuthConfig : CacheAPIAuthConfig := mkCacheAPIAuthConfig [] [].
Definition zero_CacheAPIConfig : CacheAPIConfig := mkCacheAPIConfig zero_CacheAPIAuthConfig [] [] false.
Definition zero_LuaScriptConfig : LuaScriptConfig := mkLuaScriptConfig [] [] [] [] 0 false.
Definition zero_LuaGlobalSettings : LuaGlobalSettings := mkLuaGlobalSettings 0 0 0 0 0 0 false false 0 0.
Definition zero_LuaMiddlewareConfig : LuaMiddlewareConfig := mkLuaMiddlewareConfig [] zero_LuaGlobalSettings false.
Definition zero_StaticConfig : StaticConfig := mkStaticConfig [] [] [] [] [] false false [] false [] false [] false false.
Definition zero_RedirectRewriteRule : RedirectRewriteRule := mkRedirectRewriteRule [] [].
Definition zero_RedirectRewriteConfig : RedirectRewriteConfig := mkRedirectRewriteConfig [] [].
Definition zero_ProxySSLConfig : ProxySSLConfig := mkProxySSLConfig [] [] [] [] [] [] false false.
Definition zero_ProxyBufferingConfig : ProxyBufferingConfig := mkProxyBufferingConfig [] 0 [] 0 0.
Definition zero_ProxyTarget : ProxyTarget := mkProxyTarget [] 0 0 0 0 false false [].
Definition zero_ProxyHeaders : ProxyHeaders := mkProxyHeaders ∅ ∅ [] [] [] [] [] [] None None.
Definition zero_BalancerByLuaConfig : BalancerByLuaConfig := mkBalancerByLuaConfig [] [] 0 false.
Definition zero_NextUpstreamConfig : NextUpstreamConfig := mkNextUpstreamConfig [] 0.
Definition zero_ProxyCacheConfig : ProxyCacheConfig := mkProxyCacheConfig 0 0 0 0 false false [] 0 0 false [] [] false.
Definition zero_ProxyTimeout : ProxyTimeout := mkProxyTimeout 0 0 0 0.
Definition zero_LeastTimeConfig : LeastTimeConfig := mkLeastTimeConfig [] 0.
Definition zero_StickyConfig : StickyConfig := mkStickyConfig false [] 0 [] [] false false [] [].
Definition zero_ProxyConfig : ProxyConfig := mkProxyConfig None None None None [] [] [] [] [] [] zero_ProxyHeaders zero_BalancerByLuaConfig empty_config zero_NextUpstreamConfig zero_ProxyCacheConfig zero_ProxyTimeout zero_LeastTimeConfig zero_StickyConfig 0 [] [] false.
Definition zero_RewriteRule : RewriteRule := mkRewriteRule [] [] [].
Definition zero_SecurityHeaders : SecurityHeaders := mkSecurityHeaders [] [] [] [] [].
Definition zero_ErrorPageConfig : ErrorPageConfig := mkErrorPageConfig ∅ [] 0.
Definition zero_User : User := mkUser [] [].
Definition zero_AuthConfig : AuthConfig := mkAuthConfig [] [] [] [] 0 false.
Definition zero_AuthRequestConfig : AuthRequestConfig := mkAuthRequestConfig ∅ [] [] [] 0 false.
Definition zero_CORSConfig : CORSConfig := mkCORSConfig false [] [] [] [] false 0.
Definition zero_SecurityConfig : SecurityConfig := mkSecurityConfig zero_SecurityHeaders (mkAccessConfig [] [] [] [] (mkGeoIPConfig false [] [] [] [] [] 0 0)) zero_ErrorPageConfig zero_AuthConfig zero_AuthRequestConfig (mkRLConfig 0 0 [] [] [] 0 0) zero_CORSConfig.
Definition zero_CompressionConfig : CompressionConfig := mkCompressionConfig [] [] [] 0 0 false.
Definition zero_ClientVerifyConfig : ClientVerifyConfig := mkClientVerifyConfig [] [] [] 0 false.
Definition zero_SessionTicketsConfig : SessionTicketsConfig := mkSessionTicketsConfig [] 0 0 false.
Definition zero_HTTP2Config : HTTP2Config := mkHTTP2Config 0 0 0 false false false 0 0.
Definition zero_HSTSConfig : HSTSConfig := mkHSTSConfig 0 false false.
Definition zero_SSLConfig : SSLConfig := mkSSLConfig zero_ClientVerifyConfig [] [] [] [] [] zero_SessionTicketsConfig zero_HTTP2Config zero_HSTSConfig false.
Definition zero_UnixSocketConfig : UnixSocketConfig := mkUnixSocketConfig 0 [] [].
Definition zero_LimitRateConfig : LimitRateConfig := mkLimitRateConfig 0 0 0 [].
Definition zero_TypesConfig : TypesConfig := mkTypesConfig [] ∅.
Definition zero_ServerConfig : ServerConfig := mkServerConfig None None [] [] [] [] [] [] zero_SecurityConfig zero_CompressionConfig zero_SSLConfig zero_UnixSocketConfig zero_LimitRateConfig zero_TypesConfig [] 0 0 0 0 0 0 0 0 false false false.
Definition zero_StreamTarget : StreamTarget := mkStreamTarget [] 0.
Definition zero_StreamUpstream : StreamUpstream := mkStreamUpstream [] [].
Definition zero_StreamProxySSLConfig : StreamProxySSLConfig := mkStreamProxySSLConfig [] [] [] [] [] false false false.
Definition zero_StreamSSLConfig : StreamSSLConfig := mkStreamSSLConfig [] [] [] [] [] 0 false.
Definition zero_StreamConfig : StreamConfig := mkStreamConfig [] [] zero_StreamUpstream zero_StreamProxySSLConfig zero_StreamSSLConfig.
Definition zero_StatusConfig : StatusConfig := mkStatusConfig [] [] [] false.
Definition zero_PprofConfig : PprofConfig := mkPprofConfig [] [] false.
Definition zero_HealthzConfig : HealthzConfig := mkHealthzConfig [] false.
Definition zero_ReadyzConfig : ReadyzConfig := mkReadyzConfig [] false.
Definition zero_MonitoringConfig : MonitoringConfig := mkMonitoringConfig zero_StatusConfig zero_PprofConfig zero_HealthzConfig zero_ReadyzConfig.
Definition zero_HTTP3Config : HTTP3Config := mkHTTP3Config [] 0 0 false false 0.
Definition zero_ResolverConfig : ResolverConfig := mkResolverConfig [] 0 0 0 false false false.
Definition zero_GoroutinePoolConfig : GoroutinePoolConfig := mkGoroutinePoolConfig false 0 0 0.
Definition zero_FileCacheConfig : FileCacheConfig := mkFileCacheConfig 0 0 0.
Definition zero_TransportConfig : TransportConfig := mkTransportConfig 0 0.
Definition zero_PerformanceConfig : PerformanceConfig := mkPerformanceConfig zero_GoroutinePoolConfig zero_FileCacheConfig zero_TransportConfig.
Definition zero_ShutdownConfig : ShutdownConfig := mkShutdownConfig 0 0 0.
Definition zero_IncludeConfig : IncludeConfig := mkIncludeConfig [].
Definition zero_Config : Config := mkConfig [] zero_VariablesConfig zero_LoggingConfig [] [] zero_MonitoringConfig zero_HTTP3Config zero_ResolverConfig zero_PerformanceConfig zero_ShutdownConfig [].

Definition ServerModeSingle : ServerMode := go!"single".
Definition ServerModeVHost : ServerMode := go!"vhost".
Definition ServerModeMultiServer : ServerMode := go!"multi_server".
Definition ServerModeAuto : ServerMode := go!"auto".

Definition HasServers (c : Config) : bool := negb (bool_decide (cfg_Servers c = [])).

Definition GetDefaultServerFromList (c : Config) : option ServerConfig :=
  find srv_Default (cfg_Servers c).

Definition GetMode (c : Config) : ServerMode :=
  if negb (bool_decide (cfg_Mode c = [])) && negb (bool_decide (cfg_Mode c = ServerModeAuto)) then cfg_Mode c
  else
    match cfg_Servers c with
    | [] => ServerModeAuto
    | [_] => ServerModeSingle
    | s :: rest =>
        if forallb (λ s', bool_decide (srv_Listen s' = srv_Listen s)) rest then ServerModeVHost
        else ServerModeMultiServer
    end.

(** ** Sizes *)

(** The product is an [int]. *)
Definition parseSize (s : gostring) : option Z :=
  let s := TrimSpace s in
  match last s with
  | None => None
  | Some c =>
      let unit := lower_byte c in
      let number := take (length s - 1) s in
      if Ascii.eqb unit "k" then (λ v, swrap64 (v * 1024)) <$> Atoi number
      else if Ascii.eqb unit "m" then (λ v, swrap64 (v * (1024 * 1024))) <$> Atoi number
      else Atoi s
  end.

(** [strings.Fields] on text without Unicode spaces. *)
Fixpoint fields_loop (s word : gostring) : list gostring :=
  match s with
  | [] => match word with [] => [] | _ => [word] end
  | c :: s =>
      if is_space c then match word with [] => fields_loop s [] | _ => word :: fields_loop s [] end
      else fields_loop s (word ++ [c])
  end.

Definition Fields (s : gostring) : list gostring := fields_loop s [].

Definition with_buffers (c : ProxyBufferingConfig) (count each : Z) : ProxyBufferingConfig :=
  mkProxyBufferingConfig (bf_Mode c) (bf_BufferSize c) (bf_Buffers c) count each.

Definition ParseBuffers (c : ProxyBufferingConfig) : ProxyBufferingConfig :=
  match bf_Buffers c with
  | [] => if 0 <? bf_BufferSize c then with_buffers c 1 (bf_BufferSize c) else c
  | _ =>
      match Fields (bf_Buffers c) with
      | n :: size :: _ =>
          match Atoi n, parseSize size with
          | Some count, Some each =>
              if (count <=? 0) || (each <=? 0) then c else with_buffers c count each
          | _, _ => c
          end
      | _ => c
      end
  end.

(** ** The environment: [os.LookupEnv], and [ExpandEnv] by the pattern [\$\{([^}]+)\}] *)

Section Sources.
Context (LookupEnv : gostring → option gostring).

Fixpoint env_loop (fuel : nat) (data : gostring) : gostring :=
  match fuel, data with
  | S fuel, c :: data' =>
      match data' with
      | d :: data'' =>
          if Ascii.eqb c dollar && Ascii.eqb d lbrace then
            match upto_brace data'' with
            | Some ((_ :: _) as name, rest) =>
                default ([c; d] ++ name ++ [rbrace]) (LookupEnv name) ++ env_loop fuel rest
            | _ => c :: env_loop fuel data'
            end
          else c :: env_loop fuel data'
      | [] => [c]
      end
  | _, _ => []
  end.

Definition ExpandEnv (data : gostring) : gostring := env_loop (length data) data.

(** ** Included files *)

(** The file system, and [yaml.Unmarshal] into a value. *)
Class ConfigFiles := {
  cf_Glob : gostring → option (list gostring);
  cf_Abs : gostring → option gostring;
  cf_IsDir : gostring → option bool;
  cf_ReadFile : gostring → option gostring;
  yaml_Unmarshal : gostring → Config → option Config
}.

Context `{ConfigFiles}.

Inductive include_error :=
  | TooDeep
  | BadPattern (p : gostring)
  | NoMatch (p : gostring)
  | NoAbs (p : gostring)
  | Cycle (p : gostring)
  | Unreadable (p : gostring)
  | BadYAML (p : gostring).

Definition maxIncludeDepth : nat := 10.

Definition with_included (cfg : Config) (servers : list ServerConfig) (stream : list StreamConfig)
    (vars : VariablesConfig) (inc : list IncludeConfig) : Config :=
  mkConfig (cfg_Mode cfg) vars (cfg_Logging cfg) servers stream (cfg_Monitoring cfg) (cfg_HTTP3 cfg)
    (cfg_Resolver cfg) (cfg_Performance cfg) (cfg_Shutdown cfg) inc.

(** The three appends: variables that are set are not replaced. *)
Definition merge_included (cfg included : Config) : Config :=
  with_included cfg (cfg_Servers cfg ++ cfg_Servers included) (cfg_Stream cfg ++ cfg_Stream included)
    (mkVariablesConfig (vr_Set (cfg_Variables cfg) ∪ vr_Set (cfg_Variables included))) (cfg_Include cfg).

Section Level.
Context (nested : Config → gostring → gset gostring → res include_error (Config * gset gostring)).

Fixpoint matches_loop (matches : list gostring) (cfg : Config) (visited : gset gostring)
  : res include_error (Config * gset gostring) :=
  match matches with
  | [] => Ok (cfg, visited)
  | m :: matches =>
      match cf_Abs m with
      | None => Err (NoAbs m)
      | Some a =>
          if decide (a ∈ visited) then Err (Cycle a)
          else
            let visited := {[a]} ∪ visited in
            match cf_IsDir m with
            | None => Err (Unreadable m)
            | Some true => matches_loop matches cfg (visited ∖ {[a]})
            | Some false =>
                match cf_ReadFile m with
                | None => Err (Unreadable m)
                | Some data =>
                    match yaml_Unmarshal (ExpandEnv data) zero_Config with
                    | None => Err (BadYAML m)
                    | Some included =>
                        '(included, visited) ←
                          match cfg_Include included with
                          | [] => Ok (included, visited)
                          | _ => nested included (Dir m) visited
                          end;
                        matches_loop matches (merge_included cfg included) (visited ∖ {[a]})
                    end
                end
            end
      end
  end.

Fixpoint patterns_loop (incs : list IncludeConfig) (baseDir : gostring) (cfg : Config) (visited : gset gostring)
  : res include_error (Config * gset gostring) :=
  match incs with
  | [] => Ok (cfg, visited)
  | inc :: incs =>
      let pattern := if IsAbs (inc_Path inc) then inc_Path inc else JoinPath baseDir (inc_Path inc) in
      match cf_Glob pattern with
      | None => Err (BadPattern (inc_Path inc))
      | Some [] => Err (NoMatch (inc_Path inc))
      | Some matches =>
          '(cfg, visited) ← matches_loop matches cfg visited;
          patterns_loop incs baseDir cfg visited
      end
  end.
End Level.

(** [levels] is [maxIncludeDepth - depth]. *)
Fixpoint processIncludes (levels : nat) (cfg : Config) (baseDir : gostring) (visited : gset gostring)
  : res include_error (Config * gset gostring) :=
  match levels with
  | O => Err TooDeep
  | S levels =>
      '(cfg, visited) ← patterns_loop (processIncludes levels) (cfg_Include cfg) baseDir cfg visited;
      Ok (with_included cfg (cfg_Servers cfg) (cfg_Stream cfg) (cfg_Variables cfg) [], visited)
  end.
End Sources.

(** ** The default configuration *)

Definition quote : gostring := ["034"%char].

Definition default_CacheAPIAuthConfig : CacheAPIAuthConfig := {|
  caa_Type := go!"none"; caa_Token := [] |}.

Definition default_CacheAPIConfig : CacheAPIConfig := {|
  ca_Auth := default_CacheAPIAuthConfig; ca_Path := go!"/_cache/purge"; ca_Allow := [go!"127.0.0.1"];
  ca_Enabled := false |}.

Definition default_LuaGlobalSettings : LuaGlobalSettings := {|
  lgs_MaxConcurrentCoroutines := 1000; lgs_CoroutineTimeout := 30000000000; lgs_CodeCacheSize := 1000;
  lgs_MaxExecutionTime := 30000000000; lgs_CoroutineStackSize := 0; lgs_CoroutinePoolWarmup := 0;
  lgs_EnableFileWatch := true; lgs_MinimizeStackMemory := false; lgs_LStatePoolInitialSize := 100;
  lgs_LStatePoolMaxSize := 1000 |}.

Definition default_LuaMiddlewareConfig : LuaMiddlewareConfig := {|
  lua_Scripts := []; lua_GlobalSettings := default_LuaGlobalSettings; lua_Enabled := false |}.

Definition default_StaticConfig : StaticConfig := {|
  st_Path := go!"/"; st_Root := go!"/var/www/html"; st_Alias := [];
  st_Index := [go!"index.html"; go!"index.htm"]; st_TryFiles := []; st_TryFilesPass := false;
  st_SymlinkCheck := false; st_LocationType := []; st_Internal := false; st_Expires := [];
  st_AutoIndex := false; st_AutoIndexFormat := []; st_AutoIndexLocaltime := false;
  st_AutoIndexExactSize := false |}.

Definition default_HSTSConfig : HSTSConfig := {|
  hsts_MaxAge := 31536000; hsts_IncludeSubDomains := true; hsts_Preload := false |}.

Definition default_HTTP2Config : HTTP2Config := {|
  h2_MaxConcurrentStreams := 128; h2_MaxHeaderListSize := 1048576; h2_IdleTimeout := 120000000000;
  h2_Enabled := true; h2_PushEnabled := false; h2_H2CEnabled := false;
  h2_GracefulShutdownTimeout := 30000000000; h2_MaxBodySize := 0 |}.

Definition default_SessionTicketsConfig : SessionTicketsConfig := {|
  tk_KeyFile := []; tk_RotateInterval := 3600000000000; tk_RetainKeys := 3; tk_Enabled := false |}.

Definition default_ClientVerifyConfig : ClientVerifyConfig := {|
  cv_Mode := go!"none"; cv_ClientCA := []; cv_CRL := []; cv_VerifyDepth := 1; cv_Enabled := false |}.

Definition default_SSLConfig : SSLConfig := {|
  ssl_ClientVerify := default_ClientVerifyConfig; ssl_Cert := []; ssl_Key := []; ssl_CertChain := [];
  ssl_Protocols := [go!"TLSv1.2"; go!"TLSv1.3"]; ssl_Ciphers := [];
  ssl_SessionTickets := default_SessionTicketsConfig; ssl_HTTP2 := default_HTTP2Config;
  ssl_HSTS := default_HSTSConfig; ssl_OCSPStapling := false |}.

Definition default_AuthConfig : AuthConfig := {|
  au_Type := []; au_Algorithm := go!"bcrypt"; au_Realm := go!"Restricted Area"; au_Users := [];
  au_MinPasswordLength := 8; au_RequireTLS := true |}.

Definition default_SecurityHeaders : SecurityHeaders := {|
  sh_XFrameOptions := go!"DENY"; sh_XContentTypeOptions := go!"nosniff"; sh_ContentSecurityPolicy := [];
  sh_ReferrerPolicy := go!"strict-origin-when-cross-origin"; sh_PermissionsPolicy := [] |}.

Definition default_AuthRequestConfig : AuthRequestConfig := {|
  ar_Headers := ∅; ar_URI := []; ar_Method := []; ar_ForwardHeaders := []; ar_Timeout := 5000000000;
  ar_Enabled := false |}.

Definition default_CORSConfig : CORSConfig := {|
  co_Enabled := false; co_AllowedOrigins := []; co_AllowedMethods := []; co_AllowedHeaders := [];
  co_ExposeHeaders := []; co_AllowCredentials := false; co_MaxAge := 0 |}.

Definition default_SecurityConfig : SecurityConfig := {|
  sec_Headers := default_SecurityHeaders;
  sec_Access := mkAccessConfig [] [] [] (go!"allow") (mkGeoIPConfig false [] [] [] [] [] 10000 3600000000000);
  sec_ErrorPage := zero_ErrorPageConfig; sec_Auth := default_AuthConfig;
  sec_AuthRequest := default_AuthRequestConfig;
  sec_RateLimit := mkRLConfig 0 0 (go!"ip") (go!"token_bucket") (go!"approximate") 60 0;
  sec_CORS := default_CORSConfig |}.

Definition default_CompressionConfig : CompressionConfig := {|
  cp_Type := go!"gzip";
  cp_Types := [go!"text/html"; go!"text/css"; go!"text/javascript"; go!"application/json";
    go!"application/javascript"];
  cp_GzipStaticExtensions := [go!".br"; go!".gz"]; cp_Level := 6; cp_MinSize := 1024;
  cp_GzipStatic := true |}.

Definition default_ServerConfig : ServerConfig := {|
  srv_CacheAPI := Some default_CacheAPIConfig; srv_Lua := Some default_LuaMiddlewareConfig;
  srv_Static := [default_StaticConfig]; srv_Proxy := []; srv_Rewrite := [];
  srv_ClientMaxBodySize := go!"10MB"; srv_Name := go!"localhost"; srv_Listen := go!":8080";
  srv_Security := default_SecurityConfig; srv_Compression := default_CompressionConfig;
  srv_SSL := default_SSLConfig; srv_UnixSocket := zero_UnixSocketConfig;
  srv_LimitRate := zero_LimitRateConfig; srv_Types := zero_TypesConfig; srv_ServerNames := [];
  srv_ReadTimeout := 30000000000; srv_IdleTimeout := 120000000000; srv_WriteTimeout := 30000000000;
  srv_MaxRequestsPerConn := 10000; srv_MaxConnsPerIP := 1000; srv_Concurrency := 262144;
  srv_ReadBufferSize := 16384; srv_WriteBufferSize := 16384; srv_Default := false;
  srv_ReduceMemoryUsage := false; srv_ServerTokens := false |}.

Definition default_AccessLogConfig : AccessLogConfig := {|
  al_Path := [];
  al_Format := go!"$remote_addr - $remote_user [$time] " ++ quote ++ go!"$request" ++ quote
    ++ go!" $status $body_bytes_sent " ++ quote ++ go!"$http_referer" ++ quote ++ go!" " ++ quote
    ++ go!"$http_user_agent" ++ quote;
  al_SampleRate := S754_zero false |}.

Definition default_ErrorLogConfig : ErrorLogConfig := {|
  el_Path := []; el_Level := go!"info" |}.

Definition default_LoggingConfig : LoggingConfig := {|
  lg_Format := go!"text"; lg_Access := default_AccessLogConfig; lg_Error := default_ErrorLogConfig |}.

Definition default_GoroutinePoolConfig : GoroutinePoolConfig := {|
  gp_Enabled := false; gp_MaxWorkers := 1000; gp_MinWorkers := 10; gp_IdleTimeout := 60000000000 |}.

Definition default_FileCacheConfig : FileCacheConfig := {|
  fc_MaxEntries := 10000; fc_MaxSize := 268435456; fc_Inactive := 20000000000 |}.

Definition default_TransportConfig : TransportConfig := {|
  tr_IdleConnTimeout := 90000000000; tr_MaxConnsPerHost := 512 |}.

Definition default_PerformanceConfig : PerformanceConfig := {|
  pf_GoroutinePool := default_GoroutinePoolConfig; pf_FileCache := default_FileCacheConfig;
  pf_Transport := default_TransportConfig |}.

Definition default_StatusConfig : StatusConfig := {|
  sx_Path := go!"/_status"; sx_Format := go!"json"; sx_Allow := [go!"127.0.0.1"; go!"localhost"];
  sx_Enabled := false |}.

Definition default_PprofConfig : PprofConfig := {|
  pp_Path := go!"/debug/pprof"; pp_Allow := [go!"127.0.0.1"]; pp_Enabled := false |}.

Definition default_HealthzConfig : HealthzConfig := {|
  hz_Path := go!"/healthz"; hz_Enabled := true |}.

Definition default_ReadyzConfig : ReadyzConfig := {|
  rz_Path := go!"/readyz"; rz_Enabled := true |}.

Definition default_MonitoringConfig : MonitoringConfig := {|
  mo_Status := default_StatusConfig; mo_Pprof := default_PprofConfig;
  mo_Healthz := default_HealthzConfig; mo_Readyz := default_ReadyzConfig |}.

Definition default_HTTP3Config : HTTP3Config := {|
  h3_Listen := go!":443"; h3_MaxStreams := 100; h3_IdleTimeout := 60000000000; h3_Enabled := false;
  h3_Enable0RTT := false; h3_MaxBodySize := 0 |}.

Definition default_ResolverConfig : ResolverConfig := {|
  rs_Addresses := [go!"8.8.8.8:53"; go!"8.8.4.4:53"]; rs_Valid := 30000000000; rs_Timeout := 5000000000;
  rs_CacheSize := 1024; rs_Enabled := false; rs_IPv4 := true; rs_IPv6 := false |}.

Definition default_VariablesConfig : VariablesConfig := {|
  vr_Set := ∅ |}.

Definition default_ShutdownConfig : ShutdownConfig := {|
  sd_GracefulTimeout := 30000000000; sd_FastTimeout := 5000000000; sd_ReloadTimeout := 5000000000 |}.

Definition DefaultConfig : Config := {|
  cfg_Mode := []; cfg_Variables := default_VariablesConfig; cfg_Logging := default_LoggingConfig;
  cfg_Servers := [default_ServerConfig]; cfg_Stream := []; cfg_Monitoring := default_MonitoringConfig;
  cfg_HTTP3 := default_HTTP3Config; cfg_Resolver := default_ResolverConfig;
  cfg_Performance := default_PerformanceConfig; cfg_Shutdown := default_ShutdownConfig;
  cfg_Include := [] |}.

(** [Load] up to validation: the defaults, what the file sets, what it includes. *)
Inductive load_error {V} :=
  | LoadUnreadable
  | LoadYAML
  | LoadAbs
  | LoadInclude (e : include_error)
  | LoadInvalid (e : V).
Arguments load_error : clear implicits.

Definition Load {V} (env : gostring → option gostring) `{ConfigFiles} (Validate : Config → option V) (path : gostring)
  : res (load_error V) Config :=
  match cf_ReadFile path with
  | None => Err LoadUnreadable
  | Some data =>
      match yaml_Unmarshal (ExpandEnv env data) DefaultConfig with
      | None => Err LoadYAML
      | Some cfg =>
          cfg ←
            match cfg_Include cfg with
            | [] => Ok cfg
            | _ =>
                match cf_Abs path with
                | None => Err LoadAbs
                | Some a =>
                    match processIncludes env maxIncludeDepth cfg (Dir path) {[a]} with
                    | Err e => Err (LoadInclude e)
                    | Ok (cfg, _) => Ok cfg
                    end
                end
            end;
          match Validate cfg with Some e => Err (LoadInvalid e) | None => Ok cfg end
      end
  end.

(** ** What including a file can change *)

(** [cfg'] is [cfg] with servers and streams appended and variables that were not set. *)
Record grows (cfg cfg' : Config) : Prop := {
  grows_servers : cfg_Servers cfg `prefix_of` cfg_Servers cfg';
  grows_stream : cfg_Stream cfg `prefix_of` cfg_Stream cfg';
  grows_variables : vr_Set (cfg_Variables cfg) ⊆ vr_Set (cfg_Variables cfg');
  grows_rest : ∃ inc,
    cfg' = with_included cfg (cfg_Servers cfg') (cfg_Stream cfg') (cfg_Variables cfg') inc }.

#[export] Instance grows_preorder : PreOrder grows.
Proof.
  split.
  - intros c. split; [done..|]. exists (cfg_Include c). by destruct c.
  - intros c1 c2 c3 [? ? ? [i H]] [? ? ? [j H']]. split; [by etrans..|]. exists j.
    rewrite H' at 1. rewrite H. done.
Qed.

Lemma grows_merge cfg included : grows cfg (merge_included cfg included).
Proof.
  split; cbn; [by apply prefix_app_r..|apply map_union_subseteq_l|]. by exists (cfg_Include cfg).
Qed.

Lemma grows_include cfg inc :
  grows cfg (with_included cfg (cfg_Servers cfg) (cfg_Stream cfg) (cfg_Variables cfg) inc).
Proof. split; cbn; [done..|]. by exists inc. Qed.

Section IncludeFacts.
Context (env : gostring → option gostring) `{ConfigFiles}.

(** What a level must do for the level above it: restore the files being read. *)
Definition tame (f : Config → gostring → gset gostring → res include_error (Config * gset gostring)) : Prop :=
  ∀ cfg dir v cfg' v', f cfg dir v = Ok (cfg', v') → v' = v ∧ grows cfg cfg'.

Lemma matches_loop_tame nested ms cfg v cfg' v' :
  tame nested → matches_loop env nested ms cfg v = Ok (cfg', v') → v' = v ∧ grows cfg cfg'.
Proof.
  intros Hn. revert cfg v. induction ms as [|m ms IH]; intros cfg v; cbn [matches_loop]; [by intros [= <- <-]|].
  destruct (cf_Abs m) as [a|]; [|done]. case_decide as Ha; [done|].
  assert (({[a]} ∪ v) ∖ {[a]} = v) as Hv by set_solver.
  destruct (cf_IsDir m) as [[]|]; [rewrite Hv; apply IH| |done].
  destruct (cf_ReadFile m) as [data|]; [|done]. destruct (yaml_Unmarshal _ _) as [inc|]; [|done].
  destruct (cfg_Include inc) as [|i incs].
  - cbn. rewrite Hv. intros [-> Hg]%IH. split; [done|]. etrans; [apply grows_merge|done].
  - destruct (nested inc (Dir m) _) as [[inc' w]|] eqn:E; [|done]. apply Hn in E as [-> _]. cbn. rewrite Hv.
    intros [-> Hg]%IH. split; [done|]. etrans; [apply grows_merge|done].
Qed.

Lemma patterns_loop_tame nested incs dir cfg v cfg' v' :
  tame nested → patterns_loop env nested incs dir cfg v = Ok (cfg', v') → v' = v ∧ grows cfg cfg'.
Proof.
  intros Hn. revert cfg v. induction incs as [|i incs IH]; intros cfg v; cbn [patterns_loop]; [by intros [= <- <-]|].
  destruct (cf_Glob _) as [[|m ms]|]; try done.
  destruct (matches_loop _ _ _ _ _) as [[c w]|] eqn:E; [|done]. apply matches_loop_tame in E as [-> Hg]; [|done].
  cbn. intros [-> Hg']%IH. split; [done|by etrans].
Qed.

Lemma processIncludes_tame levels : tame (processIncludes env levels).
Proof.
  induction levels as [|n IH]; intros cfg dir v cfg' v'; cbn [processIncludes]; [done|].
  destruct (patterns_loop _ _ _ _ _ _) as [[c w]|] eqn:E; [|done]. apply patterns_loop_tame in E as [-> Hg]; [|done].
  cbn. intros [= <- <-]. split; [done|]. etrans; [done|apply grows_include].
Qed.

(** Including files can only add: when it succeeds, the servers, streams and
    variables of the file itself are all still there, its servers and streams first and
    its variables with its own values, every other setting is its own, no include is
    left, and the set of files being read is what it was. *)
Theorem includes_only_add levels cfg dir v cfg' v' :
  processIncludes env levels cfg dir v = Ok (cfg', v') →
  v' = v ∧ grows cfg cfg' ∧ cfg_Include cfg' = [].
Proof.
  intros E. destruct (processIncludes_tame levels cfg dir v cfg' v' E) as [-> Hg]. split; [done|split; [done|]].
  destruct levels; cbn in E; [done|]. destruct (patterns_loop _ _ _ _ _ _) as [[]|]; by simplify_eq/=.
Qed.
End IncludeFacts.

(** A file [/b] with a server, included by path from a configuration with another. *)
Definition ex_files : ConfigFiles := {|
  cf_Glob := λ p, Some [p]; cf_Abs := Some; cf_IsDir := λ _, Some false; cf_ReadFile := Some;
  yaml_Unmarshal := λ data cfg,
    if decide (data = go!"/b") then Some (with_included cfg [default_ServerConfig] [] (mkVariablesConfig ∅) []) else None |}.

Definition ex_including : Config :=
  with_included DefaultConfig [default_ServerConfig] [] (mkVariablesConfig ∅) [mkIncludeConfig (go!"b")].

Definition ex_included : Config :=
  match processIncludes (λ _, None) (H := ex_files) 10 ex_including (go!"/") ∅ with Ok (c, _) => c | Err _ => zero_Config end.

Lemma includes_only_add_witness :
  length (cfg_Servers ex_included) = 2%nat ∧
  (∅ : gset gostring) = ∅ ∧ grows ex_including ex_included ∧ cfg_Include ex_included = [].
Proof.
  split; [by vm_compute|].
  apply (includes_only_add (λ _, None) (H := ex_files) 10 ex_including (go!"/") ∅). vm_compute. reflexivity.
Defined.
