(* ===== verification/ConfigUpdate.v ===== *)
(** * ConfigUpdate: assignments to the fields of a configuration

    One function per field the converter assigns to: the record with that field
    replaced. *)

From S2P Require Import Prelude Float64 ProxyCache Config.

Definition set_srv_Static (x : list StaticConfig) (r : ServerConfig) : ServerConfig :=
  mkServerConfig (srv_CacheAPI r) (srv_Lua r) x (srv_Proxy r) (srv_Rewrite r) (srv_ClientMaxBodySize r) (srv_Name
    r) (srv_Listen r) (srv_Security r) (srv_Compression r) (srv_SSL r) (srv_UnixSocket r) (srv_LimitRate r)
    (srv_Types r) (srv_ServerNames r) (srv_ReadTimeout r) (srv_IdleTimeout r) (srv_WriteTimeout r)
    (srv_MaxRequestsPerConn r) (srv_MaxConnsPerIP r) (srv_Concurrency r) (srv_ReadBufferSize r)
    (srv_WriteBufferSize r) (srv_Default r) (srv_ReduceMemoryUsage r) (srv_ServerTokens r).
Definition set_srv_Proxy (x : list ProxyConfig) (r : ServerConfig) : ServerConfig :=
  mkServerConfig (srv_CacheAPI r) (srv_Lua r) (srv_Static r) x (srv_Rewrite r) (srv_ClientMaxBodySize r) (srv_Name
    r) (srv_Listen r) (srv_Security r) (srv_Compression r) (srv_SSL r) (srv_UnixSocket r) (srv_LimitRate r)
    (srv_Types r) (srv_ServerNames r) (srv_ReadTimeout r) (srv_IdleTimeout r) (srv_WriteTimeout r)
    (srv_MaxRequestsPerConn r) (srv_MaxConnsPerIP r) (srv_Concurrency r) (srv_ReadBufferSize r)
    (srv_WriteBufferSize r) (srv_Default r) (srv_ReduceMemoryUsage r) (srv_ServerTokens r).
Definition set_srv_Rewrite (x : list RewriteRule) (r : ServerConfig) : ServerConfig :=
  mkServerConfig (srv_CacheAPI r) (srv_Lua r) (srv_Static r) (srv_Proxy r) x (srv_ClientMaxBodySize r) (srv_Name r)
    (srv_Listen r) (srv_Security r) (srv_Compression r) (srv_SSL r) (srv_UnixSocket r) (srv_LimitRate r) (srv_Types
    r) (srv_ServerNames r) (srv_ReadTimeout r) (srv_IdleTimeout r) (srv_WriteTimeout r) (srv_MaxRequestsPerConn r)
    (srv_MaxConnsPerIP r) (srv_Concurrency r) (srv_ReadBufferSize r) (srv_WriteBufferSize r) (srv_Default r)
    (srv_ReduceMemoryUsage r) (srv_ServerTokens r).
Definition set_srv_ClientMaxBodySize (x : gostring) (r : ServerConfig) : ServerConfig :=
  mkServerConfig (srv_CacheAPI r) (srv_Lua r) (srv_Static r) (srv_Proxy r) (srv_Rewrite r) x (srv_Name r)
    (srv_Listen r) (srv_Security r) (srv_Compression r) (srv_SSL r) (srv_UnixSocket r) (srv_LimitRate r) (srv_Types
    r) (srv_ServerNames r) (srv_ReadTimeout r) (srv_IdleTimeout r) (srv_WriteTimeout r) (srv_MaxRequestsPerConn r)
    (srv_MaxConnsPerIP r) (srv_Concurrency r) (srv_ReadBufferSize r) (srv_WriteBufferSize r) (srv_Default r)
    (srv_ReduceMemoryUsage r) (srv_ServerTokens r).
Definition set_srv_Name (x : gostring) (r : ServerConfig) : ServerConfig :=
  mkServerConfig (srv_CacheAPI r) (srv_Lua r) (srv_Static r) (srv_Proxy r) (srv_Rewrite r) (srv_ClientMaxBodySize
    r) x (srv_Listen r) (srv_Security r) (srv_Compression r) (srv_SSL r) (srv_UnixSocket r) (srv_LimitRate r)
    (srv_Types r) (srv_ServerNames r) (srv_ReadTimeout r) (srv_IdleTimeout r) (srv_WriteTimeout r)
    (srv_MaxRequestsPerConn r) (srv_MaxConnsPerIP r) (srv_Concurrency r) (srv_ReadBufferSize r)
    (srv_WriteBufferSize r) (srv_Default r) (srv_ReduceMemoryUsage r) (srv_ServerTokens r).
Definition set_srv_Listen (x : gostring) (r : ServerConfig) : ServerConfig :=
  mkServerConfig (srv_CacheAPI r) (srv_Lua r) (srv_Static r) (srv_Proxy r) (srv_Rewrite r) (srv_ClientMaxBodySize
    r) (srv_Name r) x (srv_Security r) (srv_Compression r) (srv_SSL r) (srv_UnixSocket r) (srv_LimitRate r)
    (srv_Types r) (srv_ServerNames r) (srv_ReadTimeout r) (srv_IdleTimeout r) (srv_WriteTimeout r)
    (srv_MaxRequestsPerConn r) (srv_MaxConnsPerIP r) (srv_Concurrency r) (srv_ReadBufferSize r)
    (srv_WriteBufferSize r) (srv_Default r) (srv_ReduceMemoryUsage r) (srv_ServerTokens r).
Definition set_srv_Security (x : SecurityConfig) (r : ServerConfig) : ServerConfig :=
  mkServerConfig (srv_CacheAPI r) (srv_Lua r) (srv_Static r) (srv_Proxy r) (srv_Rewrite r) (srv_ClientMaxBodySize
    r) (srv_Name r) (srv_Listen r) x (srv_Compression r) (srv_SSL r) (srv_UnixSocket r) (srv_LimitRate r)
    (srv_Types r) (srv_ServerNames r) (srv_ReadTimeout r) (srv_IdleTimeout r) (srv_WriteTimeout r)
    (srv_MaxRequestsPerConn r) (srv_MaxConnsPerIP r) (srv_Concurrency r) (srv_ReadBufferSize r)
    (srv_WriteBufferSize r) (srv_Default r) (srv_ReduceMemoryUsage r) (srv_ServerTokens r).
Definition set_srv_Compression (x : CompressionConfig) (r : ServerConfig) : ServerConfig :=
  mkServerConfig (srv_CacheAPI r) (srv_Lua r) (srv_Static r) (srv_Proxy r) (srv_Rewrite r) (srv_ClientMaxBodySize
    r) (srv_Name r) (srv_Listen r) (srv_Security r) x (srv_SSL r) (srv_UnixSocket r) (srv_LimitRate r) (srv_Types
    r) (srv_ServerNames r) (srv_ReadTimeout r) (srv_IdleTimeout r) (srv_WriteTimeout r) (srv_MaxRequestsPerConn r)
    (srv_MaxConnsPerIP r) (srv_Concurrency r) (srv_ReadBufferSize r) (srv_WriteBufferSize r) (srv_Default r)
    (srv_ReduceMemoryUsage r) (srv_ServerTokens r).
Definition set_srv_SSL (x : SSLConfig) (r : ServerConfig) : ServerConfig :=
  mkServerConfig (srv_CacheAPI r) (srv_Lua r) (srv_Static r) (srv_Proxy r) (srv_Rewrite r) (srv_ClientMaxBodySize
    r) (srv_Name r) (srv_Listen r) (srv_Security r) (srv_Compression r) x (srv_UnixSocket r) (srv_LimitRate r)
    (srv_Types r) (srv_ServerNames r) (srv_ReadTimeout r) (srv_IdleTimeout r) (srv_WriteTimeout r)
    (srv_MaxRequestsPerConn r) (srv_MaxConnsPerIP r) (srv_Concurrency r) (srv_ReadBufferSize r)
    (srv_WriteBufferSize r) (srv_Default r) (srv_ReduceMemoryUsage r) (srv_ServerTokens r).
Definition set_srv_ServerNames (x : list gostring) (r : ServerConfig) : ServerConfig :=
  mkServerConfig (srv_CacheAPI r) (srv_Lua r) (srv_Static r) (srv_Proxy r) (srv_Rewrite r) (srv_ClientMaxBodySize
    r) (srv_Name r) (srv_Listen r) (srv_Security r) (srv_Compression r) (srv_SSL r) (srv_UnixSocket r)
    (srv_LimitRate r) (srv_Types r) x (srv_ReadTimeout r) (srv_IdleTimeout r) (srv_WriteTimeout r)
    (srv_MaxRequestsPerConn r) (srv_MaxConnsPerIP r) (srv_Concurrency r) (srv_ReadBufferSize r)
    (srv_WriteBufferSize r) (srv_Default r) (srv_ReduceMemoryUsage r) (srv_ServerTokens r).
Definition set_srv_Default (x : bool) (r : ServerConfig) : ServerConfig :=
  mkServerConfig (srv_CacheAPI r) (srv_Lua r) (srv_Static r) (srv_Proxy r) (srv_Rewrite r) (srv_ClientMaxBodySize
    r) (srv_Name r) (srv_Listen r) (srv_Security r) (srv_Compression r) (srv_SSL r) (srv_UnixSocket r)
    (srv_LimitRate r) (srv_Types r) (srv_ServerNames r) (srv_ReadTimeout r) (srv_IdleTimeout r) (srv_WriteTimeout
    r) (srv_MaxRequestsPerConn r) (srv_MaxConnsPerIP r) (srv_Concurrency r) (srv_ReadBufferSize r)
    (srv_WriteBufferSize r) x (srv_ReduceMemoryUsage r) (srv_ServerTokens r).
Definition set_srv_ServerTokens (x : bool) (r : ServerConfig) : ServerConfig :=
  mkServerConfig (srv_CacheAPI r) (srv_Lua r) (srv_Static r) (srv_Proxy r) (srv_Rewrite r) (srv_ClientMaxBodySize
    r) (srv_Name r) (srv_Listen r) (srv_Security r) (srv_Compression r) (srv_SSL r) (srv_UnixSocket r)
    (srv_LimitRate r) (srv_Types r) (srv_ServerNames r) (srv_ReadTimeout r) (srv_IdleTimeout r) (srv_WriteTimeout
    r) (srv_MaxRequestsPerConn r) (srv_MaxConnsPerIP r) (srv_Concurrency r) (srv_ReadBufferSize r)
    (srv_WriteBufferSize r) (srv_Default r) (srv_ReduceMemoryUsage r) x.
Definition set_ssl_Cert (x : gostring) (r : SSLConfig) : SSLConfig :=
  mkSSLConfig (ssl_ClientVerify r) x (ssl_Key r) (ssl_CertChain r) (ssl_Protocols r) (ssl_Ciphers r)
    (ssl_SessionTickets r) (ssl_HTTP2 r) (ssl_HSTS r) (ssl_OCSPStapling r).
Definition set_ssl_Key (x : gostring) (r : SSLConfig) : SSLConfig :=
  mkSSLConfig (ssl_ClientVerify r) (ssl_Cert r) x (ssl_CertChain r) (ssl_Protocols r) (ssl_Ciphers r)
    (ssl_SessionTickets r) (ssl_HTTP2 r) (ssl_HSTS r) (ssl_OCSPStapling r).
Definition set_cp_Type (x : gostring) (r : CompressionConfig) : CompressionConfig :=
  mkCompressionConfig x (cp_Types r) (cp_GzipStaticExtensions r) (cp_Level r) (cp_MinSize r) (cp_GzipStatic r).
Definition set_cp_Types (x : list gostring) (r : CompressionConfig) : CompressionConfig :=
  mkCompressionConfig (cp_Type r) x (cp_GzipStaticExtensions r) (cp_Level r) (cp_MinSize r) (cp_GzipStatic r).
Definition set_cp_MinSize (x : Z) (r : CompressionConfig) : CompressionConfig :=
  mkCompressionConfig (cp_Type r) (cp_Types r) (cp_GzipStaticExtensions r) (cp_Level r) x (cp_GzipStatic r).
Definition set_sec_ErrorPage (x : ErrorPageConfig) (r : SecurityConfig) : SecurityConfig :=
  mkSecurityConfig (sec_Headers r) (sec_Access r) x (sec_Auth r) (sec_AuthRequest r) (sec_RateLimit r) (sec_CORS
    r).
Definition set_sec_Auth (x : AuthConfig) (r : SecurityConfig) : SecurityConfig :=
  mkSecurityConfig (sec_Headers r) (sec_Access r) (sec_ErrorPage r) x (sec_AuthRequest r) (sec_RateLimit r)
    (sec_CORS r).
Definition set_ep_Pages (x : gmap Z gostring) (r : ErrorPageConfig) : ErrorPageConfig :=
  mkErrorPageConfig x (ep_Default r) (ep_ResponseCode r).
Definition set_au_Type (x : gostring) (r : AuthConfig) : AuthConfig :=
  mkAuthConfig x (au_Algorithm r) (au_Realm r) (au_Users r) (au_MinPasswordLength r) (au_RequireTLS r).
Definition set_au_Realm (x : gostring) (r : AuthConfig) : AuthConfig :=
  mkAuthConfig (au_Type r) (au_Algorithm r) x (au_Users r) (au_MinPasswordLength r) (au_RequireTLS r).
Definition set_st_Path (x : gostring) (r : StaticConfig) : StaticConfig :=
  mkStaticConfig x (st_Root r) (st_Alias r) (st_Index r) (st_TryFiles r) (st_TryFilesPass r) (st_SymlinkCheck r)
    (st_LocationType r) (st_Internal r) (st_Expires r) (st_AutoIndex r) (st_AutoIndexFormat r)
    (st_AutoIndexLocaltime r) (st_AutoIndexExactSize r).
Definition set_st_Root (x : gostring) (r : StaticConfig) : StaticConfig :=
  mkStaticConfig (st_Path r) x (st_Alias r) (st_Index r) (st_TryFiles r) (st_TryFilesPass r) (st_SymlinkCheck r)
    (st_LocationType r) (st_Internal r) (st_Expires r) (st_AutoIndex r) (st_AutoIndexFormat r)
    (st_AutoIndexLocaltime r) (st_AutoIndexExactSize r).
Definition set_st_Alias (x : gostring) (r : StaticConfig) : StaticConfig :=
  mkStaticConfig (st_Path r) (st_Root r) x (st_Index r) (st_TryFiles r) (st_TryFilesPass r) (st_SymlinkCheck r)
    (st_LocationType r) (st_Internal r) (st_Expires r) (st_AutoIndex r) (st_AutoIndexFormat r)
    (st_AutoIndexLocaltime r) (st_AutoIndexExactSize r).
Definition set_st_Index (x : list gostring) (r : StaticConfig) : StaticConfig :=
  mkStaticConfig (st_Path r) (st_Root r) (st_Alias r) x (st_TryFiles r) (st_TryFilesPass r) (st_SymlinkCheck r)
    (st_LocationType r) (st_Internal r) (st_Expires r) (st_AutoIndex r) (st_AutoIndexFormat r)
    (st_AutoIndexLocaltime r) (st_AutoIndexExactSize r).
Definition set_st_TryFiles (x : list gostring) (r : StaticConfig) : StaticConfig :=
  mkStaticConfig (st_Path r) (st_Root r) (st_Alias r) (st_Index r) x (st_TryFilesPass r) (st_SymlinkCheck r)
    (st_LocationType r) (st_Internal r) (st_Expires r) (st_AutoIndex r) (st_AutoIndexFormat r)
    (st_AutoIndexLocaltime r) (st_AutoIndexExactSize r).
Definition set_st_LocationType (x : gostring) (r : StaticConfig) : StaticConfig :=
  mkStaticConfig (st_Path r) (st_Root r) (st_Alias r) (st_Index r) (st_TryFiles r) (st_TryFilesPass r)
    (st_SymlinkCheck r) x (st_Internal r) (st_Expires r) (st_AutoIndex r) (st_AutoIndexFormat r)
    (st_AutoIndexLocaltime r) (st_AutoIndexExactSize r).
Definition set_st_Expires (x : gostring) (r : StaticConfig) : StaticConfig :=
  mkStaticConfig (st_Path r) (st_Root r) (st_Alias r) (st_Index r) (st_TryFiles r) (st_TryFilesPass r)
    (st_SymlinkCheck r) (st_LocationType r) (st_Internal r) x (st_AutoIndex r) (st_AutoIndexFormat r)
    (st_AutoIndexLocaltime r) (st_AutoIndexExactSize r).
Definition set_px_RedirectRewrite (x : option RedirectRewriteConfig) (r : ProxyConfig) : ProxyConfig :=
  mkProxyConfig x (px_ProxySSL r) (px_CacheValid r) (px_Buffering r) (px_Targets r) (px_Path r) (px_LoadBalance r)
    (px_HashKey r) (px_ClientMaxBodySize r) (px_ProxyBind r) (px_Headers r) (px_BalancerByLua r) (px_HealthCheck r)
    (px_NextUpstream r) (px_Cache r) (px_Timeout r) (px_LeastTime r) (px_Sticky r) (px_VirtualNodes r)
    (px_LocationType r) (px_LocationName r) (px_Internal r).
Definition set_px_CacheValid (x : option CacheValid) (r : ProxyConfig) : ProxyConfig :=
  mkProxyConfig (px_RedirectRewrite r) (px_ProxySSL r) x (px_Buffering r) (px_Targets r) (px_Path r)
    (px_LoadBalance r) (px_HashKey r) (px_ClientMaxBodySize r) (px_ProxyBind r) (px_Headers r) (px_BalancerByLua r)
    (px_HealthCheck r) (px_NextUpstream r) (px_Cache r) (px_Timeout r) (px_LeastTime r) (px_Sticky r)
    (px_VirtualNodes r) (px_LocationType r) (px_LocationName r) (px_Internal r).
Definition set_px_Targets (x : list ProxyTarget) (r : ProxyConfig) : ProxyConfig :=
  mkProxyConfig (px_RedirectRewrite r) (px_ProxySSL r) (px_CacheValid r) (px_Buffering r) x (px_Path r)
    (px_LoadBalance r) (px_HashKey r) (px_ClientMaxBodySize r) (px_ProxyBind r) (px_Headers r) (px_BalancerByLua r)
    (px_HealthCheck r) (px_NextUpstream r) (px_Cache r) (px_Timeout r) (px_LeastTime r) (px_Sticky r)
    (px_VirtualNodes r) (px_LocationType r) (px_LocationName r) (px_Internal r).
Definition set_px_Path (x : gostring) (r : ProxyConfig) : ProxyConfig :=
  mkProxyConfig (px_RedirectRewrite r) (px_ProxySSL r) (px_CacheValid r) (px_Buffering r) (px_Targets r) x
    (px_LoadBalance r) (px_HashKey r) (px_ClientMaxBodySize r) (px_ProxyBind r) (px_Headers r) (px_BalancerByLua r)
    (px_HealthCheck r) (px_NextUpstream r) (px_Cache r) (px_Timeout r) (px_LeastTime r) (px_Sticky r)
    (px_VirtualNodes r) (px_LocationType r) (px_LocationName r) (px_Internal r).
Definition set_px_LoadBalance (x : gostring) (r : ProxyConfig) : ProxyConfig :=
  mkProxyConfig (px_RedirectRewrite r) (px_ProxySSL r) (px_CacheValid r) (px_Buffering r) (px_Targets r) (px_Path
    r) x (px_HashKey r) (px_ClientMaxBodySize r) (px_ProxyBind r) (px_Headers r) (px_BalancerByLua r)
    (px_HealthCheck r) (px_NextUpstream r) (px_Cache r) (px_Timeout r) (px_LeastTime r) (px_Sticky r)
    (px_VirtualNodes r) (px_LocationType r) (px_LocationName r) (px_Internal r).
Definition set_px_Headers (x : ProxyHeaders) (r : ProxyConfig) : ProxyConfig :=
  mkProxyConfig (px_RedirectRewrite r) (px_ProxySSL r) (px_CacheValid r) (px_Buffering r) (px_Targets r) (px_Path
    r) (px_LoadBalance r) (px_HashKey r) (px_ClientMaxBodySize r) (px_ProxyBind r) x (px_BalancerByLua r)
    (px_HealthCheck r) (px_NextUpstream r) (px_Cache r) (px_Timeout r) (px_LeastTime r) (px_Sticky r)
    (px_VirtualNodes r) (px_LocationType r) (px_LocationName r) (px_Internal r).
Definition set_px_Cache (x : ProxyCacheConfig) (r : ProxyConfig) : ProxyConfig :=
  mkProxyConfig (px_RedirectRewrite r) (px_ProxySSL r) (px_CacheValid r) (px_Buffering r) (px_Targets r) (px_Path
    r) (px_LoadBalance r) (px_HashKey r) (px_ClientMaxBodySize r) (px_ProxyBind r) (px_Headers r) (px_BalancerByLua
    r) (px_HealthCheck r) (px_NextUpstream r) x (px_Timeout r) (px_LeastTime r) (px_Sticky r) (px_VirtualNodes r)
    (px_LocationType r) (px_LocationName r) (px_Internal r).
Definition set_px_Timeout (x : ProxyTimeout) (r : ProxyConfig) : ProxyConfig :=
  mkProxyConfig (px_RedirectRewrite r) (px_ProxySSL r) (px_CacheValid r) (px_Buffering r) (px_Targets r) (px_Path
    r) (px_LoadBalance r) (px_HashKey r) (px_ClientMaxBodySize r) (px_ProxyBind r) (px_Headers r) (px_BalancerByLua
    r) (px_HealthCheck r) (px_NextUpstream r) (px_Cache r) x (px_LeastTime r) (px_Sticky r) (px_VirtualNodes r)
    (px_LocationType r) (px_LocationName r) (px_Internal r).
Definition set_px_LocationType (x : gostring) (r : ProxyConfig) : ProxyConfig :=
  mkProxyConfig (px_RedirectRewrite r) (px_ProxySSL r) (px_CacheValid r) (px_Buffering r) (px_Targets r) (px_Path
    r) (px_LoadBalance r) (px_HashKey r) (px_ClientMaxBodySize r) (px_ProxyBind r) (px_Headers r) (px_BalancerByLua
    r) (px_HealthCheck r) (px_NextUpstream r) (px_Cache r) (px_Timeout r) (px_LeastTime r) (px_Sticky r)
    (px_VirtualNodes r) x (px_LocationName r) (px_Internal r).
Definition set_px_LocationName (x : gostring) (r : ProxyConfig) : ProxyConfig :=
  mkProxyConfig (px_RedirectRewrite r) (px_ProxySSL r) (px_CacheValid r) (px_Buffering r) (px_Targets r) (px_Path
    r) (px_LoadBalance r) (px_HashKey r) (px_ClientMaxBodySize r) (px_ProxyBind r) (px_Headers r) (px_BalancerByLua
    r) (px_HealthCheck r) (px_NextUpstream r) (px_Cache r) (px_Timeout r) (px_LeastTime r) (px_Sticky r)
    (px_VirtualNodes r) (px_LocationType r) x (px_Internal r).
Definition set_hd_SetRequest (x : gmap gostring gostring) (r : ProxyHeaders) : ProxyHeaders :=
  mkProxyHeaders x (hd_SetResponse r) (hd_Remove r) (hd_HideResponse r) (hd_PassResponse r) (hd_IgnoreHeaders r)
    (hd_CookieDomain r) (hd_CookiePath r) (hd_SetForwardedHost r) (hd_SetForwardedProto r).
Definition set_hd_HideResponse (x : list gostring) (r : ProxyHeaders) : ProxyHeaders :=
  mkProxyHeaders (hd_SetRequest r) (hd_SetResponse r) (hd_Remove r) x (hd_PassResponse r) (hd_IgnoreHeaders r)
    (hd_CookieDomain r) (hd_CookiePath r) (hd_SetForwardedHost r) (hd_SetForwardedProto r).
Definition set_hd_PassResponse (x : list gostring) (r : ProxyHeaders) : ProxyHeaders :=
  mkProxyHeaders (hd_SetRequest r) (hd_SetResponse r) (hd_Remove r) (hd_HideResponse r) x (hd_IgnoreHeaders r)
    (hd_CookieDomain r) (hd_CookiePath r) (hd_SetForwardedHost r) (hd_SetForwardedProto r).
Definition set_pc_Enabled (x : bool) (r : ProxyCacheConfig) : ProxyCacheConfig :=
  mkProxyCacheConfig (pc_MaxAge r) (pc_StaleWhileRevalidate r) (pc_StaleIfError r) (pc_StaleIfTimeout r) x
    (pc_CacheLock r) (pc_Methods r) (pc_MinUses r) (pc_CacheLockTimeout r) (pc_BackgroundUpdateDisable r)
    (pc_CacheIgnoreHeaders r) (pc_Vary r) (pc_Revalidate r).
Definition set_to_Connect (x : Z) (r : ProxyTimeout) : ProxyTimeout :=
  mkProxyTimeout (to_Dial r) x (to_Read r) (to_Write r).
Definition set_to_Read (x : Z) (r : ProxyTimeout) : ProxyTimeout :=
  mkProxyTimeout (to_Dial r) (to_Connect r) x (to_Write r).
Definition set_to_Write (x : Z) (r : ProxyTimeout) : ProxyTimeout :=
  mkProxyTimeout (to_Dial r) (to_Connect r) (to_Read r) x.
Definition set_tg_URL (x : gostring) (r : ProxyTarget) : ProxyTarget :=
  mkProxyTarget x (tg_Weight r) (tg_MaxConns r) (tg_MaxFails r) (tg_FailTimeout r) (tg_Backup r) (tg_Down r)
    (tg_ProxyURI r).
Definition set_tg_Weight (x : Z) (r : ProxyTarget) : ProxyTarget :=
  mkProxyTarget (tg_URL r) x (tg_MaxConns r) (tg_MaxFails r) (tg_FailTimeout r) (tg_Backup r) (tg_Down r)
    (tg_ProxyURI r).
Definition set_tg_MaxFails (x : Z) (r : ProxyTarget) : ProxyTarget :=
  mkProxyTarget (tg_URL r) (tg_Weight r) (tg_MaxConns r) x (tg_FailTimeout r) (tg_Backup r) (tg_Down r)
    (tg_ProxyURI r).
Definition set_tg_FailTimeout (x : Z) (r : ProxyTarget) : ProxyTarget :=
  mkProxyTarget (tg_URL r) (tg_Weight r) (tg_MaxConns r) (tg_MaxFails r) x (tg_Backup r) (tg_Down r) (tg_ProxyURI
    r).
Definition set_tg_Backup (x : bool) (r : ProxyTarget) : ProxyTarget :=
  mkProxyTarget (tg_URL r) (tg_Weight r) (tg_MaxConns r) (tg_MaxFails r) (tg_FailTimeout r) x (tg_Down r)
    (tg_ProxyURI r).
Definition set_tg_Down (x : bool) (r : ProxyTarget) : ProxyTarget :=
  mkProxyTarget (tg_URL r) (tg_Weight r) (tg_MaxConns r) (tg_MaxFails r) (tg_FailTimeout r) (tg_Backup r) x
    (tg_ProxyURI r).
Definition set_lg_Access (x : AccessLogConfig) (r : LoggingConfig) : LoggingConfig :=
  mkLoggingConfig (lg_Format r) x (lg_Error r).
Definition set_lg_Error (x : ErrorLogConfig) (r : LoggingConfig) : LoggingConfig :=
  mkLoggingConfig (lg_Format r) (lg_Access r) x.
Definition set_al_Path (x : gostring) (r : AccessLogConfig) : AccessLogConfig :=
  mkAccessLogConfig x (al_Format r) (al_SampleRate r).
Definition set_al_Format (x : gostring) (r : AccessLogConfig) : AccessLogConfig :=
  mkAccessLogConfig (al_Path r) x (al_SampleRate r).
Definition set_el_Path (x : gostring) (r : ErrorLogConfig) : ErrorLogConfig :=
  mkErrorLogConfig x (el_Level r).
Definition set_el_Level (x : gostring) (r : ErrorLogConfig) : ErrorLogConfig :=
  mkErrorLogConfig (el_Path r) x.
Definition set_v_OK (x : Z) (r : CacheValid) : CacheValid :=
  mkValid x (v_Redirect r) (v_NotFound r) (v_ClientError r) (v_ServerError r).
Definition set_v_Redirect (x : Z) (r : CacheValid) : CacheValid :=
  mkValid (v_OK r) x (v_NotFound r) (v_ClientError r) (v_ServerError r).
Definition set_v_NotFound (x : Z) (r : CacheValid) : CacheValid :=
  mkValid (v_OK r) (v_Redirect r) x (v_ClientError r) (v_ServerError r).
Definition set_v_ClientError (x : Z) (r : CacheValid) : CacheValid :=
  mkValid (v_OK r) (v_Redirect r) (v_NotFound r) x (v_ServerError r).
Definition set_v_ServerError (x : Z) (r : CacheValid) : CacheValid :=
  mkValid (v_OK r) (v_Redirect r) (v_NotFound r) (v_ClientError r) x.
Definition set_cfg_Servers (x : list ServerConfig) (r : Config) : Config :=
  mkConfig (cfg_Mode r) (cfg_Variables r) (cfg_Logging r) x (cfg_Stream r) (cfg_Monitoring r) (cfg_HTTP3 r)
    (cfg_Resolver r) (cfg_Performance r) (cfg_Shutdown r) (cfg_Include r).
Definition set_cfg_Logging (x : LoggingConfig) (r : Config) : Config :=
  mkConfig (cfg_Mode r) (cfg_Variables r) x (cfg_Servers r) (cfg_Stream r) (cfg_Monitoring r) (cfg_HTTP3 r)
    (cfg_Resolver r) (cfg_Performance r) (cfg_Shutdown r) (cfg_Include r).
