(* ===== verification/Validate.v ===== *)
(** * Validate: which configurations are accepted

    [src/internal/config/validate.go], and [Validate], [validateShutdown] and
    [ResolverConfig.Validate] beside it.  An error is what is wrong and the path of
    fields that [fmt.Errorf] puts before it; [None] is Go's [nil].  The resolver of
    listen addresses, regular expressions and the order in which Go ranges over a map
    are parameters.  Shown: what an accepted configuration guarantees, that an accepted
    section builds the middleware it configures, and where it does not. *)

From S2P Require Import Prelude GoStrings NetIP Access RateLimit ReqVars Config.
From S2P Require Balancer Location.

(** [regexp.Compile] and the addresses that [net] resolves. *)
Section Validate.
Context `{Location.Regexp} (ResolveTCPAddr ResolveUDPAddr : gostring → bool).
Context (range : gmap gostring gostring → list gostring).

Inductive verror :=
  | Missing (what : string)
  | Invalid (what : string) (value : gostring)
  | OutOfRange (what : string) (value : Z)
  | Forbidden (what : string)
  | BadChar (what : string) (position : nat)
  | Duplicate (what : string) (value : gostring) (i j : nat)
  | Path (context : string) (e : verror)
  | Item (context : string) (i : nat) (e : verror).

(** ** Combinators: the first error, a test, a wrapped error, an indexed loop *)

Fixpoint first_error (l : list (option verror)) : option verror :=
  match l with
  | [] => None
  | Some e :: _ => Some e
  | None :: l => first_error l
  end.

Definition refuse (b : bool) (e : verror) : option verror := if b then Some e else None.
Definition under (context : string) (o : option verror) : option verror := Path context <$> o.

Definition each {A} (context : string) (f : A → option verror) (l : list A) : option verror :=
  first_error (imap (λ i x, Item context i <$> f x) l).

Definition is_in (s : gostring) (l : list string) : bool := bool_decide (s ∈ list_ascii_of_string <$> l).

Definition ValidateEnum (value : gostring) (valid : list string) (field : string) : option verror :=
  refuse (negb (is_in value valid)) (Invalid field value).

Definition ValidateNonNegative (value : Z) (field : string) : option verror :=
  refuse (value <? 0) (OutOfRange field value).

Definition ValidateNonNegativeDuration := ValidateNonNegative.

Definition ValidateNoNullByte (s : gostring) (field : string) : option verror :=
  refuse (GoStrings.Contains s ["000"%char]) (Forbidden field).

Definition ValidatePathTraversal (path : gostring) (field : string) : option verror :=
  refuse (GoStrings.Contains path (go!"..")) (Forbidden field).

Definition is_empty {A} (l : list A) : bool := match l with [] => true | _ => false end.
Definition ContainsAny (s : gostring) (chars : list ascii) : bool := existsb (λ c, bool_decide (c ∈ chars)) s.
Definition separators : list ascii := ["/"; "\"]%char.

(** ** Servers as a whole *)

Definition validateDefaultServer (servers : list ServerConfig) : option verror :=
  refuse (1 <? length (filter (λ s, srv_Default s = true) servers))%nat (Forbidden "default").

Definition validateMode (mode : ServerMode) : option verror :=
  if bool_decide (mode = []) || bool_decide (mode = ServerModeAuto) then None
  else ValidateEnum mode ["single"; "vhost"; "multi_server"; "auto"]%string "mode".

Definition listen_key (s : ServerConfig) : gostring := srv_Listen s ++ go!"|" ++ srv_Name s.

Fixpoint conflicts_loop (i : nat) (seen : gmap gostring nat) (servers : list ServerConfig) : option verror :=
  match servers with
  | [] => None
  | s :: servers =>
      if is_empty (srv_Listen s) then Some (Item "servers" i (Missing "listen"))
      else
        match seen !! listen_key s with
        | Some j => Some (Duplicate "listen" (srv_Listen s) j i)
        | None => conflicts_loop (S i) (<[listen_key s := i]> seen) servers
        end
  end.

Definition validateListenConflicts (servers : list ServerConfig) (mode : ServerMode) : option verror :=
  if decide (mode = ServerModeMultiServer) then conflicts_loop 0 ∅ servers else None.

(** ** Static files *)

Definition dangerousExtensions : list string :=
  ["php"; "php3"; "php4"; "php5"; "phtml"; "exe"; "bat"; "cmd"; "sh"; "bash"; "cgi"; "pl"; "py"; "rb";
   "asp"; "aspx"; "jsp"]%string.

Definition is_letter (c : ascii) : bool := is_lower c || is_upper c.

(** The loops over characters look at bytes: a byte that is not ASCII begins a rune
    that is not allowed, at the same position. *)
Fixpoint bad_char (allowed : ascii → bool) (what : string) (i : nat) (s : gostring) : option verror :=
  match s with
  | [] => None
  | c :: s => if allowed c then bad_char allowed what (S i) s else Some (BadChar what i)
  end.

Definition extension_char (c : ascii) : bool :=
  is_letter c || is_digit c || bool_decide (c ∈ ["."; "_"; "-"]%char).

Definition dangerous (ext : gostring) : bool :=
  existsb (λ d, bool_decide (ToLower ext = list_ascii_of_string d) ||
                HasSuffix (ToLower ext) ("."%char :: list_ascii_of_string d)) dangerousExtensions.

Definition validateTryFilesExtension (ext : gostring) : option verror :=
  first_error [
    refuse (is_empty ext) (Missing "extension");
    refuse (ContainsAny ext separators) (Forbidden "separator");
    ValidateNoNullByte ext "extension";
    bad_char extension_char "extension" 0 ext;
    refuse (dangerous ext) (Forbidden "dangerous extension")].

Definition validateTryFilesFilename (filename : gostring) : option verror :=
  first_error [
    refuse (is_empty filename) (Missing "filename");
    refuse (GoStrings.Contains filename (go!"..")) (Forbidden "traversal");
    refuse (ContainsAny filename separators) (Forbidden "separator");
    ValidateNoNullByte filename "filename"].

Definition validateTryFilesPattern (pattern : gostring) : option verror :=
  first_error [
    refuse (is_empty pattern) (Missing "try_files");
    ValidateNoNullByte pattern "try_files";
    if is_in pattern ["$uri"; "$uri/"]%string then None
    else if HasPrefix pattern (go!"$uri.") then under "try_files" (validateTryFilesExtension (drop 5 pattern))
    else if HasPrefix pattern (go!"/") then refuse (GoStrings.Contains pattern (go!"..")) (Forbidden "traversal")
    else under "try_files" (validateTryFilesFilename pattern)].

Definition static_path (s : StaticConfig) : gostring := if is_empty (st_Path s) then go!"/" else st_Path s.

Definition validateStatic (s : StaticConfig) : option verror :=
  first_error [
    refuse (negb (is_empty (st_Root s)) && negb (is_empty (st_Alias s))) (Forbidden "root and alias");
    ValidatePathTraversal (st_Root s) "root";
    ValidatePathTraversal (st_Alias s) "alias";
    each "try_files" validateTryFilesPattern (st_TryFiles s);
    if st_AutoIndex s then ValidateEnum (st_AutoIndexFormat s) [""; "html"; "json"; "xml"]%string "auto_index_format"
    else None].

Fixpoint statics_loop (i : nat) (paths : gmap gostring nat) (statics : list StaticConfig) : option verror :=
  match statics with
  | [] => None
  | s :: statics =>
      match paths !! static_path s with
      | Some j => Some (Duplicate "path" (static_path s) j i)
      | None =>
          match validateStatic s with
          | Some e => Some (Item "static" i e)
          | None => statics_loop (S i) (<[static_path s := i]> paths) statics
          end
      end
  end.

Definition validateStatics (statics : list StaticConfig) : option verror := statics_loop 0 ∅ statics.

(** The table of static paths: the last index wins. *)
Definition static_paths (statics : list StaticConfig) : gmap gostring nat :=
  foldl (λ m '(i, s), <[static_path s := i]> m) ∅ (imap pair statics).

Definition validatePathConflicts (s : ServerConfig) : option verror :=
  first_error (imap (λ i p,
    j ← static_paths (srv_Static s) !! px_Path p; Some (Duplicate "path" (px_Path p) j i)) (srv_Proxy s)).

(** ** Proxies *)

Definition validateNextUpstream (n : NextUpstreamConfig) : option verror :=
  if (nu_Tries n =? 0) && is_empty (nu_HTTPCodes n) then None
  else first_error [
    ValidateNonNegative (nu_Tries n) "tries";
    each "http_codes" (λ code, refuse ((code <? 100) || (599 <? code)) (OutOfRange "code" code)) (nu_HTTPCodes n)].

Definition compiles (s : gostring) : bool := bool_decide (is_Some (Location.regexp_Compile s)).

Definition validateRewriteRule (rule : RedirectRewriteRule) : option verror :=
  let pattern := rrr_Pattern rule in
  first_error [
    refuse (is_empty pattern) (Missing "pattern");
    if HasPrefix pattern (go!"~") then
      refuse (negb (compiles (if HasPrefix pattern (go!"~*") then drop 2 pattern else drop 1 pattern)))
        (Invalid "regex" pattern)
    else None].

Definition validateRedirectRewrite (cfg : option RedirectRewriteConfig) : option verror :=
  match cfg with
  | None => None
  | Some cfg => first_error [
      refuse (negb (is_in (rr_Mode cfg) [""; "default"; "off"; "custom"]%string)) (Invalid "mode" (rr_Mode cfg));
      refuse (is_in (rr_Mode cfg) ["custom"]%string && is_empty (rr_Rules cfg)) (Missing "rules");
      each "rules" validateRewriteRule (rr_Rules cfg)]
  end.

Definition validateTarget (t : ProxyTarget) : option verror :=
  first_error [
    refuse (is_empty (tg_URL t)) (Missing "url");
    refuse (negb (HasPrefix (tg_URL t) (go!"http://")) && negb (HasPrefix (tg_URL t) (go!"https://")))
      (Invalid "url" (tg_URL t))].

Definition validateLeastTime (l : LeastTimeConfig) : option verror :=
  first_error [
    refuse (negb (is_in (lt_Metric l) [""; "header"; "last_byte"]%string)) (Invalid "metric" (lt_Metric l));
    refuse (lt_DefaultTime l <? 0) (OutOfRange "default_time" (lt_DefaultTime l))].

Definition validateSticky (s : StickyConfig) : option verror :=
  first_error [
    refuse (negb (sk_Enabled s)) (Forbidden "sticky");
    refuse (negb (is_empty (sk_FallbackAlgo s)) && negb (Balancer.IsValidAlgorithm (sk_FallbackAlgo s)))
      (Invalid "fallback_balance" (sk_FallbackAlgo s));
    refuse (negb (is_in (sk_SameSite s) [""; "Lax"; "Strict"; "None"]%string)) (Invalid "same_site" (sk_SameSite s))].

Definition regex_location (p : ProxyConfig) : bool := is_in (px_LocationType p) ["regex"; "regex_caseless"]%string.

Definition validateProxy (p : ProxyConfig) : option verror :=
  first_error [
    refuse (is_empty (px_Path p)) (Missing "path");
    refuse (is_empty (px_Targets p)) (Missing "targets");
    each "targets" validateTarget (px_Targets p);
    refuse (negb (Balancer.IsValidAlgorithm (px_LoadBalance p))) (Invalid "load_balance" (px_LoadBalance p));
    if is_in (px_LoadBalance p) ["least_time"]%string then validateLeastTime (px_LeastTime p) else None;
    if is_in (px_LoadBalance p) ["sticky"]%string then validateSticky (px_Sticky p) else None;
    under "next_upstream" (validateNextUpstream (px_NextUpstream p));
    refuse (negb (is_empty (px_HashKey p)) && negb (HasPrefix (px_HashKey p) (go!"header:")) &&
            negb (is_in (px_HashKey p) ["ip"; "uri"]%string)) (Invalid "hash_key" (px_HashKey p));
    under "redirect_rewrite" (validateRedirectRewrite (px_RedirectRewrite p));
    ValidateEnum (px_LocationType p)
      [""; "exact"; "prefix_priority"; "regex"; "regex_caseless"; "prefix"; "named"]%string "location_type";
    refuse (regex_location p && is_empty (px_Path p)) (Missing "path");
    refuse (regex_location p && negb (compiles (px_Path p))) (Invalid "path" (px_Path p));
    refuse (is_in (px_LocationType p) ["named"]%string && is_empty (px_LocationName p)) (Missing "location_name")].

(** ** TLS *)

Definition validateHTTP2 (h : HTTP2Config) (hasSSL : bool) : option verror :=
  first_error [
    refuse (h2_Enabled h && negb hasSSL && negb (h2_H2CEnabled h)) (Forbidden "http2 without tls");
    ValidateNonNegative (h2_MaxConcurrentStreams h) "max_concurrent_streams";
    ValidateNonNegative (h2_MaxHeaderListSize h) "max_header_list_size";
    ValidateNonNegativeDuration (h2_IdleTimeout h) "idle_timeout"].

Definition insecureCiphers : list string := ["RC4"; "DES"; "3DES"; "CBC"]%string.

Definition validateProtocol (proto : gostring) : option verror :=
  first_error [
    refuse (is_in proto ["TLSv1.0"; "TLSv1.1"]%string) (Forbidden "tls version");
    refuse (negb (is_in proto ["TLSv1.2"; "TLSv1.3"]%string)) (Invalid "tls version" proto)].

Definition validateCipher (cipher : gostring) : option verror :=
  refuse (existsb (λ i, GoStrings.Contains cipher (list_ascii_of_string i)) insecureCiphers) (Invalid "cipher" cipher).

Definition validateSSL (s : SSLConfig) : option verror :=
  let hasCert := negb (is_empty (ssl_Cert s)) in
  let hasKey := negb (is_empty (ssl_Key s)) in
  first_error [
    under "http2" (validateHTTP2 (ssl_HTTP2 s) (hasCert && hasKey));
    if negb hasCert && negb hasKey then None
    else first_error [
      refuse (negb hasCert || negb hasKey) (Missing "cert and key");
      first_error (validateProtocol <$> ssl_Protocols s);
      first_error (validateCipher <$> ssl_Ciphers s)]].

(** ** Security *)

Definition validateCORS (c : CORSConfig) : option verror :=
  if negb (co_Enabled c) then None
  else first_error [
    refuse (is_empty (co_AllowedOrigins c)) (Missing "allowed_origins");
    refuse (bool_decide (go!"*" ∈ co_AllowedOrigins c) && co_AllowCredentials c) (Forbidden "allow_credentials");
    refuse (co_MaxAge c <? 0) (OutOfRange "max_age" (co_MaxAge c))].

Definition isValidCountryCode (code : gostring) : bool := (length code =? 2)%nat && forallb is_upper code.

Definition validateGeoIP (g : GeoIPConfig) : option verror :=
  if negb (g_Enabled g) then None
  else first_error [
    refuse (is_empty (g_Database g)) (Missing "database");
    first_error ((λ c, refuse (negb (isValidCountryCode c)) (Invalid "allow_countries" c)) <$> AllowCountries g);
    first_error ((λ c, refuse (negb (isValidCountryCode c)) (Invalid "deny_countries" c)) <$> DenyCountries g);
    refuse (negb (is_in (PrivateIPBehavior g) [""; "allow"; "deny"; "bypass"]%string))
      (Invalid "private_ip_behavior" (PrivateIPBehavior g));
    ValidateNonNegative (CacheSize g) "cache_size";
    ValidateNonNegativeDuration (CacheTTL g) "cache_ttl";
    refuse (negb (is_in (g_Default g) [""; "allow"; "deny"]%string)) (Invalid "default" (g_Default g))].

Definition is_cidr_or_ip (s : gostring) : bool :=
  match net_ParseCIDR s with Some _ => true | None => bool_decide (is_Some (ParseIP s)) end.

Definition validateAccess (a : AccessConfig) : option verror :=
  first_error [
    first_error ((λ s, refuse (negb (is_cidr_or_ip s)) (Invalid "allow" s)) <$> c_Allow a);
    first_error ((λ s, refuse (negb (is_cidr_or_ip s)) (Invalid "deny" s)) <$> c_Deny a);
    refuse (negb (is_in (c_Default a) [""; "allow"; "deny"]%string)) (Invalid "default" (c_Default a));
    under "geoip" (validateGeoIP (c_GeoIP a))].

Definition validateUser (u : User) : option verror :=
  first_error [
    refuse (is_empty (u_Name u)) (Missing "name");
    refuse (is_empty (u_Password u)) (Missing "password")].

Definition validateAuth (a : AuthConfig) : option verror :=
  if is_empty (au_Type a) then None
  else first_error [
    refuse (negb (is_in (au_Type a) ["basic"]%string)) (Invalid "type" (au_Type a));
    ValidateEnum (au_Algorithm a) [""; "bcrypt"; "argon2id"]%string "algorithm";
    refuse (is_empty (au_Users a)) (Missing "users");
    each "users" validateUser (au_Users a);
    refuse ((0 <? au_MinPasswordLength a) && (au_MinPasswordLength a <? 6))
      (OutOfRange "min_password_length" (au_MinPasswordLength a));
    refuse (128 <? au_MinPasswordLength a) (OutOfRange "min_password_length" (au_MinPasswordLength a))].

Definition validateRateLimit (r : RateLimitConfig) : option verror :=
  if (RequestRate r =? 0) && (ConnLimit r =? 0) then None
  else first_error [
    ValidateNonNegative (RequestRate r) "request_rate";
    ValidateNonNegative (Burst r) "burst";
    ValidateNonNegative (ConnLimit r) "conn_limit";
    ValidateEnum (Key r) [""; "ip"; "header"]%string "key";
    ValidateEnum (Algorithm r) [""; "token_bucket"; "sliding_window"]%string "algorithm";
    ValidateEnum (SlidingWindowMode r) [""; "approximate"; "precise"]%string "sliding_window_mode"].

Definition validateSecurityHeaders (h : SecurityHeaders) : option verror :=
  first_error [
    refuse (negb (is_in (sh_XFrameOptions h) [""; "DENY"; "SAMEORIGIN"]%string))
      (Invalid "x_frame_options" (sh_XFrameOptions h));
    refuse (negb (is_in (sh_ReferrerPolicy h)
        [""; "no-referrer"; "no-referrer-when-downgrade"; "origin"; "origin-when-cross-origin"; "same-origin";
         "strict-origin"; "strict-origin-when-cross-origin"; "unsafe-url"]%string))
      (Invalid "referrer_policy" (sh_ReferrerPolicy h))].

Definition validateSecurity (s : SecurityConfig) : option verror :=
  first_error [
    under "access" (validateAccess (sec_Access s));
    under "auth" (validateAuth (sec_Auth s));
    under "rate_limit" (validateRateLimit (sec_RateLimit s));
    under "headers" (validateSecurityHeaders (sec_Headers s));
    under "cors" (validateCORS (sec_CORS s))].

(** ** The other sections *)

Definition validateCompression (c : CompressionConfig) : option verror :=
  if is_empty (cp_Type c) then None
  else first_error [
    ValidateEnum (cp_Type c) ["gzip"; "brotli"; "both"]%string "type";
    refuse ((cp_Level c <? 0) || (9 <? cp_Level c)) (OutOfRange "level" (cp_Level c));
    ValidateNonNegative (cp_MinSize c) "min_size"].

Definition validateRewrite (r : RewriteRule) : option verror :=
  first_error [
    refuse (is_empty (rw_Pattern r)) (Missing "pattern");
    refuse (negb (is_in (rw_Flag r) [""; "last"; "redirect"; "permanent"; "break"]%string)) (Invalid "flag" (rw_Flag r))].

Definition validateLogging (l : LoggingConfig) : option verror :=
  first_error [
    ValidateEnum (lg_Format l) [""; "text"; "json"]%string "format";
    ValidateEnum (el_Level (lg_Error l)) [""; "debug"; "info"; "warn"; "error"]%string "level"].

Definition validateStreamTarget (t : StreamTarget) : option verror := refuse (is_empty (stt_Addr t)) (Missing "addr").

Definition validateStream (s : StreamConfig) : option verror :=
  first_error [
    refuse (is_empty (sm_Listen s)) (Missing "listen");
    refuse (negb (is_in (sm_Protocol s) ["tcp"; "udp"]%string)) (Invalid "protocol" (sm_Protocol s));
    refuse (is_empty (su_Targets (sm_Upstream s))) (Missing "targets");
    each "upstream.targets" validateStreamTarget (su_Targets (sm_Upstream s));
    refuse (negb (Balancer.IsValidAlgorithm (su_LoadBalance (sm_Upstream s))))
      (Invalid "load_balance" (su_LoadBalance (sm_Upstream s)))].

Definition validatePerformance (p : PerformanceConfig) : option verror :=
  ValidateNonNegative (tr_MaxConnsPerHost (pf_Transport p)) "max_conns_per_host".

Definition variable_char (c : ascii) : bool := is_letter c || is_digit c || Ascii.eqb c "_".

Definition validateVariable (name : gostring) : option verror :=
  first_error [
    refuse (is_empty name) (Missing "name");
    bad_char variable_char "name" 0 name;
    refuse (HasPrefix name (go!"arg_") || HasPrefix name (go!"http_") || HasPrefix name (go!"cookie_"))
      (Invalid "name" name);
    refuse (GetBuiltin name) (Duplicate "name" name 0 0)].

Definition validateVariables (v : VariablesConfig) : option verror :=
  first_error (validateVariable <$> range (vr_Set v)).

Definition validateScript (script : LuaScriptConfig) : option verror :=
  first_error [
    refuse (is_empty (ls_Path script)) (Missing "path");
    refuse (negb (is_empty (ls_Route script)) && negb (is_empty (ls_Phase script))) (Forbidden "route and phase");
    refuse (negb (is_empty (ls_Phase script)) &&
            negb (is_in (ls_Phase script) ["rewrite"; "access"; "content"; "log"; "header_filter"; "body_filter"]%string))
      (Invalid "phase" (ls_Phase script));
    if is_empty (ls_Route script) then None
    else first_error [
      refuse (negb (is_in (ls_RouteType script)
          [""; "exact"; "prefix"; "prefix_priority"; "regex"; "regex_caseless"]%string))
        (Invalid "route_type" (ls_RouteType script));
      refuse (is_in (ls_RouteType script) ["regex"; "regex_caseless"]%string && negb (compiles (ls_Route script)))
        (Invalid "route" (ls_Route script))];
    ValidateNonNegativeDuration (ls_Timeout script) "timeout"].

Definition validateLua (l : option LuaMiddlewareConfig) : option verror :=
  match l with
  | None => None
  | Some l =>
      let g := lua_GlobalSettings l in
      if negb (lua_Enabled l) then None
      else first_error [
        each "scripts" validateScript (lua_Scripts l);
        ValidateNonNegative (lgs_MaxConcurrentCoroutines g) "max_concurrent_coroutines";
        refuse ((0 <? lgs_MaxConcurrentCoroutines g) && (lgs_MaxConcurrentCoroutines g <? 1))
          (OutOfRange "max_concurrent_coroutines" (lgs_MaxConcurrentCoroutines g));
        ValidateNonNegativeDuration (lgs_CoroutineTimeout g) "coroutine_timeout";
        ValidateNonNegative (lgs_CodeCacheSize g) "code_cache_size";
        ValidateNonNegativeDuration (lgs_MaxExecutionTime g) "max_execution_time"]
  end.

Definition ResolverValidate (c : ResolverConfig) : option verror :=
  if negb (rs_Enabled c) then None
  else first_error [
    refuse (is_empty (rs_Addresses c)) (Missing "addresses");
    first_error ((λ a, refuse (negb (ResolveUDPAddr a)) (Invalid "address" a)) <$> rs_Addresses c);
    refuse ((0 <? rs_Valid c) && (rs_Valid c <? second)) (OutOfRange "valid" (rs_Valid c));
    refuse ((0 <? rs_Timeout c) && (rs_Timeout c <? second)) (OutOfRange "timeout" (rs_Timeout c));
    refuse (negb (rs_IPv4 c) && negb (rs_IPv6 c)) (Missing "ipv4 or ipv6")].

Definition validateShutdown (cfg : ShutdownConfig) : option verror :=
  first_error [
    refuse (sd_GracefulTimeout cfg <? 0) (OutOfRange "graceful_timeout" (sd_GracefulTimeout cfg));
    refuse (sd_FastTimeout cfg <? 0) (OutOfRange "fast_timeout" (sd_FastTimeout cfg))].

(** ** A server, and the whole *)

Definition validateServer (isDefault : bool) (s : ServerConfig) : option verror :=
  first_error [
    refuse (is_empty (srv_Listen s) && negb isDefault) (Missing "listen");
    refuse (negb (is_empty (srv_Listen s)) && negb (ResolveTCPAddr (srv_Listen s))) (Invalid "listen" (srv_Listen s));
    under "static" (validateStatics (srv_Static s));
    each "proxy" validateProxy (srv_Proxy s);
    validatePathConflicts s;
    each "rewrite" validateRewrite (srv_Rewrite s);
    under "ssl" (validateSSL (srv_SSL s));
    under "security" (validateSecurity (srv_Security s));
    under "compression" (validateCompression (srv_Compression s));
    under "lua" (validateLua (srv_Lua s))].

Definition Validate (cfg : Config) : option verror :=
  first_error [
    refuse (negb (HasServers cfg)) (Missing "servers");
    validateMode (cfg_Mode cfg);
    validateListenConflicts (cfg_Servers cfg) (GetMode cfg);
    validateDefaultServer (cfg_Servers cfg);
    each "servers" (validateServer false) (cfg_Servers cfg);
    each "stream" validateStream (cfg_Stream cfg);
    validateLogging (cfg_Logging cfg);
    under "performance" (validatePerformance (cfg_Performance cfg));
    under "resolver" (ResolverValidate (cfg_Resolver cfg));
    under "variables" (validateVariables (cfg_Variables cfg));
    validateShutdown (cfg_Shutdown cfg)].

(** ** Reading the combinators *)

Lemma first_error_none l : first_error l = None ↔ ∀ o, o ∈ l → o = None.
Proof.
  induction l as [|[e|] l IH]; cbn [first_error].
  - split; [|done]. intros _ o Ho. by apply elem_of_nil in Ho.
  - split; [done|]. intros Ha. specialize (Ha (Some e)). rewrite elem_of_cons in Ha. naive_solver.
  - rewrite IH. split; intros Ha o Ho; [|apply Ha; by right].
    apply elem_of_cons in Ho as [->|Ho]; auto.
Qed.

Lemma first_error_nil : first_error [] = None ↔ True.
Proof. done. Qed.

Lemma first_error_cons o l : first_error (o :: l) = None ↔ o = None ∧ first_error l = None.
Proof. destruct o; cbn; naive_solver. Qed.

Lemma refuse_none b e : refuse b e = None ↔ b = false.
Proof. by destruct b. Qed.

Lemma each_none {A} context (f : A → option verror) l : each context f l = None ↔ ∀ x, x ∈ l → f x = None.
Proof.
  unfold each. rewrite first_error_none. split.
  - intros Ha x [i Hi]%list_elem_of_lookup. specialize (Ha (Item context i <$> f x)).
    assert (Item context i <$> f x = None) as Hn; [|by destruct (f x)].
    apply Ha. apply list_elem_of_lookup. exists i. by rewrite list_lookup_imap, Hi.
  - intros Ha o [i Hi]%list_elem_of_lookup. rewrite list_lookup_imap in Hi.
    destruct (l !! i) as [x|] eqn:E; [|done]. simplify_eq/=. rewrite Ha; [done|]. by eapply list_elem_of_lookup_2.
Qed.

Lemma under_none context o : under context o = None ↔ o = None.
Proof. by destruct o. Qed.

Lemma first_error_fmap {A} (f : A → option verror) l : first_error (f <$> l) = None ↔ ∀ x, x ∈ l → f x = None.
Proof.
  rewrite first_error_none. split; intros Ha x Hx; [apply Ha, list_elem_of_fmap_2, Hx|].
  apply list_elem_of_fmap in Hx as (y & -> & Hy). by apply Ha.
Qed.

Lemma is_empty_nil {A} (l : list A) : is_empty l = false ↔ l ≠ [].
Proof. by destruct l. Qed.

Lemma bad_char_none allowed what i s : bad_char allowed what i s = None ↔ forallb allowed s = true.
Proof. revert i. induction s as [|c s IH]; intros i; cbn; [done|]. destruct (allowed c); cbn; [apply IH|done]. Qed.

(** Close a validator's equation: [validate_split H] turns it into facts. *)
Ltac validate_split H :=
  repeat first
    [ rewrite first_error_cons in H | rewrite first_error_nil in H | rewrite refuse_none in H
    | rewrite under_none in H | rewrite each_none in H | rewrite first_error_fmap in H ].

Lemma conflicts_loop_none i seen servers :
  conflicts_loop i seen servers = None →
  (∀ s, s ∈ servers → srv_Listen s ≠ [] ∧ seen !! listen_key s = None) ∧ NoDup (listen_key <$> servers).
Proof.
  revert i seen. induction servers as [|s servers IH]; intros i seen; cbn [conflicts_loop].
  { intros _. split; [intros s Hs; by apply elem_of_nil in Hs|constructor]. }
  destruct (is_empty _) eqn:He; [done|]. apply is_empty_nil in He.
  destruct (seen !! _) eqn:Hs; [done|]. intros [Ha Hn]%IH. split.
  - intros t [->|Ht]%elem_of_cons; [done|]. apply Ha in Ht as [Hl Hk]. split; [done|].
    by apply lookup_insert_None in Hk as [? ?].
  - rewrite fmap_cons. constructor; [|done]. intros (t & Ht & Hin)%list_elem_of_fmap.
    apply Ha in Hin as [_ Hk]. apply lookup_insert_None in Hk as [_ Hk]. congruence.
Qed.

Lemma statics_loop_none i seen statics :
  statics_loop i seen statics = None →
  (∀ s, s ∈ statics → seen !! static_path s = None ∧ validateStatic s = None) ∧ NoDup (static_path <$> statics).
Proof.
  revert i seen. induction statics as [|s statics IH]; intros i seen; cbn [statics_loop].
  { intros _. split; [intros s Hs; by apply elem_of_nil in Hs|constructor]. }
  destruct (seen !! _) eqn:Hs; [done|]. destruct (validateStatic s) eqn:Hv; [done|]. intros [Ha Hn]%IH. split.
  - intros t [->|Ht]%elem_of_cons; [done|]. apply Ha in Ht as [Hk Ht]. split; [|done].
    by apply lookup_insert_None in Hk as [? ?].
  - rewrite fmap_cons. constructor; [|done]. intros (t & Ht & Hin)%list_elem_of_fmap.
    apply Ha in Hin as [Hk _]. apply lookup_insert_None in Hk as [_ Hk]. congruence.
Qed.

Lemma static_paths_none statics path : static_paths statics !! path = None ↔ path ∉ static_path <$> statics.
Proof.
  unfold static_paths. cut (∀ l (m : gmap gostring nat), foldl (λ m '(i, s), <[static_path s := i]> m) m l !! path = None ↔
    m !! path = None ∧ path ∉ static_path <$> l.*2).
  { intros Hc. rewrite Hc, lookup_empty. replace ((imap pair statics).*2) with statics; [naive_solver|].
    apply list_eq. intros i. rewrite list_lookup_fmap, list_lookup_imap. by destruct (statics !! i). }
  induction l as [|[i s] l IH]; intros m; [cbn; rewrite elem_of_nil; naive_solver|].
  cbn [foldl fmap list_fmap snd]. rewrite IH, lookup_insert_None, elem_of_cons. naive_solver.
Qed.

Lemma validatePathConflicts_none s p :
  validatePathConflicts s = None → p ∈ srv_Proxy s → px_Path p ∉ static_path <$> srv_Static s.
Proof.
  unfold validatePathConflicts. rewrite first_error_none. intros Ha [i Hi]%list_elem_of_lookup.
  apply static_paths_none. destruct (static_paths _ !! px_Path p) as [j|] eqn:Hj; [|done].
  assert (Some (Duplicate "path" (px_Path p) j i) = None) as Hd; [|done].
  apply Ha, list_elem_of_lookup. exists i. by rewrite list_lookup_imap, Hi; cbn; rewrite Hj.
Qed.


(** ** What an accepted configuration guarantees *)

Record server_accepted (s : ServerConfig) : Prop := {
  sa_listen : srv_Listen s ≠ [] ∧ ResolveTCPAddr (srv_Listen s) = true;
  sa_statics : NoDup (static_path <$> srv_Static s);
  sa_disjoint : ∀ p, p ∈ srv_Proxy s → px_Path p ∉ static_path <$> srv_Static s;
  sa_targets : ∀ p, p ∈ srv_Proxy s →
    px_Path p ≠ [] ∧ px_Targets p ≠ [] ∧ Balancer.IsValidAlgorithm (px_LoadBalance p) = true ∧
    ∀ t, t ∈ px_Targets p → HasPrefix (tg_URL t) (go!"http://") = true ∨ HasPrefix (tg_URL t) (go!"https://") = true;
  sa_regex : ∀ p, p ∈ srv_Proxy s → regex_location p = true → is_Some (Location.regexp_Compile (px_Path p));
  sa_tls : ssl_Cert (srv_SSL s) = [] ↔ ssl_Key (srv_SSL s) = [] }.

Record accepted (cfg : Config) : Prop := {
  ac_some : cfg_Servers cfg ≠ [];
  ac_default : ∀ i j s t, cfg_Servers cfg !! i = Some s → cfg_Servers cfg !! j = Some t →
    srv_Default s = true → srv_Default t = true → i = j;
  ac_listen : GetMode cfg = ServerModeMultiServer → NoDup (listen_key <$> cfg_Servers cfg);
  ac_servers : ∀ s, s ∈ cfg_Servers cfg → server_accepted s;
  ac_variables : ∀ name, name ∈ dom (vr_Set (cfg_Variables cfg)) →
    name ≠ [] ∧ forallb variable_char name = true ∧ GetBuiltin name = false }.

Lemma default_unique servers :
  validateDefaultServer servers = None →
  ∀ i j s t, servers !! i = Some s → servers !! j = Some t → srv_Default s = true → srv_Default t = true → i = j.
Proof.
  unfold validateDefaultServer. rewrite refuse_none, Nat.ltb_ge.
  induction servers as [|x l IH]; intros Hl i j s t Hi Hj Hs Ht; [done|].
  rewrite filter_cons in Hl. 
  assert (Hnone : ∀ k y, srv_Default x = true → l !! k = Some y → srv_Default y = true → False).
  { intros k y Hx Hk Hy. rewrite decide_True in Hl by done. cbn in Hl.
    assert (y ∈ filter (λ s, srv_Default s = true) l) as Hin.
    { apply list_elem_of_filter. split; [done|]. by eapply list_elem_of_lookup_2. }
    destruct (filter _ l); [by apply elem_of_nil in Hin|cbn in Hl; lia]. }
  destruct i as [|i], j as [|j]; cbn in Hi, Hj; simplify_eq; [done|exfalso; eauto..|].
  f_equal. eapply (IH); [|done..]. case_decide; cbn in Hl; lia.
Qed.

Lemma validateProxy_sound p :
  validateProxy p = None →
  (px_Path p ≠ [] ∧ px_Targets p ≠ [] ∧ Balancer.IsValidAlgorithm (px_LoadBalance p) = true ∧
   ∀ t, t ∈ px_Targets p → HasPrefix (tg_URL t) (go!"http://") = true ∨ HasPrefix (tg_URL t) (go!"https://") = true) ∧
  (regex_location p = true → is_Some (Location.regexp_Compile (px_Path p))).
Proof.
  unfold validateProxy. intros Hv. validate_split Hv.
  destruct Hv as (Hp & Ht & Hts & Ha & _ & _ & _ & _ & _ & _ & _ & Hr & _).
  rewrite is_empty_nil in Hp. rewrite is_empty_nil in Ht. apply negb_false_iff in Ha. repeat split; [done..| |].
  - intros t Hin. apply Hts in Hin. unfold validateTarget in Hin. validate_split Hin.
    destruct Hin as (_ & Hin & _). apply andb_false_iff in Hin. rewrite !negb_false_iff in Hin. done.
  - intros Hl. rewrite Hl in Hr. cbn in Hr. apply negb_false_iff, bool_decide_eq_true in Hr. done.
Qed.

Lemma validateServer_sound s : validateServer false s = None → server_accepted s.
Proof.
  unfold validateServer. intros Hv. validate_split Hv.
  destruct Hv as (Hl & Hr & Hst & Hp & Hc & _ & Hssl & _). rewrite andb_true_r, is_empty_nil in Hl.
  split.
  - split; [done|]. apply is_empty_nil in Hl. rewrite Hl in Hr. cbn in Hr. by apply negb_false_iff.
  - unfold validateStatics in Hst. by apply statics_loop_none in Hst as [_ Hst].
  - intros p. by apply validatePathConflicts_none.
  - intros p Hin. by apply validateProxy_sound, Hp.
  - intros p Hin. by apply validateProxy_sound, Hp.
  - unfold validateSSL in Hssl. validate_split Hssl. destruct Hssl as (_ & Hssl & _).
    destruct (ssl_Cert _) as [|? ?], (ssl_Key _) as [|? ?]; cbn in Hssl; try done.
Qed.

Lemma validateVariable_sound name :
  validateVariable name = None → name ≠ [] ∧ forallb variable_char name = true ∧ GetBuiltin name = false.
Proof.
  unfold validateVariable. intros Hv. validate_split Hv. destruct Hv as (He & Hb & _ & Hg & _).
  rewrite is_empty_nil in He. by rewrite bad_char_none in Hb.
Qed.

(** C15: What validation promises to the rest of the server: an accepted configuration
    has at least one server and at most one default, no two servers of a multi-server
    set-up share an address and a name, every server listens on an address that
    resolves, its static paths are distinct and no proxy shares one, every proxy has
    targets with a scheme and an algorithm that exists, regular expressions compile,
    a certificate comes with its key, and global variables cannot shadow built-in ones. *)
Theorem validate_sound cfg :
  (∀ m, range m ≡ₚ (map_to_list m).*1) → Validate cfg = None → accepted cfg.
Proof.
  intros Hrange. unfold Validate. intros Hv. validate_split Hv.
  destruct Hv as (Hs & _ & Hl & Hd & Hsv & _ & _ & _ & _ & Hva & _). split.
  - unfold HasServers in Hs. rewrite negb_involutive, bool_decide_eq_false in Hs. done.
  - by apply default_unique.
  - intros Hm. unfold validateListenConflicts in Hl. rewrite decide_True in Hl by done.
    by apply conflicts_loop_none in Hl as [_ Hl].
  - intros s Hin. by apply validateServer_sound, Hsv.
  - intros name Hin. apply validateVariable_sound. unfold validateVariables in Hva. validate_split Hva.
    apply Hva. rewrite Hrange. apply elem_of_dom in Hin as [v Hin].
    apply list_elem_of_fmap. exists (name, v). split; [done|]. by apply elem_of_map_to_list.
Qed.


(** ** Extensions of try_files *)

(** What follows the last dot, lower case; [None] without a dot. *)
Definition final_extension (s : gostring) : option gostring :=
  i ← LastIndexByte s "."; Some (ToLower (drop (S i) s)).

Lemma LastIndexByte_split s c i :
  LastIndexByte s c = Some i → s = take i s ++ c :: drop (S i) s ∧ c ∉ drop (S i) s.
Proof.
  revert i. induction s as [|d s IH]; intros i; cbn; [done|].
  destruct (LastIndexByte s c) as [j|] eqn:E.
  - intros [= <-]. destruct (IH j eq_refl) as [He Hn]. cbn. split; [by f_equal|done].
  - destruct (Ascii.eqb_spec d c) as [->|]; [|done]. intros [= <-]. cbn. split; [done|].
    intros Hin. clear IH. induction s as [|d s IH]; [by apply elem_of_nil in Hin|]. cbn in E.
    destruct (LastIndexByte s c); [done|]. destruct (Ascii.eqb_spec d c) as [|Hd]; [done|].
    apply elem_of_cons in Hin as [->|Hin]; [done|by apply IH].
Qed.

Lemma LastIndexByte_app s t c i : LastIndexByte t c = Some i → LastIndexByte (s ++ t) c = Some (length s + i)%nat.
Proof. intros Hi. induction s as [|d s IH]; cbn; [done|by rewrite IH]. Qed.

Lemma HasSuffix_app s p : HasSuffix (s ++ p) p = true.
Proof. unfold HasSuffix. rewrite reverse_app. apply HasPrefix_app. Qed.

Lemma try_files_ext_chars ext :
  validateTryFilesExtension ext = None →
  ext ≠ [] ∧ "/"%char ∉ ext ∧ "\"%char ∉ ext ∧ "000"%char ∉ ext ∧ dangerous ext = false.
Proof.
  unfold validateTryFilesExtension. intros Hv. validate_split Hv. destruct Hv as (He & _ & _ & Hc & Hd & _).
  rewrite is_empty_nil in He. rewrite bad_char_none, forallb_forall in Hc.
  assert (∀ c, extension_char c = false → c ∉ ext) as Hout; [|by split_and!; [|apply Hout..|]].
  intros c Hf Hin%list_elem_of_In%Hc. congruence.
Qed.

(** The list of dangerous extensions cannot be got round: whatever path a
    pattern [$uri.ext] that validation accepts is applied to, the file that is tried
    does not end in an extension of the list, in any case of letters, with any number of
    dots, and no separator follows the path. *)
Theorem try_files_extension_safe uri ext :
  validateTryFilesExtension ext = None →
  (∀ e, final_extension (uri ++ "."%char :: ext) = Some e → e ∉ list_ascii_of_string <$> dangerousExtensions) ∧
  "/"%char ∉ ext ∧ "\"%char ∉ ext ∧ "000"%char ∉ ext.
Proof.
  intros (_ & Hs & Hb & Hn & Hd)%try_files_ext_chars. split; [|done].
  intros e He Hin. unfold final_extension in He.
  assert (∃ i, LastIndexByte ("."%char :: ext) "." = Some i) as [i Hi].
  { cbn. destruct (LastIndexByte ext "."); by eexists. }
  rewrite (LastIndexByte_app _ _ _ _ Hi) in He. cbn [mbind option_bind] in He. injection He as <-.
  replace (S (length uri + i)) with (length uri + S i)%nat in Hin by lia. rewrite drop_app_add in Hin.
  apply LastIndexByte_split in Hi as [Hi _]. apply not_true_iff_false in Hd. apply Hd. clear Hd.
  apply list_elem_of_fmap in Hin as (d & Hd & Hin). unfold dangerous. apply existsb_exists. exists d.
  split; [by apply list_elem_of_In|]. destruct i as [|i].
  - change (ToLower ext = list_ascii_of_string d) in Hd. by rewrite Hd, bool_decide_true.
  - change (ToLower (drop (S i) ext) = list_ascii_of_string d) in Hd.
    apply orb_true_iff. right. cbn in Hi. injection Hi as Hi. rewrite Hi. unfold ToLower. rewrite fmap_app, fmap_cons.
    change (lower_byte "." :: (lower_byte <$> drop (S i) ext)) with ("."%char :: ToLower (drop (S i) ext)).
    rewrite Hd. apply HasSuffix_app.
Qed.


(** ** What validation and the middleware it feeds agree on *)

Lemma is_in_cons s x l : is_in s (x :: l) = bool_decide (s = list_ascii_of_string x) || is_in s l.
Proof.
  unfold is_in. rewrite fmap_cons. destruct (decide (s = list_ascii_of_string x)) as [->|Hn].
  - by rewrite !bool_decide_true by (done || by left).
  - rewrite (bool_decide_false (s = _)) by done. cbn. apply bool_decide_ext. rewrite elem_of_cons.
    split; [by intros [?|?]|by right].
Qed.

Lemma is_cidr_or_ip_parses s : is_cidr_or_ip s = true → is_Some (ParseCIDR s).
Proof.
  unfold is_cidr_or_ip. destruct (net_ParseCIDR s) eqn:E; [intros _; by eapply ParseCIDR_net|].
  intros [ip Hip]%bool_decide_eq_true. by eapply ParseCIDR_host.
Qed.

Lemma parseCIDRList_ok l : (∀ s, s ∈ l → is_Some (ParseCIDR s)) → ∃ ns, parseCIDRList l = Ok ns.
Proof.
  induction l as [|s l IH]; intros Hl; [by eexists|]. cbn [parseCIDRList].
  destruct (Hl s) as [n ->]; [by left|]. destruct IH as [ns ->]; [intros; apply Hl; by right|]. by eexists.
Qed.

(** An access section that validation accepts builds: [NewAccessControl] does not
    fail on it and denies by default exactly when told to, given what validation leaves
    out, namely that the trusted proxies parse and that an enabled database opens. *)
Theorem access_builds db_opens a :
  validateAccess a = None →
  (∀ s, s ∈ c_TrustedProxies a → is_Some (ParseCIDR s)) →
  (g_Enabled (c_GeoIP a) = true → db_opens (g_Database (c_GeoIP a)) = true) →
  ∃ ac, NewAccessControl db_opens a = Ok ac ∧
    (defaultAction ac = ActionDeny ↔ c_Default a = go!"deny") ∧
    (is_Some (geoip ac) ↔ g_Enabled (c_GeoIP a) = true).
Proof.
  unfold validateAccess. intros Hv Ht Hdb. validate_split Hv. destruct Hv as (Hal & Hde & Hd & Hg & _).
  assert (Hp : ∀ l what, (∀ s, s ∈ l → refuse (negb (is_cidr_or_ip s)) (Invalid what s) = None) →
    ∃ ns, parseCIDRList l = Ok ns).
  { intros l what Hl. apply parseCIDRList_ok. intros s Hs%Hl. apply is_cidr_or_ip_parses.
    by rewrite refuse_none, negb_false_iff in Hs. }
  destruct (Hp _ _ Hal) as [al Eal]. destruct (Hp _ _ Hde) as [de Ede]. destruct (parseCIDRList_ok _ Ht) as [tp Etp].
  unfold NewAccessControl. rewrite Eal, Ede, Etp. cbn [mbind res_bind].
  apply negb_false_iff in Hd. rewrite !is_in_cons in Hd. rewrite !orb_true_iff, !bool_decide_eq_true in Hd.
  assert (∃ act, parseAction true (c_Default a) = Ok act ∧ (act = ActionDeny ↔ c_Default a = go!"deny")) as (act & -> & Hact).
  { destruct Hd as [->|[->|[->|?]]]; [by eexists; split; [reflexivity|]..|done]. }
  cbn [mbind res_bind]. destruct (g_Enabled (c_GeoIP a)) eqn:Hen; cbn [andb].
  - unfold validateGeoIP in Hg. rewrite Hen in Hg. cbn [negb] in Hg. validate_split Hg. destruct Hg as (Hne & _).
    rewrite is_empty_nil in Hne. rewrite (bool_decide_false (_ = [])) by done. cbn [negb]. unfold NewGeoIPLookup.
    rewrite decide_False, (Hdb eq_refl) by done. cbn [negb].
    assert (∀ z : Z, ((if z <=? 0 then 10000 else z) <=? 0) = false) as -> by (intros z; destruct (Z.leb_spec z 0); lia).
    eexists. split; [done|]. split; [done|]. split; [done|]. by eexists.
  - eexists. split; [done|]. split; [done|]. split; [intros [? ?]|]; done.
Qed.


(** The default configuration is not valid: as soon as its address resolves,
    validating it fails, because it enables HTTP/2 without a certificate. A file that
    configures no server keeps the default one and so never loads. *)
Theorem default_config_rejected :
  ResolveTCPAddr (go!":8080") = true →
  Validate DefaultConfig = Some (Item "servers" 0 (Path "ssl" (Path "http2" (Forbidden "http2 without tls")))).
Proof.
  intros Hr. unfold Validate. change (refuse (negb (HasServers DefaultConfig)) _) with (@None verror). cbn [first_error].
  change (validateMode _) with (@None verror). cbn [first_error].
  change (validateListenConflicts _ _) with (@None verror). cbn [first_error].
  change (validateDefaultServer _) with (@None verror). cbn [first_error].
  assert (validateServer false default_ServerConfig = Some (Path "ssl" (Path "http2" (Forbidden "http2 without tls")))) as Hs.
  { unfold validateServer. change (srv_Listen default_ServerConfig) with (go!":8080"). rewrite Hr. reflexivity. }
  change (each "servers" _ _) with (first_error [Item "servers" 0 <$> validateServer false default_ServerConfig]).
  by rewrite Hs.
Qed.

(** Validation does not check what the limiter needs: a rate with a smaller burst,
    in particular a rate alone, is accepted and then refused when the token bucket is
    built. *)
Theorem burst_not_validated r proxies :
  validateRateLimit r = None → 0 < RequestRate r → Burst r < RequestRate r →
  Algorithm r ≠ go!"sliding_window" →
  NewRateLimiter r proxies = Err BurstTooSmall.
Proof.
  unfold validateRateLimit. intros Hv Hp Hb Ha. destruct (Z.eqb_spec (RequestRate r) 0); [lia|]. cbn [andb] in Hv.
  validate_split Hv. destruct Hv as (_ & _ & _ & _ & Hal & _). unfold ValidateEnum in Hal.
  rewrite refuse_none, negb_false_iff, !is_in_cons, !orb_true_iff, !bool_decide_eq_true in Hal.
  unfold NewRateLimiter. destruct (Z.leb_spec (RequestRate r) 0); [lia|].
  assert ((if decide (Algorithm r = []) then go!"token_bucket" else Algorithm r) = go!"token_bucket") as ->.
  { destruct Hal as [->|[->|[?|?]]]; try done; congruence. }
  rewrite decide_True by done. unfold newTokenBucketLimiter. by rewrite (proj2 (Z.ltb_lt _ _)).
Qed.

End Validate.

(** ** Witnesses: the default server over plain HTTP *)

Definition ex_ssl : SSLConfig :=
  mkSSLConfig default_ClientVerifyConfig [] [] [] [go!"TLSv1.3"] [] default_SessionTicketsConfig zero_HTTP2Config
    default_HSTSConfig false.

Definition ex_server (name : gostring) (default : bool) : ServerConfig :=
  mkServerConfig None None [default_StaticConfig]
    [mkProxyConfig None None None None [mkProxyTarget (go!"http://127.0.0.1:9000") 1 0 0 0 false false []]
      (go!"/api/") [] [] [] [] zero_ProxyHeaders zero_BalancerByLuaConfig Health.empty_config zero_NextUpstreamConfig
      zero_ProxyCacheConfig zero_ProxyTimeout zero_LeastTimeConfig zero_StickyConfig 0 [] [] false]
    [] [] name (go!":8080") default_SecurityConfig default_CompressionConfig ex_ssl zero_UnixSocketConfig
    zero_LimitRateConfig zero_TypesConfig [] 0 0 0 0 0 0 0 0 default false false.

Definition ex_config : Config :=
  mkConfig (go!"multi_server") (mkVariablesConfig {[go!"site" := go!"a"]}) default_LoggingConfig
    [ex_server (go!"a") true; ex_server (go!"b") false]
    [] default_MonitoringConfig default_HTTP3Config default_ResolverConfig default_PerformanceConfig
    default_ShutdownConfig [].

Lemma validate_sound_witness : accepted (H := Location.literal_regexp) (λ _, true) ex_config.
Proof.
  apply (validate_sound (H := Location.literal_regexp) (λ _, true) (λ _, true) (λ m, (map_to_list m).*1)).
  - reflexivity.
  - vm_compute. reflexivity.
Defined.

Lemma default_config_rejected_witness :
  Validate (H := Location.literal_regexp) (λ _, true) (λ _, true) (λ m, (map_to_list m).*1) DefaultConfig =
  Some (Item "servers" 0 (Path "ssl" (Path "http2" (Forbidden "http2 without tls")))).
Proof. apply (default_config_rejected (H := Location.literal_regexp)). reflexivity. Defined.

Lemma try_files_extension_safe_witness :
  (∀ e, final_extension (go!"/a.php" ++ "."%char :: go!"tar.GZ") = Some e →
    e ∉ list_ascii_of_string <$> dangerousExtensions) ∧
  "/"%char ∉ go!"tar.GZ" ∧ "\"%char ∉ go!"tar.GZ" ∧ "000"%char ∉ go!"tar.GZ".
Proof. apply try_files_extension_safe. vm_compute. reflexivity. Defined.

Definition ex_access : AccessConfig :=
  mkAccessConfig [go!"10.0.0.0/8"; go!"::1"] [go!"10.0.0.7"] [] (go!"deny") (mkGeoIPConfig false [] [] [] [] [] 0 0).

Lemma access_builds_witness :
  ∃ ac, NewAccessControl (λ _, false) ex_access = Ok ac ∧
    (defaultAction ac = ActionDeny ↔ c_Default ex_access = go!"deny") ∧
    (is_Some (geoip ac) ↔ g_Enabled (c_GeoIP ex_access) = true).
Proof.
  apply (access_builds (λ _, false) ex_access).
  - vm_compute. reflexivity.
  - intros s Hs. by apply elem_of_nil in Hs.
  - done.
Defined.

Lemma burst_not_validated_witness :
  NewRateLimiter (mkRLConfig 10 0 (go!"ip") [] [] 0 0) [] = Err BurstTooSmall.
Proof. apply burst_not_validated; [reflexivity|reflexivity|reflexivity|discriminate]. Defined.
