(* ===== verification/GoTime.v ===== *)
(** * GoTime: durations as text

    [time.ParseDuration] of Go's standard library, with its overflow checks and the
    floating point arithmetic of fractions.  Shown: a whole number with a unit is that
    many units, and a number without one is refused. *)

From S2P Require Import Prelude GoStrings Float64.

Definition minute : Z := 60 * second.
Definition hour : Z := 60 * minute.

(** [leadingInt]: [None] when the number exceeds [1 << 63]. *)
Fixpoint leadingInt (s : gostring) (x : Z) : option (Z * gostring) :=
  match s with
  | c :: s' =>
      if is_digit c then
        if 2 ^ 63 / 10 <? x then None
        else
          let x := x * 10 + digit_val c in
          if 2 ^ 63 <? x then None else leadingInt s' x
      else Some (x, s)
  | [] => Some (x, [])
  end.

(** [leadingFraction]: the digits that fit, their scale, and the rest. *)
Fixpoint leadingFraction (s : gostring) (x : Z) (scale : float64) (overflow : bool) : Z * float64 * gostring :=
  match s with
  | c :: s' =>
      if is_digit c then
        if overflow then leadingFraction s' x scale true
        else if int64_max / 10 <? x then leadingFraction s' x scale true
        else
          let y := x * 10 + digit_val c in
          if 2 ^ 63 <? y then leadingFraction s' x scale true
          else leadingFraction s' y (f64_mul scale (f64_of_int 10)) false
      else (x, scale, s)
  | [] => (x, scale, [])
  end.

(** The unit: what comes before the next digit or dot. *)
Fixpoint unit_text (s : gostring) : gostring * gostring :=
  match s with
  | c :: s' => if Ascii.eqb c "." || is_digit c then ([], s) else let '(u, r) := unit_text s' in (c :: u, r)
  | [] => ([], [])
  end.

(** [unitMap]; the two spellings of micro are two bytes each in UTF-8. *)
Definition unitMap (u : gostring) : option Z :=
  if decide (u = go!"ns") then Some 1
  else if decide (u = go!"us" ∨ u = ["194"; "181"; "s"]%char ∨ u = ["206"; "188"; "s"]%char) then Some 1000
  else if decide (u = go!"ms") then Some 1000000
  else if decide (u = go!"s") then Some second
  else if decide (u = go!"m") then Some minute
  else if decide (u = go!"h") then Some hour
  else None.

(** One number with its unit, in nanoseconds, and the rest. *)
Definition duration_part (s : gostring) : option (Z * gostring) :=
  match s with
  | [] => None
  | c :: _ =>
      if negb (Ascii.eqb c "." || is_digit c) then None
      else
        '(v, s1) ← leadingInt s 0;
        let pre := negb (length s1 =? length s)%nat in
        let '(f, scale, s2, post) :=
          match s1 with
          | d :: s1' =>
              if Ascii.eqb d "." then
                let '(f, scale, s2) := leadingFraction s1' 0 (f64_of_int 1) false in
                (f, scale, s2, negb (length s2 =? length s1')%nat)
              else (0, f64_of_int 1, s1, false)
          | [] => (0, f64_of_int 1, s1, false)
          end in
        if negb (pre || post) then None
        else
          let '(u, s3) := unit_text s2 in
          if bool_decide (u = []) then None
          else
            un ← unitMap u;
            if 2 ^ 63 / un <? v then None
            else
              let v := v * un in
              if 0 <? f then
                let v := v + f64_trunc (f64_mul (f64_of_int f) (f64_div (f64_of_int un) scale)) in
                if 2 ^ 63 <? v then None else Some (v, s3)
              else Some (v, s3)
  end.

(** The loop over the parts; each takes at least one byte. *)
Fixpoint duration_loop (fuel : nat) (s : gostring) (d : Z) : option Z :=
  match s, fuel with
  | [], _ => Some d
  | _, O => None
  | _, S fuel =>
      '(v, s) ← duration_part s;
      let d := wrap64 (d + v) in
      if 2 ^ 63 <? d then None else duration_loop fuel s d
  end.

(** [time.ParseDuration]: [None] for an error. *)
Definition ParseDuration (s : gostring) : option Z :=
  let '(neg, s) :=
    match s with
    | c :: s' => if Ascii.eqb c "-" || Ascii.eqb c "+" then (Ascii.eqb c "-", s') else (false, s)
    | [] => (false, [])
    end in
  if decide (s = go!"0") then Some 0
  else if decide (s = []) then None
  else
    d ← duration_loop (length s) s 0;
    if neg then Some (swrap64 (- d)) else if int64_max <? d then None else Some d.

Example ParseDuration_examples :
  ParseDuration (go!"1h30m") = Some (90 * minute) ∧ ParseDuration (go!"1.5s") = Some (1500000000) ∧
  ParseDuration (go!"60") = None ∧ ParseDuration (go!"0") = Some 0 ∧ ParseDuration (go!"1d") = None ∧
  ParseDuration (go!"-2ms") = Some (-2000000) ∧ ParseDuration (go!".5m") = Some (30 * second).
Proof. by vm_compute. Qed.

(** ** Whole numbers *)

Lemma digits_val_cons c s : digits_val (c :: s) = digit_val c * 10 ^ zlen s + digits_val s.
Proof. unfold digits_val at 1. simpl. by rewrite digits_val_acc. Qed.

Lemma is_digit_val c : is_digit c = true → 0 ≤ digit_val c ≤ 9.
Proof. unfold is_digit, digit_val. intros ?. bool_to_prop. lia. Qed.

Lemma digits_val_nonneg s : forallb is_digit s = true → 0 ≤ digits_val s.
Proof.
  induction s as [|c s IH]; [done|]. cbn [forallb]. intros [Hc Hs]%andb_true_iff.
  rewrite digits_val_cons. apply is_digit_val in Hc. specialize (IH Hs).
  pose proof (Z.pow_nonneg 10 (zlen s)). nia.
Qed.

Definition starts_with_digit (s : gostring) : bool := match s with c :: _ => is_digit c | [] => false end.

Lemma leadingInt_digits ds t x :
  forallb is_digit ds = true → starts_with_digit t = false → 0 ≤ x →
  x * 10 ^ zlen ds + digits_val ds ≤ 2 ^ 63 →
  leadingInt (ds ++ t) x = Some (x * 10 ^ zlen ds + digits_val ds, t).
Proof.
  revert x. induction ds as [|c ds IH]; intros x Hd Ht Hx Hb.
  { cbn [app length]. change (digits_val []) with 0. replace (x * 10 ^ Z.of_nat 0 + 0) with x by lia.
    destruct t as [|c t]; [done|]. cbn [leadingInt]. simpl in Ht. by rewrite Ht. }
  cbn [forallb] in Hd. apply andb_true_iff in Hd as [Hc Hd]. cbn [app leadingInt]. rewrite Hc.
  rewrite digits_val_cons in *. cbn [length] in *. rewrite Nat2Z.inj_succ, Z.pow_succ_r in * by lia.
  pose proof (is_digit_val c Hc). pose proof (digits_val_nonneg ds Hd).
  pose proof (Z.pow_pos_nonneg 10 (zlen ds) ltac:(lia) ltac:(lia)).
  assert (x * 10 + digit_val c ≤ 2 ^ 63) by nia.
  rewrite (proj2 (Z.ltb_ge (2 ^ 63 / 10) x)) by (apply Z.div_le_lower_bound; lia).
  rewrite (proj2 (Z.ltb_ge (2 ^ 63) _)) by lia.
  rewrite IH by (done || lia). f_equal. f_equal. ring.
Qed.

Lemma FormatInt_val n : 0 ≤ n ≤ int64_max → digits_val (FormatInt n) = n.
Proof.
  unfold int64_max. intros Hn. unfold FormatInt. rewrite (proj2 (Z.ltb_ge n 0)) by lia.
  destruct (digits_of_spec 20 n []) as (_ & _ & ->); [lia|done|lia|]. unfold digits_val. simpl. lia.
Qed.

Lemma digit_head s t : forallb is_digit s = true → s ≠ [] →
  ∃ c r, s ++ t = c :: r ∧ is_digit c = true ∧ Ascii.eqb c "-" = false ∧ Ascii.eqb c "+" = false.
Proof.
  destruct s as [|c s]; [done|]. cbn [forallb]. intros [Hc _]%andb_true_iff _.
  exists c, (s ++ t). split; [done|]. split; [done|]. by apply digit_not_sign.
Qed.

(** A part that is a whole number: what is left to read is the unit. *)
Lemma duration_part_whole n t :
  0 ≤ n ≤ int64_max → starts_with_digit t = false → HasPrefix t (go!".") = false →
  duration_part (FormatInt n ++ t) =
    let '(u, s3) := unit_text t in
    if bool_decide (u = []) then None
    else un ← unitMap u; if 2 ^ 63 / un <? n then None else Some (n * un, s3).
Proof.
  intros Hn Ht Hdot. destruct (FormatInt_digits n Hn) as [Hd Hne].
  destruct (digit_head _ t Hd Hne) as (c & r & E & Hc & _). unfold duration_part. rewrite E, <- E, Hc, orb_true_r.
  cbn [negb]. rewrite leadingInt_digits; [|done|done|lia|rewrite FormatInt_val by done; unfold int64_max in *; lia].
  rewrite FormatInt_val by done. cbn [mbind option_bind]. rewrite Z.mul_0_l, Z.add_0_l.
  assert ((length t =? length (FormatInt n ++ t))%nat = false) as ->.
  { apply Nat.eqb_neq. rewrite length_app. destruct (FormatInt n); [done|]. simpl. lia. }
  assert (match t with
          | d :: s1' => if Ascii.eqb d "." then
              let '(f, scale, s2) := leadingFraction s1' 0 (f64_of_int 1) false in (f, scale, s2, negb (length s2 =? length s1')%nat)
            else (0, f64_of_int 1, t, false)
          | [] => (0, f64_of_int 1, t, false) end = (0, f64_of_int 1, t, false)) as ->.
  { destruct t as [|d t]; [done|]. cbn in Hdot. destruct (Ascii.eqb_spec d "."); [|done]. subst. by destruct t. }
  cbn [negb orb]. destruct (unit_text t) as [u s3]. case_bool_decide; [done|].
  destruct (unitMap u) as [un|]; [|done]. cbn [mbind option_bind]. by destruct (_ <? _).
Qed.

(** A number in decimal and a unit mean the product, when it is in range. *)
Lemma ParseDuration_units n u un :
  0 ≤ n → n * un ≤ int64_max → unitMap u = Some un → 0 < un → unit_text u = (u, []) → u ≠ [] →
  ParseDuration (FormatInt n ++ u) = Some (n * un).
Proof.
  intros Hn Hmax Hu Hun Htext Hne. assert (0 ≤ n ≤ int64_max) as Hr by nia.
  assert (starts_with_digit u = false ∧ HasPrefix u (go!".") = false) as [Hs Hdot].
  { destruct u as [|c u]; [done|]. cbn [unit_text] in Htext. cbn [starts_with_digit HasPrefix].
    destruct (Ascii.eqb c "." || is_digit c) eqn:E; [by simplify_eq|]. apply orb_false_iff in E as [E1 E2].
    split; [done|]. rewrite Ascii.eqb_sym in E1. change (("."%char =? c)%char && HasPrefix u [] = false). by rewrite E1. }
  destruct (FormatInt_digits n Hr) as [Hd Hnil]. destruct (digit_head _ u Hd Hnil) as (c & r & E & Hc & Hm & Hp).
  assert (duration_part (FormatInt n ++ u) = Some (n * un, [])) as Hpart.
  { rewrite duration_part_whole, Htext, bool_decide_false, Hu by done. cbn [mbind option_bind].
    by rewrite (proj2 (Z.ltb_ge _ n)) by (apply Z.div_le_lower_bound; unfold int64_max in *; nia). }
  assert (FormatInt n ++ u ≠ go!"0").
  { intros Heq. apply (f_equal length) in Heq. rewrite length_app in Heq. destruct (FormatInt n), u; try done. simpl in Heq. lia. }
  unfold ParseDuration. rewrite E in *. rewrite Hm, Hp. cbn [orb]. rewrite !decide_False by done.
  cbn [length duration_loop]. rewrite Hpart. cbn [mbind option_bind]. rewrite Z.add_0_l.
  assert (2 ^ 63 <? n * un = false ∧ int64_max <? n * un = false) as [H1 H2] by (unfold int64_max in *; rewrite !Z.ltb_ge; lia).
  rewrite wrap64_id by (unfold in_uint64, int64_max in *; nia). rewrite H1. destruct (length r); cbn [duration_loop mbind option_bind]; by rewrite H2.
Qed.

(** A number other than zero with no unit is an error. *)
Lemma ParseDuration_bare n : 0 < n ≤ int64_max → ParseDuration (FormatInt n) = None.
Proof.
  intros Hn. assert (0 ≤ n ≤ int64_max) as Hr by lia.
  destruct (FormatInt_digits n Hr) as [Hd Hnil]. destruct (digit_head _ [] Hd Hnil) as (c & r & E & Hc & Hm & Hp).
  rewrite app_nil_r in E. pose proof (duration_part_whole n [] Hr eq_refl eq_refl) as Hpart. rewrite app_nil_r in Hpart.
  assert (FormatInt n ≠ go!"0").
  { intros Heq. apply (f_equal digits_val) in Heq. rewrite FormatInt_val in Heq by done.
    change (digits_val (go!"0")) with 0 in Heq. lia. }
  unfold ParseDuration. rewrite E in *. rewrite Hm, Hp. cbn [orb]. rewrite !decide_False by done.
  cbn [length duration_loop]. by rewrite Hpart.
Qed.
