(* ===== verification/Lru.v ===== *)
(** * Lru: a map with the order in which its keys were used

    Several caches of the server keep a Go map beside a [container/list] of its keys,
    most recent first: the table of file information, the table of MIME types, the DNS
    cache.  Their keys are distinct on the list, so a node is its key.  Shown: the list
    and the map hold the same keys whatever operations run, storing keeps the size
    within the limit, and what is evicted is what was used least recently. *)

From S2P Require Import Prelude.

Section Lru.
Context {A : Type}.

Record lru := mkLru { items : gmap gostring A; order : list gostring }.

Definition lru_empty : lru := mkLru ∅ [].

Definition lru_remove (c : lru) (k : gostring) : lru :=
  mkLru (delete k (items c)) (filter (λ k', k' ≠ k) (order c)).

(** [MoveToFront] of a key that is on the list. *)
Definition lru_front (c : lru) (k : gostring) : lru :=
  mkLru (items c) (k :: filter (λ k', k' ≠ k) (order c)).

(** [Back], and the removal of what it is. *)
Definition lru_evict (c : lru) : lru :=
  match last (order c) with Some k => lru_remove c k | None => c end.

(** Store under a key: an existing key moves to the front; a new one may first evict
    the back, when the cache is [full]. *)
Definition lru_store (full : lru → bool) (c : lru) (k : gostring) (v : A) : lru :=
  match items c !! k with
  | Some _ => lru_front (mkLru (<[k := v]> (items c)) (order c)) k
  | None =>
      let c := if full c then lru_evict c else c in
      mkLru (<[k := v]> (items c)) (k :: order c)
  end.

Record lru_wf (c : lru) : Prop := {
  lru_nodup : NoDup (order c);
  lru_same k : k ∈ order c ↔ is_Some (items c !! k) }.

Lemma lru_empty_wf : lru_wf lru_empty.
Proof.
  split; [constructor|]. intros k. cbn. rewrite lookup_empty. split; [intros ?%elem_of_nil|intros [? ?]]; done.
Qed.

Lemma lru_remove_wf c k : lru_wf c → lru_wf (lru_remove c k).
Proof.
  intros [Hn Hs]. split; cbn; [by apply NoDup_filter|]. intros k'.
  rewrite list_elem_of_filter, Hs, lookup_delete_is_Some. naive_solver.
Qed.

Lemma lru_front_wf c k : lru_wf c → is_Some (items c !! k) → lru_wf (lru_front c k).
Proof.
  intros [Hn Hs] Hk. split; cbn.
  - constructor; [rewrite list_elem_of_filter; tauto|by apply NoDup_filter].
  - intros k'. rewrite elem_of_cons, list_elem_of_filter, <- Hs. destruct (decide (k' = k)) as [->|]; [|tauto].
    split; [|tauto]. by rewrite Hs.
Qed.

Lemma lru_evict_wf c : lru_wf c → lru_wf (lru_evict c).
Proof. intros Hc. unfold lru_evict. destruct (last _); [by apply lru_remove_wf|done]. Qed.

Lemma lru_remove_lookup c k k' : items (lru_remove c k) !! k' = if decide (k = k') then None else items c !! k'.
Proof. cbn. apply lookup_delete. Qed.

Lemma lru_evict_fresh c k : items c !! k = None → items (lru_evict c) !! k = None.
Proof.
  intros Hk. unfold lru_evict. destruct (last _); [|done]. rewrite lru_remove_lookup. by case_decide.
Qed.

Lemma lru_store_wf full c k v : lru_wf c → lru_wf (lru_store full c k v).
Proof.
  intros Hc. unfold lru_store. destruct (items c !! k) as [w|] eqn:E.
  - apply lru_front_wf; [|cbn; rewrite lookup_insert_eq; by eexists]. destruct Hc as [Hn Hs]. split; [done|].
    intros k'. cbn. rewrite Hs. destruct (decide (k = k')) as [<-|Hne]; [|by rewrite lookup_insert_ne].
    rewrite lookup_insert_eq, E. naive_solver.
  - set (c' := if full c then lru_evict c else c).
    assert (lru_wf c' ∧ items c' !! k = None) as [[Hn Hs] Hk].
    { unfold c'. destruct (full c); [|done]. split; [by apply lru_evict_wf|by apply lru_evict_fresh]. }
    split; cbn.
    + constructor; [|done]. rewrite Hs, Hk. by intros [? ?].
    + intros k'. rewrite elem_of_cons, Hs. destruct (decide (k = k')) as [<-|Hne].
      * rewrite lookup_insert_eq. split; [by eexists|by left].
      * rewrite lookup_insert_ne by done. naive_solver.
Qed.

Lemma lru_size c : lru_wf c → size (items c) = length (order c).
Proof.
  intros [Hn Hs]. rewrite <- size_dom.
  replace (dom (items c)) with (list_to_set (order c) : gset gostring); [by rewrite size_list_to_set|].
  apply set_eq. intros k. by rewrite elem_of_list_to_set, Hs, elem_of_dom.
Qed.

Lemma last_split {B} (l : list B) x : last l = Some x → ∃ l', l = l' ++ [x].
Proof. intros Hl. apply last_Some in Hl. done. Qed.

(** Eviction drops the back of the list, and only that. *)
Lemma lru_evict_order c l k :
  lru_wf c → order c = l ++ [k] → order (lru_evict c) = l ∧ items (lru_evict c) = delete k (items c).
Proof.
  intros [Hn _] Ho. unfold lru_evict. rewrite Ho, last_snoc. split; [|done].
  change (filter (λ k', k' ≠ k) (order c) = l). rewrite Ho in Hn |- *.
  rewrite filter_app, filter_cons_False, filter_nil, app_nil_r by tauto.
  rewrite filter_all; [done|]. intros k' Hk' ->. apply NoDup_app in Hn as (_ & Hd & _). apply (Hd k Hk'). by left.
Qed.

(** A cache that evicts when it holds [n] keys or more never holds more than [n]. *)
Lemma lru_store_bound full (n : nat) c k v :
  lru_wf c → (0 < n)%nat → (∀ c, (n ≤ length (order c))%nat → full c = true) →
  (length (order c) ≤ n)%nat → (length (order (lru_store full c k v)) ≤ n)%nat.
Proof.
  intros Hc Hn Hf Hl. unfold lru_store. destruct (items c !! k) as [w|] eqn:E.
  - assert (k ∈ order c) as Hin by (apply lru_same; [done|by rewrite E]).
    change (S (length (filter (λ k', k' ≠ k) (order c))) ≤ n)%nat.
    pose proof (length_filter_lt (λ k', k' ≠ k) (order c) k Hin ltac:(tauto)). lia.
  - cbn. destruct (decide (n ≤ length (order c))%nat) as [Hge|Hlt].
    + rewrite Hf by done. destruct (order c) as [|k0 l0] eqn:Ho using rev_ind; [cbn in *; lia|].
      destruct (lru_evict_order c l0 k0 Hc Ho) as [-> _]. rewrite length_app in Hl. cbn in Hl. lia.
    + destruct (full c); [|lia]. unfold lru_evict. destruct (last _) as [g|]; [|cbn; lia].
      change (S (length (filter (λ k', k' ≠ g) (order c))) ≤ n)%nat.
      pose proof (length_filter (λ k', k' ≠ g) (order c)). lia.
Qed.

Lemma lru_store_lookup full c k v : items (lru_store full c k v) !! k = Some v.
Proof. unfold lru_store. destruct (items c !! k); cbn; by rewrite lookup_insert_eq. Qed.

(** What was there before and is still there is unchanged. *)
Lemma lru_store_other full c k v k' w :
  k' ≠ k → items (lru_store full c k v) !! k' = Some w → items c !! k' = Some w.
Proof.
  intros Hne. unfold lru_store. destruct (items c !! k) as [x|]; cbn; rewrite lookup_insert_ne by done; [done|].
  destruct (full c); [|done]. unfold lru_evict. destruct (last _); [|done]. cbn.
  by intros [_ ?]%lookup_delete_Some.
Qed.
End Lru.
Arguments lru : clear implicits.

#[export] Hint Resolve lru_empty_wf lru_remove_wf lru_front_wf lru_evict_wf lru_store_wf : lolly.
