(* ===== verification/FileInfo.v ===== *)
(** * FileInfo: what is known of files before they are served

    [src/internal/handler/fileinfo_cache.go], the table of [os.Stat] results with
    negative entries, [statWithCache] of [static.go], and the detection of content types
    of [src/internal/mimeutil/detect.go] with its cache.  Shown: the caches never
    exceed their size, an answer of the table is what [os.Stat] said at most a time to
    live ago, and the cache of types answers what a look-up would, until the default
    type changes. *)

From S2P Require Import Prelude GoStrings Lru.

(** [os.FileInfo] *)
Record info := mkInfo { IsDir : bool; i_ModTime : Z; i_Size : Z }.

Record fileInfoEntry := mkInfoEntry { fi_info : option info; fi_notFound : bool; fi_cachedAt : Z }.

Record FileInfoCache := mkFIC { fic : lru fileInfoEntry; ttl : Z; notFoundTTL : Z }.

Definition fileInfoCacheMaxEntries : nat := 2000.
Definition defaultFileInfoCacheTTL : Z := 10 * second.
Definition defaultFileNotFoundCacheTTL : Z := 2 * second.

Definition NewFileInfoCache : FileInfoCache := mkFIC lru_empty defaultFileInfoCacheTTL defaultFileNotFoundCacheTTL.

Definition SetTTL (c : FileInfoCache) (t : Z) : FileInfoCache := mkFIC (fic c) t (notFoundTTL c).

(** How long an entry counts. *)
Definition entry_ttl (c : FileInfoCache) (e : fileInfoEntry) : Z :=
  if fi_notFound e then (if 0 <? notFoundTTL c then notFoundTTL c else defaultFileNotFoundCacheTTL) else ttl c.

(** The information, and whether the entry is a hit and the file exists. *)
Definition GetWithNotFound (now : Z) (c : FileInfoCache) (path : gostring)
  : (option info * bool * bool) * FileInfoCache :=
  match items (fic c) !! path with
  | None => ((None, false, false), c)
  | Some e =>
      if ttl c <=? 0 then ((None, false, false), c)
      else if entry_ttl c e <? time_sub now (fi_cachedAt e) then
        ((None, false, false), mkFIC (lru_remove (fic c) path) (ttl c) (notFoundTTL c))
      else ((fi_info e, true, negb (fi_notFound e)), c)
  end.

Definition fic_full (l : lru fileInfoEntry) : bool := (fileInfoCacheMaxEntries <=? length (order l))%nat.

Definition SetWithNotFound (now : Z) (c : FileInfoCache) (path : gostring) (i : option info) (notFound : bool)
  : FileInfoCache :=
  mkFIC (lru_store fic_full (fic c) path (mkInfoEntry i notFound now)) (ttl c) (notFoundTTL c).

Definition FIC_Get (now : Z) (c : FileInfoCache) (path : gostring) : option info * FileInfoCache :=
  let '((i, hit, exists_), c) := GetWithNotFound now c path in
  (if negb hit || negb exists_ then None else i, c).

Definition FIC_Set (now : Z) (c : FileInfoCache) (path : gostring) (i : info) : FileInfoCache :=
  SetWithNotFound now c path (Some i) false.

(** [statWithCache], with what [os.Stat] says; [None] is a file that does not exist. *)
Definition statWithCache (Stat : gostring → option info) (now : Z) (c : option FileInfoCache) (path : gostring)
  : option info * option FileInfoCache :=
  match c with
  | None => (Stat path, None)
  | Some c =>
      match GetWithNotFound now c path with
      | ((i, true, true), c) => (i, Some c)
      | ((_, true, false), c) => (None, Some c)
      | ((_, false, _), c) =>
          match Stat path with
          | None => (None, Some (SetWithNotFound now c path None true))
          | Some i => (Some i, Some (SetWithNotFound now c path (Some i) false))
          end
      end
  end.

(** ** Content types *)

(** [filepath.Ext]: from the last dot of the last element. *)
Fixpoint ext_loop (s : gostring) (found : option gostring) : gostring :=
  match s with
  | [] => default [] found
  | c :: s' =>
      if Ascii.eqb c "/" then ext_loop s' None
      else if Ascii.eqb c "." then ext_loop s' (Some s)
      else ext_loop s' found
  end.

Definition Ext (path : gostring) : gostring := ext_loop path None.

Record mime := mkMime { mimeOverrides : gmap gostring gostring; mimeCache : lru gostring; defaultMIME : gostring }.

Definition mimeCacheSize : nat := 64.

Definition initial_mime : mime :=
  mkMime (list_to_map
    [(go!".eot", go!"application/vnd.ms-fontobject"); (go!".otf", go!"font/otf");
     (go!".webmanifest", go!"application/manifest+json"); (go!".map", go!"application/json");
     (go!".webm", go!"video/webm")]) lru_empty (go!"application/octet-stream").

(** The types in the order in which Go ranges over the map. *)
Definition AddTypes (m : mime) (types : list (gostring * gostring)) : mime :=
  mkMime (foldl (λ o '(ext, t), <[ToLower ext := t]> o) (mimeOverrides m) types)
    (foldl (λ c '(ext, _), match items c !! ToLower ext with Some _ => lru_remove c (ToLower ext) | None => c end)
       (mimeCache m) types)
    (defaultMIME m).

Definition SetDefaultType (m : mime) (t : gostring) : mime := mkMime (mimeOverrides m) (mimeCache m) t.

Section Types.
(** [mime.TypeByExtension], empty for an unknown extension. *)
Context (TypeByExtension : gostring → gostring).

(** The type when nothing is cached. *)
Definition lookup_type (m : mime) (ext : gostring) : gostring :=
  let t := match mimeOverrides m !! ext with Some t => t | None => TypeByExtension ext end in
  if decide (t = []) then defaultMIME m else t.

Definition mime_full (l : lru gostring) : bool := (mimeCacheSize <=? length (order l))%nat.

Definition DetectContentType (m : mime) (filePath : gostring) : gostring * mime :=
  let ext := ToLower (Ext filePath) in
  match items (mimeCache m) !! ext with
  | Some t => (t, mkMime (mimeOverrides m) (lru_front (mimeCache m) ext) (defaultMIME m))
  | None =>
      let t := lookup_type m ext in
      (t, mkMime (mimeOverrides m) (lru_store mime_full (mimeCache m) ext t) (defaultMIME m))
  end.

(** ** The table of file information *)

(** Every entry is what [os.Stat] said when it was made; [hist] says what it said
    of a path at a time. *)
Record fic_ok (hist : Z → gostring → option info) (c : FileInfoCache) : Prop := {
  fo_wf : lru_wf (fic c);
  fo_bound : (length (order (fic c)) ≤ fileInfoCacheMaxEntries)%nat;
  fo_true path e : items (fic c) !! path = Some e →
    hist (fi_cachedAt e) path = fi_info e ∧ fi_notFound e = bool_decide (fi_info e = None) }.

Lemma new_fic_ok hist t : fic_ok hist (SetTTL NewFileInfoCache t).
Proof. split; cbn; [apply lru_empty_wf|lia|]. intros path e. by rewrite lookup_empty. Qed.

Lemma fic_get_ok hist now c path : fic_ok hist c → fic_ok hist (GetWithNotFound now c path).2.
Proof.
  intros [Hw Hb Ht]. unfold GetWithNotFound. destruct (items (fic c) !! path) as [e|]; [|by split].
  destruct (_ <=? _); [by split|]. destruct (_ <? _); [|by split]. split; cbn [fic snd].
  - by apply lru_remove_wf.
  - etrans; [|exact Hb]. apply length_filter.
  - intros p e'. rewrite lru_remove_lookup. case_decide; [done|]. apply Ht.
Qed.

Lemma fic_set_ok hist now c path i :
  fic_ok hist c → hist now path = i → fic_ok hist (SetWithNotFound now c path i (bool_decide (i = None))).
Proof.
  intros [Hw Hb Ht] Hi. unfold SetWithNotFound. split; cbn [fic snd].
  - by apply lru_store_wf.
  - apply lru_store_bound; [done|unfold fileInfoCacheMaxEntries; lia| |done]. intros l Hl. unfold fic_full. by apply Nat.leb_le.
  - intros p e He. destruct (decide (p = path)) as [->|Hne].
    + rewrite lru_store_lookup in He. by simplify_eq/=.
    + apply lru_store_other in He; [|done]. by apply Ht.
Qed.

(** The table of file information never lies for longer than it may: started from
    any state of it, an answer about a path is what the file system said of that path
    at an earlier moment, at most the time to live ago when the file was there and at
    most two seconds ago when it was not (unless configured otherwise), and the table
    stays within 2000 entries. *)
Theorem stat_answers_recent hist now c path :
  fic_ok hist c →
  let '(i, c') := statWithCache (hist now) now (Some c) path in
  (∃ t, hist t path = i ∧
    (t = now ∨ time_sub now t ≤
       match i with
       | Some _ => ttl c
       | None => if 0 <? notFoundTTL c then notFoundTTL c else defaultFileNotFoundCacheTTL
       end)) ∧
  ∃ c'', c' = Some c'' ∧ fic_ok hist c''.
Proof.
  intros Hc. unfold statWithCache. destruct (GetWithNotFound now c path) as [[[i hit] ex] c'] eqn:E.
  assert (fic_ok hist c') as Hc' by (pose proof (fic_get_ok hist now c path Hc) as H; by rewrite E in H).
  destruct hit.
  - unfold GetWithNotFound in E. destruct (items (fic c) !! path) as [e|] eqn:He; [|done].
    destruct (_ <=? _) eqn:Hz; [done|]. destruct (_ <? _) eqn:Hl; [done|]. simplify_eq/=.
    apply Z.ltb_ge in Hl. destruct (fo_true _ _ Hc path e He) as [Hh Hn]. unfold entry_ttl in Hl. rewrite Hn in *.
    destruct (fi_info e) as [i|]; cbn in *; (split; [|by eexists]); exists (fi_cachedAt e); (split; [done|right; lia]).
  - pose proof (fic_set_ok hist now c' path (hist now path) Hc' eq_refl) as Hs.
    destruct (hist now path) as [i'|] eqn:Hh; (split; [exists now; by split; [|left]|by eexists]).
Qed.

(** ** The cache of types *)

Record mime_ok (m : mime) : Prop := {
  mo_wf : lru_wf (mimeCache m);
  mo_bound : (length (order (mimeCache m)) ≤ mimeCacheSize)%nat;
  mo_true ext t : items (mimeCache m) !! ext = Some t → t = lookup_type m ext }.

Lemma initial_mime_ok : mime_ok initial_mime.
Proof. split; cbn; [apply lru_empty_wf|lia|]. intros ext t. by rewrite lookup_empty. Qed.

Lemma detect_ok m filePath :
  mime_ok m →
  DetectContentType m filePath = (lookup_type m (ToLower (Ext filePath)), (DetectContentType m filePath).2) ∧
  mime_ok (DetectContentType m filePath).2.
Proof.
  intros [Hw Hb Ht]. unfold DetectContentType. set (ext := ToLower (Ext filePath)).
  destruct (items (mimeCache m) !! ext) as [t|] eqn:E; cbn [snd].
  - split; [by rewrite (Ht ext t E)|]. assert (lru_wf (lru_front (mimeCache m) ext)) as Hw'.
    { apply lru_front_wf; [done|by rewrite E]. }
    split; cbn [mimeCache]; [done| |done].
    by rewrite <- (lru_size _ Hw'), <- (lru_size _ Hw) in *.
  - split; [done|]. split; cbn [mimeCache].
    + by apply lru_store_wf.
    + apply lru_store_bound; [done|unfold mimeCacheSize; lia| |done]. intros l Hl. by apply Nat.leb_le.
    + intros e t He. destruct (decide (e = ext)) as [->|Hne].
      * rewrite lru_store_lookup in He. by simplify_eq.
      * apply lru_store_other in He; [|done]. by apply Ht.
Qed.

Lemma AddTypes_ok m types : mime_ok m → mime_ok (AddTypes m types).
Proof.
  intros Hm. revert m Hm. induction types as [|[ext ty] types IH]; intros m Hm; [by destruct m|].
  set (c' := match items (mimeCache m) !! ToLower ext with Some _ => lru_remove (mimeCache m) (ToLower ext) | None => mimeCache m end).
  assert (items c' = delete (ToLower ext) (items (mimeCache m))) as Hi.
  { unfold c'. destruct (items (mimeCache m) !! ToLower ext) eqn:E; [done|]. by rewrite delete_id. }
  apply (IH (mkMime (<[ToLower ext := ty]> (mimeOverrides m)) c' (defaultMIME m))).
  destruct Hm as [Hw Hb Ht]. split; cbn [mimeCache].
  - unfold c'. destruct (_ !! _); [by apply lru_remove_wf|done].
  - unfold c'. destruct (_ !! _); [|done]. etrans; [|exact Hb]. apply length_filter.
  - intros e t. rewrite Hi. intros [Hne He]%lookup_delete_Some. rewrite (Ht e t He).
    unfold lookup_type. cbn. by rewrite lookup_insert_ne.
Qed.

(** The operations that keep the cache coherent: all but changing the default. *)
Inductive mime_op := Detect (filePath : gostring) | Add (types : list (gostring * gostring)).

Definition mime_step (m : mime) (o : mime_op) : mime :=
  match o with Detect p => (DetectContentType m p).2 | Add ts => AddTypes m ts end.

(** The cache of content types cannot be seen: after any sequence of detections and
    of additions of types, from the initial tables, the type of a path is the one the
    tables give for its lower-case extension, and at most 64 types are cached. *)
Theorem mime_cache_transparent ops filePath :
  let m := foldl mime_step initial_mime ops in
  (DetectContentType m filePath).1 = lookup_type m (ToLower (Ext filePath)) ∧
  (length (order (mimeCache m)) ≤ mimeCacheSize)%nat.
Proof.
  cbn zeta. assert (mime_ok (foldl mime_step initial_mime ops)) as Hm.
  { generalize initial_mime_ok. generalize initial_mime. induction ops as [|o ops IH]; intros m Hm; [done|].
    apply IH. destruct o; cbn; [by apply detect_ok|by apply AddTypes_ok]. }
  split; [|apply Hm]. destruct (detect_ok _ filePath Hm) as [-> _]. done.
Qed.

(** Changing the default type does not reach the extensions that were seen before. *)
Lemma default_type_stale t :
  TypeByExtension (go!".x") = [] →
  let m := (DetectContentType initial_mime (go!"/a.x")).2 in
  (DetectContentType (SetDefaultType m t) (go!"/a.x")).1 = go!"application/octet-stream".
Proof.
  intros Hx. cbn zeta. transitivity (lookup_type initial_mime (go!".x")); [reflexivity|].
  unfold lookup_type. change (mimeOverrides initial_mime !! go!".x") with (@None gostring). by rewrite Hx.
Qed.

End Types.

(** ** Witness *)

Definition ex_hist (t : Z) (path : gostring) : option info :=
  if t <? 5 * second then None else Some (mkInfo false 0 10).

(** The file appears at second 5; at second 4 it was not there. *)
Definition ex_fic : FileInfoCache :=
  SetWithNotFound (4 * second) (SetTTL NewFileInfoCache (10 * second)) (go!"/a") None true.

Lemma stat_answers_recent_witness :
  let '(i, c') := statWithCache (ex_hist (5 * second)) (5 * second) (Some ex_fic) (go!"/a") in
  (∃ t, ex_hist t (go!"/a") = i ∧
    (t = 5 * second ∨ time_sub (5 * second) t ≤
       match i with
       | Some _ => ttl ex_fic
       | None => if 0 <? notFoundTTL ex_fic then notFoundTTL ex_fic else defaultFileNotFoundCacheTTL
       end)) ∧
  ∃ c'', c' = Some c'' ∧ fic_ok ex_hist c''.
Proof.
  apply (stat_answers_recent ex_hist (5 * second) ex_fic).
  apply (fic_set_ok ex_hist (4 * second) _ (go!"/a") None); [apply new_fic_ok|reflexivity].
Defined.
