(* ===== verification/Static.v ===== *)
(** * Static: serving files

    [src/internal/handler/static.go] with the precompressed files of
    [src/internal/middleware/compression/gzip_static.go] and the reading of directories
    of [autoindex.go].  The disk, HTTP dates and the choice of the entry pool are
    parameters; a request runs at one instant.  A slice out of range is [None].  Shown:
    what is opened lies under the root, which file [try_files] picks, what
    conditional requests answer, and where symbolic links and cache headers escape. *)

From S2P Require Import Prelude GoStrings GoPath Lru FileInfo FileCache.
From S2P Require Validate.
From Stdlib Require Import Sorted.

(** [os.Stat], [os.Lstat] (is it a symbolic link?), [filepath.EvalSymlinks],
    [filepath.Abs], [os.ReadFile], [os.Open] and [Readdir]. *)
Class Disk := {
  Stat : gostring → option info;
  Lstat : gostring → option bool;
  EvalSymlinks : gostring → option gostring;
  Abs : gostring → option gostring;
  ReadFile : gostring → option gostring;
  Open : gostring → bool;
  Readdir : gostring → option (list (gostring * info))
}.

(** ** Precompressed files *)

Record GzipStatic := mkGzip {
  g_root : gostring; precompressedExtensions : list gostring; extensions : list gostring;
  extSet : gset gostring; g_enabled : bool; existCache : gmap gostring bool }.

Definition NewGzipStatic (enabled : bool) (root : gostring) (exts pre : list gostring) : GzipStatic :=
  let exts := match exts with
              | [] => [go!".html"; go!".css"; go!".js"; go!".json"; go!".xml"; go!".svg"; go!".txt"]
              | _ => exts
              end in
  let pre := match pre with [] => [go!".br"; go!".gz"] | _ => pre end in
  mkGzip root pre exts (list_to_set (ToLower <$> exts)) enabled ∅.

Definition matchExtension (g : GzipStatic) (filePath : gostring) : bool := bool_decide (ToLower (Ext filePath) ∈ extSet g).

(** [utils.BytesContainsFold] *)
Fixpoint BytesContainsFold (b sub : gostring) : bool :=
  if decide (ToLower (take (length sub) b) = ToLower sub) then true
  else match b with [] => false | _ :: b => BytesContainsFold b sub end.

Definition supportsEncoding (acceptEncoding ext : gostring) : bool :=
  match acceptEncoding with
  | [] => false
  | _ =>
      if decide (ext = go!".br") then BytesContainsFold acceptEncoding (go!"br")
      else if decide (ext = go!".gz") then BytesContainsFold acceptEncoding (go!"gzip")
      else false
  end.

Section Handler.
Context `{Disk} (ParseHTTPDate : gostring → option Z) (TypeByExtension : gostring → gostring).

(** The loop over the extensions: the file to send with its encoding. *)
Fixpoint precompressed_loop (g : GzipStatic) (accept filePath : gostring) (exts : list gostring)
    (cache : gmap gostring bool) : option (gostring * gostring) * gmap gostring bool :=
  match exts with
  | [] => (None, cache)
  | ext :: exts =>
      if negb (supportsEncoding accept ext) then precompressed_loop g accept filePath exts cache
      else
        let fullPath := JoinPath (g_root g) (filePath ++ ext) in
        let '(exists_, cache) :=
          match cache !! fullPath with
          | Some b => (b, cache)
          | None => let b := bool_decide (is_Some (Stat fullPath)) in (b, <[fullPath := b]> cache)
          end in
        if exists_ then
          (Some (fullPath, if decide (ext = go!".br") then go!"br" else if decide (ext = go!".gz") then go!"gzip" else []), cache)
        else precompressed_loop g accept filePath exts cache
  end.

Definition GzipServeFile (g : GzipStatic) (accept filePath : gostring) : option (gostring * gostring) * GzipStatic :=
  if negb (g_enabled g) then (None, g)
  else if negb (matchExtension g filePath) then (None, g)
  else if Contains filePath dotdot then (None, g)
  else
    let '(r, cache) := precompressed_loop g accept filePath (precompressedExtensions g) (existCache g) in
    (r, mkGzip (g_root g) (precompressedExtensions g) (extensions g) (extSet g) (g_enabled g) cache).

(** ** The handler: its configuration, and what requests change *)

Record StaticHandler := mkStatic {
  root : gostring; alias : gostring; pathPrefix : gostring; pathPrefixLen : nat; expires : gostring;
  index : list gostring; tryFiles : list gostring;
  autoIndex : bool; autoIndexFormat : gostring; autoIndexLocaltime : bool; autoIndexExactSize : bool;
  cacheTTL : Z; useSendfile : bool; tryFilesPass : bool; hasRouter : bool; symlinkCheck : bool; internal : bool }.

Record caches := mkCaches {
  fileCache : option FileCache; fileInfoCache : option FileInfoCache; gzipStatic : option GzipStatic; types : mime }.

Definition NewStaticHandler (root pathPrefix : gostring) (index : list gostring) (useSendfile : bool) (types : mime)
  : StaticHandler * caches :=
  let cleanRoot := Clean root in
  let cleanRoot := if HasSuffix cleanRoot [slash] then cleanRoot else cleanRoot ++ [slash] in
  (mkStatic cleanRoot [] pathPrefix (if decide (pathPrefix = [slash]) then 0 else length pathPrefix)%nat [] index []
     false [] false false 0 useSendfile false false false false,
   mkCaches None (Some (SetTTL NewFileInfoCache 0)) None types).

(** [SetAlias] *)
Definition SetAlias (h : StaticHandler) (a : gostring) : StaticHandler :=
  mkStatic (if decide (a = []) then root h else []) a (pathPrefix h) (pathPrefixLen h) (expires h) (index h) (tryFiles h)
    (autoIndex h) (autoIndexFormat h) (autoIndexLocaltime h) (autoIndexExactSize h) (cacheTTL h) (useSendfile h)
    (tryFilesPass h) (hasRouter h) (symlinkCheck h) (internal h).

(** [SetTryFiles] *)
Definition SetTryFiles (h : StaticHandler) (files : list gostring) (pass router : bool) : StaticHandler :=
  mkStatic (root h) (alias h) (pathPrefix h) (pathPrefixLen h) (expires h) (index h) files
    (autoIndex h) (autoIndexFormat h) (autoIndexLocaltime h) (autoIndexExactSize h) (cacheTTL h) (useSendfile h)
    pass router (symlinkCheck h) (internal h).

(** [SetSymlinkCheck] and [SetExpires]. *)
Definition SetSymlinkCheck (h : StaticHandler) (b : bool) : StaticHandler :=
  mkStatic (root h) (alias h) (pathPrefix h) (pathPrefixLen h) (expires h) (index h) (tryFiles h)
    (autoIndex h) (autoIndexFormat h) (autoIndexLocaltime h) (autoIndexExactSize h) (cacheTTL h) (useSendfile h)
    (tryFilesPass h) (hasRouter h) b (internal h).

Definition SetExpires (h : StaticHandler) (e : gostring) : StaticHandler :=
  mkStatic (root h) (alias h) (pathPrefix h) (pathPrefixLen h) e (index h) (tryFiles h)
    (autoIndex h) (autoIndexFormat h) (autoIndexLocaltime h) (autoIndexExactSize h) (cacheTTL h) (useSendfile h)
    (tryFilesPass h) (hasRouter h) (symlinkCheck h) (internal h).

Definition with_fc (s : caches) (fc : option FileCache) : caches :=
  mkCaches fc (fileInfoCache s) (gzipStatic s) (types s).
Definition with_fic (s : caches) (c : option FileInfoCache) : caches :=
  mkCaches (fileCache s) c (gzipStatic s) (types s).
Definition with_gz (s : caches) (g : option GzipStatic) : caches :=
  mkCaches (fileCache s) (fileInfoCache s) g (types s).
Definition with_types (s : caches) (m : mime) : caches :=
  mkCaches (fileCache s) (fileInfoCache s) (gzipStatic s) m.

Definition SetGzipStatic (h : StaticHandler) (s : caches) (enabled : bool) (exts pre : list gostring) : caches :=
  if enabled then with_gz s (Some (NewGzipStatic true (root h) exts pre)) else s.

(** A request: the normalised and the original path, whether it is an internal
    redirect, and the headers that are read. *)
Record request := mkRequest {
  r_path : gostring; r_rawPath : gostring; r_internal : bool;
  if_none_match : gostring; if_modified_since : gostring; accept_encoding : gostring }.

(** The validators of a response, and [Cache-Control] with the instant of [Expires]. *)
Record validators := mkValidators {
  v_ETag : gostring; v_LastModified : Z; v_Cache : option (gostring * Z) }.

Inductive response :=
  | Error (code : Z)
  | NotModified (v : validators)
  | Body (data contentType : gostring) (v : validators)
  | Stream (path : gostring) (size : Z) (contentType : gostring) (v : validators)
  | Precompressed (path encoding contentType : gostring) (v : validators)
  | Listing (path : gostring) (entries : list (gostring * info))
  | Reroute (uri : gostring).

Definition ErrForbidden : response := Error 403.
Definition ErrNotFound : response := Error 404.
Definition ErrInternalError : response := Error 500.

(** ** Expiry *)

Definition expiresOff : gostring := go!"off".
Definition expiresMax : gostring := go!"max".

(** The loop of [parseExpires] over bytes; a byte that is not ASCII does nothing, like
    the rune it belongs to. *)
Fixpoint expires_loop (s : gostring) (total num : Z) : Z :=
  match s with
  | [] => total
  | c :: s =>
      let flush unit := expires_loop s (swrap64 (total + swrap64 (num * unit))) 0 in
      if is_digit c then expires_loop s total (swrap64 (swrap64 (num * 10) + digit_val c))
      else if Ascii.eqb c "d" then flush 86400
      else if Ascii.eqb c "h" then flush 3600
      else if Ascii.eqb c "m" then flush 60
      else if Ascii.eqb c "s" then flush 1
      else expires_loop s total num
  end.

Definition parseExpires (e : gostring) : Z :=
  if decide (e = [] ∨ e = expiresOff) then 0
  else if decide (e = expiresMax) then 315360000
  else if decide (e = go!"epoch") then -1
  else expires_loop e 0 0.

Definition setCacheHeaders (h : StaticHandler) (now : Z) : option (gostring * Z) :=
  if decide (expires h = [] ∨ expires h = expiresOff) then None
  else if decide (expires h = go!"epoch") then Some (go!"no-cache, no-store, must-revalidate", 0)
  else if decide (expires h = expiresMax) then
    Some (go!"public, max-age=315360000, immutable", now + 315360000 * second)
  else
    let maxAge := parseExpires (expires h) in
    if 0 <? maxAge then Some (go!"public, max-age=" ++ FormatInt maxAge, now + swrap64 (maxAge * second)) else None.

(** ** Paths *)

Definition stripPathPrefix (h : StaticHandler) (reqPath : gostring) : option gostring :=
  if (0 <? pathPrefixLen h)%nat then
    if (length reqPath <? pathPrefixLen h)%nat then None
    else
      match drop (pathPrefixLen h) reqPath with
      | c :: rel => if Ascii.eqb c slash then Some (c :: rel) else Some (slash :: c :: rel)
      | [] => Some []
      end
  else Some reqPath.

Definition base (h : StaticHandler) : gostring := if decide (alias h = []) then root h else alias h.

Definition buildFilePath (h : StaticHandler) (relPath : gostring) : gostring := JoinPath (base h) relPath.

(** The comparison of both checks: the same path, or below it. *)
Definition inside (absRoot absTarget : gostring) : bool :=
  HasPrefix absTarget (absRoot ++ [slash]) || bool_decide (absTarget = absRoot).

Definition isPathSafe (h : StaticHandler) (reqPath rawPath : gostring) : option bool :=
  if Contains rawPath dotdot && Contains rawPath (go!"%") then Some false
  else if Contains reqPath dotdot then Some false
  else if decide (base h = []) then Some false
  else
    match Abs (base h) with
    | None => Some false
    | Some absRoot =>
        relPath ← stripPathPrefix h reqPath;
        let relPath := if decide (relPath = []) then dot else relPath in
        match Abs (JoinPath absRoot (Clean relPath)) with
        | None => Some false
        | Some absTarget => Some (inside absRoot absTarget)
        end
    end.

(** [nil] is [true]. *)
Definition validateSymlink (h : StaticHandler) (filePath : gostring) : bool :=
  match Lstat filePath with
  | None => false
  | Some false => true
  | Some true =>
      match EvalSymlinks filePath with
      | None => false
      | Some realPath =>
          if decide (base h = []) then false
          else
            match Abs (base h), Abs realPath with
            | Some absBase, Some absTarget => inside absBase absTarget
            | _, _ => false
            end
      end
  end.

Definition resolveTryFilePath (tryFile relPath : gostring) : gostring :=
  if decide (tryFile = go!"$uri") then relPath
  else if decide (tryFile = go!"$uri/") then relPath ++ [slash]
  else if HasPrefix tryFile (go!"$uri.") then
    if decide (relPath = [slash]) then [] else relPath ++ drop 4 tryFile
  else if HasPrefix tryFile [slash] then drop 1 tryFile
  else tryFile.

(** ** Conditional requests *)

Definition isNotModified (r : request) (etag : gostring) (modTime : Z) : bool :=
  (negb (bool_decide (if_none_match r = [])) &&
   existsb (λ tag, bool_decide (TrimSpace tag = etag)) (SplitByte (if_none_match r) ",")) ||
  (negb (bool_decide (if_modified_since r = [])) &&
   match ParseHTTPDate (if_modified_since r) with
   | Some t => negb (time_after modTime t)
   | None => false
   end).

(** ** Serving *)

Section Request.
(** The instant of the request, and which recycled entry the pool gives. *)
Context (now : Z) (choice : nat) (h : StaticHandler) (r : request).

Definition stat (s : caches) (path : gostring) : option info * caches :=
  let '(i, c) := statWithCache Stat now (fileInfoCache s) path in (i, with_fic s c).

Definition ctype (s : caches) (path : gostring) : gostring * caches :=
  let '(t, m) := DetectContentType TypeByExtension (types s) path in (t, with_types s m).

(** [tryServeFromFileCache]: [None] goes on. *)
Definition tryServeFromFileCache (s : caches) (filePath : gostring) (i : info) : option response * caches :=
  match fileCache s with
  | None => (None, s)
  | Some fc =>
      match FileCache.Get now fc filePath with
      | (None, fc) => (None, with_fc s (Some fc))
      | (Some p, fc) =>
          let e := file fc p in
          let v := mkValidators (ETag e) (i_ModTime i) None in
          if (0 <? cacheTTL h) && (time_sub now (CachedAt e) <? cacheTTL h) then
            (Some (if isNotModified r (ETag e) (i_ModTime i) then NotModified v else Body (Data e) (ContentType e) v),
             with_fc s (Some fc))
          else if ModTime e =? i_ModTime i then
            if isNotModified r (ETag e) (i_ModTime i) then (Some (NotModified v), with_fc s (Some fc))
            else
              (Some (Body (Data e) (ContentType e) v),
               with_fc s (Some (if 0 <? cacheTTL h then FileCache.RefreshCachedAt now fc filePath else fc)))
          else (None, with_fc s (Some (FileCache.Delete fc filePath)))
      end
  end.

Definition MinSendfileSize : Z := 8 * 1024.

(** From the cache of files, for [serveFile]: no time to live, no conditional request. *)
Definition cached_body (s : caches) (filePath : gostring) (i : info) (v : option (gostring * Z))
  : option response * caches :=
  match fileCache s with
  | None => (None, s)
  | Some fc =>
      match FileCache.Get now fc filePath with
      | (None, fc) => (None, with_fc s (Some fc))
      | (Some p, fc) =>
          let e := file fc p in
          if ModTime e =? i_ModTime i then
            (Some (Body (Data e) (ContentType e) (mkValidators (ETag e) (i_ModTime i) v)), with_fc s (Some fc))
          else (None, with_fc s (Some (FileCache.Delete fc filePath)))
      end
  end.

Definition read_file (s : caches) (filePath : gostring) (i : info) (v : validators) : response * caches :=
  match ReadFile filePath with
  | None => (ErrInternalError, s)
  | Some data =>
      let '(t, s) := ctype s filePath in
      let s := match fileCache s with
               | Some fc =>
                   if i_Size i <? 1024 * 1024
                   then with_fc s (Some (FileCache.Set_ now choice fc filePath data (i_Size i) (i_ModTime i) t)) else s
               | None => s
               end in
      (Body data t v, s)
  end.

Definition send_file (s : caches) (filePath : gostring) (i : info) (v : validators) : response * caches :=
  if useSendfile h && (MinSendfileSize <=? i_Size i) then
    let '(t, s) := ctype s filePath in
    if Open filePath then (Stream filePath (i_Size i) t v, s) else read_file s filePath i v
  else read_file s filePath i v.

Definition serveFile (s : caches) (filePath : gostring) (i : info) (skipCacheLookup : bool) : response * caches :=
  let etag := GenerateETag (i_ModTime i) (i_Size i) in
  let v := mkValidators etag (i_ModTime i) (setCacheHeaders h now) in
  if isNotModified r etag (i_ModTime i) then (NotModified v, s)
  else
    let '(pre, s) :=
      match gzipStatic s with
      | None => (None, s)
      | Some g =>
          let '(o, g) := GzipServeFile g (accept_encoding r) (TrimPrefix filePath (root h)) in (o, with_gz s (Some g))
      end in
    match pre with
    | Some (path, encoding) =>
        let '(t, s) := ctype s (TrimPrefix filePath (root h)) in (Precompressed path encoding t v, s)
    | None =>
        let '(hit, s) := if skipCacheLookup then (None, s) else cached_body s filePath i (setCacheHeaders h now) in
        match hit with Some resp => (resp, s) | None => send_file s filePath i v end
    end.

(** The index files of a directory: the first one that is a file. *)
Fixpoint index_loop (s : caches) (dir : gostring) (skipCacheLookup : bool) (idxs : list gostring)
  : option response * caches :=
  match idxs with
  | [] => (None, s)
  | idx :: idxs =>
      let idxPath := JoinPath dir idx in
      match stat s idxPath with
      | (Some i, s) =>
          if IsDir i then index_loop s dir skipCacheLookup idxs
          else
            match tryServeFromFileCache s idxPath i with
            | (Some resp, s) => (Some resp, s)
            | (None, s) => let '(resp, s) := serveFile s idxPath i skipCacheLookup in (Some resp, s)
            end
      | (None, s) => index_loop s dir skipCacheLookup idxs
      end
  end.

(** [readDirectory] and the order of [GenerateAutoIndex]: directories first, then by name. *)
Definition listed (e : gostring * info) : bool := negb (HasPrefix e.1 dot).

Fixpoint string_leb (s t : gostring) : bool :=
  match s, t with
  | [], _ => true
  | _ :: _, [] => false
  | c :: s, d :: t => (byteZ c <? byteZ d) || ((byteZ c =? byteZ d) && string_leb s t)
  end.

Definition entry_leb (a b : gostring * info) : bool :=
  if Bool.eqb (IsDir a.2) (IsDir b.2) then string_leb a.1 b.1 else IsDir a.2.

Fixpoint insert_entry (e : gostring * info) (l : list (gostring * info)) : list (gostring * info) :=
  match l with
  | [] => [e]
  | e' :: l' => if entry_leb e e' then e :: l else e' :: insert_entry e l'
  end.

Definition GenerateAutoIndex (dirPath : gostring) : option response :=
  es ← Readdir dirPath; Some (Listing dirPath (foldr insert_entry [] (filter (λ e, listed e = true) es))).

Definition handleStandard (s : caches) (reqPath : gostring) : option (response * caches) :=
  relPath ← stripPathPrefix h reqPath;
  let filePath := buildFilePath h relPath in
  Some
    match stat s filePath with
    | (None, s) => (ErrNotFound, s)
    | (Some i, s) =>
        if symlinkCheck h && negb (validateSymlink h filePath) then (ErrForbidden, s)
        else if IsDir i then
          match index_loop s filePath true (index h) with
          | (Some resp, s) => (resp, s)
          | (None, s) =>
              (default ErrForbidden (if autoIndex h then GenerateAutoIndex filePath else None), s)
          end
        else
          match tryServeFromFileCache s filePath i with
          | (Some resp, s) => (resp, s)
          | (None, s) => serveFile s filePath i true
          end
    end.

Definition handleInternalRedirect (s : caches) (targetPath : gostring) : response * caches :=
  if tryFilesPass h && hasRouter h then
    let newPath := pathPrefix h ++ targetPath in
    (Reroute (if HasPrefix newPath [slash] then newPath else slash :: newPath), s)
  else
    let filePath := buildFilePath h targetPath in
    match stat s filePath with
    | (None, s) => (ErrNotFound, s)
    | (Some i, s) => if IsDir i then (ErrForbidden, s) else serveFile s filePath i false
    end.

Fixpoint try_loop (s : caches) (relPath : gostring) (files : list gostring) : response * caches :=
  match files with
  | [] => (ErrNotFound, s)
  | tryFile :: files =>
      let targetPath := resolveTryFilePath tryFile relPath in
      let filePath := buildFilePath h targetPath in
      match stat s filePath with
      | (None, s) => try_loop s relPath files
      | (Some i, s) =>
          if IsDir i then
            match index_loop s filePath false (index h) with
            | (Some resp, s) => (resp, s)
            | (None, s) => try_loop s relPath files
            end
          else if negb (HasPrefix tryFile (go!"$uri")) then handleInternalRedirect s targetPath
          else serveFile s filePath i false
      end
  end.

Definition handleTryFiles (s : caches) (reqPath : gostring) : option (response * caches) :=
  relPath ← stripPathPrefix h reqPath; Some (try_loop s relPath (tryFiles h)).

Definition Handle (s : caches) : option (response * caches) :=
  if internal h && negb (r_internal r) then Some (ErrNotFound, s)
  else
    safe ← isPathSafe h (r_path r) (r_rawPath r);
    if negb safe then Some (ErrForbidden, s)
    else match tryFiles h with
         | [] => handleStandard s (r_path r)
         | _ => handleTryFiles s (r_path r)
         end.
End Request.
End Handler.

(** ** Nothing outside the root can be seen *)

(** Two disks that agree on a directory and what is below it. *)
Record agree (D1 D2 : Disk) (dir : gostring) : Prop := {
  ag_abs p : Abs (Disk := D1) p = Abs (Disk := D2) p;
  ag_stat p : below dir p → Stat (Disk := D1) p = Stat (Disk := D2) p;
  ag_lstat p : below dir p → Lstat (Disk := D1) p = Lstat (Disk := D2) p;
  ag_links p : below dir p → EvalSymlinks (Disk := D1) p = EvalSymlinks (Disk := D2) p;
  ag_read p : below dir p → ReadFile (Disk := D1) p = ReadFile (Disk := D2) p;
  ag_open p : below dir p → Open (Disk := D1) p = Open (Disk := D2) p;
  ag_dir p : below dir p → Readdir (Disk := D1) p = Readdir (Disk := D2) p }.

Section Contained.
Context (D1 D2 : Disk) (PD : gostring → option Z) (TE : gostring → gostring).
Context (now : Z) (choice : nat) (h : StaticHandler) (r : request).
Context (Hdir : proper_dir (base h)) (Hag : agree D1 D2 (Clean (base h))).

Abbreviation dir := (Clean (base h)).

(** Precompressed files are looked for under the same root. *)
Definition gz_ok (s : caches) : Prop :=
  match gzipStatic s with None => True | Some g => alias h = [] ∧ g_root g = root h end.

Lemma gz_ok_same s s' : gzipStatic s' = gzipStatic s → gz_ok s → gz_ok s'.
Proof. unfold gz_ok. by intros ->. Qed.

Lemma stat_agree s p : below dir p → stat (H := D1) now s p = stat (H := D2) now s p.
Proof.
  intros Hp. unfold stat, statWithCache. rewrite (ag_stat _ _ _ Hag p Hp).
  destruct (fileInfoCache s); [|done]. destruct (GetWithNotFound _ _ _) as [[[? []] []] ?]; done.
Qed.

Lemma stat_gz `{Disk} s p : gzipStatic (stat now s p).2 = gzipStatic s.
Proof. unfold stat. by destruct (statWithCache _ _ _ _). Qed.

Lemma try_cache_gz s p i : gzipStatic (tryServeFromFileCache PD now h r s p i).2 = gzipStatic s.
Proof. unfold tryServeFromFileCache. repeat case_match; by simplify_eq/=. Qed.

Lemma supportsEncoding_ext accept ext :
  supportsEncoding accept ext = true → ∃ e, ext = "."%char :: e ∧ slash ∉ e ∧ e ≠ [] ∧ HasPrefix e dot = false.
Proof.
  unfold supportsEncoding. destruct accept; [done|]. case_decide as H1.
  { intros _. exists (go!"br"). split_and!; [done| |done|done]. set_solver. }
  case_decide as H2; [|done]. intros _. exists (go!"gz"). split_and!; [done| |done|done]. set_solver.
Qed.

Lemma precompressed_agree g accept p exts cache :
  g_root g = base h → no_dotdot p →
  precompressed_loop (H := D1) g accept p exts cache = precompressed_loop (H := D2) g accept p exts cache.
Proof.
  intros Hg Hp. revert cache. induction exts as [|ext exts IH]; intros cache; [done|]. cbn [precompressed_loop].
  destruct (supportsEncoding accept ext) eqn:E; cbn [negb]; [|apply IH].
  apply supportsEncoding_ext in E as (e & -> & He1 & He2 & He3). rewrite Hg.
  rewrite (ag_stat _ _ _ Hag); [|apply JoinPath_below; [done|by apply no_dotdot_extension]].
  destruct (cache !! _) as [[]|]; [done|apply IH|]. case_bool_decide; [done|apply IH].
Qed.

Lemma GzipServeFile_agree s g accept p :
  gz_ok s → gzipStatic s = Some g → GzipServeFile (H := D1) g accept p = GzipServeFile (H := D2) g accept p.
Proof.
  unfold gz_ok. intros Hok Hg. rewrite Hg in Hok. destruct Hok as [Ha Hr]. unfold GzipServeFile.
  destruct (g_enabled g); [|done]. destruct (matchExtension g p); [|done]. cbn [negb].
  destruct (Contains p dotdot) eqn:Hc; [done|]. rewrite precompressed_agree; [done| |by apply no_dotdot_contains].
  rewrite Hr. unfold base. by rewrite decide_True.
Qed.

Lemma read_file_agree s p i v : below dir p → read_file (H := D1) TE now choice s p i v = read_file (H := D2) TE now choice s p i v.
Proof. intros Hp. unfold read_file. by rewrite (ag_read _ _ _ Hag p Hp). Qed.

Lemma send_file_agree s p i v : below dir p → send_file (H := D1) TE now choice h s p i v = send_file (H := D2) TE now choice h s p i v.
Proof.
  intros Hp. unfold send_file. destruct (_ && _); [|by apply read_file_agree].
  destruct (ctype TE s p) as [t s']. rewrite (ag_open _ _ _ Hag p Hp). by rewrite read_file_agree.
Qed.

Lemma serveFile_agree s p i b :
  below dir p → gz_ok s → serveFile (H := D1) PD TE now choice h r s p i b = serveFile (H := D2) PD TE now choice h r s p i b.
Proof.
  intros Hp Hg. unfold serveFile. destruct (isNotModified _ _ _ _); [done|].
  destruct (gzipStatic s) as [g|] eqn:E.
  - rewrite (GzipServeFile_agree s g) by done. destruct (GzipServeFile g _ _) as [[[? ?]|] g']; [done|].
    destruct (if b then _ else _) as [[?|] s']; [done|]. by apply send_file_agree.
  - destruct (if b then _ else _) as [[?|] s']; [done|]. by apply send_file_agree.
Qed.

Lemma below_join p idx : below dir p → Clean p = p → no_dotdot idx → below dir (JoinPath p idx).
Proof.
  intros Hb Hc Hi. assert (Clean dir = dir) as Hcd by (apply Clean_idem, Hdir).
  assert (proper_dir dir) as Hdd.
  { split; [apply Clean_abs, Hdir|]. rewrite Hcd. apply Hdir. }
  pose proof (below_proper dir p Hdd Hcd Hc Hb) as Hp. eapply below_trans; [exact Hb|].
  rewrite <- Hc at 1. by apply JoinPath_below.
Qed.

Lemma index_loop_agree s p b idxs :
  below dir p → Clean p = p → gz_ok s → Forall no_dotdot idxs →
  index_loop (H := D1) PD TE now choice h r s p b idxs = index_loop (H := D2) PD TE now choice h r s p b idxs ∧
  ((index_loop (H := D2) PD TE now choice h r s p b idxs).1 = None →
   gzipStatic (index_loop (H := D2) PD TE now choice h r s p b idxs).2 = gzipStatic s).
Proof.
  intros Hp Hc Hg Hi. revert s Hg. induction Hi as [|idx idxs Hidx Hi IH]; intros s Hg; [done|].
  cbn [index_loop]. pose proof (below_join p idx Hp Hc Hidx) as Hb. rewrite (stat_agree s _ Hb).
  pose proof (stat_gz (H := D2) s (JoinPath p idx)) as Hs.
  destruct (stat now s (JoinPath p idx)) as [[i|] s1]; cbn [snd] in Hs.
  - destruct (IsDir i).
    + rewrite <- Hs. apply IH. by eapply gz_ok_same.
    + pose proof (try_cache_gz s1 (JoinPath p idx) i) as Ht.
      destruct (tryServeFromFileCache _ _ _ _ _ _ _) as [[resp|] s2]; cbn [snd] in Ht; [done|].
      rewrite serveFile_agree; [|done|eapply gz_ok_same; [|exact Hg]; congruence].
      by destruct (serveFile _ _ _ _ _ _ _ _ _ _).
  - rewrite <- Hs. apply IH. by eapply gz_ok_same.
Qed.

Lemma strip_no_dotdot reqPath relPath :
  Contains reqPath dotdot = false → stripPathPrefix h reqPath = Some relPath → no_dotdot relPath.
Proof.
  intros Hc. unfold stripPathPrefix. destruct (0 <? _)%nat; [|intros [= <-]; by apply no_dotdot_contains].
  destruct (_ <? _)%nat; [done|]. pose proof (no_dotdot_drop reqPath (pathPrefixLen h) Hc) as Hd.
  destruct (drop _ _) as [|c rel]; [by intros [= <-]|]. destruct (Ascii.eqb c slash); intros [= <-]; [done|].
  by apply no_dotdot_cons_slash.
Qed.

Lemma build_below relPath :
  no_dotdot relPath → below dir (buildFilePath h relPath) ∧ Clean (buildFilePath h relPath) = buildFilePath h relPath.
Proof. intros Hr. split; [by apply JoinPath_below|]. apply JoinPath_clean, Hdir. Qed.

(** What validation accepts of [try_files], and what it should not. *)
Definition try_safe (tf : gostring) : Prop :=
  Validate.validateTryFilesPattern tf = None ∧ Contains tf dotdot = false.

Lemma resolve_no_dotdot tf relPath : try_safe tf → no_dotdot relPath → no_dotdot (resolveTryFilePath tf relPath).
Proof.
  intros [Hv Hc] Hr. unfold resolveTryFilePath. case_decide as H1; [done|].
  case_decide as H2; [by apply no_dotdot_slash|]. destruct (HasPrefix tf (go!"$uri.")) eqn:Hp.
  - case_decide; [by apply no_dotdot_contains|]. apply HasPrefix_spec in Hp as [ext ->].
    change (drop 4 (go!"$uri." ++ ext)) with ("."%char :: ext).
    unfold Validate.validateTryFilesPattern in Hv. rewrite !Validate.first_error_cons in Hv.
    destruct Hv as (_ & _ & Hv & _). rewrite HasPrefix_app in Hv. change (drop 5 (go!"$uri." ++ ext)) with ext in Hv.
    destruct (Validate.is_in _ _) eqn:Hin.
    { unfold Validate.is_in in Hin. apply bool_decide_eq_true in Hin. exfalso.
      apply elem_of_cons in Hin as [?|Hin%list_elem_of_singleton]; [done|]. by destruct ext. }
    apply Validate.under_none, Validate.try_files_ext_chars in Hv as (Hne & Hs & _).
    apply no_dotdot_extension; [done..|]. destruct (HasPrefix ext dot) eqn:Hd; [|done].
    apply HasPrefix_spec in Hd as [k ->]. exfalso. change (go!"$uri." ++ dot ++ k) with (go!"$uri" ++ dotdot ++ k) in Hc.
    by rewrite Contains_app in Hc.
  - destruct (HasPrefix tf [slash]); [by apply no_dotdot_drop|by apply no_dotdot_contains].
Qed.

Lemma validateSymlink_agree p : below dir p → validateSymlink (H := D1) h p = validateSymlink (H := D2) h p.
Proof.
  intros Hp. unfold validateSymlink. rewrite (ag_lstat _ _ _ Hag p Hp), (ag_links _ _ _ Hag p Hp).
  destruct (Lstat p) as [[]|]; [|done..]. destruct (EvalSymlinks p); [|done]. by rewrite !(ag_abs _ _ _ Hag).
Qed.

Context (Hindex : Forall no_dotdot (index h)).

Lemma handleStandard_agree s reqPath :
  Contains reqPath dotdot = false → gz_ok s →
  handleStandard (H := D1) PD TE now choice h r s reqPath = handleStandard (H := D2) PD TE now choice h r s reqPath.
Proof.
  intros Hc Hg. unfold handleStandard. destruct (stripPathPrefix h reqPath) as [rel|] eqn:Hs; [|done].
  cbn [mbind option_bind]. f_equal. destruct (build_below rel (strip_no_dotdot _ _ Hc Hs)) as [Hb Hcl].
  rewrite (stat_agree s _ Hb). pose proof (stat_gz (H := D2) s (buildFilePath h rel)) as Hs1.
  destruct (stat now s _) as [[i|] s1]; [|done]. cbn [snd] in Hs1. rewrite validateSymlink_agree by done.
  assert (gz_ok s1) as Hg1 by (by eapply gz_ok_same). destruct (_ && _); [done|]. destruct (IsDir i).
  - destruct (index_loop_agree s1 _ true (index h) Hb Hcl Hg1 Hindex) as [-> _].
    destruct (index_loop _ _ _ _ _ _ _ _ _ _) as [[?|] ?]; [done|]. unfold GenerateAutoIndex.
    by rewrite (ag_dir _ _ _ Hag _ Hb).
  - pose proof (try_cache_gz s1 (buildFilePath h rel) i) as Ht.
    destruct (tryServeFromFileCache _ _ _ _ _ _ _) as [[?|] s2]; [done|]. cbn [snd] in Ht.
    apply serveFile_agree; [done|]. eapply gz_ok_same; [|exact Hg1]. congruence.
Qed.

Lemma handleInternalRedirect_agree s target :
  no_dotdot target → gz_ok s →
  handleInternalRedirect (H := D1) PD TE now choice h r s target = handleInternalRedirect (H := D2) PD TE now choice h r s target.
Proof.
  intros Hn Hg. unfold handleInternalRedirect. destruct (_ && _); [done|]. destruct (build_below target Hn) as [Hb _].
  rewrite (stat_agree s _ Hb). pose proof (stat_gz (H := D2) s (buildFilePath h target)) as Hs.
  destruct (stat now s _) as [[i|] s1]; [|done]. destruct (IsDir i); [done|]. apply serveFile_agree; [done|].
  by eapply gz_ok_same.
Qed.

Lemma try_loop_agree s rel files :
  no_dotdot rel → gz_ok s → Forall try_safe files →
  try_loop (H := D1) PD TE now choice h r s rel files = try_loop (H := D2) PD TE now choice h r s rel files.
Proof.
  intros Hr Hg Hf. revert s Hg. induction Hf as [|tf files Htf Hf IH]; intros s Hg; [done|]. cbn [try_loop].
  pose proof (resolve_no_dotdot tf rel Htf Hr) as Hn. destruct (build_below _ Hn) as [Hb Hcl].
  rewrite (stat_agree s _ Hb). pose proof (stat_gz (H := D2) s (buildFilePath h (resolveTryFilePath tf rel))) as Hs.
  destruct (stat now s _) as [[i|] s1]; cbn [snd] in Hs; [|apply IH; by eapply gz_ok_same].
  assert (gz_ok s1) as Hg1 by (by eapply gz_ok_same). destruct (IsDir i).
  - destruct (index_loop_agree s1 _ false (index h) Hb Hcl Hg1 Hindex) as [-> Hgz].
    destruct (index_loop _ _ _ _ _ _ _ _ _ _) as [[?|] s2]; [done|]. apply IH.
    eapply gz_ok_same; [|exact Hg1]. by apply Hgz.
  - destruct (negb _); [by apply handleInternalRedirect_agree|]. by apply serveFile_agree.
Qed.

Lemma isPathSafe_agree reqPath rawPath : isPathSafe (H := D1) h reqPath rawPath = isPathSafe (H := D2) h reqPath rawPath.
Proof.
  unfold isPathSafe. destruct (_ && _); [done|]. destruct (Contains _ _); [done|]. case_decide; [done|].
  rewrite (ag_abs _ _ _ Hag). destruct (Abs (base h)); [|done]. destruct (stripPathPrefix h reqPath); [|done].
  cbn [mbind option_bind]. by rewrite (ag_abs _ _ _ Hag).
Qed.

Lemma isPathSafe_dotdot reqPath rawPath :
  isPathSafe (H := D2) h reqPath rawPath = Some true → Contains reqPath dotdot = false.
Proof.
  unfold isPathSafe. destruct (_ && _); [done|]. by destruct (Contains reqPath dotdot).
Qed.

(** C2: A static handler cannot be made to look outside its directory: whatever the
    request, its headers, the caches and the configuration of [try_files] and index
    files that validation accepts, two disks that agree on the directory and what is
    below it answer the same and leave the same caches, however they differ elsewhere,
    so no path, encoding or prefix lets a response depend on a file outside. *)
Theorem nothing_outside_root s :
  gz_ok s → Forall try_safe (tryFiles h) →
  Handle (H := D1) PD TE now choice h r s = Handle (H := D2) PD TE now choice h r s.
Proof.
  intros Hg Htf. unfold Handle. destruct (_ && _); [done|]. rewrite isPathSafe_agree.
  destruct (isPathSafe h (r_path r) (r_rawPath r)) as [[]|] eqn:Hp; [|done..]. cbn [mbind option_bind negb].
  apply isPathSafe_dotdot in Hp. destruct (tryFiles h) as [|tf files] eqn:Ht; [by apply handleStandard_agree|].
  unfold handleTryFiles. destruct (stripPathPrefix h (r_path r)) as [rel|] eqn:Hs; [|done].
  cbn [mbind option_bind]. f_equal. rewrite Ht. apply try_loop_agree; [|done..]. by eapply strip_no_dotdot.
Qed.
End Contained.

(** ** Where the checks and the headers escape *)

Section Gaps.
Context `{Disk} (PD : gostring → option Z) (TE : gostring → gostring).

(** The check of symbolic links covers less than it says: with [try_files] it never
    happens, whatever the links on the disk, and elsewhere a file that is not itself a
    link passes wherever the directories on the way to it lead. *)
Theorem symlink_check_skipped now choice h r s p :
  (tryFiles h ≠ [] →
   Handle PD TE now choice (SetSymlinkCheck h true) r s = Handle PD TE now choice (SetSymlinkCheck h false) r s) ∧
  (Lstat p = Some false → validateSymlink h p = true).
Proof.
  split; [|intros Hl; unfold validateSymlink; by rewrite Hl].
  intros Ht. unfold Handle. cbn [internal SetSymlinkCheck tryFiles].
  assert (∀ b, isPathSafe (SetSymlinkCheck h b) (r_path r) (r_rawPath r) = isPathSafe h (r_path r) (r_rawPath r)) as Hp by done.
  rewrite !Hp. destruct (tryFiles h) as [|tf files]; done.
Qed.

(** The cache headers of a response that has a body. *)
Definition cache_of (resp : response) : option (gostring * Z) :=
  match resp with
  | NotModified v | Body _ _ v | Stream _ _ _ v | Precompressed _ _ _ v => v_Cache v
  | _ => None
  end.

(** The expiry that is configured is lost on cached files: what is served from the
    disk carries the headers of the configuration, what is served from the file
    cache carries none. *)
Theorem cached_response_drops_expires now choice h r s p i :
  (∀ resp s', tryServeFromFileCache PD now h r s p i = (Some resp, s') → cache_of resp = None) ∧
  (∀ resp s' b, serveFile PD TE now choice h r s p i b = (resp, s') → resp ≠ ErrInternalError →
     cache_of resp = setCacheHeaders h now).
Proof.
  split.
  - intros resp s'. unfold tryServeFromFileCache. repeat case_match; intros; by simplify_eq/=.
  - intros resp s' b. unfold serveFile. destruct (isNotModified _ _ _ _); [by intros [= <- <-]|].
    assert (∀ s, ∀ resp s', send_file TE now choice h s p i (mkValidators (GenerateETag (i_ModTime i) (i_Size i)) (i_ModTime i)
      (setCacheHeaders h now)) = (resp, s') → resp ≠ ErrInternalError → cache_of resp = setCacheHeaders h now) as Hsend.
    { intros s0 resp0 s0'. unfold send_file, read_file, ctype, ErrInternalError. repeat case_match; intros; by simplify_eq/=. }
    destruct (match gzipStatic s with None => _ | Some g => _ end) as [[[? ?]|] s1].
    { unfold ctype. destruct (DetectContentType _ _ _). by intros [= <- <-]. }
    destruct b; [by apply Hsend|]. unfold cached_body. repeat case_match; intros; simplify_eq/=; try done; by eapply Hsend.
Qed.

(** A date alone never revalidates a file whose time has a fraction of a second:
    the date that was sent is the second before it, and the file is after that. *)
Theorem if_modified_since_subsecond r etag modTime :
  if_none_match r = [] → modTime mod second ≠ 0 →
  PD (if_modified_since r) = Some (modTime / second * second) →
  isNotModified PD r etag modTime = false.
Proof.
  intros Hn Hm Hd. unfold isNotModified. rewrite Hn, Hd, bool_decide_true by done. cbn [negb andb orb].
  unfold time_after. assert (modTime / second * second <? modTime = true) as ->.
  { apply Z.ltb_lt. pose proof (Z.div_mod modTime second ltac:(done)) as Hdm.
    pose proof (Z.mod_pos_bound modTime second ltac:(done)). lia. }
  by rewrite andb_false_r.
Qed.

(** A handler whose directory is the root of the file system serves nothing below it: the
    check appends a separator to a path that already ends in one. *)
Theorem root_directory_forbidden h path rawPath :
  base h = [slash] → pathPrefixLen h = 0%nat → IsAbs path = true → Clean path ≠ [slash] →
  (∀ p, IsAbs p = true → Abs p = Some (Clean p)) →
  isPathSafe h path rawPath = Some false.
Proof.
  intros Hb Hl Hp Hc Habs. unfold isPathSafe. rewrite Hb. destruct (_ && _); [done|].
  destruct (Contains path dotdot) eqn:Hd; [done|]. apply no_dotdot_contains in Hd.
  case_decide; [done|]. rewrite Habs by done. unfold stripPathPrefix. rewrite Hl. cbn [Nat.ltb Nat.leb mbind option_bind].
  case_decide as Hnil; [by rewrite Hnil in Hp|]. change (Clean [slash]) with [slash].
  rewrite JoinPath_root, Clean_idem, Habs by (done || by apply Clean_abs). rewrite Clean_idem by done.
  unfold inside. rewrite bool_decide_false by done. rewrite orb_false_r. f_equal.
  apply HasPrefix_false. unfold Clean. rewrite Hp. intros [k Hk]. cbn in Hk. injection Hk as Hk.
  pose proof (clean_elems_plain path Hp) as Hpl. destruct Hpl as [|e l (He & _ & _ & Hs) _]; [done|].
  destruct e as [|c e]; [done|]. apply Hs. destruct l; cbn in Hk; injection Hk as -> _; by left.
Qed.

(** ** Which file answers *)

Lemma stat_uncached now s p : fileInfoCache s = None → stat now s p = (Stat p, s).
Proof. intros Hs. unfold stat, statWithCache. rewrite Hs. by destruct s; cbn in *; subst. Qed.

Lemma try_loop_skip now choice h r s rel pre files :
  fileInfoCache s = None →
  (∀ tf, tf ∈ pre → Stat (buildFilePath h (resolveTryFilePath tf rel)) = None) →
  try_loop PD TE now choice h r s rel (pre ++ files) = try_loop PD TE now choice h r s rel files.
Proof.
  intros Hs Hpre. induction pre as [|tf pre IH]; [done|]. cbn [app try_loop].
  rewrite stat_uncached, Hpre by (done || by left). apply IH. intros tf' Htf'. apply Hpre. by right.
Qed.

(** [try_files] answers with the first entry that exists: entries that are not on
    the disk are passed over, the first that is a file is served when it was made from the
    request's path and redirected to internally otherwise, and when none exists the
    answer is 404. *)
Theorem try_files_first now choice h r s rel pre tf post i :
  fileInfoCache s = None →
  (∀ tf', tf' ∈ pre → Stat (buildFilePath h (resolveTryFilePath tf' rel)) = None) →
  Stat (buildFilePath h (resolveTryFilePath tf rel)) = Some i → IsDir i = false →
  try_loop PD TE now choice h r s rel (pre ++ tf :: post) =
    (if HasPrefix tf (go!"$uri") then serveFile PD TE now choice h r s (buildFilePath h (resolveTryFilePath tf rel)) i false
     else handleInternalRedirect PD TE now choice h r s (resolveTryFilePath tf rel)) ∧
  try_loop PD TE now choice h r s rel pre = (ErrNotFound, s).
Proof.
  intros Hs Hpre Htf Hi. split.
  - rewrite try_loop_skip by done. cbn [try_loop]. rewrite stat_uncached, Htf, Hi by done.
    by destruct (HasPrefix tf (go!"$uri")).
  - pose proof (try_loop_skip now choice h r s rel pre [] Hs Hpre) as H0. by rewrite app_nil_r in H0.
Qed.

(** ** The order of a listing *)

Lemma string_leb_total s t : string_leb s t = false → string_leb t s = true.
Proof.
  revert t. induction s as [|c s IH]; intros [|d t]; cbn; try done. intros Hf.
  apply orb_false_iff in Hf as [H1 H2]. apply Z.ltb_ge in H1. apply orb_true_iff.
  destruct (Z.eqb_spec (byteZ c) (byteZ d)) as [E|E]; [right|left; apply Z.ltb_lt; lia].
  rewrite E, Z.eqb_refl. by apply IH.
Qed.

Lemma entry_leb_total a b : entry_leb a b = false → entry_leb b a = true.
Proof.
  unfold entry_leb. destruct (IsDir a.2), (IsDir b.2); cbn; try done; apply string_leb_total.
Qed.

Lemma insert_entry_perm e l : insert_entry e l ≡ₚ e :: l.
Proof. induction l as [|e' l IH]; [done|]. cbn. destruct (entry_leb e e'); [done|]. rewrite IH. by constructor. Qed.

Lemma insert_entry_sorted e l : Sorted (λ a b, entry_leb a b = true) l → Sorted (λ a b, entry_leb a b = true) (insert_entry e l).
Proof.
  induction 1 as [|e' l Hl IH Hd]; [by repeat constructor|]. cbn. destruct (entry_leb e e') eqn:E; [by repeat constructor|].
  constructor; [done|]. apply entry_leb_total in E. destruct l as [|x l]; cbn; [by constructor|].
  inversion Hd; subst. by destruct (entry_leb e x); constructor.
Qed.

(** A listing of a directory shows what is in it and nothing else, without the hidden
    files, with directories first and by name within each kind. *)
Theorem listing_sorted dirPath entries es :
  Readdir dirPath = Some entries → GenerateAutoIndex dirPath = Some (Listing dirPath es) →
  es ≡ₚ filter (λ e, listed e = true) entries ∧ Sorted (λ a b, entry_leb a b = true) es.
Proof.
  unfold GenerateAutoIndex. intros ->. cbn [mbind option_bind]. intros [= <-]. 
  induction (filter _ entries) as [|e l [IHp IHs]]; [done|]. cbn. split.
  - rewrite insert_entry_perm. by constructor.
  - by apply insert_entry_sorted.
Qed.
End Gaps.

(** ** Witnesses *)

Definition ex_disk (secret : gostring) : Disk := {|
  Stat p := if decide (p = go!"/w/a.txt") then Some (mkInfo false (1500 * millisecond) 3)
            else if decide (p = go!"/etc/passwd") then Some (mkInfo false 0 9) else None;
  Lstat p := Some false; EvalSymlinks p := Some p; Abs p := Some (Clean p);
  ReadFile p := if decide (p = go!"/w/a.txt") then Some (go!"abc") else if decide (p = go!"/etc/passwd") then Some secret else None;
  Open p := true; Readdir p := Some [(go!"b", mkInfo false 0 1); (go!".git", mkInfo true 0 0); (go!"sub", mkInfo true 0 0)] |}.

Definition ex_mime : mime := initial_mime.
Definition ex_handler : StaticHandler * caches := NewStaticHandler (go!"/w") (go!"/") [go!"index.html"] false ex_mime.
Definition ex_request (path : gostring) : request := mkRequest path path false [] (go!"date") [].

Lemma ex_agree s1 s2 : agree (ex_disk s1) (ex_disk s2) (go!"/w").
Proof.
  split; try done. intros p Hp. cbn. destruct (decide (p = go!"/w/a.txt")); [done|].
  destruct (decide (p = go!"/etc/passwd")) as [->|]; [|done]. by destruct Hp as [?|[q ?]].
Qed.

Lemma nothing_outside_root_witness :
  Handle (H := ex_disk (go!"x")) (λ _, None) (λ _, []) 0 0 ex_handler.1 (ex_request (go!"/../etc/passwd")) ex_handler.2 =
  Handle (H := ex_disk (go!"y")) (λ _, None) (λ _, []) 0 0 ex_handler.1 (ex_request (go!"/../etc/passwd")) ex_handler.2.
Proof.
  apply (nothing_outside_root (ex_disk (go!"x")) (ex_disk (go!"y"))).
  - by split.
  - apply ex_agree.
  - repeat constructor. by intros Hin%list_elem_of_singleton.
  - done.
  - constructor.
Defined.

Lemma if_modified_since_subsecond_witness :
  isNotModified (λ _, Some (1 * second)) (ex_request (go!"/a.txt")) (go!"e") (1500 * millisecond) = false.
Proof. apply if_modified_since_subsecond; [reflexivity|discriminate|reflexivity]. Defined.

Lemma root_directory_forbidden_witness :
  isPathSafe (H := ex_disk []) (NewStaticHandler (go!"/") (go!"/") [] false ex_mime).1 (go!"/a.txt") (go!"/a.txt") = Some false.
Proof. apply root_directory_forbidden; [reflexivity..|discriminate|reflexivity]. Defined.

Definition ex_try : StaticHandler := SetTryFiles ex_handler.1 [go!"$uri.html"; go!"$uri"] false false.
Definition ex_uncached : caches := mkCaches None None None ex_mime.

Lemma try_files_first_witness :
  let D := ex_disk [] in
  try_loop (H := D) (λ _, None) (λ _, go!"text/plain") 0 0 ex_try (ex_request (go!"/a.txt")) ex_uncached (go!"/a.txt")
    ([go!"$uri.html"] ++ go!"$uri" :: []) =
    (if HasPrefix (go!"$uri") (go!"$uri")
     then serveFile (H := D) (λ _, None) (λ _, go!"text/plain") 0 0 ex_try (ex_request (go!"/a.txt")) ex_uncached (go!"/w/a.txt")
            (mkInfo false (1500 * millisecond) 3) false
     else handleInternalRedirect (H := D) (λ _, None) (λ _, go!"text/plain") 0 0 ex_try (ex_request (go!"/a.txt")) ex_uncached
            (go!"/a.txt")) ∧
  try_loop (H := D) (λ _, None) (λ _, go!"text/plain") 0 0 ex_try (ex_request (go!"/a.txt")) ex_uncached (go!"/a.txt")
    [go!"$uri.html"] = (ErrNotFound, ex_uncached).
Proof.
  apply (try_files_first (H := ex_disk [])); [reflexivity| |reflexivity|reflexivity].
  intros tf ->%list_elem_of_singleton. reflexivity.
Defined.

Lemma listing_sorted_witness :
  [(go!"sub", mkInfo true 0 0); (go!"b", mkInfo false 0 1)] ≡ₚ
    filter (λ e, listed e = true) [(go!"b", mkInfo false 0 1); (go!".git", mkInfo true 0 0); (go!"sub", mkInfo true 0 0)] ∧
  Sorted (λ a b, entry_leb a b = true) [(go!"sub", mkInfo true 0 0); (go!"b", mkInfo false 0 1)].
Proof. apply (listing_sorted (H := ex_disk []) (go!"/w")); reflexivity. Defined.
