(* ===== verification/Resolver.v ===== *)
(** * Resolver: the DNS cache

    [src/internal/resolver]: the resolver with its bounded cache and the set of hosts
    that the background loop refreshes.  The DNS servers are a parameter; a look-up runs
    at one instant.  Shown: the cache stays within its size, a cached answer is the one
    that the servers gave less than a time to live ago, and what the loop refreshes. *)

From S2P Require Import Prelude GoStrings NetIP Lru ReqVars Config.

Inductive resolve_error :=
  | LookupFailed (host : gostring)
  | NoAddresses (host : gostring)
  | Disabled.

Record DNSCacheEntry := mkEntry {
  ExpiresAt : Z; LastLookup : Z; e_Error : option resolve_error; IPs : list gostring }.

Record DNSResolver := mkResolver {
  config : ResolverConfig; cache : lru DNSCacheEntry; refreshHosts : gset gostring;
  hits : Z; misses : Z; errors : Z; latencyNs : Z; lookups : Z; serverIdx : Z; started : bool }.

(** [noopResolver] is [None]. *)
Definition New (cfg : option ResolverConfig) : option DNSResolver :=
  match cfg with
  | None => None
  | Some c =>
      if negb (rs_Enabled c) then None
      else
        let valid := if rs_Valid c =? 0 then 30 * second else rs_Valid c in
        let timeout := if rs_Timeout c =? 0 then 5 * second else rs_Timeout c in
        let v4 := if negb (rs_IPv4 c) && negb (rs_IPv6 c) then true else rs_IPv4 c in
        Some (mkResolver (mkResolverConfig (rs_Addresses c) valid timeout (rs_CacheSize c) (rs_Enabled c) v4 (rs_IPv6 c))
                lru_empty ∅ 0 0 0 0 0 0 false)
  end.

Definition TTL (c : ResolverConfig) : Z := rs_Valid c.

Definition with_cache (r : DNSResolver) (c : lru DNSCacheEntry) (hosts : gset gostring) : DNSResolver :=
  mkResolver (config r) c hosts (hits r) (misses r) (errors r) (latencyNs r) (lookups r) (serverIdx r) (started r).

Definition with_stats (r : DNSResolver) (h m e l n : Z) : DNSResolver :=
  mkResolver (config r) (cache r) (refreshHosts r) h m e l n (serverIdx r) (started r).

(** [storeCache] with [evictLRULocked]. *)
Definition dns_full (size : Z) (c : lru DNSCacheEntry) : bool := (0 <? size) && (size <=? zlen (order c)).

Definition storeCache (r : DNSResolver) (host : gostring) (entry : DNSCacheEntry) : DNSResolver :=
  with_cache r (lru_store (dns_full (rs_CacheSize (config r))) (cache r) host entry) (refreshHosts r).

Section Lookup.
(** What a server answers to the two queries, [net.IP.String] beyond IPv4, and how
    long a look-up takes. *)
Context (query4 query6 : gostring → gostring → option (list IP)) (ip_string : IP → gostring) (latency : Z).

Definition queryWithResolver (c : ResolverConfig) (host server : gostring) : resolve_error + list gostring :=
  let v4 : option (list gostring) :=
    if rs_IPv4 c then (λ ips : list IP, formatIPv4 <$> omap To4 ips) <$> query4 server host else Some [] in
  match v4 with
  | None => inl (LookupFailed host)
  | Some v4 =>
      let v6 : list gostring :=
        if rs_IPv6 c then
          match query6 server host with
          | None => []
          | Some ips => ip_string <$> filter (λ ip, length ip = 16%nat ∧ To4 ip = None) ips
          end
        else [] in
      match v4 ++ v6 with [] => inl (NoAddresses host) | ips => inr ips end
  end.

(** The next server, round robin; the counter is a [uint32]. *)
Definition queryDNS (r : DNSResolver) (host : gostring) : (resolve_error + list gostring) * DNSResolver :=
  match rs_Addresses (config r) with
  | [] => (queryWithResolver (config r) host [], r)
  | addrs =>
      let idx := (serverIdx r + 1) mod 2 ^ 32 in
      (queryWithResolver (config r) host (nth (Z.to_nat (idx mod zlen addrs)) addrs []),
       mkResolver (config r) (cache r) (refreshHosts r) (hits r) (misses r) (errors r) (latencyNs r) (lookups r) idx (started r))
  end.

Definition answer_of (e : DNSCacheEntry) : resolve_error + list gostring :=
  match e_Error e with Some err => inl err | None => inr (IPs e) end.

Definition entry_of (now : Z) (r : DNSResolver) (a : resolve_error + list gostring) : DNSCacheEntry :=
  mkEntry (now + TTL (config r)) now (match a with inl e => Some e | inr _ => None end)
    (match a with inl _ => [] | inr ips => ips end).

(** A look-up that reaches the servers. *)
Definition resolve (now : Z) (r : DNSResolver) (host : gostring) : (resolve_error + list gostring) * DNSResolver :=
  let r := with_stats r (hits r) (swrap64 (misses r + 1)) (errors r) (latencyNs r) (lookups r) in
  let '(a, r) := queryDNS r host in
  let r := with_stats r (hits r) (misses r) (match a with inl _ => swrap64 (errors r + 1) | inr _ => errors r end)
             (swrap64 (latencyNs r + latency)) (swrap64 (lookups r + 1)) in
  let r := storeCache r host (entry_of now r a) in
  (a, with_cache r (cache r) ({[host]} ∪ refreshHosts r)).

Definition lookup (now : Z) (r : DNSResolver) (host : gostring) (useCache : bool)
  : (resolve_error + list gostring) * DNSResolver :=
  match ParseIP host with
  | Some _ => (inr [host], r)
  | None =>
      match (if useCache then items (cache r) !! host else None) with
      | Some e =>
          if now <? ExpiresAt e then
            (answer_of e, with_stats r (swrap64 (hits r + 1)) (misses r) (errors r) (latencyNs r) (lookups r))
          else resolve now r host
      | None => resolve now r host
      end
  end.

Definition LookupHost (now : Z) (r : DNSResolver) (host : gostring) := lookup now r host false.
Definition LookupHostWithCache (now : Z) (r : DNSResolver) (host : gostring) := lookup now r host true.
Definition Refresh (now : Z) (r : DNSResolver) (host : gostring) : DNSResolver := (LookupHost now r host).2.

(** [doRefresh], in the order in which Go ranges over the set. *)
Definition doRefresh (now : Z) (r : DNSResolver) (hosts : list gostring) : DNSResolver :=
  foldl (λ r host, Refresh now r host) r hosts.

Definition DeleteCacheEntry (r : DNSResolver) (host : gostring) : DNSResolver :=
  with_cache r (lru_remove (cache r) host) (refreshHosts r ∖ {[host]}).

Definition ClearCache (r : DNSResolver) : DNSResolver := with_cache r lru_empty ∅.

Definition IsCached (now : Z) (r : DNSResolver) (host : gostring) : bool :=
  match items (cache r) !! host with Some e => now <? ExpiresAt e | None => false end.

Definition set_started (r : DNSResolver) (b : bool) : DNSResolver :=
  mkResolver (config r) (cache r) (refreshHosts r) (hits r) (misses r) (errors r) (latencyNs r) (lookups r) (serverIdx r) b.

(** [Start] tells whether the loop begins. *)
Definition Start (r : DNSResolver) : bool * DNSResolver :=
  if negb (rs_Enabled (config r)) || started r then (false, r) else (true, set_started r true).
Definition Stop (r : DNSResolver) : DNSResolver := set_started r false.

Record Stats := mkStats_ { CacheHits : Z; CacheMisses : Z; CacheEntries : Z; ResolveErrors : Z; AverageLatency : Z }.

Definition GetAverageLatency (r : DNSResolver) : Z := if lookups r =? 0 then 0 else Z.quot (latencyNs r) (lookups r).

Definition Resolver_Stats (r : DNSResolver) : Stats :=
  mkStats_ (hits r) (misses r) (Z.of_nat (size (items (cache r)))) (errors r)
    (if 0 <? lookups r then Z.quot (latencyNs r) (lookups r) else 0).

Definition ResetStats (r : DNSResolver) : DNSResolver := with_stats r 0 0 0 0 0.

Record CacheStats := mkCacheStats { cs_Hits : Z; cs_Misses : Z; cs_Entries : Z; cs_Expired : Z }.

Definition GetCacheStats (now : Z) (r : DNSResolver) : CacheStats :=
  mkCacheStats (hits r) (misses r) (Z.of_nat (size (items (cache r))))
    (Z.of_nat (size (filter (λ kv, ExpiresAt kv.2 < now) (items (cache r))))).

(** ** Sequences of operations *)

Inductive dns_op :=
  | OpLookup (now : Z) (host : gostring) (useCache : bool)
  | OpRefresh (now : Z) (hosts : list gostring)
  | OpDelete (host : gostring)
  | OpClear.

Definition dns_step (r : DNSResolver) (o : dns_op) : DNSResolver :=
  match o with
  | OpLookup now host b => (lookup now r host b).2
  | OpRefresh now hosts => doRefresh now r hosts
  | OpDelete host => DeleteCacheEntry r host
  | OpClear => ClearCache r
  end.

Definition bounded (r : DNSResolver) : Prop :=
  0 < rs_CacheSize (config r) → zlen (order (cache r)) ≤ rs_CacheSize (config r).

Record dns_inv (c : ResolverConfig) (r : DNSResolver) : Prop := {
  di_config : config r = c;
  di_wf : lru_wf (cache r);
  di_bounded : bounded r;
  di_refreshed k : k ∈ order (cache r) → k ∈ refreshHosts r }.

Lemma queryDNS_same r host a r' :
  queryDNS r host = (a, r') →
  config r' = config r ∧ cache r' = cache r ∧ refreshHosts r' = refreshHosts r ∧ hits r' = hits r ∧ misses r' = misses r.
Proof. unfold queryDNS. destruct (rs_Addresses (config r)); by intros [= <- <-]. Qed.

(** What reaching the servers does to the cache. *)
Lemma resolve_spec now r host a r' :
  resolve now r host = (a, r') →
  config r' = config r ∧
  cache r' = lru_store (dns_full (rs_CacheSize (config r))) (cache r) host
    (mkEntry (now + TTL (config r)) now (match a with inl e => Some e | inr _ => None end)
      (match a with inl _ => [] | inr ips => ips end)) ∧
  refreshHosts r' = {[host]} ∪ refreshHosts r.
Proof.
  unfold resolve. destruct (queryDNS _ host) as [a' r1] eqn:E. apply queryDNS_same in E as (Hc & Hca & Hr & _ & _).
  cbn in Hc, Hca, Hr. intros [= <- <-]. cbn. unfold entry_of. cbn. by rewrite Hc, Hca, Hr.
Qed.

Lemma order_store_sub (full : lru DNSCacheEntry → bool) c k v k' :
  lru_wf c → k' ∈ order (lru_store full c k v) → k' = k ∨ k' ∈ order c.
Proof.
  intros Hw Hin. destruct (decide (k' = k)) as [|Hne]; [by left|right].
  apply (lru_same _ (lru_store_wf full c k v Hw)) in Hin as [w Hw']. apply lru_store_other in Hw'; [|done].
  apply lru_same; [done|]. by eexists.
Qed.

Lemma resolve_inv c now r host : dns_inv c r → dns_inv c (resolve now r host).2.
Proof.
  intros [Hc Hw Hb Hr]. destruct (resolve now r host) as [a r'] eqn:E. apply resolve_spec in E as (Hc' & Hca & Hr').
  cbn [snd]. split.
  - congruence.
  - rewrite Hca. by apply lru_store_wf.
  - unfold bounded in *. rewrite Hc', Hca. intros Hpos. specialize (Hb Hpos).
    pose proof (lru_store_bound (dns_full (rs_CacheSize (config r))) (Z.to_nat (rs_CacheSize (config r))) (cache r) host
      (mkEntry (now + TTL (config r)) now (match a with inl e => Some e | inr _ => None end)
        (match a with inl _ => [] | inr ips => ips end)) Hw ltac:(lia)) as Hs.
    assert (length (order (lru_store (dns_full (rs_CacheSize (config r))) (cache r) host
      (mkEntry (now + TTL (config r)) now (match a with inl e => Some e | inr _ => None end)
        (match a with inl _ => [] | inr ips => ips end)))) ≤ Z.to_nat (rs_CacheSize (config r)))%nat; [|lia].
    apply Hs; [|lia]. intros l Hl. unfold dns_full. apply andb_true_iff. split; [by apply Z.ltb_lt|apply Z.leb_le; lia].
  - intros k. rewrite Hca, Hr'. intros [->|Hk]%order_store_sub; [set_solver| |done]. apply Hr in Hk. set_solver.
Qed.

Lemma lookup_inv c now r host b : dns_inv c r → dns_inv c (lookup now r host b).2.
Proof.
  intros Hi. unfold lookup. destruct (ParseIP host); [done|].
  destruct (if b then _ else _) as [e|]; [|by apply resolve_inv]. destruct (now <? ExpiresAt e); [|by apply resolve_inv].
  destruct Hi as [? ? ? ?]. by split.
Qed.

Lemma dns_step_inv c r o : dns_inv c r → dns_inv c (dns_step r o).
Proof.
  intros Hi. destruct o as [now host b|now hosts|host|]; cbn [dns_step].
  - by apply lookup_inv.
  - unfold doRefresh. revert r Hi. induction hosts as [|h hosts IH]; intros r Hi; [done|]. apply IH. by apply lookup_inv.
  - destruct Hi as [Hc Hw Hb Hr]. split; cbn; [done|by apply lru_remove_wf| |].
    + unfold bounded in *. cbn. intros Hp. specialize (Hb Hp).
      pose proof (length_filter (λ k', k' ≠ host) (order (cache r))). lia.
    + intros k [Hk Hin]%list_elem_of_filter. apply Hr in Hin. set_solver.
  - destruct Hi as [Hc Hw Hb Hr]. split; cbn; [done|apply lru_empty_wf|unfold bounded; cbn; lia|].
    intros k Hk. by apply elem_of_nil in Hk.
Qed.

(** The DNS cache is bounded and consistent: after any sequence of look-ups,
    refreshes, deletions and clearings, a resolver with a positive cache size holds at
    most that many hosts, its list and its map hold the same ones, and every one of
    them is in the set that is refreshed. *)
Theorem dns_cache_bounded cfg r0 ops :
  New (Some cfg) = Some r0 → dns_inv (config r0) (foldl dns_step r0 ops).
Proof.
  intros Hn. assert (dns_inv (config r0) r0) as Hi.
  { cbn in Hn. destruct (rs_Enabled cfg); [|done]. injection Hn as <-. split; cbn; [done|apply lru_empty_wf| |].
    - unfold bounded. cbn. lia.
    - intros k Hk. by apply elem_of_nil in Hk. }
  revert Hi. generalize r0 at 2 4. induction ops as [|o ops IH]; intros r Hi; [done|]. by apply IH, dns_step_inv.
Qed.

(** An answer is remembered for a time to live: once a look-up of a host has reached
    the servers, every cached look-up of it before the entry expires gives the same
    answer, address list or error alike, and asks no server. *)
Theorem dns_answer_remembered now now' r host a r' :
  ParseIP host = None → resolve now r host = (a, r') → now' < now + TTL (config r) →
  LookupHostWithCache now' r' host = (a, with_stats r' (swrap64 (hits r' + 1)) (misses r') (errors r') (latencyNs r') (lookups r')).
Proof.
  intros Hp (Hc & Hca & _)%resolve_spec Ht. unfold LookupHostWithCache, lookup. rewrite Hp, Hca, lru_store_lookup.
  cbn [ExpiresAt]. rewrite (proj2 (Z.ltb_lt _ _)) by done. by destruct a.
Qed.

(** The set of refreshed hosts only grows: nothing but an explicit deletion takes a
    host out, so a host whose entry was evicted is still looked up on every round and
    evicts another one. *)
Theorem refresh_set_grows now r ops host :
  host ∈ refreshHosts r → (∀ o, o ∈ ops → o ≠ OpDelete host ∧ o ≠ OpClear) →
  host ∈ refreshHosts (foldl dns_step r ops) ∧ (ParseIP host = None → host ∈ order (cache (Refresh now (foldl dns_step r ops) host))).
Proof.
  intros Hin Hops. split.
  - revert r Hin. induction ops as [|o ops IH]; intros r Hin; [done|]. cbn [foldl].
    apply IH; [intros o' Ho'; apply Hops; by right|]. destruct (Hops o) as [Hd Hc]; [by left|].
    assert (∀ now h b r, host ∈ refreshHosts r → host ∈ refreshHosts (lookup now r h b).2) as Hl.
    { intros n h b r0 H0. unfold lookup. destruct (ParseIP h); [done|].
      assert (host ∈ refreshHosts (resolve n r0 h).2) as Hr.
      { destruct (resolve n r0 h) as [a r'] eqn:E. apply resolve_spec in E as (_ & _ & Hr). cbn [snd]. rewrite Hr. set_solver. }
      destruct (if b then _ else _) as [e|]; [|done]. by destruct (n <? ExpiresAt e). }
    destruct o as [n h b|n hs|h|]; cbn [dns_step]; [by apply Hl| | |done].
    + unfold doRefresh. clear Hops IH Hd Hc. revert r Hin. induction hs as [|h hs IHh]; intros r Hin; [done|]. apply IHh. by apply Hl.
    + cbn. assert (host ≠ h) by (intros ->; done). set_solver.
  - intros Hp. unfold Refresh, LookupHost, lookup. rewrite Hp.
    destruct (resolve now (foldl dns_step r ops) host) as [a r'] eqn:E. apply resolve_spec in E as (_ & Hca & _).
    cbn [snd]. rewrite Hca. unfold lru_store. destruct (items _ !! host); cbn; by left.
Qed.
End Lookup.

(** ** Witnesses *)

Definition ex_dns (server host : gostring) : option (list IP) := Some [[10; 0; 0; 1]].
Definition ex_resolver : DNSResolver :=
  mkResolver (mkResolverConfig [go!"8.8.8.8:53"] (30 * second) (5 * second) 2 true true false) lru_empty ∅ 0 0 0 0 0 0 false.

Lemma dns_cache_bounded_witness :
  dns_inv (config ex_resolver) (foldl (dns_step ex_dns ex_dns (λ _, []) 0) ex_resolver
    [OpLookup 0 (go!"a") true; OpLookup 1 (go!"b") true; OpLookup 2 (go!"c") true; OpDelete (go!"a")]).
Proof. refine (dns_cache_bounded ex_dns ex_dns (λ _, []) 0 (config ex_resolver) ex_resolver _ _). reflexivity. Defined.

Lemma dns_answer_remembered_witness :
  let r' := (resolve ex_dns ex_dns (λ _, []) 0 0 ex_resolver (go!"a")).2 in
  LookupHostWithCache ex_dns ex_dns (λ _, []) 0 (10 * second) r' (go!"a") =
    (inr [go!"10.0.0.1"], with_stats r' (swrap64 (hits r' + 1)) (misses r') (errors r') (latencyNs r') (lookups r')).
Proof. refine (dns_answer_remembered ex_dns ex_dns (λ _, []) 0 0 (10 * second) ex_resolver (go!"a") _ _ _ _ _); reflexivity. Defined.

Lemma refresh_set_grows_witness :
  let r := (resolve ex_dns ex_dns (λ _, []) 0 0 ex_resolver (go!"a")).2 in
  let ops := [OpLookup 1 (go!"b") true; OpLookup 2 (go!"c") true] in
  go!"a" ∈ refreshHosts (foldl (dns_step ex_dns ex_dns (λ _, []) 0) r ops) ∧
  (ParseIP (go!"a") = None →
   go!"a" ∈ order (cache (Refresh ex_dns ex_dns (λ _, []) 0 3 (foldl (dns_step ex_dns ex_dns (λ _, []) 0) r ops) (go!"a")))).
Proof.
  apply (refresh_set_grows ex_dns ex_dns (λ _, []) 0 3).
  - vm_compute. set_solver.
  - intros o Ho. apply elem_of_cons in Ho as [->|Ho]; [done|]. by apply list_elem_of_singleton in Ho as ->.
Defined.
