(* ===== verification/Base64.v ===== *)
(** * Base64: [base64.URLEncoding], [StdEncoding] and [RawStdEncoding]

    The encoding of Go's [encoding/base64] with the URL alphabet and padding, as the
    sticky cookie uses it: decoding skips line ends and takes padding only at the
    end; and with the standard alphabet, padded for the credentials of Basic
    authentication, without padding in the parts of an Argon2id hash.  Shown: decoding
    inverts encoding. *)

From S2P Require Import Prelude GoStrings.

Definition alphabet : gostring := go!"ABCDEFGHIJKLMNOPQRSTUVWXYZabcdefghijklmnopqrstuvwxyz0123456789-_".
Definition pad : ascii := "=".

Definition enc_digit (i : Z) : ascii := nth (Z.to_nat i) alphabet pad.

Definition dec_digit (c : ascii) : option Z := Z.of_nat <$> IndexByte alphabet c.

(** Three bytes make four digits; one or two at the end are padded. *)
Fixpoint EncodeToString (s : gostring) : gostring :=
  match s with
  | a :: b :: c :: s =>
      let '(x, y, z) := (byteZ a, byteZ b, byteZ c) in
      enc_digit (x / 4) :: enc_digit (x mod 4 * 16 + y / 16) :: enc_digit (y mod 16 * 4 + z / 64) ::
        enc_digit (z mod 64) :: EncodeToString s
  | [a; b] =>
      let '(x, y) := (byteZ a, byteZ b) in
      [enc_digit (x / 4); enc_digit (x mod 4 * 16 + y / 16); enc_digit (y mod 16 * 4); pad]
  | [a] => let x := byteZ a in [enc_digit (x / 4); enc_digit (x mod 4 * 16); pad; pad]
  | [] => []
  end.

Definition byte_of (z : Z) : ascii := ascii_of_N (Z.to_N z).

Fixpoint decode_quads (s : gostring) : option gostring :=
  match s with
  | [] => Some []
  | p :: q :: r :: t :: s =>
      i ← dec_digit p; j ← dec_digit q;
      let a := byte_of (i * 4 + j / 16) in
      match dec_digit r with
      | Some k =>
          let b := byte_of (j mod 16 * 16 + k / 4) in
          match dec_digit t with
          | Some l => rest ← decode_quads s; Some (a :: b :: byte_of (k mod 4 * 64 + l) :: rest)
          | None => if Ascii.eqb t pad && bool_decide (s = []) then Some [a; b] else None
          end
      | None => if Ascii.eqb r pad && Ascii.eqb t pad && bool_decide (s = []) then Some [a] else None
      end
  | _ => None
  end.

Definition DecodeString (s : gostring) : option gostring :=
  decode_quads (filter (λ c, c ≠ "010"%char ∧ c ≠ "013"%char) s).

(** ** The round trip *)

Lemma dec_enc i : 0 ≤ i < 64 → dec_digit (enc_digit i) = Some i.
Proof.
  intros Hi. assert (forallb (λ n, bool_decide (dec_digit (enc_digit (Z.of_nat n)) = Some (Z.of_nat n))) (seq 0 64) = true) as H
    by (vm_compute; done).
  rewrite forallb_forall in H. specialize (H (Z.to_nat i)). rewrite Z2Nat.id in H by lia.
  eapply bool_decide_eq_true_1, H. apply list_elem_of_In, elem_of_seq. lia.
Qed.

Lemma byte_of_byteZ c : byte_of (byteZ c) = c.
Proof. unfold byte_of, byteZ. rewrite N2Z.id. apply ascii_N_embedding. Qed.

Lemma byteZ_octet c : 0 ≤ byteZ c < 256.
Proof. unfold byteZ. pose proof (N_ascii_bounded c). lia. Qed.

(** Digits of bytes are digits, and put together they are the bytes. *)
Lemma first_digit x : 0 ≤ x < 256 → 0 ≤ x / 4 < 64.
Proof. intros. split; [apply Z.div_pos; lia|apply Z.div_lt_upper_bound; lia]. Qed.

Lemma second_digit x y : 0 ≤ x < 256 → 0 ≤ y < 256 → 0 ≤ x mod 4 * 16 + y / 16 < 64.
Proof.
  intros. pose proof (Z.mod_pos_bound x 4 ltac:(lia)). assert (0 ≤ y / 16 < 16); [|lia].
  split; [apply Z.div_pos; lia|apply Z.div_lt_upper_bound; lia].
Qed.

Lemma third_digit y z : 0 ≤ y < 256 → 0 ≤ z < 256 → 0 ≤ y mod 16 * 4 + z / 64 < 64.
Proof.
  intros. pose proof (Z.mod_pos_bound y 16 ltac:(lia)). assert (0 ≤ z / 64 < 4); [|lia].
  split; [apply Z.div_pos; lia|apply Z.div_lt_upper_bound; lia].
Qed.

Lemma join1 x y : 0 ≤ y < 256 → x / 4 * 4 + (x mod 4 * 16 + y / 16) / 16 = x.
Proof.
  intros. assert (0 ≤ y / 16 < 16) by (split; [apply Z.div_pos; lia|apply Z.div_lt_upper_bound; lia]).
  rewrite Z.div_add_l, (Z.div_small (y / 16)) by lia. pose proof (Z.div_mod x 4). lia.
Qed.

Lemma join2 x y z : 0 ≤ y < 256 → 0 ≤ z < 256 → (x mod 4 * 16 + y / 16) mod 16 * 16 + (y mod 16 * 4 + z / 64) / 4 = y.
Proof.
  intros. assert (0 ≤ y / 16 < 16) by (split; [apply Z.div_pos; lia|apply Z.div_lt_upper_bound; lia]).
  assert (0 ≤ z / 64 < 4) by (split; [apply Z.div_pos; lia|apply Z.div_lt_upper_bound; lia]).
  rewrite (Z.add_comm (x mod 4 * 16)), Z.mod_add, (Z.mod_small (y / 16)) by lia.
  rewrite Z.div_add_l, (Z.div_small (z / 64)) by lia. pose proof (Z.div_mod y 16). lia.
Qed.

Lemma join3 y z : 0 ≤ z < 256 → (y mod 16 * 4 + z / 64) mod 4 * 64 + z mod 64 = z.
Proof.
  intros. assert (0 ≤ z / 64 < 4) by (split; [apply Z.div_pos; lia|apply Z.div_lt_upper_bound; lia]).
  rewrite (Z.add_comm (y mod 16 * 4)), Z.mod_add, (Z.mod_small (z / 64)) by lia. pose proof (Z.div_mod z 64). lia.
Qed.

Lemma enc_digit_in i : 0 ≤ i < 64 → enc_digit i ∈ alphabet.
Proof.
  intros Hi. unfold enc_digit. apply list_elem_of_In, nth_In. change (length alphabet) with 64%nat. lia.
Qed.

Lemma Encode_chars s c : c ∈ EncodeToString s → c ∈ alphabet ∨ c = pad.
Proof.
  induction s as [s IH] using (induction_ltof1 _ (@length ascii)). unfold ltof in IH.
  destruct s as [|x [|y [|z s]]]; cbn [EncodeToString].
  - by intros ?%elem_of_nil.
  - pose proof (byteZ_octet x). pose proof (first_digit (byteZ x)).
    pose proof (second_digit (byteZ x) 0). rewrite Z.div_0_l, Z.add_0_r in * by lia.
    intros [->|[->|[->| ->%list_elem_of_singleton]%elem_of_cons]%elem_of_cons]%elem_of_cons; auto using enc_digit_in.
    all: left; apply enc_digit_in; lia.
  - pose proof (byteZ_octet x). pose proof (byteZ_octet y). pose proof (first_digit (byteZ x)).
    pose proof (second_digit (byteZ x) (byteZ y)). pose proof (third_digit (byteZ y) 0).
    rewrite Z.div_0_l, Z.add_0_r in * by lia.
    intros [->|[->|[->| ->%list_elem_of_singleton]%elem_of_cons]%elem_of_cons]%elem_of_cons; auto;
      left; apply enc_digit_in; lia.
  - pose proof (byteZ_octet x). pose proof (byteZ_octet y). pose proof (byteZ_octet z). pose proof (first_digit (byteZ x)).
    pose proof (second_digit (byteZ x) (byteZ y)). pose proof (third_digit (byteZ y) (byteZ z)).
    pose proof (Z.mod_pos_bound (byteZ z) 64).
    intros [->|[->|[->|[->|Hin]%elem_of_cons]%elem_of_cons]%elem_of_cons]%elem_of_cons;
      try (left; apply enc_digit_in; lia). apply (IH s); [cbn; lia|done].
Qed.

Lemma decode_encode s : decode_quads (EncodeToString s) = Some s.
Proof.
  induction s as [s IH] using (induction_ltof1 _ (@length ascii)). unfold ltof in IH.
  destruct s as [|x [|y [|z s]]]; cbn [EncodeToString decode_quads]; [done|..].
  - pose proof (byteZ_octet x). pose proof (second_digit (byteZ x) 0 ltac:(lia) ltac:(lia)) as H2.
    rewrite Z.div_0_l, Z.add_0_r in H2 by lia.
    rewrite !dec_enc by (auto using first_digit). cbn [mbind option_bind].
    change (dec_digit pad) with (@None Z). cbn.
    pose proof (join1 (byteZ x) 0 ltac:(lia)) as J1. rewrite Z.div_0_l, Z.add_0_r in J1 by lia. by rewrite J1, byte_of_byteZ.
  - pose proof (byteZ_octet x). pose proof (byteZ_octet y). pose proof (second_digit (byteZ x) (byteZ y)) as H2.
    pose proof (third_digit (byteZ y) 0 ltac:(lia) ltac:(lia)) as H3. rewrite Z.div_0_l, Z.add_0_r in H3 by lia.
    rewrite !dec_enc by (auto using first_digit). cbn [mbind option_bind]. change (dec_digit pad) with (@None Z). cbn -[Z.div Z.modulo].
    pose proof (join2 (byteZ x) (byteZ y) 0 ltac:(lia) ltac:(lia)) as J2. rewrite (Z.div_0_l 64), Z.add_0_r in J2 by lia.
    by rewrite join1, J2, !byte_of_byteZ by lia.
  - pose proof (byteZ_octet x). pose proof (byteZ_octet y). pose proof (byteZ_octet z).
    rewrite !dec_enc by (auto using first_digit, second_digit, third_digit; apply Z.mod_pos_bound; lia).
    cbn [mbind option_bind]. rewrite IH by (cbn; lia). cbn -[Z.div Z.modulo].
    by rewrite join1, join2, join3, !byte_of_byteZ by lia.
Qed.

Lemma DecodeString_Encode s : DecodeString (EncodeToString s) = Some s.
Proof.
  unfold DecodeString. rewrite filter_all; [apply decode_encode|]. intros c Hc%Encode_chars.
  destruct Hc as [Hc| ->]; [|done].
  assert (forallb (λ c, bool_decide (c ≠ "010"%char ∧ c ≠ "013"%char)) alphabet = true) as Ha by (vm_compute; done).
  rewrite forallb_forall in Ha. apply list_elem_of_In, Ha in Hc. by apply bool_decide_eq_true in Hc.
Qed.

(** ** The standard alphabet

    It differs in its last two digits. *)

Definition url_to_std (c : ascii) : ascii :=
  if Ascii.eqb c "-" then "+"%char else if Ascii.eqb c "_" then "/"%char else c.

Definition std_to_url (c : ascii) : ascii :=
  if Ascii.eqb c "+" then "-"%char else if Ascii.eqb c "/" then "_"%char
  else if Ascii.eqb c "-" || Ascii.eqb c "_" then "*"%char else c.

Definition std_EncodeToString (s : gostring) : gostring := url_to_std <$> EncodeToString s.
Definition std_DecodeString (s : gostring) : option gostring := DecodeString (std_to_url <$> s).

(** [RawStdEncoding]: no padding, so that a last group has two or three digits. *)
Definition raw_DecodeString (s : gostring) : option gostring :=
  let s := filter (λ c, c ≠ "010"%char ∧ c ≠ "013"%char) s in
  if ContainsByte s pad || (length s mod 4 =? 1)%nat then None
  else decode_quads ((std_to_url <$> s) ++ replicate ((4 - length s mod 4) mod 4) pad).

Lemma std_url_char c : c ∈ alphabet ∨ c = pad → std_to_url (url_to_std c) = c.
Proof.
  intros H. assert (c ∈ alphabet ++ [pad]) as Hin by (apply elem_of_app; rewrite list_elem_of_singleton; tauto).
  assert (forallb (λ c, bool_decide (std_to_url (url_to_std c) = c)) (alphabet ++ [pad]) = true) as Hall by (by vm_compute).
  rewrite forallb_forall in Hall. apply (bool_decide_eq_true_1 _), Hall, list_elem_of_In, Hin.
Qed.

Lemma std_DecodeString_Encode s : std_DecodeString (std_EncodeToString s) = Some s.
Proof.
  unfold std_DecodeString, std_EncodeToString. rewrite <- list_fmap_compose.
  transitivity (DecodeString (EncodeToString s)); [|apply DecodeString_Encode]. f_equal.
  rewrite <- (list_fmap_id (EncodeToString s)) at 2. apply list_fmap_ext. intros i c Hi.
  apply std_url_char, (Encode_chars s), list_elem_of_lookup. by exists i.
Qed.
