(* ===== verification/Sticky.v ===== *)
(** * Sticky: cookie affinity and the choice of a target

    [src/internal/loadbalance/sticky.go]: a cookie names the target of the first
    answer and brings the client back to it; [createBalancerByName] of
    [proxy/proxy.go] builds the algorithm a configuration names; the selection
    functions of [proxy/target_selector.go] give each algorithm the key of the
    request it needs.  The clock is read where the source reads it and given to
    the operations; [time.Now] is a number of nanoseconds since the epoch. *)

From S2P Require Import Prelude GoStrings Base64 Hash Target Balancer ConsistentHash Config Validate NetIP.

(** ** The cookie *)

(** [time.Unix(ts, 0)]: the seconds since year one are kept in an [int64]. *)
Definition unix_seconds : Z := 62135596800.
Definition Unix (ts : Z) : Z := (swrap64 (ts + unix_seconds) - unix_seconds) * second.

Definition encodeStickyCookie (targetURL : gostring) (expires : Z) : gostring :=
  EncodeToString (targetURL ++ "|"%char :: FormatInt (expires / second)).

Definition decodeStickyCookie (value : gostring) : option (gostring * Z) :=
  raw ← DecodeString value;
  match SplitByte raw "|" with
  | [url; secs] => ts ← Atoi secs; Some (url, Unix ts)
  | _ => None
  end.

Inductive same_site := SameSiteLax | SameSiteStrict | SameSiteNone.

Record cookie := mkCookie {
  ck_key : gostring; ck_value : gostring; ck_expire : option Z; ck_domain : gostring;
  ck_path : gostring; ck_secure : bool; ck_httponly : bool; ck_samesite : same_site }.

(** ** The session *)

Record StickyConfig := mkSticky {
  st_Enabled : bool; st_Name : gostring; st_Expires : Z; st_Domain : gostring; st_Path : gostring;
  st_Secure : bool; st_HttpOnly : bool; st_SameSite : gostring }.

Definition DefaultStickyConfig : StickyConfig :=
  mkSticky false (go!"lolly_route") (3600 * second) [] (go!"/") false true (go!"Lax").

Record stickyEntry := mkEntry { se_targetURL : gostring; se_expires : Z }.
Abbreviation stickyShard := (gmap gostring stickyEntry).

Definition stickyShardCount : nat := 256.

Record StickySession (B : Type) := mkSession {
  ss_config : StickyConfig; ss_fallback : B; ss_shards : list stickyShard; ss_started : bool }.
Arguments mkSession {B}.
Arguments ss_config {B}.
Arguments ss_fallback {B}.
Arguments ss_shards {B}.
Arguments ss_started {B}.

(** The caller always gives a fall-back; the source replaces [nil] by round robin. *)
Definition NewStickySession {B} (config : StickyConfig) (fallback : B) : StickySession B :=
  mkSession config fallback (replicate stickyShardCount ∅) false.

Section Session.
Context {B : Type}.
Implicit Type s : StickySession B.

Definition with_shards s (m : list stickyShard) : StickySession B :=
  mkSession (ss_config s) (ss_fallback s) m (ss_started s).
Definition with_fallback s (b : B) : StickySession B :=
  mkSession (ss_config s) b (ss_shards s) (ss_started s).

(** [Start] and [Stop] say whether the cleanup goroutine begins or ends. *)
Definition Sticky_Start s : StickySession B * bool :=
  (mkSession (ss_config s) (ss_fallback s) (ss_shards s) true, negb (ss_started s)).
Definition Sticky_Stop s : StickySession B * bool :=
  (mkSession (ss_config s) (ss_fallback s) (ss_shards s) false, ss_started s).

(** [cleanup] visits every shard under its lock. *)
Definition Sticky_cleanup (now : Z) s : StickySession B :=
  with_shards s (filter (λ e, time_after now (se_expires e.2) = false) <$> ss_shards s).

Definition getShard (value : gostring) : nat := Z.to_nat (FNV64a value mod 256).

Definition recordSession (now : Z) (value url : gostring) s : StickySession B :=
  with_shards s (alter <[value := mkEntry url (now + st_Expires (ss_config s))]> (getShard value) (ss_shards s)).

Definition deleteSession (value : gostring) s : StickySession B :=
  with_shards s (alter (delete value) (getShard value) (ss_shards s)).

Definition setCookie (now : Z) (url : gostring) s : cookie :=
  let c := ss_config s in
  let expires := now + st_Expires c in
  mkCookie (st_Name c) (encodeStickyCookie url expires)
    (if 0 <? st_Expires c then Some expires else None) (st_Domain c)
    (if decide (st_Path c = []) then go!"/" else st_Path c) (st_Secure c) (st_HttpOnly c)
    (if decide (st_SameSite c = go!"Strict") then SameSiteStrict
     else if decide (st_SameSite c = go!"None") then SameSiteNone else SameSiteLax).

(** The loop over the targets: the first with the URL that is available. *)
Fixpoint sticky_loop (now : Z) (url : gostring) (h : heap) (targets : list ptr) : option ptr * heap :=
  match targets with
  | [] => (None, h)
  | p :: rest =>
      if decide (URL (deref h p) = url) then
        let '(ok, t) := IsAvailable now (deref h p) in
        let h := store h p t in
        if ok then (Some p, h) else sticky_loop now url h rest
      else sticky_loop now url h rest
  end.

Context `{Balancer B}.

(** The end of [Select], [set_at] and [record_at] the clock of [setCookie] and of
    [recordSession]. *)
Definition sticky_fallback (set_at record_at : Z) s (h : heap) (now : Z) (targets : list ptr)
  : option ptr * option cookie * StickySession B * heap :=
  let '(sel, b, h) := Select (ss_fallback s) h now targets in
  let s := with_fallback s b in
  match sel with
  | Some p =>
      let url := URL (deref h p) in
      let c := setCookie set_at url s in
      (Some p, Some c, recordSession record_at (ck_value c) url s, h)
  | None => (None, None, s, h)
  end.

(** [Select(ctx, targets)]; [value] is the cookie of the request, the answer's
    [Set-Cookie] the second part of the result. *)
Definition Sticky_Select (set_at record_at : Z) s (h : heap) (now : Z) (value : gostring) (targets : list ptr)
  : option ptr * option cookie * StickySession B * heap :=
  if negb (st_Enabled (ss_config s)) then
    let '(sel, b, h) := Select (ss_fallback s) h now targets in (sel, None, with_fallback s b, h)
  else
    match (if decide (value = []) then None else decodeStickyCookie value) with
    | Some (url, expires) =>
        if bool_decide (url ≠ []) && time_after expires now then
          match sticky_loop now url h targets with
          | (Some p, h) => (Some p, None, s, h)
          | (None, h) => sticky_fallback set_at record_at (deleteSession value s) h now targets
          end
        else sticky_fallback set_at record_at s h now targets
    | None => sticky_fallback set_at record_at s h now targets
    end.

Definition Sticky_SelectExcluding s (h : heap) (now : Z) (targets excluded : list ptr)
  : option ptr * StickySession B * heap :=
  let '(sel, b, h) := SelectExcluding (ss_fallback s) h now targets excluded in (sel, with_fallback s b, h).
End Session.

(** ** The configured algorithm *)

(** The dynamic types of the interface.  A [stickyBalancer] holds the session and
    the session's own fall-back: one object, kept in the session. *)
Inductive balancer :=
  | BRoundRobin (b : RoundRobin)
  | BWeightedRoundRobin (b : WeightedRoundRobin)
  | BLeastConnections (b : LeastConnections)
  | BIPHash (b : IPHash)
  | BConsistentHash (b : ConsistentHash)
  | BRandom (b : Random)
  | BLeastTime (b : LeastTime)
  | BSticky (s : StickySession balancer).

Definition wrapping {B} (f : B → balancer) (r : option ptr * B * heap) : option ptr * balancer * heap :=
  (r.1.1, f r.1.2, r.2).

Fixpoint balancer_Select (b : balancer) (h : heap) (now : Z) (ts : list ptr) : option ptr * balancer * heap :=
  match b with
  | BRoundRobin b => wrapping BRoundRobin (Select b h now ts)
  | BWeightedRoundRobin b => wrapping BWeightedRoundRobin (Select b h now ts)
  | BLeastConnections b => wrapping BLeastConnections (Select b h now ts)
  | BIPHash b => wrapping BIPHash (Select b h now ts)
  | BConsistentHash b => wrapping BConsistentHash (Select b h now ts)
  | BRandom b => wrapping BRandom (Select b h now ts)
  | BLeastTime b => wrapping BLeastTime (Select b h now ts)
  | BSticky s => wrapping (λ f, BSticky (with_fallback s f)) (balancer_Select (ss_fallback s) h now ts)
  end.

Fixpoint balancer_SelectExcluding (b : balancer) (h : heap) (now : Z) (ts ex : list ptr)
  : option ptr * balancer * heap :=
  match b with
  | BRoundRobin b => wrapping BRoundRobin (SelectExcluding b h now ts ex)
  | BWeightedRoundRobin b => wrapping BWeightedRoundRobin (SelectExcluding b h now ts ex)
  | BLeastConnections b => wrapping BLeastConnections (SelectExcluding b h now ts ex)
  | BIPHash b => wrapping BIPHash (SelectExcluding b h now ts ex)
  | BConsistentHash b => wrapping BConsistentHash (SelectExcluding b h now ts ex)
  | BRandom b => wrapping BRandom (SelectExcluding b h now ts ex)
  | BLeastTime b => wrapping BLeastTime (SelectExcluding b h now ts ex)
  | BSticky s => wrapping (λ f, BSticky (with_fallback s f)) (balancer_SelectExcluding (ss_fallback s) h now ts ex)
  end.

#[export] Instance balancer_balancer : Balancer balancer :=
  {| Select := balancer_Select; SelectExcluding := balancer_SelectExcluding |}.

(** The errors of [createBalancerByName]. *)
Inductive create_error := ErrUnsupported (name : gostring) | ErrFallback (e : create_error).

Definition sticky_config (c : Config.StickyConfig) : StickyConfig :=
  mkSticky (sk_Enabled c) (if decide (sk_Name c = []) then go!"lolly_route" else sk_Name c)
    (if sk_Expires c <=? 0 then 3600 * second else sk_Expires c) (sk_Domain c)
    (if decide (sk_Path c = []) then go!"/" else sk_Path c) (sk_Secure c) (sk_HttpOnly c) (sk_SameSite c).

Section Create.
(** The numbers the random generator will give. *)
Context (numbers : list nat).

(** [fuel] bounds the nesting of the calls; [None] when it is used up. *)
Fixpoint createBalancerByName (fuel : nat) (name : gostring) (cfg : ProxyConfig)
  : option (res create_error balancer) :=
  match fuel with
  | O => None
  | S fuel =>
      if decide (name = go!"round_robin" ∨ name = []) then Some (Ok (BRoundRobin NewRoundRobin))
      else if decide (name = go!"weighted_round_robin") then Some (Ok (BWeightedRoundRobin NewWeightedRoundRobin))
      else if decide (name = go!"least_conn") then Some (Ok (BLeastConnections NewLeastConnections))
      else if decide (name = go!"ip_hash") then Some (Ok (BIPHash NewIPHash))
      else if decide (name = go!"consistent_hash") then
        Some (Ok (BConsistentHash
          (NewConsistentHash (if px_VirtualNodes cfg <=? 0 then 150 else px_VirtualNodes cfg) (px_HashKey cfg))))
      else if decide (name = go!"random") then Some (Ok (BRandom (mkRandom numbers)))
      else if decide (name = go!"least_time") then
        let l := px_LeastTime cfg in
        Some (Ok (BLeastTime (NewLeastTime
          (if decide (lt_Metric l = []) then go!"last_byte" else lt_Metric l)
          (if lt_DefaultTime l <=? 0 then millisecond else lt_DefaultTime l))))
      else if decide (name = go!"sticky") then
        let algo := sk_FallbackAlgo (px_Sticky cfg) in
        match createBalancerByName fuel (if decide (algo = []) then go!"round_robin" else algo) cfg with
        | Some (Ok b) => Some (Ok (BSticky (Sticky_Start (NewStickySession (sticky_config (px_Sticky cfg)) b)).1))
        | Some (Err e) => Some (Err (ErrFallback e))
        | None => None
        end
      else Some (Err (ErrUnsupported name))
  end.
End Create.

(** ** The cookie round trip *)

Lemma FormatInt_no_bar n : 0 ≤ n ≤ int64_max → "|"%char ∉ FormatInt n.
Proof.
  intros [Hd _]%FormatInt_digits Hin. rewrite forallb_forall in Hd.
  rewrite list_elem_of_In in Hin. by apply Hd in Hin.
Qed.

(** A sticky cookie decodes to the URL it was made for and to its expiry, cut
    to whole seconds, as long as the URL has no bar and the expiry is a time an
    [int64] of seconds holds. *)
Theorem sticky_cookie_roundtrip (url : gostring) (expires : Z) :
  "|"%char ∉ url → 0 ≤ expires → expires / second ≤ int64_max - unix_seconds →
  decodeStickyCookie (encodeStickyCookie url expires) = Some (url, expires / second * second).
Proof.
  intros Hurl Hpos Hmax. unfold unix_seconds, int64_max in *.
  assert (0 ≤ expires / second) by (apply Z.div_pos; [done|unfold second; lia]).
  unfold decodeStickyCookie, encodeStickyCookie. rewrite DecodeString_Encode. cbn [mbind option_bind].
  rewrite SplitByte_app by done. rewrite SplitByte_none by (apply FormatInt_no_bar; unfold int64_max; lia).
  rewrite Atoi_FormatInt by (unfold in_int64, int64_min, int64_max; lia). cbn [mbind option_bind].
  unfold Unix, unix_seconds. rewrite swrap64_id by (unfold in_int64, int64_min, int64_max; lia).
  do 2 f_equal. lia.
Qed.

(** ** Affinity *)

Lemma sticky_loop_finds now url h ts p :
  p ∈ ts → URL (deref h p) = url → available_now now (deref h p) = true →
  (∀ q, q ∈ ts → URL (deref h q) = url → q = p) →
  ∃ h', sticky_loop now url h ts = (Some p, h') ∧ heap_eqv now h h'.
Proof.
  intros Hin Hurl Hav Huniq. induction ts as [|q ts IH]; [by apply elem_of_nil in Hin|].
  cbn [sticky_loop]. case_decide as Hq.
  - assert (q = p) as -> by (apply Huniq; [by left|done]).
    unfold available_now in Hav. pose proof (IsAvailable_eqv now (deref h p)) as He.
    destruct (IsAvailable now (deref h p)) as [ok t]. cbn in Hav, He. subst ok.
    eexists. split; [done|]. by apply store_eqv.
  - apply elem_of_cons in Hin as [->|Hin]; [done|].
    apply IH; [done|]. intros q' Hq'. apply Huniq. by right.
Qed.

Section Affinity.
Context {B : Type} `{Balancer B}.

Lemma sticky_fallback_cookie set_at rec s h now ts p c s' h' :
  sticky_fallback set_at rec s h now ts = (Some p, Some c, s', h') →
  ck_value c = encodeStickyCookie (URL (deref h' p)) (set_at + st_Expires (ss_config s)) ∧
  ss_config s' = ss_config s.
Proof.
  unfold sticky_fallback. destruct (Select _ _ _ _) as [[[q|] b] h1]; [|done].
  by intros [= -> <- <- <-].
Qed.

Lemma Sticky_Select_cookie set_at rec s h now value ts p c s' h' :
  Sticky_Select set_at rec s h now value ts = (Some p, Some c, s', h') →
  ck_value c = encodeStickyCookie (URL (deref h' p)) (set_at + st_Expires (ss_config s)) ∧
  ss_config s' = ss_config s.
Proof.
  unfold Sticky_Select. intros Hs. repeat (case_match; try done);
    apply sticky_fallback_cookie in Hs; exact Hs.
Qed.

(** C37: A client that brings back the cookie of an earlier answer returns to the
    target of that answer until the second in which the cookie expires, as long as
    the target is configured, no other configured target has its URL, and it is
    available: whatever the sessions recorded, the fall-back algorithm and the
    state of the other targets, and with no new cookie. *)
Theorem sticky_affinity (s s1 s2 : StickySession B) (h h1 h2 : heap) (set_at rec set_at' rec' now now' : Z)
    (value : gostring) (ts ts2 : list ptr) (p : ptr) (c : cookie) :
  st_Enabled (ss_config s) = true → ss_config s2 = ss_config s →
  Sticky_Select set_at rec s h now value ts = (Some p, Some c, s1, h1) →
  "|"%char ∉ URL (deref h1 p) → URL (deref h1 p) ≠ [] →
  0 ≤ set_at + st_Expires (ss_config s) →
  (set_at + st_Expires (ss_config s)) / second ≤ int64_max - unix_seconds →
  p ∈ ts2 → URL (deref h2 p) = URL (deref h1 p) →
  (∀ q, q ∈ ts2 → URL (deref h2 q) = URL (deref h1 p) → q = p) →
  available_now now' (deref h2 p) = true →
  now' < (set_at + st_Expires (ss_config s)) / second * second →
  ∃ h3, Sticky_Select set_at' rec' s2 h2 now' (ck_value c) ts2 = (Some p, None, s2, h3) ∧ heap_eqv now' h2 h3.
Proof.
  intros Hen Hcfg [Hv _]%Sticky_Select_cookie Hbar Hne H0 Hmax Hin Hurl Huniq Hav Hnow.
  unfold Sticky_Select. rewrite Hcfg, Hen, Hv. cbn [negb].
  pose proof (sticky_cookie_roundtrip _ _ Hbar H0 Hmax) as Hd.
  rewrite decide_False by (intros He; rewrite He in Hd; discriminate Hd).
  rewrite Hd, bool_decide_true by done. unfold time_after. rewrite (proj2 (Z.ltb_lt _ _)) by done. cbn [andb].
  destruct (sticky_loop_finds now' (URL (deref h1 p)) h2 ts2 p) as (h3 & -> & He); eauto.
Qed.

(** The recorded sessions are never read: the target, the cookie, the state of
    the fall-back algorithm and the targets after a selection are the same whatever
    the shards hold. *)
Theorem sessions_never_read (set_at rec now : Z) (s : StickySession B) (m : list stickyShard) (h : heap)
    (value : gostring) (ts : list ptr) :
  let r := Sticky_Select set_at rec s h now value ts in
  let r' := Sticky_Select set_at rec (with_shards s m) h now value ts in
  r'.1.1 = r.1.1 ∧ ss_fallback r'.1.2 = ss_fallback r.1.2 ∧ r'.2 = r.2.
Proof.
  cbv zeta. unfold Sticky_Select, sticky_fallback. cbn [with_shards with_fallback deleteSession ss_config ss_fallback].
  repeat (case_match; simplify_eq; try done).
Qed.
End Affinity.

(** ** Building the configured algorithm *)

(** Every algorithm the validation admits is built, with at most one nested
    call, except session stickiness over itself. *)
Theorem createBalancer_terminates (numbers : list nat) (name : gostring) (cfg : ProxyConfig) (fuel : nat) :
  IsValidAlgorithm name = true → IsValidAlgorithm (sk_FallbackAlgo (px_Sticky cfg)) = true →
  sk_FallbackAlgo (px_Sticky cfg) ≠ go!"sticky" → (2 ≤ fuel)%nat →
  ∃ b, createBalancerByName numbers fuel name cfg = Some (Ok b).
Proof.
  intros Hn Hf Hs Hfuel. destruct fuel as [|[|fuel]]; [lia..|].
  assert (∀ n, IsValidAlgorithm n = true → n ≠ go!"sticky" →
    ∃ b, createBalancerByName numbers (S fuel) n cfg = Some (Ok b)) as Hone.
  { intros n Hv Hns. cbn [createBalancerByName].
    repeat (case_decide; [first [done|by eexists]|]). exfalso.
    unfold IsValidAlgorithm in Hv. case_decide; [tauto|]. apply bool_decide_eq_true in Hv.
    unfold validAlgorithms in Hv. rewrite !elem_of_cons, elem_of_nil in Hv. tauto. }
  destruct (decide (name = go!"sticky")) as [->|Hne].
  - set (algo := if decide (sk_FallbackAlgo (px_Sticky cfg) = []) then go!"round_robin" else sk_FallbackAlgo (px_Sticky cfg)).
    assert (∃ b, createBalancerByName numbers (S fuel) algo cfg = Some (Ok b)) as [b Hb].
    { apply Hone; unfold algo; case_decide; done. }
    exists (BSticky (Sticky_Start (NewStickySession (sticky_config (px_Sticky cfg)) b)).1). transitivity (match createBalancerByName numbers (S fuel) algo cfg with
      | Some (Ok b) => Some (Ok (BSticky (Sticky_Start (NewStickySession (sticky_config (px_Sticky cfg)) b)).1))
      | Some (Err e) => Some (Err (ErrFallback e)) | None => None end); [done|]. by rewrite Hb.
  - destruct (Hone name Hn Hne) as [b Hb]. exists b.
    revert Hb. cbn [createBalancerByName]. repeat (case_decide; [done|]). intros Hb. repeat (case_decide; [done|]). done.
Qed.

(** A configuration that names stickiness as its own fall-back. *)
Definition self_sticky : ProxyConfig :=
  let z := zero_ProxyConfig in
  mkProxyConfig (px_RedirectRewrite z) (px_ProxySSL z) (px_CacheValid z) (px_Buffering z)
    [mkProxyTarget (go!"http://b") 1 0 0 0 false false []] (go!"/") (go!"sticky") [] [] [] (px_Headers z)
    (px_BalancerByLua z) (px_HealthCheck z) (px_NextUpstream z) (px_Cache z) (px_Timeout z) (px_LeastTime z)
    (Config.mkStickyConfig true [] 0 [] [] false false [] (go!"sticky")) 0 [] [] false.

(** With [fallback_balance: sticky] the construction of the proxy calls itself
    without end, and the validation of the configuration lets it through. *)
Theorem sticky_fallback_diverges `{Location.Regexp} :
  (∀ numbers cfg fuel, sk_FallbackAlgo (px_Sticky cfg) = go!"sticky" →
     createBalancerByName numbers fuel (go!"sticky") cfg = None) ∧
  validateProxy self_sticky = None ∧ sk_FallbackAlgo (px_Sticky self_sticky) = go!"sticky".
Proof.
  split_and!; [|by vm_compute|done]. intros numbers cfg fuel Hf. induction fuel as [|fuel IH]; [done|].
  cbn [createBalancerByName]. repeat (rewrite decide_False by (by intros [?|?] || done)).
  rewrite decide_True by done. rewrite Hf, decide_False by done. by rewrite IH.
Qed.

(** ** Examples *)

Definition ex_session : StickySession RoundRobin :=
  NewStickySession (mkSticky true (go!"lolly_route") (3600 * second) [] (go!"/") false true (go!"Lax")) NewRoundRobin.

Lemma sticky_cookie_roundtrip_witness :
  decodeStickyCookie (encodeStickyCookie (go!"http://b:8080") 1700000000123456789) =
    Some (go!"http://b:8080", 1700000000123456789 / second * second).
Proof.
  apply (sticky_cookie_roundtrip (go!"http://b:8080") 1700000000123456789);
    [by vm_compute; set_solver|lia|by vm_compute].
Defined.

Definition ex_first := Sticky_Select 5 6 ex_session ex_heap 4 [] ex_targets.
Definition ex_cookie : cookie := default (setCookie 0 [] ex_session) ex_first.1.1.2.

(** The second request names a target that round robin would not give. *)
Lemma sticky_affinity_witness :
  ∃ h3, Sticky_Select 8 9 ex_session ex_heap 7 (ck_value ex_cookie) ex_targets = (Some 0%nat, None, ex_session, h3) ∧
    heap_eqv 7 ex_heap h3.
Proof.
  refine (sticky_affinity ex_session ex_first.1.2 ex_session ex_heap ex_first.2 ex_heap 5 6 8 9 4 7 [] ex_targets ex_targets
    0%nat ex_cookie _ _ _ _ _ _ _ _ _ _ _ _); [done|done|by vm_compute|..].
  - vm_compute. set_solver.
  - by vm_compute.
  - by vm_compute.
  - by vm_compute.
  - by left.
  - by vm_compute.
  - intros q Hq. unfold ex_targets in Hq. repeat (apply elem_of_cons in Hq as [->|Hq]; [by vm_compute|]).
    by apply elem_of_nil in Hq.
  - by vm_compute.
  - by vm_compute.
Defined.

Lemma createBalancer_terminates_witness :
  ∃ b, createBalancerByName [] 2 (go!"sticky") zero_ProxyConfig = Some (Ok b).
Proof. by apply (createBalancer_terminates [] (go!"sticky") zero_ProxyConfig 2); [vm_compute|vm_compute| |lia]. Defined.
