(* ===== verification/Selector.v ===== *)
(** * Selector: from a request to a target

    [selectTarget] of [src/internal/proxy/proxy.go] with the functions of
    [proxy/target_selector.go], which give each algorithm the key of the request it
    needs, the client address of [netutil/ip.go] they use, and [ngx.balancer] of
    [lua/api_balancer.go] with which a script names a target.  A script is the
    sequence of the peers it asks for and how it ends. *)

From S2P Require Import Prelude GoStrings Target Balancer ConsistentHash Config Sticky.

(** What the selection reads of the request; [cx_peer] is the text of the remote
    address, an absent header the empty text. *)
Record ctx := mkCtx {
  cx_xff : gostring; cx_xri : gostring; cx_peer : gostring; cx_uri : gostring;
  cx_header : gostring → gostring; cx_cookie : gostring → gostring }.

(** [netutil.ExtractClientIP] *)
Definition ExtractClientIP (c : ctx) : gostring :=
  if decide (cx_xff c ≠ []) then TrimSpace (hd [] (SplitByte (cx_xff c) ","))
  else if decide (cx_xri c ≠ []) then cx_xri c
  else cx_peer c.

Definition extractHashKey (c : ctx) (hashKey : gostring) : gostring :=
  if decide (hashKey = go!"ip" ∨ hashKey = []) then ExtractClientIP c
  else if decide (hashKey = go!"uri") then cx_uri c
  else if HasPrefix hashKey (go!"header:") then
    let value := cx_header c (TrimPrefix hashKey (go!"header:")) in
    if decide (value ≠ []) then value else ExtractClientIP c
  else ExtractClientIP c.

(** ** [ngx.balancer] *)

Record BalancerContext := mkBCtx {
  bc_LastError : option gostring; bc_Selected : option ptr; bc_ClientIP : gostring;
  bc_Targets : list ptr; bc_Retries : Z }.

(** [set_current_peer(host, port)]: the loop over the targets, and the answer. *)
Fixpoint peer_loop (h : heap) (targetURL : gostring) (ts : list ptr) : option ptr :=
  match ts with
  | [] => None
  | t :: ts =>
      if bool_decide (URL (deref h t) = targetURL) || HasPrefix (URL (deref h t)) targetURL then Some t
      else peer_loop h targetURL ts
  end.

Definition set_current_peer (h : heap) (host port : gostring) (b : BalancerContext) : bool * BalancerContext :=
  let port := if HasPrefix port (go!":") then port else ":"%char :: port in
  match peer_loop h (go!"http://" ++ host ++ port) (bc_Targets b) with
  | Some t => (true, mkBCtx (bc_LastError b) (Some t) (bc_ClientIP b) (bc_Targets b) (bc_Retries b))
  | None => (false, b)
  end.

Definition set_more_tries (count : Z) (b : BalancerContext) : BalancerContext :=
  mkBCtx (bc_LastError b) (bc_Selected b) (bc_ClientIP b) (bc_Targets b) count.

(** [classifyError]; "connection" and every other message are a failure. *)
Definition classifyError (err : gostring) : gostring :=
  if Contains err (go!"timeout") then go!"timeout" else go!"failed".

Definition get_last_failure (b : BalancerContext) : option gostring := classifyError <$> bc_LastError b.

Definition IsSelected (b : BalancerContext) : bool := bool_decide (is_Some (bc_Selected b)).

Record script := mkScript { sc_peers : list (gostring * gostring); sc_fails : bool }.

(** [selectByLua]: [None] is an error, [Some None] no choice. *)
Definition selectByLua (sc : script) (c : ctx) (tries : Z) (h : heap) (targets : list ptr) : option (option ptr) :=
  let b := foldl (λ b p, (set_current_peer h p.1 p.2 b).2) (mkBCtx None None (ExtractClientIP c) targets tries) (sc_peers sc) in
  if sc_fails sc then None else Some (bc_Selected b).

(** ** The proxy's selection *)

Record proxy := mkProxySel {
  pr_targets : list ptr; pr_balancer : balancer; pr_fallbackBalancer : balancer; pr_tries : Z;
  pr_script : option script }.

Definition with_balancers (p : proxy) (b fb : balancer) : proxy :=
  mkProxySel (pr_targets p) b fb (pr_tries p) (pr_script p).

(** The part of [NewProxy] that builds the algorithms; [None] while they are built. *)
Definition new_balancers (numbers : list nat) (fuel : nat) (cfg : ProxyConfig)
  : option (res create_error (balancer * balancer)) :=
  r ← createBalancerByName numbers fuel (px_LoadBalance cfg) cfg;
  match r with
  | Ok b =>
      let algo := bl_Fallback (px_BalancerByLua cfg) in
      r' ← createBalancerByName numbers fuel (if decide (algo = []) then go!"round_robin" else algo) cfg;
      Some (match r' with Ok fb => Ok (b, fb) | Err e => Err (ErrFallback e) end)
  | Err e => Some (Err e)
  end.

Section Select.
Context (set_at record_at now : Z) (c : ctx).

Definition selectByFallback (fb : balancer) (h : heap) (targets : list ptr) : option ptr * balancer * heap :=
  match fb with
  | BIPHash i => wrapping BIPHash (SelectByIP i h now targets (ExtractClientIP c))
  | fb => Select fb h now targets
  end.

(** The target, the cookie of the answer, the balancer and the targets. *)
Definition selectByBalancer (b : balancer) (h : heap) (targets : list ptr)
  : option ptr * option cookie * balancer * heap :=
  match b with
  | BSticky s =>
      let '(sel, ck, s, h) :=
        Sticky_Select set_at record_at s h now (cx_cookie c (st_Name (ss_config s))) targets in
      (sel, ck, BSticky s, h)
  | BIPHash i =>
      let '(sel, b, h) := wrapping BIPHash (SelectByIP i h now targets (ExtractClientIP c)) in (sel, None, b, h)
  | BConsistentHash r =>
      let '(sel, b, h) := wrapping BConsistentHash (SelectByKey r h targets (extractHashKey c (hashKey r))) in
      (sel, None, b, h)
  | b => let '(sel, b, h) := Select b h now targets in (sel, None, b, h)
  end.

Definition selectTarget (p : proxy) (h : heap) : option ptr * option cookie * proxy * heap :=
  match pr_targets p with
  | [] => (None, None, p, h)
  | ts =>
      let fallback :=
        let '(sel, fb, h) := selectByFallback (pr_fallbackBalancer p) h ts in
        (sel, None, with_balancers p (pr_balancer p) fb, h) in
      match pr_script p with
      | Some sc =>
          match selectByLua sc c (pr_tries p) h ts with
          | Some (Some t) => (Some t, None, p, h)
          | _ => fallback
          end
      | None =>
          let '(sel, ck, b, h) := selectByBalancer (pr_balancer p) h ts in
          (sel, ck, with_balancers p b (pr_fallbackBalancer p), h)
      end
  end.

Definition selectTargetExcluding (p : proxy) (h : heap) (excluded : list ptr) : option ptr * proxy * heap :=
  match pr_targets p with
  | [] => (None, p, h)
  | ts =>
      let '(sel, b, h) :=
        match pr_balancer p with
        | BIPHash i => wrapping BIPHash (SelectExcludingByIP i h now ts excluded (ExtractClientIP c))
        | BConsistentHash r =>
            wrapping BConsistentHash (SelectExcludingByKey r h ts excluded (extractHashKey c (hashKey r)))
        | b => SelectExcluding b h now ts excluded
        end in
      (sel, with_balancers p b (pr_fallbackBalancer p), h)
  end.
End Select.

(** ** What a script can name *)

Lemma peer_loop_prefix h url ts p :
  peer_loop h url ts = Some p → p ∈ ts ∧ HasPrefix (URL (deref h p)) url = true.
Proof.
  induction ts as [|t ts IH]; [done|]. cbn [peer_loop]. destruct (_ || _) eqn:E.
  - intros [= ->]. split; [by left|]. apply orb_true_iff in E as [E%bool_decide_eq_true|E]; [|done]. rewrite E.
    by apply HasPrefix_spec.
  - intros [? ?]%IH. split; [by right|done].
Qed.

Definition two_ports : heap :=
  <[0%nat := set_healthy (NewTargetFromConfig (go!"b") (go!"http://b:8080") 1 0 0 0 false false []) true]>
  {[1%nat := NewTargetFromConfig (go!"b") (go!"http://b:80") 1 0 0 0 false false []]}.

(** The peer a script names is matched by prefix: what it selects is a configured
    target whose URL begins with the text http, host, port, so that a target reached
    over TLS can never be named; and port 80 selects a target on port 8080 that
    comes first, although a target on port 80 is configured. *)
Theorem lua_peer_by_prefix :
  (∀ h host port b, let '(ok, b') := set_current_peer h host port b in
     ok = true → ∃ p, bc_Selected b' = Some p ∧ p ∈ bc_Targets b ∧
       HasPrefix (URL (deref h p)) (go!"http://" ++ host) = true ∧
       HasPrefix (URL (deref h p)) (go!"https://") = false) ∧
  (let b := mkBCtx None None [] [0; 1]%nat 0 in
   bc_Selected (set_current_peer two_ports (go!"b") (go!"80") b).2 = Some 0%nat ∧
   URL (deref two_ports 0%nat) = go!"http://b:8080" ∧ URL (deref two_ports 1%nat) = go!"http://b:80").
Proof.
  split; [|by vm_compute]. intros h host port b. unfold set_current_peer.
  destruct (peer_loop _ _ _) as [p|] eqn:E; [|done]. intros _. exists p.
  apply peer_loop_prefix in E as [Hin [rest Hr]%HasPrefix_spec].
  split_and!; [done|done| |].
  - rewrite Hr. apply HasPrefix_spec. exists ((if HasPrefix port (go!":") then port else ":"%char :: port) ++ rest).
    by rewrite <- !app_assoc.
  - by rewrite Hr.
Qed.

(** ** Every selection is a configured target

    What a balancer may hand out: the ring, once built, holds targets. *)
Fixpoint over (ts : list ptr) (b : balancer) : Prop :=
  match b with
  | BConsistentHash r => rebuilt r = true → ∀ k p, circle r !! k = Some p → p ∈ ts
  | BSticky s => over ts (ss_fallback s)
  | _ => True
  end.

Lemma points_in vn h ts x p : (x, p) ∈ points vn h ts → p ∈ ts.
Proof.
  unfold points. rewrite list_elem_of_In, in_concat. intros (l & Hl%list_elem_of_In & Hx%list_elem_of_In).
  apply list_elem_of_fmap in Hl as (q & -> & Hq). apply list_elem_of_fmap in Hx as (y & [= -> ->] & _).
  by apply list_elem_of_filter in Hq as [_ ?].
Qed.

Lemma ensureRebuilt_over r h ts :
  over ts (BConsistentHash r) → over ts (BConsistentHash (ensureRebuilt r h ts).1) ∧ rebuilt (ensureRebuilt r h ts).1 = true.
Proof.
  unfold ensureRebuilt. destruct (rebuilt r) eqn:Eb; [by split|]. intros _.
  destruct (rebuildCircle_ring r h ts) as [[Hc _ _ Hb] _]. split; [|done].
  cbn [over]. intros _ k p Hk. rewrite Hc in Hk. apply place_Some in Hk as [(l1 & l2 & Hp & _)|[Hk _]].
  - apply (points_in (virtualNodes r) h ts k). rewrite Hp. apply elem_of_app. right. by left.
  - by rewrite lookup_empty in Hk.
Qed.

Lemma walk_circle n i idx c h set p : walk n i idx c h set = Some p → ∃ k, circle c !! k = Some p.
Proof.
  revert i. induction n as [|n IH]; intros i; [done|]. cbn [walk].
  destruct (circle c !! _) as [q|] eqn:E; [|apply IH]. case_match; [|apply IH]. intros [= ->]. by eexists.
Qed.

(** What a selection owes: a target of [ts], and a balancer that stays over [ts]. *)
Definition picks (ts : list ptr) (r : option ptr * balancer * heap) : Prop :=
  (∀ p, r.1.1 = Some p → p ∈ ts) ∧ over ts r.1.2.

Lemma picks_by_key r h ts key :
  over ts (BConsistentHash r) → picks ts (wrapping BConsistentHash (SelectByKey r h ts key)).
Proof.
  intros Ho. pose proof (ensureRebuilt_over r h ts Ho) as [Ho' Hb]. unfold SelectByKey.
  destruct (ensureRebuilt r h ts) as [c h']. cbn in Ho', Hb. destruct (sortedHashes c); split; cbn; try done; eauto.
Qed.

Lemma picks_excluding_by_key r h ts ex key :
  over ts (BConsistentHash r) → picks ts (wrapping BConsistentHash (SelectExcludingByKey r h ts ex key)).
Proof.
  intros Ho. pose proof (ensureRebuilt_over r h ts Ho) as [Ho' Hb]. unfold SelectExcludingByKey.
  destruct (ensureRebuilt r h ts) as [c h']. cbn in Ho', Hb. destruct (sortedHashes c); split; cbn [wrapping fst snd]; try done.
  intros p [k Hk]%walk_circle. eauto.
Qed.

Lemma picks_in {B} (f : B → balancer) `{SelectIn B} b h now ts :
  (∀ b, over ts (f b)) → picks ts (wrapping f (Select b h now ts)).
Proof.
  intros Hf. split; [|apply Hf]. intros p Hp. destruct (Select b h now ts) as [[o b'] h'] eqn:E.
  cbn in Hp. subst o. by apply select_in in E.
Qed.

Lemma picks_failover {B} (f : B → balancer) `{FailoverOk B} b h now ts ex :
  (∀ b, over ts (f b)) → picks ts (wrapping f (SelectExcluding b h now ts ex)).
Proof.
  intros Hf. split; [|apply Hf]. intros p Hp. destruct (SelectExcluding b h now ts ex) as [[o b'] h'] eqn:E.
  cbn in Hp. subst o. by apply excluding_some, elem_of_candidates in E as [? _].
Qed.

Lemma picks_by_ip i h now ts ip : picks ts (wrapping BIPHash (SelectByIP i h now ts ip)).
Proof.
  split; [|done]. unfold SelectByIP. pose proof (filterInto_spec now h ts) as [_ Hl].
  destruct (filterInto now h ts) as [h' l]. cbn in Hl |- *. intros p Hp.
  pose proof (iphash_pick_spec l ip) as Hs. rewrite Hp, Hl in Hs. by apply elem_of_candidates in Hs as [? _].
Qed.

Lemma picks_excluding_by_ip i h now ts ex ip : picks ts (wrapping BIPHash (SelectExcludingByIP i h now ts ex ip)).
Proof.
  split; [|done]. unfold SelectExcludingByIP. pose proof (filterIntoExcluding_spec now h ts ex) as [_ Hl].
  destruct (filterIntoExcluding now h ts ex) as [h' l]. cbn in Hl |- *. intros p Hp.
  pose proof (iphash_pick_spec l ip) as Hs. rewrite Hp, Hl in Hs. by apply elem_of_candidates in Hs as [? _].
Qed.

Lemma picks_session ts s r : picks ts r → picks ts (wrapping (λ f, BSticky (with_fallback s f)) r).
Proof. by destruct r as [[o b] h]. Qed.

(** [Select] of the interface, whatever the dynamic type. *)
Lemma picks_Select : ∀ b h now ts, over ts b → picks ts (balancer_Select b h now ts).
Proof.
  fix IH 1. intros [b|b|b|b|r|b|b|s] h now ts Ho; cbn [balancer_Select];
    try (apply picks_in; [apply _|done]).
  - by apply picks_by_key.
  - apply picks_session. destruct s. by apply IH.
Qed.

Lemma picks_SelectExcluding : ∀ b h now ts ex, over ts b → picks ts (balancer_SelectExcluding b h now ts ex).
Proof.
  fix IH 1. intros [b|b|b|b|r|b|b|s] h now ts ex Ho; cbn [balancer_SelectExcluding];
    try (apply picks_failover; [apply _|done]).
  - by apply picks_excluding_by_key.
  - apply picks_session. destruct s. by apply IH.
Qed.

Lemma created_over numbers ts cfg fuel name b :
  createBalancerByName numbers fuel name cfg = Some (Ok b) → over ts b.
Proof.
  revert name b. induction fuel as [|fuel IH]; intros name b; [done|]. cbn [createBalancerByName].
  repeat (case_decide; [by intros [= <-]|]). case_decide; [|done].
  destruct (createBalancerByName _ _ _ _) as [[b'|e]|] eqn:E; [|done..]. intros [= <-]. by apply IH in E.
Qed.

Lemma sticky_loop_in now url h ts p h' : sticky_loop now url h ts = (Some p, h') → p ∈ ts.
Proof.
  revert h. induction ts as [|q ts IH]; intros h; [done|]. cbn [sticky_loop]. repeat case_match; intros E;
    simplify_eq; try (by left); right; by eapply IH.
Qed.

Lemma sticky_fallback_picks set_at rec s h now ts :
  over ts (ss_fallback s) →
  let r := sticky_fallback set_at rec s h now ts in (∀ p, r.1.1.1 = Some p → p ∈ ts) ∧ over ts (ss_fallback r.1.2).
Proof.
  intros [Hp Ho]%(picks_Select _ h now). unfold sticky_fallback. cbn [Select balancer_balancer].
  destruct (balancer_Select _ _ _ _) as [[[p|] b] h1]; cbn in *; auto.
Qed.

Lemma Sticky_Select_picks set_at rec s h now value ts :
  over ts (ss_fallback s) →
  let r := Sticky_Select set_at rec s h now value ts in (∀ p, r.1.1.1 = Some p → p ∈ ts) ∧ over ts (ss_fallback r.1.2).
Proof.
  intros Ho. unfold Sticky_Select. destruct (negb _).
  { apply (picks_Select _ h now) in Ho as [Hp Ho]. cbn [Select balancer_balancer].
    by destruct (balancer_Select _ _ _ _) as [[o b] h1]. }
  destruct (if decide (value = []) then None else _) as [[url expires]|]; [|by apply sticky_fallback_picks].
  destruct (_ && _); [|by apply sticky_fallback_picks].
  destruct (sticky_loop now url h ts) as [[q|] h1] eqn:E; [|by apply sticky_fallback_picks].
  cbn. split; [|done]. intros p [= <-]. by apply sticky_loop_in in E.
Qed.

Lemma selectByBalancer_picks set_at rec now c b h ts :
  over ts b → let r := selectByBalancer set_at rec now c b h ts in (∀ p, r.1.1.1 = Some p → p ∈ ts) ∧ over ts r.1.2.
Proof.
  intros Ho. assert (picks ts (Select b h now ts)) as Hp by by apply picks_Select.
  destruct b as [b|b|b|b|r|b|b|s]; cbn [selectByBalancer];
    try (destruct (Select _ h now ts) as [[o b'] h1]; exact Hp).
  - pose proof (picks_by_ip b h now ts (ExtractClientIP c)) as Hq. by destruct (wrapping _ _) as [[o b'] h1].
  - pose proof (picks_by_key r h ts (extractHashKey c (hashKey r)) Ho) as Hq. by destruct (wrapping _ _) as [[o b'] h1].
  - pose proof (Sticky_Select_picks set_at rec s h now (cx_cookie c (st_Name (ss_config s))) ts Ho) as Hq.
    by destruct (Sticky_Select _ _ _ _ _ _ _) as [[[o ck] s'] h1].
Qed.

Lemma selectByFallback_picks now c b h ts : over ts b → picks ts (selectByFallback now c b h ts).
Proof. intros Ho. destruct b; cbn [selectByFallback]; try (by apply picks_Select). apply picks_by_ip. Qed.

Lemma set_current_peer_targets h host port b :
  (∀ p, bc_Selected b = Some p → p ∈ bc_Targets b) →
  let b' := (set_current_peer h host port b).2 in
  bc_Targets b' = bc_Targets b ∧ ∀ p, bc_Selected b' = Some p → p ∈ bc_Targets b'.
Proof.
  intros Hb. unfold set_current_peer. destruct (peer_loop _ _ _) as [q|] eqn:E; cbn; [|done].
  split; [done|]. intros p [= <-]. by apply peer_loop_prefix in E as [? _].
Qed.

Lemma selectByLua_in sc c tries h ts p : selectByLua sc c tries h ts = Some (Some p) → p ∈ ts.
Proof.
  unfold selectByLua. destruct (sc_fails sc); [done|]. intros [= Hs].
  set (b0 := mkBCtx None None _ _ _) in Hs.
  assert (∀ l b, bc_Targets b = ts → (∀ p, bc_Selected b = Some p → p ∈ ts) →
    ∀ p, bc_Selected (foldl (λ b p, (set_current_peer h p.1 p.2 b).2) b l) = Some p → p ∈ ts) as Hl.
  { induction l as [|[host port] l IH]; intros b Ht Hb; [done|]. cbn [foldl].
    destruct (set_current_peer_targets h host port b) as [Ht' Hb']; [by rewrite Ht|].
    apply IH; [cbn; congruence|]. intros q Hq%Hb'. congruence. }
  by apply (Hl (sc_peers sc) b0) in Hs.
Qed.

(** Requests one after the other, each at its own time and over the targets as it
    finds them: first selections and selections after failures. *)
Inductive served : proxy → list ptr → proxy → Prop :=
  | served_none p : served p [] p
  | served_first p l p1 set_at rec now c h o ck p2 h' :
      served p l p1 → selectTarget set_at rec now c p1 h = (o, ck, p2, h') →
      served p (l ++ option_list o) p2
  | served_again p l p1 now c h ex o p2 h' :
      served p l p1 → selectTargetExcluding now c p1 h ex = (o, p2, h') →
      served p (l ++ option_list o) p2.

(** What one selection owes the next: a configured target, the same targets, and
    balancers that stay over them. *)
Definition over_targets (ts : list ptr) (p : proxy) : Prop :=
  pr_targets p = ts ∧ over ts (pr_balancer p) ∧ over ts (pr_fallbackBalancer p).

Lemma selectTarget_picks set_at record_at now c ts p h :
  over_targets ts p →
  let r := selectTarget set_at record_at now c p h in
  (∀ q, r.1.1.1 = Some q → q ∈ ts) ∧ over_targets ts r.1.2.
Proof.
  intros (Ht & Hb & Hf). unfold selectTarget. rewrite Ht. destruct ts as [|t ts]; [by split|].
  pose proof (selectByFallback_picks now c _ h _ Hf) as [Hp Ho].
  pose proof (selectByBalancer_picks set_at record_at now c _ h _ Hb) as [Hp' Ho'].
  destruct (pr_script p) as [sc|].
  - destruct (selectByFallback _ _ _ _ _) as [[o1 fb] h1].
    destruct (selectByLua _ _ _ _ _) as [[q|]|] eqn:El; try (by split).
    apply selectByLua_in in El. split; [|done]. by intros ? [= <-].
  - by destruct (selectByBalancer _ _ _ _ _ _ _) as [[[o1 ck1] b1] h1].
Qed.

Lemma selectTargetExcluding_picks now c ts p h ex :
  over_targets ts p →
  let r := selectTargetExcluding now c p h ex in
  (∀ q, r.1.1 = Some q → q ∈ ts) ∧ over_targets ts r.1.2.
Proof.
  intros (Ht & Hb & Hf). unfold selectTargetExcluding. rewrite Ht. destruct ts as [|t ts]; [by split|].
  match goal with |- context [let '(_, _) := ?r in _] => assert (picks (t :: ts) r) as [Hp Ho] end.
  { destruct (pr_balancer p); try (by apply picks_SelectExcluding);
      [apply picks_excluding_by_ip|by apply picks_excluding_by_key]. }
  by destruct (match pr_balancer p with BIPHash _ => _ | _ => _ end) as [[o1 b1] h1].
Qed.

Lemma served_over ts p l p' : served p l p' → over_targets ts p → l ⊆ ts ∧ over_targets ts p'.
Proof.
  intros Hs Hp.
  induction Hs as [|p l p1 set_at rec now c h o ck p2 h' _ IH E|p l p1 now c h ex o p2 h' _ IH E];
    [split; [set_solver|done]|destruct (IH Hp) as [Hl Hp1]..].
  - pose proof (selectTarget_picks set_at rec now c ts p1 h Hp1) as [Ho H2]. rewrite E in Ho, H2.
    split; [|done]. destruct o as [q|]; cbn in *; set_solver.
  - pose proof (selectTargetExcluding_picks now c ts p1 h ex Hp1) as [Ho H2]. rewrite E in Ho, H2.
    split; [|done]. destruct o as [q|]; cbn in *; set_solver.
Qed.

Lemma new_balancers_over numbers fuel cfg b fb ts tries sc :
  new_balancers numbers fuel cfg = Some (Ok (b, fb)) → over_targets ts (mkProxySel ts b fb tries sc).
Proof.
  intros Hn. unfold new_balancers in Hn.
  destruct (createBalancerByName _ _ (px_LoadBalance cfg) _) as [[b1|e]|] eqn:E1; cbn [mbind option_bind] in Hn; try done.
  destruct (createBalancerByName _ _ (if decide _ then _ else _) _) as [[b2|e]|] eqn:E2; cbn [mbind option_bind] in Hn; simplify_eq.
  split_and!; [done|by apply created_over with (ts := ts) in E1|by apply created_over with (ts := ts) in E2].
Qed.

(** C28: Every request goes to a configured target: with any algorithms the
    configuration names, any script, any keys, cookies and failures, and whatever
    happens to the targets between the requests. *)
Theorem served_configured (numbers : list nat) (fuel : nat) (cfg : ProxyConfig) (b fb : balancer)
    (ts : list ptr) (tries : Z) (sc : option script) (l : list ptr) (p : proxy) :
  new_balancers numbers fuel cfg = Some (Ok (b, fb)) → served (mkProxySel ts b fb tries sc) l p → l ⊆ ts.
Proof.
  intros Hn Hs. by apply (served_over ts) in Hs as [Hl _]; [|eapply new_balancers_over].
Qed.

Definition ex_proxy_sel : proxy := mkProxySel ex_targets (BRoundRobin NewRoundRobin) (BRoundRobin NewRoundRobin) 3 None.
Definition ex_ctx : ctx := mkCtx [] [] (go!"10.0.0.1") (go!"/") (λ _, []) (λ _, []).

Definition ex_sel1 := selectTarget 0 0 0 ex_ctx ex_proxy_sel ex_heap.
Definition ex_sel2 := selectTargetExcluding 0 ex_ctx ex_sel1.1.2 ex_heap [0%nat].

(** A request that fails over from the first target. *)
Lemma served_configured_witness : option_list ex_sel1.1.1.1 ++ option_list ex_sel2.1.1 ⊆ ex_targets.
Proof.
  eapply (served_configured [] 2 zero_ProxyConfig _ _ ex_targets 3 None); [reflexivity|].
  apply (served_again ex_proxy_sel (option_list ex_sel1.1.1.1) ex_sel1.1.2 0 ex_ctx ex_heap [0%nat] ex_sel2.1.1 ex_sel2.1.2 ex_sel2.2);
    [|by vm_compute].
  apply (served_first ex_proxy_sel [] ex_proxy_sel 0 0 0 ex_ctx ex_heap ex_sel1.1.1.1 ex_sel1.1.1.2 ex_sel1.1.2 ex_sel1.2); [constructor|by vm_compute].
Defined.
