(* ===== verification/Selection.v ===== *)
(** * Selection: what a request may rely on when it asks for a target

    The selections of [Selector], over every algorithm, script, key and cookie, meet
    one specification [finds]: the store keeps all that another selection at that
    instant can observe, a target whose URL was excluded is not found, and nothing
    is found only when nothing is left.  The last part fails for consistent hashing,
    whose ring is built once; [exhaustive] tells the algorithms that meet it. *)

From S2P Require Import Prelude GoStrings Target Balancer ConsistentHash Config Sticky Selector.

(** ** The targets up to their failure counters and their virtual hashes *)

Definition kept_target (now : Z) (t t' : Target) : Prop :=
  set_hashes (set_breaker t 0 0) [] = set_hashes (set_breaker t' 0 0) [] ∧
  available_now now t = available_now now t'.

Definition kept (now : Z) (h h' : heap) : Prop := ∀ p, kept_target now (deref h p) (deref h' p).

#[export] Instance kept_equiv now : Equivalence (kept now).
Proof.
  split.
  - by intros h p.
  - intros h h' Hh p. destruct (Hh p). by split.
  - intros h h' h'' H1 H2 p. destruct (H1 p), (H2 p). split; congruence.
Qed.

Lemma eqv_kept now h h' : heap_eqv now h h' → kept now h h'.
Proof. intros Hh p. destruct (Hh p) as [Ht Ha]. split; [by rewrite Ht|done]. Qed.

(** A field that neither a reset of the counters nor a fill of the hashes touches. *)
Class Steady {A} (f : Target → A) : Prop := {
  steady_breaker t c u : f (set_breaker t c u) = f t;
  steady_hashes t l : f (set_hashes t l) = f t
}.

#[export] Instance URL_steady : Steady URL.
Proof. by split. Qed.
#[export] Instance Weight_steady : Steady Weight.
Proof. by split. Qed.
#[export] Instance Backup_steady : Steady Backup.
Proof. by split. Qed.

Lemma kept_field {A} (f : Target → A) `{!Steady f} now h h' p : kept now h h' → f (deref h p) = f (deref h' p).
Proof.
  intros Hh. destruct (Hh p) as [Ht _].
  by rewrite <- (steady_breaker (deref h p) 0 0), <- (steady_hashes _ []), Ht, steady_hashes, steady_breaker.
Qed.

Lemma kept_available now h h' p : kept now h h' → available_now now (deref h p) = available_now now (deref h' p).
Proof. intros Hh. apply Hh. Qed.

Lemma available_hashes now t l : available_now now (set_hashes t l) = available_now now t.
Proof. unfold available_now, IsAvailable. simpl. by repeat case_match. Qed.

Lemma rebuild_loop_kept now vn h ts circ hashes : kept now h (rebuild_loop vn h ts circ hashes).1.
Proof.
  revert h circ hashes. induction ts as [|p ts IH]; intros h circ hashes; [reflexivity|].
  cbn [rebuild_loop]. destruct (negb _); [apply IH|]. etransitivity; [|apply IH].
  destruct (VirtualHashes (deref h p)); [|reflexivity]. intros q. rewrite deref_store.
  case_decide as Hd; [|by split]. destruct Hd as [<- _]. split; [done|by rewrite available_hashes].
Qed.

Lemma ensureRebuilt_kept now c h ts : kept now h (ensureRebuilt c h ts).2.
Proof.
  unfold ensureRebuilt. destruct (rebuilt c); [reflexivity|]. unfold rebuildCircle.
  pose proof (rebuild_loop_kept now (virtualNodes c) h ts ∅ []) as Hk.
  by destruct (rebuild_loop _ _ _ _ _) as [h' [circ hashes]].
Qed.

(** ** Candidates *)

Definition urls (h : heap) (l : list ptr) : list gostring := (λ p, URL (deref h p)) <$> l.

Lemma kept_urls now h h' l : kept now h h' → urls h l = urls h' l.
Proof. intros Hh. apply list_fmap_ext. intros _ p _. by apply (kept_field URL now). Qed.

Lemma is_excluded_urls h ex p : is_excluded h ex (deref h p) = bool_decide (URL (deref h p) ∈ urls h ex).
Proof.
  unfold is_excluded, exclude_set. apply bool_decide_ext. by rewrite elem_of_list_to_set.
Qed.

Lemma kept_candidates now h h' ts : kept now h h' → candidates now skip_none h ts = candidates now skip_none h' ts.
Proof.
  intros Hh. assert (∀ b, filter (λ p, usable now skip_none h p = true ∧ Backup (deref h p) = b) ts
    = filter (λ p, usable now skip_none h' p = true ∧ Backup (deref h' p) = b) ts) as Hf.
  { intros b. apply list_filter_iff. intros p. unfold usable.
    by rewrite (kept_available now h h' p Hh), (kept_field Backup now h h' p Hh). }
  unfold candidates. by rewrite !Hf.
Qed.

Lemma kept_total_weight now h h' l : kept now h h' → total_weight h l = total_weight h' l.
Proof.
  intros Hh. induction l as [|p l IH]; [done|]. simpl. rewrite IH. unfold weight_of.
  by rewrite (kept_field Weight now h h' p Hh).
Qed.

Lemma total_weight_sublist h l l' : l `sublist_of` l' → total_weight h l ≤ total_weight h l'.
Proof.
  induction 1 as [|p l l' _ IH|p l l' _ IH]; simpl; [lia|lia|].
  pose proof (weight_of_pos (deref h p)). lia.
Qed.

Lemma total_weight_candidates t skip h l :
  total_weight h (candidates t skip h l) ≤ total_weight h l.
Proof.
  apply total_weight_sublist. unfold candidates.
  destruct (filter (λ p, _ ∧ _ = false) l) eqn:E; [|rewrite <- E]; apply sublist_filter.
Qed.

(** ** The specification of a selection *)

(** Every algorithm but consistent hashing, also as the fall-back of a session. *)
Fixpoint exhaustive (b : balancer) : bool :=
  match b with
  | BConsistentHash _ => false
  | BSticky s => exhaustive (ss_fallback s)
  | _ => true
  end.

(** A selection at [now] by [b] that skips the targets of [skip]. *)
Definition finds (now : Z) (skip : Target → bool) (h : heap) (ts : list ptr) (b : balancer)
    (r : option ptr * balancer * heap) : Prop :=
  kept now h r.2 ∧ exhaustive r.1.2 = exhaustive b ∧
  match r.1.1 with
  | Some p => skip (deref h p) = false
  | None => exhaustive b = true → total_weight h ts ≤ int64_max → candidates now skip h ts = []
  end.

Section Interface.
Context {B : Type} (f : B → balancer) (b : B) (now : Z) (h : heap) (ts : list ptr).
Context (Hex : ∀ b', exhaustive (f b') = exhaustive (f b)).

Lemma finds_select `{SelectOk B} : finds now skip_none h ts (f b) (wrapping f (Select b h now ts)).
Proof using Hex.
  pose proof (select_heap b h now ts) as Hk%eqv_kept.
  destruct (Select b h now ts) as [[[p|] b'] h'] eqn:E; (split; [done|split; [apply Hex|]]); [done|].
  intros _ Hw. eapply select_none; [|exact E]. pose proof (total_weight_candidates now skip_none h ts). lia.
Qed.

Lemma finds_excluding `{FailoverOk B} ex :
  finds now (is_excluded h ex) h ts (f b) (wrapping f (SelectExcluding b h now ts ex)).
Proof using Hex.
  pose proof (excluding_heap b h now ts ex) as Hk%eqv_kept.
  destruct (SelectExcluding b h now ts ex) as [[[p|] b'] h'] eqn:E; (split; [done|split; [apply Hex|]]).
  - apply excluding_some, elem_of_candidates in E as [_ Hu]. unfold usable in Hu.
    by apply andb_true_iff in Hu as [_ Hu%negb_true_iff].
  - intros _ Hw. eapply excluding_none; [|exact E].
    pose proof (total_weight_candidates now (is_excluded h ex) h ts). lia.
Qed.
End Interface.

Lemma candidates_unhealthy now h ts :
  filter (λ p, Healthy (deref h p) = true) ts = [] → candidates now skip_none h ts = [].
Proof.
  intros Hf. apply candidates_nil. intros p Hp. unfold usable, available_now, IsAvailable.
  destruct (Healthy (deref h p)) eqn:E; [|done].
  exfalso. apply (not_elem_of_nil p). rewrite <- Hf. by apply list_elem_of_filter.
Qed.

Lemma finds_least_conn b now h ts :
  finds now skip_none h ts (BLeastConnections b) (wrapping BLeastConnections (Select b h now ts)).
Proof.
  cbn [Select LeastConnections_balancer]. unfold LC_Select, wrapping, finds. cbn [fst snd].
  pose proof (min_loop_spec (λ p, Connections (deref h p)) (filter (λ p, Healthy (deref h p) = true) ts) (-1)) as Hm.
  split; [reflexivity|]. split; [done|].
  destruct (min_loop _ _ _ _); [done|]. intros _ _. by apply candidates_unhealthy.
Qed.

Lemma iphash_finds i now h ts ip :
  finds now skip_none h ts (BIPHash i) (wrapping BIPHash (SelectByIP i h now ts ip)).
Proof.
  unfold SelectByIP. pose proof (filterInto_spec now h ts) as [Hh%eqv_kept Hl].
  destruct (filterInto now h ts) as [h' l]. cbn in Hh, Hl. subst l. split; [done|]. split; [done|].
  cbn. pose proof (iphash_pick_spec (candidates now (λ _, false) h ts) ip) as Hs.
  by destruct (iphash_pick _ _).
Qed.

Lemma iphash_finds_excluding i now h ts ex ip :
  finds now (is_excluded h ex) h ts (BIPHash i) (wrapping BIPHash (SelectExcludingByIP i h now ts ex ip)).
Proof.
  unfold SelectExcludingByIP. pose proof (filterIntoExcluding_spec now h ts ex) as [Hh%eqv_kept Hl].
  destruct (filterIntoExcluding now h ts ex) as [h' l]. cbn in Hh, Hl. subst l. split; [done|]. split; [done|].
  cbn. pose proof (iphash_pick_spec (candidates now (is_excluded h ex) h ts) ip) as Hs.
  destruct (iphash_pick _ _) as [p|]; [|done].
  apply elem_of_candidates in Hs as [_ Hu]. unfold usable in Hu. by apply andb_true_iff in Hu as [_ Hu%negb_true_iff].
Qed.

Lemma ring_finds r now h ts key :
  finds now skip_none h ts (BConsistentHash r) (wrapping BConsistentHash (SelectByKey r h ts key)).
Proof.
  unfold SelectByKey. pose proof (ensureRebuilt_kept now r h ts) as Hk.
  destruct (ensureRebuilt r h ts) as [r' h']. cbn [snd] in Hk.
  destruct (sortedHashes r'); (split; [done|split; [done|]]); cbn; [done|]. by destruct (circle r' !! _).
Qed.

Lemma ring_finds_excluding r now h ts ex key :
  finds now (is_excluded h ex) h ts (BConsistentHash r)
    (wrapping BConsistentHash (SelectExcludingByKey r h ts ex key)).
Proof.
  unfold SelectExcludingByKey. pose proof (ensureRebuilt_kept now r h ts) as Hk.
  destruct (ensureRebuilt r h ts) as [r' h']. cbn [snd] in Hk.
  destruct (sortedHashes r') as [|x l] eqn:El; (split; [done|split; [done|]]); cbn [wrapping fst snd]; [done|].
  rewrite <- El. destruct (walk_spec (length (sortedHashes r')) 0
    (search_hash (sortedHashes r') (hashKeyString key)) r' h' (target_set h' ts ex)) as [Hw|Hw]; [|congruence].
  destruct (walk _ _ _ _ _ _) as [p|]; [|done]. destruct Hw as [[_ He]%target_set_spec _].
  rewrite is_excluded_urls. apply bool_decide_eq_false_2.
  by rewrite (kept_urls now h h') , (kept_field URL now h h' p).
Qed.

(** A session selects by its fall-back. *)
Lemma session_finds now skip h ts s r :
  finds now skip h ts (ss_fallback s) r →
  finds now skip h ts (BSticky s) (wrapping (λ b, BSticky (with_fallback s b)) r).
Proof. by destruct r as [[o b] h']. Qed.

Lemma Select_finds : ∀ b now h ts, finds now skip_none h ts b (balancer_Select b h now ts).
Proof.
  fix IH 1. intros [b|b|b|b|r|b|b|s] now h ts; cbn [balancer_Select]; try (apply finds_select; [done|apply _]).
  - apply finds_least_conn.
  - apply ring_finds.
  - apply session_finds. destruct s. by apply IH.
Qed.

Lemma SelectExcluding_finds : ∀ b now h ts ex,
  finds now (is_excluded h ex) h ts b (balancer_SelectExcluding b h now ts ex).
Proof.
  fix IH 1. intros [b|b|b|b|r|b|b|s] now h ts ex; cbn [balancer_SelectExcluding]; try (apply finds_excluding; [done|apply _]).
  - apply ring_finds_excluding.
  - apply session_finds. destruct s. by apply IH.
Qed.

(** A selection after the store has changed in ways it cannot observe. *)
Lemma finds_kept now h h' ts b r : kept now h h' → finds now skip_none h' ts b r → finds now skip_none h ts b r.
Proof.
  intros Hh (Hk & He & Hr). split; [by transitivity h'|]. split; [done|].
  rewrite (kept_candidates now h h'), (kept_total_weight now h h') by done. by destruct (r.1.1).
Qed.

Lemma finds_same now skip h ts b b' r :
  exhaustive b = exhaustive b' → finds now skip h ts b r → finds now skip h ts b' r.
Proof. intros He (? & Hr & ?). unfold finds. by rewrite <- He. Qed.

(** ** The session *)

Lemma sticky_loop_kept now url h ts : kept now h (sticky_loop now url h ts).2.
Proof.
  revert h. induction ts as [|p ts IH]; intros h; [reflexivity|]. cbn [sticky_loop].
  case_decide; [|apply IH]. pose proof (IsAvailable_eqv now (deref h p)) as Hq.
  destruct (IsAvailable now (deref h p)) as [ok t]. cbn [snd] in Hq.
  apply (store_eqv now h p t) in Hq as Hs%eqv_kept. destruct ok; [done|]. etransitivity; [done|apply IH].
Qed.

(** What a selection through a session gives, without its cookie. *)
Definition without_cookie {B} (f : B → balancer) (r : option ptr * option cookie * B * heap)
  : option ptr * balancer * heap := (r.1.1.1, f r.1.2, r.2).

Lemma sticky_fallback_finds set_at rec s now h ts :
  finds now skip_none h ts (BSticky s) (without_cookie BSticky (sticky_fallback set_at rec s h now ts)).
Proof.
  pose proof (Select_finds (ss_fallback s) now h ts) as (Hk & He & Hr). unfold sticky_fallback.
  cbn [Select balancer_balancer]. by destruct (balancer_Select _ _ _ _) as [[[p|] b] h1].
Qed.

Lemma Sticky_Select_finds set_at rec s now h value ts :
  finds now skip_none h ts (BSticky s) (without_cookie BSticky (Sticky_Select set_at rec s h now value ts)).
Proof.
  unfold Sticky_Select. destruct (negb _).
  { pose proof (Select_finds (ss_fallback s) now h ts) as Hs. cbn [Select balancer_balancer].
    by destruct (balancer_Select _ _ _ _) as [[o b] h1]. }
  destruct (if decide (value = []) then None else _) as [[url expires]|]; [|apply sticky_fallback_finds].
  destruct (_ && _); [|apply sticky_fallback_finds].
  pose proof (sticky_loop_kept now url h ts) as Hk.
  destruct (sticky_loop now url h ts) as [[p|] h1]; cbn [snd] in Hk; [by split|].
  apply (finds_kept now h h1); [done|].
  apply (finds_same _ _ _ _ (BSticky (deleteSession value s))); [done|apply sticky_fallback_finds].
Qed.

Lemma selectByBalancer_finds set_at rec now c b h ts :
  finds now skip_none h ts b (without_cookie id (selectByBalancer set_at rec now c b h ts)).
Proof.
  pose proof (Select_finds b now h ts) as Hs.
  destruct b as [b|b|b|b|r|b|b|s]; cbn [selectByBalancer];
    try (cbn [Select balancer_balancer]; by destruct (balancer_Select _ h now ts) as [[o b'] h1]).
  - pose proof (iphash_finds b now h ts (ExtractClientIP c)) as Hq. by destruct (wrapping _ _) as [[o b'] h1].
  - pose proof (ring_finds r now h ts (extractHashKey c (hashKey r))) as Hq. by destruct (wrapping _ _) as [[o b'] h1].
  - pose proof (Sticky_Select_finds set_at rec s now h (cx_cookie c (st_Name (ss_config s))) ts) as Hq.
    by destruct (Sticky_Select _ _ _ _ _ _ _) as [[[o ck] s'] h1].
Qed.

Lemma selectByFallback_finds now c b h ts : finds now skip_none h ts b (selectByFallback now c b h ts).
Proof. destruct b; cbn [selectByFallback]; try apply Select_finds. apply iphash_finds. Qed.

(** ** The proxy's selection *)

Definition exhaustive_proxy (p : proxy) : bool :=
  exhaustive (pr_balancer p) && exhaustive (pr_fallbackBalancer p).

Lemma selectTarget_finds set_at rec now c p h :
  let '(o, _, p', h') := selectTarget set_at rec now c p h in
  kept now h h' ∧ exhaustive_proxy p' = exhaustive_proxy p ∧
  (o = None → exhaustive_proxy p = true → total_weight h (pr_targets p) ≤ int64_max →
   candidates now skip_none h (pr_targets p) = []).
Proof.
  unfold selectTarget, exhaustive_proxy. destruct (pr_targets p) as [|t ts]; [by split|].
  pose proof (selectByFallback_finds now c (pr_fallbackBalancer p) h (t :: ts)) as (Hk & He & Hr).
  pose proof (selectByBalancer_finds set_at rec now c (pr_balancer p) h (t :: ts)) as (Hk' & He' & Hr').
  destruct (selectByFallback _ _ _ _ _) as [[o fb] h1], (selectByBalancer _ _ _ _ _ _ _) as [[[o' ck] b'] h1'].
  cbn in *. destruct (pr_script p) as [sc|].
  - destruct (selectByLua _ _ _ _ _) as [[q|]|]; [by split|..];
      (split; [done|split; [cbn; congruence|]]; intros -> [_ ?]%andb_true_iff; by apply Hr).
  - split; [done|]. split; [cbn; congruence|]. intros -> [? _]%andb_true_iff. by apply Hr'.
Qed.

Lemma selectTargetExcluding_finds now c p h ex :
  let '(o, p', h') := selectTargetExcluding now c p h ex in
  kept now h h' ∧ exhaustive_proxy p' = exhaustive_proxy p ∧
  match o with
  | Some q => is_excluded h ex (deref h q) = false
  | None => exhaustive_proxy p = true → total_weight h (pr_targets p) ≤ int64_max →
            candidates now (is_excluded h ex) h (pr_targets p) = []
  end.
Proof.
  unfold selectTargetExcluding, exhaustive_proxy. destruct (pr_targets p) as [|t ts]; [by split|].
  match goal with |- context [let '(_, _) := ?r in _] =>
    assert (finds now (is_excluded h ex) h (t :: ts) (pr_balancer p) r) as (Hk & He & Hr) end.
  { destruct (pr_balancer p); try apply SelectExcluding_finds;
      [apply iphash_finds_excluding|apply ring_finds_excluding]. }
  destruct (match pr_balancer p with BIPHash _ => _ | _ => _ end) as [[o b] h1]. cbn in *.
  split; [done|]. split; [cbn; congruence|]. destruct o as [q|]; [done|].
  intros [? _]%andb_true_iff. by apply Hr.
Qed.

Lemma served_exhaustive p l p' : served p l p' → exhaustive_proxy p' = exhaustive_proxy p.
Proof.
  induction 1 as [|p l p1 set_at rec now c h o ck p2 h' _ <- E|p l p1 now c h ex o p2 h' _ <- E]; [done|..].
  - pose proof (selectTarget_finds set_at rec now c p1 h) as Hs. rewrite E in Hs. apply Hs.
  - pose proof (selectTargetExcluding_finds now c p1 h ex) as Hs. rewrite E in Hs. apply Hs.
Qed.
