(* ===== verification/Failover.v ===== *)
(** * Failover: the retry loop of the proxy

    [ServeHTTP] of [src/internal/proxy/proxy.go]: one request tries targets until one
    answers, at most [next_upstream.tries] times.  The first target and the ones after
    a failure come from [Selector], with every algorithm, script, key and cookie.
    What an attempt meets (a missing client, a cache hit, an error, a status) is given
    by the environment, and so is what other requests do to the targets and to the
    algorithms in the meantime; the loop's own effects are those of the source. *)

From S2P Require Import Prelude GoStrings Location Target Balancer ConsistentHash Config Sticky Selector Selection Health.

(** What happens to one attempt: no client for the URL, a WebSocket session that
    ends, a path with forbidden characters, an error of [client.Do] (was it a
    time-out, and is there a stale entry to serve), a response with an
    [X-Accel-Redirect] header, a response with a status. [early] tells whether
    the caching block returns before the end of the function. *)
Inductive attempt_outcome :=
  | ONoClient
  | OWebSocket (ok : bool)
  | OBadPath
  | OError (timeout : bool) (stale : option Z)
  | OAccel (header : Z)
  | OStatus (code header lastByte : Z) (early : bool).

Inductive reply :=
  | RNoHealthy
  | RWebSocket (ok : bool)
  | RBadPath
  | RCached (status : Z)
  | RAccel (p : ptr)
  | RUpstream (p : ptr) (code : Z)
  | RTimeout
  | RBadGateway
  | RAllFailed.

Section Failover.
Context `{Regexp}.

(** The configuration, the request, and its environment: the clocks, what the
    attempts meet, what other requests do to the targets and, by being served, to the
    algorithms of the proxy. *)
Context (tries : Z) (codes : list Z) (recorder : bool) (c : ctx).
Context (set_at record_at : Z) (now later : nat → Z).
Context (outcome_of : nat → ptr → attempt_outcome) (cached : option Z).
Context (others : nat → heap → heap) (others_sel : nat → proxy → proxy).

(** [maxTries] is 1 unless configured, the retried statuses 502, 503 and 504. *)
Definition maxTries : nat := if tries <=? 0 then 1%nat else Z.to_nat tries.
Definition httpCodes : list Z := match codes with [] => [502; 503; 504] | _ => codes end.

Record proxy_state := mkProxy { pr_sel : proxy; pr_heap : heap; pr_checker : option HealthChecker }.

Definition with_heap (s : proxy_state) (h : heap) : proxy_state :=
  mkProxy (pr_sel s) h (pr_checker s).

Definition update (s : proxy_state) (p : ptr) (f : Target → Target) : proxy_state :=
  with_heap s (store (pr_heap s) p (f (deref (pr_heap s) p))).

(** What the other requests do. *)
Definition interleave (k : nat) (s : proxy_state) : proxy_state :=
  mkProxy (others_sel k (pr_sel s)) (others k (pr_heap s)) (pr_checker s).

(** [if attempt == 0 { p.selectTarget(ctx) } else { p.selectTargetExcluding(ctx, ...) }] *)
Definition choose (k : nat) (attempted : list ptr) (s : proxy_state) : option ptr * proxy_state :=
  if (k =? 0)%nat then
    let '(sel, _, p, h) := selectTarget set_at record_at (now k) c (pr_sel s) (pr_heap s) in
    (sel, mkProxy p h (pr_checker s))
  else
    let '(sel, p, h) := selectTargetExcluding (now k) c (pr_sel s) (pr_heap s) attempted in
    (sel, mkProxy p h (pr_checker s)).

(** [if p.healthChecker != nil { p.healthChecker.Mark...(target) }] *)
Definition mark_unhealthy (k : nat) (s : proxy_state) (p : ptr) : proxy_state :=
  match pr_checker s with
  | Some hc => let '(hc', h') := MarkUnhealthy (later k) hc (pr_heap s) p in
              mkProxy (pr_sel s) h' (Some hc')
  | None => s
  end.

Definition mark_healthy (k : nat) (s : proxy_state) (p : ptr) : proxy_state :=
  match pr_checker s with
  | Some hc => let '(hc', h') := MarkHealthy (later k) hc (pr_heap s) p in
              mkProxy (pr_sel s) h' (Some hc')
  | None => s
  end.

Definition record (s : proxy_state) (p : ptr) (header lastByte : Z) : proxy_state :=
  if recorder then with_heap s (RecordResponseTime (pr_heap s) p header lastByte) else s.

(** The end of the body once a response is there; [None] is [continue]. *)
Definition respond (k : nat) (s : proxy_state) (p : ptr) (code header lastByte : Z) (early : bool)
  : option reply * proxy_state :=
  let s := record s p header 0 in
  let s := update s p DecrementConnections in
  let s := update s p RecordSuccess in
  if bool_decide (code ∈ httpCodes) && (k <? maxTries - 1)%nat
  then (None, mark_unhealthy k s p)
  else
    let s := if (0 <? k)%nat then mark_healthy k s p else s in
    (Some (RUpstream p code), if early then s else record s p header lastByte).

(** The body of the loop from the increment of the counter on: the reply that
    ends it, or [None] and the new [lastErr]. *)
Definition attempt_body (k : nat) (s : proxy_state) (p : ptr) (o : attempt_outcome)
    (lastErr : option bool) : option reply * option bool * proxy_state :=
  let s := update s p IncrementConnections in
  let s := interleave k s in
  match o with
  | OWebSocket ok => (Some (RWebSocket ok), lastErr, update s p DecrementConnections)
  | OBadPath => (Some RBadPath, lastErr, update s p DecrementConnections)
  | _ =>
      match (if (k =? 0)%nat then cached else None) with
      | Some st => (Some (RCached st), lastErr, update s p DecrementConnections)
      | None =>
          match o with
          | OError timeout stale =>
              let s := mark_unhealthy k (update s p DecrementConnections) p in
              match stale with
              | Some st => (Some (RCached st), lastErr, s)
              | None => (None, Some timeout, s)
              end
          | OAccel header =>
              let s := update (record s p header 0) p DecrementConnections in
              (Some (RAccel p), lastErr, update s p RecordSuccess)
          | OStatus code header lastByte early =>
              let '(r, s) := respond k s p code header lastByte early in (r, lastErr, s)
          | _ => (None, lastErr, s)
          end
      end
  end.

(** After the loop. *)
Definition all_failed (lastErr : option bool) : reply :=
  match lastErr with
  | Some true => RTimeout
  | Some false => RBadGateway
  | None => RAllFailed
  end.

(** [for attempt := k; attempt < maxTries; attempt++]; [n] iterations are left. *)
Fixpoint serve_loop (n k : nat) (s : proxy_state) (attempted : list ptr) (lastErr : option bool)
  : reply * list ptr * proxy_state :=
  match n with
  | O => (all_failed lastErr, attempted, s)
  | S n' =>
      let '(sel, s) := choose k attempted s in
      match sel with
      | None => (if (k =? 0)%nat then RNoHealthy else all_failed lastErr, attempted, s)
      | Some p =>
          let attempted := attempted ++ [p] in
          match outcome_of k p with
          | ONoClient => serve_loop n' (S k) (mark_unhealthy k (interleave k s) p) attempted lastErr
          | o =>
              match attempt_body k s p o lastErr with
              | (Some r, _, s) => (r, attempted, s)
              | (None, lastErr, s) => serve_loop n' (S k) s attempted lastErr
              end
          end
      end
  end.

Definition ServeHTTP (s : proxy_state) : reply * list ptr * proxy_state :=
  serve_loop maxTries 0 s [] None.

(** ** What an attempt leaves alone

    Marks and statistics change only the health flag, the failure counters, the
    effective weight and the response times: a function of the other fields is
    framed. *)

Class Framed {A} (f : Target → A) : Prop := {
  framed_healthy t b : f (set_healthy t b) = f t;
  framed_breaker t c u : f (set_breaker t c u) = f t;
  framed_effective t w : f (set_effective t w) = f t;
  framed_stats t st : f (set_stats t st) = f t;
  framed_hashes t l : f (set_hashes t l) = f t
}.

Definition same {A} (f : Target → A) (h h' : heap) : Prop := ∀ p, f (deref h p) = f (deref h' p).

#[export] Instance same_equiv {A} (f : Target → A) : Equivalence (same f).
Proof.
  split.
  - by intros h p.
  - by intros h h' Hh p.
  - intros h h' h'' H1 H2 p. by rewrite (H1 p).
Qed.

Section Frame.
Context {A : Type} (f : Target → A) `{!Framed f}.

#[local] Instance framed_steady : Steady f.
Proof. split; [apply framed_breaker|apply framed_hashes]. Qed.

Lemma same_kept t h h' : kept t h h' → same f h h'.
Proof. intros Hh p. by apply (kept_field f t). Qed.

Lemma same_store h p t : f t = f (deref h p) → same f h (store h p t).
Proof. intros Hf q. rewrite deref_store. case_decide as Hd; [|done]. by destruct Hd as [-> _]. Qed.

Lemma framed_success t : f (RecordSuccess t) = f t.
Proof. unfold RecordSuccess. case_match; [done|]. apply framed_breaker. Qed.

Lemma framed_failure n t : f (RecordFailure n t).2 = f t.
Proof. unfold RecordFailure. repeat case_match; simpl; try done; apply framed_breaker. Qed.

Lemma same_mark_healthy k s p : same f (pr_heap s) (pr_heap (mark_healthy k s p)).
Proof.
  unfold mark_healthy. destruct (pr_checker s) as [hc|]; [|reflexivity].
  assert (same f (pr_heap s) (MarkHealthy (later k) hc (pr_heap s) p).2) as Hm.
  { unfold MarkHealthy. set (h1 := store (pr_heap s) p _). set (h2 := store h1 p _).
    assert (same f (pr_heap s) h2) as H2.
    { transitivity h1; apply same_store; [apply framed_healthy | apply framed_success]. }
    destruct (slowStartManager hc); [|done]. unfold OnTargetHealthy.
    destruct (_ <=? 0); [done|]. transitivity h2; [done|]. apply same_store, framed_effective. }
  by destruct (MarkHealthy _ _ _ _).
Qed.

Lemma same_mark_unhealthy k s p : same f (pr_heap s) (pr_heap (mark_unhealthy k s p)).
Proof.
  unfold mark_unhealthy. destruct (pr_checker s) as [hc|]; [|reflexivity].
  assert (same f (pr_heap s) (MarkUnhealthy (later k) hc (pr_heap s) p).2) as Hm.
  { unfold MarkUnhealthy. set (h1 := store (pr_heap s) p _). set (h2 := store h1 p _).
    assert (same f (pr_heap s) h2) as H2.
    { transitivity h1; apply same_store; [apply framed_healthy | apply framed_failure]. }
    destruct (slowStartManager hc); [|done]. unfold OnTargetUnhealthy.
    transitivity h2; [done|]. apply same_store, framed_effective. }
  by destruct (MarkUnhealthy _ _ _ _).
Qed.

Lemma same_record s p a b : same f (pr_heap s) (pr_heap (record s p a b)).
Proof.
  unfold record, RecordResponseTime. destruct recorder; [|reflexivity]. simpl.
  destruct (Stats _); [|reflexivity]. apply same_store, framed_stats.
Qed.

Lemma same_success s p : same f (pr_heap s) (pr_heap (update s p RecordSuccess)).
Proof. apply same_store, framed_success. Qed.

(** After the decrement of [respond]. *)
Lemma same_respond k s p code a b early :
  same f (pr_heap (update (record s p a 0) p DecrementConnections))
    (pr_heap (respond k s p code a b early).2).
Proof.
  unfold respond. set (s1 := update (record s p a 0) p DecrementConnections).
  etransitivity; [apply (same_success s1 p)|].
  destruct (_ && _); cbn [snd]; [apply same_mark_unhealthy|].
  destruct (0 <? k)%nat, early; (reflexivity || apply same_mark_healthy || apply same_record ||
    (etransitivity; [apply same_mark_healthy | apply same_record])).
Qed.
End Frame.

Definition config (t : Target) : gostring * Z := (URL t, Weight t).
#[export] Instance config_framed : Framed config.
Proof. by split. Qed.
#[export] Instance Connections_framed : Framed Connections.
Proof. by split. Qed.

Lemma same_update_conns s p f :
  (f = IncrementConnections ∨ f = DecrementConnections) →
  same config (pr_heap s) (pr_heap (update s p f)).
Proof. intros [-> | ->]; by apply same_store. Qed.

Lemma same_attempt_body k s p o lastErr :
  (∀ h, same config h (others k h)) →
  same config (pr_heap s) (pr_heap (attempt_body k s p o lastErr).2).
Proof.
  intros Hoth. unfold attempt_body.
  set (s1 := interleave _ _). assert (same config (pr_heap s) (pr_heap s1)) as H1.
  { etransitivity; [apply (same_update_conns s p IncrementConnections); by left|]. apply Hoth. }
  assert (∀ s', same config (pr_heap s') (pr_heap (update s' p DecrementConnections))) as Hdec
    by (intros; apply same_update_conns; by right).
  clearbody s1. transitivity (pr_heap s1); [done|].
  destruct o as [|ok| |tm st|a|code a b early]; try apply Hdec; destruct (if (k =? 0)%nat then cached else None); try apply Hdec.
  - reflexivity.
  - assert (same config (pr_heap s1) (pr_heap (mark_unhealthy k (update s1 p DecrementConnections) p)))
      by (etransitivity; [apply Hdec | apply (same_mark_unhealthy config)]).
    by destruct st.
  - cbn [snd]. etransitivity; [|apply (same_success config)].
    etransitivity; [apply (same_record config) | apply Hdec].
  - pose proof (same_respond config k s1 p code a b early) as Hr.
    destruct (respond _ _ _ _ _ _ _) as [r s2]. cbn [snd] in *.
    etransitivity; [apply (same_record config s1 p a 0)|]. etransitivity; [apply Hdec|done].
Qed.

(** ** The loop *)

Lemma urls_same h h' l : same config h h' → urls h l = urls h' l.
Proof. intros Hh. apply list_fmap_ext. intros _ p _. specialize (Hh p). by injection Hh. Qed.

Lemma total_weight_same h h' l : same config h h' → total_weight h l = total_weight h' l.
Proof.
  intros Hh. induction l as [|p l IH]; [done|]. simpl. rewrite IH. unfold weight_of.
  specialize (Hh p). injection Hh as _ ->. done.
Qed.

(** Between two iterations the configuration stays and the algorithms have served
    requests. *)
Definition moved (s s' : proxy_state) : Prop :=
  same config (pr_heap s) (pr_heap s') ∧ ∃ l, served (pr_sel s) l (pr_sel s').

Lemma served_trans p l p1 l' p2 : served p l p1 → served p1 l' p2 → served p (l ++ l') p2.
Proof.
  intros H1. induction 1 as [|p1 l' p2 ? ? ? ? ? ? ? ? ? _ IH E|p1 l' p2 ? ? ? ? ? ? ? _ IH E];
    [by rewrite app_nil_r|..]; rewrite app_assoc; [eapply served_first|eapply served_again]; try exact E; by apply IH.
Qed.

#[export] Instance moved_preorder : PreOrder moved.
Proof.
  split.
  - intros s. split; [reflexivity|]. exists []. constructor.
  - intros s s1 s2 [Hh [l Hl]] [Hh' [l' Hl']]. split; [by transitivity (pr_heap s1)|].
    exists (l ++ l'). by eapply served_trans.
Qed.

Lemma moved_choose k att s : moved s (choose k att s).2.
Proof.
  unfold choose, moved. destruct (k =? 0)%nat.
  - pose proof (selectTarget_finds set_at record_at (now k) c (pr_sel s) (pr_heap s)) as Hf.
    destruct (selectTarget _ _ _ _ _ _) as [[[o ck] p] h] eqn:E. cbn.
    split; [apply (same_kept config (now k)), Hf|].
    exists ([] ++ option_list o). eapply served_first; [constructor|exact E].
  - pose proof (selectTargetExcluding_finds (now k) c (pr_sel s) (pr_heap s) att) as Hf.
    destruct (selectTargetExcluding _ _ _ _ _) as [[o p] h] eqn:E. cbn.
    split; [apply (same_kept config (now k)), Hf|].
    exists ([] ++ option_list o). eapply served_again; [constructor|exact E].
Qed.

Lemma choose_kept k att s : kept (now k) (pr_heap s) (pr_heap (choose k att s).2).
Proof.
  unfold choose. destruct (k =? 0)%nat.
  - pose proof (selectTarget_finds set_at record_at (now k) c (pr_sel s) (pr_heap s)) as Hf.
    destruct (selectTarget _ _ _ _ _ _) as [[[o ck] p] h]. apply Hf.
  - pose proof (selectTargetExcluding_finds (now k) c (pr_sel s) (pr_heap s) att) as Hf.
    destruct (selectTargetExcluding _ _ _ _ _) as [[o p] h]. apply Hf.
Qed.

Lemma sel_mark_unhealthy k s p : pr_sel (mark_unhealthy k s p) = pr_sel s.
Proof. unfold mark_unhealthy. destruct (pr_checker s); [|done]. by destruct (MarkUnhealthy _ _ _ _). Qed.

Lemma sel_mark_healthy k s p : pr_sel (mark_healthy k s p) = pr_sel s.
Proof. unfold mark_healthy. destruct (pr_checker s); [|done]. by destruct (MarkHealthy _ _ _ _). Qed.

Lemma sel_record s p a b : pr_sel (record s p a b) = pr_sel s.
Proof. unfold record. by destruct recorder. Qed.

Lemma sel_respond k s p code a b early : pr_sel (respond k s p code a b early).2 = pr_sel s.
Proof.
  unfold respond. destruct (_ && _); cbn [snd]; [by rewrite sel_mark_unhealthy; apply sel_record|].
  destruct early, (0 <? k)%nat; rewrite ?sel_record, ?sel_mark_healthy; apply sel_record.
Qed.

Lemma sel_attempt_body k s p o lastErr : pr_sel (attempt_body k s p o lastErr).2 = others_sel k (pr_sel s).
Proof.
  unfold attempt_body. set (s1 := interleave _ _).
  change (others_sel k (pr_sel s)) with (pr_sel s1). clearbody s1.
  destruct o as [|ok| |tm st|a|code a b early]; try done; destruct (if (k =? 0)%nat then cached else None); try done.
  - by destruct st; cbn [snd]; rewrite sel_mark_unhealthy.
  - cbn. apply sel_record.
  - pose proof (sel_respond k s1 p code a b early) as Hr. by destruct (respond _ _ _ _ _ _ _).
Qed.

Section Loop.
Context (targets : list ptr).
Context (others_config : ∀ k h, same config h (others k h)).
Context (others_served : ∀ k p, ∃ l, served p l (others_sel k p)).

Lemma moved_attempt_body k s p o lastErr : moved s (attempt_body k s p o lastErr).2.
Proof using others_config others_served.
  split; [by apply same_attempt_body|]. rewrite sel_attempt_body. apply others_served.
Qed.

Lemma moved_no_client k s p : moved s (mark_unhealthy k (interleave k s) p).
Proof using others_config others_served.
  split; [|rewrite sel_mark_unhealthy; apply others_served].
  etransitivity; [apply others_config|apply (same_mark_unhealthy config k (interleave k s))].
Qed.

(** The choice of a target, at any attempt. *)
Lemma choose_spec k att s :
  over_targets targets (pr_sel s) → (k = 0%nat → att = []) →
  match (choose k att s).1 with
  | Some p => p ∈ targets ∧ URL (deref (pr_heap s) p) ∉ urls (pr_heap s) att
  | None => exhaustive_proxy (pr_sel s) = true → total_weight (pr_heap s) targets ≤ int64_max →
            ∀ p, p ∈ targets → URL (deref (pr_heap s) p) ∉ urls (pr_heap s) att →
              available_now (now k) (deref (pr_heap s) p) = false
  end.
Proof.
  intros Hp Hk. pose proof (proj1 Hp) as Ht. unfold choose. destruct (Nat.eqb_spec k 0) as [->|Hk0].
  - rewrite (Hk eq_refl).
    pose proof (selectTarget_finds set_at record_at (now 0) c (pr_sel s) (pr_heap s)) as Hf.
    pose proof (selectTarget_picks set_at record_at (now 0) c targets (pr_sel s) (pr_heap s) Hp) as [Hin _].
    rewrite Ht in Hf. destruct (selectTarget _ _ _ _ _ _) as [[[[q|] ck] p'] h']; cbn in *.
    + split; [by apply Hin|apply not_elem_of_nil].
    + intros He Hw q Hq _. destruct Hf as (_ & _ & Hf). specialize (Hf eq_refl He Hw).
      rewrite candidates_nil in Hf. specialize (Hf q Hq). unfold usable in Hf. by rewrite andb_true_r in Hf.
  - pose proof (selectTargetExcluding_finds (now k) c (pr_sel s) (pr_heap s) att) as Hf.
    pose proof (selectTargetExcluding_picks (now k) c targets (pr_sel s) (pr_heap s) att Hp) as [Hin _].
    rewrite Ht in Hf. destruct (selectTargetExcluding _ _ _ _ _) as [[[q|] p'] h']; cbn in *; destruct Hf as (_ & _ & Hf).
    + split; [by apply Hin|]. rewrite is_excluded_urls in Hf. by apply bool_decide_eq_false in Hf.
    + intros He Hw q Hq Hu. specialize (Hf He Hw). rewrite candidates_nil in Hf. specialize (Hf q Hq).
      unfold usable in Hf. rewrite is_excluded_urls, (bool_decide_eq_false_2 (_ ∈ _)) in Hf by done.
      by rewrite andb_true_r in Hf.
Qed.

(** One iteration, as a case analysis. *)
Lemma serve_loop_S n k s att lastErr :
  serve_loop (S n) k s att lastErr =
    let '(sel, s) := choose k att s in
    match sel with
    | None => (if (k =? 0)%nat then RNoHealthy else all_failed lastErr, att, s)
    | Some p =>
        match outcome_of k p with
        | ONoClient => serve_loop n (S k) (mark_unhealthy k (interleave k s) p) (att ++ [p]) lastErr
        | o => match attempt_body k s p o lastErr with
               | (Some r, _, s) => (r, att ++ [p], s)
               | (None, lastErr, s) => serve_loop n (S k) s (att ++ [p]) lastErr
               end
        end
    end.
Proof. done. Qed.

Definition loop_inv (k : nat) (s : proxy_state) (att : list ptr) : Prop :=
  NoDup (urls (pr_heap s) att) ∧ length att = k ∧ att ⊆ targets ∧ over_targets targets (pr_sel s).

Lemma loop_inv_moved k s s' att : moved s s' → loop_inv k s att → loop_inv k s' att.
Proof.
  intros [Hh [l Hs]] (? & ? & ? & Ho). split; [by rewrite <- (urls_same _ _ _ Hh)|]. split; [done|]. split; [done|].
  by apply (served_over targets) in Hs as [_ ?].
Qed.

Lemma loop_inv_init s : over_targets targets (pr_sel s) → loop_inv 0 s [].
Proof. intros Ho. split; [constructor|]. split; [done|]. by split; [set_solver|]. Qed.

Lemma loop_inv_choose k s att p s' :
  loop_inv k s att → choose k att s = (Some p, s') →
  loop_inv (S k) s' (att ++ [p]) ∧ moved s s'.
Proof.
  intros (Hnd & Hlen & Hsub & Ho) Hc.
  pose proof (choose_spec k att s Ho ltac:(intros ->; by apply nil_length_inv)) as Hs. rewrite Hc in Hs.
  pose proof (moved_choose k att s) as Hm. rewrite Hc in Hm. destruct Hs as [Hin Hu]. split; [|done].
  apply (loop_inv_moved _ s); [done|]. split; [|split; [|by split; [set_solver|]]].
  - unfold urls. rewrite fmap_app. apply NoDup_app. split_and!; [done| |apply NoDup_singleton].
    intros x Hx ->%list_elem_of_singleton. done.
  - rewrite length_app. simpl. lia.
Qed.

Lemma serve_loop_inv n k s att lastErr r att' s' :
  loop_inv k s att → serve_loop n k s att lastErr = (r, att', s') →
  loop_inv (length att') s' att' ∧ (length att' ≤ k + n)%nat.
Proof using others_config others_served.
  revert k s att lastErr. induction n as [|n IH]; intros k s att lastErr Hinv.
  { pose proof Hinv as (? & <- & ?). intros [= <- <- <-]. split; [done|lia]. }
  rewrite serve_loop_S. destruct (choose k att s) as [[p|] s1] eqn:Hc.
  2: { intros [= <- <- <-]. pose proof (moved_choose k att s) as Hm. rewrite Hc in Hm.
       apply (loop_inv_moved _ _ _ _ Hm) in Hinv. pose proof Hinv as (_ & <- & _). split; [done|lia]. }
  destruct (loop_inv_choose k s att p s1 Hinv Hc) as [Hinv1 _].
  assert (length (att ++ [p]) = S k) as Hlen by apply Hinv1.
  destruct (outcome_of k p) eqn:Ho.
  { intros Hl%IH; [destruct Hl; split; [done|lia]|]. eapply loop_inv_moved, Hinv1. apply moved_no_client. }
  all: rewrite <- Ho; pose proof (moved_attempt_body k s1 p (outcome_of k p) lastErr) as Hb;
    destruct (attempt_body _ _ _ _ _) as [[[r1|] le] s2]; cbn [snd] in Hb;
    apply (loop_inv_moved _ _ _ _ Hb) in Hinv1;
    [intros [= <- <- <-]; rewrite Hlen; split; [done|lia]
    |intros Hl%IH; [destruct Hl; split; [done|lia]|done]].
Qed.

(** The replies of a request for which no attempt succeeded. *)
Definition gave_up (r : reply) : bool :=
  match r with RNoHealthy | RTimeout | RBadGateway | RAllFailed => true | _ => false end.

(** What the search for every target needs. *)
Definition searchable (s : proxy_state) : Prop :=
  exhaustive_proxy (pr_sel s) = true ∧ total_weight (pr_heap s) targets ≤ int64_max.

Lemma searchable_moved s s' : moved s s' → searchable s → searchable s'.
Proof.
  intros [Hh [l Hs]] [He Hw]. split; [by rewrite (served_exhaustive _ _ _ Hs)|].
  by rewrite <- (total_weight_same _ _ targets Hh).
Qed.

(** A reply that ends the loop in an attempt is not a refusal. *)
Lemma attempt_body_reply k s p o lastErr r le s' :
  o ≠ ONoClient → attempt_body k s p o lastErr = (Some r, le, s') → gave_up r = false.
Proof.
  intros Ho. unfold attempt_body. destruct o as [|ok| |tm st|a|code a b early]; try done;
    try (by intros [= <-]); destruct (if (k =? 0)%nat then cached else None); try (by intros [= <-]).
  - destruct st; by intros [= <-].
  - destruct (respond _ _ _ _ _ _ _) as [r2 s3] eqn:Er. unfold respond in Er.
    destruct (_ && _); by intros; simplify_eq.
Qed.

Lemma serve_loop_gave_up n k s att lastErr r att' s' :
  loop_inv k s att → searchable s → serve_loop n k s att lastErr = (r, att', s') →
  gave_up r = true → (length att' < k + n)%nat →
  ∀ p, p ∈ targets → URL (deref (pr_heap s') p) ∉ urls (pr_heap s') att' →
    available_now (now (length att')) (deref (pr_heap s') p) = false.
Proof using others_config others_served.
  revert k s att lastErr. induction n as [|n IH]; intros k s att lastErr Hinv Hw.
  { destruct Hinv as (? & <- & ?). intros [= <- <- <-]. lia. }
  rewrite serve_loop_S. destruct (choose k att s) as [[p|] s1] eqn:Hc.
  2: { intros [= <- <- <-] _ _ q Hq Hu. destruct Hinv as (Hnd & <- & Hsub & Ho).
       pose proof (choose_spec (length att) att s Ho ltac:(by intros ?%nil_length_inv)) as Hs.
       pose proof (choose_kept (length att) att s) as Hk. rewrite Hc in Hs, Hk. cbn [fst snd] in Hs, Hk.
       destruct Hw as [He Hw]. rewrite <- (kept_available _ _ _ _ Hk). apply Hs; [done..|].
       by rewrite (kept_field URL _ _ _ _ Hk), (kept_urls _ _ _ _ Hk). }
  destruct (loop_inv_choose k s att p s1 Hinv Hc) as [Hinv1 Hs1]. apply (searchable_moved _ _ Hs1) in Hw.
  destruct (outcome_of k p) eqn:Ho.
  { pose proof (moved_no_client k s1 p) as Hm. intros Hl Hgu Hlt.
    eapply IH; [eapply loop_inv_moved, Hinv1; exact Hm|by eapply searchable_moved|exact Hl|done|lia]. }
  all: rewrite <- Ho; pose proof (moved_attempt_body k s1 p (outcome_of k p) lastErr) as Hb;
    destruct (attempt_body _ _ _ _ _) as [[[r1|] le] s2] eqn:Eb; cbn [snd] in Hb;
    apply (loop_inv_moved _ _ _ _ Hb) in Hinv1; apply (searchable_moved _ _ Hb) in Hw;
    intros Hl Hgu Hlt;
    [apply attempt_body_reply in Eb; [|congruence]; injection Hl as <- _ _; congruence
    |eapply IH; [exact Hinv1|exact Hw|exact Hl|done|lia]].
Qed.

End Loop.

(** ** Connection counters *)

Definition counts_ok (h : heap) : Prop := ∀ q, in_int64 (Connections (deref h q)).

Lemma swrap64_inc_dec n : in_int64 n → swrap64 (swrap64 (n + 1) - 1) = n.
Proof.
  unfold in_int64, int64_min, int64_max, swrap64. intros Hc.
  replace ((n + 1 + 2 ^ 63) mod 2 ^ 64 - 2 ^ 63 - 1 + 2 ^ 63)
    with ((n + 1 + 2 ^ 63) mod 2 ^ 64 - 1) by lia.
  rewrite Zminus_mod_idemp_l. rewrite Z.mod_small; lia.
Qed.

(** An increment and a later decrement cancel, if nothing else touched the counters. *)
Lemma inc_dec s s1 p :
  counts_ok (pr_heap s) → (is_Some (pr_heap s1 !! p) ↔ is_Some (pr_heap s !! p)) →
  same Connections (pr_heap (update s p IncrementConnections)) (pr_heap s1) →
  same Connections (pr_heap s) (pr_heap (update s1 p DecrementConnections)).
Proof.
  intros Hok Hall Hs q. specialize (Hs q). unfold update in *. simpl in *.
  rewrite deref_store in *. destruct (decide (p = q)) as [<-|Hne].
  - destruct (decide (is_Some (pr_heap s !! p))) as [Hp|Hp].
    + rewrite decide_True in Hs by done. rewrite decide_True by (split; [done|by apply Hall]).
      simpl in *. rewrite <- Hs. by rewrite swrap64_inc_dec.
    + rewrite decide_False in Hs by (by intros [_ ?]).
      rewrite decide_False by (intros [_ Hq]; by apply Hp, Hall). done.
  - rewrite decide_False in Hs by (by intros [? _]). by rewrite decide_False by (by intros [? _]).
Qed.

Lemma record_allocated s p a b q :
  is_Some (pr_heap (record s p a b) !! q) ↔ is_Some (pr_heap s !! q).
Proof.
  unfold record, RecordResponseTime. destruct recorder; [|done]. simpl.
  destruct (Stats _); [|done]. apply store_allocated.
Qed.

Lemma attempt_body_conns k s p o lastErr :
  (∀ h, others k h = h) → counts_ok (pr_heap s) → o ≠ ONoClient →
  same Connections (pr_heap s) (pr_heap (attempt_body k s p o lastErr).2).
Proof.
  intros Hoth Hok Ho. unfold attempt_body. set (s0 := interleave k (update s p IncrementConnections)).
  assert (pr_heap s0 = pr_heap (update s p IncrementConnections)) as Heq by (cbn; apply Hoth).
  assert (∀ q, is_Some (pr_heap s0 !! q) ↔ is_Some (pr_heap s !! q)) as Hall
    by (intros; rewrite Heq; apply store_allocated).
  assert (same Connections (pr_heap s) (pr_heap (update s0 p DecrementConnections))) as Hdec
    by (apply inc_dec; [done|done|by rewrite Heq]).
  assert (∀ a, same Connections (pr_heap s)
    (pr_heap (update (record s0 p a 0) p DecrementConnections))) as Hrec.
  { intros a. apply inc_dec; [done| |rewrite <- Heq; apply (same_record Connections)].
    by rewrite record_allocated. }
  destruct o as [|ok| |tm st|a|code a b early]; try done; try apply Hdec;
    destruct (if (k =? 0)%nat then cached else None); try apply Hdec.
  - destruct st; cbn [snd]; (etransitivity; [apply Hdec|apply (same_mark_unhealthy Connections)]).
  - cbn [snd]. etransitivity; [apply (Hrec a)|apply (same_success Connections)].
  - pose proof (same_respond Connections k s0 p code a b early) as Hr.
    destruct (respond _ _ _ _ _ _ _) as [r s2]. cbn [snd] in *.
    etransitivity; [apply (Hrec a)|done].
Qed.

Lemma counts_ok_same h h' : same Connections h h' → counts_ok h → counts_ok h'.
Proof. intros Hs Hok q. by rewrite <- (Hs q). Qed.

Lemma serve_loop_conns n k s att lastErr :
  (∀ k h, others k h = h) → counts_ok (pr_heap s) →
  same Connections (pr_heap s) (pr_heap (serve_loop n k s att lastErr).2).
Proof.
  intros Hoth. revert k s att lastErr. induction n as [|n IH]; intros k s att lastErr Hok; [reflexivity|].
  rewrite serve_loop_S.
  pose proof (same_kept Connections _ _ _ (choose_kept k att s)) as Hc.
  destruct (choose k att s) as [[p|] s1]; [|done]. cbn [snd] in Hc.
  apply (counts_ok_same _ _ Hc) in Hok. transitivity (pr_heap s1); [done|].
  destruct (outcome_of k p) eqn:Ho.
  { pose proof (same_mark_unhealthy Connections k (interleave k s1) p) as Hm. cbn [interleave pr_heap] in Hm.
    rewrite Hoth in Hm. etransitivity; [exact Hm|]. apply IH. by apply (counts_ok_same _ _ Hm). }
  all: rewrite <- Ho;
    pose proof (attempt_body_conns k s1 p (outcome_of k p) lastErr (Hoth k) Hok ltac:(by rewrite Ho)) as Hb;
    destruct (attempt_body _ _ _ _ _) as [[[r1|] le] s2]; cbn [snd] in Hb; [done|];
    (etransitivity; [exact Hb|]); apply IH; by apply (counts_ok_same _ _ Hb).
Qed.

(** ** Properties *)

(** C3: A request never tries the same back end twice, never makes more than the
    configured number of attempts, and every attempt goes to a configured target:
    for a proxy with any algorithms the configuration can name (consistent hashing,
    sticky sessions and a balancing script among them) that has served any requests,
    whatever the attempts meet and whatever other requests do meanwhile to the state
    of the targets and, by being served, to the algorithms. *)
Theorem failover_distinct (numbers : list nat) (fuel : nat) (cfg : ProxyConfig) (b fb : balancer)
    (targets : list ptr) (more : Z) (sc : option script) (l : list ptr) (s s' : proxy_state) (r : reply) (att : list ptr) :
  new_balancers numbers fuel cfg = Some (Ok (b, fb)) →
  served (mkProxySel targets b fb more sc) l (pr_sel s) →
  (∀ k h, same config h (others k h)) → (∀ k p, ∃ l, served p l (others_sel k p)) →
  ServeHTTP s = (r, att, s') →
  NoDup (urls (pr_heap s') att) ∧ (length att ≤ maxTries)%nat ∧ att ⊆ targets.
Proof.
  intros Hn Hv Hoth Hsel Hs. apply (served_over targets) in Hv as [_ Hv]; [|by eapply new_balancers_over].
  apply (serve_loop_inv targets Hoth Hsel) in Hs as [(? & _ & ? & _) ?]; [by split_and!|by apply loop_inv_init].
Qed.

(** C40: A request is refused early only when it must be: if it ended without a
    reply of a target (no healthy target, all attempts failed) after fewer attempts
    than configured, no target outside the tried ones was available at that moment.
    The algorithms are any but consistent hashing, whose ring is never rebuilt
    (ring_refuses_recovered shows the refusal of an available target), and the
    weights of the targets fit an int together, which the weighted algorithm sums. *)
Theorem failover_exhaustive (numbers : list nat) (fuel : nat) (cfg : ProxyConfig) (b fb : balancer)
    (targets : list ptr) (more : Z) (sc : option script) (l : list ptr) (s s' : proxy_state) (r : reply)
    (att : list ptr) (p : ptr) :
  new_balancers numbers fuel cfg = Some (Ok (b, fb)) → exhaustive b = true → exhaustive fb = true →
  served (mkProxySel targets b fb more sc) l (pr_sel s) →
  (∀ k h, same config h (others k h)) → (∀ k p, ∃ l, served p l (others_sel k p)) →
  ServeHTTP s = (r, att, s') →
  total_weight (pr_heap s) targets ≤ int64_max →
  gave_up r = true → (length att < maxTries)%nat →
  p ∈ targets → URL (deref (pr_heap s') p) ∉ urls (pr_heap s') att →
  available_now (now (length att)) (deref (pr_heap s') p) = false.
Proof.
  intros Hn Hb Hfb Hv Hoth Hsel Hs Hw Hgu Hlt Hp Hu.
  pose proof (served_exhaustive _ _ _ Hv) as He.
  apply (served_over targets) in Hv as [_ Hv]; [|by eapply new_balancers_over].
  apply (serve_loop_gave_up targets Hoth Hsel maxTries 0 s [] None r att s'); try done; [by apply loop_inv_init|].
  split; [|done]. rewrite He. by apply andb_true_iff.
Qed.

(** A request leaves every connection counter as it found it, on every
    path through the loop. *)
Theorem failover_connections (s : proxy_state) (p : ptr) :
  (∀ k h, others k h = h) → (∀ q, in_int64 (Connections (deref (pr_heap s) q))) →
  Connections (deref (pr_heap (ServeHTTP s).2) p) = Connections (deref (pr_heap s) p).
Proof. intros Hoth Hok. symmetry. by apply serve_loop_conns. Qed.

End Failover.

(** ** Witnesses *)

#[local] Existing Instance literal_regexp.

(** A proxy with an algorithm, and one that a session falls back to. *)
Definition with_algorithm (name fallback : gostring) : ProxyConfig :=
  let z := zero_ProxyConfig in
  mkProxyConfig (px_RedirectRewrite z) (px_ProxySSL z) (px_CacheValid z) (px_Buffering z)
    [] (go!"/") name [] [] [] (px_Headers z)
    (px_BalancerByLua z) (px_HealthCheck z) (px_NextUpstream z) (px_Cache z) (px_Timeout z) (px_LeastTime z)
    (Config.mkStickyConfig true [] 0 [] [] false false [] fallback) 0 (go!"uri") [] false.

Definition ex_proxy (name : gostring) (ts : list ptr) (h : heap) : proxy_state :=
  match new_balancers [] 3 (with_algorithm name (go!"least_conn")) with
  | Some (Ok (b, fb)) => mkProxy (mkProxySel ts b fb 5 None) h None
  | _ => mkProxy ex_proxy_sel h None
  end.

(** The first attempt times out, the others answer 503. *)
Definition ex_outcome (k : nat) (_ : ptr) : attempt_outcome :=
  if (k =? 0)%nat then OError true None else OStatus 503 0 0 false.

Definition ex_serve (s : proxy_state) :=
  ServeHTTP 5 [] false ex_ctx 0 0 (λ _, 0) (λ _, 0) ex_outcome None (λ _ h, h) (λ _ p, p) s.

Lemma nobody_serves : ∀ (k : nat) (p : proxy), ∃ l, served p l p.
Proof. intros _ p. exists []. constructor. Qed.

(** Round the ring: the target that is not healthy has no point on it. *)
Definition ex_ring_proxy : proxy_state := ex_proxy (go!"consistent_hash") ex_targets ex_heap.

Lemma ex_ring_run :
  ex_serve ex_ring_proxy = (RTimeout, [0; 2; 1]%nat, (ex_serve ex_ring_proxy).2).
Proof. by vm_compute. Qed.

Lemma failover_distinct_witness :
  NoDup (urls (pr_heap (ex_serve ex_ring_proxy).2) [0; 2; 1]%nat) ∧ (3 ≤ maxTries 5)%nat ∧
  [0; 2; 1]%nat ⊆ ex_targets.
Proof.
  refine (failover_distinct 5 [] false ex_ctx 0 0 (λ _, 0) (λ _, 0) ex_outcome None (λ _ h, h) (λ _ p, p)
    [] 3 (with_algorithm (go!"consistent_hash") (go!"least_conn"))
    _ _ ex_targets 5 None [] ex_ring_proxy (ex_serve ex_ring_proxy).2 RTimeout [0; 2; 1]%nat _ _ _ _ _);
    [reflexivity|constructor|by intros k h p|apply nobody_serves|apply ex_ring_run].
Defined.

(** A session over least connections; the fourth target is down. *)
Definition ex_sticky_proxy : proxy_state := ex_proxy (go!"sticky") ex_targets ex_heap.

Lemma ex_sticky_run :
  ex_serve ex_sticky_proxy = (RTimeout, [2; 1; 0]%nat, (ex_serve ex_sticky_proxy).2).
Proof. by vm_compute. Qed.

Lemma failover_exhaustive_witness :
  available_now 0 (deref (pr_heap (ex_serve ex_sticky_proxy).2) 3%nat) = false.
Proof.
  refine (failover_exhaustive 5 [] false ex_ctx 0 0 (λ _, 0) (λ _, 0) ex_outcome None (λ _ h, h) (λ _ p, p)
    [] 3 (with_algorithm (go!"sticky") (go!"least_conn"))
    _ _ ex_targets 5 None [] ex_sticky_proxy (ex_serve ex_sticky_proxy).2 RTimeout [2; 1; 0]%nat 3%nat
    _ _ _ _ _ _ _ _ _ _ _ _);
    [reflexivity|reflexivity|reflexivity|constructor|by intros k h p|apply nobody_serves|apply ex_sticky_run|..].
  - vm_compute. discriminate.
  - reflexivity.
  - vm_compute. lia.
  - set_solver.
  - apply (bool_decide_unpack _). vm_compute. exact I.
Defined.

(** Why consistent hashing is left out of C40: the ring was built while every target
    was down, and a request is refused although a target is available again. *)
Definition all_down : heap := (λ t, set_healthy t false) <$> ex_heap.

Example ring_refuses_recovered :
  let s := (ex_serve (ex_proxy (go!"consistent_hash") ex_targets all_down)).2 in
  let r := ex_serve (mkProxy (pr_sel s) ex_heap None) in
  r.1 = (RNoHealthy, []) ∧ available_now 0 (deref (pr_heap r.2) 0%nat) = true.
Proof. by vm_compute. Qed.

Lemma failover_connections_witness :
  Connections (deref (pr_heap (ex_serve ex_sticky_proxy).2) 1%nat) = 5.
Proof.
  refine (failover_connections 5 [] false ex_ctx 0 0 (λ _, 0) (λ _, 0) ex_outcome None (λ _ h, h) (λ _ p, p)
    ex_sticky_proxy 1%nat _ _); [done|].
  apply (deref_all (λ t, in_int64 (Connections t))); [by vm_compute|].
  unfold in_int64. apply (bool_decide_unpack _). vm_compute. exact I.
Defined.
