(* ===== verification/VHost.v ===== *)
(** * VHost: the server chosen by the Host header

    [src/internal/server/vhost.go] with the registration loop of [startVHostMode] in
    [server/server.go], and the host functions of [netutil/host.go] and
    [netutil/url.go].  Exact names, names below a wildcard, names with any last
    part, regular expressions in the order of the configuration, and the default
    server.  [selects] is the order of nginx in terms of the registered names. *)

From S2P Require Import Prelude GoStrings Location.

(** ** [netutil] *)

Fixpoint bracket_loop (seen : gostring) (s : gostring) : option gostring :=
  match s with
  | c :: ((d :: _) as s') =>
      if Ascii.eqb c "]" && Ascii.eqb d ":" then Some (seen ++ [c]) else bracket_loop (seen ++ [c]) s'
  | _ => None
  end.

Definition StripPort (host : gostring) : gostring :=
  match host with
  | [] => host
  | c :: _ =>
      if Ascii.eqb c "[" then default host (bracket_loop [] host)
      else match IndexByte host ":" with Some i => take i host | None => host end
  end.

Definition ParseTargetURL (targetURL : gostring) (addDefaultPort : bool) : gostring * bool :=
  let '(addr, isTLS) :=
    if HasPrefix targetURL (go!"http://") then (drop 7 targetURL, false)
    else if HasPrefix targetURL (go!"https://") then (drop 8 targetURL, true)
    else (targetURL, false) in
  let addr := match Index addr (go!"/") with Some i => take i addr | None => addr end in
  let addr :=
    if addDefaultPort && negb (Contains addr (go!":")) then addr ++ (if isTLS then go!":443" else go!":80")
    else addr in
  (addr, isTLS).

Definition ExtractHost (targetURL : gostring) : gostring := (ParseTargetURL targetURL true).1.

(** ** The manager *)

Section VHost.
Context `{Regexp} {Hd : Type}.

Record VirtualHost := mkVHost { handler : Hd; name : gostring }.

Record VHostManager := mkManager {
  hosts : gmap gostring VirtualHost;
  wildcardSuffixMap : gmap gostring VirtualHost;
  wildcardTLDMap : gmap gostring VirtualHost;
  regexHosts : list (regexp * VirtualHost);
  defaultHost : option VirtualHost }.

Definition NewVHostManager : VHostManager := mkManager ∅ ∅ ∅ [] None.

(** [None] is the error of an invalid expression. *)
Definition AddHost (v : VHostManager) (nm : gostring) (h : Hd) : option VHostManager :=
  let vh := mkVHost h nm in
  if HasPrefix nm (go!"~") then
    re ← regexp_Compile (drop 1 nm);
    Some (mkManager (hosts v) (wildcardSuffixMap v) (wildcardTLDMap v) (regexHosts v ++ [(re, vh)]) (defaultHost v))
  else if HasPrefix nm (go!"*.") then
    Some (mkManager (hosts v) (<[drop 2 nm := vh]> (wildcardSuffixMap v)) (wildcardTLDMap v) (regexHosts v) (defaultHost v))
  else if HasSuffix nm (go!".*") then
    Some (mkManager (hosts v) (wildcardSuffixMap v) (<[take (length nm - 2) nm := vh]> (wildcardTLDMap v)) (regexHosts v) (defaultHost v))
  else Some (mkManager (<[nm := vh]> (hosts v)) (wildcardSuffixMap v) (wildcardTLDMap v) (regexHosts v) (defaultHost v)).

Definition SetDefault (v : VHostManager) (h : Hd) : VHostManager :=
  mkManager (hosts v) (wildcardSuffixMap v) (wildcardTLDMap v) (regexHosts v) (Some (mkVHost h (go!"default"))).

(** [for i := 1; i < len(parts); i++]: the rest of the parts, joined. *)
Fixpoint wildcard_loop (m : gmap gostring VirtualHost) (parts : list gostring) : option VirtualHost :=
  match parts with
  | _ :: ((_ :: _) as rest) =>
      match m !! Join rest (go!".") with
      | Some vh => Some vh
      | None => wildcard_loop m rest
      end
  | _ => None
  end.

Definition findLongestWildcardPrefix (v : VHostManager) (host : gostring) : option VirtualHost :=
  wildcard_loop (wildcardSuffixMap v) (SplitByte host ".").

Fixpoint regex_hosts_loop (l : list (regexp * VirtualHost)) (host : gostring) : option VirtualHost :=
  match l with
  | [] => None
  | (re, vh) :: l => if MatchString re host then Some vh else regex_hosts_loop l host
  end.

Definition tld_lookup (v : VHostManager) (host : gostring) : option VirtualHost :=
  match SplitByte host "." with
  | tld :: _ :: _ => wildcardTLDMap v !! tld
  | _ => None
  end.

Definition FindHost (v : VHostManager) (host : gostring) : option VirtualHost :=
  match hosts v !! host with
  | Some vh => Some vh
  | None =>
      match findLongestWildcardPrefix v host with
      | Some vh => Some vh
      | None =>
          match tld_lookup v host with
          | Some vh => Some vh
          | None =>
              match regex_hosts_loop (regexHosts v) host with
              | Some vh => Some vh
              | None => defaultHost v
              end
          end
      end
  end.

(** [Handler]: the handler that gets the request, [None] for the 404 answer. *)
Definition VHost_Handler (v : VHostManager) (host_header : gostring) : option Hd :=
  handler <$> FindHost v (StripPort host_header).

(** The names of one server in [startVHostMode], and the loop over the servers;
    each has its list of names, its single name and its handler. *)
Fixpoint add_names (v : VHostManager) (names : list gostring) (h : Hd) : option VHostManager :=
  match names with
  | [] => Some v
  | n :: names => v ← AddHost v n h; add_names v names h
  end.

Fixpoint register_vhosts (v : VHostManager) (servers : list (list gostring * gostring * Hd)) : option VHostManager :=
  match servers with
  | [] => Some v
  | (names, nm, h) :: servers =>
      v ← add_names v (if decide (names = []) then [nm] else names) h; register_vhosts v servers
  end.

(** ** The order of nginx *)

Inductive host_kind := KExact (n : gostring) | KSuffix (suffix : gostring) | KTLD (tld : gostring) | KRegex (re : gostring).

#[export] Instance host_kind_eq : EqDecision host_kind.
Proof. solve_decision. Defined.

Definition kind_of (nm : gostring) : host_kind :=
  if HasPrefix nm (go!"~") then KRegex (drop 1 nm)
  else if HasPrefix nm (go!"*.") then KSuffix (drop 2 nm)
  else if HasSuffix nm (go!".*") then KTLD (take (length nm - 2) nm)
  else KExact nm.

(** The last server registered with a name of this kind. *)
Definition latest (l : list (gostring * Hd)) (k : host_kind) : option VirtualHost :=
  last (omap (λ e, if decide (kind_of e.1 = k) then Some (mkVHost e.2 e.1) else None) l).

(** The first registered expression that matches. *)
Definition first_regex (l : list (gostring * Hd)) (host : gostring) : option VirtualHost :=
  regex_hosts_loop (omap (λ e, match kind_of e.1 with
    | KRegex p => (λ re, (re, mkVHost e.2 e.1)) <$> regexp_Compile p | _ => None end) l) host.

Definition below_name (host suffix : gostring) : Prop := ∃ x, host = x ++ "."%char :: suffix.

Inductive selects (l : list (gostring * Hd)) (def : option VirtualHost) (host : gostring) : option VirtualHost → Prop :=
  | sel_exact vh : latest l (KExact host) = Some vh → selects l def host (Some vh)
  | sel_suffix suffix vh :
      latest l (KExact host) = None →
      below_name host suffix → latest l (KSuffix suffix) = Some vh →
      (∀ s, below_name host s → is_Some (latest l (KSuffix s)) → (length s ≤ length suffix)%nat) →
      selects l def host (Some vh)
  | sel_tld tld rest vh :
      latest l (KExact host) = None → (∀ s, below_name host s → latest l (KSuffix s) = None) →
      host = tld ++ "."%char :: rest → "."%char ∉ tld → latest l (KTLD tld) = Some vh → selects l def host (Some vh)
  | sel_other :
      latest l (KExact host) = None → (∀ s, below_name host s → latest l (KSuffix s) = None) →
      (∀ tld rest, host = tld ++ "."%char :: rest → "."%char ∉ tld → latest l (KTLD tld) = None) →
      selects l def host (match first_regex l host with Some vh => Some vh | None => def end).

(** ** Registration *)

Lemma latest_snoc l n h k :
  latest (l ++ [(n, h)]) k = if decide (kind_of n = k) then Some (mkVHost h n) else latest l k.
Proof.
  unfold latest. rewrite omap_app. cbn. case_decide; cbn; [by rewrite last_snoc|by rewrite app_nil_r].
Qed.

(** What the maps hold after the names of [l]. *)
Record registered (l : list (gostring * Hd)) (v : VHostManager) : Prop := {
  reg_exact n : hosts v !! n = latest l (KExact n);
  reg_suffix s : wildcardSuffixMap v !! s = latest l (KSuffix s);
  reg_tld t : wildcardTLDMap v !! t = latest l (KTLD t);
  reg_regex host : regex_hosts_loop (regexHosts v) host = first_regex l host }.

Lemma regex_hosts_app l l' host :
  regex_hosts_loop (l ++ l') host =
    match regex_hosts_loop l host with Some vh => Some vh | None => regex_hosts_loop l' host end.
Proof. induction l as [|[re vh] l IH]; [done|]. cbn. by destruct (MatchString re host). Qed.

Lemma registered_new : registered [] NewVHostManager.
Proof. by split. Qed.

Lemma lookup_insert_case {A} (m : gmap gostring A) k k' x :
  <[k := x]> m !! k' = if decide (k = k') then Some x else m !! k'.
Proof. case_decide; [subst; apply lookup_insert_eq|by apply lookup_insert_ne]. Qed.

Lemma AddHost_registered l v n h v' :
  registered l v → AddHost v n h = Some v' → registered (l ++ [(n, h)]) v' ∧ defaultHost v' = defaultHost v.
Proof.
  intros [He Hs Ht Hr] Ha.
  assert (∀ host, first_regex (l ++ [(n, h)]) host =
    match first_regex l host with Some vh => Some vh | None => first_regex [(n, h)] host end) as Hf.
  { intros host. unfold first_regex. by rewrite omap_app, regex_hosts_app. }
  assert (∀ host, first_regex [(n, h)] host = match kind_of n with
    | KRegex p => match regexp_Compile p with
                  | Some re => if MatchString re host then Some (mkVHost h n) else None | None => None end
    | _ => None end) as H1.
  { intros host. unfold first_regex. cbn. destruct (kind_of n) as [| | |p]; [done..|].
    destruct (regexp_Compile p) as [r|]; cbn; [|done]. by destruct (MatchString r host). }
  unfold kind_of in H1. unfold AddHost in Ha. destruct (HasPrefix n (go!"~")) eqn:E1.
  { destruct (regexp_Compile _) as [re|]; [|done]. cbn in Ha. simplify_eq. split; [|done].
    split; intros; cbn [hosts wildcardSuffixMap wildcardTLDMap regexHosts]; rewrite ?latest_snoc; unfold kind_of; rewrite ?E1;
      try (rewrite decide_False by done; auto). rewrite Hf, H1, regex_hosts_app, Hr.
    repeat (case_match; simplify_eq; try done). }
  destruct (HasPrefix n (go!"*.")) eqn:E2; [|destruct (HasSuffix n (go!".*")) eqn:E3]; simplify_eq; (split; [|done]);
    split; intros; cbn [hosts wildcardSuffixMap wildcardTLDMap regexHosts];
    rewrite ?latest_snoc, ?lookup_insert_case, ?Hf, ?H1; unfold kind_of; rewrite ?E1, ?E2, ?E3, ?Hr;
    repeat case_decide; simplify_eq; try done; by case_match.
Qed.

(** ** The search *)

Lemma SplitByte_concat a c b : SplitByte (a ++ c :: b) c = SplitByte a c ++ SplitByte b c.
Proof.
  induction a as [|d a IH]; [cbn; by rewrite Ascii.eqb_refl|]. cbn [app SplitByte]. rewrite IH.
  destruct (SplitByte_cons a c) as (w & ws & ->). by destruct (Ascii.eqb d c).
Qed.

Lemma Join_cons w w' ws sep : Join (w :: w' :: ws) sep = w ++ sep ++ Join (w' :: ws) sep.
Proof. done. Qed.

Lemma below_cons x rest s :
  "."%char ∉ x → below_name (x ++ "."%char :: rest) s → s = rest ∨ below_name rest s.
Proof.
  intros Hx [y Hy]. revert y Hy. induction x as [|c x IH]; intros y Hy.
  - destruct y as [|d y]; cbn in Hy; simplify_eq; [by left|]. right. by exists y.
  - apply not_elem_of_cons in Hx as [Hc Hx]. destruct y as [|d y]; cbn in Hy; simplify_eq. by eapply IH.
Qed.

Lemma wildcard_loop_cons m x w ws :
  wildcard_loop m (x :: w :: ws) =
    match m !! Join (w :: ws) ["."%char] with Some vh => Some vh | None => wildcard_loop m (w :: ws) end.
Proof. done. Qed.

Lemma wildcard_loop_spec m host :
  match wildcard_loop m (SplitByte host ".") with
  | Some vh => ∃ s, below_name host s ∧ m !! s = Some vh ∧
      ∀ s', below_name host s' → is_Some (m !! s') → (length s' ≤ length s)%nat
  | None => ∀ s, below_name host s → m !! s = None
  end.
Proof.
  induction host as [host IH] using (induction_ltof1 _ (@length ascii)). unfold ltof in IH.
  destruct (decide ("."%char ∈ host)) as [(x & rest & -> & Hx)%list_elem_of_split_l|Hno].
  - rewrite SplitByte_app by done. specialize (IH rest ltac:(rewrite length_app; cbn; lia)).
    pose proof (Join_SplitByte rest ".") as Hj. destruct (SplitByte rest ".") as [|w ws] eqn:Ew.
    { by destruct (SplitByte_cons rest ".") as (? & ? & E); rewrite E in Ew. }
    rewrite wildcard_loop_cons, Hj.
    destruct (m !! rest) as [vh|] eqn:Em.
    + exists rest. split_and!; [by exists x|done|]. intros s Hs _.
      destruct (below_cons _ _ _ Hx Hs) as [->|[y ->]]; [done|]. rewrite length_app. cbn. lia.
    + destruct (wildcard_loop m (w :: ws)) as [vh|].
      * destruct IH as (s & [y ->] & Hs & Hmax). exists s. split_and!; [|done|].
        { exists (x ++ "."%char :: y). by rewrite <- app_assoc. }
        intros s' Hb [? Hm]. destruct (below_cons _ _ _ Hx Hb) as [->|Hb']; [congruence|].
        apply Hmax; [done|by eexists].
      * intros s Hs. destruct (below_cons _ _ _ Hx Hs) as [->|Hs']; auto.
  - rewrite SplitByte_none by done. cbn. intros s [y ->]. destruct Hno. set_solver.
Qed.

Lemma tld_lookup_spec v host vh :
  tld_lookup v host = Some vh ↔
    ∃ tld rest, host = tld ++ "."%char :: rest ∧ "."%char ∉ tld ∧ wildcardTLDMap v !! tld = Some vh.
Proof.
  unfold tld_lookup. destruct (decide ("."%char ∈ host)) as [(x & rest & -> & Hx)%list_elem_of_split_l|Hno].
  - rewrite SplitByte_app by done. destruct (SplitByte_cons rest ".") as (w & ws & ->). split.
    + intros Hm. by exists x, rest.
    + intros (tld & rest' & Heq & Ht & Hm). enough (tld = x) as -> by done. clear -Heq Hx Ht.
      revert tld Heq Ht. induction x as [|c x IH]; intros [|d tld] Heq Ht; cbn in Heq; simplify_eq; [done|set_solver..|].
      f_equal. apply IH; set_solver.
  - rewrite SplitByte_none by done. split; [done|]. intros (tld & rest & -> & _). destruct Hno. set_solver.
Qed.

(** C12: A request goes to the server nginx would pick among the registered names:
    the exact name; else the longest wildcard the host is below; else the wildcard of
    its first label; else the first matching expression; else the default. A name
    registered again belongs to its last server. *)
Theorem FindHost_selects (servers : list (gostring * Hd)) (def : option Hd) (v : VHostManager) (host : gostring) :
  foldl (λ acc e, v ← acc; AddHost v e.1 e.2) (Some NewVHostManager) servers = Some v →
  let v := match def with Some h => SetDefault v h | None => v end in
  selects servers (defaultHost v) host (FindHost v host).
Proof.
  intros Hv.
  assert (registered servers v) as [He Hs Ht Hr].
  { revert v Hv. induction servers as [|[n h] l IH] using rev_ind; intros v Hv; [cbn in Hv; simplify_eq; apply registered_new|].
    rewrite foldl_app in Hv. cbn in Hv. destruct (foldl _ _ l) as [v0|]; [|done]. cbn in Hv.
    by apply AddHost_registered with (l := l) in Hv as [? _]; [|apply IH]. }
  set (v' := match def with Some h => SetDefault v h | None => v end). cbv zeta.
  assert (hosts v' = hosts v ∧ wildcardSuffixMap v' = wildcardSuffixMap v ∧ wildcardTLDMap v' = wildcardTLDMap v ∧
    regexHosts v' = regexHosts v) as (E1 & E2 & E3 & E4) by by destruct def.
  unfold FindHost. rewrite E1, He. destruct (latest _ _) as [vh|] eqn:Hex; [by apply sel_exact|].
  unfold findLongestWildcardPrefix. rewrite E2. pose proof (wildcard_loop_spec (wildcardSuffixMap v) host) as Hw.
  destruct (wildcard_loop _ _) as [vh|].
  { destruct Hw as (s & Hb & Hm & Hmax). apply (sel_suffix _ _ _ s); [done..|by rewrite <- Hs|].
    intros s'. rewrite <- Hs. apply Hmax. }
  assert (∀ s, below_name host s → latest servers (KSuffix s) = None) as Hns by (intros s Hb; rewrite <- Hs; auto).
  destruct (tld_lookup v' host) as [vh|] eqn:Et.
  { apply tld_lookup_spec in Et as (tld & rest & Hh & Hd' & Hm). rewrite E3, Ht in Hm. by apply (sel_tld _ _ _ tld rest). }
  rewrite E4, Hr. apply sel_other; [done..|]. intros tld rest Hh Hd'. rewrite <- Ht.
  destruct (wildcardTLDMap v !! tld) as [vh|] eqn:Em; [|done].
  assert (tld_lookup v' host = Some vh); [|congruence]. apply tld_lookup_spec. exists tld, rest. by rewrite E3.
Qed.

(** A name that ends in a wildcard label and has more than one label before it,
    as www.example.*, is accepted and never matches any host. *)
Theorem tld_wildcard_unreachable (v : VHostManager) (t : gostring) (h : Hd) (host : gostring) :
  "."%char ∈ t → HasPrefix t (go!"~") = false → HasPrefix t (go!"*.") = false →
  ∃ v', AddHost v (t ++ go!".*") h = Some v' ∧ FindHost v' host = FindHost v host.
Proof.
  intros Hdot Hn Hw. unfold AddHost.
  assert (HasPrefix (t ++ go!".*") (go!"~") = false ∧ HasPrefix (t ++ go!".*") (go!"*.") = false) as [-> ->].
  { destruct t as [|a [|b t]]; [by apply elem_of_nil in Hdot| |split; [exact Hn|destruct t; exact Hw]]. apply list_elem_of_singleton in Hdot as <-. done. }
  rewrite (proj2 (HasSuffix_spec _ _)) by (by exists t). eexists. split; [done|].
  rewrite length_app, Nat.add_sub, take_app_length. unfold FindHost. cbn [hosts wildcardSuffixMap regexHosts defaultHost].
  change (findLongestWildcardPrefix _ host) with (findLongestWildcardPrefix v host) at 1.
  match goal with |- context [tld_lookup ?v' host] => assert (tld_lookup v' host = tld_lookup v host) as ->; [|done] end.
  apply option_eq. intros vh. rewrite !tld_lookup_spec. cbn [wildcardTLDMap].
  split; intros (tld & rest & Hh & Ht & Hm); exists tld, rest; (split_and!; [done..|]);
    rewrite lookup_insert_ne in * by (intros ->; contradiction); done.
Qed.
End VHost.

(** ** Examples *)

#[local] Instance no_regexp : Regexp := {|
  regexp := unit; regexp_Compile _ := None; MatchString _ _ := false;
  FindStringSubmatch _ _ := None; SubexpNames _ := []; regexp_String _ := [] |}.

Definition ex_servers : list (gostring * nat) :=
  [(go!"example.com", 1%nat); (go!"*.example.com", 2%nat); (go!"*.b.example.com", 3%nat); (go!"shop.*", 4%nat)].

Definition ex_manager : VHostManager :=
  default NewVHostManager (foldl (λ acc e, v ← acc; AddHost v e.1 e.2) (Some NewVHostManager) ex_servers).

Lemma FindHost_selects_witness :
  selects ex_servers None (go!"a.b.example.com") (Some (mkVHost 3%nat (go!"*.b.example.com"))).
Proof. by apply (FindHost_selects ex_servers None ex_manager (go!"a.b.example.com")). Defined.

Lemma tld_wildcard_unreachable_witness :
  ∃ v', AddHost ex_manager (go!"www.example.*") 5%nat = Some v' ∧
    FindHost v' (go!"www.example.org") = FindHost ex_manager (go!"www.example.org").
Proof. apply (tld_wildcard_unreachable ex_manager (go!"www.example") 5%nat); [vm_compute; set_solver|done|done]. Defined.
