(* ===== verification/TicketKeys.v ===== *)
(** * TicketKeys: TLS session ticket keys

    [src/internal/ssl/session_tickets.go] and its use in [ssl/ssl.go]: the list of
    keys, oldest first, its rotation, the key file, and the keys the TLS
    configuration holds.  [crypto/tls] seals new tickets with the first key it was
    given and opens tickets with any of them.  Fresh keys, the key file and the
    outcome of writing it are arguments; the timer is the step [fire]. *)

From S2P Require Import Prelude GoStrings Config.

Definition ticketKeySize : nat := 32.
Definition defaultRotateInterval : Z := 3600 * second.
Definition defaultRetainKeys : Z := 3.
Definition minRetainKeys : Z := 2.

Abbreviation key := gostring.

Record SessionTicketManager := mkTickets {
  tm_keys : list key; tm_KeyFile : gostring; tm_RotateInterval : Z; tm_RetainKeys : Z; tm_started : bool }.

Definition with_keys (m : SessionTicketManager) (ks : list key) : SessionTicketManager :=
  mkTickets ks (tm_KeyFile m) (tm_RotateInterval m) (tm_RetainKeys m) (tm_started m).
Definition with_started (m : SessionTicketManager) (b : bool) : SessionTicketManager :=
  mkTickets (tm_keys m) (tm_KeyFile m) (tm_RotateInterval m) (tm_RetainKeys m) b.

Inductive ticket_error := ErrDisabled | ErrRandom | ErrReadFile | ErrSmallFile | ErrWriteFile.

(** The key file: its content when it is there; [None] when [os.Stat] fails. *)
Abbreviation file := (option gostring).

(** [m.keys[len(m.keys)-m.config.RetainKeys:]] when there are too many. *)
Definition retain (n : Z) (ks : list key) : list key :=
  if n <? zlen ks then drop (length ks - Z.to_nat n) ks else ks.

(** [for i := 0; i+32 <= len(data); i += 32] *)
Fixpoint split_keys (fuel : nat) (data : gostring) : list key :=
  match fuel with
  | O => []
  | S fuel =>
      if (ticketKeySize <=? length data)%nat then take ticketKeySize data :: split_keys fuel (drop ticketKeySize data)
      else []
  end.

Definition loadKeys (m : SessionTicketManager) (data : gostring) : res ticket_error SessionTicketManager :=
  if (length data <? ticketKeySize)%nat then Err ErrSmallFile
  else Ok (with_keys m (retain (tm_RetainKeys m) (split_keys (length data) data))).

(** The data [saveKeys] writes. *)
Definition saved (ks : list key) : gostring := concat ks.

Definition saveKeys (writable : bool) (m : SessionTicketManager) (f : file) : res ticket_error file :=
  if writable then Ok (Some (saved (tm_keys m))) else Err ErrWriteFile.

(** [fresh] is the outcome of [generateTicketKey]. *)
Definition generateAndSaveKey (fresh : option key) (writable : bool) (m : SessionTicketManager) (f : file)
  : res ticket_error (SessionTicketManager * file) :=
  match fresh with
  | None => Err ErrRandom
  | Some k =>
      let m := with_keys m [k] in
      if decide (tm_KeyFile m = []) then Ok (m, f) else f ← saveKeys writable m f; Ok (m, f)
  end.

(** A failure to load, whatever the reason, makes a new key. *)
Definition loadOrGenerateKey (fresh : option key) (readable writable : bool) (m : SessionTicketManager) (f : file)
  : res ticket_error (SessionTicketManager * file) :=
  match f with
  | Some data =>
      match (if readable then loadKeys m data else Err ErrReadFile) with
      | Ok m => Ok (m, f)
      | Err _ => generateAndSaveKey fresh writable m f
      end
  | None => generateAndSaveKey fresh writable m f
  end.

Definition NewSessionTicketManager (cfg : SessionTicketsConfig) (fresh : option key) (readable writable : bool) (f : file)
  : res ticket_error (SessionTicketManager * file) :=
  if negb (tk_Enabled cfg) then Err ErrDisabled
  else
    let interval := if tk_RotateInterval cfg <=? 0 then defaultRotateInterval else tk_RotateInterval cfg in
    let retain := if tk_RetainKeys cfg <? minRetainKeys then defaultRetainKeys else tk_RetainKeys cfg in
    let m := mkTickets [] (tk_KeyFile cfg) interval retain false in
    if decide (tk_KeyFile cfg ≠ []) then loadOrGenerateKey fresh readable writable m f
    else match fresh with
         | Some k => Ok (with_keys m [k], f)
         | None => Err ErrRandom
         end.

Definition Tickets_Start (m : SessionTicketManager) : SessionTicketManager := with_started m true.
Definition Tickets_Stop (m : SessionTicketManager) : SessionTicketManager := with_started m false.
Definition GetKeys (m : SessionTicketManager) : list key := tm_keys m.

(** A failure to write the file is only logged. *)
Definition RotateKey (fresh : option key) (writable : bool) (m : SessionTicketManager) (f : file)
  : res ticket_error (SessionTicketManager * file) :=
  match fresh with
  | None => Err ErrRandom
  | Some k =>
      let m := with_keys m (retain (tm_RetainKeys m) (tm_keys m ++ [k])) in
      Ok (m, if decide (tm_KeyFile m ≠ []) then match saveKeys writable m f with Ok f => f | Err _ => f end else f)
  end.

(** The function of the timer: it does nothing once the manager is stopped, and
    drops the error of the rotation. *)
Definition fire (fresh : option key) (writable : bool) (m : SessionTicketManager) (f : file)
  : SessionTicketManager * file :=
  if tm_started m then match RotateKey fresh writable m f with Ok r => r | Err _ => (m, f) end else (m, f).

(** The array of 32 bytes a key is copied into. *)
Definition key_array (k : key) : key :=
  if (32 <=? length k)%nat then take 32 k else replicate 32 "000"%char.

Definition ApplyToTLSConfig (m : SessionTicketManager) : list key := key_array <$> GetKeys m.

(** ** [crypto/tls] *)

Definition tls_seal (ks : list key) : option key := head ks.
Definition tls_open (ks : list key) (k : key) : bool := bool_decide (k ∈ ks).

(** ** The TLS manager: the configuration is given the keys once *)

Record tls_state := mkTLS { ts_mgr : SessionTicketManager; ts_file : file; ts_keys : list key }.

Definition start_tls (m : SessionTicketManager) (f : file) : tls_state :=
  mkTLS (Tickets_Start m) f (ApplyToTLSConfig m).

Inductive tls_step : tls_state → tls_state → Prop :=
  | step_fire fresh w s m f : fire fresh w (ts_mgr s) (ts_file s) = (m, f) → tls_step s (mkTLS m f (ts_keys s))
  | step_stop s : tls_step s (mkTLS (Tickets_Stop (ts_mgr s)) (ts_file s) (ts_keys s))
  | step_start s : tls_step s (mkTLS (Tickets_Start (ts_mgr s)) (ts_file s) (ts_keys s)).

(** ** Keys are kept within bounds *)

Definition is_key (k : key) : Prop := length k = ticketKeySize.

Definition keys_ok (m : SessionTicketManager) : Prop :=
  2 ≤ tm_RetainKeys m ∧ 1 ≤ zlen (tm_keys m) ≤ tm_RetainKeys m ∧ Forall is_key (tm_keys m).

Lemma retain_ok n ks :
  2 ≤ n → 1 ≤ zlen ks → Forall is_key ks → 1 ≤ zlen (retain n ks) ≤ n ∧ Forall is_key (retain n ks).
Proof.
  intros Hn Hl Hk. unfold retain. destruct (Z.ltb_spec n (zlen ks)); [|by split].
  rewrite length_drop. split; [lia|by apply Forall_drop].
Qed.

Lemma split_keys_ok fuel data : Forall is_key (split_keys fuel data).
Proof.
  revert data. induction fuel as [|fuel IH]; intros data; [constructor|]. cbn [split_keys].
  destruct (Nat.leb_spec ticketKeySize (length data)); [|constructor]. constructor; [|apply IH].
  unfold is_key. rewrite length_take. lia.
Qed.

Lemma split_keys_saved ks fuel :
  Forall is_key ks → (length (saved ks) ≤ fuel)%nat → split_keys fuel (saved ks) = ks.
Proof.
  intros Hk. revert fuel. induction Hk as [|k ks Hk _ IH]; intros fuel Hf; [by destruct fuel|].
  unfold saved in *. cbn [concat] in *. unfold is_key, ticketKeySize in *. rewrite length_app in Hf.
  destruct fuel as [|fuel]; [lia|]. cbn [split_keys]. unfold ticketKeySize.
  rewrite (proj2 (Nat.leb_le _ _)) by (rewrite length_app; lia). rewrite take_app_length' by done.
  rewrite drop_app_length' by done. f_equal. apply IH. lia.
Qed.

(** What the manager writes to the key file it reads back: the same keys in the
    same order, when a manager with the same bound loads them. *)
Theorem key_file_roundtrip (m m' : SessionTicketManager) (f f' : file) :
  keys_ok m → tm_RetainKeys m' = tm_RetainKeys m → saveKeys true m f = Ok f' →
  ∃ data, f' = Some data ∧ loadKeys m' data = Ok (with_keys m' (tm_keys m)).
Proof.
  intros (Hr & Hl & Hk) Hr' [= <-]. eexists. split; [done|]. unfold loadKeys.
  assert (ticketKeySize ≤ length (saved (tm_keys m)))%nat as Hlen.
  { destruct (tm_keys m) as [|k ks]; [cbn in Hl; lia|]. inversion_clear Hk as [|? ? Hk0 _].
    unfold saved. cbn [concat]. rewrite length_app. unfold is_key in Hk0. lia. }
  rewrite (proj2 (Nat.ltb_ge _ _)) by done. rewrite split_keys_saved by done. rewrite Hr'.
  unfold retain. by rewrite (proj2 (Z.ltb_ge _ _)) by lia.
Qed.

Lemma New_keys_ok cfg fresh r w f m f' :
  (∀ k, fresh = Some k → is_key k) → NewSessionTicketManager cfg fresh r w f = Ok (m, f') → keys_ok m.
Proof.
  intros Hf. unfold NewSessionTicketManager. destruct (negb _); [done|].
  set (n := if tk_RetainKeys cfg <? minRetainKeys then defaultRetainKeys else tk_RetainKeys cfg).
  assert (2 ≤ n) as Hn.
  { unfold n, minRetainKeys, defaultRetainKeys. destruct (Z.ltb_spec (tk_RetainKeys cfg) 2); lia. }
  clearbody n. set (m0 := mkTickets [] _ _ n false).
  assert (∀ k, fresh = Some k → keys_ok (with_keys m0 [k])) as H1.
  { intros k Hk. split_and!; cbn; [done|lia..|]. repeat constructor. by apply Hf. }
  assert (∀ m f', generateAndSaveKey fresh w m0 f = Ok (m, f') → keys_ok m) as H2.
  { intros m1 f1. unfold generateAndSaveKey, saveKeys. destruct fresh as [k|]; [|done]. cbn.
    case_decide; [intros [= <- <-]; by apply H1|]. destruct w; cbn; [|done]. intros [= <- <-]. by apply H1. }
  case_decide.
  - unfold loadOrGenerateKey. destruct f as [data|]; [|apply H2]. destruct r; [|apply H2].
    unfold loadKeys. destruct (Nat.ltb_spec (length data) ticketKeySize) as [|Hd]; [apply H2|].
    intros [= <- <-]. split; [done|]. cbn [with_keys tm_keys tm_RetainKeys]. apply retain_ok; [done| |apply split_keys_ok].
    unfold ticketKeySize in Hd. destruct (length data) as [|n'] eqn:El; [lia|]. cbn [split_keys].
    unfold ticketKeySize. rewrite (proj2 (Nat.leb_le _ _)) by lia. cbn [length]. lia.
  - destruct fresh as [k|]; [|done]. intros [= <- <-]. by apply H1.
Qed.

Lemma fire_keys_ok fresh w m f :
  (∀ k, fresh = Some k → is_key k) → keys_ok m → keys_ok (fire fresh w m f).1.
Proof.
  intros Hf Hok. pose proof Hok as (Hr & Hl & Hk). unfold fire, RotateKey. destruct (tm_started m); [|exact Hok].
  destruct fresh as [k|]; [|exact Hok]. cbn. split; [done|]. apply retain_ok; [done|rewrite length_app; cbn; lia|].
  apply Forall_app. split; [done|]. repeat constructor. by apply Hf.
Qed.

(** From its construction on, through rotations that succeed or fail, stops and
    starts, the manager holds at least one key and at most the configured number, all
    of 32 bytes; the configured number is at least two. *)
Theorem ticket_keys_bounded (cfg : SessionTicketsConfig) (fresh : option key) (r w : bool) (f f' : file)
    (m m' : SessionTicketManager) (ops : list (option key * bool)) :
  Forall (λ o, ∀ k, o.1 = Some k → is_key k) ((fresh, w) :: ops) →
  NewSessionTicketManager cfg fresh r w f = Ok (m, f') →
  foldl (λ s o, fire o.1 o.2 s.1 s.2) (Tickets_Start m, f') ops = (m', f) →
  keys_ok m'.
Proof.
  intros [H0 Hops]%Forall_cons Hn%New_keys_ok; [|done]. intros Hm.
  assert (∀ s, keys_ok s.1 → keys_ok (foldl (λ s o, fire o.1 o.2 s.1 s.2) s ops).1) as Hall.
  { clear Hm. induction ops as [|o ops IH]; intros s Hs; [done|]. apply Forall_cons in Hops as [Ho Hops].
    cbn [foldl]. apply IH; [done|]. by apply fire_keys_ok. }
  specialize (Hall (Tickets_Start m, f') Hn). by rewrite Hm in Hall.
Qed.

Lemma key_array_id k : is_key k → key_array k = k.
Proof.
  unfold is_key, ticketKeySize, key_array. intros Hk. rewrite (proj2 (Nat.leb_le _ _)) by lia.
  by apply take_ge; lia.
Qed.

Lemma Apply_keys m : keys_ok m → ApplyToTLSConfig m = tm_keys m.
Proof.
  intros (_ & _ & Hk). unfold ApplyToTLSConfig, GetKeys. induction Hk as [|k ks Hk _ IH]; [done|].
  rewrite fmap_cons, IH. by rewrite key_array_id.
Qed.

Lemma retain_snoc n l k : 1 ≤ n → retain n (retain n l ++ [k]) = retain n (l ++ [k]).
Proof.
  intros Hn. unfold retain at 2. destruct (Z.ltb_spec n (zlen l)) as [Hl|]; [|done]. unfold retain.
  rewrite !length_app, length_drop. cbn [length].
  rewrite (proj2 (Z.ltb_lt _ _)), (proj2 (Z.ltb_lt _ _)) by lia.
  rewrite !drop_app_le by (rewrite ?length_drop; lia). rewrite drop_drop. do 2 f_equal. lia.
Qed.

Lemma rotations m f ks news :
  1 ≤ tm_RetainKeys m → tm_started m = true → tm_keys m = retain (tm_RetainKeys m) ks →
  ∃ s, (∀ tls, rtc tls_step (mkTLS m f tls) (mkTLS s.1 s.2 tls)) ∧
    tm_keys s.1 = retain (tm_RetainKeys m) (ks ++ news) ∧ tm_RetainKeys s.1 = tm_RetainKeys m.
Proof.
  intros Hr. revert m f ks Hr. induction news as [|k news IH]; intros m f ks Hr Hst Hks.
  { exists (m, f). rewrite app_nil_r. by split_and!. }
  set (m1 := (fire (Some k) true m f).1). set (f1 := (fire (Some k) true m f).2).
  assert (fire (Some k) true m f = (m1, f1)) as Hf by apply surjective_pairing.
  assert (tm_keys m1 = retain (tm_RetainKeys m) (ks ++ [k]) ∧ tm_RetainKeys m1 = tm_RetainKeys m ∧ tm_started m1 = true)
    as (H1 & H2 & H3).
  { unfold m1, fire, RotateKey. rewrite Hst. cbn. by rewrite Hks, retain_snoc. }
  destruct (IH m1 f1 (ks ++ [k])) as (s & Hs & Hk & Hn); [lia|done|by rewrite H2|].
  exists s. rewrite <- app_assoc, H2 in Hk. split_and!; [|done|by rewrite Hn].
  intros tls. eapply rtc_l; [by apply (step_fire (Some k) true (mkTLS m f tls))|apply Hs].
Qed.

(** New tickets are sealed with the oldest key the manager held when it was
    applied, and no rotation, stop or start changes that. In a full manager that key
    is the first a rotation drops; and the manager can come to hold only other keys,
    with which, saved and applied again, no ticket issued meanwhile opens. *)
Theorem tickets_never_rotate (m : SessionTicketManager) (f : file) (news : list key) :
  keys_ok m → Forall is_key news → zlen news = tm_RetainKeys m →
  (∀ s, rtc tls_step (start_tls m f) s → ts_keys s = tm_keys m ∧ tls_seal (ts_keys s) = head (tm_keys m)) ∧
  (∀ k w, zlen (tm_keys m) = tm_RetainKeys m →
     tm_keys (fire (Some k) w (Tickets_Start m) f).1 = tail (tm_keys m) ++ [k]) ∧
  ∃ s, rtc tls_step (start_tls m f) s ∧
    ∀ k, tls_seal (ts_keys s) = Some k → k ∉ news → tls_open (ApplyToTLSConfig (ts_mgr s)) k = false.
Proof.
  intros Hok Hnews Hlen. pose proof Hok as (Hr & Hl & Hk). split_and!.
  - intros s Hs. assert (ts_keys s = tm_keys m) as Heq; [|by rewrite Heq].
    rewrite <- (Apply_keys m) by done. change (ApplyToTLSConfig m) with (ts_keys (start_tls m f)).
    revert Hs. generalize (start_tls m f). induction 1 as [|s1 s2 s3 Hst _ IH]; [done|]. rewrite IH. by destruct Hst.
  - intros k w Hfull. unfold fire, RotateKey. cbn. unfold retain. rewrite length_app. cbn [length].
    rewrite (proj2 (Z.ltb_lt _ _)) by lia. destruct (tm_keys m) as [|k0 ks]; [cbn in Hl; lia|]. cbn [length] in *.
    replace (S (length ks) + 1 - Z.to_nat (tm_RetainKeys m))%nat with 1%nat by lia. done.
  - destruct (rotations (Tickets_Start m) f (tm_keys m) news) as (s & Hs & Hks & _); [cbn; lia|done| |].
    { cbn. unfold retain. by rewrite (proj2 (Z.ltb_ge _ _)) by lia. }
    exists (mkTLS s.1 s.2 (ApplyToTLSConfig m)). split; [apply Hs|]. intros k _ Hnew. cbn [ts_mgr].
    unfold tls_open. apply bool_decide_eq_false. intros Hin. apply Hnew.
    assert (tm_keys s.1 = news) as Heq.
    { rewrite Hks. cbn. unfold retain. rewrite length_app.
      destruct (Z.ltb_spec (tm_RetainKeys m) (Z.of_nat (length (tm_keys m) + length news))); [|lia].
      by rewrite drop_app_length' by lia. }
    unfold ApplyToTLSConfig, GetKeys in Hin. rewrite Heq in Hin. apply list_elem_of_fmap in Hin as (k' & -> & Hk').
    by rewrite key_array_id by by (rewrite Forall_forall in Hnews; apply Hnews).
Qed.

(** ** Examples *)

Definition key_of (c : ascii) : key := replicate 32 c.
Definition ex_tickets : SessionTicketManager := mkTickets [key_of "a"; key_of "b"] (go!"/keys") 1 2 false.

Lemma ex_keys_ok : keys_ok ex_tickets.
Proof. split_and!; [by vm_compute..|]. repeat constructor. Qed.

Lemma key_file_roundtrip_witness :
  ∃ data, Some (saved [key_of "a"; key_of "b"]) = Some data ∧
    loadKeys (with_keys ex_tickets []) data = Ok (with_keys ex_tickets [key_of "a"; key_of "b"]).
Proof. by apply (key_file_roundtrip ex_tickets (with_keys ex_tickets []) None (Some (saved [key_of "a"; key_of "b"])) ex_keys_ok). Defined.

Definition ex_ticket_cfg : SessionTicketsConfig := mkSessionTicketsConfig [] 0 2 true.

Lemma ticket_keys_bounded_witness :
  keys_ok (with_keys (mkTickets [] [] defaultRotateInterval 2 true) [key_of "b"; key_of "c"]).
Proof.
  refine (ticket_keys_bounded ex_ticket_cfg (Some (key_of "a")) true true None None
    (with_keys (mkTickets [] [] defaultRotateInterval 2 false) [key_of "a"]) _
    [(Some (key_of "b"), true); (None, false); (Some (key_of "c"), true)] _ _ _); [|by vm_compute..].
  repeat constructor; intros k [= <-]; done.
Defined.

Lemma tickets_never_rotate_witness :
  tls_seal (ts_keys (start_tls ex_tickets None)) = Some (key_of "a").
Proof.
  refine (proj2 (proj1 (tickets_never_rotate ex_tickets None [key_of "c"; key_of "d"] ex_keys_ok _ _) _ (rtc_refl _ _)));
    [repeat constructor|done].
Defined.
