(* ===== verification/Pool.v ===== *)
(** * Pool: the goroutine pool of the server

    [src/internal/server/pool.go] as a machine whose events are the single steps of
    the requests and of the workers: each read or update of an atomic counter, each
    attempt to send to the queue, each choice of a worker's [select].  A request goes
    through [WrapHandler] and [Submit]; [executed] lists the tasks whose handler has
    run, [returned] those whose request has returned to the caller of the wrapped
    handler.  Timers, the scheduler and the arrival of requests are the choice of the
    events; [run] executes a sequence of them. *)

From S2P Require Import Prelude.

Abbreviation task := nat.

Record PoolConfig := mkPoolConfig { MaxWorkers : Z; MinWorkers : Z; IdleTimeout : Z; QueueSize : Z }.

(** Where a worker is: before [idleWorkers.Add(1)], in the [select], past it with a
    task, a timer or a cancellation but not yet counted out, running a task, about to
    compare with the minimum, about to leave. *)
Inductive worker := WMark | WSelect | WGot (t : task) | WTimer | WCancelled | WRun (t : task) | WCheckMin | WLeaving.

(** Where a request is in [Submit]. *)
Inductive request :=
  | RSubmit (t : task) | RSend (t : task)
  | RCheckIdle (t : task) | RCheckRoom (t : task) | RStart (t : task)
  | RFullRoom (t : task) | RFullStart (t : task) | RResend (t : task) | RInline (t : task).

Record pool := mkPool {
  maxWorkers : Z; minWorkers : Z; idleTimeout : Z; capacity : nat;
  running : bool; cancelled : bool; taskQueue : list task; workers : Z; idleWorkers : Z;
  goroutines : list worker; requests : list request; executed : list task; returned : list task }.

(** [make(chan Task, n)]; [startWorker] in the loop only adds goroutines. *)
Definition NewGoroutinePool (cfg : PoolConfig) : pool :=
  let max := if MaxWorkers cfg <=? 0 then 10000 else MaxWorkers cfg in
  let min := if MinWorkers cfg <=? 0 then 100 else MinWorkers cfg in
  let min := if max <? min then max else min in
  let idle := if IdleTimeout cfg <=? 0 then 60 * second else IdleTimeout cfg in
  let size := if QueueSize cfg <=? 0 then 1000 else QueueSize cfg in
  mkPool (swrap32 max) (swrap32 min) idle (Z.to_nat size) false false [] min 0
    (replicate (Z.to_nat min) WMark) [] [] [].

Definition set_flags (p : pool) (r c : bool) : pool :=
  mkPool (maxWorkers p) (minWorkers p) (idleTimeout p) (capacity p) r c (taskQueue p) (workers p) (idleWorkers p)
    (goroutines p) (requests p) (executed p) (returned p).
Definition set_queue (p : pool) (q : list task) : pool :=
  mkPool (maxWorkers p) (minWorkers p) (idleTimeout p) (capacity p) (running p) (cancelled p) q (workers p) (idleWorkers p)
    (goroutines p) (requests p) (executed p) (returned p).
Definition add_idle (p : pool) (d : Z) : pool :=
  mkPool (maxWorkers p) (minWorkers p) (idleTimeout p) (capacity p) (running p) (cancelled p) (taskQueue p) (workers p)
    (idleWorkers p + d) (goroutines p) (requests p) (executed p) (returned p).
Definition set_workers (p : pool) (n : Z) (ws : list worker) : pool :=
  mkPool (maxWorkers p) (minWorkers p) (idleTimeout p) (capacity p) (running p) (cancelled p) (taskQueue p) n
    (idleWorkers p) ws (requests p) (executed p) (returned p).
Definition set_requests (p : pool) (rs : list request) : pool :=
  mkPool (maxWorkers p) (minWorkers p) (idleTimeout p) (capacity p) (running p) (cancelled p) (taskQueue p) (workers p)
    (idleWorkers p) (goroutines p) rs (executed p) (returned p).
Definition add_executed (p : pool) (t : task) : pool :=
  mkPool (maxWorkers p) (minWorkers p) (idleTimeout p) (capacity p) (running p) (cancelled p) (taskQueue p) (workers p)
    (idleWorkers p) (goroutines p) (requests p) (executed p ++ [t]) (returned p).
Definition add_returned (p : pool) (t : task) : pool :=
  mkPool (maxWorkers p) (minWorkers p) (idleTimeout p) (capacity p) (running p) (cancelled p) (taskQueue p) (workers p)
    (idleWorkers p) (goroutines p) (requests p) (executed p) (returned p ++ [t]).

Definition Pool_Start (p : pool) : pool := set_flags p true (cancelled p).
(** The wait for the workers is bounded and changes nothing. *)
Definition Pool_Stop (p : pool) : pool := set_flags p false true.

(** [startWorker]: the counter goes up, a goroutine begins. *)
Definition startWorker (p : pool) : pool := set_workers p (workers p + 1) (goroutines p ++ [WMark]).

(** The next step of a request: the pool, and where the request is, [None] when
    [Submit] has returned. *)
Definition submit_step (r : request) (p : pool) : pool * option request :=
  let try_send t ok full :=
    if (length (taskQueue p) <? capacity p)%nat then (set_queue p (taskQueue p ++ [t]), ok) else (p, full) in
  match r with
  | RSubmit t => (p, Some (if running p then RSend t else RInline t))
  | RSend t => try_send t (Some (RCheckIdle t)) (Some (RFullRoom t))
  | RCheckIdle t => if idleWorkers p =? 0 then (p, Some (RCheckRoom t)) else (add_returned p t, None)
  | RCheckRoom t => if workers p <? maxWorkers p then (p, Some (RStart t)) else (add_returned p t, None)
  | RStart t => (add_returned (startWorker p) t, None)
  | RFullRoom t => (p, Some (if workers p <? maxWorkers p then RFullStart t else RInline t))
  | RFullStart t => (startWorker p, Some (RResend t))
  | RResend t =>
      if (length (taskQueue p) <? capacity p)%nat then (add_returned (set_queue p (taskQueue p ++ [t])) t, None)
      else (p, Some (RInline t))
  | RInline t => (add_returned (add_executed p t) t, None)
  end.

(** The choice a worker makes in its [select]. *)
Inductive choice := CTask | CTimer | CDone.

(** The next step of a worker; the inner [None] when it is gone, the outer when the
    choice is not ready. *)
Definition worker_step (w : worker) (c : choice) (p : pool) : option (pool * option worker) :=
  match w with
  | WMark => Some (add_idle p 1, Some WSelect)
  | WSelect =>
      match c with
      | CTask => match taskQueue p with t :: q => Some (set_queue p q, Some (WGot t)) | [] => None end
      | CTimer => Some (p, Some WTimer)
      | CDone => if cancelled p then Some (p, Some WCancelled) else None
      end
  | WGot t => Some (add_idle p (-1), Some (WRun t))
  | WTimer => Some (add_idle p (-1), Some WCheckMin)
  | WCancelled => Some (add_idle p (-1), Some WLeaving)
  | WRun t => Some (add_executed p t, Some WMark)
  | WCheckMin => Some (p, Some (if minWorkers p <? workers p then WLeaving else WMark))
  | WLeaving => Some (set_workers p (workers p - 1) (goroutines p), None)
  end.

Inductive event := EStart | EStop | ERequest (t : task) | ESubmit (i : nat) | EWork (i : nat) (c : choice).

Definition replace {A} (l : list A) (i : nat) (o : option A) : list A :=
  match o with Some x => <[i := x]> l | None => delete i l end.

Definition step (p : pool) (e : event) : option pool :=
  match e with
  | EStart => Some (Pool_Start p)
  | EStop => Some (Pool_Stop p)
  | ERequest t => Some (set_requests p (requests p ++ [RSubmit t]))
  | ESubmit i =>
      r ← requests p !! i;
      let '(p', r') := submit_step r p in Some (set_requests p' (replace (requests p) i r'))
  | EWork i c =>
      w ← goroutines p !! i;
      '(p', w') ← worker_step w c p; Some (set_workers p' (workers p') (replace (goroutines p) i w'))
  end.

Fixpoint run (p : pool) (es : list event) : option pool :=
  match es with
  | [] => Some p
  | e :: es => p ← step p e; run p es
  end.

Record PoolStats := mkPoolStats {
  ps_Workers : Z; ps_IdleWorkers : Z; ps_MaxWorkers : Z; ps_MinWorkers : Z; ps_QueueLen : Z; ps_QueueCap : Z }.

Definition Pool_Stats (p : pool) : PoolStats :=
  mkPoolStats (workers p) (idleWorkers p) (maxWorkers p) (minWorkers p) (zlen (taskQueue p)) (Z.of_nat (capacity p)).

(** ** No task is lost or run twice *)

(** The task a request has not handed over. *)
Definition held (r : request) : list task :=
  match r with
  | RSubmit t | RSend t | RFullRoom t | RFullStart t | RResend t | RInline t => [t]
  | RCheckIdle _ | RCheckRoom _ | RStart _ => []
  end.
Definition taken (w : worker) : list task := match w with WGot t | WRun t => [t] | _ => [] end.
Definition is_idle (w : worker) : bool := match w with WSelect | WGot _ | WTimer | WCancelled => true | _ => false end.

Definition idle_count (ws : list worker) : Z := foldr (λ w n, (if is_idle w then 1 else 0) + n) 0 ws.

(** Every task somewhere: with its request, queued, with a worker, or run. *)
Definition everywhere (p : pool) : list task :=
  concat (held <$> requests p) ++ taskQueue p ++ concat (taken <$> goroutines p) ++ executed p.

Definition submitted (es : list event) : list task := concat ((λ e, match e with ERequest t => [t] | _ => [] end) <$> es).

Record pool_ok (sub : list task) (p : pool) : Prop := {
  ok_tasks : everywhere p ≡ₚ sub;
  ok_queue : (length (taskQueue p) ≤ capacity p)%nat;
  ok_workers : workers p = zlen (goroutines p);
  ok_idle : idleWorkers p = idle_count (goroutines p) }.

Abbreviation cnt l t := (count_occ Nat.eq_dec l t).

Section Replace.
Context {A : Type}.
Implicit Type l : list A.

Lemma replace_split l i x o :
  l !! i = Some x → ∃ l1 l2, l = l1 ++ x :: l2 ∧ replace l i o = l1 ++ option_list o ++ l2.
Proof.
  intros Hi. exists (take i l), (drop (S i) l). split; [by rewrite take_drop_middle|].
  destruct o as [y|]; cbn [replace option_list].
  - by apply insert_take_drop, lookup_lt_Some with (x := x).
  - apply delete_take_drop.
Qed.

Lemma cnt_replace (f : A → list task) l i x o t :
  l !! i = Some x →
  (cnt (concat (f <$> replace l i o)) t + cnt (f x) t = cnt (concat (f <$> l)) t + cnt (concat (f <$> option_list o)) t)%nat.
Proof.
  intros (l1 & l2 & -> & ->)%(replace_split _ _ _ o). rewrite !fmap_app, fmap_cons, !concat_app. cbn [concat].
  rewrite !count_occ_app. lia.
Qed.

Lemma length_replace l i x o : l !! i = Some x → zlen (replace l i o) = zlen l - 1 + zlen (option_list o).
Proof. intros (l1 & l2 & -> & ->)%(replace_split _ _ _ o). rewrite !length_app. cbn. lia. Qed.
End Replace.

Lemma idle_count_app l l' : idle_count (l ++ l') = idle_count l + idle_count l'.
Proof. unfold idle_count. induction l as [|w l IH]; cbn; lia. Qed.

Lemma idle_count_replace l i w o :
  l !! i = Some w → idle_count (replace l i o) = idle_count l - idle_count [w] + idle_count (option_list o).
Proof.
  intros (l1 & l2 & -> & ->)%(replace_split _ _ _ o). rewrite !idle_count_app.
  change (w :: l2) with ([w] ++ l2). rewrite idle_count_app. lia.
Qed.

Lemma count_perm sub l : l ≡ₚ sub ↔ ∀ t, cnt l t = cnt sub t.
Proof. apply Permutation_count_occ. Qed.

Ltac pool_cbn := cbn [everywhere set_flags set_queue add_idle set_workers set_requests add_executed add_returned startWorker
  Pool_Start Pool_Stop maxWorkers minWorkers capacity running cancelled taskQueue workers idleWorkers goroutines requests executed returned] in *.

(** Both kinds of steps move tasks: the count of every task stays the same. *)
Ltac count_tasks Hc x :=
  match goal with |- context [replace _ _ ?o] => specialize (Hc o x) end;
  repeat rewrite ?fmap_app, ?concat_app, ?count_occ_app in *; cbn in *; repeat case_match; lia.

Lemma submit_ok sub p i r :
  pool_ok sub p → requests p !! i = Some r →
  let '(p', r') := submit_step r p in pool_ok sub (set_requests p' (replace (requests p) i r')).
Proof.
  intros [Ht Hq Hw Hi] Hr. rewrite count_perm in Ht. unfold everywhere in Ht.
  pose proof (λ o t, cnt_replace held (requests p) i r o t Hr) as Hc.
  destruct r; unfold submit_step; repeat case_match; simplify_eq; bool_to_prop;
    (split; [apply count_perm; intros x; unfold everywhere; specialize (Ht x); pool_cbn; count_tasks Hc x|..]);
    pool_cbn; rewrite ?length_app, ?idle_count_app; cbn; lia.
Qed.

Lemma worker_ok sub p i w c p' w' :
  pool_ok sub p → goroutines p !! i = Some w → worker_step w c p = Some (p', w') →
  pool_ok sub (set_workers p' (workers p') (replace (goroutines p) i w')).
Proof.
  intros [Ht Hq Hw Hi] Hg Hs. rewrite count_perm in Ht. unfold everywhere in Ht.
  pose proof (λ o t, cnt_replace taken (goroutines p) i w o t Hg) as Hc.
  destruct w; cbn [worker_step] in Hs; repeat case_match; simplify_eq;
    (split; [apply count_perm; intros x; unfold everywhere; specialize (Ht x); pool_cbn; count_tasks Hc x|..]);
    pool_cbn; rewrite ?(length_replace _ _ _ _ Hg), ?(idle_count_replace _ _ _ _ Hg); cbn in *; lia.
Qed.

Lemma pool_ok_fields sub p p' :
  requests p' = requests p → taskQueue p' = taskQueue p → goroutines p' = goroutines p → executed p' = executed p →
  capacity p' = capacity p → workers p' = workers p → idleWorkers p' = idleWorkers p → pool_ok sub p → pool_ok sub p'.
Proof. intros H1 H2 H3 H4 H5 H6 H7 []. split; unfold everywhere in *; congruence. Qed.

Lemma pool_step_ok sub p e p' :
  pool_ok sub p → step p e = Some p' → pool_ok (sub ++ submitted [e]) p'.
Proof.
  intros Hok Hs. destruct e as [| |t|i|i c]; unfold submitted; cbn; rewrite ?app_nil_r; cbn [step] in Hs.
  - simplify_eq. by apply (pool_ok_fields sub p).
  - simplify_eq. by apply (pool_ok_fields sub p).
  - simplify_eq. destruct Hok as [Ht Hq Hw Hi]. split; [|done..]. rewrite count_perm in *. intros x. specialize (Ht x).
    unfold everywhere in *. pool_cbn. rewrite fmap_app, concat_app, !count_occ_app in *. cbn in *. lia.
  - destruct (requests p !! i) as [r|] eqn:Er; cbn in Hs; [|done].
    pose proof (submit_ok sub p i r Hok Er) as Ho. destruct (submit_step r p). by simplify_eq.
  - destruct (goroutines p !! i) as [w|] eqn:Ew; cbn in Hs; [|done].
    destruct (worker_step w c p) as [[p1 w']|] eqn:Es; cbn in Hs; [|done]. simplify_eq.
    by apply (worker_ok sub p i w c).
Qed.

Lemma pool_run_ok sub p es p' : pool_ok sub p → run p es = Some p' → pool_ok (sub ++ submitted es) p'.
Proof.
  revert sub p. induction es as [|e es IH]; intros sub p Hok Hr; cbn in Hr.
  { simplify_eq. unfold submitted. cbn. by rewrite app_nil_r. }
  destruct (step p e) as [p1|] eqn:Es; [|done]. apply (pool_step_ok sub) in Es; [|done].
  apply (IH (sub ++ submitted [e]) p1) in Hr; [|exact Es]. unfold submitted in *. cbn in *. by rewrite app_nil_r, <- app_assoc in Hr.
Qed.

Lemma new_pool_ok cfg : pool_ok [] (NewGoroutinePool cfg).
Proof.
  assert (∀ n, concat (taken <$> replicate n WMark) = [] ∧ idle_count (replicate n WMark) = 0) as Hn.
  { unfold idle_count. induction n as [|n [IH1 IH2]]; [done|]. cbn. by rewrite IH1, IH2. }
  unfold NewGoroutinePool. set (min := if _ <? _ then _ else _).
  assert (0 ≤ min) as Hmin.
  { unfold min. destruct (Z.leb_spec (MaxWorkers cfg) 0), (Z.leb_spec (MinWorkers cfg) 0); case_match; bool_to_prop; lia. }
  clearbody min. split; cbn; [|lia| |].
  - by rewrite (proj1 (Hn _)).
  - rewrite length_replicate. lia.
  - by rewrite (proj2 (Hn _)).
Qed.

(** C13: Under every interleaving of requests, workers, timers, starts and stops, every
    submitted task is in exactly one place: with its request, in the queue, with one
    worker, or run, once; the queue keeps within its capacity; and the counters count
    the goroutines there are and those waiting for a task. *)
Theorem pool_conserves_tasks (cfg : PoolConfig) (es : list event) (p : pool) :
  run (NewGoroutinePool cfg) es = Some p →
  everywhere p ≡ₚ submitted es ∧ (length (taskQueue p) ≤ capacity p)%nat ∧
  ps_Workers (Pool_Stats p) = zlen (goroutines p) ∧ ps_IdleWorkers (Pool_Stats p) = idle_count (goroutines p).
Proof. intros [? ? ? ?]%(pool_run_ok []); [done|]. apply new_pool_ok. Qed.

(** A wrapped handler does not wait for its task: once its task fits in the queue
    and a worker is idle, the request has returned to its caller with the handler not
    run, whatever happens later. *)
Theorem wrapped_handler_returns_early (p : pool) (i : nat) (t : task) :
  requests p !! i = Some (RSend t) → (length (taskQueue p) < capacity p)%nat → idleWorkers p ≠ 0 →
  ∃ p', run p [ESubmit i; ESubmit i] = Some p' ∧ returned p' = returned p ++ [t] ∧
    taskQueue p' = taskQueue p ++ [t] ∧ executed p' = executed p.
Proof.
  intros Hi Hq Hidle. unfold run, step. rewrite Hi. cbn [mbind option_bind submit_step].
  rewrite (proj2 (Nat.ltb_lt _ _)) by done. cbn [mbind option_bind]. pool_cbn.
  cbn [replace]. rewrite list_lookup_insert_eq by by apply lookup_lt_Some in Hi. cbn [mbind option_bind submit_step]. pool_cbn.
  rewrite (proj2 (Z.eqb_neq _ _)) by done. eexists. split; [done|]. by pool_cbn.
Qed.

(** A stopped pool whose workers are gone. *)
Definition dead (p : pool) : Prop :=
  goroutines p = [] ∧ running p = false ∧ Forall (λ r, match r with RSubmit _ | RInline _ => True | _ => False end) (requests p).

Lemma dead_step p e p' :
  dead p → e ≠ EStart → step p e = Some p' → dead p' ∧ taskQueue p' = taskQueue p.
Proof.
  intros (Hg & Hr & Hq) He Hs. destruct e as [| |t|i|i c]; cbn in Hs; simplify_eq.
  - by split.
  - split; [|done]. split_and!; [done..|]. apply Forall_app. by repeat constructor.
  - destruct (requests p !! i) as [r|] eqn:Er; cbn in Hs; [|done].
    pose proof (Forall_lookup_1 _ _ _ _ Hq Er) as Hrq. destruct r; try done; cbn in Hs; simplify_eq.
    + split; [|done]. split_and!; [done..|]. cbn. rewrite Hr. by apply Forall_insert.
    + split; [|done]. split_and!; [done..|]. cbn. by apply Forall_delete.
  - by rewrite Hg in Hs.
Qed.

(** Stopping loses queued requests: once the workers have gone, a task in the
    queue stays there, never run, until the pool is started again. *)
Theorem stopped_pool_keeps_queue (p p' : pool) (es : list event) :
  dead p → Forall (λ e, e ≠ EStart) es → run p es = Some p' → taskQueue p' = taskQueue p ∧ goroutines p' = [].
Proof.
  intros Hd Hes. revert p Hd. induction Hes as [|e es He _ IH]; intros p Hd Hr; cbn in Hr.
  { simplify_eq. split; [done|apply Hd]. }
  destruct (step p e) as [p1|] eqn:Es; [|done]. apply dead_step in Es as [Hd1 <-]; [|done..]. by apply IH.
Qed.

(** ** Examples *)

Definition small_pool : pool := NewGoroutinePool (mkPoolConfig 2 1 0 4).

(** Two requests meet a worker that has not counted itself idle. *)
Definition race : list event :=
  [EStart; ERequest 7; ERequest 8; ESubmit 0; ESubmit 0; ESubmit 0; ESubmit 1; ESubmit 1; ESubmit 1;
   ESubmit 0; ESubmit 1; ESubmit 0; ESubmit 0].

(** The limit on the workers does not hold under concurrency: with a maximum of
    two, two requests that both see one worker start one each. *)
Theorem max_workers_exceeded :
  ∃ p, run small_pool race = Some p ∧ maxWorkers p = 2 ∧ ps_Workers (Pool_Stats p) = 3.
Proof. eexists. split; [vm_compute; reflexivity|done]. Qed.

Lemma pool_conserves_tasks_witness :
  match run small_pool race with Some p => everywhere p ≡ₚ [7; 8]%nat ∧ ps_Workers (Pool_Stats p) = zlen (goroutines p) | None => False end.
Proof.
  destruct (run small_pool race) as [p|] eqn:E; [|by vm_compute in E].
  destruct (pool_conserves_tasks (mkPoolConfig 2 1 0 4) race p E) as (? & _ & ? & _). done.
Defined.

Definition ex_idle : pool := default small_pool (run small_pool [EStart; EWork 0 CTask; ERequest 7; ESubmit 0]).

Lemma wrapped_handler_returns_early_witness :
  ∃ p', run ex_idle [ESubmit 0; ESubmit 0] = Some p' ∧ returned p' = [] ++ [7%nat] ∧ taskQueue p' = [] ++ [7%nat] ∧ executed p' = [].
Proof. apply (wrapped_handler_returns_early ex_idle 0 7); [done|vm_compute; lia|done]. Defined.

Definition ex_dead : pool :=
  default small_pool (run ex_idle [ESubmit 0; ESubmit 0; EStop; EWork 0 CDone; EWork 0 CDone; EWork 0 CDone]).

Lemma stopped_pool_keeps_queue_witness :
  match run ex_dead [ERequest 8; ESubmit 0; ESubmit 0] with
  | Some p => taskQueue p = [7%nat] ∧ goroutines p = [] | None => False end.
Proof.
  destruct (run ex_dead [ERequest 8; ESubmit 0; ESubmit 0]) as [p|] eqn:E; [|by vm_compute in E].
  apply (stopped_pool_keeps_queue ex_dead p [ERequest 8; ESubmit 0; ESubmit 0]); [|by repeat constructor|done].
  split_and!; by vm_compute.
Defined.
