(* ===== verification/CodeCache.v ===== *)
(** * CodeCache: compiled Lua scripts

    [src/internal/lua/cache.go]: protos by key with an expiry, a check of the file's
    modification time, and eviction of the entry accessed longest ago.  The compiler
    of gopher-lua and the digest are parameters; what reading a file and asking for
    its modification time give are arguments, as the file system at those moments.
    A call reads the clock when it looks up ([now]) and when it stores ([later]). *)

From S2P Require Import Prelude.

Section CodeCache.
Context {proto : Type} (sha256_hex : gostring → gostring) (compile : gostring → gostring → option proto).

Inductive CacheKeyType := CacheKeyInline | CacheKeyFile.

Record CachedProto := mkCached {
  ModTime : Z; CachedAt : Z; AccessAt : Z; Proto : proto; SourcePath : gostring; SourceType : CacheKeyType }.

Record CodeCache := mkCodeCache {
  protos : gmap gostring CachedProto; order : list gostring; maxSize : Z; ttl : Z;
  hits : Z; misses : Z; fileWatch : bool }.

Definition NewCodeCache (size tt : Z) (watch : bool) : CodeCache := mkCodeCache ∅ [] size tt 0 0 watch.

Definition generateInlineKey (src : gostring) : gostring := go!"nhli_" ++ sha256_hex src.
Definition generateFileKey (path : gostring) : gostring := go!"nhlf_" ++ sha256_hex path.

Definition isExpired (now : Z) (c : CodeCache) (e : CachedProto) : bool :=
  if ttl c <=? 0 then false else ttl c <? time_sub now (CachedAt e).

(** [mtime] is the answer of [os.Stat], [None] an error. *)
Definition isFileChanged (mtime : option Z) (c : CodeCache) (e : CachedProto) : bool :=
  if negb (fileWatch c) then false
  else match SourceType e with
       | CacheKeyInline => false
       | CacheKeyFile => match mtime with Some t => time_after t (ModTime e) | None => true end
       end.

Definition with_protos (c : CodeCache) (m : gmap gostring CachedProto) (o : list gostring) : CodeCache :=
  mkCodeCache m o (maxSize c) (ttl c) (hits c) (misses c) (fileWatch c).
Definition hit (c : CodeCache) : CodeCache :=
  mkCodeCache (protos c) (order c) (maxSize c) (ttl c) (wrap64 (hits c + 1)) (misses c) (fileWatch c).
Definition miss (c : CodeCache) : CodeCache :=
  mkCodeCache (protos c) (order c) (maxSize c) (ttl c) (hits c) (wrap64 (misses c + 1)) (fileWatch c).

Definition accessed (now : Z) (e : CachedProto) : CachedProto :=
  mkCached (ModTime e) (CachedAt e) now (Proto e) (SourcePath e) (SourceType e).

(** The scan for the entry with the earliest access before [oldestTime]. *)
Fixpoint oldest_loop (m : gmap gostring CachedProto) (l : list gostring) (oldestKey : gostring) (oldestTime : Z) : gostring :=
  match l with
  | [] => oldestKey
  | k :: l =>
      match m !! k with
      | Some e => if AccessAt e <? oldestTime then oldest_loop m l k (AccessAt e) else oldest_loop m l oldestKey oldestTime
      | None => oldest_loop m l oldestKey oldestTime
      end
  end.

Fixpoint remove_first (k : gostring) (l : list gostring) : list gostring :=
  match l with
  | [] => []
  | x :: l => if decide (x = k) then l else x :: remove_first k l
  end.

Definition evictLocked (now : Z) (c : CodeCache) : CodeCache :=
  match order c with
  | [] => c
  | k0 :: _ =>
      let k := oldest_loop (protos c) (order c) k0 now in
      with_protos c (delete k (protos c)) (remove_first k (order c))
  end.

Definition storeLocked (now : Z) (key : gostring) (e : CachedProto) (c : CodeCache) : CodeCache :=
  match protos c !! key with
  | Some _ => with_protos c (<[key := e]> (protos c)) (order c)
  | None =>
      let c := if maxSize c <=? Z.of_nat (size (protos c)) then evictLocked now c else c in
      with_protos c (<[key := e]> (protos c)) (order c ++ [key])
  end.

Definition touch_entry (now : Z) (key : gostring) (c : CodeCache) : CodeCache :=
  with_protos c (alter (accessed now) key (protos c)) (order c).

Definition GetOrCompileInline (now later : Z) (src : gostring) (c : CodeCache) : option proto * CodeCache :=
  let key := generateInlineKey src in
  let compiled :=
    let c := miss c in
    match compile src (go!"<inline>") with
    | None => (None, c)
    | Some p => (Some p, storeLocked later key (mkCached zero_time later later p [] CacheKeyInline) c)
    end in
  match protos c !! key with
  | Some e => if isExpired now c e then compiled else (Some (Proto e), touch_entry now key (hit c))
  | None => compiled
  end.

(** [seen] is the modification time when the entry is checked, [content] what
    [os.ReadFile] gives and [mtime] what [os.Stat] gives after it. *)
Definition GetOrCompileFile (now later : Z) (path : gostring) (seen : option Z) (content : option gostring)
    (mtime : option Z) (c : CodeCache) : option proto * CodeCache :=
  let key := generateFileKey path in
  let compiled :=
    let c := miss c in
    match content, mtime with
    | Some src, Some t =>
        match compile src path with
        | None => (None, c)
        | Some p => (Some p, storeLocked later key (mkCached t later later p path CacheKeyFile) c)
        end
    | _, _ => (None, c)
    end in
  match protos c !! key with
  | Some e =>
      if isExpired now c e || isFileChanged seen c e then compiled else (Some (Proto e), touch_entry now key (hit c))
  | None => compiled
  end.

Definition CodeCache_Stats (c : CodeCache) : Z * Z * Z := (hits c, misses c, Z.of_nat (size (protos c))).
Definition CodeCache_Clear (c : CodeCache) : CodeCache := with_protos c ∅ [].

Inductive op :=
  | OInline (now later : Z) (src : gostring)
  | OFile (now later : Z) (path : gostring) (seen : option Z) (content : option gostring) (mtime : option Z)
  | OClear.

Definition apply_op (c : CodeCache) (o : op) : CodeCache :=
  match o with
  | OInline now later src => (GetOrCompileInline now later src c).2
  | OFile now later path seen content mtime => (GetOrCompileFile now later path seen content mtime c).2
  | OClear => CodeCache_Clear c
  end.

(** ** The order lists the keys, and they are bounded *)

Record cache_ok (c : CodeCache) : Prop := {
  order_nodup : NoDup (order c);
  order_keys k : k ∈ order c ↔ is_Some (protos c !! k);
  cache_size : (zlen (order c) ≤ Z.max 1 (maxSize c)) }.

Lemma order_size c : cache_ok c → Z.of_nat (size (protos c)) = zlen (order c).
Proof.
  intros [Hn Hk _]. rewrite <- (size_dom (D := gset gostring)). f_equal.
  rewrite <- (size_list_to_set (C := gset gostring) (order c)) by done. f_equal. apply set_eq. intros k.
  by rewrite elem_of_dom, elem_of_list_to_set, Hk.
Qed.

Lemma oldest_loop_spec m l k0 t0 :
  let k := oldest_loop m l k0 t0 in
  (k = k0 ∧ (∀ x e, x ∈ l → m !! x = Some e → t0 ≤ AccessAt e)) ∨
  (k ∈ l ∧ ∃ e, m !! k = Some e ∧ AccessAt e < t0 ∧ ∀ x e', x ∈ l → m !! x = Some e' → AccessAt e ≤ AccessAt e').
Proof.
  revert k0 t0. induction l as [|x l IH]; intros k0 t0; cbn [oldest_loop].
  { left. split; [done|]. by intros ? ? ?%elem_of_nil. }
  destruct (m !! x) as [e|] eqn:Ex; [destruct (Z.ltb_spec (AccessAt e) t0) as [Hlt|Hge]|].
  - right. destruct (IH x (AccessAt e)) as [[-> Hmin]|(Hin & e' & He' & Hlt' & Hmin)].
    + split; [by left|]. exists e. split_and!; [done..|]. intros y e' [->|Hy]%elem_of_cons Hm; [by simplify_eq|eauto].
    + split; [by right|]. exists e'. split_and!; [done|lia|]. intros y e'' [->|Hy]%elem_of_cons Hm; [simplify_eq; lia|eauto].
  - destruct (IH k0 t0) as [[-> Hmin]|(Hin & e' & He' & Hlt' & Hmin)]; [left|right].
    + split; [done|]. intros y e' [->|Hy]%elem_of_cons Hm; [by simplify_eq|eauto].
    + split; [by right|]. exists e'. split_and!; [done..|]. intros y e'' [->|Hy]%elem_of_cons Hm; [simplify_eq; lia|eauto].
  - destruct (IH k0 t0) as [[-> Hmin]|(Hin & e' & He' & Hlt' & Hmin)]; [left|right].
    + split; [done|]. intros y e' [->|Hy]%elem_of_cons Hm; [congruence|eauto].
    + split; [by right|]. exists e'. split_and!; [done..|]. intros y e'' [->|Hy]%elem_of_cons Hm; [congruence|eauto].
Qed.

Lemma remove_first_spec k l :
  NoDup l → k ∈ l → NoDup (remove_first k l) ∧ (∀ x, x ∈ remove_first k l ↔ x ∈ l ∧ x ≠ k) ∧
  zlen (remove_first k l) = zlen l - 1.
Proof.
  induction l as [|y l IH]; intros Hn Hk; [by apply elem_of_nil in Hk|]. inversion_clear Hn as [|? ? Hy Hl].
  cbn [remove_first]. case_decide as Hd.
  - subst. split_and!; [done| |cbn; lia]. intros x. rewrite elem_of_cons. naive_solver.
  - apply elem_of_cons in Hk as [->|Hk]; [done|]. destruct (IH Hl Hk) as (Hn' & Hin & Hlen). split_and!.
    + constructor; [|done]. rewrite Hin. naive_solver.
    + intros x. rewrite !elem_of_cons, Hin. naive_solver.
    + cbn in *. lia.
Qed.

(** The key [evictLocked] removes. *)
Definition victim (now : Z) (c : CodeCache) : gostring := oldest_loop (protos c) (order c) (hd [] (order c)) now.

Lemma victim_in now c : order c ≠ [] → victim now c ∈ order c.
Proof.
  intros Hne. unfold victim. destruct (oldest_loop_spec (protos c) (order c) (hd [] (order c)) now) as [[-> _]|[? _]]; [|done].
  destruct (order c); [done|by left].
Qed.

Lemma evict_ok now c :
  cache_ok c → order c ≠ [] →
  cache_ok (evictLocked now c) ∧ zlen (order (evictLocked now c)) = zlen (order c) - 1 ∧
  maxSize (evictLocked now c) = maxSize c ∧ protos (evictLocked now c) = delete (victim now c) (protos c).
Proof.
  intros [Hn Hk Hs] Hne. pose proof (victim_in now c Hne) as Hv. unfold evictLocked.
  destruct (order c) as [|k0 l] eqn:Eo; [done|]. rewrite <- Eo in *.
  assert (victim now c = oldest_loop (protos c) (order c) k0 now) as Hvk by (unfold victim; by rewrite Eo).
  rewrite <- Hvk. destruct (remove_first_spec (victim now c) (order c) Hn Hv) as (Hn' & Hin & Hlen).
  split_and!; [|done..]. split; cbn [with_protos order protos maxSize]; [done| |lia].
  intros k. rewrite Hin, lookup_delete_is_Some, Hk. naive_solver.
Qed.

Lemma store_ok now key e c : cache_ok c → cache_ok (storeLocked now key e c).
Proof.
  intros Hok. pose proof Hok as [Hn Hk Hs]. unfold storeLocked. destruct (protos c !! key) as [e0|] eqn:Ek.
  - split; cbn; [done| |done]. intros k. rewrite Hk, lookup_insert_is_Some'. naive_solver.
  - assert (∀ c', cache_ok c' → key ∉ order c' → zlen (order c') < Z.max 1 (maxSize c') →
      cache_ok (with_protos c' (<[key := e]> (protos c')) (order c' ++ [key]))) as Hins.
    { intros c' [Hn' Hk' Hs'] Hnin Hlt. split; cbn.
      - apply NoDup_app. split_and!; [done| |apply NoDup_singleton]. intros x Hx ->%list_elem_of_singleton. done.
      - intros k. rewrite elem_of_app, list_elem_of_singleton, Hk', lookup_insert_is_Some'. naive_solver.
      - rewrite length_app. cbn. lia. }
    assert (key ∉ order c) as Hnin by (rewrite Hk, Ek; by intros [? [=]]).
    destruct (Z.leb_spec (maxSize c) (Z.of_nat (size (protos c)))) as [Hfull|Hroom].
    + destruct (decide (order c = [])) as [Ho|Ho].
      * assert (evictLocked now c = c) as -> by (unfold evictLocked; by rewrite Ho). apply Hins; [done..|]. rewrite Ho. cbn. lia.
      * destruct (evict_ok now c Hok Ho) as (Hok' & Hlen & Hmax & Hp). apply Hins; [done| |rewrite Hmax; lia].
        destruct Hok' as [_ Hk' _]. rewrite Hk', Hp, lookup_delete_is_Some, Ek. intros [_ [? [=]]].
    + rewrite (order_size c Hok) in Hroom. apply Hins; [done..|lia].
Qed.

Lemma touch_ok now key c : cache_ok c → cache_ok (touch_entry now key c).
Proof.
  intros [Hn Hk Hs]. split; cbn; [done| |done]. intros k. rewrite Hk. destruct (decide (k = key)) as [->|].
  - rewrite lookup_alter_eq, fmap_is_Some. done.
  - by rewrite lookup_alter_ne.
Qed.

Lemma counters_ok c : cache_ok c → cache_ok (hit c) ∧ cache_ok (miss c).
Proof. intros []. by split. Qed.

Lemma apply_op_ok c o : cache_ok c → cache_ok (apply_op c o).
Proof.
  intros Hok. pose proof (counters_ok c Hok) as [Hh Hm].
  destruct o as [now later src|now later path seen content mtime|]; cbn [apply_op].
  - unfold GetOrCompileInline. cbv zeta. repeat case_match; cbn [snd]; auto using store_ok, touch_ok.
  - unfold GetOrCompileFile. cbv zeta. repeat case_match; cbn [snd]; auto using store_ok, touch_ok.
  - split; cbn; [constructor| |lia]. intros k. rewrite elem_of_nil, lookup_empty. split; [done|by intros [? [=]]].
Qed.

(** After any calls the order lists every cached key once, and no more scripts are
    cached than the configured maximum, or one. *)
Theorem code_cache_bounded (sz tt : Z) (watch : bool) (ops : list op) :
  let c := foldl apply_op (NewCodeCache sz tt watch) ops in
  NoDup (order c) ∧ (∀ k, k ∈ order c ↔ is_Some (protos c !! k)) ∧
  (CodeCache_Stats c).2 = zlen (order c) ∧ zlen (order c) ≤ Z.max 1 (maxSize c).
Proof.
  cbv zeta. assert (∀ c, cache_ok c → cache_ok (foldl apply_op c ops)) as Hall.
  { induction ops as [|o ops IH]; intros c Hc; [done|]. cbn [foldl]. by apply IH, apply_op_ok. }
  assert (cache_ok (NewCodeCache sz tt watch)) as H0.
  { split; cbn; [constructor| |lia]. intros k. rewrite elem_of_nil, lookup_empty. split; [done|by intros [? [=]]]. }
  specialize (Hall _ H0). split_and!; [apply Hall..|by apply order_size|apply Hall].
Qed.

(** What a full cache gives up for a new script is an entry that no other was
    accessed before, and nothing else, as long as no access time lies in the future. *)
Theorem eviction_is_lru (now : Z) (key : gostring) (e : CachedProto) (c : CodeCache) :
  cache_ok c → order c ≠ [] → protos c !! key = None → maxSize c ≤ zlen (order c) →
  (∀ k e', protos c !! k = Some e' → AccessAt e' < now) →
  ∃ k v, protos c !! k = Some v ∧ (∀ k' v', protos c !! k' = Some v' → AccessAt v ≤ AccessAt v') ∧
    protos (storeLocked now key e c) = <[key := e]> (delete k (protos c)).
Proof.
  intros Hok Hne Hnew Hfull Hpast. pose proof Hok as [Hn Hk Hs].
  destruct (evict_ok now c Hok Hne) as (_ & _ & _ & Hp).
  assert (∃ v, protos c !! victim now c = Some v) as [v Hv] by (apply Hk, victim_in; done).
  exists (victim now c), v. split_and!; [done| |].
  - intros k' v' Hk'. assert (k' ∈ order c) as Hin by (apply Hk; by eexists).
    destruct (oldest_loop_spec (protos c) (order c) (hd [] (order c)) now) as [[_ Hmin]|(_ & v0 & Hv0 & _ & Hmin)].
    + specialize (Hmin k' v' Hin Hk'). specialize (Hpast k' v' Hk'). lia.
    + fold (victim now c) in Hv0. simplify_eq. eauto.
  - unfold storeLocked. rewrite Hnew, order_size by done. rewrite (proj2 (Z.leb_le _ _)) by done. cbn. by rewrite Hp.
Qed.

(** A file that changes between the reading and the check of its modification time
    is cached in its old form under its new time: every later call that sees that time
    answers with the old script, even with the watch on and for good when scripts do
    not expire. *)
Theorem script_stale_forever (now later now' later' t : Z) (path old new : gostring) (p : proto)
    (seen : option Z) (content : option gostring) (mtime : option Z) (c : CodeCache) :
  protos c !! generateFileKey path = None → fileWatch c = true → ttl c ≤ 0 → compile old path = Some p →
  let c' := (GetOrCompileFile now later path seen (Some old) (Some t) c).2 in
  (GetOrCompileFile now' later' path (Some t) content mtime c').1 = Some p.
Proof.
  intros Hnew Hw Ht Hcomp. cbv zeta. unfold GetOrCompileFile at 2. rewrite Hnew, Hcomp. cbn [snd].
  unfold storeLocked. cbn [miss protos]. rewrite Hnew.
  set (c1 := if _ <=? _ then _ else _). assert (fileWatch c1 = true ∧ ttl c1 ≤ 0) as [Hw1 Ht1].
  { unfold c1, evictLocked. repeat case_match; done. }
  unfold GetOrCompileFile. cbn [with_protos protos]. rewrite lookup_insert_eq. unfold isExpired, isFileChanged, time_after.
  cbn [with_protos ttl fileWatch SourceType ModTime]. rewrite (proj2 (Z.leb_le _ _)) by done. rewrite Hw1, Z.ltb_irrefl. done.
Qed.
End CodeCache.

(** ** Examples: a compiler that keeps the text, the text as its own digest *)

Definition text_compile (src _ : gostring) : option gostring := Some src.
Definition ex_code : CodeCache :=
  foldl (apply_op (λ s, s) text_compile) (NewCodeCache 2 0 true)
    [OInline 1 2 (go!"a"); OInline 3 4 (go!"b"); OInline 5 6 (go!"a")].

(** The first script was used again since, so the second goes. *)
Lemma eviction_is_lru_witness :
  ∃ k v, protos ex_code !! k = Some v ∧ (∀ k' v', protos ex_code !! k' = Some v' → AccessAt v ≤ AccessAt v') ∧
    protos (storeLocked 9 (go!"nhli_c") (mkCached 0 9 9 (go!"c") [] CacheKeyInline) ex_code) =
      <[go!"nhli_c" := mkCached 0 9 9 (go!"c") [] CacheKeyInline]> (delete k (protos ex_code)).
Proof.
  apply (eviction_is_lru (λ s, s) text_compile 9 (go!"nhli_c") (mkCached 0 9 9 (go!"c") [] CacheKeyInline) ex_code).
  - repeat apply apply_op_ok. split; [constructor| |by vm_compute]. intros k. cbn. rewrite elem_of_nil, lookup_empty.
    split; [done|by intros [? [=]]].
  - by vm_compute.
  - by vm_compute.
  - by vm_compute.
  - intros k e' Hk. assert (map_Forall (λ _ e, AccessAt e < 9) (protos ex_code)) as Hall.
    { apply (bool_decide_unpack _). by vm_compute. }
    by apply (Hall k e').
Defined.

Lemma script_stale_forever_witness :
  (GetOrCompileFile (λ s, s) text_compile 50 60 (go!"/s.lua") (Some 10) (Some (go!"new")) (Some 10)
    (GetOrCompileFile (λ s, s) text_compile 1 2 (go!"/s.lua") None (Some (go!"old")) (Some 10) (NewCodeCache 2 0 true)).2).1
  = Some (go!"old").
Proof. by apply (script_stale_forever (λ s, s) text_compile 1 2 50 60 10 (go!"/s.lua") (go!"old") (go!"new")). Defined.
