(* ===== verification/Rewrite.v ===== *)
(** * Rewrite: the URL rewriting middleware

    [src/internal/middleware/rewrite/rewrite.go].  The regular expressions are those
    of [Location], [ReplaceAllString] a parameter beside them; what the request is,
    its path, and setting its URI (fasthttp parses it) are parameters too, and so is
    the expansion of variables, which reads the request.  The loop is the source's,
    with an index and a counter; it is shown to end and to be the search of the first
    rule that matches, restarted at most [MaxRewriteIterations] times. *)

From S2P Require Import Prelude GoStrings Location Config ReqVars.

Inductive Flag := FlagLast | FlagRedirect | FlagPermanent | FlagBreak.

Definition parseFlag (s : gostring) : Flag :=
  let s := ToLower s in
  if decide (s = go!"redirect") then FlagRedirect
  else if decide (s = go!"permanent") then FlagPermanent
  else if decide (s = go!"break") then FlagBreak
  else FlagLast.

Definition MaxRewriteIterations : nat := 10.

Definition dangerousPatterns : list gostring :=
  [go!"(\w+)+"; go!"(\d+)+"; go!"(a+)+"; go!"(.+)+"; go!"(\w*)*"; go!"(\d*)*"; go!"(a*)*"; go!"(.*)*";
   go!"(\w+)?+"; go!"(\d+)?+"].

(** Is the pattern refused? *)
Definition validateRegexSafety (pattern : gostring) : bool :=
  (1000 <? length pattern)%nat || existsb (GoStrings.Contains pattern) dangerousPatterns.

Inductive rewrite_error := ErrUnsafe (pattern : gostring) | ErrCompile (pattern : gostring).

Section Rewrite.
Context `{Regexp} (ReplaceAllString : regexp → gostring → gostring → gostring).
Context {R : Type} (Path : R → gostring) (SetRequestURI : R → gostring → R) (expand : R → gostring → gostring).

Record Rule := mkRule { pattern : regexp; replacement : gostring; flag : Flag }.

Fixpoint compile_rules (rules : list RewriteRule) (compiled : list Rule) : res rewrite_error (list Rule) :=
  match rules with
  | [] => Ok compiled
  | r :: rules =>
      if validateRegexSafety (rw_Pattern r) then Err (ErrUnsafe (rw_Pattern r))
      else match regexp_Compile (rw_Pattern r) with
           | None => Err (ErrCompile (rw_Pattern r))
           | Some re => compile_rules rules (compiled ++ [mkRule re (rw_Replacement r) (parseFlag (rw_Flag r))])
           end
  end.

Definition New (rules : list RewriteRule) : res rewrite_error (list Rule) := compile_rules rules [].

(** What the middleware does with the request. *)
Inductive outcome :=
  | Failed500
  | Redirected (location : gostring) (permanent : bool)
  | Passed (r : R).

Record state := mkState { iterationCount : nat; ruleIndex : nat; path : gostring; req : R }.

(** The replacement in a path, its variables expanded. *)
Definition new_path (rule : Rule) (s : state) : gostring :=
  expand (req s) (ReplaceAllString (pattern rule) (path s) (replacement rule)).

(** One turn of the loop, for a rule index within the rules. *)
Definition turn (rule : Rule) (s : state) : state + outcome :=
  if (MaxRewriteIterations <=? iterationCount s)%nat then inr Failed500
  else if MatchString (pattern rule) (path s) then
    let p := new_path rule s in
    match flag rule with
    | FlagRedirect => inr (Redirected p false)
    | FlagPermanent => inr (Redirected p true)
    | FlagBreak => inr (Passed (SetRequestURI (req s) p))
    | FlagLast => inl (mkState (S (iterationCount s)) 0 p (SetRequestURI (req s) p))
    end
  else inl (mkState (iterationCount s) (S (ruleIndex s)) (path s) (req s)).

Fixpoint loop (fuel : nat) (rules : list Rule) (originalPath : gostring) (s : state) : option outcome :=
  match fuel with
  | O => None
  | S fuel =>
      match rules !! ruleIndex s with
      | Some rule =>
          match turn rule s with inl s => loop fuel rules originalPath s | inr o => Some o end
      | None =>
          Some (Passed (if decide (path s ≠ originalPath) then SetRequestURI (req s) (path s) else req s))
      end
  end.

(** Each restart scans the rules once. *)
Definition enough (rules : list Rule) : nat := S (S MaxRewriteIterations * S (length rules)).

Definition Process (rules : list Rule) (r : R) : option outcome :=
  loop (enough rules) rules (Path r) (mkState 0 0 (Path r) r).

(** ** What the loop computes *)

Definition first_match (rules : list Rule) (p : gostring) : option Rule :=
  head (filter (λ r, MatchString (pattern r) p = true) rules).

(** The first rule that matches decides; a rule flagged last starts over on the new
    path, [n] times at most. *)
Fixpoint rewrites (n : nat) (rules : list Rule) (originalPath p : gostring) (r : R) : outcome :=
  match rules with
  | [] => Passed (if decide (p ≠ originalPath) then SetRequestURI r p else r)
  | _ =>
      match n with
      | O => Failed500
      | S n =>
          match first_match rules p with
          | None => Passed (if decide (p ≠ originalPath) then SetRequestURI r p else r)
          | Some rule =>
              let q := new_path rule (mkState 0 0 p r) in
              match flag rule with
              | FlagRedirect => Redirected q false
              | FlagPermanent => Redirected q true
              | FlagBreak => Passed (SetRequestURI r q)
              | FlagLast => rewrites n rules originalPath q (SetRequestURI r q)
              end
          end
      end
  end.

(** From rule [i] on, with [n] restarts left. *)
Lemma loop_scan n rules orig i p r fuel :
  (n < MaxRewriteIterations)%nat → (i ≤ length rules)%nat → (S n * S (length rules) - i < fuel)%nat → rules ≠ [] →
  (∀ p' r' fuel', (n * S (length rules) < fuel')%nat →
     loop fuel' rules orig (mkState (MaxRewriteIterations - n) 0 p' r') = Some (rewrites n rules orig p' r')) →
  loop fuel rules orig (mkState (MaxRewriteIterations - S n) i p r) =
    Some (match first_match (drop i rules) p with
          | None => Passed (if decide (p ≠ orig) then SetRequestURI r p else r)
          | Some rule =>
              let q := new_path rule (mkState 0 0 p r) in
              match flag rule with
              | FlagRedirect => Redirected q false
              | FlagPermanent => Redirected q true
              | FlagBreak => Passed (SetRequestURI r q)
              | FlagLast => rewrites n rules orig q (SetRequestURI r q)
              end
          end).
Proof.
  intros Hn Hi Hf Hne Hrest. remember (length rules - i)%nat as k eqn:Hk. revert i fuel Hi Hf Hk.
  induction k as [|k IH]; intros i fuel Hi Hf Hk; (destruct fuel as [|fuel]; [lia|]); cbn [loop ruleIndex].
  - rewrite lookup_ge_None_2, drop_ge by lia. done.
  - destruct (rules !! i) as [rule|] eqn:Er; [|apply lookup_ge_None in Er; lia].
    rewrite (drop_S rules rule i) by done. unfold turn. cbn [iterationCount path].
    rewrite (proj2 (Nat.leb_gt _ _)) by lia. unfold first_match.
    destruct (MatchString (pattern rule) p) eqn:Em.
    + rewrite filter_cons_True by done. cbn [head]. cbv zeta.
      change (new_path rule (mkState (MaxRewriteIterations - S n) i p r)) with (new_path rule (mkState 0 0 p r)).
      destruct (flag rule); try done. cbn [req iterationCount].
      replace (S (MaxRewriteIterations - S n)) with (MaxRewriteIterations - n)%nat by lia. apply Hrest. nia.
    + rewrite filter_cons_False by congruence. cbn [ruleIndex req]. apply IH; nia.
Qed.

Lemma loop_rewrites n rules orig p r fuel :
  (n ≤ MaxRewriteIterations)%nat → (n * S (length rules) < fuel)%nat →
  loop fuel rules orig (mkState (MaxRewriteIterations - n) 0 p r) = Some (rewrites n rules orig p r).
Proof.
  revert p r fuel. induction n as [|n IH]; intros p r fuel Hn Hf; (destruct fuel as [|fuel]; [lia|]).
  - cbn [loop ruleIndex]. destruct rules as [|rule rules]; [done|]. cbn [lookup list_lookup]. unfold turn.
    cbn [iterationCount]. by rewrite (proj2 (Nat.leb_le _ _)) by lia.
  - destruct rules as [|rule rules]; [done|]. rewrite (loop_scan n (rule :: rules)); [done|lia|lia| |done|].
    + cbn [length] in *. nia.
    + intros p' r' fuel' Hf'. apply IH; [lia|done].
Qed.

(** The middleware always comes to an end, and does what the rules say: the first
    rule that matches the path redirects, breaks, or rewrites and starts over; after
    ten rewrites the request fails, and with no match it passes with the last path. *)
Theorem rewrite_terminates (rules : list Rule) (r : R) :
  Process rules r = Some (rewrites MaxRewriteIterations rules (Path r) (Path r) r).
Proof.
  unfold Process. rewrite <- (Nat.sub_diag MaxRewriteIterations) at 1. apply loop_rewrites; [done|]. unfold enough. lia.
Qed.

End Rewrite.

(** Text of the client is read as a template: what a group of the pattern captures
    from the path is expanded like the configuration's own text, so that a redirect
    built from it gives the client the value of any variable it names. *)
Theorem captured_text_is_expanded `{Regexp} (ReplaceAllString : regexp → gostring → gostring → gostring)
    {R : Type} (Path : R → gostring) (SetRequestURI : R → gostring → R)
    (lookup : R → gostring → option gostring * R) (rule : Rule) (rules : list Rule) (r : R) (pre name value : gostring) :
  flag rule = FlagRedirect → MatchString (pattern rule) (Path r) = true →
  ReplaceAllString (pattern rule) (Path r) (replacement rule) = render [Lit pre; Braced name] →
  well_formed [Lit pre; Braced name] = true → (lookup r name).1 = Some value →
  Process ReplaceAllString Path SetRequestURI (λ r t, (expandCore lookup true r t).1) (rule :: rules) r =
    Some (Redirected (pre ++ value) false).
Proof.
  intros Hf Hm Hrep Hwf Hv. rewrite rewrite_terminates. unfold MaxRewriteIterations. cbn [rewrites]. unfold first_match.
  rewrite filter_cons_True by done. cbn [head]. rewrite Hf. unfold new_path. cbn [path req].
  rewrite Hrep, expand_segments by done. cbn [evaluate]. destruct (lookup r name) as [o r']. cbn in Hv. subst o.
  cbn. by rewrite app_nil_r.
Qed.

(** ** Example: a rule that sends everything below one prefix to another *)

#[local] Instance prefix_regexp : Regexp := {|
  regexp := gostring; regexp_Compile p := Some p; MatchString p s := HasPrefix s p;
  FindStringSubmatch _ _ := None; SubexpNames _ := []; regexp_String p := p |}.

(** A pattern that captures what follows the prefix, and a replacement that ends in
    [$1]. *)
Definition replace_prefix (p s repl : gostring) : gostring := repl ++ drop (length p) s.

Definition ex_rules : list Rule := default [] (match New [mkRewriteRule (go!"/old/") (go!"/new/") (go!"redirect")] with Ok l => Some l | Err _ => None end).

Lemma captured_text_is_expanded_witness :
  Process replace_prefix (λ r, r) (λ _ p, p) (λ r t, (expandCore (λ s n, (if decide (n = go!"hostname") then Some (go!"web-7") else None, s)) true r t).1)
    ex_rules (go!"/old/${hostname}") = Some (Redirected (go!"/new/web-7") false).
Proof.
  by apply (@captured_text_is_expanded prefix_regexp replace_prefix gostring (λ r, r) (λ _ p, p)
    (λ s n, (if decide (n = go!"hostname") then Some (go!"web-7") else None, s))
    (@mkRule prefix_regexp (go!"/old/") (go!"/new/") FlagRedirect) [] (go!"/old/${hostname}") (go!"/new/") (go!"hostname") (go!"web-7")).
Defined.

(** Ten rewrites are the limit: the eleventh turn fails even when no rule matches. *)
Example ex_limit :
  let rules := [mkRule (go!"a") (go!"") FlagLast] in
  let run p := Process replace_prefix (λ r, r) (λ _ p, p) (λ _ t, t) rules p in
  run (go!"aaaaaaaaab") = Some (Passed (go!"b")) ∧ run (go!"aaaaaaaaaab") = Some Failed500.
Proof. by vm_compute. Qed.
