(* ===== verification/ProxyHeaders.v ===== *)
(** * ProxyHeaders: what the proxy changes in requests and responses

    [src/internal/proxy/headers.go] (the forwarded headers), [header_modifier.go]
    (configured headers, cookie attributes) and [redirect_rewrite.go] (Location and
    Refresh).  Headers are a map from their names in lower case, which is how fasthttp
    compares them, [Peek] of an absent header the empty text.  The expansion of
    variables is a parameter, as is the order in which Go ranges over a map. *)

From S2P Require Import Prelude GoStrings Location Target Config VHost Selector.

Abbreviation headers := (gmap gostring gostring).

Definition Peek (h : headers) (k : gostring) : gostring := default [] (h !! ToLower k).
Definition HSet (h : headers) (k v : gostring) : headers := <[ToLower k := v]> h.
Definition Del (h : headers) (k : gostring) : headers := delete (ToLower k) h.

(** ** [headers.go] *)

Record ForwardedHeaders := mkForwarded { fh_ClientIP : gostring; fh_Host : gostring; fh_Proto : gostring }.

Definition ExtractForwardedHeaders (c : ctx) (host : gostring) (tls : bool) : ForwardedHeaders :=
  mkForwarded (ExtractClientIP c) host (if tls then go!"https" else go!"http").

Definition SetForwardedHeaders (h : headers) (fh : ForwardedHeaders) (appendXFF setHost setProto : bool) : headers :=
  let ip := fh_ClientIP fh in
  let h := if decide (ip = []) then h else HSet h (go!"X-Real-IP") ip in
  let h :=
    if decide (ip = []) then h
    else
      let existing := Peek h (go!"X-Forwarded-For") in
      if appendXFF && bool_decide (existing ≠ []) then HSet h (go!"X-Forwarded-For") (existing ++ go!", " ++ ip)
      else HSet h (go!"X-Forwarded-For") ip in
  let h := if setHost && bool_decide (fh_Host fh ≠ []) then HSet h (go!"X-Forwarded-Host") (fh_Host fh) else h in
  if setProto && bool_decide (fh_Proto fh ≠ []) then HSet h (go!"X-Forwarded-Proto") (fh_Proto fh) else h.

Definition SetRequestIDHeader (h : headers) (id : gostring) : headers :=
  if decide (id = []) then h else HSet h (go!"X-Request-ID") id.

Definition crlf : gostring := ["013"%char; "010"%char].

Definition WriteForwardedHeaders (builder : gostring) (fh : ForwardedHeaders) (setHost setProto : bool) : gostring :=
  builder ++
  (if decide (fh_ClientIP fh = []) then []
   else go!"X-Forwarded-For: " ++ fh_ClientIP fh ++ crlf ++ go!"X-Real-IP: " ++ fh_ClientIP fh ++ crlf) ++
  (if setHost && bool_decide (fh_Host fh ≠ []) then go!"X-Forwarded-Host: " ++ fh_Host fh ++ crlf else []) ++
  (if setProto && bool_decide (fh_Proto fh ≠ []) then go!"X-Forwarded-Proto: " ++ fh_Proto fh ++ crlf else []).

(** ** [header_modifier.go] *)

Definition containsCRLF (s : gostring) : bool := ContainsByte s "013" || ContainsByte s "010".

Definition isInWhitelist (key : gostring) (whitelist : gset gostring) : bool :=
  existsb (EqualFold key) (elements whitelist).

(** The value ends at a semicolon or a blank. *)
Fixpoint value_end (s : gostring) : nat :=
  match s with
  | [] => 0
  | c :: s => if Ascii.eqb c ";" || Ascii.eqb c " " then 0%nat else S (value_end s)
  end.

Definition rewriteCookieAttr (cookie attr newValue : gostring) : gostring :=
  let prefix := attr ++ go!"=" in
  match Index (ToLower cookie) (ToLower prefix) with
  | None => cookie
  | Some idx =>
      let start := (idx + length prefix)%nat in
      let stop := (start + value_end (drop start cookie))%nat in
      take start cookie ++ newValue ++ drop stop cookie
  end.

Definition rewriteCookies (hd : ProxyHeaders) (cookies : list gostring) : list gostring :=
  (λ c,
    let c := if decide (hd_CookieDomain hd = []) then c else rewriteCookieAttr c (go!"Domain") (hd_CookieDomain hd) in
    if decide (hd_CookiePath hd = []) then c else rewriteCookieAttr c (go!"Path") (hd_CookiePath hd)) <$> cookies.

Section Modify.
Context (expand : gostring → gostring) (range : gmap gostring gostring → list gostring).

(** The loops over [SetRequest] and [SetResponse]. *)
Definition set_configured (configured : gmap gostring gostring) (h : headers) : headers :=
  foldl (λ h k,
    let v := expand (default [] (configured !! k)) in if containsCRLF v then h else HSet h k v) h (range configured).

Definition modifyRequestHeaders (hd : ProxyHeaders) (target : Target) (fh : ForwardedHeaders) (request_id : gostring)
    (h : headers) : headers :=
  let targetHost := (ParseTargetURL (URL target) false).1 in
  let h := if decide (targetHost = []) then h else HSet h (go!"Host") targetHost in
  let h := SetForwardedHeaders h fh true (default true (hd_SetForwardedHost hd)) (default true (hd_SetForwardedProto hd)) in
  let h := SetRequestIDHeader h request_id in
  let h := set_configured (hd_SetRequest hd) h in
  foldl Del h (hd_Remove hd).

(** The headers of the request and of the response, and the response's cookies. *)
Definition modifyResponseHeaders (hd : ProxyHeaders) (rq rs : headers) (cookies : list gostring)
  : headers * headers * list gostring :=
  let passSet := list_to_set (hd_PassResponse hd) : gset gostring in
  let rs := if decide (passSet = ∅) then rs else filter (λ e, isInWhitelist e.1 passSet = true) rs in
  let rs := foldl (λ rs k, if decide (k ∈ passSet) then rs else Del rs k) rs (hd_HideResponse hd) in
  let rq := foldl Del rq (hd_IgnoreHeaders hd) in
  let rs := foldl (λ rs k, if decide (k ∈ passSet) then rs else Del rs k) rs (hd_IgnoreHeaders hd) in
  let cookies := rewriteCookies hd cookies in
  (rq, set_configured (hd_SetResponse hd) rs, cookies).
End Modify.

(** ** [redirect_rewrite.go] *)

Section Redirect.
Context `{Regexp} (FindStringIndex : regexp → gostring → option (nat * nat)).

Record compiledRule := mkCompiled {
  cr_pattern : option regexp; cr_replacement : gostring; cr_exactMatch : gostring; cr_caseInsensitive : bool }.

Record RedirectRewriter := mkRewriter { rd_proxyPath : gostring; rd_mode : gostring; rd_rules : list compiledRule }.

Fixpoint compile_redirects (rules : list RedirectRewriteRule) : option (list compiledRule) :=
  match rules with
  | [] => Some []
  | r :: rules =>
      let p := rrr_Pattern r in
      cr ← (if HasPrefix p (go!"~") then
              let caseless := HasPrefix p (go!"~*") in
              re ← regexp_Compile (if caseless then drop 2 p else drop 1 p);
              Some (mkCompiled (Some re) (rrr_Replacement r) [] caseless)
            else Some (mkCompiled None (rrr_Replacement r) p false));
      crs ← compile_redirects rules; Some (cr :: crs)
  end.

Definition NewRedirectRewriter (cfg : option RedirectRewriteConfig) (proxyPath : gostring) : option RedirectRewriter :=
  match cfg with
  | None => Some (mkRewriter proxyPath (go!"default") [])
  | Some cfg =>
      if decide (rr_Mode cfg = go!"custom") then
        rules ← compile_redirects (rr_Rules cfg); Some (mkRewriter proxyPath (rr_Mode cfg) rules)
      else Some (mkRewriter proxyPath (rr_Mode cfg) [])
  end.

Definition Redirect_Mode (r : RedirectRewriter) : gostring :=
  if decide (rd_mode r = []) then go!"default" else rd_mode r.

Definition rewriteDefault (headerValue : gostring) (tls : bool) (targetURL originalClientHost : gostring) : gostring :=
  if decide (targetURL = []) then headerValue
  else if HasPrefix headerValue targetURL then
    let remaining := drop (length targetURL) headerValue in
    let replaced := (if tls then go!"https" else go!"http") ++ go!"://" ++ originalClientHost ++ remaining in
    match remaining with
    | [] => replaced
    | c :: _ => if Ascii.eqb c "/" || Ascii.eqb c "?" || Ascii.eqb c "#" then replaced else headerValue
    end
  else headerValue.

Context (expand : gostring → gostring).

Definition splice (s : gostring) (loc : nat * nat) (mid : gostring) : gostring := take loc.1 s ++ mid ++ drop loc.2 s.

Fixpoint rewriteCustom (rules : list compiledRule) (headerValue : gostring) : gostring :=
  match rules with
  | [] => headerValue
  | rule :: rules =>
      match cr_pattern rule with
      | Some re =>
          match FindStringIndex re (if cr_caseInsensitive rule then ToLower headerValue else headerValue) with
          | Some loc => splice headerValue loc (expand (cr_replacement rule))
          | None => rewriteCustom rules headerValue
          end
      | None =>
          if bool_decide (cr_exactMatch rule ≠ []) && HasPrefix headerValue (cr_exactMatch rule) then
            expand (cr_replacement rule) ++ TrimPrefix headerValue (cr_exactMatch rule)
          else rewriteCustom rules headerValue
      end
  end.

Definition rewriteURL (r : RedirectRewriter) (headerValue : gostring) (tls : bool) (targetURL host : gostring) : gostring :=
  if decide (headerValue = []) then []
  else
    let mode := Redirect_Mode r in
    if decide (mode = go!"off") then headerValue
    else if decide (mode = go!"custom") then rewriteCustom (rd_rules r) headerValue
    else if decide (mode = go!"default") then rewriteDefault headerValue tls targetURL host
    else headerValue.

Definition quote : ascii := "034".
Definition apostrophe : ascii := "039".

Definition quoted_by (q : ascii) (s : gostring) : bool := bool_decide (head s = Some q ∧ last s = Some q).

(** The delay, the URL, and whether the value could be read. *)
Definition parseRefreshHeader (value : gostring) : gostring * gostring * bool :=
  let value := TrimSpace value in
  if decide (value = []) then ([], [], false)
  else match Index (ToLower value) (go!"url=") with
       | None => (value, [], true)
       | Some i =>
           let delay := TrimSpace (TrimSuffix (TrimSpace (take i value)) (go!";")) in
           if decide (delay = []) then ([], [], false)
           else
             let url := TrimSpace (drop (i + 4) value) in
             let url :=
               if (2 <=? length url)%nat && (quoted_by quote url || quoted_by apostrophe url)
               then take (length url - 2) (drop 1 url) else url in
             (delay, url, true)
       end.

Definition rewriteRefresh (r : RedirectRewriter) (value : gostring) (tls : bool) (targetURL host : gostring) : gostring :=
  let '(delay, url, valid) := parseRefreshHeader value in
  if negb valid || bool_decide (url = []) then value
  else
    let rewritten := rewriteURL r url tls targetURL host in
    if decide (rewritten = url) then value else delay ++ go!"; url=" ++ rewritten.

Definition RewriteRefreshOnly (r : RedirectRewriter) (h : headers) (tls : bool) (targetURL host : gostring) : headers :=
  let refresh := Peek h (go!"Refresh") in
  if decide (refresh = []) then h
  else
    let rewritten := rewriteRefresh r refresh tls targetURL host in
    if decide (rewritten = []) then h else HSet h (go!"Refresh") rewritten.

Definition RewriteResponse (r : RedirectRewriter) (status : Z) (h : headers) (tls : bool) (targetURL host : gostring) : headers :=
  let h :=
    if (300 <=? status) && (status <? 400) then
      let location := Peek h (go!"Location") in
      if decide (location = []) then h
      else
        let rewritten := rewriteURL r location tls targetURL host in
        if decide (rewritten = []) then h else HSet h (go!"Location") rewritten
    else h in
  RewriteRefreshOnly r h tls targetURL host.
End Redirect.

(** ** Properties *)

Lemma Peek_set h k v k' : Peek (HSet h k v) k' = if decide (ToLower k = ToLower k') then v else Peek h k'.
Proof.
  unfold Peek, HSet. case_decide as Hd; [rewrite Hd, lookup_insert_eq; done|by rewrite lookup_insert_ne].
Qed.

(** A client decides who the back end believes it is: of a request that comes with
    an X-Forwarded-For header, the first entry becomes X-Real-IP and is appended to
    the list, and the address the request came from is in no header. *)
Theorem forwarded_for_hides_peer (c : ctx) (peer host : gostring) (tls : bool) (h : headers) (rest spoof : gostring) :
  cx_xff c = spoof ++ ","%char :: rest → "," %char ∉ spoof → TrimSpace spoof = spoof → spoof ≠ [] →
  Peek h (go!"X-Forwarded-For") = cx_xff c →
  let c' := mkCtx (cx_xff c) (cx_xri c) peer (cx_uri c) (cx_header c) (cx_cookie c) in
  let out c := SetForwardedHeaders h (ExtractForwardedHeaders c host tls) true true true in
  out c' = out c ∧ Peek (out c) (go!"X-Real-IP") = spoof ∧
  Peek (out c) (go!"X-Forwarded-For") = cx_xff c ++ go!", " ++ spoof.
Proof.
  intros Hx Hc Ht Hne Hp. cbv zeta.
  assert (∀ p, ExtractClientIP (mkCtx (cx_xff c) (cx_xri c) p (cx_uri c) (cx_header c) (cx_cookie c)) = spoof) as He.
  { intros p. unfold ExtractClientIP. cbn [cx_xff]. rewrite Hx, decide_True by by destruct spoof.
    by rewrite SplitByte_app. }
  assert (ExtractClientIP c = spoof) as He' by (rewrite <- (He (cx_peer c)); by destruct c).
  unfold ExtractForwardedHeaders. rewrite He, He'. split; [done|].
  unfold SetForwardedHeaders. cbn [fh_ClientIP fh_Host fh_Proto andb]. cbv zeta. rewrite !(decide_False (P := spoof = [])) by done.
  rewrite Peek_set, decide_False by done. assert (cx_xff c ≠ []) as Hxne by (rewrite Hx; by destruct spoof). rewrite Hp, (bool_decide_true _ Hxne).
  split; repeat case_bool_decide; rewrite !Peek_set, ?(decide_False (P := ToLower _ = ToLower _)) by done; done.
Qed.

(** What may follow an address in a URL. *)
Definition delimited (s : gostring) : bool :=
  match s with [] => true | c :: _ => Ascii.eqb c "/" || Ascii.eqb c "?" || Ascii.eqb c "#" end.

(** In the default mode exactly the redirects to the target itself are rewritten:
    a URL that is the target's followed by a path, a query, a fragment or nothing
    keeps what follows under the client's host, and every other URL is unchanged, one
    whose host merely begins like the target's included. *)
Theorem default_redirects (u host target : gostring) (tls : bool) :
  (∀ rest, u = target ++ rest → target ≠ [] → delimited rest = true →
     rewriteDefault u tls target host = (if tls then go!"https" else go!"http") ++ go!"://" ++ host ++ rest) ∧
  ((target = [] ∨ ∀ rest, u = target ++ rest → delimited rest = false) → rewriteDefault u tls target host = u).
Proof.
  unfold rewriteDefault. split.
  - intros rest -> Hne Hd. rewrite decide_False by done. rewrite HasPrefix_app, drop_app_length.
    destruct rest as [|c rest]; [done|]. cbn [delimited] in Hd. by rewrite Hd.
  - intros Hno. case_decide; [done|]. destruct Hno as [|Hno]; [done|]. destruct (HasPrefix u target) eqn:Hp; [|done].
    apply HasPrefix_spec in Hp as [rest Hr]. specialize (Hno rest Hr). rewrite Hr, drop_app_length.
    destruct rest as [|c rest]; [done|]. cbn [delimited] in Hno. by rewrite Hno.
Qed.

(** A caseless rule compares its pattern, as written, with the value in lower case:
    a pattern that needs a capital letter never matches, whatever the header. *)
Theorem caseless_capital_never_matches `{Regexp} (FindStringIndex : regexp → gostring → option (nat * nat))
    (expand : gostring → gostring) (re : regexp) (repl value : gostring) (rules : list compiledRule) :
  (∀ s loc, FindStringIndex re s = Some loc → ∃ c, c ∈ s ∧ is_upper c = true) →
  rewriteCustom FindStringIndex expand (mkCompiled (Some re) repl [] true :: rules) value =
    rewriteCustom FindStringIndex expand rules value.
Proof.
  intros Hcap. cbn [rewriteCustom cr_pattern cr_caseInsensitive].
  destruct (FindStringIndex re (ToLower value)) as [loc|] eqn:E; [|done].
  apply Hcap in E as (c & Hc & Hu). by rewrite (ToLower_no_upper _ _ Hc) in Hu.
Qed.

(** An attribute is found by its name anywhere in the cookie: the value of a cookie
    named subdomain is replaced and its Domain attribute is not. *)
Theorem cookie_attr_in_name :
  rewriteCookieAttr (go!"subdomain=eu; Domain=backend") (go!"Domain") (go!"example.com") =
    go!"subdomain=example.com; Domain=backend".
Proof. reflexivity. Qed.

(** ** Examples *)

Lemma forwarded_for_hides_peer_witness :
  Peek (SetForwardedHeaders (HSet ∅ (go!"X-Forwarded-For") (go!"10.0.0.1, 9.9.9.9"))
    (ExtractForwardedHeaders (mkCtx (go!"10.0.0.1, 9.9.9.9") [] (go!"203.0.113.5") [] (λ _, []) (λ _, [])) (go!"h") false)
    true true true) (go!"X-Real-IP") = go!"10.0.0.1".
Proof.
  refine (proj1 (proj2 (forwarded_for_hides_peer (mkCtx (go!"10.0.0.1, 9.9.9.9") [] (go!"203.0.113.5") [] (λ _, []) (λ _, []))
    (go!"198.51.100.7") (go!"h") false (HSet ∅ (go!"X-Forwarded-For") (go!"10.0.0.1, 9.9.9.9")) (go!" 9.9.9.9") (go!"10.0.0.1")
    _ _ _ _ _))); [done| |done|done|done].
  vm_compute. set_solver.
Defined.

#[local] Instance literal_regexp : Regexp := {|
  regexp := gostring; regexp_Compile p := Some p; MatchString p s := Contains s p;
  FindStringSubmatch _ _ := None; SubexpNames _ := []; regexp_String p := p |}.

Definition literal_index (p s : gostring) : option (nat * nat) := (λ i, (i, i + length p)%nat) <$> Index s p.

Lemma caseless_capital_never_matches_witness :
  rewriteCustom literal_index (λ t, t) [mkCompiled (Some (go!"Backend")) (go!"x") [] true] (go!"http://Backend/") = go!"http://Backend/".
Proof.
  apply (@caseless_capital_never_matches literal_regexp literal_index (λ t, t) (go!"Backend")).
  intros s loc. unfold literal_index. destruct (Index s (go!"Backend")) as [i|] eqn:E; [|done]. intros _.
  apply Index_spec in E as ([rest Hr] & _). exists "B"%char. split; [|done].
  rewrite <- (take_drop i s), Hr. apply elem_of_app. right. by left.
Defined.
