(* ===== verification/Stream.v ===== *)
(** * Stream: the TCP and UDP proxy

    [src/internal/stream/stream.go]: the four selection algorithms of the transport
    layer, the upstreams and their health checks, TCP connections and UDP sessions
    with their counters.  The server is a machine whose events are the steps of its
    goroutines: an accepted connection, the stages of its handler, a datagram, the end
    of a reader, a round of the cleanup or of the health checks.  Dialling, listening
    and resolving succeed or fail as the event says.  Upstreams, sessions and targets
    are objects in a store, as the source shares them by pointer; the counters of
    connections stay far below their 64 bits and are not wrapped. *)

From S2P Require Import Prelude Hash.

(** ** Targets and algorithms *)

Record Target := mkTarget { addr : gostring; weight : Z; healthy : bool; conns : Z }.

Abbreviation ptr := nat.
Abbreviation targets_heap := (gmap ptr Target).

Definition tget (h : targets_heap) (p : ptr) : Target := default (mkTarget [] 0 false 0) (h !! p).
Definition set_health (b : bool) (t : Target) : Target := mkTarget (addr t) (weight t) b (conns t).
Definition add_conns (d : Z) (t : Target) : Target := mkTarget (addr t) (weight t) (healthy t) (conns t + d).

Inductive Balancer := roundRobin (counter : Z) | leastConn | weightedRoundRobin (counter : Z) | ipHash.

Definition is_healthy (h : targets_heap) (p : ptr) : bool := healthy (tget h p).
Definition healthy_targets (h : targets_heap) (l : list ptr) : list ptr := filter (λ p, is_healthy h p = true) l.

Definition least_step (h : targets_heap) (acc : option (ptr * Z)) (p : ptr) : option (ptr * Z) :=
  if negb (is_healthy h p) then acc
  else
    let c := conns (tget h p) in
    match acc with
    | None => Some (p, c)
    | Some (_, m) => if c <? m then Some (p, c) else acc
    end.

Definition target_weight (h : targets_heap) (p : ptr) : Z :=
  if weight (tget h p) <=? 0 then 1 else weight (tget h p).

Fixpoint weighted_loop (h : targets_heap) (l : list ptr) (pos currentWeight : Z) (last : option ptr) : option ptr :=
  match l with
  | [] => last
  | p :: l =>
      let currentWeight := currentWeight + target_weight h p in
      if pos <? currentWeight then Some p else weighted_loop h l pos currentWeight last
  end.

(** [SelectByIP] of the IP hash. *)
Definition SelectByIP (h : targets_heap) (l : list ptr) (clientIP : gostring) : option ptr :=
  match healthy_targets h l with
  | [] => None
  | hl => hl !! Z.to_nat (FNV64a clientIP mod zlen hl)
  end.

Definition Balancer_Select (b : Balancer) (h : targets_heap) (l : list ptr) : option ptr * Balancer :=
  match b with
  | roundRobin c =>
      match healthy_targets h l with
      | [] => (None, b)
      | hl => (hl !! Z.to_nat (c mod zlen hl), roundRobin (wrap64 (c + 1)))
      end
  | leastConn => (fst <$> foldl (least_step h) None l, leastConn)
  | weightedRoundRobin c =>
      match healthy_targets h l with
      | [] => (None, b)
      | hl =>
          let total := foldr (λ p n, target_weight h p + n) 0 hl in
          (weighted_loop h hl (c mod total) 0 (last hl), weightedRoundRobin (wrap64 (c + 1)))
      end
  | ipHash => (SelectByIP h l [], ipHash)
  end.

(** ** The server *)

(** [u_health]: has the channel of the health checker been closed, if there is one? *)
Record Upstream := mkUpstream { u_targets : list ptr; u_balancer : Balancer; u_health : option bool }.

Record udpSession := mkSession { se_client : gostring; se_target : ptr; se_lastActive : Z; se_closed : bool }.

Record udpServer := mkUDP { us_upstream : nat; us_timeout : Z; us_sessions : gmap gostring nat; us_running : bool }.

(** The stages of [handleConnection]: before the look-up, dialling a target, copying,
    and the two deferred decrements. *)
Inductive handler := HStart (listen : gostring) | HDial (p : ptr) | HCopy (p : ptr) | HRelease (p : ptr) | HEnd.

Record Server := mkServer {
  sv_targets : targets_heap; sv_ups : gmap nat Upstream; sv_sess : gmap nat udpSession;
  sv_upstreams : gmap gostring nat; sv_listeners : gset gostring; sv_listenerUpstreams : gmap gostring (option nat);
  sv_udp : gmap gostring nat; sv_udps : gmap nat udpServer; sv_connCount : Z; sv_running : bool;
  sv_handlers : list handler; sv_readers : list (nat * nat) }.

Definition NewServer : Server := mkServer ∅ ∅ ∅ ∅ ∅ ∅ ∅ ∅ 0 false [] [].

Definition with_targets (s : Server) (h : targets_heap) : Server :=
  mkServer h (sv_ups s) (sv_sess s) (sv_upstreams s) (sv_listeners s) (sv_listenerUpstreams s) (sv_udp s) (sv_udps s)
    (sv_connCount s) (sv_running s) (sv_handlers s) (sv_readers s).
Definition with_ups (s : Server) (u : gmap nat Upstream) : Server :=
  mkServer (sv_targets s) u (sv_sess s) (sv_upstreams s) (sv_listeners s) (sv_listenerUpstreams s) (sv_udp s) (sv_udps s)
    (sv_connCount s) (sv_running s) (sv_handlers s) (sv_readers s).
Definition with_sess (s : Server) (m : gmap nat udpSession) : Server :=
  mkServer (sv_targets s) (sv_ups s) m (sv_upstreams s) (sv_listeners s) (sv_listenerUpstreams s) (sv_udp s) (sv_udps s)
    (sv_connCount s) (sv_running s) (sv_handlers s) (sv_readers s).
Definition with_udp (s : Server) (m : gmap gostring nat) (u : gmap nat udpServer) : Server :=
  mkServer (sv_targets s) (sv_ups s) (sv_sess s) (sv_upstreams s) (sv_listeners s) (sv_listenerUpstreams s) m u
    (sv_connCount s) (sv_running s) (sv_handlers s) (sv_readers s).
Definition with_handlers (s : Server) (n : Z) (l : list handler) : Server :=
  mkServer (sv_targets s) (sv_ups s) (sv_sess s) (sv_upstreams s) (sv_listeners s) (sv_listenerUpstreams s) (sv_udp s) (sv_udps s)
    n (sv_running s) l (sv_readers s).
Definition with_readers (s : Server) (l : list (nat * nat)) : Server :=
  mkServer (sv_targets s) (sv_ups s) (sv_sess s) (sv_upstreams s) (sv_listeners s) (sv_listenerUpstreams s) (sv_udp s) (sv_udps s)
    (sv_connCount s) (sv_running s) (sv_handlers s) l.

Definition upd (s : Server) (p : ptr) (f : Target → Target) : Server := with_targets s (alter f p (sv_targets s)).

Definition new_balancer (lbType : gostring) : Balancer :=
  if decide (lbType = go!"weighted_round_robin") then weightedRoundRobin 0
  else if decide (lbType = go!"least_conn") then leastConn
  else if decide (lbType = go!"ip_hash") then ipHash
  else roundRobin 0.

(** The loop that makes the targets. *)
Fixpoint new_targets (h : targets_heap) (specs : list (gostring * Z)) : targets_heap * list ptr :=
  match specs with
  | [] => (h, [])
  | (a, w) :: specs =>
      let p := fresh (dom h) in
      let '(h, ps) := new_targets (<[p := mkTarget a w true 0]> h) specs in (h, p :: ps)
  end.

Definition AddUpstream (s : Server) (name : gostring) (specs : list (gostring * Z)) (lbType : gostring) (check : bool) : Server :=
  let '(h, ps) := new_targets (sv_targets s) specs in
  let u := fresh (dom (sv_ups s)) in
  mkServer h (<[u := mkUpstream ps (new_balancer lbType) (if check then Some false else None)]> (sv_ups s)) (sv_sess s)
    (<[name := u]> (sv_upstreams s)) (sv_listeners s) (sv_listenerUpstreams s) (sv_udp s) (sv_udps s) (sv_connCount s) (sv_running s)
    (sv_handlers s) (sv_readers s).

(** An unknown upstream is recorded as [nil]. *)
Definition ListenTCP (s : Server) (a name : gostring) : Server :=
  mkServer (sv_targets s) (sv_ups s) (sv_sess s) (sv_upstreams s) ({[a]} ∪ sv_listeners s)
    (<[a := sv_upstreams s !! name]> (sv_listenerUpstreams s)) (sv_udp s) (sv_udps s) (sv_connCount s) (sv_running s)
    (sv_handlers s) (sv_readers s).

Definition newUDPServer (u : nat) (timeout : Z) : udpServer :=
  mkUDP u (if timeout <=? 0 then 60 * second else timeout) ∅ true.

Definition ListenUDP (s : Server) (a name : gostring) (timeout : Z) : option Server :=
  u ← sv_upstreams s !! name;
  let i := fresh (dom (sv_udps s)) in
  Some (with_udp s (<[a := i]> (sv_udp s)) (<[i := newUDPServer u timeout]> (sv_udps s))).

Definition Stream_Start (s : Server) : option Server :=
  if sv_running s then None
  else Some (mkServer (sv_targets s) (sv_ups s) (sv_sess s) (sv_upstreams s) (sv_listeners s) (sv_listenerUpstreams s)
    (sv_udp s) (sv_udps s) (sv_connCount s) true (sv_handlers s) (sv_readers s)).

(** [upstream.Select()] filters before the algorithm does. *)
Definition Upstream_Select (s : Server) (u : nat) : option ptr * Server :=
  match sv_ups s !! u with
  | None => (None, s)
  | Some up =>
      match healthy_targets (sv_targets s) (u_targets up) with
      | [] => (None, s)
      | hl =>
          let '(p, b) := Balancer_Select (u_balancer up) (sv_targets s) hl in
          (p, with_ups s (<[u := mkUpstream (u_targets up) b (u_health up)]> (sv_ups s)))
      end
  end.

(** [session.close()] *)
Definition close_session (s : Server) (i : nat) : Server :=
  match sv_sess s !! i with
  | Some se =>
      if se_closed se then s
      else upd (with_sess s (<[i := mkSession (se_client se) (se_target se) (se_lastActive se) true]> (sv_sess s)))
             (se_target se) (add_conns (-1))
  | None => s
  end.

Definition with_sessions (s : Server) (a : nat) (m : gmap gostring nat) : Server :=
  with_udp s (sv_udp s) (alter (λ u, mkUDP (us_upstream u) (us_timeout u) m (us_running u)) a (sv_udps s)).

(** [removeSession]: whatever session the client has now. *)
Definition removeSession (s : Server) (a : nat) (client : gostring) : Server :=
  match sv_udps s !! a with
  | Some u =>
      match us_sessions u !! client with
      | Some i => with_sessions (close_session s i) a (delete client (us_sessions u))
      | None => s
      end
  | None => s
  end.

Definition touch_session (s : Server) (i : nat) (now : Z) : Server :=
  with_sess s (alter (λ se, mkSession (se_client se) (se_target se) now (se_closed se)) i (sv_sess s)).

(** [getOrCreateSession]; [dial] is whether the address resolves and the socket opens. *)
Definition getOrCreateSession (s : Server) (a : nat) (client : gostring) (now : Z) (dial : bool) : option nat * Server :=
  match sv_udps s !! a with
  | None => (None, s)
  | Some u =>
      match us_sessions u !! client with
      | Some i => (Some i, touch_session s i now)
      | None =>
          match Upstream_Select s (us_upstream u) with
          | (None, s) => (None, s)
          | (Some p, s) =>
              if negb dial then (None, s)
              else
                let i := fresh (dom (sv_sess s)) in
                let s := upd s p (add_conns 1) in
                let s := with_sess s (<[i := mkSession client p now false]> (sv_sess s)) in
                let s := with_sessions s a (<[client := i]> (us_sessions u)) in
                (Some i, with_readers s (sv_readers s ++ [(a, i)]))
          end
      end
  end.

(** One entry of the cleanup's range over the sessions. *)
Definition cleanup_one (now timeout : Z) (a : nat) (s : Server) (e : gostring * nat) : Server :=
  match sv_sess s !! e.2 with
  | Some se => if timeout <=? time_sub now (se_lastActive se) then removeSession s a e.1 else s
  | None => s
  end.

Definition cleanupExpiredSessions (s : Server) (a : nat) (now : Z) : Server :=
  match sv_udps s !! a with
  | Some u => foldl (cleanup_one now (us_timeout u) a) s (map_to_list (us_sessions u))
  | None => s
  end.

(** [closeSessions], with the flag that ends the server's loop. *)
Definition stop_udp (s : Server) (a : nat) : Server :=
  match sv_udps s !! a with
  | Some u =>
      let s := foldl close_session s (map_to_list (us_sessions u)).*2 in
      with_udp s (sv_udp s) (<[a := mkUDP (us_upstream u) (us_timeout u) ∅ false]> (sv_udps s))
  | None => s
  end.

(** The channel of one upstream's health checker. *)
Definition stop_check (ups : gmap nat Upstream) (u : nat) : option (gmap nat Upstream) :=
  match ups !! u with
  | Some up =>
      match u_health up with
      | None => Some ups
      | Some false => Some (<[u := mkUpstream (u_targets up) (u_balancer up) (Some true)]> ups)
      | Some true => None
      end
  | None => Some ups
  end.

(** [Stop]; [None] is the panic of closing a channel twice. *)
Definition Stream_Stop (s : Server) : option Server :=
  if negb (sv_running s) then Some s
  else
    let s := foldl stop_udp s (map_to_list (sv_udp s)).*2 in
    ups ← foldl (λ acc u, acc ≫= λ ups, stop_check ups u) (Some (sv_ups s)) (map_to_list (sv_upstreams s)).*2;
    Some (mkServer (sv_targets s) ups (sv_sess s) (sv_upstreams s) ∅ (sv_listenerUpstreams s) ∅ (sv_udps s)
      (sv_connCount s) false (sv_handlers s) (sv_readers s)).

(** [check], while the checker runs: the outcome of dialling each target. *)
Definition health_check (s : Server) (u : nat) (dials : ptr → bool) : option Server :=
  up ← sv_ups s !! u;
  match u_health up with
  | Some false => Some (foldl (λ s p, upd s p (set_health (dials p))) s (u_targets up))
  | _ => None
  end.

(** The next stage of a handler; [None] when it has returned. *)
Definition handler_step (h : handler) (dial : bool) (s : Server) : option handler * Server :=
  match h with
  | HStart listen =>
      let upstream := match sv_listenerUpstreams s !! listen with Some (Some u) => Some u | _ => sv_upstreams s !! listen end in
      match upstream with
      | None => (Some HEnd, s)
      | Some u =>
          match Upstream_Select s u with
          | (None, s) => (Some HEnd, s)
          | (Some p, s) => (Some (HDial p), upd s p (add_conns 1))
          end
      end
  | HDial p => if dial then (Some (HCopy p), s) else (Some (HRelease p), upd s p (set_health false))
  | HCopy p => (Some (HRelease p), s)
  | HRelease p => (Some HEnd, upd s p (add_conns (-1)))
  | HEnd => (None, with_handlers s (sv_connCount s - 1) (sv_handlers s))
  end.

(** How a turn of [handleBackendResponse] goes: its time-out, a failure of the read or
    of writing to the client, or data. *)
Inductive read_result := ReadTimeout | ReadError | ReadData.

Inductive event :=
  | EAdd (name : gostring) (specs : list (gostring * Z)) (lbType : gostring) (check : bool)
  | EListenTCP (a name : gostring) | EListenUDP (a name : gostring) (timeout : Z)
  | EStart | EStop
  | EAccept (listen : gostring) | EHandler (i : nat) (dial : bool)
  | EDatagram (a : nat) (client : gostring) (now : Z) (dial write : bool)
  | EReader (i : nat) (r : read_result) (now : Z)
  | ECleanup (a : nat) (now : Z)
  | ECheck (u : nat) (dials : ptr → bool).

Definition step (s : Server) (e : event) : option Server :=
  match e with
  | EAdd name specs lb check => Some (AddUpstream s name specs lb check)
  | EListenTCP a name => Some (ListenTCP s a name)
  | EListenUDP a name timeout => ListenUDP s a name timeout
  | EStart => Stream_Start s
  | EStop => Stream_Stop s
  | EAccept listen =>
      if sv_running s && bool_decide (listen ∈ sv_listeners s)
      then Some (with_handlers s (sv_connCount s + 1) (sv_handlers s ++ [HStart listen])) else None
  | EHandler i dial =>
      h ← sv_handlers s !! i;
      let '(h', s') := handler_step h dial s in
      Some (with_handlers s' (sv_connCount s')
        (match h' with Some h' => <[i := h']> (sv_handlers s) | None => delete i (sv_handlers s) end))
  | EDatagram a client now dial write =>
      match getOrCreateSession s a client now dial with
      | (None, s) => Some s
      | (Some _, s) => Some (if write then s else removeSession s a client)
      end
  | EReader k r now =>
      '(a, i) ← sv_readers s !! k;
      se ← sv_sess s !! i;
      u ← sv_udps s !! a;
      let ended := Some (with_readers (removeSession s a (se_client se)) (delete k (sv_readers s))) in
      match r with
      | ReadData => Some (touch_session s i now)
      | ReadTimeout => if us_timeout u <=? time_sub now (se_lastActive se) then ended else Some s
      | ReadError => ended
      end
  | ECleanup a now => Some (cleanupExpiredSessions s a now)
  | ECheck u dials => health_check s u dials
  end.

Fixpoint run (s : Server) (es : list event) : option Server :=
  match es with
  | [] => Some s
  | e :: es => s ← step s e; run s es
  end.

(** ** The counters of connections *)

Definition on_target (p : ptr) (h : handler) : Prop :=
  match h with HDial q | HCopy q | HRelease q => q = p | _ => False end.
#[export] Instance on_target_dec p h : Decision (on_target p h).
Proof. destruct h; cbn; apply _. Defined.

Definition open_on (p : ptr) (e : nat * udpSession) : Prop := se_target e.2 = p ∧ se_closed e.2 = false.

Definition handlers_on (l : list handler) (p : ptr) : Z := zlen (filter (on_target p) l).
Definition sessions_on (m : gmap nat udpSession) (p : ptr) : Z := Z.of_nat (size (filter (open_on p) m)).

(** Every pointer in use is allocated. *)
Record pointers_ok (s : Server) : Prop := {
  ups_ok u up p : sv_ups s !! u = Some up → p ∈ u_targets up → is_Some (sv_targets s !! p);
  handlers_ok h p : h ∈ sv_handlers s → on_target p h → is_Some (sv_targets s !! p);
  sess_ok i se : sv_sess s !! i = Some se → is_Some (sv_targets s !! se_target se) }.

Record counts_ok (s : Server) : Prop := {
  conns_ok p : conns (tget (sv_targets s) p) = handlers_on (sv_handlers s) p + sessions_on (sv_sess s) p;
  conn_count_ok : sv_connCount s = zlen (sv_handlers s);
  pointers : pointers_ok s }.

Lemma tget_alter f p q h :
  is_Some (h !! p) → tget (alter f p h) q = if decide (p = q) then f (tget h q) else tget h q.
Proof.
  intros [t Ht]. unfold tget. rewrite lookup_alter. case_decide as Hd; [subst; by rewrite Ht|done].
Qed.

Lemma upd_valid s p f q : is_Some (sv_targets (upd s p f) !! q) ↔ is_Some (sv_targets s !! q).
Proof.
  unfold upd. cbn. rewrite lookup_alter. case_decide; [subst; by rewrite fmap_is_Some|done].
Qed.

(** Steps that change no counter and no pointer keep the accounts. *)
Lemma same_counts s s' :
  (∀ p, conns (tget (sv_targets s') p) = conns (tget (sv_targets s) p)) →
  (∀ p, is_Some (sv_targets s !! p) → is_Some (sv_targets s' !! p)) →
  (∀ u up p, sv_ups s' !! u = Some up → p ∈ u_targets up → is_Some (sv_targets s' !! p)) →
  sv_handlers s' = sv_handlers s → sv_connCount s' = sv_connCount s →
  (∀ i, (λ se, (se_target se, se_closed se)) <$> sv_sess s' !! i = (λ se, (se_target se, se_closed se)) <$> sv_sess s !! i) →
  counts_ok s → counts_ok s'.
Proof.
  intros Hc Hv Hu Hh Hn Hs [H1 H2 [P1 P2 P3]]. split.
  - intros p. rewrite Hc, H1, Hh. f_equal. unfold sessions_on. f_equal.
    assert (dom (filter (open_on p) (sv_sess s)) = dom (filter (open_on p) (sv_sess s'))) as Hd.
    { apply set_eq. intros i. rewrite !elem_of_dom. unfold is_Some. setoid_rewrite map_lookup_filter_Some.
      specialize (Hs i). unfold open_on. destruct (sv_sess s !! i), (sv_sess s' !! i); cbn in Hs; simplify_eq; naive_solver. }
    by rewrite <- !(size_dom (D := gset nat)), Hd.
  - by rewrite Hn, Hh.
  - split; [done|intros h p; rewrite Hh; eauto|]. intros i se Hi. specialize (Hs i). rewrite Hi in Hs.
    destruct (sv_sess s !! i) as [se0|] eqn:E; cbn in Hs; simplify_eq. apply Hv. specialize (P3 i se0 E). congruence.
Qed.

Lemma weighted_loop_in h l pos cur o p : weighted_loop h l pos cur o = Some p → p ∈ l ∨ o = Some p.
Proof.
  revert cur. induction l as [|x l IH]; intros cur; [by right|]. cbn [weighted_loop]. case_match.
  - intros [= ->]. left. by left.
  - intros [?|?]%IH; [left; by right|by right].
Qed.

Lemma least_loop_in h l acc p m :
  foldl (least_step h) acc l = Some (p, m) → p ∈ l ∨ acc = Some (p, m).
Proof.
  revert acc. induction l as [|x l IH]; intros acc; [by right|]. cbn [foldl]. intros [?|Ha]%IH; [left; by right|].
  unfold least_step in Ha. repeat case_match; simplify_eq; try (by right); left; by left.
Qed.

(** An algorithm answers with one of the targets it was given. *)
Lemma Balancer_Select_in b h l p b' : Balancer_Select b h l = (Some p, b') → p ∈ l.
Proof.
  assert (∀ q, q ∈ healthy_targets h l → q ∈ l) as Hh by (intros q [_ ?]%list_elem_of_filter; done).
  destruct b as [c| |c|]; cbn [Balancer_Select].
  - destruct (healthy_targets h l) as [|x hl] eqn:E; [done|]. intros [= Hl _].
    by eapply Hh, list_elem_of_lookup_2.
  - intros [= Hl]. destruct (foldl _ None l) as [[q m]|] eqn:E; cbn in Hl; simplify_eq.
    by apply least_loop_in in E as [?|?].
  - destruct (healthy_targets h l) as [|x hl] eqn:E; [done|]. remember (x :: hl) as hl' eqn:Ehl. clear Ehl. intros [= Hl _].
    apply weighted_loop_in in Hl as [Hl|Hl]; [by apply Hh|]. apply Hh.
    by apply last_Some_elem_of in Hl.
  - unfold SelectByIP. destruct (healthy_targets h l) as [|x hl] eqn:E; [done|]. intros [= Hl].
    by eapply Hh, list_elem_of_lookup_2.
Qed.

Lemma Upstream_Select_ok s u :
  counts_ok s → let r := Upstream_Select s u in
  counts_ok r.2 ∧ (∀ p, r.1 = Some p → is_Some (sv_targets r.2 !! p)) ∧ sv_targets r.2 = sv_targets s ∧
  sv_sess r.2 = sv_sess s ∧ sv_handlers r.2 = sv_handlers s ∧ sv_udps r.2 = sv_udps s ∧ sv_connCount r.2 = sv_connCount s.
Proof.
  intros Hok. unfold Upstream_Select. destruct (sv_ups s !! u) as [up|] eqn:Eu; [|by split_and!].
  destruct (healthy_targets _ _) as [|x hl] eqn:Eh; [by split_and!|].
  destruct (Balancer_Select _ _ _) as [o b] eqn:Eb. cbn [fst snd]. pose proof Hok as [_ _ [P1 _ _]]. split_and!; try done.
  - apply (same_counts s); try done. intros u' up' p. cbn. intros [[_ <-]|[_ H]]%lookup_insert_Some; cbn; eauto.
  - intros p ->. apply Balancer_Select_in in Eb. rewrite <- Eh in Eb. apply list_elem_of_filter in Eb as [_ Hp]. by eapply P1.
Qed.

Definition count1 (P : Prop) `{Decision P} : Z := if decide P then 1 else 0.

Lemma sessions_on_insert m i se p :
  sessions_on (<[i := se]> m) p = sessions_on (delete i m) p + count1 (open_on p (i, se)).
Proof.
  rewrite <- insert_delete_eq. unfold sessions_on, count1. rewrite map_filter_insert.
  assert (delete i m !! i = None) as Hn by apply lookup_delete_eq. case_decide.
  - rewrite map_size_insert_None; [lia|]. apply map_lookup_filter_None. by left.
  - rewrite delete_delete_eq. lia.
Qed.

Lemma sessions_on_replace m i se se' p :
  m !! i = Some se → sessions_on (<[i := se']> m) p = sessions_on m p - count1 (open_on p (i, se)) + count1 (open_on p (i, se')).
Proof.
  intros Hi. rewrite sessions_on_insert. rewrite <- (insert_id m i se Hi) at 2. rewrite sessions_on_insert. lia.
Qed.

(** What closing sessions leaves alone. *)
Definition same_rest (s s' : Server) : Prop :=
  sv_handlers s' = sv_handlers s ∧ sv_connCount s' = sv_connCount s ∧ sv_ups s' = sv_ups s ∧
  sv_upstreams s' = sv_upstreams s.

#[export] Instance same_rest_preorder : PreOrder same_rest.
Proof. unfold same_rest. split; [by intros s|]. intros s s' s'' (? & ? & ? & ?) (? & ? & ? & ?). split_and!; congruence. Qed.

Lemma close_session_ok s i : counts_ok s → counts_ok (close_session s i) ∧ same_rest s (close_session s i).
Proof.
  intros Hok. unfold close_session. destruct (sv_sess s !! i) as [se|] eqn:Ei; [|done].
  destruct (se_closed se) eqn:Ec; [done|]. destruct Hok as [H1 H2 [P1 P2 P3]]. pose proof (P3 i se Ei) as Hp.
  split; [|done]. split; [|done|split].
  - intros p. unfold upd. cbn [with_targets with_sess sv_targets sv_handlers sv_sess].
    rewrite tget_alter by done. rewrite (sessions_on_replace _ _ se) by done. unfold count1, open_on. cbn [snd se_target se_closed].
    specialize (H1 p). repeat case_decide; cbn [conns add_conns]; naive_solver lia.
  - intros u up p Hu Hpu. rewrite upd_valid. by eapply P1.
  - intros h p Hh Hon. rewrite upd_valid. by eapply P2.
  - intros j sj. cbn. intros Hj. change (is_Some (sv_targets (upd s (se_target se) (add_conns (-1))) !! se_target sj)).
    rewrite upd_valid. apply lookup_insert_Some in Hj as [[_ <-]|[_ Hj]]; [done|by eapply P3].
Qed.

Lemma with_udp_ok s m u : counts_ok s → counts_ok (with_udp s m u).
Proof. intros [H1 H2 [P1 P2 P3]]. split; [done..|]. by split. Qed.
Lemma with_readers_ok s l : counts_ok s → counts_ok (with_readers s l).
Proof. intros [H1 H2 [P1 P2 P3]]. split; [done..|]. by split. Qed.

Lemma removeSession_ok s a c : counts_ok s → counts_ok (removeSession s a c) ∧ same_rest s (removeSession s a c).
Proof.
  intros Hok. unfold removeSession. destruct (sv_udps s !! a) as [u|]; [|done]. destruct (us_sessions u !! c) as [i|]; [|done].
  destruct (close_session_ok s i Hok) as [H1 H2]. split; [by apply with_udp_ok|done].
Qed.

Lemma touch_session_ok s i now : counts_ok s → counts_ok (touch_session s i now) ∧ same_rest s (touch_session s i now).
Proof.
  intros Hok. split; [|done]. apply (same_counts s); try done.
  - intros u up p. cbn. apply Hok.
  - intros j. cbn. rewrite lookup_alter. case_decide; [subst; by destruct (sv_sess s !! j)|done].
Qed.

(** A loop of steps each of which keeps the accounts. *)
Lemma foldl_ok {A} (f : Server → A → Server) l s :
  (∀ s x, counts_ok s → counts_ok (f s x) ∧ same_rest s (f s x)) →
  counts_ok s → counts_ok (foldl f s l) ∧ same_rest s (foldl f s l).
Proof.
  intros Hf. revert s. induction l as [|x l IH]; intros s Hs; [done|]. cbn [foldl].
  destruct (Hf s x Hs) as [H1 H2]. destruct (IH _ H1) as [H3 H4]. split; [done|by etransitivity].
Qed.

Lemma cleanup_ok s a now : counts_ok s → counts_ok (cleanupExpiredSessions s a now).
Proof.
  intros Hok. unfold cleanupExpiredSessions. destruct (sv_udps s !! a) as [u|]; [|done]. apply foldl_ok; [|done].
  intros s' [c i] Hs'. unfold cleanup_one. cbn. destruct (sv_sess s' !! i); [|done]. case_match; [by apply removeSession_ok|done].
Qed.

Lemma stop_udp_ok s a : counts_ok s → counts_ok (stop_udp s a) ∧ same_rest s (stop_udp s a).
Proof.
  intros Hok. unfold stop_udp. destruct (sv_udps s !! a) as [u|]; [|done].
  destruct (foldl_ok close_session (map_to_list (us_sessions u)).*2 s) as [H1 H2]; [|done|].
  - intros s' i Hs'. by apply close_session_ok.
  - split; [by apply with_udp_ok|done].
Qed.

Lemma stop_check_targets ups u ups' v up' :
  stop_check ups u = Some ups' → ups' !! v = Some up' → ∃ up, ups !! v = Some up ∧ u_targets up' = u_targets up.
Proof.
  unfold stop_check. destruct (ups !! u) as [up|] eqn:Eu; [|intros [= <-]; eauto].
  destruct (u_health up) as [[]|]; [done| |intros [= <-]; eauto]. intros [= <-].
  intros [[-> <-]|[_ ?]]%lookup_insert_Some; eauto.
Qed.

Lemma Stop_ok s s' : counts_ok s → Stream_Stop s = Some s' → counts_ok s'.
Proof.
  intros Hok. unfold Stream_Stop. destruct (negb _); [by intros [= <-]|].
  destruct (foldl_ok stop_udp (map_to_list (sv_udp s)).*2 s) as [H1 (H2 & H3 & H4 & H5)]; [by intros; apply stop_udp_ok|done|].
  set (s1 := foldl stop_udp s _) in *. clearbody s1.
  destruct (foldl _ _ _) as [ups|] eqn:E; [|done]. cbn. intros [= <-].
  assert (∀ v up', ups !! v = Some up' → ∃ up, sv_ups s1 !! v = Some up ∧ u_targets up' = u_targets up) as Hu.
  { revert ups E. generalize (map_to_list (sv_upstreams s1)).*2. intros l.
    induction l as [|u l IH] using rev_ind; intros ups E; [cbn in E; simplify_eq; eauto|].
    rewrite foldl_app in E. cbn in E. destruct (foldl _ _ l) as [ups0|]; [|done]. cbn in E.
    intros v up' Hv. destruct (stop_check_targets _ _ _ _ _ E Hv) as (up & Hup & ->). by eapply IH. }
  destruct H1 as [A1 A2 [P1 P2 P3]]. split; [done..|]. split; [|done..].
  intros v up p. cbn. intros Hv Hp. destruct (Hu v up Hv) as (up0 & Hup0 & Heq). rewrite Heq in Hp. by eapply P1.
Qed.

Lemma new_targets_ok h specs :
  let r := new_targets h specs in
  (∀ p, conns (tget r.1 p) = conns (tget h p)) ∧ (∀ p, is_Some (h !! p) → is_Some (r.1 !! p)) ∧
  (∀ p, p ∈ r.2 → is_Some (r.1 !! p)).
Proof.
  revert h. induction specs as [|[a w] specs IH]; intros h; [split_and!; try done; by intros p ?%elem_of_nil|].
  cbn [new_targets]. set (q := fresh (dom h)). assert (h !! q = None) as Hq by apply not_elem_of_dom, is_fresh.
  specialize (IH (<[q := mkTarget a w true 0]> h)). destruct (new_targets _ specs) as [h' ps].
  cbv zeta in IH |- *. destruct IH as (H1 & H2 & H3). cbn [fst snd] in *. split_and!.
  - intros p. rewrite H1. unfold tget. destruct (decide (p = q)) as [->|]; [by rewrite lookup_insert_eq, Hq|].
    by rewrite lookup_insert_ne.
  - intros p Hp. apply H2. rewrite lookup_insert_is_Some'. by right.
  - intros p [->|Hp]%elem_of_cons; [|by apply H3]. apply H2. rewrite lookup_insert_is_Some'. by left.
Qed.

Lemma AddUpstream_ok s name specs lb check : counts_ok s → counts_ok (AddUpstream s name specs lb check).
Proof.
  intros Hok. unfold AddUpstream. pose proof (new_targets_ok (sv_targets s) specs) as Hn.
  destruct (new_targets _ _) as [h ps]. cbv zeta in Hn. destruct Hn as (H1 & H2 & H3). cbn [fst snd] in *.
  apply (same_counts s); try done. intros u up p. cbn. intros [[_ <-]|[_ Hu]]%lookup_insert_Some Hp; [by apply H3|].
  apply H2. by eapply Hok.
Qed.

Lemma health_ok s u dials s' : counts_ok s → health_check s u dials = Some s' → counts_ok s'.
Proof.
  intros Hok. unfold health_check. destruct (sv_ups s !! u) as [up|]; [|done]. cbn.
  destruct (u_health up) as [[]|]; [done| |done]. intros [= <-]. apply foldl_ok; [|done].
  intros s0 p Hs0. split; [|done]. apply (same_counts s0); try done.
  - intros q. unfold upd. cbn. destruct (sv_targets s0 !! p) as [t|] eqn:Ep.
    + rewrite tget_alter by done. by case_decide.
    + unfold tget. rewrite lookup_alter. case_decide; [subst; by rewrite Ep|done].
  - intros q Hq. by apply upd_valid.
  - intros v up' q Hv Hq. apply upd_valid. by eapply Hs0.
Qed.

Lemma handlers_on_app l l' p : handlers_on (l ++ l') p = handlers_on l p + handlers_on l' p.
Proof. unfold handlers_on. rewrite filter_app, length_app. lia. Qed.

Lemma handlers_on_cons h l p : handlers_on (h :: l) p = count1 (on_target p h) + handlers_on l p.
Proof.
  unfold handlers_on, count1. case_decide.
  - rewrite filter_cons_True by done. cbn. lia.
  - rewrite filter_cons_False by done. lia.
Qed.

Lemma handlers_on_replace l i h q :
  l !! i = Some h →
  (∀ h', handlers_on (<[i := h']> l) q = handlers_on l q - count1 (on_target q h) + count1 (on_target q h')) ∧
  handlers_on (delete i l) q = handlers_on l q - count1 (on_target q h).
Proof.
  intros Hi. pose proof (lookup_lt_Some _ _ _ Hi) as Hlt. split.
  - intros h'. rewrite (insert_take_drop _ _ _ Hlt). rewrite <- (take_drop_middle l i h Hi) at 3.
    rewrite !handlers_on_app, !handlers_on_cons. lia.
  - rewrite delete_take_drop. rewrite <- (take_drop_middle l i h Hi) at 3.
    rewrite !handlers_on_app, handlers_on_cons. lia.
Qed.

(** A handler moves on, the counters of the targets with it. *)
Lemma handler_to s s1 i h h' :
  counts_ok s → sv_handlers s !! i = Some h →
  (∀ q, conns (tget (sv_targets s1) q) = conns (tget (sv_targets s) q) - count1 (on_target q h) + count1 (on_target q h')) →
  sv_sess s1 = sv_sess s → sv_connCount s1 = sv_connCount s →
  (∀ q, is_Some (sv_targets s !! q) → is_Some (sv_targets s1 !! q)) →
  (∀ u up q, sv_ups s1 !! u = Some up → q ∈ u_targets up → is_Some (sv_targets s1 !! q)) →
  (∀ q, on_target q h' → is_Some (sv_targets s1 !! q)) →
  counts_ok (with_handlers s1 (sv_connCount s1) (<[i := h']> (sv_handlers s))).
Proof.
  intros [H1 H2 [P1 P2 P3]] Hi Hc Hs Hn Hv Hu Hh. split; [| |split; [done| |]].
  - intros q. cbn. rewrite Hc, H1, Hs, (proj1 (handlers_on_replace _ _ _ q Hi)). lia.
  - cbn. by rewrite Hn, H2, length_insert.
  - intros h0 q Hin Hon. cbn in *. apply list_elem_of_lookup in Hin as [k Hk].
    apply list_lookup_insert_Some in Hk as [(_ & <- & _)|[_ Hk]]; [by apply Hh|].
    eapply Hv, P2; [by eapply list_elem_of_lookup_2|done].
  - intros j se. cbn. rewrite Hs. intros Hj. by eapply Hv, P3.
Qed.

Lemma count1_iff (P Q : Prop) `{Decision P, Decision Q} : (P ↔ Q) → count1 P = count1 Q.
Proof. intros HPQ. unfold count1. by rewrite (decide_ext P Q). Qed.

Lemma handler_ok s i h dial :
  counts_ok s → sv_handlers s !! i = Some h →
  let '(h', s') := handler_step h dial s in
  counts_ok (with_handlers s' (sv_connCount s')
    (match h' with Some h' => <[i := h']> (sv_handlers s) | None => delete i (sv_handlers s) end)).
Proof.
  intros Hok Hi. pose proof Hok as [H1 H2 [P1 P2 P3]].
  assert (∀ p, on_target p h → is_Some (sv_targets s !! p)) as Hval.
  { intros p. apply P2. by eapply list_elem_of_lookup_2. }
  destruct h as [listen|p|p|p|]; cbn [handler_step].
  - set (up := match sv_listenerUpstreams s !! listen with Some (Some u) => _ | _ => _ end). clearbody up.
    destruct up as [u|]; [|apply (handler_to s s i (HStart listen)); try done; intros q; cbn; (lia || by intros [])].
    pose proof (Upstream_Select_ok s u Hok) as ([_ _ [U1 _ _]] & U2 & U3 & U4 & U5 & U6 & U7).
    destruct (Upstream_Select s u) as [[p|] s1]; cbn [fst snd] in *.
    + specialize (U2 p eq_refl). apply (handler_to s (upd s1 p (add_conns 1)) i (HStart listen)); try done.
      * intros q. unfold upd. cbn. rewrite tget_alter by done. rewrite U3. unfold count1. repeat case_decide; cbn; done || lia.
      * intros q. rewrite <- U3. apply upd_valid.
      * intros v up q Hup Hq. apply upd_valid. by eapply U1.
      * intros q Hq. cbn in Hq. subst. by apply upd_valid.
    + apply (handler_to s s1 i (HStart listen)); try done; rewrite ?U3; try done.
      intros q. cbn. lia.
  - specialize (Hval p eq_refl). destruct dial.
    + apply (handler_to s s i (HDial p)); try done; intros q; cbn; (lia || by intros <-).
    + apply (handler_to s (upd s p (set_health false)) i (HDial p)); try done.
      * intros q. unfold upd. cbn. rewrite tget_alter by done. case_decide; cbn; lia.
      * intros q. apply upd_valid.
      * intros v up q Hup Hq. apply upd_valid. by eapply P1.
      * intros q Hq. cbn in Hq. subst. by apply upd_valid.
  - specialize (Hval p eq_refl).
    apply (handler_to s s i (HCopy p)); try done; intros q; cbn; (lia || by intros <-).
  - specialize (Hval p eq_refl). apply (handler_to s (upd s p (add_conns (-1))) i (HRelease p)); try done.
    + intros q. unfold upd. cbn. rewrite tget_alter by done. unfold count1. repeat case_decide; cbn; done || lia.
    + intros q. apply upd_valid.
    + intros v up q Hup Hq. apply upd_valid. by eapply P1.
  - split; [| |split; [done| |done]].
    + intros q. cbn. rewrite H1, (proj2 (handlers_on_replace _ _ _ q Hi)). unfold count1. rewrite decide_False by (intros []). lia.
    + cbn. rewrite H2, length_delete by done. pose proof (lookup_lt_Some _ _ _ Hi). lia.
    + intros h0 q Hin Hon. eapply P2; [|done]. rewrite list_elem_of_lookup in *. destruct Hin as [k Hk].
      cbn in Hk. destruct (decide (k < i)%nat); [rewrite list_lookup_delete_lt in Hk by done|rewrite list_lookup_delete_ge in Hk by lia]; eauto.
Qed.

Lemma create_ok s p client now i :
  counts_ok s → is_Some (sv_targets s !! p) → sv_sess s !! i = None →
  counts_ok (with_sess (upd s p (add_conns 1)) (<[i := mkSession client p now false]> (sv_sess s))).
Proof.
  intros [H1 H2 [P1 P2 P3]] Hp Hi. split; [|done|split].
  - intros q. unfold upd. cbn. rewrite tget_alter, sessions_on_insert by done.
    rewrite delete_id by done. specialize (H1 q). unfold count1, open_on. cbn.
    repeat case_decide; cbn [conns add_conns]; naive_solver lia.
  - intros u up q Hu Hq. apply (upd_valid s p). by eapply P1.
  - intros h q Hh Hq. apply (upd_valid s p). by eapply P2.
  - intros j se Hj. apply (upd_valid s p). cbn in Hj. apply lookup_insert_Some in Hj as [[_ <-]|[_ Hj]]; [done|by eapply P3].
Qed.

Lemma getOrCreate_ok s a client now dial : counts_ok s → counts_ok (getOrCreateSession s a client now dial).2.
Proof.
  intros Hok. unfold getOrCreateSession. destruct (sv_udps s !! a) as [u|]; [|done].
  destruct (us_sessions u !! client) as [i|]; [by apply touch_session_ok|].
  pose proof (Upstream_Select_ok s (us_upstream u) Hok) as (U1 & U2 & _).
  destruct (Upstream_Select s _) as [[p|] s1]; cbn [fst snd] in *; [|done]. destruct dial; cbn [negb]; [|done].
  apply with_readers_ok, with_udp_ok, (create_ok s1); [done|by apply U2|]. apply not_elem_of_dom, is_fresh.
Qed.

Lemma stream_step_ok s e s' : counts_ok s → step s e = Some s' → counts_ok s'.
Proof.
  intros Hok Hs. destruct e as [name specs lb check|a name|a name timeout| | |listen|i dial|a client now dial write|k r now|a now|u dials];
    cbn [step] in Hs.
  - simplify_eq. by apply AddUpstream_ok.
  - simplify_eq. destruct Hok as [? ? []]. split; [done..|]. by split.
  - unfold ListenUDP in Hs. destruct (sv_upstreams s !! name); [|done]. cbn in Hs. simplify_eq. by apply with_udp_ok.
  - unfold Stream_Start in Hs. destruct (sv_running s); [done|]. simplify_eq. destruct Hok as [? ? []]. split; [done..|]. by split.
  - by eapply Stop_ok.
  - destruct (_ && _); [|done]. simplify_eq. destruct Hok as [H1 H2 [P1 P2 P3]]. split; [| |split; [done| |done]].
    + intros q. cbn. rewrite H1, handlers_on_app, handlers_on_cons. unfold count1. rewrite decide_False by (intros []).
      unfold handlers_on. cbn. lia.
    + cbn. rewrite H2, length_app. cbn. lia.
    + intros h q [Hh|Hh]%elem_of_app Hq; [by eapply P2|]. apply list_elem_of_singleton in Hh as ->. by destruct Hq.
  - destruct (sv_handlers s !! i) as [h|] eqn:Ei; [|done]. cbn in Hs. pose proof (handler_ok s i h dial Hok Ei) as Hh.
    destruct (handler_step h dial s). by simplify_eq.
  - pose proof (getOrCreate_ok s a client now dial Hok) as Hg. destruct (getOrCreateSession _ _ _ _ _) as [[i|] s1]; simplify_eq; [|done].
    destruct write; [done|by apply removeSession_ok].
  - destruct (sv_readers s !! k) as [[a i]|]; [|done]. cbn in Hs. destruct (sv_sess s !! i) as [se|]; [|done]. cbn in Hs.
    destruct (sv_udps s !! a) as [u|]; [|done]. cbn in Hs.
    assert (counts_ok (with_readers (removeSession s a (se_client se)) (delete k (sv_readers s)))) as He
      by by apply with_readers_ok, removeSession_ok.
    destruct r; simplify_eq; [|done|by apply touch_session_ok]. case_match; by simplify_eq.
  - simplify_eq. by apply cleanup_ok.
  - by eapply health_ok.
Qed.

Lemma stream_run_ok s es s' : counts_ok s → run s es = Some s' → counts_ok s'.
Proof.
  revert s. induction es as [|e es IH]; intros s Hok Hr; cbn in Hr; [by simplify_eq|].
  destruct (step s e) as [s1|] eqn:Es; [|done]. apply (IH s1); [by eapply stream_step_ok|done].
Qed.

Lemma new_ok : counts_ok NewServer.
Proof.
  split; [done|done|]. split; cbn.
  - intros u up p. by rewrite lookup_empty.
  - by intros h p ?%elem_of_nil.
  - intros i se. by rewrite lookup_empty.
Qed.

(** C7: Under every interleaving of connections, datagrams, time-outs, errors, cleanups,
    health checks, starts and stops, the counter of each target is the number of TCP
    handlers that hold it and of UDP sessions open to it, however the sessions end, and
    the server's counter is the number of handlers. *)
Theorem stream_counts_exact (es : list event) (s : Server) :
  run NewServer es = Some s →
  sv_connCount s = zlen (sv_handlers s) ∧
  ∀ p, conns (tget (sv_targets s) p) = handlers_on (sv_handlers s) p + sessions_on (sv_sess s) p.
Proof. intros [H1 H2 _]%stream_run_ok; [done|]. apply new_ok. Qed.

(** ** What the server does not do *)

Lemma Upstream_Select_hash s u up :
  sv_ups s !! u = Some up → u_balancer up = ipHash →
  (Upstream_Select s u).1 = SelectByIP (sv_targets s) (u_targets up) [].
Proof.
  intros Hu Hb. unfold Upstream_Select. rewrite Hu. unfold SelectByIP.
  destruct (healthy_targets (sv_targets s) (u_targets up)) as [|x hl] eqn:E; [done|]. rewrite Hb. cbn [Balancer_Select fst].
  unfold SelectByIP. assert (healthy_targets (sv_targets s) (x :: hl) = x :: hl) as ->; [|done].
  rewrite <- E. unfold healthy_targets. by rewrite list_filter_filter_l.
Qed.

(** The IP hash does not look at the client: as long as the same targets are healthy,
    an upstream with this algorithm sends every connection to one and the same of them,
    however many there are. *)
Theorem stream_ip_hash_one_target (s1 s2 : Server) (u : nat) (up : Upstream) :
  sv_ups s1 !! u = Some up → sv_ups s2 !! u = Some up → u_balancer up = ipHash →
  (∀ p, is_healthy (sv_targets s1) p = is_healthy (sv_targets s2) p) →
  (Upstream_Select s1 u).1 = (Upstream_Select s2 u).1.
Proof.
  intros H1 H2 Hb Hh. rewrite (Upstream_Select_hash s1 u up), (Upstream_Select_hash s2 u up) by done. unfold SelectByIP.
  assert (healthy_targets (sv_targets s1) (u_targets up) = healthy_targets (sv_targets s2) (u_targets up)) as ->; [|done].
  unfold healthy_targets. apply list_filter_iff. intros p. by rewrite Hh.
Qed.

(** The health flag of a target, which only dialling it and its checks change. *)
Definition flag_down (s : Server) (p : ptr) : Prop := is_Some (sv_targets s !! p) ∧ is_healthy (sv_targets s) p = false.

Definition keeps_down (s s' : Server) : Prop := ∀ p, flag_down s p → flag_down s' p.

#[export] Instance keeps_down_preorder : PreOrder keeps_down.
Proof. split; [by intros s p|]. intros s s' s'' H1 H2 p Hp. by apply H2, H1. Qed.

Lemma keeps_same s s' : sv_targets s' = sv_targets s → keeps_down s s'.
Proof. intros Ht p. unfold flag_down. by rewrite Ht. Qed.

Lemma keeps_upd s q f : (∀ t, healthy t = false → healthy (f t) = false) → keeps_down s (upd s q f).
Proof.
  intros Hf p [Hp Hd]. split; [by apply upd_valid|]. unfold is_healthy, upd. cbn. unfold tget in *. rewrite lookup_alter.
  unfold is_healthy, tget in Hd. case_decide as Hpq; [|done]. subst. destruct (sv_targets s !! p); [by apply Hf|done].
Qed.

Lemma keeps_foldl {A} (f : Server → A → Server) l s : (∀ s x, keeps_down s (f s x)) → keeps_down s (foldl f s l).
Proof. intros Hf. revert s. induction l as [|x l IH]; intros s; [reflexivity|]. cbn. etransitivity; [apply Hf|apply IH]. Qed.

Lemma keeps_close s i : keeps_down s (close_session s i).
Proof.
  unfold close_session. destruct (sv_sess s !! i) as [se|]; [|reflexivity]. destruct (se_closed se); [reflexivity|].
  set (s1 := with_sess s _). transitivity s1; [by apply keeps_same|]. by apply keeps_upd.
Qed.

Lemma keeps_remove s a c : keeps_down s (removeSession s a c).
Proof.
  unfold removeSession. destruct (sv_udps s !! a) as [u|]; [|reflexivity].
  destruct (us_sessions u !! c) as [i|]; [|reflexivity]. etransitivity; [apply keeps_close|by apply keeps_same].
Qed.

Lemma keeps_select s u : keeps_down s (Upstream_Select s u).2.
Proof.
  unfold Upstream_Select. repeat (case_match; try reflexivity). by apply keeps_same.
Qed.

Lemma keeps_create s a c now dial : keeps_down s (getOrCreateSession s a c now dial).2.
Proof.
  unfold getOrCreateSession. destruct (sv_udps s !! a) as [u|]; [|reflexivity].
  destruct (us_sessions u !! c) as [i|]; [by apply keeps_same|]. pose proof (keeps_select s (us_upstream u)) as Hs.
  destruct (Upstream_Select s _) as [[p|] s1]; cbn [snd] in *; [|done]. destruct dial; cbn [negb snd]; [|done].
  transitivity s1; [done|]. transitivity (upd s1 p (add_conns 1)); [by apply keeps_upd|by apply keeps_same].
Qed.

Lemma keeps_stop s s' : Stream_Stop s = Some s' → keeps_down s s'.
Proof.
  unfold Stream_Stop. destruct (negb _); [intros [= <-]; reflexivity|].
  assert (keeps_down s (foldl stop_udp s (map_to_list (sv_udp s)).*2)) as Hk.
  { apply keeps_foldl. intros s0 a. unfold stop_udp. destruct (sv_udps s0 !! a) as [u|]; [|reflexivity].
    etransitivity; [apply (keeps_foldl close_session (map_to_list (us_sessions u)).*2), keeps_close|by apply keeps_same]. }
  set (s1 := foldl stop_udp s _) in *. clearbody s1. destruct (foldl _ _ _); [|done]. intros [= <-].
  transitivity s1; [done|by apply keeps_same].
Qed.

Lemma keeps_add s name specs lb check : keeps_down s (AddUpstream s name specs lb check).
Proof.
  assert (∀ h, (new_targets h specs).1 = (new_targets h specs).1 ∧ ∀ p, is_Some (h !! p) → (new_targets h specs).1 !! p = h !! p) as Hn.
  { intros h. split; [done|]. revert h. induction specs as [|[a w] specs IH]; intros h p Hp; [done|]. cbn [new_targets].
    set (q := fresh (dom h)). assert (h !! q = None) as Hq by apply not_elem_of_dom, is_fresh.
    assert (p ≠ q) as Hne by (intros ->; rewrite Hq in Hp; by destruct Hp).
    specialize (IH (<[q := mkTarget a w true 0]> h) p). destruct (new_targets _ specs). cbn in *.
    rewrite IH; [by apply lookup_insert_ne|]. by rewrite lookup_insert_ne. }
  intros p [Hp Hd]. destruct (Hn (sv_targets s)) as [_ Hn']. specialize (Hn' p Hp). unfold AddUpstream, flag_down, is_healthy, tget in *.
  destruct (new_targets _ _) as [h ps]. cbn in *. by rewrite Hn'.
Qed.

Lemma keeps_handler s h dial : keeps_down s (handler_step h dial s).2.
Proof.
  destruct h as [listen|q|q|q|]; cbn [handler_step].
  - set (up := match sv_listenerUpstreams s !! listen with Some (Some u) => _ | _ => _ end). clearbody up.
    destruct up as [u|]; [|reflexivity]. pose proof (keeps_select s u) as Hu.
    destruct (Upstream_Select s u) as [[q|] s2]; cbn [snd] in *; [|done]. etransitivity; [exact Hu|by apply keeps_upd].
  - destruct dial; [reflexivity|by apply keeps_upd].
  - reflexivity.
  - by apply keeps_upd.
  - by apply keeps_same.
Qed.

Lemma keeps_step s e s' :
  match e with ECheck _ _ => False | _ => True end → step s e = Some s' → keeps_down s s'.
Proof.
  intros He Es. destruct e as [name specs lb check|a name|a name timeout| | |listen|i dial|a client now dial write|k r now|a now|u dials];
    cbn [step] in Es.
  - simplify_eq. apply keeps_add.
  - simplify_eq. by apply keeps_same.
  - unfold ListenUDP in Es. destruct (sv_upstreams s !! name); [|done]. cbn in Es. simplify_eq. by apply keeps_same.
  - unfold Stream_Start in Es. destruct (sv_running s); [done|]. simplify_eq. by apply keeps_same.
  - by apply keeps_stop.
  - destruct (_ && _); [|done]. simplify_eq. by apply keeps_same.
  - destruct (sv_handlers s !! i) as [h|]; [|done]. cbn in Es. pose proof (keeps_handler s h dial) as Hk.
    destruct (handler_step h dial s) as [h' s2]. simplify_eq. etransitivity; [exact Hk|by apply keeps_same].
  - pose proof (keeps_create s a client now dial) as Hk. destruct (getOrCreateSession _ _ _ _ _) as [[i|] s2]; simplify_eq; [|done].
    destruct write; [done|]. etransitivity; [exact Hk|apply keeps_remove].
  - destruct (sv_readers s !! k) as [[a i]|]; [|done]. cbn in Es. destruct (sv_sess s !! i) as [se|]; [|done]. cbn in Es.
    destruct (sv_udps s !! a) as [u|]; [|done]. cbn in Es.
    assert (keeps_down s (with_readers (removeSession s a (se_client se)) (delete k (sv_readers s)))) as He'.
    { etransitivity; [apply keeps_remove|by apply keeps_same]. }
    destruct r; simplify_eq; [|done|by apply keeps_same]. case_match; simplify_eq; [done|reflexivity].
  - simplify_eq. unfold cleanupExpiredSessions. destruct (sv_udps s !! a) as [u|]; [|reflexivity].
    apply keeps_foldl. intros s2 [c i]. unfold cleanup_one. cbn. destruct (sv_sess s2 !! i); [|reflexivity].
    case_match; [apply keeps_remove|reflexivity].
  - done.
Qed.

(** A target taken out by a failed connection never comes back without a health
    check: once it is down, no sequence of other events makes it healthy again. *)
Theorem down_without_check (s s' : Server) (es : list event) (p : ptr) :
  Forall (λ e, match e with ECheck _ _ => False | _ => True end) es → run s es = Some s' →
  is_Some (sv_targets s !! p) → is_healthy (sv_targets s) p = false → is_healthy (sv_targets s') p = false.
Proof.
  intros Hes Hr Hp Hd. enough (keeps_down s s') as Hk by by apply Hk. clear p Hp Hd. revert s Hr.
  induction Hes as [|e es He _ IH]; intros s Hr; cbn in Hr; [simplify_eq; reflexivity|].
  destruct (step s e) as [s1|] eqn:Es; [|done]. transitivity s1; [by eapply keeps_step|by apply IH].
Qed.

(** ** Examples *)

Definition dns : list event :=
  [EAdd (go!"dns") [(go!"10.0.0.1:53", 1)] (go!"round_robin") false; EListenUDP (go!":53") (go!"dns") (30 * second); EStart;
   EDatagram 0 (go!"192.0.2.7:4000") 0 true true; ECleanup 0 (40 * second);
   EDatagram 0 (go!"192.0.2.7:4000") (41 * second) true true].

(** The reader of a session that the cleanup closed ends the client's next session:
    it removes whatever session has its client's address, here one just created. *)
Theorem stale_reader_ends_new_session :
  ∃ s s', run NewServer dns = Some s ∧ sessions_on (sv_sess s) 0%nat = 1 ∧
    step s (EReader 0 ReadError (41 * second)) = Some s' ∧ sessions_on (sv_sess s') 0%nat = 0 ∧
    us_sessions <$> sv_udps s' !! 0%nat = Some ∅.
Proof. do 2 eexists. split_and!; [vm_compute; reflexivity|by vm_compute|vm_compute; reflexivity|by vm_compute..]. Qed.

(** A server with a health check cannot be stopped twice: stopping it again after a
    restart closes the checker's channel a second time. *)
Theorem second_stop_panics :
  let es := [EAdd (go!"db") [(go!"10.0.0.2:3306", 1)] [] true; EStart; EStop; EStart] in
  is_Some (run NewServer es) ∧ run NewServer (es ++ [EStop]) = None.
Proof. split; [by eexists|by vm_compute]. Qed.

Definition tcp : list event :=
  [EAdd (go!"db") [(go!"a:1", 1); (go!"b:1", 1)] (go!"ip_hash") false; EListenTCP (go!":1") (go!"db"); EStart;
   EAccept (go!":1"); EHandler 0 true; EHandler 0 false].

Lemma stream_counts_exact_witness :
  match run NewServer tcp with
  | Some s => sv_connCount s = 1 ∧ ∃ p, conns (tget (sv_targets s) p) = 1 ∧ handlers_on (sv_handlers s) p = 1
  | None => False end.
Proof.
  destruct (run NewServer tcp) as [s|] eqn:E; [|by vm_compute in E].
  destruct (stream_counts_exact tcp s E) as [Hn Hc].
  assert (s = default NewServer (run NewServer tcp)) as -> by by rewrite E. clear E.
  split; [by vm_compute|]. exists 1%nat. rewrite Hc. by vm_compute.
Defined.

Definition ex_stream : Server := default NewServer (run NewServer tcp).

Lemma stream_ip_hash_one_target_witness :
  (Upstream_Select ex_stream 0).1 = (Upstream_Select (upd ex_stream 1%nat (add_conns 5)) 0).1.
Proof.
  apply (stream_ip_hash_one_target ex_stream (upd ex_stream 1%nat (add_conns 5)) 0 (mkUpstream [0; 1]%nat ipHash None));
    [by vm_compute..|].
  intros p. unfold is_healthy, upd, tget. cbn [with_targets sv_targets]. rewrite lookup_alter.
  case_decide; [subst; by vm_compute|done].
Defined.

Lemma down_without_check_witness :
  is_healthy (sv_targets (default NewServer (run ex_stream [EHandler 0 true; EHandler 0 true; EStop; EStart]))) 1%nat = false.
Proof.
  apply (down_without_check ex_stream _ [EHandler 0 true; EHandler 0 true; EStop; EStart] 1%nat);
    [by repeat constructor|by vm_compute| |by vm_compute].
  by eexists.
Defined.
