(* ===== verification/Http.v ===== *)
(** * Http: requests, responses, handlers and the chain of middlewares

    [src/internal/middleware/middleware.go] and the error responses of
    [src/internal/utils/httperror.go], over a model of fasthttp's request context:
    the request (what the variables read of it, its headers, its body), the response,
    and an environment [E] in which the middlewares that keep a state have theirs.

    What the code relies on of fasthttp is the class [FastHTTP]: reading a body stream
    returns at most what was asked for, and [ctx.Error] replaces the whole response,
    headers included ("this will reset the response headers and body already set").

    A handler changes the context, or panics ([None]); nothing in the server recovers
    a panic of a handler.  A middleware wraps a handler; shown is that a chain runs
    its middlewares in the order they are listed, that one which answers by itself
    keeps the request from everything after it, and that the others then finish in the
    opposite order. *)

From S2P Require Import Prelude GoStrings NetIP ReqVars ProxyHeaders.

Class FastHTTP := {
  stream : Type;
  read_error : Type;
  stream_Read : stream → nat → gostring * option read_error * stream;
  stream_Read_length s n : (length (stream_Read s n).1.1 ≤ n)%nat;
  default_content_type : gostring;
  error_headers : headers;
  error_headers_spec k : k ≠ go!"content-type" → error_headers !! k = None }.

(** The body of a request: what fasthttp reads from, or that behind the limit of
    [bodylimit.go]. *)
Inductive body {F : FastHTTP} : Type :=
  | Stream (s : stream)
  | Limited (original : body) (limit read : Z) (done : bool).

Record request {F : FastHTTP} : Type := mkRequest {
  vars : reqctx; rq_headers : headers; contentLength : Z; bodyStream : option body; remote_user : option gostring }.

Arguments mkRequest {F}.

Record response := mkResponse { rs_status : Z; rs_headers : headers; rs_body : gostring }.

Section Context.
Context {F : FastHTTP} {E : Type}.

Record Ctx := mkCtx { rq : request; rs : response; env : E }.

Definition handler := Ctx → option Ctx.

Definition with_rq (c : Ctx) (r : request) : Ctx := mkCtx r (rs c) (env c).
Definition with_rs (c : Ctx) (r : response) : Ctx := mkCtx (rq c) r (env c).
Definition with_env (c : Ctx) (e : E) : Ctx := mkCtx (rq c) (rs c) e.

Definition with_vars (r : request) (v : reqctx) : request :=
  mkRequest v (rq_headers r) (contentLength r) (bodyStream r) (remote_user r).
Definition with_stream (r : request) (b : option body) : request :=
  mkRequest (vars r) (rq_headers r) (contentLength r) b (remote_user r).
Definition with_user (r : request) (u : gostring) : request :=
  mkRequest (vars r) (rq_headers r) (contentLength r) (bodyStream r) (Some u).

Definition put_header (c : Ctx) (k v : gostring) : Ctx :=
  with_rs c (mkResponse (rs_status (rs c)) (HSet (rs_headers (rs c)) k v) (rs_body (rs c))).
Definition del_header (c : Ctx) (k : gostring) : Ctx :=
  with_rs c (mkResponse (rs_status (rs c)) (Del (rs_headers (rs c)) k) (rs_body (rs c))).
Definition set_status (c : Ctx) (code : Z) : Ctx :=
  with_rs c (mkResponse code (rs_headers (rs c)) (rs_body (rs c))).
Definition set_body (c : Ctx) (b : gostring) : Ctx :=
  with_rs c (mkResponse (rs_status (rs c)) (rs_headers (rs c)) b).

(** [ctx.Error] *)
Definition ctx_Error (c : Ctx) (msg : gostring) (code : Z) : Ctx :=
  with_rs c (mkResponse code error_headers msg).

(** The type of the response's content, which has a default. *)
Definition ContentType (c : Ctx) : gostring :=
  match Peek (rs_headers (rs c)) (go!"Content-Type") with [] => default_content_type | s => s end.

(** What the address functions read of a request. *)
Definition conn_of (r : request) : conn :=
  mkConn (Peek (rq_headers r) (go!"X-Forwarded-For")) (Peek (rq_headers r) (go!"X-Real-IP"))
    (match remote_ip (vars r) with [] => None | ip => Some ip end).

Lemma Peek_set_eq c k v k' : ToLower k = ToLower k' → Peek (rs_headers (rs (put_header c k v))) k' = v.
Proof. intros Hk. unfold Peek. cbn. unfold HSet. by rewrite Hk, lookup_insert_eq. Qed.

Lemma Peek_set_ne c k v k' :
  ToLower k ≠ ToLower k' → Peek (rs_headers (rs (put_header c k v))) k' = Peek (rs_headers (rs c)) k'.
Proof. intros Hk. unfold Peek. cbn. unfold HSet. by rewrite lookup_insert_ne. Qed.

(** ** [httperror.go] *)

Record HTTPError := mkHTTPError { Message : gostring; StatusCode : Z }.

Definition ErrNotFound := mkHTTPError (go!"Not Found") 404.
Definition ErrForbidden := mkHTTPError (go!"Forbidden") 403.
Definition ErrUnauthorized := mkHTTPError (go!"Unauthorized") 401.
Definition ErrBadGateway := mkHTTPError (go!"Bad Gateway") 502.
Definition ErrGatewayTimeout := mkHTTPError (go!"Gateway Timeout") 504.
Definition ErrInternalError := mkHTTPError (go!"Internal Server Error") 500.
Definition ErrTooManyRequests := mkHTTPError (go!"Too Many Requests") 429.
Definition ErrServiceUnavailable := mkHTTPError (go!"Service Unavailable") 503.

Definition SendError (c : Ctx) (err : HTTPError) : Ctx := ctx_Error c (Message err) (StatusCode err).

Definition SendErrorWithDetail (c : Ctx) (err : HTTPError) (detail : gostring) : Ctx :=
  if decide (detail ≠ []) then ctx_Error c (Message err ++ go!": " ++ detail) (StatusCode err)
  else SendError c err.

(** ** [middleware.go] *)

Record Middleware := mkMiddleware { Name : gostring; Process : handler → handler }.

Record Chain := NewChain { middlewares : list Middleware }.

(** The loop of [Apply] goes backwards. *)
Definition Apply (ch : Chain) (final : handler) : handler :=
  foldl (λ h v, Process v h) final (reverse (middlewares ch)).

(** ** Middlewares as layers

    A layer says what a middleware does before the next handler, where it may answer
    by itself ([Answer]), and after it, with the context it was entered with at hand. *)
Inductive entry := Panic | Answer (c : Ctx) | Go (c : Ctx).

Record layer := mkLayer { before : Ctx → entry; after : Ctx → Ctx → option Ctx }.

Definition around (l : layer) (next : handler) : handler := λ c,
  match before l c with
  | Panic => None
  | Answer c' => Some c'
  | Go c' => c'' ← next c'; after l c c''
  end.

Class Layered (m : Middleware) (l : layer) : Prop := layered next c : Process m next c = around l next c.

(** What a list of layers does: down to the handler, or to the layer that answers. *)
Fixpoint descend (ls : list layer) (c : Ctx) : entry :=
  match ls with
  | [] => Go c
  | l :: ls => match before l c with Go c' => descend ls c' | e => e end
  end.

(** And back up, through the layers that were passed. *)
Fixpoint ascend (ls : list layer) (c out : Ctx) : option Ctx :=
  match ls with
  | [] => Some out
  | l :: ls =>
      match before l c with
      | Go c' => out' ← ascend ls c' out; after l c out'
      | _ => Some out
      end
  end.

Lemma Apply_foldr ch final : Apply ch final = foldr (λ v h, Process v h) final (middlewares ch).
Proof.
  destruct ch as [ms]. unfold Apply. cbn [middlewares]. induction ms as [|m ms IH]; [done|].
  rewrite reverse_cons, foldl_app. cbn [foldl foldr]. by rewrite IH.
Qed.

(** A chain runs its middlewares from the first to the last, up to the one that
    answers; without one, the handler; then what remains of those that were passed
    runs from the last to the first. *)
Theorem chain_order ch ls final c :
  Forall2 Layered (middlewares ch) ls →
  Apply ch final c =
    match descend ls c with
    | Panic => None
    | Answer out => ascend ls c out
    | Go c' => out ← final c'; ascend ls c out
    end.
Proof.
  rewrite Apply_foldr. intros Hls. revert c. induction Hls as [|m l ms ls Hm _ IH]; intros c; cbn [foldr descend ascend].
  - by destruct (final c).
  - rewrite Hm. unfold around. destruct (before l c) as [|c'|c']; [done..|]. rewrite IH.
    destruct (descend ls c') as [| |d]; [done..|]. by destruct (final d).
Qed.

(** A request that a layer answers gets the same answer whatever the handler is, even
    one that panics. *)
Lemma answered_unserved ch ls c out final :
  Forall2 Layered (middlewares ch) ls → descend ls c = Answer out → Apply ch final c = ascend ls c out.
Proof. intros Hls Hd. by rewrite (chain_order _ _ _ _ Hls), Hd. Qed.

Lemma descend_app ls ls' c :
  descend (ls ++ ls') c = match descend ls c with Go c' => descend ls' c' | e => e end.
Proof. revert c. induction ls as [|l ls IH]; intros c; [done|]. cbn. destruct (before l c); [done..|apply IH]. Qed.

Lemma ascend_app ls ls' c out c' :
  descend ls c = Go c' → ascend (ls ++ ls') c out = out' ← ascend ls' c' out; ascend ls c out'.
Proof.
  revert c. induction ls as [|l ls IH]; intros c; cbn.
  - intros [= ->]. by destruct (ascend ls' c' out).
  - destruct (before l c) as [| |d]; [done..|]. intros Hd. rewrite (IH d Hd). by destruct (ascend ls' c' out).
Qed.

(** The layers that come after the one that answers have no part in the answer. *)
Lemma ascend_answered ls ls' c c' out l :
  descend ls c = Go c' → before l c' = Answer out → ascend (ls ++ l :: ls') c out = ascend ls c out.
Proof. intros Hd Hb. rewrite (ascend_app _ _ _ _ _ Hd). cbn. by rewrite Hb. Qed.

(** A stack of layers is a layer. *)
Definition stack (ls : list layer) : layer := mkLayer
  (λ c, match descend ls c with
        | Answer out => match ascend ls c out with Some out => Answer out | None => Panic end
        | e => e
        end)
  (λ c out, ascend ls c out).

Lemma stack_layered ch ls next c :
  Forall2 Layered (middlewares ch) ls → Apply ch next c = around (stack ls) next c.
Proof.
  intros Hls. rewrite (chain_order _ _ _ _ Hls). unfold around, stack. cbn.
  destruct (descend ls c) as [|out|c']; [done| |done]. by destruct (ascend ls c out).
Qed.

End Context.

Arguments Ctx {F} E : rename.
Arguments handler {F} E : rename.
Arguments Middleware {F} E : rename.
Arguments Chain {F} E : rename.
Arguments layer {F} E : rename.
Arguments entry {F} E : rename.

(** Reads a header of a response whose headers were set one after the other. *)
Ltac peek :=
  repeat first [rewrite Peek_set_eq by reflexivity | rewrite Peek_set_ne by (by vm_compute)].

(** ** An instance for examples: a body is a text that is read from its start *)

Definition text_http : FastHTTP.
Proof.
  refine {| stream := gostring; read_error := unit;
    stream_Read s n := (take n s, if decide (s = []) then Some tt else None, drop n s);
    default_content_type := go!"text/plain; charset=utf-8";
    error_headers := {[ go!"content-type" := go!"text/plain; charset=utf-8" ]} |}.
  - intros s n. cbn. rewrite length_take. lia.
  - intros k Hk. by rewrite lookup_singleton_ne.
Defined.

Definition ex_ctx {E : Type} (h : headers) (tls : bool) (path : gostring) (e : E) : @Ctx text_http E :=
  @mkCtx text_http E
    (@mkRequest text_http
      (mkReq (go!"example.com") path path [] (go!"GET") tls [10; 0; 0; 7] (Some (go!"10.0.0.7:4711")) None
        None None None None None [] [] (go!"5f8e")) h 0 None None)
    (mkResponse 200 ∅ []) e.
