(* ===== verification/Auth.v ===== *)
(** * Auth: HTTP Basic authentication

    [src/internal/middleware/security/auth.go].  The password hashes are those of
    golang.org/x/crypto: [bcrypt.CompareHashAndPassword] and [argon2.IDKey] are
    parameters, the latter with the panics its source has ([None]).

    Shown: the stored hashes always have the form the algorithm checks for; a request
    passes exactly when its header carries credentials of a user whose hash accepts the
    password, and the credentials of every user whose name has no colon arrive as the
    client sent them; the parser of Argon2id hashes reads back what the format says, its
    numbers modulo their width. *)

From S2P Require Import Prelude GoStrings Base64 GoTime Config NetIP ReqVars ProxyHeaders Http.

Inductive HashAlgorithm := HashBcrypt | HashArgon2id.

Record argon2Params := mkArgon2 { a2_time : Z; a2_memory : Z; a2_threads : Z; a2_saltLen : Z; a2_keyLen : Z }.

Definition defaultArgon2Params : argon2Params := mkArgon2 3 (64 * 1024) 4 16 32.

Record BasicAuth := mkBasicAuth {
  users : gmap gostring gostring; realm : gostring; algorithm : HashAlgorithm; ba_argon2Params : argon2Params;
  requireTLS : bool }.

Inductive auth_error :=
  | AuthNil
  | UnsupportedType (t : gostring)
  | NoUsers
  | UnsupportedAlgorithm (a : gostring)
  | EmptyUsername
  | EmptyPassword (user : gostring)
  | InvalidHash (user : gostring).

(** Is the hash of the form the algorithm wants? *)
Definition validatePasswordHash (hash : gostring) (alg : HashAlgorithm) : bool :=
  match alg with
  | HashBcrypt => HasPrefix hash (go!"$2")
  | HashArgon2id => HasPrefix hash (go!"$argon2id$")
  end.

Fixpoint load_users (alg : HashAlgorithm) (us : list User) (m : gmap gostring gostring)
  : res auth_error (gmap gostring gostring) :=
  match us with
  | [] => Ok m
  | u :: us =>
      if decide (u_Name u = []) then Err EmptyUsername
      else if decide (u_Password u = []) then Err (EmptyPassword (u_Name u))
      else if negb (validatePasswordHash (u_Password u) alg) then Err (InvalidHash (u_Name u))
      else load_users alg us (<[u_Name u := u_Password u]> m)
  end.

Definition parse_algorithm (s : gostring) : res auth_error HashAlgorithm :=
  if decide (ToLower s = go!"bcrypt" ∨ ToLower s = []) then Ok HashBcrypt
  else if decide (ToLower s = go!"argon2id") then Ok HashArgon2id
  else Err (UnsupportedAlgorithm s).

Definition NewBasicAuth (cfg : option AuthConfig) : res auth_error BasicAuth :=
  match cfg with
  | None => Err AuthNil
  | Some cfg =>
      if decide (au_Type cfg ≠ go!"basic") then Err (UnsupportedType (au_Type cfg))
      else if decide (au_Users cfg = []) then Err NoUsers
      else
        let realm := if decide (au_Realm cfg ≠ []) then au_Realm cfg else go!"Restricted Area" in
        alg ← parse_algorithm (au_Algorithm cfg);
        us ← load_users alg (au_Users cfg) ∅;
        Ok (mkBasicAuth us realm alg defaultArgon2Params (au_RequireTLS cfg))
  end.

Definition with_users (ba : BasicAuth) (m : gmap gostring gostring) : BasicAuth :=
  mkBasicAuth m (realm ba) (algorithm ba) (ba_argon2Params ba) (requireTLS ba).

Definition AddUser (ba : BasicAuth) (username hashedPassword : gostring) : option auth_error * BasicAuth :=
  if decide (username = []) then (Some EmptyUsername, ba)
  else if negb (validatePasswordHash hashedPassword (algorithm ba)) then (Some (InvalidHash username), ba)
  else (None, with_users ba (<[username := hashedPassword]> (users ba))).

Definition RemoveUser (ba : BasicAuth) (username : gostring) : BasicAuth :=
  with_users ba (delete username (users ba)).

Definition UpdateUser (ba : BasicAuth) (username hashedPassword : gostring) : option auth_error * BasicAuth :=
  AddUser ba username hashedPassword.

Definition HasUser (ba : BasicAuth) (username : gostring) : bool :=
  bool_decide (default [] (users ba !! username) ≠ []).

Definition UserCount (ba : BasicAuth) : Z := Z.of_nat (size (users ba)).

(** ** Hashes *)

(** The loop over the characters: those that are no digits are skipped, and the
    arithmetic is that of the width. *)
Definition parse_uint (m : Z) (s : gostring) : Z :=
  foldl (λ result c, if is_digit c then ((result * 10) mod m + digit_val c) mod m else result) 0 s.

Definition parseUint32 (s : gostring) : Z := parse_uint (2 ^ 32) s.
Definition parseUint8 (s : gostring) : Z := parse_uint (2 ^ 8) s.

(** One parameter of the third part. *)
Definition argon2_param (params : argon2Params) (p : gostring) : argon2Params :=
  match SplitByte p "=" with
  | [k; v] =>
      if decide (k = go!"m") then
        mkArgon2 (a2_time params) (parseUint32 v) (a2_threads params) (a2_saltLen params) (a2_keyLen params)
      else if decide (k = go!"t") then
        mkArgon2 (parseUint32 v) (a2_memory params) (a2_threads params) (a2_saltLen params) (a2_keyLen params)
      else if decide (k = go!"p") then
        mkArgon2 (a2_time params) (a2_memory params) (parseUint8 v) (a2_saltLen params) (a2_keyLen params)
      else params
  | _ => params
  end.

Definition parseArgon2idHash (hash : gostring) : option (argon2Params * gostring * gostring) :=
  match SplitByte hash "$" with
  | [_; name; version; paramsStr; salt64; hash64] =>
      if decide (name ≠ go!"argon2id") then None
      else if decide (version ≠ go!"v=19") then None
      else
        let params := foldl argon2_param defaultArgon2Params (SplitByte paramsStr ",") in
        salt ← raw_DecodeString salt64;
        expected ← raw_DecodeString hash64;
        Some (mkArgon2 (a2_time params) (a2_memory params) (a2_threads params) (a2_saltLen params)
                (zlen expected mod 2 ^ 32), salt, expected)
  | _ => None
  end.

(** [strings.Cut] at a byte. *)
Definition CutByte (s : gostring) (c : ascii) : option (gostring * gostring) :=
  i ← IndexByte s c; Some (take i s, drop (S i) s).

(** ** Lemmas of the texts *)

Lemma IndexByte_spec s c i : IndexByte s c = Some i ↔ s !! i = Some c ∧ c ∉ take i s.
Proof.
  revert i. induction s as [|d s IH]; intros i; cbn; [by destruct i; naive_solver|].
  destruct (Ascii.eqb_spec d c) as [->|Hne].
  - split; [intros [= <-]; split; [done|apply not_elem_of_nil]|].
    intros [Hi Hn]. destruct i as [|i]; [done|]. exfalso. apply Hn. apply elem_of_cons. by left.
  - destruct i as [|i]; cbn.
    + split; [by destruct (IndexByte s c)|]. intros [[= ->] _]. done.
    + rewrite not_elem_of_cons. split.
      * intros (j & Hj & [= <-])%fmap_Some. apply IH in Hj. naive_solver.
      * intros [Hi [_ Hn]]. by rewrite (proj2 (IH i)).
Qed.

(** [Cut] splits at the first occurrence. *)
Lemma CutByte_spec s c u p : CutByte s c = Some (u, p) ↔ s = u ++ c :: p ∧ c ∉ u.
Proof.
  unfold CutByte. split.
  - intros (i & [Hi Hn]%IndexByte_spec & [= <- <-])%bind_Some. split; [|done]. by rewrite <- drop_S, take_drop.
  - intros [-> Hn]. assert (IndexByte (u ++ c :: p) c = Some (length u)) as ->.
    { apply IndexByte_spec. rewrite take_app_length. split; [|done]. by apply list_lookup_middle. }
    cbn. rewrite take_app_length, cons_middle, app_assoc, drop_app_length'; [done|]. rewrite length_app. cbn. lia.
Qed.

Lemma parse_uint_val m s : 0 < m → forallb is_digit s = true → parse_uint m s = digits_val s mod m.
Proof.
  intros Hm Hs. unfold parse_uint, digits_val. induction s as [|c s IH] using rev_ind; [by rewrite Z.mod_0_l by lia|].
  rewrite forallb_app in Hs. apply andb_true_iff in Hs as [Hs Hc]. cbn in Hc. rewrite andb_true_r in Hc.
  rewrite !foldl_app. cbn [foldl]. rewrite IH, Hc by done.
  rewrite Z.add_mod_idemp_l by lia. rewrite <- (Z.add_mod_idemp_l (_ * 10)), Z.mul_mod_idemp_l, Z.add_mod_idemp_l by lia. done.
Qed.

(** What the parser makes of a number in decimal. *)
Lemma parse_uint_FormatInt m n : 0 < m → 0 ≤ n ≤ int64_max → parse_uint m (FormatInt n) = n mod m.
Proof.
  intros Hm Hn. rewrite parse_uint_val, FormatInt_val; [done..|]. by apply FormatInt_digits.
Qed.

(** ** The text of an Argon2id hash *)

Definition argon2_text (m t p : Z) (salt64 hash64 : gostring) : gostring :=
  GoStrings.Join [[]; go!"argon2id"; go!"v=19";
    GoStrings.Join [go!"m=" ++ FormatInt m; go!"t=" ++ FormatInt t; go!"p=" ++ FormatInt p] [","%char];
    salt64; hash64] ["$"%char].

Lemma digits_free n c : 0 ≤ n ≤ int64_max → is_digit c = false → c ∉ FormatInt n.
Proof.
  intros Hn Hc Hin. destruct (FormatInt_digits n Hn) as [H _]. rewrite forallb_forall in H.
  apply list_elem_of_In in Hin. by rewrite (H c Hin) in Hc.
Qed.

(** A parameter is read modulo the width of its field. *)
Lemma argon2_param_read params n :
  0 ≤ n ≤ int64_max →
  argon2_param params (go!"m=" ++ FormatInt n) =
    mkArgon2 (a2_time params) (n mod 2 ^ 32) (a2_threads params) (a2_saltLen params) (a2_keyLen params) ∧
  argon2_param params (go!"t=" ++ FormatInt n) =
    mkArgon2 (n mod 2 ^ 32) (a2_memory params) (a2_threads params) (a2_saltLen params) (a2_keyLen params) ∧
  argon2_param params (go!"p=" ++ FormatInt n) =
    mkArgon2 (a2_time params) (a2_memory params) (n mod 2 ^ 8) (a2_saltLen params) (a2_keyLen params).
Proof.
  intros Hn. assert (∀ k : ascii, k ≠ "="%char → SplitByte ([k] ++ "="%char :: FormatInt n) "=" = [[k]; FormatInt n]) as H.
  { intros k Hk. rewrite SplitByte_app by (intros ?%list_elem_of_singleton; congruence).
    by rewrite SplitByte_none by (by apply digits_free). }
  pose proof (H "m"%char ltac:(done)) as Hm. pose proof (H "t"%char ltac:(done)) as Ht.
  pose proof (H "p"%char ltac:(done)) as Hp. cbn [app] in Hm, Ht, Hp.
  unfold argon2_param, parseUint32, parseUint8. 
  change (go!"m=" ++ FormatInt n) with ("m"%char :: "="%char :: FormatInt n).
  change (go!"t=" ++ FormatInt n) with ("t"%char :: "="%char :: FormatInt n).
  change (go!"p=" ++ FormatInt n) with ("p"%char :: "="%char :: FormatInt n).
  rewrite Hm, Ht, Hp. by rewrite !parse_uint_FormatInt by lia.
Qed.

(** The parser reads back the parameters, the salt and the hash of the text the format
    prescribes, the numbers modulo the width of their fields. *)
Theorem argon2_parse_print m t p salt64 hash64 salt h :
  0 ≤ m ≤ int64_max → 0 ≤ t ≤ int64_max → 0 ≤ p ≤ int64_max →
  "$"%char ∉ salt64 → "$"%char ∉ hash64 →
  raw_DecodeString salt64 = Some salt → raw_DecodeString hash64 = Some h →
  parseArgon2idHash (argon2_text m t p salt64 hash64) =
    Some (mkArgon2 (t mod 2 ^ 32) (m mod 2 ^ 32) (p mod 2 ^ 8) 16 (zlen h mod 2 ^ 32), salt, h).
Proof.
  intros Hm Ht Hp Hs Hh Ds Dh. unfold argon2_text.
  set (ps := [go!"m=" ++ FormatInt m; _; _]).
  assert (∀ c, is_digit c = false → c ∉ go!"mtp=" → Forall (λ s, c ∉ s) ps) as Hps.
  { intros c Hd Hc. change (go!"mtp=") with ["m"; "t"; "p"; "="]%char in Hc.
    rewrite !not_elem_of_cons in Hc. destruct Hc as (? & ? & ? & ? & _).
    assert (∀ (k : ascii) n, 0 ≤ n ≤ int64_max → c ≠ k → c ∉ [k; "="%char] ++ FormatInt n) as Hk.
    { intros k n Hn Hck. rewrite elem_of_app, !elem_of_cons, elem_of_nil. pose proof (digits_free n c Hn Hd). naive_solver. }
    repeat constructor; by apply Hk. }
  unfold parseArgon2idHash. rewrite SplitByte_Join; [|done|].
  - rewrite !decide_False by (intros []; done). rewrite SplitByte_Join; [|done|apply Hps; [done|]; apply (bool_decide_unpack _); by vm_compute].
    unfold ps. cbn [foldl app]. 
    rewrite (proj1 (argon2_param_read _ m Hm)), (proj1 (proj2 (argon2_param_read _ t Ht))),
      (proj2 (proj2 (argon2_param_read _ p Hp))), Ds, Dh. done.
  - assert ("$"%char ∉ GoStrings.Join ps [","%char]) as Hj.
    { apply Join_free; [|apply Hps; [done|]]; apply (bool_decide_unpack _); by vm_compute. }
    repeat constructor; try done; apply (bool_decide_unpack _); by vm_compute.
Qed.

(** ** The users *)

Definition valid_users (ba : BasicAuth) : Prop :=
  ∀ u h, users ba !! u = Some h → u ≠ [] ∧ validatePasswordHash h (algorithm ba) = true.

Lemma load_users_valid alg us m m' :
  load_users alg us m = Ok m' →
  (∀ u h, m !! u = Some h → u ≠ [] ∧ validatePasswordHash h alg = true) →
  ∀ u h, m' !! u = Some h → u ≠ [] ∧ validatePasswordHash h alg = true.
Proof.
  revert m. induction us as [|x us IH]; intros m; cbn; [naive_solver|].
  case_decide as Hn; [done|]. case_decide as Hp; [done|].
  destruct (validatePasswordHash (u_Password x) alg) eqn:Hv; [|done]. cbn. intros Hl Hm. apply (IH _ Hl).
  intros u h [[<- <-]|[_ Hu]]%lookup_insert_Some; [done|]. by apply Hm.
Qed.

(** What happens to the users of a running server. *)
Inductive user_op := Adding (u h : gostring) | Updating (u h : gostring) | Removing (u : gostring).

Definition user_step (ba : BasicAuth) (o : user_op) : BasicAuth :=
  match o with
  | Adding u h => (AddUser ba u h).2
  | Updating u h => (UpdateUser ba u h).2
  | Removing u => RemoveUser ba u
  end.

Lemma user_step_valid ba o : valid_users ba → valid_users (user_step ba o).
Proof.
  assert (∀ u h, valid_users ba → valid_users (AddUser ba u h).2) as Hadd.
  { intros u h Hba. unfold AddUser. case_decide as Hn; [done|].
    destruct (validatePasswordHash h (algorithm ba)) eqn:Hv; [|done]. cbn.
    intros v g Hv'. cbn in *. apply lookup_insert_Some in Hv' as [[<- <-]|[_ Hu]]; [done|]. by apply Hba. }
  destruct o as [u h|u h|u]; [by apply Hadd..|]. intros Hba v g Hv. cbn in *.
  apply lookup_delete_Some in Hv as [_ Hv]. by apply Hba.
Qed.

(** A hash accepted for an algorithm is no empty text, so that [HasUser], which
    compares the hash with it, says who is in the table. *)
Lemma valid_HasUser ba u : valid_users ba → HasUser ba u = true ↔ is_Some (users ba !! u).
Proof.
  intros Hba. unfold HasUser. rewrite bool_decide_eq_true. destruct (users ba !! u) as [h|] eqn:Hu; cbn.
  - split; [by eexists|]. intros _ ->. destruct (Hba u [] Hu) as [_ Hv]. by destruct (algorithm ba).
  - split; [done|]. by intros [? ?].
Qed.

(** The users of a server, however they are changed while it runs, all have a name
    and a hash that begins the way the algorithm wants it, and [HasUser] tells exactly
    which names are in the table. *)
Theorem users_stay_valid cfg ba ops :
  NewBasicAuth cfg = Ok ba →
  let ba' := foldl user_step ba ops in
  valid_users ba' ∧ ∀ u, HasUser ba' u = true ↔ is_Some (users ba' !! u).
Proof.
  intros Hnew. assert (valid_users ba) as Hba.
  { destruct cfg as [cfg|]; [|done]. cbn in Hnew. case_decide; [done|]. case_decide; [done|].
    destruct (parse_algorithm (au_Algorithm cfg)) as [alg|]; [|done]. cbn in Hnew.
    destruct (load_users alg (au_Users cfg) ∅) as [m|] eqn:Hl; [|done]. injection Hnew as <-.
    intros u h. apply (load_users_valid _ _ _ _ Hl). by intros ? ? ?%lookup_empty_Some. }
  cbn zeta. assert (valid_users (foldl user_step ba ops)) as H.
  { clear Hnew. revert ba Hba. induction ops as [|o ops IH]; intros ba Hba; [done|]. by apply IH, user_step_valid. }
  split; [done|]. intros u. by apply valid_HasUser.
Qed.

(** ** The middleware *)

Section Auth.
Context (bcrypt_Compare : gostring → gostring → bool).
(** Password, salt, time, memory, threads, length of the key. *)
Context (argon2_IDKey : gostring → gostring → Z → Z → Z → Z → option gostring).

Definition authenticateBcrypt (password hash : gostring) : bool := bcrypt_Compare hash password.

(** [None] is a panic. *)
Definition authenticateArgon2id (password hash : gostring) : option bool :=
  match parseArgon2idHash hash with
  | None => Some false
  | Some (params, salt, expected) =>
      actual ← argon2_IDKey password salt (a2_time params) (a2_memory params) (a2_threads params) (a2_keyLen params);
      Some (bool_decide (actual = expected))
  end.

Definition Authenticate (ba : BasicAuth) (username password : gostring) : option bool :=
  match users ba !! username with
  | None => Some false
  | Some hash =>
      match algorithm ba with
      | HashBcrypt => Some (authenticateBcrypt password hash)
      | HashArgon2id => authenticateArgon2id password hash
      end
  end.

Context {F : FastHTTP} {E : Type}.
Implicit Types (c : Ctx E).

Definition extractCredentials c : option (gostring * gostring) :=
  let authStr := Peek (rq_headers (rq c)) (go!"Authorization") in
  if decide (authStr = []) then None
  else if negb (HasPrefix authStr (go!"Basic ")) then None
  else
    decoded ← std_DecodeString (TrimPrefix authStr (go!"Basic "));
    CutByte decoded ":".

Definition quoted_realm (r : gostring) : gostring :=
  go!"Basic realm=" ++ "034"%char :: r ++ "034"%char :: go!", charset=" ++ "034"%char :: go!"UTF-8" ++ ["034"%char].

Definition sendAuthChallenge (ba : BasicAuth) c : Ctx E :=
  SendError (put_header c (go!"WWW-Authenticate") (quoted_realm (realm ba))) ErrUnauthorized.

Definition Auth_Process (ba : BasicAuth) (next : handler E) : handler E := λ c,
  if requireTLS ba && negb (rq_tls (vars (rq c))) then
    Some (ctx_Error c (go!"Forbidden: HTTPS required for authentication") 403)
  else
    match extractCredentials c with
    | None => Some (sendAuthChallenge ba c)
    | Some (username, password) =>
        ok ← Authenticate ba username password;
        if negb ok then Some (sendAuthChallenge ba c)
        else next (with_rq c (with_user (rq c) username))
    end.

Definition Auth_Middleware (ba : BasicAuth) : Middleware E := mkMiddleware (go!"basic_auth") (Auth_Process ba).

Definition auth_layer (ba : BasicAuth) : layer E := mkLayer
  (λ c,
    if requireTLS ba && negb (rq_tls (vars (rq c))) then
      Answer (ctx_Error c (go!"Forbidden: HTTPS required for authentication") 403)
    else
      match extractCredentials c with
      | None => Answer (sendAuthChallenge ba c)
      | Some (username, password) =>
          match Authenticate ba username password with
          | None => Panic
          | Some false => Answer (sendAuthChallenge ba c)
          | Some true => Go (with_rq c (with_user (rq c) username))
          end
      end)
  (λ _, Some).

#[global] Instance Auth_layered ba : Layered (Auth_Middleware ba) (auth_layer ba).
Proof.
  intros next c. unfold around. cbn. unfold Auth_Process. destruct (requireTLS ba && _); [done|].
  destruct (extractCredentials c) as [[u p]|]; [|done]. destruct (Authenticate ba u p) as [[]|]; [|done..]. cbn.
  by destruct (next _).
Qed.

(** ** Who passes *)

Lemma extract_spec c u p :
  extractCredentials c = Some (u, p) ↔
  ∃ enc, Peek (rq_headers (rq c)) (go!"Authorization") = go!"Basic " ++ enc ∧
    std_DecodeString enc = Some (u ++ ":"%char :: p) ∧ ":"%char ∉ u.
Proof.
  unfold extractCredentials. set (h := Peek _ _). case_decide as He.
  { split; [done|]. by intros (enc & Hh & _); rewrite He in Hh. }
  destruct (HasPrefix h (go!"Basic ")) eqn:Hp; cbn [negb].
  - apply HasPrefix_spec in Hp as [enc Henc]. rewrite Henc. unfold TrimPrefix. rewrite HasPrefix_app, drop_app_length.
    split.
    + intros (d & Hd & [Hc Hn]%CutByte_spec)%bind_Some. exists enc. by rewrite Hd, Hc.
    + intros (enc' & Heq%app_inv_head & Hd & Hn). subst enc'. rewrite Hd. cbn. by apply CutByte_spec.
  - split; [done|]. intros (enc & Hh & _). by rewrite Hh, HasPrefix_app in Hp.
Qed.

(** A request reaches the handler exactly when it came over TLS where that is required,
    and its header decodes to the name of a user and a password the user's hash
    accepts; the name is what the variables and the log then see. *)
Theorem auth_admits ba c c' :
  before (auth_layer ba) c = Go c' ↔
  (requireTLS ba = true → rq_tls (vars (rq c)) = true) ∧
  ∃ enc u p,
    Peek (rq_headers (rq c)) (go!"Authorization") = go!"Basic " ++ enc ∧
    std_DecodeString enc = Some (u ++ ":"%char :: p) ∧ ":"%char ∉ u ∧
    Authenticate ba u p = Some true ∧ c' = with_rq c (with_user (rq c) u).
Proof.
  cbn. destruct (requireTLS ba && negb (rq_tls (vars (rq c)))) eqn:Ht.
  { split; [done|]. intros [H _]. destruct (requireTLS ba); [|done]. by rewrite H in Ht. }
  transitivity (∃ u p, extractCredentials c = Some (u, p) ∧ Authenticate ba u p = Some true ∧
                  c' = with_rq c (with_user (rq c) u)).
  - destruct (extractCredentials c) as [[u p]|]; [|naive_solver].
    destruct (Authenticate ba u p) as [[]|] eqn:Ha; naive_solver.
  - setoid_rewrite extract_spec. destruct (requireTLS ba), (rq_tls (vars (rq c))); naive_solver.
Qed.

(** What a client sends for a name without a colon, and any password, arrives as it
    was sent; no header carries a name with a colon, so that a user configured with
    one is never authenticated. *)
Theorem credentials_arrive c u :
  if decide (":"%char ∈ u) then ∀ p, extractCredentials c ≠ Some (u, p)
  else ∀ p, Peek (rq_headers (rq c)) (go!"Authorization") = go!"Basic " ++ std_EncodeToString (u ++ ":"%char :: p) →
    extractCredentials c = Some (u, p).
Proof.
  case_decide as Hu; intros p.
  - intros (enc & _ & _ & Hn)%extract_spec. done.
  - intros Hh. apply extract_spec. exists (std_EncodeToString (u ++ ":"%char :: p)).
    by rewrite std_DecodeString_Encode.
Qed.

(** The challenge never reaches the client: the error response replaces the headers,
    the challenge among them. *)
Theorem challenge_lost ba c :
  Peek (rs_headers (rs (sendAuthChallenge ba c))) (go!"WWW-Authenticate") = [].
Proof.
  unfold Peek. cbn. by rewrite error_headers_spec by (by vm_compute).
Qed.

(** The parameters of a hash are not checked: with a parallelism of 256, which the
    width of the field makes zero, the configuration is accepted and every attempt to
    log in as the user, whatever the password, takes the server down. *)
Definition admin_hash : gostring := argon2_text 65536 3 256 (go!"c2FsdHNhbHQ") (go!"aGFzaA").

Definition admin_config : AuthConfig :=
  mkAuthConfig (go!"basic") (go!"argon2id") [] [mkUser (go!"admin") admin_hash] 8 false.

Theorem unchecked_parameters_panic c password next :
  (∀ p s t m k, argon2_IDKey p s t m 0 k = None) →
  Peek (rq_headers (rq c)) (go!"Authorization") = go!"Basic " ++ std_EncodeToString (go!"admin:" ++ password) →
  ∃ ba, NewBasicAuth (Some admin_config) = Ok ba ∧ Auth_Process ba next c = None.
Proof.
  intros Hpanic Hh.
  set (ba := mkBasicAuth {[ go!"admin" := admin_hash ]} (go!"Restricted Area") HashArgon2id defaultArgon2Params false).
  exists ba. split; [by vm_compute|]. unfold Auth_Process. cbn [requireTLS ba andb].
  assert (extractCredentials c = Some (go!"admin", password)) as ->.
  { pose proof (proj2 (extract_spec c (go!"admin") password)) as Hx. apply Hx.
    eexists. split; [exact Hh|]. rewrite std_DecodeString_Encode. split; [done|].
    apply (bool_decide_unpack _). by vm_compute. }
  unfold Authenticate. cbn [users algorithm ba]. rewrite lookup_singleton_eq. unfold authenticateArgon2id.
  replace (parseArgon2idHash admin_hash) with
    (Some (mkArgon2 3 65536 0 16 4, go!"saltsalt", go!"hash")) by (by vm_compute).
  cbn [a2_threads a2_time a2_memory a2_keyLen]. by rewrite Hpanic.
Qed.

End Auth.

(** ** Examples *)

#[local] Instance http : FastHTTP := text_http.

Definition ex_config : AuthConfig :=
  mkAuthConfig (go!"basic") [] [] [mkUser (go!"alice") (go!"$2b$10$secret")] 8 true.
Definition ex_bcrypt (hash password : gostring) : bool := bool_decide (hash = go!"$2b$10$" ++ password).
Definition no_argon2 (_ _ : gostring) (_ _ _ _ : Z) : option gostring := None.
Definition ex_auth : BasicAuth :=
  mkBasicAuth {[ go!"alice" := go!"$2b$10$secret" ]} (go!"Restricted Area") HashBcrypt defaultArgon2Params true.
Definition ex_header (credentials : gostring) : headers :=
  {[ go!"authorization" := go!"Basic " ++ std_EncodeToString credentials ]}.

Lemma users_stay_valid_witness :
  let ba := foldl user_step ex_auth [Adding (go!"bob") (go!"$2a$08$pw"); Removing (go!"alice"); Adding (go!"eve") (go!"plain")] in
  HasUser ba (go!"bob") = true ∧ HasUser ba (go!"eve") = false ∧ valid_users ba.
Proof.
  split; [by vm_compute|]. split; [by vm_compute|].
  exact (proj1 (users_stay_valid (Some ex_config) ex_auth [_; _; _] eq_refl)).
Defined.

Lemma argon2_parse_print_witness :
  parseArgon2idHash (argon2_text 65536 3 4 (go!"c2FsdHNhbHQ") (go!"aGFzaA")) =
    Some (mkArgon2 3 65536 4 16 4, go!"saltsalt", go!"hash").
Proof.
  apply (argon2_parse_print 65536 3 4 (go!"c2FsdHNhbHQ") (go!"aGFzaA") (go!"saltsalt") (go!"hash"));
    unfold int64_max; try lia; try (apply (bool_decide_unpack _)); by vm_compute.
Defined.

Lemma unchecked_parameters_panic_witness :
  ∃ ba, NewBasicAuth (Some admin_config) = Ok ba ∧
    Auth_Process (E := unit) ex_bcrypt no_argon2 ba Some (ex_ctx (ex_header (go!"admin:x")) false (go!"/") tt) = None.
Proof.
  apply (unchecked_parameters_panic ex_bcrypt no_argon2
    (ex_ctx (ex_header (go!"admin:x")) false (go!"/") tt) (go!"x") Some); [done|by vm_compute].
Defined.

(** The right password passes, over TLS only, and a name with a colon never. *)
Example ex_login :
  let run h tls := option_map (λ c, (rs_status (rs c), remote_user (rq c)))
    (Auth_Process (E := unit) ex_bcrypt no_argon2 ex_auth Some (ex_ctx h tls (go!"/") tt)) in
  run (ex_header (go!"alice:secret")) true = Some (200, Some (go!"alice")) ∧
  run (ex_header (go!"alice:secret")) false = Some (403, None) ∧
  run (ex_header (go!"alice:Secret")) true = Some (401, None) ∧
  run ∅ true = Some (401, None).
Proof. by vm_compute. Qed.
