(* ===== verification/BodyLimit.v ===== *)
(** * BodyLimit: the limit on the size of request bodies

    [src/internal/middleware/bodylimit/bodylimit.go]: the sizes of the configuration,
    the limit of a path, the middleware, and the reader that it puts before the body.
    [strconv.ParseFloat] is computed: the digits without the point, divided by the power
    of ten, rounded once.  The order in which Go ranges over the map of limits is a
    parameter.

    Shown: the limit of a path is that of its longest configured prefix whatever the
    order of the map; the reader never hands out more bytes than the limit, in the
    order of the body, and a body is read to its end exactly when it is shorter than the
    limit; which sizes are accepted. *)

From Corelib Require Import SpecFloat.
From S2P Require Import Prelude GoStrings Float64 NetIP ReqVars ProxyHeaders Http.

Definition DefaultMaxBodySize : Z := Z.shiftl 1 20.

(** ** Sizes *)

Inductive size_error := InvalidSize (s : gostring) | InvalidNumber (s : gostring) | UnsupportedUnit (u : gostring).

Definition size_char (c : ascii) : bool := is_digit c || Ascii.eqb c ".".

(** The loop over the text: the number is its longest beginning of digits and points. *)
Fixpoint split_size (s : gostring) : gostring * gostring :=
  match s with
  | c :: s' => if size_char c then let '(n, u) := split_size s' in (c :: n, u) else ([], s)
  | [] => ([], [])
  end.

(** [strconv.ParseFloat] on digits and points, [None] for a syntax or range error. *)
Definition ParseFloat (s : gostring) : option float64 :=
  let digits := filter (λ c, is_digit c = true) s in
  let points := filter (λ c, c = "."%char) s in
  if bool_decide (digits = []) || (1 <? length points)%nat then None
  else
    let fraction := match IndexByte s "." with Some i => (length s - S i)%nat | None => 0%nat end in
    match digits_val digits, 10 ^ Z.of_nat fraction with
    | Zpos m, Zpos d =>
        match f64_div (S754_finite false m 0) (S754_finite false d 0) with
        | S754_infinity _ => None
        | f => Some f
        end
    | _, _ => Some (S754_zero false)
    end.

Definition size_unit (u : gostring) : option Z :=
  if decide (u = [] ∨ u = go!"b") then Some 1
  else if decide (u = go!"kb") then Some 1024
  else if decide (u = go!"mb") then Some (1024 * 1024)
  else if decide (u = go!"gb") then Some (1024 * 1024 * 1024)
  else None.

Definition ParseSize (sizeStr : gostring) : res size_error Z :=
  if decide (sizeStr = []) then Ok DefaultMaxBodySize
  else
    let s := TrimSpace (ToLower sizeStr) in
    let '(numStr, unit) := split_size s in
    if decide (numStr = []) then Err (InvalidSize s)
    else
      match ParseFloat numStr with
      | None => Err (InvalidNumber numStr)
      | Some value =>
          match size_unit unit with
          | None => Err (UnsupportedUnit unit)
          | Some multiplier => Ok (int_of_f64 (f64_mul value (f64_of_int multiplier)))
          end
      end.

(** ** Limits *)

Record BodyLimit := mkBodyLimit { pathLimits : gmap gostring Z; maxBodySize : Z }.

Definition New (maxBodySize : gostring) : res size_error BodyLimit :=
  size ← ParseSize maxBodySize; Ok (mkBodyLimit ∅ size).

Definition NewWithDefault : BodyLimit := mkBodyLimit ∅ DefaultMaxBodySize.

Definition AddPathLimit (bl : BodyLimit) (path sizeStr : gostring) : res size_error BodyLimit :=
  size ← ParseSize sizeStr; Ok (mkBodyLimit (<[path := size]> (pathLimits bl)) (maxBodySize bl)).

(** The loop of [GetLimit]: the limit matched so far, and its path. *)
Fixpoint limit_loop (path : gostring) (entries : list (gostring * Z)) (matched : option (gostring * Z))
  : option (gostring * Z) :=
  match entries with
  | [] => matched
  | (prefix, limit) :: entries =>
      limit_loop path entries
        (if HasPrefix path prefix then
           match matched with
           | None => Some (prefix, limit)
           | Some (matchedPath, _) => if (length matchedPath <? length prefix)%nat then Some (prefix, limit) else matched
           end
         else matched)
  end.

Definition GetLimit (range : gmap gostring Z → list (gostring * Z)) (bl : BodyLimit) (path : gostring) : Z :=
  match limit_loop path (range (pathLimits bl)) None with
  | Some (_, limit) => limit
  | None => maxBodySize bl
  end.

(** ** The middleware and its reader *)

Section BodyLimit.
Context {F : FastHTTP} {E : Type} (range : gmap gostring Z → list (gostring * Z)).
Implicit Types (c : Ctx E).

Definition too_large : gostring := go!"Request Entity Too Large".

(** The request past the check of its length, its body behind the reader. *)
Definition limited_rq (bl : BodyLimit) (r : request) : request :=
  match bodyStream r with
  | None => r
  | Some b => with_stream r (Some (Limited b (GetLimit range bl (rq_path (vars r))) 0 false))
  end.

Definition BodyLimit_Process (bl : BodyLimit) (next : handler E) : handler E := λ c,
  let limit := GetLimit range bl (rq_path (vars (rq c))) in
  if (0 <? contentLength (rq c)) && (limit <? contentLength (rq c)) then
    Some (ctx_Error c too_large 413)
  else next (with_rq c (limited_rq bl (rq c))).

Definition BodyLimit_Middleware (bl : BodyLimit) : Middleware E := mkMiddleware (go!"BodyLimit") (BodyLimit_Process bl).

Definition bodylimit_layer (bl : BodyLimit) : layer E := mkLayer
  (λ c,
    let limit := GetLimit range bl (rq_path (vars (rq c))) in
    if (0 <? contentLength (rq c)) && (limit <? contentLength (rq c)) then Answer (ctx_Error c too_large 413)
    else Go (with_rq c (limited_rq bl (rq c))))
  (λ _, Some).

#[global] Instance BodyLimit_layered bl : Layered (BodyLimit_Middleware bl) (bodylimit_layer bl).
Proof.
  intros next c. unfold around. cbn. unfold BodyLimit_Process. destruct (_ && _); [done|]. cbn. by destruct (next _).
Qed.

Inductive body_error := ReaderError (e : read_error) | TooLarge | Exceeds (limit : Z).

(** [Read] with a buffer of [n] bytes: the bytes, the error, the reader afterwards and
    the context, whose response the limit may replace. *)
Fixpoint Read (b : body) (n : nat) (c : Ctx E) : gostring * option body_error * body * Ctx E :=
  match b with
  | Stream s => let '(bs, e, s) := stream_Read s n in (bs, ReaderError <$> e, Stream s, c)
  | Limited original limit read done =>
      if done then ([], Some TooLarge, b, c)
      else
        let remaining := limit - read in
        if remaining <=? 0 then
          ([], Some (Exceeds limit), Limited original limit read true, ctx_Error c too_large 413)
        else
          let n := if remaining <? Z.of_nat n then Z.to_nat remaining else n in
          let '(bs, e, original, c) := Read original n c in
          (bs, e, Limited original limit (swrap64 (read + zlen bs)) done, c)
  end.

(** A handler reads with buffers of the given sizes, one after the other. *)
Fixpoint reads (b : body) (sizes : list nat) (c : Ctx E) : list (gostring * option body_error) * body * Ctx E :=
  match sizes with
  | [] => ([], b, c)
  | n :: sizes =>
      let '(bs, e, b, c) := Read b n c in
      let '(rest, b, c) := reads b sizes c in ((bs, e) :: rest, b, c)
  end.

End BodyLimit.

(** ** The limit of a path *)

Definition best (path : gostring) (entries : list (gostring * Z)) (o : option (gostring * Z)) : Prop :=
  match o with
  | None => ∀ p l, (p, l) ∈ entries → ¬ p `prefix_of` path
  | Some (p, l) =>
      (p, l) ∈ entries ∧ p `prefix_of` path ∧
      ∀ q l', (q, l') ∈ entries → q `prefix_of` path → (length q ≤ length p)%nat
  end.

Lemma limit_loop_best path entries seen o :
  best path seen o → best path (seen ++ entries) (limit_loop path entries o).
Proof.
  revert seen o. induction entries as [|[p l] entries IH]; intros seen o Ho; [by rewrite app_nil_r|].
  cbn [limit_loop]. rewrite cons_middle, app_assoc. apply IH.
  assert (∀ q l', (q, l') ∈ seen ++ [(p, l)] → (q, l') ∈ seen ∨ (q = p ∧ l' = l)) as Hin.
  { intros q l' [?|[= -> ->]%list_elem_of_singleton]%elem_of_app; tauto. }
  assert (∀ q l', (q, l') ∈ seen → (q, l') ∈ seen ++ [(p, l)]) as Hold by (intros; apply elem_of_app; by left).
  assert ((p, l) ∈ seen ++ [(p, l)]) as Hnew by (apply elem_of_app; right; by apply list_elem_of_singleton).
  destruct (HasPrefix path p) eqn:Hp.
  - apply HasPrefix_spec in Hp. destruct o as [[q k]|]; cbn [best] in *.
    + destruct Ho as (Hq & Hqp & Hmax). destruct (length q <? length p)%nat eqn:Hlt; cbn [best].
      * apply Nat.ltb_lt in Hlt. split_and!; [done..|]. intros q' l' [Hs|[-> _]]%Hin Hq'; [|done].
        specialize (Hmax _ _ Hs Hq'). lia.
      * apply Nat.ltb_ge in Hlt. split_and!; [by apply Hold|done|]. intros q' l' [Hs|[-> _]]%Hin Hq'; [by apply (Hmax _ _ Hs)|done].
    + split_and!; [done..|]. intros q' l' [Hs|[-> _]]%Hin Hq'; [by destruct (Ho _ _ Hs)|done].
  - apply HasPrefix_false in Hp. destruct o as [[q k]|]; cbn [best] in *.
    + destruct Ho as (Hq & Hqp & Hmax). split_and!; [by apply Hold|done|].
      intros q' l' [Hs|[-> _]]%Hin Hq'; [by apply (Hmax _ _ Hs)|done].
    + intros q' l' [Hs|[-> _]]%Hin; [by eapply Ho|done].
Qed.

(** Whatever the order in which the map is gone through, a path has the limit of the
    longest configured prefix of it, and the general one when it has none. *)
Theorem longest_prefix_limit range bl path :
  (∀ m, range m ≡ₚ map_to_list m) →
  (∃ p, pathLimits bl !! p = Some (GetLimit range bl path) ∧ p `prefix_of` path ∧
     ∀ q l, pathLimits bl !! q = Some l → q `prefix_of` path → (length q ≤ length p)%nat) ∨
  ((∀ q l, pathLimits bl !! q = Some l → ¬ q `prefix_of` path) ∧ GetLimit range bl path = maxBodySize bl).
Proof.
  intros Hr. unfold GetLimit.
  assert (∀ q l, (q, l) ∈ range (pathLimits bl) ↔ pathLimits bl !! q = Some l) as Hm.
  { intros q l. by rewrite (Hr (pathLimits bl)), elem_of_map_to_list. }
  pose proof (limit_loop_best path (range (pathLimits bl)) [] None) as Hb. cbn [app] in Hb.
  destruct (limit_loop path (range (pathLimits bl)) None) as [[p l]|]; cbn [best] in Hb.
  - left. exists p. destruct Hb as (Hp & Hpre & Hmax); [by intros ? ? ?%elem_of_nil|].
    split_and!; [by apply Hm|done|]. intros q l' Hq%Hm. by apply (Hmax _ _ Hq).
  - right. split; [|done]. intros q l Hq%Hm. apply Hb in Hq; [done|]. by intros ? ? ?%elem_of_nil.
Qed.

(** ** The reader *)

Section Reader.
Context {F : FastHTTP} {E : Type}.
Implicit Types (b : body) (c : Ctx E).

Lemma Read_spec b n c :
  let '(bs, e, b', c') := Read b n c in
  (length bs ≤ n)%nat ∧ (c' = c ∨ c' = ctx_Error c too_large 413).
Proof.
  revert n c. induction b as [s|original IH limit read fin]; intros n c; cbn [Read].
  - pose proof (stream_Read_length s n) as Hs. destruct (stream_Read s n) as [[bs e] s']. auto.
  - destruct fin; [split; [cbn; lia|by left]|].
    destruct (limit - read <=? 0); [split; [cbn; lia|by right]|].
    destruct (limit - read <? Z.of_nat n) eqn:Hlt.
    + specialize (IH (Z.to_nat (limit - read)) c). destruct (Read original _ c) as [[[bs e] o] c'].
      bool_to_prop. split; [lia|]. tauto.
    + specialize (IH n c). destruct (Read original _ c) as [[[bs e] o] c']. done.
Qed.

Lemma ctx_Error_again c msg code : ctx_Error (ctx_Error c msg code) msg code = ctx_Error c msg code.
Proof. done. Qed.

Lemma reads_bounded limit o read fin sizes c :
  in_int64 limit → 0 ≤ read ≤ Z.max 0 limit →
  let '(rs, b', c') := reads (Limited o limit read fin) sizes c in
  read + zlen (concat rs.*1) ≤ Z.max 0 limit ∧ (c' = c ∨ c' = ctx_Error c too_large 413).
Proof.
  intros Hl. revert o read fin c. induction sizes as [|n sizes IH]; intros o read fin c Hr; cbn [reads].
  { cbn. split; [lia|by left]. }
  cbn [Read]. destruct fin.
  { specialize (IH o read true c Hr). destruct (reads _ sizes c) as [[rs b'] c']. cbn. done. }
  destruct (limit - read <=? 0) eqn:Hrem.
  { specialize (IH o read true (ctx_Error c too_large 413) Hr). destruct (reads _ sizes _) as [[rs b'] c'].
    cbn. rewrite ctx_Error_again in IH. split; [apply IH|]. right. tauto. }
  set (m := if limit - read <? Z.of_nat n then Z.to_nat (limit - read) else n).
  assert (Z.of_nat m ≤ limit - read) as Hm by (unfold m; destruct (limit - read <? Z.of_nat n) eqn:Hn; bool_to_prop; lia).
  pose proof (Read_spec o m c) as Hread. destruct (Read o m c) as [[[bs e] o'] c1]. destruct Hread as [Hbs Hc].
  assert (swrap64 (read + zlen bs) = read + zlen bs) as ->.
  { apply swrap64_id. unfold in_int64, int64_min, int64_max in *. bool_to_prop. lia. }
  specialize (IH o' (read + zlen bs) false c1 ltac:(bool_to_prop; lia)).
  destruct (reads _ sizes c1) as [[rs b'] c']. cbn [fmap list_fmap concat fst].
  rewrite length_app, Nat2Z.inj_add. split; [lia|]. destruct Hc as [->| ->]; [tauto|].
  rewrite ctx_Error_again in IH. tauto.
Qed.

(** C34: However a handler reads, and whatever the body does, the reader hands out no more
    bytes than the limit; all it ever does to the response is to make it the refusal. *)
Theorem reader_bounded limit o sizes c :
  in_int64 limit →
  let '(rs, b', c') := reads (Limited o limit 0 false) sizes c in
  zlen (concat rs.*1) ≤ Z.max 0 limit ∧ (c' = c ∨ c' = ctx_Error c too_large 413).
Proof.
  intros Hl. pose proof (reads_bounded limit o 0 false sizes c Hl ltac:(lia)) as H.
  destruct (reads _ sizes c) as [[rs b'] c']. by rewrite Z.add_0_l in H.
Qed.
End Reader.

(** ** Reading to the end *)

(** [io.ReadAll] with a buffer of [n] bytes: what was read up to the error that ends it. *)
Fixpoint read_all {F : FastHTTP} {E : Type} (fuel : nat) (b : body) (n : nat) (c : Ctx E) (acc : gostring)
  : option (gostring * body_error * Ctx E) :=
  match fuel with
  | O => None
  | S fuel =>
      let '(bs, e, b, c) := Read b n c in
      match e with
      | Some e => Some (acc ++ bs, e, c)
      | None => read_all fuel b n c (acc ++ bs)
      end
  end.

Section Text.
#[local] Instance http : FastHTTP := text_http.
Context {E : Type}.

Lemma read_all_text (s : gostring) limit read n (c : Ctx E) acc fuel :
  in_int64 limit → 0 ≤ read ≤ Z.max 0 limit → (0 < n)%nat → (S (length s) < fuel)%nat →
  read_all fuel (Limited (Stream (s : stream)) limit read false) n c acc =
    Some (if read + zlen s <? limit then (acc ++ s, ReaderError (tt : read_error), c)
          else (acc ++ take (Z.to_nat (limit - read)) s, Exceeds limit, ctx_Error c too_large 413)).
Proof.
  intros Hl. revert s read acc. induction fuel as [|fuel IH]; intros s read acc Hr Hn Hf; [lia|].
  cbn [read_all Read]. destruct (limit - read <=? 0) eqn:Hrem.
  { apply Z.leb_le in Hrem. rewrite (proj2 (Z.ltb_ge _ _)) by lia.
    replace (Z.to_nat (limit - read)) with 0%nat by lia. by rewrite take_0, !app_nil_r. }
  apply Z.leb_gt in Hrem. set (m := if limit - read <? Z.of_nat n then Z.to_nat (limit - read) else n).
  assert ((0 < m)%nat ∧ Z.of_nat m ≤ limit - read) as [Hm0 Hm].
  { unfold m. destruct (limit - read <? Z.of_nat n) eqn:Hlt; bool_to_prop; lia. }
  clearbody m. cbn [stream_Read http text_http]. case_decide as Hs.
  { subst s. cbn. rewrite take_nil, app_nil_r, (proj2 (Z.ltb_lt _ _)) by lia. done. }
  cbn [fmap option_fmap option_map]. assert (0 < zlen s) as Hpos by (destruct s; [done|cbn; lia]).
  assert (zlen (take m s) = Z.min (Z.of_nat m) (zlen s)) as Hlen by (rewrite length_take; lia).
  rewrite swrap64_id by (unfold in_int64, int64_min, int64_max in *; lia).
  pose proof (IH (drop m s) (read + zlen (take m s)) (acc ++ take m s) ltac:(lia) Hn
    ltac:(rewrite length_drop; lia)) as Hrest.
  etransitivity; [exact Hrest|]. clear IH Hrest.
  rewrite Hlen, length_drop. destruct (read + zlen s <? limit) eqn:Hlt; bool_to_prop.
  - rewrite (proj2 (Z.ltb_lt _ _)) by lia. by rewrite <- app_assoc, take_drop.
  - rewrite (proj2 (Z.ltb_ge _ _)) by lia. rewrite <- app_assoc. do 4 f_equal.
    destruct (decide (Z.of_nat m ≤ zlen s)) as [Hle|Hgt]; [|lia].
    rewrite Z.min_l by lia.
    replace (Z.to_nat (limit - read)) with (m + Z.to_nat (limit - (read + Z.of_nat m)))%nat by lia.
    by rewrite take_take_drop.
Qed.

(** A body that is read to its end ends the way it should exactly when it is shorter than
    the limit; one of the limit's length, and any body at all for a limit of zero, is
    refused after its last byte. *)
Theorem limit_is_exclusive (s : gostring) limit n (c : Ctx E) :
  in_int64 limit → (0 < n)%nat →
  read_all (S (S (length s))) (Limited (Stream (s : stream)) limit 0 false) n c [] =
    Some (if zlen s <? limit then (s, ReaderError (tt : read_error), c)
          else (take (Z.to_nat limit) s, Exceeds limit, ctx_Error c too_large 413)).
Proof. intros. rewrite read_all_text by lia || done. by rewrite Z.add_0_l, Z.sub_0_r. Qed.
End Text.

(** ** Examples *)

Definition in_order (m : gmap gostring Z) : list (gostring * Z) := map_to_list m.

Definition ex_limits : BodyLimit :=
  mkBodyLimit {[ go!"/api" := 10; go!"/api/upload" := 5000; go!"/" := 7 ]} DefaultMaxBodySize.

Lemma longest_prefix_limit_witness :
  (∃ p, pathLimits ex_limits !! p = Some 5000 ∧ p `prefix_of` go!"/api/upload/x" ∧
     ∀ q l, pathLimits ex_limits !! q = Some l → q `prefix_of` go!"/api/upload/x" → (length q ≤ length p)%nat) ∨
  ((∀ q l, pathLimits ex_limits !! q = Some l → ¬ q `prefix_of` go!"/api/upload/x") ∧ 5000 = DefaultMaxBodySize).
Proof. exact (longest_prefix_limit in_order ex_limits (go!"/api/upload/x") (λ _, reflexivity _)). Defined.

Definition ex_body : @body text_http := @Stream text_http (go!"0123456789").
Definition ex_c : @Ctx text_http unit := ex_ctx ∅ false (go!"/") tt.

Lemma reader_bounded_witness :
  let '(parts, _, c') := @reads text_http unit (Limited ex_body 4 0 false) [3%nat; 3%nat; 3%nat] ex_c in
  zlen (concat parts.*1) ≤ Z.max 0 4 ∧ (c' = ex_c ∨ c' = ctx_Error ex_c too_large 413).
Proof.
  exact (@reader_bounded text_http unit 4 ex_body [3%nat; 3%nat; 3%nat] ex_c
    ltac:(unfold in_int64, int64_min, int64_max; lia)).
Defined.

Example ex_reads :
  let '(parts, _, c') := @reads text_http unit (Limited ex_body 4 0 false) [3%nat; 3%nat; 3%nat] ex_c in
  (parts.*1, rs_status (rs c')) = ([go!"012"; go!"3"; []], 413).
Proof. by vm_compute. Qed.

Lemma limit_is_exclusive_witness :
  @read_all text_http unit 6 (Limited (@Stream text_http (go!"abcd")) 4 0 false) 512 (ex_ctx ∅ false (go!"/") tt) [] =
    Some (go!"abcd", @Exceeds text_http 4, ctx_Error (ex_ctx ∅ false (go!"/") tt) too_large 413).
Proof.
  exact (limit_is_exclusive (go!"abcd") 4 512 (ex_ctx ∅ false (go!"/") tt)
    ltac:(unfold in_int64, int64_min, int64_max; lia) ltac:(lia)).
Defined.

(** nginx's units are no units here, and a limit of zero is a limit. *)
Example ex_sizes :
  ParseSize (go!"1mb") = Ok 1048576 ∧ ParseSize (go!" 1.5KB ") = Ok 1536 ∧ ParseSize (go!"0.1b") = Ok 0 ∧
  ParseSize (go!"0") = Ok 0 ∧ ParseSize [] = Ok DefaultMaxBodySize ∧
  ParseSize (go!"10m") = Err (UnsupportedUnit (go!"m")) ∧ ParseSize (go!"1..5kb") = Err (InvalidNumber (go!"1..5")) ∧
  ParseSize (go!"-1") = Err (InvalidSize (go!"-1")) ∧ ParseSize (go!"99999999999gb") = Ok int64_min.
Proof. by vm_compute. Qed.
