(* ===== verification/ResponseHeaders.v ===== *)
(** * ResponseHeaders: request identifiers, CORS and security headers

    [src/internal/middleware/requestid/requestid.go], [cors/cors.go] and
    [security/headers.go].  Shown: an identifier is kept or made, and is the same for the
    variables and the client; a response grants an origin access, and credentials,
    exactly when the configuration does, and a preflight request is answered without the
    handler ([cors_policy]); the security headers are the configured ones, HSTS over TLS only. *)

From S2P Require Import Prelude GoStrings Config NetIP ReqVars ProxyHeaders Http.

(** ** [cors.go]: texts *)

(** [joinStrings], [cors_intToStr]: the digits are appended from the last, then reversed. *)
Fixpoint join_loop (buf : gostring) (first : bool) (ss : list gostring) : gostring :=
  match ss with
  | [] => buf
  | s :: ss => join_loop ((if first then buf else buf ++ [","%char]) ++ s) false ss
  end.

Definition joinStrings (ss : list gostring) : gostring :=
  match ss with
  | [] => []
  | [s] => s
  | _ => join_loop [] true ss
  end.

Definition cors_intToStr (n : Z) : gostring :=
  if decide (n = 0) then go!"0"
  else
    let neg := n <? 0 in
    let n := if neg then swrap64 (- n) else n in
    let buf := rev_digits 20 n [] in
    reverse (if neg then buf ++ ["-"%char] else buf).

(** ** [cors.go] *)

Record CORSMiddleware := mkCORS {
  cm_cfg : option CORSConfig; wildcard : bool; originSet : gset gostring;
  methodsVal : gostring; headersVal : gostring; exposeVal : gostring; maxAgeVal : gostring }.

Definition cors_New (cfg : option CORSConfig) : CORSMiddleware :=
  match cfg with
  | None => mkCORS None false ∅ [] [] [] []
  | Some cf =>
      if negb (co_Enabled cf) || bool_decide (co_AllowedOrigins cf = []) then mkCORS cfg false ∅ [] [] [] []
      else
        let '(wild, set) :=
          foldl (λ '(wild, set) o, if decide (o = go!"*") then (true, set) else (wild, {[ o ]} ∪ set))
            (false, ∅ : gset gostring) (co_AllowedOrigins cf) in
        mkCORS cfg wild set
          (if bool_decide (co_AllowedMethods cf = []) then [] else joinStrings (co_AllowedMethods cf))
          (if bool_decide (co_AllowedHeaders cf = []) then [] else joinStrings (co_AllowedHeaders cf))
          (if bool_decide (co_ExposeHeaders cf = []) then [] else joinStrings (co_ExposeHeaders cf))
          (if 0 <? co_MaxAge cf then cors_intToStr (co_MaxAge cf) else [])
  end.

Definition matchOrigin (m : CORSMiddleware) (origin : gostring) : bool :=
  if wildcard m then true else bool_decide (origin ∈ originSet m).

(** ** [headers.go]: the state *)

Record HeadersMiddleware := mkHeaders { hm_config : option SecurityHeaders; hsts : gostring }.

Definition formatHSTSValue (maxAge : Z) (includeSubDomains preload : bool) : gostring :=
  go!"max-age=" ++ FormatInt maxAge ++
  (if includeSubDomains then go!"; includeSubDomains" else []) ++ (if preload then go!"; preload" else []).

Definition formatHSTS (sh : HeadersMiddleware) : HeadersMiddleware :=
  mkHeaders (hm_config sh) (formatHSTSValue 31536000 true false).

Definition formatHSTSFromConfig (sh : HeadersMiddleware) (hstsCfg : option HSTSConfig) : HeadersMiddleware :=
  match hstsCfg with
  | Some h =>
      let maxAge := if hsts_MaxAge h <=? 0 then 31536000 else hsts_MaxAge h in
      mkHeaders (hm_config sh) (formatHSTSValue maxAge (hsts_IncludeSubDomains h) (hsts_Preload h))
  | None => formatHSTS sh
  end.

Definition default_headers : SecurityHeaders :=
  mkSecurityHeaders (go!"DENY") (go!"nosniff") [] (go!"strict-origin-when-cross-origin") [].

Definition NewHeadersWithHSTS (cfg : option SecurityHeaders) (hstsCfg : option HSTSConfig) : HeadersMiddleware :=
  formatHSTSFromConfig (mkHeaders (Some (default default_headers cfg)) []) hstsCfg.

Definition Headers_UpdateConfig (sh : HeadersMiddleware) (cfg : option SecurityHeaders) : HeadersMiddleware :=
  match cfg with
  | None => sh
  | Some _ => formatHSTS (mkHeaders cfg (hsts sh))
  end.

Definition set_config (sh : HeadersMiddleware) (f : SecurityHeaders → SecurityHeaders) : HeadersMiddleware :=
  mkHeaders (f <$> hm_config sh) (hsts sh).

Definition SetXFrameOptions (sh : HeadersMiddleware) (v : gostring) : HeadersMiddleware :=
  set_config sh (λ s, mkSecurityHeaders v (sh_XContentTypeOptions s) (sh_ContentSecurityPolicy s)
    (sh_ReferrerPolicy s) (sh_PermissionsPolicy s)).
Definition SetContentSecurityPolicy (sh : HeadersMiddleware) (v : gostring) : HeadersMiddleware :=
  set_config sh (λ s, mkSecurityHeaders (sh_XFrameOptions s) (sh_XContentTypeOptions s) v
    (sh_ReferrerPolicy s) (sh_PermissionsPolicy s)).
Definition SetReferrerPolicy (sh : HeadersMiddleware) (v : gostring) : HeadersMiddleware :=
  set_config sh (λ s, mkSecurityHeaders (sh_XFrameOptions s) (sh_XContentTypeOptions s) (sh_ContentSecurityPolicy s)
    v (sh_PermissionsPolicy s)).
Definition SetPermissionsPolicy (sh : HeadersMiddleware) (v : gostring) : HeadersMiddleware :=
  set_config sh (λ s, mkSecurityHeaders (sh_XFrameOptions s) (sh_XContentTypeOptions s) (sh_ContentSecurityPolicy s)
    (sh_ReferrerPolicy s) v).

Definition GetConfig (sh : HeadersMiddleware) : option SecurityHeaders := hm_config sh.

(** ** The three middlewares *)

Section ResponseHeaders.
Context {F : FastHTTP} {E : Type}.
Implicit Types (c out : Ctx E).

(** [requestid.go] *)
Definition request_id (c : Ctx E) : gostring :=
  match TrimSpace (Peek (rq_headers (rq c)) (go!"X-Request-ID")) with
  | [] => fresh_uuid (vars (rq c))
  | id => id
  end.

Definition with_id c : Ctx E :=
  put_header (with_rq c (with_vars (rq c) (set_request_id (vars (rq c)) (request_id c))))
    (go!"X-Request-ID") (request_id c).

Definition RequestID_Process (next : handler E) : handler E := λ c, next (with_id c).
Definition RequestID_Middleware : Middleware E := mkMiddleware (go!"request_id") RequestID_Process.
Definition requestid_layer : layer E := mkLayer (λ c, Go (with_id c)) (λ _, Some).

#[global] Instance RequestID_layered : Layered RequestID_Middleware requestid_layer.
Proof. intros next c. unfold around. cbn. unfold RequestID_Process. by destruct (next _). Qed.

Definition GetRequestID c : gostring := default [] (uv_request_id (vars (rq c))).

(** [cors.go] *)
Definition set_if (b : bool) (k v : gostring) c : Ctx E := if b then put_header c k v else c.

Definition handlePreflight (m : CORSMiddleware) (cf : CORSConfig) c (origin : gostring) : Ctx E :=
  let c := put_header c (go!"Access-Control-Allow-Origin") origin in
  let c := set_if (bool_decide (methodsVal m ≠ [])) (go!"Access-Control-Allow-Methods") (methodsVal m) c in
  let c := set_if (bool_decide (headersVal m ≠ [])) (go!"Access-Control-Allow-Headers") (headersVal m) c in
  let c := set_if (0 <? co_MaxAge cf) (go!"Access-Control-Max-Age") (maxAgeVal m) c in
  let c := set_if (co_AllowCredentials cf) (go!"Access-Control-Allow-Credentials") (go!"true") c in
  set_status c 204.

Definition setActualHeaders (m : CORSMiddleware) (cf : CORSConfig) c (origin : gostring) : Ctx E :=
  let c := put_header c (go!"Access-Control-Allow-Origin") origin in
  let c := set_if (bool_decide (exposeVal m ≠ [])) (go!"Access-Control-Expose-Headers") (exposeVal m) c in
  set_if (co_AllowCredentials cf) (go!"Access-Control-Allow-Credentials") (go!"true") c.

Definition origin_of c : gostring := Peek (rq_headers (rq c)) (go!"Origin").

(** The configuration, when the request is one that CORS is about. *)
Definition concerned (m : CORSMiddleware) c : option CORSConfig :=
  cf ← cm_cfg m;
  if negb (co_Enabled cf) || bool_decide (co_AllowedOrigins cf = []) then None
  else if decide (origin_of c = []) then None
  else if negb (matchOrigin m (origin_of c)) then None
  else Some cf.

Definition CORS_Process (m : CORSMiddleware) (next : handler E) : handler E := λ c,
  match concerned m c with
  | None => next c
  | Some cf =>
      if decide (rq_method (vars (rq c)) = go!"OPTIONS") then Some (handlePreflight m cf c (origin_of c))
      else out ← next c; Some (setActualHeaders m cf out (origin_of c))
  end.
Definition CORS_Middleware (m : CORSMiddleware) : Middleware E := mkMiddleware (go!"CORS") (CORS_Process m).

Definition cors_layer (m : CORSMiddleware) : layer E := mkLayer
  (λ c,
    match concerned m c with
    | Some cf => if decide (rq_method (vars (rq c)) = go!"OPTIONS") then Answer (handlePreflight m cf c (origin_of c)) else Go c
    | None => Go c
    end)
  (λ c out, Some (match concerned m c with Some cf => setActualHeaders m cf out (origin_of c) | None => out end)).

#[global] Instance CORS_layered m : Layered (CORS_Middleware m) (cors_layer m).
Proof.
  intros next c. unfold around. cbn. unfold CORS_Process. destruct (concerned m c) as [cf|].
  - case_decide; [done|]. cbn. by destruct (next c).
  - cbn. by destruct (next c).
Qed.

(** [headers.go] *)
Definition set_nonempty (k v : gostring) c : Ctx E := if decide (v ≠ []) then put_header c k v else c.

Definition addHeaders (sh : HeadersMiddleware) c : Ctx E :=
  let cfg := default default_headers (hm_config sh) in
  let c := set_nonempty (go!"X-Frame-Options") (sh_XFrameOptions cfg) c in
  let c := put_header c (go!"X-Content-Type-Options")
             (if decide (sh_XContentTypeOptions cfg ≠ []) then sh_XContentTypeOptions cfg else go!"nosniff") in
  let c := set_nonempty (go!"Content-Security-Policy") (sh_ContentSecurityPolicy cfg) c in
  let c := if rq_tls (vars (rq c)) && bool_decide (hsts sh ≠ []) then
             put_header c (go!"Strict-Transport-Security") (hsts sh) else c in
  let c := set_nonempty (go!"Referrer-Policy") (sh_ReferrerPolicy cfg) c in
  set_nonempty (go!"Permissions-Policy") (sh_PermissionsPolicy cfg) c.

Definition Headers_Process (sh : HeadersMiddleware) (next : handler E) : handler E := λ c,
  out ← next c; Some (addHeaders sh out).
Definition Headers_Middleware (sh : HeadersMiddleware) : Middleware E :=
  mkMiddleware (go!"security_headers") (Headers_Process sh).
Definition headers_layer (sh : HeadersMiddleware) : layer E := mkLayer Go (λ _ out, Some (addHeaders sh out)).

#[global] Instance Headers_layered sh : Layered (Headers_Middleware sh) (headers_layer sh).
Proof. by intros next c. Qed.

End ResponseHeaders.

(** ** Texts *)

Lemma join_loop_Join buf ss : ss ≠ [] → join_loop buf false ss = buf ++ [","%char] ++ GoStrings.Join ss [","%char].
Proof.
  revert buf. induction ss as [|s ss IH]; intros buf Hne; [done|]. cbn [join_loop].
  destruct ss as [|t ss]; [by rewrite <- app_assoc|]. rewrite IH by done.
  change (GoStrings.Join (s :: t :: ss) [","%char]) with (s ++ [","%char] ++ GoStrings.Join (t :: ss) [","%char]).
  by rewrite <- !app_assoc.
Qed.

Lemma joinStrings_Join ss : joinStrings ss = GoStrings.Join ss [","%char].
Proof.
  destruct ss as [|s [|t ss]]; [done..|]. cbn [joinStrings join_loop app]. 
  change (join_loop s false (t :: ss) = s ++ [","%char] ++ GoStrings.Join (t :: ss) [","%char]).
  by rewrite join_loop_Join.
Qed.

(** The hand-written conversion is [strconv.Itoa] on the numbers it is used for. *)
Lemma intToStr_FormatInt n : 0 ≤ n ≤ int64_max → cors_intToStr n = FormatInt n.
Proof.
  intros Hn. unfold cors_intToStr. case_decide as H0; [by subst|]. rewrite (proj2 (Z.ltb_ge n 0)) by lia.
  apply rev_digits_FormatInt. lia.
Qed.

(** ** CORS *)

Definition allows (cf : CORSConfig) (origin : gostring) : bool :=
  co_Enabled cf && bool_decide (origin ≠ []) &&
  bool_decide (go!"*" ∈ co_AllowedOrigins cf ∨ origin ∈ co_AllowedOrigins cf).

Lemma origins_fold (l : list gostring) (w : bool) (s : gset gostring) :
  foldl (λ '(wild, set) (o : gostring), if decide (o = go!"*") then (true, set) else (wild, {[ o ]} ∪ set)) (w, s) l =
  (w || bool_decide (go!"*" ∈ l), list_to_set (filter (λ o : gostring, o ≠ go!"*") l) ∪ s).
Proof.
  revert w s. induction l as [|o l IH]; intros w s; cbn [foldl].
  - rewrite bool_decide_eq_false_2 by apply not_elem_of_nil. rewrite orb_false_r. cbn. by rewrite union_empty_l_L.
  - destruct (decide (o = go!"*")) as [Ho|Ho].
    + rewrite IH, filter_cons_False by tauto. rewrite (bool_decide_eq_true_2 (_ ∈ o :: l)) by (apply elem_of_cons; auto).
      by rewrite orb_true_r.
    + rewrite IH, filter_cons_True by done. f_equal.
      * f_equal. apply bool_decide_ext. rewrite elem_of_cons. naive_solver.
      * cbn [list_to_set]. set_solver.
Qed.

(** The middleware is concerned with the requests whose origin the configuration allows. *)
Lemma concerned_spec {F : FastHTTP} {E : Type} cf (c : Ctx E) :
  concerned (cors_New (Some cf)) c = if allows cf (origin_of c) then Some cf else None.
Proof.
  unfold concerned, cors_New, allows. destruct (co_Enabled cf) eqn:He; cbn [negb orb andb]; [|cbn; by rewrite He].
  destruct (decide (co_AllowedOrigins cf = [])) as [Ho|Ho].
  - rewrite bool_decide_eq_true_2 by done. cbn. rewrite He, Ho. cbn.
    rewrite (bool_decide_eq_false_2 (_ ∨ _)); [by rewrite andb_false_r|]. by intros [?%elem_of_nil|?%elem_of_nil].
  - rewrite bool_decide_eq_false_2 by done. rewrite origins_fold. cbn. rewrite He, bool_decide_eq_false_2 by done. cbn.
    case_decide as Hor; [by rewrite bool_decide_eq_false_2 by tauto|].
    rewrite (bool_decide_eq_true_2 (origin_of c ≠ [])) by done. cbn [andb].
    unfold matchOrigin. cbn [wildcard originSet]. destruct (decide (go!"*" ∈ co_AllowedOrigins cf)) as [Hw|Hw].
    + rewrite bool_decide_eq_true_2 by done. by rewrite bool_decide_eq_true_2 by auto.
    + rewrite bool_decide_eq_false_2 by done.
      assert (bool_decide (origin_of c ∈ (list_to_set (filter (λ o : gostring, o ≠ go!"*") (co_AllowedOrigins cf)) ∪ ∅ : gset gostring)) =
              bool_decide (go!"*" ∈ co_AllowedOrigins cf ∨ origin_of c ∈ co_AllowedOrigins cf)) as ->.
      { apply bool_decide_ext. rewrite elem_of_union, elem_of_list_to_set, list_elem_of_filter, elem_of_empty.
        split; [naive_solver|]. intros [?|Hin]; [done|]. left. split; [congruence|done]. }
      by destruct (bool_decide _).
Qed.

Section Policy.
Context {F : FastHTTP} {E : Type}.
Implicit Types (c out : Ctx E) (next : handler E).

Definition acao : gostring := go!"Access-Control-Allow-Origin".
Definition acac : gostring := go!"Access-Control-Allow-Credentials".

Definition header c (k : gostring) : gostring := Peek (rs_headers (rs c)) k.

(** A header that is set when there is something to say. *)
Definition or_kept (v : gostring) c (k : gostring) : gostring := if decide (v ≠ []) then v else header c k.

Definition policy_value (l : list gostring) : gostring := Join l (go!",").

Lemma joined l : (if bool_decide (l = []) then [] else joinStrings l) = policy_value l.
Proof. unfold policy_value. case_bool_decide as Hl; [by subst|]. apply joinStrings_Join. Qed.

Lemma cors_values cf :
  co_Enabled cf = true → co_AllowedOrigins cf ≠ [] →
  let m := cors_New (Some cf) in
  methodsVal m = policy_value (co_AllowedMethods cf) ∧ headersVal m = policy_value (co_AllowedHeaders cf) ∧
  exposeVal m = policy_value (co_ExposeHeaders cf) ∧
  maxAgeVal m = (if 0 <? co_MaxAge cf then cors_intToStr (co_MaxAge cf) else []).
Proof.
  intros He Ho. cbn zeta. unfold cors_New. rewrite He, bool_decide_eq_false_2 by done. cbn [negb orb].
  destruct (foldl _ _ _) as [w o]. cbn. by rewrite !joined.
Qed.

Lemma actual_headers m cf out origin :
  let c' := setActualHeaders m cf out origin in
  header c' acao = origin ∧ header c' acac = (if co_AllowCredentials cf then go!"true" else header out acac) ∧
  header c' (go!"Access-Control-Expose-Headers") = or_kept (exposeVal m) out (go!"Access-Control-Expose-Headers") ∧
  rs_status (rs c') = rs_status (rs out) ∧ rs_body (rs c') = rs_body (rs out).
Proof.
  unfold setActualHeaders, set_if, header, acao, acac, or_kept, header. cbn zeta.
  destruct (decide (exposeVal m ≠ [])) as [He|He]; [rewrite (bool_decide_eq_true_2 _ He)|rewrite (bool_decide_eq_false_2 _ He)];
    destruct (co_AllowCredentials cf); peek; done.
Qed.

Lemma preflight_headers m cf c origin :
  let c' := handlePreflight m cf c origin in
  header c' acao = origin ∧ header c' acac = (if co_AllowCredentials cf then go!"true" else header c acac) ∧
  header c' (go!"Access-Control-Allow-Methods") = or_kept (methodsVal m) c (go!"Access-Control-Allow-Methods") ∧
  header c' (go!"Access-Control-Allow-Headers") = or_kept (headersVal m) c (go!"Access-Control-Allow-Headers") ∧
  header c' (go!"Access-Control-Max-Age") =
    (if 0 <? co_MaxAge cf then maxAgeVal m else header c (go!"Access-Control-Max-Age")) ∧
  rs_status (rs c') = 204 ∧ rs_body (rs c') = rs_body (rs c).
Proof.
  unfold handlePreflight, header, acao, acac, or_kept, header. cbn zeta.
  assert (∀ d k, Peek (rs_headers (rs (set_status d 204))) k = Peek (rs_headers (rs (E := E) d)) k) as Hst by done.
  rewrite !Hst. unfold set_if.
  destruct (decide (methodsVal m ≠ [])) as [Hm|Hm]; [rewrite (bool_decide_eq_true_2 _ Hm)|rewrite (bool_decide_eq_false_2 _ Hm)];
  (destruct (decide (headersVal m ≠ [])) as [Hh|Hh]; [rewrite (bool_decide_eq_true_2 _ Hh)|rewrite (bool_decide_eq_false_2 _ Hh)]);
    destruct (0 <? co_MaxAge cf), (co_AllowCredentials cf); peek; done.
Qed.

Lemma CORS_allowed cf next c :
  allows cf (origin_of c) = true →
  CORS_Process (cors_New (Some cf)) next c =
    if decide (rq_method (vars (rq c)) = go!"OPTIONS") then Some (handlePreflight (cors_New (Some cf)) cf c (origin_of c))
    else out ← next c; Some (setActualHeaders (cors_New (Some cf)) cf out (origin_of c)).
Proof. intros Ha. unfold CORS_Process. by rewrite concerned_spec, Ha. Qed.

(** C35: A request whose origin the configuration does not allow is handled as if the
    middleware were not there. For an allowed one the origin is named, and credentials
    are granted exactly as configured, both on a preflight, which is answered at once
    with the methods, headers and age of the configuration and without the handler, and
    on what the handler answered to any other request, whose status and body stay. A
    header that the configuration leaves out keeps the value that the response had. *)
Theorem cors_policy cf next c :
  let origin := origin_of c in
  if allows cf origin then
    if decide (rq_method (vars (rq c)) = go!"OPTIONS") then
      ∃ c', (∀ next', CORS_Process (cors_New (Some cf)) next' c = Some c') ∧ rs_status (rs c') = 204 ∧
        header c' acao = origin ∧
        header c' acac = (if co_AllowCredentials cf then go!"true" else header c acac) ∧
        header c' (go!"Access-Control-Allow-Methods") =
          or_kept (policy_value (co_AllowedMethods cf)) c (go!"Access-Control-Allow-Methods") ∧
        header c' (go!"Access-Control-Allow-Headers") =
          or_kept (policy_value (co_AllowedHeaders cf)) c (go!"Access-Control-Allow-Headers") ∧
        (co_MaxAge cf ≤ int64_max → header c' (go!"Access-Control-Max-Age") =
           if 0 <? co_MaxAge cf then FormatInt (co_MaxAge cf) else header c (go!"Access-Control-Max-Age"))
    else
      match next c with
      | None => CORS_Process (cors_New (Some cf)) next c = None
      | Some out =>
          ∃ c', CORS_Process (cors_New (Some cf)) next c = Some c' ∧
            rs_status (rs c') = rs_status (rs out) ∧ rs_body (rs c') = rs_body (rs out) ∧
            header c' acao = origin ∧
            header c' acac = (if co_AllowCredentials cf then go!"true" else header out acac) ∧
            header c' (go!"Access-Control-Expose-Headers") =
              or_kept (policy_value (co_ExposeHeaders cf)) out (go!"Access-Control-Expose-Headers")
      end
  else CORS_Process (cors_New (Some cf)) next c = next c.
Proof.
  cbn zeta. destruct (allows cf (origin_of c)) eqn:Ha.
  2: { unfold CORS_Process. by rewrite concerned_spec, Ha. }
  assert (co_Enabled cf = true ∧ co_AllowedOrigins cf ≠ []) as [He Ho].
  { unfold allows in Ha. destruct (co_Enabled cf); [|done]. split; [done|]. intros Hn. rewrite Hn in Ha.
    rewrite (bool_decide_eq_false_2 (_ ∨ _)), andb_false_r in Ha; [done|]. by intros [?%elem_of_nil|?%elem_of_nil]. }
  destruct (cors_values cf He Ho) as (Hm & Hh & Hx & Hage).
  pose proof (CORS_allowed cf next c Ha) as Hp. destruct (decide (rq_method (vars (rq c)) = go!"OPTIONS")) as [Hopt|Hopt].
  - pose proof (preflight_headers (cors_New (Some cf)) cf c (origin_of c)) as (H1 & H2 & H3 & H4 & H5 & H6 & _).
    exists (handlePreflight (cors_New (Some cf)) cf c (origin_of c)).
    split; [intros next'; rewrite (CORS_allowed cf next' c Ha); by rewrite decide_True|].
    rewrite Hm in H3. rewrite Hh in H4. rewrite Hage in H5. split_and!; try done.
    intros Hmax. rewrite H5. destruct (Z.ltb_spec 0 (co_MaxAge cf)); [|done]. apply intToStr_FormatInt. lia.
  - destruct (next c) as [out|] eqn:Hn; cbn [mbind option_bind] in Hp; [|done].
    pose proof (actual_headers (cors_New (Some cf)) cf out (origin_of c)) as (H1 & H2 & H3 & H4 & H5).
    rewrite Hx in H3. eexists. by split_and!.
Qed.

(** With the wildcard and credentials both configured, every origin at all is told that
    it may read answers to requests that carry the user's credentials. *)
Theorem wildcard_reflects_any_origin cf next c out :
  co_Enabled cf = true → go!"*" ∈ co_AllowedOrigins cf → co_AllowCredentials cf = true →
  origin_of c ≠ [] → rq_method (vars (rq c)) ≠ go!"OPTIONS" → next c = Some out →
  ∃ c', CORS_Process (cors_New (Some cf)) next c = Some c' ∧
    header c' acao = origin_of c ∧ header c' acac = go!"true".
Proof.
  intros He Hw Hcr Ho Hm Hn. assert (allows cf (origin_of c) = true) as Ha.
  { unfold allows. rewrite He, !bool_decide_eq_true_2 by auto. done. }
  rewrite (CORS_allowed cf next c Ha), decide_False, Hn by done. eexists. split; [reflexivity|].
  pose proof (actual_headers (cors_New (Some cf)) cf out (origin_of c)) as (H1 & H2 & _). by rewrite Hcr in H2.
Qed.

(** ** Identifiers *)

(** The identifier is never empty while there is one to be made, and the variables, the
    response and the handler all have the same one; a client's own is kept, without
    the white space around it. *)
Theorem one_request_id next c :
  fresh_uuid (vars (rq c)) ≠ [] →
  ∃ c1, RequestID_Process next c = next c1 ∧
    GetRequestID c1 ≠ [] ∧ header c1 (go!"X-Request-ID") = GetRequestID c1 ∧
    (TrimSpace (Peek (rq_headers (rq c)) (go!"X-Request-ID")) ≠ [] →
     GetRequestID c1 = TrimSpace (Peek (rq_headers (rq c)) (go!"X-Request-ID"))).
Proof.
  intros Hf. exists (with_id c). split; [done|].
  assert (GetRequestID (with_id c) = request_id c) as -> by done.
  unfold header, with_id. peek. unfold request_id. by destruct (TrimSpace _).
Qed.

(** ** Security headers *)

(** Every security header of the answer is the configured one, or what the handler set
    where none is configured; [X-Content-Type-Options] always is set; HSTS only for a
    request that came over TLS. Nothing else changes. *)
Theorem security_headers_set sh c :
  let cfg := default default_headers (hm_config sh) in
  let c' := addHeaders sh c in
  let or_else (v : gostring) (k : gostring) := if decide (v ≠ []) then v else header c k in
  header c' (go!"X-Frame-Options") = or_else (sh_XFrameOptions cfg) (go!"X-Frame-Options") ∧
  header c' (go!"X-Content-Type-Options") =
    (if decide (sh_XContentTypeOptions cfg ≠ []) then sh_XContentTypeOptions cfg else go!"nosniff") ∧
  header c' (go!"Content-Security-Policy") = or_else (sh_ContentSecurityPolicy cfg) (go!"Content-Security-Policy") ∧
  header c' (go!"Strict-Transport-Security") =
    (if rq_tls (vars (rq c)) then or_else (hsts sh) (go!"Strict-Transport-Security")
     else header c (go!"Strict-Transport-Security")) ∧
  header c' (go!"Referrer-Policy") = or_else (sh_ReferrerPolicy cfg) (go!"Referrer-Policy") ∧
  header c' (go!"Permissions-Policy") = or_else (sh_PermissionsPolicy cfg) (go!"Permissions-Policy") ∧
  rs_status (rs c') = rs_status (rs c) ∧ rs_body (rs c') = rs_body (rs c) ∧ rq c' = rq c.
Proof.
  cbn zeta. unfold addHeaders, header. set (cfg := default default_headers (hm_config sh)).
  unfold set_nonempty.
  destruct (decide (sh_XFrameOptions cfg ≠ [])), (decide (sh_ContentSecurityPolicy cfg ≠ [])),
    (decide (sh_ReferrerPolicy cfg ≠ [])), (decide (sh_PermissionsPolicy cfg ≠ []));
    cbn [rq with_rs put_header]; destruct (rq_tls (vars (rq c))), (decide (hsts sh ≠ [])) as [Hh|Hh];
    cbn [andb]; rewrite ?(bool_decide_eq_true_2 _ Hh), ?(bool_decide_eq_false_2 _ Hh); split_and!; peek; done.
Qed.

(** An update of the headers of a running server puts HSTS back to its default,
    whatever had been configured. *)
Theorem update_resets_hsts cfg h new :
  hsts (Headers_UpdateConfig (NewHeadersWithHSTS cfg (Some h)) (Some new)) = go!"max-age=31536000; includeSubDomains".
Proof. by vm_compute. Qed.

End Policy.

(** ** Examples *)

#[local] Instance http : FastHTTP := text_http.

Definition ex_cors : CORSConfig :=
  mkCORSConfig true [go!"https://a.example"; go!"*"] [go!"GET"; go!"PUT"] [] [] true 600.
Definition ex_request : Ctx unit := ex_ctx {[ go!"origin" := go!"https://evil.example" ]} true (go!"/") tt.

(** A preflight of an allowed origin, without and with credentials. *)
Definition ex_preflight : Ctx unit :=
  @mkCtx text_http unit
    (@mkRequest text_http
      (mkReq (go!"example.com") (go!"/") (go!"/") [] (go!"OPTIONS") true [10; 0; 0; 7] (Some (go!"10.0.0.7:4711")) None
        None None None None None [] [] (go!"5f8e")) {[ go!"origin" := go!"https://a.example" ]} 0 None None)
    (mkResponse 200 ∅ []) tt.

Lemma cors_policy_witness :
  ∃ c', CORS_Process (cors_New (Some (mkCORSConfig true [go!"https://a.example"] [go!"GET"; go!"PUT"] [] [] false 600)))
          (λ _, None) ex_preflight = Some c' ∧ rs_status (rs c') = 204 ∧
    header c' acao = go!"https://a.example" ∧ header c' acac = [] ∧
    header c' (go!"Access-Control-Allow-Methods") = go!"GET,PUT" ∧
    header c' (go!"Access-Control-Max-Age") = go!"600".
Proof.
  destruct (cors_policy (mkCORSConfig true [go!"https://a.example"] [go!"GET"; go!"PUT"] [] [] false 600) (λ _, None) ex_preflight)
    as (c' & H1 & H2 & H3 & H4 & H5 & _ & H7).
  exists c'. split; [apply H1|]. split; [exact H2|]. split; [exact H3|]. split; [exact H4|]. split; [exact H5|].
  rewrite H7; [reflexivity|by vm_compute].
Defined.

Lemma wildcard_reflects_any_origin_witness :
  ∃ c', CORS_Process (cors_New (Some ex_cors)) Some ex_request = Some c' ∧
    header c' acao = go!"https://evil.example" ∧ header c' acac = go!"true".
Proof.
  apply (wildcard_reflects_any_origin ex_cors Some ex_request ex_request); try done.
  apply (bool_decide_unpack _). by vm_compute.
Defined.

Lemma one_request_id_witness :
  ∃ c1, RequestID_Process (E := unit) Some ex_request = Some c1 ∧
    GetRequestID c1 ≠ [] ∧ header c1 (go!"X-Request-ID") = GetRequestID c1 ∧
    (TrimSpace (Peek (rq_headers (rq ex_request)) (go!"X-Request-ID")) ≠ [] →
     GetRequestID c1 = TrimSpace (Peek (rq_headers (rq ex_request)) (go!"X-Request-ID"))).
Proof. by apply (one_request_id Some ex_request). Defined.

Example ex_hsts :
  let sh := NewHeadersWithHSTS None (Some (mkHSTSConfig 600 false true)) in
  hsts sh = go!"max-age=600; preload" ∧
  header (addHeaders sh ex_request) (go!"x-frame-options") = go!"DENY" ∧
  header (addHeaders sh (ex_ctx ∅ false (go!"/") tt)) (go!"Strict-Transport-Security") = [].
Proof. by vm_compute. Qed.
