(* ===== verification/ErrorPages.v ===== *)
(** * ErrorPages: configured error pages

    [src/internal/handler/errorpage.go] and
    [src/internal/middleware/errorintercept/errorintercept.go].  Reading a file is a
    parameter, as is the order in which Go ranges over the pages.  Shown: which files
    are loaded, and when loading fails as a whole; what the middleware makes of every
    response. *)

From S2P Require Import Prelude GoStrings Config NetIP ReqVars ProxyHeaders Http.

Record ErrorPageManager := mkPages { pages : gmap Z gostring; defaultPage : option gostring; responseCode : Z }.

(** [PartialLoadError] has what went wrong under each code, 0 for the default page. *)
Inductive load_result :=
  | Loaded (m : ErrorPageManager)
  | PartialLoadError (m : ErrorPageManager) (errors : gset Z)
  | AllFailed (errors : gset Z).

Section Load.
Context (ReadFile : gostring → option gostring) (range : gmap Z gostring → list (Z * gostring)).

Fixpoint load_pages (entries : list (Z * gostring)) (loaded : gmap Z gostring) (errs : gset Z)
  : gmap Z gostring * gset Z :=
  match entries with
  | [] => (loaded, errs)
  | (code, path) :: entries =>
      match ReadFile path with
      | None => load_pages entries loaded ({[ code ]} ∪ errs)
      | Some content => load_pages entries (<[code := content]> loaded) errs
      end
  end.

Definition NewErrorPageManager (cfg : ErrorPageConfig) : load_result :=
  if bool_decide (ep_Pages cfg = ∅) && bool_decide (ep_Default cfg = []) then
    Loaded (mkPages ∅ None (ep_ResponseCode cfg))
  else
    let '(loaded, errs) := load_pages (range (ep_Pages cfg)) ∅ ∅ in
    let '(dflt, errs) :=
      if decide (ep_Default cfg ≠ []) then
        match ReadFile (ep_Default cfg) with
        | None => (None, {[ 0 ]} ∪ errs)
        | Some content => (Some content, errs)
        end
      else (None, errs) in
    let m := mkPages loaded dflt (ep_ResponseCode cfg) in
    if decide (errs = ∅) then Loaded m
    else
      let totalPages := (size (ep_Pages cfg) + if decide (ep_Default cfg ≠ []) then 1 else 0)%nat in
      if decide (size errs = totalPages) then AllFailed errs else PartialLoadError m errs.

End Load.

Definition override (m : ErrorPageManager) (code : Z) : Z :=
  if 0 <? responseCode m then responseCode m else code.

Definition GetPage (m : ErrorPageManager) (code : Z) : option gostring * bool * Z :=
  match pages m !! code with
  | Some content => (Some content, true, override m code)
  | None =>
      match defaultPage m with
      | Some content => (Some content, true, override m code)
      | None => (None, false, code)
      end
  end.

Definition HasPage (m : ErrorPageManager) (code : Z) : bool :=
  bool_decide (is_Some (pages m !! code)) || bool_decide (is_Some (defaultPage m)).

Definition GetResponseCode (m : ErrorPageManager) : Z := responseCode m.

Definition IsConfigured (m : ErrorPageManager) : bool :=
  (0 <? size (pages m))%nat || bool_decide (is_Some (defaultPage m)).

Definition isErrorStatusCode (code : Z) : bool := (400 <=? code) && (code <? 600).

Section Intercept.
Context {F : FastHTTP} {E : Type}.
Implicit Types (c out : Ctx E).

(** What is done with the response of the next handler. *)
Definition intercept (m : ErrorPageManager) out : Ctx E :=
  let statusCode := rs_status (rs out) in
  if negb (isErrorStatusCode statusCode) then out
  else
    match GetPage m statusCode with
    | (content, true, code) =>
        let out := set_body out (default [] content) in
        let out := put_header out (go!"Content-Type") (go!"text/html; charset=utf-8") in
        if decide (code ≠ statusCode) then set_status out code else out
    | (_, false, _) => out
    end.

Definition Intercept_Process (manager : option ErrorPageManager) (next : handler E) : handler E :=
  match manager with
  | Some m => if IsConfigured m then λ c, out ← next c; Some (intercept m out) else next
  | None => next
  end.
Definition Intercept_Middleware (manager : option ErrorPageManager) : Middleware E :=
  mkMiddleware (go!"ErrorIntercept") (Intercept_Process manager).

Definition intercept_layer (manager : option ErrorPageManager) : layer E :=
  mkLayer Go (λ _ out, Some (match manager with Some m => if IsConfigured m then intercept m out else out | None => out end)).

#[global] Instance Intercept_layered manager : Layered (Intercept_Middleware manager) (intercept_layer manager).
Proof.
  intros next c. unfold around. cbn. unfold Intercept_Process.
  destruct manager as [m|]; [destruct (IsConfigured m)|]; by destruct (next c).
Qed.

(** ** What the client gets *)

(** The page for a status: its own, else the default one. *)
Definition page_for (m : ErrorPageManager) (code : Z) : option gostring :=
  match pages m !! code with Some p => Some p | None => defaultPage m end.

Lemma GetPage_spec m code :
  GetPage m code = match page_for m code with Some p => (Some p, true, override m code) | None => (None, false, code) end.
Proof. unfold GetPage, page_for. destruct (pages m !! code); [done|]. by destruct (defaultPage m). Qed.

Lemma HasPage_spec m code : HasPage m code = bool_decide (is_Some (page_for m code)).
Proof. unfold HasPage, page_for. destruct (pages m !! code); [done|]. cbn. by destruct (defaultPage m). Qed.

(** An answer with an error status for which there is a page becomes that page, as HTML,
    under the configured status or its own; every other answer stays what it was, its
    headers included. *)
Theorem errors_become_pages m next c :
  Intercept_Process (Some m) next c =
    out ← next c;
    Some (match (if isErrorStatusCode (rs_status (rs out)) then page_for m (rs_status (rs out)) else None) with
          | None => out
          | Some p =>
              with_rs out (mkResponse (override m (rs_status (rs out)))
                (HSet (rs_headers (rs out)) (go!"Content-Type") (go!"text/html; charset=utf-8")) p)
          end).
Proof.
  unfold Intercept_Process. destruct (IsConfigured m) eqn:Hc.
  - destruct (next c) as [out|]; [|done]. cbn [mbind option_bind]. f_equal. unfold intercept.
    destruct (isErrorStatusCode _); [|done]. cbn [negb]. rewrite GetPage_spec.
    destruct (page_for m (rs_status (rs out))) as [p|]; [|done]. cbn zeta. destruct (decide (override m (rs_status (rs out)) = rs_status (rs out))) as [Hne|Hne]; [|by rewrite decide_True].
    rewrite decide_False by tauto. cbn in *. by rewrite Hne.
  - destruct (next c) as [out|]; [|done]. cbn. unfold IsConfigured in Hc. apply orb_false_iff in Hc as [Hp Hd].
    apply Nat.ltb_ge in Hp. assert (pages m = ∅) as He by (apply map_size_empty_inv; lia).
    destruct (isErrorStatusCode _); [|done]. unfold page_for. rewrite He, lookup_empty.
    destruct (defaultPage m); [|done]. by rewrite bool_decide_eq_true_2 in Hd by eauto.
Qed.

End Intercept.

(** ** Loading *)

Section Loading.
Context (ReadFile : gostring → option gostring) (range : gmap Z gostring → list (Z * gostring)).
Hypothesis range_elements : ∀ m, range m ≡ₚ map_to_list m.

Lemma load_pages_spec entries loaded errs :
  NoDup entries.*1 →
  let '(loaded', errs') := load_pages ReadFile entries loaded errs in
  (∀ code, code ∈ errs' ↔ code ∈ errs ∨ ∃ path, (code, path) ∈ entries ∧ ReadFile path = None) ∧
  (∀ code p, loaded' !! code = Some p ↔
     (∃ path, (code, path) ∈ entries ∧ ReadFile path = Some p) ∨
     (loaded !! code = Some p ∧ ∀ path, (code, path) ∈ entries → ReadFile path = None)).
Proof.
  revert loaded errs. induction entries as [|[k path] entries IH]; intros loaded errs Hnd; cbn [load_pages].
  { split; intros; [|split].
    - split; [auto|]. intros [?|(? & ?%elem_of_nil & _)]; done.
    - intros ?. right. split; [done|]. by intros ? ?%elem_of_nil.
    - intros [(? & ?%elem_of_nil & _)|[? _]]; done. }
  cbn in Hnd. apply NoDup_cons in Hnd as [Hk Hnd].
  assert (∀ q, (k, q) ∉ entries) as Hk'.
  { intros q Hq. apply Hk. apply list_elem_of_fmap. by exists (k, q). }
  destruct (ReadFile path) as [content|] eqn:Hf.
  - specialize (IH (<[k := content]> loaded) errs Hnd). destruct (load_pages _ _ _ _) as [l' e'].
    destruct IH as [He Hl]. split.
    + intros code. rewrite He. setoid_rewrite elem_of_cons. naive_solver.
    + intros code p. rewrite Hl. setoid_rewrite elem_of_cons. destruct (decide (k = code)) as [<-|Hne].
      * rewrite lookup_insert_eq. naive_solver.
      * rewrite lookup_insert_ne by done. naive_solver.
  - specialize (IH loaded ({[ k ]} ∪ errs) Hnd). destruct (load_pages _ _ _ _) as [l' e']. destruct IH as [He Hl]. split.
    + intros code. rewrite He, elem_of_union, elem_of_singleton. setoid_rewrite elem_of_cons. naive_solver.
    + intros code p. rewrite Hl. setoid_rewrite elem_of_cons. destruct (decide (k = code)) as [<-|Hne]; naive_solver.
Qed.

Definition default_failed (cfg : ErrorPageConfig) : Prop := ep_Default cfg ≠ [] ∧ ReadFile (ep_Default cfg) = None.
Definition page_failed (cfg : ErrorPageConfig) (code : Z) : Prop :=
  ∃ path, ep_Pages cfg !! code = Some path ∧ ReadFile path = None.

Lemma loaded_pages cfg :
  let '(loaded, errs) := load_pages ReadFile (range (ep_Pages cfg)) ∅ ∅ in
  (∀ code, code ∈ errs ↔ page_failed cfg code) ∧ ∀ code, loaded !! code = ep_Pages cfg !! code ≫= ReadFile.
Proof.
  assert (∀ code path, (code, path) ∈ range (ep_Pages cfg) ↔ ep_Pages cfg !! code = Some path) as Hr.
  { intros. by rewrite (range_elements (ep_Pages cfg)), elem_of_map_to_list. }
  assert (NoDup (range (ep_Pages cfg)).*1) as Hnd.
  { rewrite (range_elements (ep_Pages cfg)). apply NoDup_fst_map_to_list. }
  pose proof (load_pages_spec (range (ep_Pages cfg)) ∅ ∅ Hnd) as H. destruct (load_pages _ _ _ _) as [loaded errs].
  destruct H as [He Hl]. split.
  - intros code. rewrite He. unfold page_failed. setoid_rewrite Hr. set_solver.
  - intros code. apply option_eq. intros p. rewrite Hl. setoid_rewrite Hr. rewrite lookup_empty, bind_Some. naive_solver.
Qed.

(** The files of a configuration, by their codes, the default page's being 0. *)
Definition files (cfg : ErrorPageConfig) (code : Z) : option gostring :=
  if decide (code = 0) then if decide (ep_Default cfg = []) then None else Some (ep_Default cfg)
  else ep_Pages cfg !! code.

Definition all_codes (cfg : ErrorPageConfig) : gset Z :=
  dom (ep_Pages cfg) ∪ (if decide (ep_Default cfg = []) then ∅ else {[ 0 ]}).

Lemma all_codes_spec cfg code :
  ep_Pages cfg !! 0 = None → code ∈ all_codes cfg ↔ is_Some (files cfg code).
Proof.
  intros H0. unfold all_codes, files. rewrite elem_of_union, elem_of_dom.
  destruct (decide (code = 0)) as [->|Hne]; destruct (decide (ep_Default cfg = []));
    rewrite ?H0, ?elem_of_empty, ?elem_of_singleton; split; try (intros [[? ?]|?]); try (intros [? ?]); try done; eauto.
Qed.

Lemma size_all_codes cfg :
  ep_Pages cfg !! 0 = None →
  size (all_codes cfg) = (size (ep_Pages cfg) + if decide (ep_Default cfg ≠ []) then 1 else 0)%nat.
Proof.
  intros H0. unfold all_codes. rewrite size_union.
  - rewrite size_dom. destruct (decide (ep_Default cfg = [])); destruct (decide (ep_Default cfg ≠ [])); try done.
  - apply not_elem_of_dom in H0. destruct (decide (ep_Default cfg = [])); set_solver.
Qed.

(** The manager has what can be read of the configured files. *)
Definition has_files (cfg : ErrorPageConfig) (m : ErrorPageManager) : Prop :=
  (∀ code, code ≠ 0 → pages m !! code = files cfg code ≫= ReadFile) ∧
  defaultPage m = files cfg 0 ≫= ReadFile ∧ responseCode m = ep_ResponseCode cfg.

Definition unreadable (cfg : ErrorPageConfig) (code : Z) : Prop :=
  ∃ path, files cfg code = Some path ∧ ReadFile path = None.

(** The pages, as [NewErrorPageManager] collects them with what went wrong. *)
Lemma collected cfg (dflt := if decide (ep_Default cfg ≠ []) then ReadFile (ep_Default cfg) else None) :
  ep_Pages cfg !! 0 = None →
  let '(loaded, errs) := load_pages ReadFile (range (ep_Pages cfg)) ∅ ∅ in
  has_files cfg (mkPages loaded dflt (ep_ResponseCode cfg)) ∧
  ∀ code, code ∈ (if decide (ep_Default cfg ≠ []) then
                    match ReadFile (ep_Default cfg) with None => {[ 0 ]} ∪ errs | Some _ => errs end else errs) ↔
          unreadable cfg code.
Proof.
  intros H0. pose proof (loaded_pages cfg) as H. destruct (load_pages _ _ _ _) as [loaded errs]. destruct H as [He Hl].
  assert (0 ∉ errs) as Hz by (rewrite He; intros (? & ? & _); congruence). split; [split_and!|].
  - intros code Hc. cbn. rewrite Hl. unfold files. by rewrite decide_False.
  - cbn. unfold files, dflt. rewrite (decide_True (P := 0 = 0)) by done.
    by destruct (decide (ep_Default cfg = [])), (decide (ep_Default cfg ≠ [])); try tauto.
  - done.
  - intros code. unfold unreadable, files. destruct (decide (code = 0)) as [->|Hne].
    + destruct (decide (ep_Default cfg ≠ [])) as [Hd|Hd]; destruct (decide (ep_Default cfg = [])); try tauto; [|naive_solver].
      destruct (ReadFile (ep_Default cfg)) eqn:Hf; [naive_solver|]. rewrite elem_of_union, elem_of_singleton. naive_solver.
    + assert (code ∈ errs ↔ ∃ path, ep_Pages cfg !! code = Some path ∧ ReadFile path = None) as Hc by (apply He).
      destruct (decide (ep_Default cfg ≠ [])); [|done]. destruct (ReadFile (ep_Default cfg)); [done|].
      rewrite elem_of_union, elem_of_singleton, Hc. naive_solver.
Qed.

(** The server starts with every file that can be read, and is told when some cannot;
    it does not start exactly when files are configured and none of them can. *)
Theorem error_pages_loaded cfg :
  ep_Pages cfg !! 0 = None →
  match NewErrorPageManager ReadFile range cfg with
  | Loaded m => has_files cfg m ∧ ∀ code, ¬ unreadable cfg code
  | PartialLoadError m errs =>
      has_files cfg m ∧ (∀ code, code ∈ errs ↔ unreadable cfg code) ∧ errs ≠ ∅ ∧
      ∃ code path p, files cfg code = Some path ∧ ReadFile path = Some p
  | AllFailed errs =>
      errs ≠ ∅ ∧ ∀ code path, files cfg code = Some path → ReadFile path = None
  end.
Proof.
  intros H0. unfold NewErrorPageManager. destruct (_ && _) eqn:Hnone.
  { apply andb_true_iff in Hnone as [Hp%bool_decide_eq_true_1 Hd%bool_decide_eq_true_1]. assert (∀ code, files cfg code = None) as Hf.
    { intros code. unfold files. rewrite Hp, Hd, lookup_empty. by destruct (decide (code = 0)). }
    split; [split_and!|].
    - intros code Hc. by rewrite Hf.
    - by rewrite Hf.
    - done.
    - intros code (? & Hs & _). by rewrite Hf in Hs. }
  pose proof (collected cfg H0) as H. destruct (load_pages _ _ _ _) as [loaded errs].
  set (dflt := if decide (ep_Default cfg ≠ []) then ReadFile (ep_Default cfg) else None) in *.
  set (all := if decide (ep_Default cfg ≠ []) then _ else _) in H.
  assert ((if decide (ep_Default cfg ≠ [])
           then match ReadFile (ep_Default cfg) with Some content => (Some content, errs) | None => (None, {[0]} ∪ errs) end
           else (None, errs)) = (dflt, all)) as ->.
  { unfold dflt, all. destruct (decide (ep_Default cfg ≠ [])); [|done]. by destruct (ReadFile _). }
  clearbody dflt all. destruct H as [Hm Ha].
  destruct (decide (all = ∅)) as [->|Hne]; [split; [done|]; intros code Hu; by apply Ha, elem_of_empty in Hu|].
  assert (all ⊆ all_codes cfg) as Hsub.
  { intros code (path & Hp & _)%Ha. apply all_codes_spec; eauto. }
  rewrite <- size_all_codes by done. destruct (decide (size all = size (all_codes cfg))) as [Hs|Hs].
  - split; [done|]. intros code path Hp. assert (code ∈ all) as (q & Hq & Hf)%Ha; [|congruence].
    rewrite (set_subseteq_size_eq all (all_codes cfg)) by (done || lia). apply all_codes_spec; eauto.
  - split_and!; [done..|]. destruct (decide (set_Forall (λ code, code ∈ all) (all_codes cfg))) as [Hc|Hc].
    { destruct Hs. f_equal. apply (anti_symm (⊆)); [done|]. exact Hc. }
    apply not_set_Forall_Exists in Hc; [|solve_decision]. destruct Hc as (code & [path Hp]%(all_codes_spec _ _ H0) & Hn). exists code, path.
    destruct (ReadFile path) as [p|] eqn:Hf; [by exists p|]. destruct Hn. apply Ha. by exists path.
Qed.

End Loading.

(** ** Examples *)

Definition ex_files (path : gostring) : option gostring :=
  if decide (path = go!"/404.html") then Some (go!"lost") else if decide (path = go!"/all.html") then Some (go!"sorry") else None.

Definition ex_pages : ErrorPageConfig :=
  mkErrorPageConfig {[ 404 := go!"/404.html"; 500 := go!"/missing.html" ]} (go!"/all.html") 0.

Lemma error_pages_loaded_witness :
  ep_Pages ex_pages !! 0 = None ∧
  ∃ m errs, NewErrorPageManager ex_files map_to_list ex_pages = PartialLoadError m errs ∧ has_files ex_files ex_pages m.
Proof.
  split; [reflexivity|].
  pose proof (error_pages_loaded ex_files map_to_list (λ _, reflexivity _) ex_pages eq_refl) as H. revert H.
  replace (NewErrorPageManager ex_files map_to_list ex_pages) with
    (PartialLoadError (mkPages {[ 404 := go!"lost" ]} (Some (go!"sorry")) 0) {[ 500 ]}) by (vm_compute; reflexivity).
  intros [H _]. eexists _, _. split; [reflexivity|exact H].
Defined.

Example ex_pages_used :
  let m := mkPages {[ 404 := go!"lost" ]} (Some (go!"sorry")) 200 in
  let run code := option_map (λ c, (rs_status (rs c), rs_body (rs c)))
    (Intercept_Process (F := text_http) (E := unit) (Some m) (λ c, Some (set_body (set_status c code) (go!"x"))) (ex_ctx ∅ false (go!"/") tt)) in
  run 404 = Some (200, go!"lost") ∧ run 502 = Some (200, go!"sorry") ∧ run 302 = Some (302, go!"x").
Proof. by vm_compute. Qed.
