(* ===== verification/Compression.v ===== *)
(** * Compression: compressed responses

    [src/internal/middleware/compression/compression.go]; the files that are already
    compressed are those of [Static].  The compressors, gzip and brotli behind their
    pools, are a parameter: one function for each algorithm and level.

    Shown: what the middleware does to any answer decodes to the answer it was given,
    under the encoding it names, on every branch; it does nothing unless the client's
    header names the encoding, nothing to an answer that already has an encoding, and
    never makes an answer that it buffers longer. *)

From S2P Require Import Prelude GoStrings Config NetIP ReqVars ProxyHeaders Http.

Inductive Algorithm := AlgorithmGzip | AlgorithmBrotli.

Definition streamingThreshold : Z := 64 * 1024.

Record Compressor := mkCompressor {
  typesBytes : list gostring; typesWildcardPrefix : list gostring; types : list gostring;
  level : Z; minSize : Z; algorithm : Algorithm }.

Definition defaultCompressibleTypes : list gostring :=
  [go!"text/html"; go!"text/css"; go!"text/javascript"; go!"text/plain"; go!"text/xml"; go!"application/json";
   go!"application/javascript"; go!"application/xml"; go!"application/xhtml+xml"].

(** The loop that sorts the types into exact ones and prefixes. *)
Fixpoint sort_types (ts : list gostring) : list gostring * list gostring :=
  match ts with
  | [] => ([], [])
  | t :: ts =>
      let '(exact, prefixes) := sort_types ts in
      match CutSuffix (ToLower t) (go!"/*") with
      | Some base => (exact, base :: prefixes)
      | None => (ToLower t :: exact, prefixes)
      end
  end.

Definition parse_type (s : gostring) : Algorithm :=
  if decide (ToLower s = go!"brotli") then AlgorithmBrotli
  else if decide (ToLower s = go!"gzip") then AlgorithmGzip
  else if decide (ToLower s = go!"both") then AlgorithmBrotli
  else AlgorithmGzip.

(** The defaults are written into the configuration that was passed. *)
Definition fill (cf : CompressionConfig) : CompressionConfig :=
  mkCompressionConfig (cp_Type cf)
    (match cp_Types cf with [] => defaultCompressibleTypes | ts => ts end) (cp_GzipStaticExtensions cf)
    (if cp_Level cf =? 0 then 6 else cp_Level cf) (if cp_MinSize cf =? 0 then 1024 else cp_MinSize cf)
    (cp_GzipStatic cf).

(** The middleware, and the configuration as it is afterwards. *)
Definition New (cfg : option CompressionConfig) : Compressor * option CompressionConfig :=
  let cf := fill (default (mkCompressionConfig (go!"gzip") defaultCompressibleTypes [] 6 1024 false) cfg) in
  let '(exact, prefixes) := sort_types (cp_Types cf) in
  (mkCompressor exact prefixes (cp_Types cf) (cp_Level cf) (cp_MinSize cf) (parse_type (cp_Type cf)), (λ _, cf) <$> cfg).

Definition isCompressible (m : Compressor) (contentType : gostring) : bool :=
  let ct := match IndexByte contentType ";" with Some i => take i contentType | None => contentType end in
  let ct := TrimSpace ct in
  existsb (λ t, bool_decide (t = ct)) (typesBytes m) || existsb (HasPrefix ct) (typesWildcardPrefix m).

Section Compression.
Context {F : FastHTTP} {E : Type} (compress : Algorithm → Z → gostring → gostring).
Implicit Types (c out : Ctx E).

Definition encoding (a : Algorithm) : gostring :=
  match a with AlgorithmGzip => go!"gzip" | AlgorithmBrotli => go!"br" end.

(** The algorithm to use, if any: [useGzip] and [useBrotli]. *)
Definition chosen (m : Compressor) c : option Algorithm :=
  let accept := Peek (rq_headers (rq c)) (go!"Accept-Encoding") in
  match algorithm m with
  | AlgorithmGzip => if GoStrings.Contains accept (go!"gzip") then Some AlgorithmGzip else None
  | AlgorithmBrotli =>
      if GoStrings.Contains accept (go!"br") then Some AlgorithmBrotli
      else if GoStrings.Contains accept (go!"gzip") then Some AlgorithmGzip else None
  end.

Definition compressWithPool (m : Compressor) (a : Algorithm) (data : gostring) : gostring := compress a (level m) data.

(** The body that the stream writer produces when the response is written. *)
Definition streamWithPool (m : Compressor) (a : Algorithm) out : Ctx E :=
  let body := rs_body (rs out) in
  let out := put_header out (go!"Content-Encoding") (encoding a) in
  let out := del_header out (go!"Content-Length") in
  set_body out (compress a (level m) body).

(** What is done after the handler. *)
Definition compressed (m : Compressor) (a : Algorithm) out : Ctx E :=
  if decide (Peek (rs_headers (rs out)) (go!"Content-Encoding") ≠ []) then out
  else
    let body := rs_body (rs out) in
    let bodyLen := zlen body in
    if bodyLen <? minSize m then out
    else if negb (isCompressible m (ContentType out)) then out
    else if streamingThreshold <? bodyLen then streamWithPool m a out
    else
      let small := compressWithPool m a body in
      if (0 <? zlen small) && (zlen small <? bodyLen) then
        del_header (put_header (set_body out small) (go!"Content-Encoding") (encoding a)) (go!"Content-Length")
      else out.

Definition Compression_Process (m : Compressor) (next : handler E) : handler E := λ c,
  match chosen m c with
  | None => next c
  | Some a => out ← next c; Some (compressed m a out)
  end.
Definition Compression_Middleware (m : Compressor) : Middleware E := mkMiddleware (go!"compression") (Compression_Process m).

Definition compression_layer (m : Compressor) : layer E :=
  mkLayer Go (λ c out, Some (match chosen m c with Some a => compressed m a out | None => out end)).

#[global] Instance Compression_layered m : Layered (Compression_Middleware m) (compression_layer m).
Proof. intros next c. unfold around. cbn. unfold Compression_Process. destruct (chosen m c); by destruct (next c). Qed.

(** ** Transparency *)

Context (decompress : Algorithm → gostring → option gostring).

(** What a client makes of a response: the body, decoded as its header says. *)
Definition decoded out : option gostring :=
  let e := Peek (rs_headers (rs out)) (go!"Content-Encoding") in
  if decide (e = []) then Some (rs_body (rs out))
  else if decide (e = go!"gzip") then decompress AlgorithmGzip (rs_body (rs out))
  else if decide (e = go!"br") then decompress AlgorithmBrotli (rs_body (rs out))
  else None.

Hypothesis codec : ∀ a lv s, decompress a (compress a lv s) = Some s.

(** C33: What the client decodes is what the handler answered, under the handler's status:
    with an encoding only when the client's header has its name in it (whatever weight it
    gives it there: ex_refused_encoding), and only on an answer that is long enough and of
    a compressible type; an answer that is not streamed is made shorter by it. *)
Theorem compression_transparent m next c c' :
  Compression_Process m next c = Some c' →
  ∃ out, next c = Some out ∧ rs_status (rs c') = rs_status (rs out) ∧ rq c' = rq out ∧
    (c' = out ∨
     decoded out = Some (rs_body (rs out)) ∧ decoded c' = decoded out ∧
     (∃ a, Peek (rs_headers (rs c')) (go!"Content-Encoding") = encoding a ∧
           GoStrings.Contains (Peek (rq_headers (rq c)) (go!"Accept-Encoding")) (encoding a) = true) ∧
     minSize m ≤ zlen (rs_body (rs out)) ∧ isCompressible m (ContentType out) = true ∧
     (zlen (rs_body (rs out)) ≤ streamingThreshold → zlen (rs_body (rs c')) < zlen (rs_body (rs out)))).
Proof.
  unfold Compression_Process. destruct (chosen m c) as [a|] eqn:Hch.
  2:{ intros Hn. exists c'. auto. }
  intros (out & Hn & [= <-])%bind_Some. exists out. split; [done|].
  assert (GoStrings.Contains (Peek (rq_headers (rq c)) (go!"Accept-Encoding")) (encoding a) = true) as Ha.
  { revert Hch. unfold chosen. repeat case_match; try done; intros [= <-]; done. }
  unfold compressed. destruct (decide _) as [He|He]; [auto|]. apply dec_stable in He.
  destruct (zlen (rs_body (rs out)) <? minSize m) eqn:Hs; [auto|]. apply Z.ltb_ge in Hs.
  destruct (isCompressible m (ContentType out)) eqn:Ht; cbn [negb]; [|auto].
  assert (decoded out = Some (rs_body (rs out))) as Hd by (unfold decoded; by rewrite He).
  assert (∀ body, body = compress a (level m) (rs_body (rs out)) →
    let c' := del_header (put_header (set_body out body) (go!"Content-Encoding") (encoding a)) (go!"Content-Length") in
    decoded c' = decoded out ∧ Peek (rs_headers (rs c')) (go!"Content-Encoding") = encoding a) as Hnew.
  { intros body ->. cbn zeta. rewrite Hd. unfold decoded, del_header, put_header, set_body. cbn.
    assert (∀ h, Peek (Del h (go!"Content-Length")) (go!"Content-Encoding") = Peek h (go!"Content-Encoding")) as ->.
    { intros h. unfold Peek, Del. by rewrite lookup_delete_ne by (by vm_compute). }
    unfold Peek, HSet. rewrite lookup_insert_eq. cbn [default]. split; [|done]. destruct a; apply codec. }
  destruct (streamingThreshold <? zlen (rs_body (rs out))) eqn:Hst.
  - apply Z.ltb_lt in Hst. destruct (Hnew _ eq_refl) as [H1 H2]. split_and!; [done..|]. right.
    split_and!; [done|exact H1|by exists a|done|done|lia].
  - unfold compressWithPool. destruct (_ && _) eqn:Hlen; [|auto]. bool_to_prop.
    destruct (Hnew _ eq_refl) as [H1 H2]. split_and!; [done..|]. right.
    split_and!; [done|exact H1|by exists a|done|done|]. intros _. cbn. lia.
Qed.

End Compression.

(** ** Examples *)

#[local] Instance http : FastHTTP := text_http.

Definition ex_page : gostring := replicate 2000 "x"%char.
Definition ex_compress (a : Algorithm) (lv : Z) (s : gostring) : gostring :=
  if decide (s = ex_page) then ["!"%char] else "="%char :: s.
Definition ex_decompress (a : Algorithm) (s : gostring) : option gostring :=
  match s with
  | c :: s => if decide (c = "!"%char ∧ s = []) then Some ex_page else Some s
  | [] => None
  end.

Lemma ex_codec a lv s : ex_decompress a (ex_compress a lv s) = Some s.
Proof. unfold ex_compress. destruct (decide (s = ex_page)) as [->|Hs]; [by vm_compute|]. cbn. by rewrite decide_False by naive_solver. Qed.

Definition ex_handler (c : Ctx unit) : option (Ctx unit) :=
  Some (put_header (set_body c ex_page) (go!"Content-Type") (go!"text/plain")).
Definition ex_accept (accept : gostring) : Ctx unit := ex_ctx {[ go!"accept-encoding" := accept ]} true (go!"/") tt.
Definition ex_middleware : Compressor := (New None).1.
Definition ex_result (accept : gostring) : option (Ctx unit) :=
  Compression_Process ex_compress ex_middleware ex_handler (ex_accept accept).

Lemma compression_transparent_witness :
  match ex_result (go!"gzip") with
  | Some c' =>
      rs_body (rs c') = go!"!" ∧
      ∃ out, ex_handler (ex_accept (go!"gzip")) = Some out ∧ rs_status (rs c') = rs_status (rs out)
  | None => False
  end.
Proof.
  destruct (ex_result (go!"gzip")) as [c'|] eqn:H.
  - split.
    + apply (fmap_known (rs_body ∘ rs) _ c' _ H). vm_compute. reflexivity.
    + destruct (compression_transparent ex_compress ex_decompress ex_codec ex_middleware ex_handler
        (ex_accept (go!"gzip")) c' H) as (out & Hn & Hs & _). exists out. split; [exact Hn|exact Hs].
  - assert ((λ _, tt) <$> ex_result (go!"gzip") = Some tt) as Hx by (vm_compute; reflexivity).
    rewrite H in Hx. discriminate Hx.
Defined.

(** A client that refuses an encoding by a weight of zero is sent it, and a pattern of
    types matches every type that begins with its main type's letters. *)
Example ex_refused_encoding :
  rs_body ∘ rs <$> ex_result (go!"gzip;q=0") = Some (go!"!") ∧
  isCompressible (New (Some (mkCompressionConfig [] [go!"text/*"] [] 0 0 false))).1 (go!"textual/x") = true ∧
  isCompressible ex_middleware (go!"Text/HTML; charset=utf-8") = false.
Proof. by vm_compute. Qed.
