(* ===== verification/AuthRequest.v ===== *)
(** * AuthRequest: authentication by another service

    [src/internal/middleware/security/auth_request.go].  The HTTP client is a parameter:
    the status it gets for a request, or none when it fails; so are the global variables
    and the order in which Go ranges over the configured headers.  The cache of addresses
    that the variables share is part of the environment.

    Shown: the handler runs exactly when the service answered the sub-request that is made
    for the request with a status of 2xx, and
    every other outcome is a 401, a 403 or a 500; the address of a service always has a
    port; and, for a service named by a path, that the client of the server chooses with
    its Host header who is asked. *)

From S2P Require Import Prelude GoStrings Config NetIP ReqVars ProxyHeaders Http.

(** The configuration, [ForwardHeaders] apart, which may be nil. *)
Record arConfig := mkAR {
  c_Enabled : bool; c_URI : gostring; c_Method : gostring; c_Timeout : Z;
  c_Headers : gmap gostring gostring; c_Forward : option (list gostring) }.

(** [client] is the address of the service and whether it is spoken to over TLS. *)
Record AuthRequest := mkAuthRequest { config : arConfig; client : option (gostring * bool) }.

Inductive ar_error := UriRequired | InvalidURL.

Definition default_forward : list gostring := [go!"Cookie"; go!"Authorization"; go!"X-Forwarded-For"; go!"X-Real-Ip"].

Definition applyDefaults (cfg : arConfig) : arConfig :=
  let method := if decide (c_Method cfg = []) then go!"GET" else c_Method cfg in
  mkAR (c_Enabled cfg) (c_URI cfg) (ToUpper method)
    (if c_Timeout cfg =? 0 then 5 * second else c_Timeout cfg) (c_Headers cfg)
    (Some (default default_forward (c_Forward cfg))).

Definition isFullURL (uri : gostring) : bool := HasPrefix uri (go!"http://") || HasPrefix uri (go!"https://").

(** [host[:idx]] up to a byte, when it is there. *)
Definition cut_at (s : gostring) (c : ascii) : gostring :=
  match IndexByte s c with Some i => take i s | None => s end.

Definition parseAuthURL (url : gostring) : option (gostring * bool) :=
  let '(isTLS, url) :=
    if HasPrefix url (go!"https://") then (true, TrimPrefix url (go!"https://"))
    else (false, TrimPrefix url (go!"http://")) in
  let host := cut_at (cut_at url "/") "?" in
  if decide (host = []) then None
  else
    match SplitHostPort host with
    | Some _ => Some (host, isTLS)
    | None => Some (JoinHostPort host (if isTLS then go!"443" else go!"80"), isTLS)
    end.

(** [initClient] and [initClientUnlocked]: the same but for the lock. *)
Definition initClient (a : AuthRequest) : option ar_error * AuthRequest :=
  match parseAuthURL (c_URI (config a)) with
  | None => (Some InvalidURL, a)
  | Some cl => (None, mkAuthRequest (config a) (Some cl))
  end.

Definition NewAuthRequest (cfg : arConfig) : res ar_error AuthRequest :=
  if negb (c_Enabled cfg) then Ok (mkAuthRequest cfg None)
  else if decide (c_URI cfg = []) then Err UriRequired
  else
    let ar := mkAuthRequest (applyDefaults cfg) None in
    if isFullURL (c_URI cfg) then
      match initClient ar with (Some e, _) => Err e | (None, ar) => Ok ar end
    else Ok ar.

Definition AuthRequest_UpdateConfig (a : AuthRequest) (cfg : arConfig) : option ar_error * AuthRequest :=
  if negb (c_Enabled cfg) then (None, mkAuthRequest cfg None)
  else if decide (c_URI cfg = []) then (Some UriRequired, a)
  else
    let a := mkAuthRequest (applyDefaults cfg) (client a) in
    if isFullURL (c_URI cfg) then initClient a else (None, mkAuthRequest (config a) None).

Definition AuthRequest_Close (a : AuthRequest) : AuthRequest := mkAuthRequest (config a) None.

(** The request that is sent to the service. *)
Record subrequest := mkSub { s_method : gostring; s_uri : gostring; s_headers : headers }.

Section AuthRequest.
Context {F : FastHTTP} {E : Type}.
Context (Do : option (gostring * bool) → subrequest → option Z).
Context (ip_string : IP → gostring) (ssl_getter : reqctx → gostring → gostring) (globals : gmap gostring gostring).
Context (get_cache : E → gmap gostring gostring) (put_cache : E → gmap gostring gostring → E).
Context (range : gmap gostring gostring → list (gostring * gostring)).
Implicit Types (c : Ctx E).

Definition expandVars c (template : gostring) : gostring * Ctx E :=
  if decide (template = []) then ([], c)
  else if negb (GoStrings.Contains template [dollar]) then (template, c)
  else
    let '(s, vc) := Expand ip_string ssl_getter globals
      (NewContext None (mkWorld (get_cache (env c)) (vars (rq c)))) template in
    (s, with_env (with_rq c (with_vars (rq c) (req (ctx vc)))) (put_cache (env c) (addr_cache (ctx vc)))).

Definition forward (c : Ctx E) (names : list gostring) : headers :=
  foldl (λ h name,
    let value := Peek (rq_headers (rq c)) name in if decide (value = []) then h else HSet h name value) ∅ names.

Fixpoint custom_headers (c : Ctx E) (entries : list (gostring * gostring)) (h : headers) : headers * Ctx E :=
  match entries with
  | [] => (h, c)
  | (key, value) :: entries =>
      let '(expanded, c) := expandVars c value in custom_headers c entries (HSet h key expanded)
  end.

(** The address that a configured path stands for. *)
Definition full_uri c (uri : gostring) : gostring :=
  if isFullURL uri then uri
  else
    (if rq_tls (vars (rq c)) then go!"https" else go!"http") ++ go!"://" ++
    (if decide (rq_host (vars (rq c)) = []) then go!"localhost" else rq_host (vars (rq c))) ++ uri.

(** Whether the request may go on, and the status otherwise; [None] is an error. *)
Definition judge (status : option Z) : option (bool * Z) :=
  statusCode ← status;
  if (200 <=? statusCode) && (statusCode <? 300) then Some (true, statusCode)
  else if (statusCode =? 401) || (statusCode =? 403) then Some (false, statusCode)
  else Some (false, 500).

Definition doAuthRequest (a : AuthRequest) c : option (bool * Z) * Ctx E :=
  let cfg := config a in
  let '(uri, c) := expandVars c (c_URI cfg) in
  let h := forward c (default [] (c_Forward cfg)) in
  let sub_uri := full_uri c uri in
  let '(h, c) := custom_headers c (range (c_Headers cfg)) h in
  (judge (Do (client a) (mkSub (c_Method cfg) sub_uri h)), c).

Definition AuthRequest_Process (a : AuthRequest) (next : handler E) : handler E :=
  if negb (c_Enabled (config a)) then next
  else λ c,
    match doAuthRequest a c with
    | (None, c) => Some (ctx_Error c (go!"Internal Server Error") 500)
    | (Some (allowed, statusCode), c) =>
        if allowed then next c else Some (ctx_Error c (go!"Unauthorized") statusCode)
    end.
Definition AuthRequest_Middleware (a : AuthRequest) : Middleware E := mkMiddleware (go!"auth_request") (AuthRequest_Process a).

Definition authrequest_layer (a : AuthRequest) : layer E := mkLayer
  (λ c,
    if negb (c_Enabled (config a)) then Go c
    else
      match doAuthRequest a c with
      | (None, c) => Answer (ctx_Error c (go!"Internal Server Error") 500)
      | (Some (true, _), c) => Go c
      | (Some (false, statusCode), c) => Answer (ctx_Error c (go!"Unauthorized") statusCode)
      end)
  (λ _, Some).

#[global] Instance AuthRequest_layered a : Layered (AuthRequest_Middleware a) (authrequest_layer a).
Proof.
  intros next c. unfold around. cbn. unfold AuthRequest_Process. destruct (negb _); [by destruct (next c)|].
  destruct (doAuthRequest a c) as [[[[] st]|] c']; [|done..]. cbn. by destruct (next c').
Qed.

(** ** What an expansion changes *)

Lemma expand_loop_state {S : Type} (lookup : S → gostring → option gostring * S) keep (P : S → Prop) :
  (∀ s n, P s → P (lookup s n).2) → ∀ fuel s t, P s → P (expand_loop lookup keep fuel s t).2.
Proof.
  intros Hl. induction fuel as [|fuel IH]; intros s t Hs; [done|]. cbn [expand_loop]. destruct t as [|x t]; [done|].
  assert (∀ bs s r, P s → P (let '(out, s) := expand_loop lookup keep fuel s r in (bs ++ out, s)).2) as Hput.
  { intros bs s' r Hs'. specialize (IH s' r Hs'). by destruct (expand_loop lookup keep fuel s' r). }
  destruct (negb _); [by apply Hput|]. destruct t as [|d t]; [by apply Hput|].
  assert (∀ name f r, P s →
    P (match lookup s name with
       | (Some v, s) => let '(out, s) := expand_loop lookup keep fuel s r in (v ++ out, s)
       | (None, s) => let '(out, s) := expand_loop lookup keep fuel s r in (f ++ out, s) end).2) as Hname.
  { intros name f r _. specialize (Hl s name Hs). destruct (lookup s name) as [[v|] s']; by apply Hput. }
  destruct (Ascii.eqb d lbrace).
  - destruct (upto_brace t) as [[[|x1 ns] r]|]; [by apply Hput| |by apply Hput]. by apply Hname.
  - destruct (var_name (d :: t)) as [[|x1 ns] r]; [by apply Hput|]. by apply Hname.
Qed.

(** Reading variables changes a request at most by giving it an identifier. *)
Definition same_request (r r' : reqctx) : Prop := r' = r ∨ uv_request_id r = None ∧ r' = set_request_id r (fresh_uuid r).

Lemma getter_same r name w : same_request r (req w) → same_request r (req (getter ip_string ssl_getter name w).2).
Proof.
  intros Hw. unfold getter, with_addr.
  repeat (destruct (decide _); [try done; repeat case_match; try done|]); try done.
  cbn. right. destruct Hw as [Hw|[Hn Hw]]; rewrite Hw in *; [done|].
  cbn in *. done.
Qed.

Lemma Get_same r vc name : same_request r (req (ctx vc)) → same_request r (req (ctx (Get ip_string ssl_getter globals vc name).2)).
Proof.
  intros Hr. unfold Get. repeat (case_match; [done|]). unfold evalBuiltin.
  destruct (GetBuiltin name); [|done]. pose proof (getter_same r name (ctx vc) Hr) as Hg.
  by destruct (getter ip_string ssl_getter name (ctx vc)) as [v w].
Qed.

Lemma expandVars_same c t : same_request (vars (rq c)) (vars (rq (expandVars c t).2)).
Proof.
  unfold expandVars. destruct (decide (t = [])); [by left|]. destruct (negb _); [by left|].
  assert (same_request (vars (rq c)) (req (ctx (Expand ip_string ssl_getter globals
    (NewContext None (mkWorld (get_cache (env c)) (vars (rq c)))) t).2))) as H; [|by destruct (Expand _ _ _ _ _)].
  unfold Expand, expandCore. destruct (existsb _ t); [|by left].
  apply (expand_loop_state _ _ (λ vc, same_request (vars (rq c)) (req (ctx vc)))); [|by left].
  intros vc nm. apply Get_same.
Qed.

(** ** Who decides *)

Lemma expandVars_rs c t : rs (expandVars c t).2 = rs c ∧ rq_headers (rq (expandVars c t).2) = rq_headers (rq c).
Proof.
  unfold expandVars. destruct (decide (t = [])); [done|]. destruct (negb _); [done|].
  by destruct (Expand _ _ _ _ _) as [s vc].
Qed.

Lemma custom_headers_rs c entries h :
  rs (custom_headers c entries h).2 = rs c ∧ rq_headers (rq (custom_headers c entries h).2) = rq_headers (rq c).
Proof.
  revert c h. induction entries as [|[k v] entries IH]; intros c h; [done|]. cbn [custom_headers].
  pose proof (expandVars_rs c v) as [H1 H2]. destruct (expandVars c v) as [s c1]. cbn [snd] in *.
  rewrite (proj1 (IH c1 _)), (proj2 (IH c1 _)). done.
Qed.

(** The service decides alone: with a status of 2xx the handler gets the request, with the
    headers and the response as they were; without, the client gets a 401 or a 403 when
    that is what the service said, and a 500 for everything else, a failed request
    included. *)
Theorem service_decides a next c :
  c_Enabled (config a) = true →
  ∃ sub c', rs c' = rs c ∧ rq_headers (rq c') = rq_headers (rq c) ∧ s_method sub = c_Method (config a) ∧
    AuthRequest_Process a next c =
      match Do (client a) sub with
      | None => Some (ctx_Error c' (go!"Internal Server Error") 500)
      | Some st =>
          if decide (200 ≤ st < 300) then next c'
          else Some (ctx_Error c' (go!"Unauthorized") (if decide (st = 401 ∨ st = 403) then st else 500))
      end.
Proof.
  intros He. unfold AuthRequest_Process, doAuthRequest. rewrite He. cbn [negb].
  pose proof (expandVars_rs c (c_URI (config a))) as [H1 H2].
  destruct (expandVars c (c_URI (config a))) as [uri c1]. cbn [snd] in *.
  pose proof (custom_headers_rs c1 (range (c_Headers (config a))) (forward c1 (default [] (c_Forward (config a))))) as [H3 H4].
  destruct (custom_headers c1 _ _) as [h c2]. cbn [snd] in *.
  exists (mkSub (c_Method (config a)) (full_uri c1 uri) h), c2.
  split_and!; [by rewrite H3|by rewrite H4|done|].
  destruct (Do _ _) as [st|]; [|done]. unfold judge. cbn [mbind option_bind].
  destruct (decide (200 ≤ st < 300)) as [Hok|Hok].
  - by rewrite (proj2 (Z.leb_le 200 st)), (proj2 (Z.ltb_lt st 300)) by lia.
  - assert ((200 <=? st) && (st <? 300) = false) as ->.
    { apply andb_false_iff. rewrite Z.leb_gt, Z.ltb_ge. lia. }
    destruct (decide (st = 401 ∨ st = 403)) as [[->| ->]|Hno]; [done..|].
    by rewrite !(proj2 (Z.eqb_neq _ _)) by lia.
Qed.

Lemma same_request_trans r1 r2 r3 : same_request r1 r2 → same_request r2 r3 → same_request r1 r3.
Proof. intros [->|[Hn ->]] [->|[Hn' ->]]; [by left|by right|by right|]. by cbn in Hn'. Qed.

Lemma custom_headers_same c entries h : same_request (vars (rq c)) (vars (rq (custom_headers c entries h).2)).
Proof.
  revert c h. induction entries as [|[k v] entries IH]; intros c h; [by left|]. cbn [custom_headers].
  pose proof (expandVars_same c v) as H1. destruct (expandVars c v) as [s c1]. cbn [snd] in H1.
  by eapply same_request_trans, IH.
Qed.

Lemma expandVars_rest c t :
  contentLength (rq (expandVars c t).2) = contentLength (rq c) ∧ rq_headers (rq (expandVars c t).2) = rq_headers (rq c).
Proof.
  unfold expandVars. destruct (decide (t = [])); [done|]. destruct (negb _); [done|].
  by destruct (Expand _ _ _ _ _) as [s vc].
Qed.

Lemma custom_headers_rest c entries h :
  contentLength (rq (custom_headers c entries h).2) = contentLength (rq c) ∧
  rq_headers (rq (custom_headers c entries h).2) = rq_headers (rq c).
Proof.
  revert c h. induction entries as [|[k v] entries IH]; intros c h; [done|]. cbn [custom_headers].
  pose proof (expandVars_rest c v) as [H1 H2]. destruct (expandVars c v) as [s c1]. cbn [snd] in *.
  by rewrite (proj1 (IH c1 _)), (proj2 (IH c1 _)).
Qed.

(** The request that the service is sent for a request: a function of the variables, the
    headers and the cached addresses. *)
Definition sub_of (a : AuthRequest) c : subrequest :=
  let '(uri, c) := expandVars c (c_URI (config a)) in
  mkSub (c_Method (config a)) (full_uri c uri)
    (custom_headers c (range (c_Headers (config a))) (forward c (default [] (c_Forward (config a))))).1.

Lemma doAuthRequest_sub a c : (doAuthRequest a c).1 = judge (Do (client a) (sub_of a c)).
Proof.
  unfold doAuthRequest, sub_of. destruct (expandVars c (c_URI (config a))) as [uri c1].
  by destruct (custom_headers c1 _ _) as [h c2].
Qed.

Definition alike c d : Prop :=
  vars (rq d) = vars (rq c) ∧ rq_headers (rq d) = rq_headers (rq c) ∧ get_cache (env d) = get_cache (env c).

Section Alike.
Context (get_put : ∀ e m, get_cache (put_cache e m) = m).

Lemma expandVars_alike c d t :
  alike c d → (expandVars d t).1 = (expandVars c t).1 ∧ alike (expandVars c t).2 (expandVars d t).2.
Proof using get_put.
  intros (Hv & Hh & Hc). unfold expandVars. destruct (decide (t = [])); [done|]. destruct (negb _); [done|].
  rewrite Hv, Hc. destruct (Expand _ _ _ _ _) as [s vc]. split; [done|]. split; [done|]. split; [done|].
  cbn. by rewrite !get_put.
Qed.

Lemma custom_headers_alike c d entries h :
  alike c d → (custom_headers d entries h).1 = (custom_headers c entries h).1.
Proof using get_put.
  revert c d h. induction entries as [|[k v] entries IH]; intros c d h Ha; [done|]. cbn [custom_headers].
  pose proof (expandVars_alike c d v Ha) as [H1 H2].
  destruct (expandVars c v) as [s c1], (expandVars d v) as [s' d1]. cbn in H1, H2. subst s'. by apply IH.
Qed.

Lemma sub_of_alike a c d : alike c d → sub_of a d = sub_of a c.
Proof using get_put.
  intros Ha. unfold sub_of. pose proof (expandVars_alike c d (c_URI (config a)) Ha) as [H1 H2].
  destruct (expandVars c _) as [s c1], (expandVars d _) as [s' d1]. cbn in H1, H2. subst s'.
  rewrite (custom_headers_alike c1 d1) by done. destruct H2 as (Hv & Hh & _).
  unfold full_uri, forward. by rewrite Hv, Hh.
Qed.
End Alike.

(** A request that passes is the one that came, but for an identifier, and the service
    answered 2xx to the request it was sent for it. *)
Lemma passed_layer a c c' :
  before (authrequest_layer a) c = Go c' →
  same_request (vars (rq c)) (vars (rq c')) ∧ contentLength (rq c') = contentLength (rq c) ∧
  rq_headers (rq c') = rq_headers (rq c) ∧
  (c_Enabled (config a) = true → ∃ st, Do (client a) (sub_of a c) = Some st ∧ 200 ≤ st < 300).
Proof.
  cbn. destruct (c_Enabled (config a)); cbn [negb]; [|intros [= <-]; split_and!; [by left|done..]].
  pose proof (doAuthRequest_sub a c) as Hj. intros Hgo.
  assert (∃ st, Do (client a) (sub_of a c) = Some st ∧ 200 ≤ st < 300) as Hst.
  { destruct (doAuthRequest a c) as [[[[] st]|] c1]; [|done..]. cbn [fst] in Hj.
    destruct (Do (client a) (sub_of a c)) as [st'|]; [|done]. unfold judge in Hj. cbn [mbind option_bind] in Hj.
    destruct ((200 <=? st') && (st' <? 300)) eqn:H2xx; [|by destruct (_ || _)]. exists st'. split; [done|].
    bool_to_prop. lia. }
  clear Hj. revert Hgo. unfold doAuthRequest. pose proof (expandVars_same c (c_URI (config a))) as H1.
  pose proof (expandVars_rest c (c_URI (config a))) as [H2 H3].
  destruct (expandVars c (c_URI (config a))) as [uri c1]. cbn [snd] in *.
  pose proof (custom_headers_same c1 (range (c_Headers (config a))) (forward c1 (default [] (c_Forward (config a))))) as H4.
  pose proof (custom_headers_rest c1 (range (c_Headers (config a))) (forward c1 (default [] (c_Forward (config a))))) as [H5 H6].
  destruct (custom_headers c1 _ _) as [h c2]. cbn [snd] in *.
  destruct (judge _) as [[[] st]|]; [|done..]. intros [= <-].
  split_and!; [by eapply same_request_trans|congruence..|done].
Qed.

(** A service that is configured by its path is asked at the host that the client of the
    server names: whoever answers there with a 200 lets the request in. *)
Theorem client_chooses_the_judge cfg a next c evil :
  NewAuthRequest cfg = Ok a → c_Enabled cfg = true → isFullURL (c_URI cfg) = false →
  GoStrings.Contains (c_URI cfg) [dollar] = false → range (c_Headers cfg) = [] →
  rq_host (vars (rq c)) = evil → evil ≠ [] → rq_tls (vars (rq c)) = false →
  (∀ m h, Do None (mkSub m (go!"http://" ++ evil ++ c_URI cfg) h) = Some 200) →
  AuthRequest_Process a next c = next c.
Proof.
  unfold NewAuthRequest. intros Hnew He Hfull Hvar Hr Hhost Hne Htls Hdo. rewrite He, Hfull in Hnew. cbn [negb] in Hnew.
  destruct (decide (c_URI cfg = [])) as [Hu|Hu]; [done|]. injection Hnew as <-.
  unfold AuthRequest_Process, doAuthRequest. cbn. rewrite He. cbn [negb].
  unfold expandVars. rewrite decide_False, Hvar by done. cbn [negb]. rewrite Hr. cbn [custom_headers].
  assert (full_uri c (c_URI cfg) = go!"http://" ++ evil ++ c_URI cfg) as ->; [|by rewrite Hdo].
  unfold full_uri. rewrite Hfull, Htls, Hhost. by rewrite decide_False.
Qed.

End AuthRequest.

(** An update whose URL is refused leaves the new configuration in place, with the
    client of the old one: the requests go on to the address that was to be replaced. *)
Theorem refused_update_applies a cfg :
  c_Enabled cfg = true → c_URI cfg ≠ [] → isFullURL (c_URI cfg) = true → parseAuthURL (c_URI cfg) = None →
  AuthRequest_UpdateConfig a cfg = (Some InvalidURL, mkAuthRequest (applyDefaults cfg) (client a)).
Proof.
  intros He Hu Hf Hp. unfold AuthRequest_UpdateConfig. rewrite He, Hf. cbn [negb].
  rewrite decide_False by done. unfold initClient. cbn [config applyDefaults c_URI]. by rewrite Hp.
Qed.

(** ** Examples *)

#[local] Instance http : FastHTTP := text_http.

Definition ex_ar (uri : gostring) : arConfig := mkAR true uri [] 0 ∅ None.

(** A service that answers 200 at evil.example only. *)
Definition ex_Do (cl : option (gostring * bool)) (sub : subrequest) : option Z :=
  if HasPrefix (s_uri sub) (go!"http://evil.example/") then Some 200 else Some 401.

Definition ex_evil : Ctx unit :=
  let c := ex_ctx ∅ false (go!"/admin") tt in
  with_rq c (with_vars (rq c)
    (mkReq (go!"evil.example") (go!"/admin") (go!"/admin") [] (go!"GET") false [] None None None None None None None [] [] [])).

Lemma service_decides_witness :
  ∃ sub c', rs c' = rs ex_evil ∧ rq_headers (rq c') = rq_headers (rq ex_evil) ∧ s_method sub = go!"GET" ∧
    AuthRequest_Process ex_Do (λ _, []) (λ _ _, []) ∅ (λ _, ∅) (λ e _, e) map_to_list
      (mkAuthRequest (applyDefaults (ex_ar (go!"/auth"))) None) Some ex_evil =
      match ex_Do None sub with
      | None => Some (ctx_Error c' (go!"Internal Server Error") 500)
      | Some st =>
          if decide (200 ≤ st < 300) then Some c'
          else Some (ctx_Error c' (go!"Unauthorized") (if decide (st = 401 ∨ st = 403) then st else 500))
      end.
Proof.
  exact (service_decides ex_Do (λ _, []) (λ _ _, []) ∅ (λ _, ∅) (λ e _, e) map_to_list
    (mkAuthRequest (applyDefaults (ex_ar (go!"/auth"))) None) Some ex_evil eq_refl).
Defined.

Lemma client_chooses_the_judge_witness :
  AuthRequest_Process ex_Do (λ _, []) (λ _ _, []) ∅ (λ _, ∅) (λ e _, e) map_to_list
    (mkAuthRequest (applyDefaults (ex_ar (go!"/auth"))) None) Some ex_evil = Some ex_evil.
Proof.
  by apply (client_chooses_the_judge ex_Do (λ _, []) (λ _ _, []) ∅ (λ _, ∅) (λ e _, e) map_to_list
    (ex_ar (go!"/auth")) (mkAuthRequest (applyDefaults (ex_ar (go!"/auth"))) None) Some ex_evil (go!"evil.example")).
Defined.

Lemma refused_update_applies_witness :
  ∃ old, parseAuthURL (go!"http://old:81/a") = Some old ∧
    (AuthRequest_UpdateConfig (mkAuthRequest (ex_ar (go!"http://old:81/a")) (Some old)) (ex_ar (go!"http:///new"))).2 =
      mkAuthRequest (applyDefaults (ex_ar (go!"http:///new"))) (Some old).
Proof.
  exists (go!"old:81", false). split; [reflexivity|].
  by rewrite (refused_update_applies (mkAuthRequest (ex_ar (go!"http://old:81/a")) (Some (go!"old:81", false)))
    (ex_ar (go!"http:///new")) eq_refl ltac:(done) eq_refl eq_refl).
Defined.

(** An IPv6 address without a port gets a second pair of brackets. *)
Example ex_addresses :
  parseAuthURL (go!"https://auth/verify?x=1") = Some (go!"auth:443", true) ∧
  parseAuthURL (go!"http://auth:8080") = Some (go!"auth:8080", false) ∧
  parseAuthURL (go!"http://[::1]:8080/") = Some (go!"[::1]:8080", false) ∧
  parseAuthURL (go!"http://[::1]/") = Some (go!"[[::1]]:80", false) ∧
  parseAuthURL (go!"http:///x") = None.
Proof. by vm_compute. Qed.
