(* ===== verification/LuaMiddleware.v ===== *)
(** * LuaMiddleware: scripts as middlewares

    [src/internal/lua/context.go], [middleware.go], [route_handler.go], the phases of
    [coroutine.go] and [ParsePhase] of [middleware_config.go].  What a script does is a
    parameter: it may fail to get a coroutine, and otherwise changes its context and the
    request's, and ends with or without an error.

    Shown: a context from the pool is as good as a new one; a middleware of many phases
    runs them in nginx's order; which requests a script stops, and that one which fails
    does not. *)

From S2P Require Import Prelude GoStrings NetIP ReqVars ProxyHeaders Http.

Inductive Phase := PhaseInit | PhaseRewrite | PhaseAccess | PhaseContent | PhaseLog | PhaseHeaderFilter | PhaseBodyFilter.

Global Instance Phase_eq_dec : EqDecision Phase.
Proof. solve_decision. Defined.

(** The constants' numbers. *)
Definition phase_code (p : Phase) : nat :=
  match p with
  | PhaseInit => 0 | PhaseRewrite => 1 | PhaseAccess => 2 | PhaseContent => 3 | PhaseLog => 4
  | PhaseHeaderFilter => 5 | PhaseBodyFilter => 6
  end.

Definition phase_of_code (n : nat) : option Phase :=
  [PhaseInit; PhaseRewrite; PhaseAccess; PhaseContent; PhaseLog; PhaseHeaderFilter; PhaseBodyFilter] !! n.

Global Instance Phase_countable : Countable Phase.
Proof. apply (inj_countable phase_code phase_of_code). by intros []. Defined.

Definition Phase_String (p : Phase) : gostring :=
  match p with
  | PhaseInit => go!"init" | PhaseRewrite => go!"rewrite" | PhaseAccess => go!"access" | PhaseContent => go!"content"
  | PhaseLog => go!"log" | PhaseHeaderFilter => go!"header_filter" | PhaseBodyFilter => go!"body_filter"
  end.

(** [None] is an unknown phase. *)
Definition ParsePhase (s : gostring) : option Phase :=
  if decide (s = go!"rewrite") then Some PhaseRewrite
  else if decide (s = go!"access") then Some PhaseAccess
  else if decide (s = go!"content") then Some PhaseContent
  else if decide (s = go!"log") then Some PhaseLog
  else if decide (s = go!"header_filter") then Some PhaseHeaderFilter
  else if decide (s = go!"body_filter") then Some PhaseBodyFilter
  else None.

(** ** [context.go] *)

Record LuaContext := mkLua {
  Variables : gmap gostring gostring; OutputBuffer : gostring; lc_Phase : Phase; Exited : bool; has_coroutine : bool }.

(** A new context, and one from the pool, which is as [Release] left it. *)
Definition fresh_context : LuaContext := mkLua ∅ [] PhaseInit false false.

Definition AcquireContext (pooled : option LuaContext) : LuaContext :=
  let lc := default fresh_context pooled in
  mkLua (Variables lc) (OutputBuffer lc) PhaseInit (Exited lc) (has_coroutine lc).

Definition SetPhase (lc : LuaContext) (p : Phase) : LuaContext :=
  mkLua (Variables lc) (OutputBuffer lc) p (Exited lc) (has_coroutine lc).
Definition GetPhase (lc : LuaContext) : Phase := lc_Phase lc.
Definition GetVariable (lc : LuaContext) (name : gostring) : option gostring := Variables lc !! name.
Definition SetVariable (lc : LuaContext) (name value : gostring) : LuaContext :=
  mkLua (<[name := value]> (Variables lc)) (OutputBuffer lc) (lc_Phase lc) (Exited lc) (has_coroutine lc).
Definition with_output (lc : LuaContext) (b : gostring) : LuaContext :=
  mkLua (Variables lc) b (lc_Phase lc) (Exited lc) (has_coroutine lc).
Definition Write (lc : LuaContext) (data : gostring) : LuaContext := with_output lc (OutputBuffer lc ++ data).
Definition Say (lc : LuaContext) (data : gostring) : LuaContext := with_output lc (OutputBuffer lc ++ data ++ ["010"%char]).
Definition with_exited (lc : LuaContext) : LuaContext :=
  mkLua (Variables lc) (OutputBuffer lc) (lc_Phase lc) true (has_coroutine lc).
Definition with_coroutine (lc : LuaContext) : LuaContext :=
  mkLua (Variables lc) (OutputBuffer lc) (lc_Phase lc) (Exited lc) true.

(** The keys of the variables are deleted one by one. *)
Definition Lua_Release (lc : LuaContext) : LuaContext :=
  mkLua (foldl (λ m k, delete k m) (Variables lc) (elements (dom (Variables lc)))) [] PhaseInit false false.

Section Lua.
Context {F : FastHTTP} {E : Type}.
(** The error of [InitCoroutine], if any; and a script: its error, the contexts after it. *)
Context (InitCoroutine : Ctx E → option gostring)
        (run_script : gostring → LuaContext → Ctx E → option gostring * LuaContext * Ctx E).
Implicit Types (c : Ctx E) (next : handler E).

Definition Exit (lc : LuaContext) c (code : Z) : LuaContext * Ctx E := (with_exited lc, set_status c code).

Definition FlushOutput (lc : LuaContext) c : LuaContext * Ctx E :=
  match OutputBuffer lc with
  | [] => (lc, c)
  | out => (with_output lc [], set_body c (rs_body (rs c) ++ out))
  end.

(** [ngx.exit] and [ngx.redirect] end a script by an error with their name in it. *)
Definition is_ngx_exit (err : option gostring) : bool :=
  match err with
  | Some e => GoStrings.Contains e (go!"ngx.exit") || GoStrings.Contains e (go!"ngx.redirect")
  | None => false
  end.

(** What a script and a route handler do with a request, up to the release of the
    context: has the script exited, and the request. [None] is a failed coroutine. *)
Definition execute (path : gostring) (phase : Phase) (pooled : option LuaContext) c : Ctx E * option bool :=
  let lc := SetPhase (AcquireContext pooled) phase in
  match InitCoroutine c with
  | Some e => (ctx_Error c (go!"lua coroutine init failed: " ++ e) 500, None)
  | None =>
      let '(err, lc, c) := run_script path (with_coroutine lc) c in
      let isNgxExit := is_ngx_exit err in
      let lc := if isNgxExit then with_exited lc else lc in
      let c :=
        match err with
        | Some e =>
            if negb isNgxExit && negb (Exited lc) then ctx_Error c (go!"lua execution failed: " ++ e) 500 else c
        | None => c
        end in
      let '(lc, c) := FlushOutput lc c in
      (c, Some (Exited lc))
  end.

(** ** [middleware.go] *)

Record LuaMw := mkLuaMw { lm_script : gostring; lm_name : gostring; lm_phase : Phase; lm_timeout : Z; lm_enabled : bool }.

Record LuaMwConfig := mkLuaMwConfig {
  lc_ScriptPath : gostring; lc_Name : gostring; lc_phase : Phase; lc_Timeout : Z; lc_Enabled : bool; lc_EnabledSet : bool }.

Inductive lua_error := EngineRequired | ScriptRequired.

Definition NewLuaMiddleware (engine : bool) (cfg : LuaMwConfig) : res lua_error LuaMw :=
  if negb engine then Err EngineRequired
  else if decide (lc_ScriptPath cfg = []) then Err ScriptRequired
  else
    Ok (mkLuaMw (lc_ScriptPath cfg)
          (if decide (lc_Name cfg = []) then go!"lua-" ++ Phase_String (lc_phase cfg) else lc_Name cfg)
          (lc_phase cfg) (if lc_Timeout cfg =? 0 then 30 * second else lc_Timeout cfg)
          (if lc_EnabledSet cfg then lc_Enabled cfg else true)).

(** [pool] is the context the pool has at hand, if any. *)
Definition Lua_Process (pool : Ctx E → option LuaContext) (m : LuaMw) next : handler E := λ c,
  if negb (lm_enabled m) then next c
  else
    match execute (lm_script m) (lm_phase m) (pool c) c with
    | (c, None) => Some c
    | (c, Some exited) => if exited then Some c else next c
    end.

Definition SetEnabled (m : LuaMw) (enabled : bool) : LuaMw :=
  mkLuaMw (lm_script m) (lm_name m) (lm_phase m) (lm_timeout m) enabled.
Definition Lua_SetPhase (m : LuaMw) (p : Phase) : LuaMw :=
  mkLuaMw (lm_script m) (go!"lua-" ++ Phase_String p) p (lm_timeout m) (lm_enabled m).
Definition SetTimeout (m : LuaMw) (d : Z) : LuaMw :=
  mkLuaMw (lm_script m) (lm_name m) (lm_phase m) d (lm_enabled m).
Definition SetScriptPath (m : LuaMw) (p : gostring) : LuaMw :=
  mkLuaMw p (lm_name m) (lm_phase m) (lm_timeout m) (lm_enabled m).

(** One middleware for each phase. *)
Record MultiPhase := mkMulti { mp_engine : bool; phases : gmap Phase LuaMw; mp_name : gostring }.

Definition NewMultiPhaseLuaMiddleware (engine : bool) (name : gostring) : MultiPhase := mkMulti engine ∅ name.

Definition AddPhase (m : MultiPhase) (phase : Phase) (scriptPath : gostring) (timeout : Z) : option lua_error * MultiPhase :=
  match NewLuaMiddleware (mp_engine m)
          (mkLuaMwConfig scriptPath (mp_name m ++ go!"-" ++ Phase_String phase) phase timeout true true) with
  | Err e => (Some e, m)
  | Ok mw => (None, mkMulti (mp_engine m) (<[phase := mw]> (phases m)) (mp_name m))
  end.

Definition phaseOrder : list Phase :=
  [PhaseLog; PhaseBodyFilter; PhaseHeaderFilter; PhaseContent; PhaseAccess; PhaseRewrite].

Definition Multi_Process (pool : Ctx E → option LuaContext) (m : MultiPhase) next : handler E :=
  foldl (λ handler phase,
    match phases m !! phase with Some mw => Lua_Process pool mw handler | None => handler end) next phaseOrder.

Definition GetPhaseMiddleware (m : MultiPhase) (p : Phase) : option LuaMw := phases m !! p.
Definition RemovePhase (m : MultiPhase) (p : Phase) : MultiPhase := mkMulti (mp_engine m) (delete p (phases m)) (mp_name m).
Definition HasPhase (m : MultiPhase) (p : Phase) : bool := bool_decide (is_Some (phases m !! p)).
Definition PhaseCount (m : MultiPhase) : Z := Z.of_nat (size (phases m)).

(** ** [route_handler.go] *)

Definition Route_ServeHTTP (pool : Ctx E → option LuaContext) (scriptPath : gostring) : handler E := λ c,
  Some (execute scriptPath PhaseContent (pool c) c).1.

(** ** Layers *)

Definition Lua_Middleware pool (m : LuaMw) : Middleware E := mkMiddleware (lm_name m) (Lua_Process pool m).

Definition lua_layer pool (m : LuaMw) : layer E := mkLayer
  (λ c,
    if negb (lm_enabled m) then Go c
    else
      match execute (lm_script m) (lm_phase m) (pool c) c with
      | (c, None) => Answer c
      | (c, Some exited) => if exited then Answer c else Go c
      end)
  (λ _, Some).

#[global] Instance Lua_layered pool m : Layered (Lua_Middleware pool m) (lua_layer pool m).
Proof.
  intros next c. unfold around. cbn. unfold Lua_Process. destruct (negb _); [by destruct (next c)|].
  destruct (execute _ _ _ _) as [c' [[]|]]; [done| |done]. cbn. by destruct (next c').
Qed.

(** nginx's order. *)
Definition nginx_order : list Phase :=
  [PhaseRewrite; PhaseAccess; PhaseContent; PhaseHeaderFilter; PhaseBodyFilter; PhaseLog].

Definition multi_chain pool (m : MultiPhase) : Chain E :=
  NewChain (Lua_Middleware pool <$> omap (λ p, phases m !! p) nginx_order).

(** A middleware of several phases is the chain of their scripts in nginx's order, from
    the rewriting of the request to the log. *)
Theorem phases_in_order pool m next c : Multi_Process pool m next c = Apply (multi_chain pool m) next c.
Proof.
  unfold Multi_Process, multi_chain, phaseOrder, nginx_order. rewrite Apply_foldr. cbn [foldl omap list_omap middlewares].
  by destruct (phases m !! PhaseRewrite), (phases m !! PhaseAccess), (phases m !! PhaseContent),
    (phases m !! PhaseHeaderFilter), (phases m !! PhaseBodyFilter), (phases m !! PhaseLog).
Qed.

Definition Multi_Middleware pool (m : MultiPhase) : Middleware E := mkMiddleware (mp_name m) (Multi_Process pool m).

Definition multi_layer pool (m : MultiPhase) : layer E := stack (lua_layer pool <$> omap (λ p, phases m !! p) nginx_order).

#[global] Instance Multi_layered pool m : Layered (Multi_Middleware pool m) (multi_layer pool m).
Proof.
  intros next c. cbn [Process Multi_Middleware]. rewrite phases_in_order. apply stack_layered. cbn [middlewares multi_chain].
  induction (omap _ _) as [|mw ms IH]; constructor; [apply _|done].
Qed.

(** ** What a script can stop *)

(** A script keeps a request from the handler exactly when it exits, by [ngx.exit] or
    [ngx.redirect] or by the flag of its context, or gets no coroutine. *)
Theorem script_stops pool m next c :
  lm_enabled m = true →
  Lua_Process pool m next c =
    match InitCoroutine c with
    | Some e => Some (ctx_Error c (go!"lua coroutine init failed: " ++ e) 500)
    | None =>
        let '(err, lc, c') := run_script (lm_script m)
          (with_coroutine (SetPhase (AcquireContext (pool c)) (lm_phase m))) c in
        let exited := is_ngx_exit err || Exited lc in
        let c' := if exited then c' else match err with
                  | Some e => ctx_Error c' (go!"lua execution failed: " ++ e) 500 | None => c' end in
        let c' := set_body c' (rs_body (rs c') ++ OutputBuffer lc) in
        if exited then Some c' else next c'
    end.
Proof.
  intros He. unfold Lua_Process, execute. rewrite He. cbn [negb]. destruct (InitCoroutine c) as [e|]; [done|].
  destruct (run_script _ _ c) as [[err lc] c'] eqn:Hr.
  assert (∀ d : Ctx E, set_body d (rs_body (rs d) ++ []) = d) as Hnil.
  { intros [r [st h b] e']. unfold set_body, with_rs. cbn. by rewrite app_nil_r. }
  destruct (is_ngx_exit err) eqn:Hn; cbn [negb andb orb].
  - assert (∀ d : Ctx E, match err with Some _ => d | None => d end = d) as -> by (by destruct err).
    unfold FlushOutput. cbn [OutputBuffer with_exited]. destruct (OutputBuffer lc) as [|b bs]; cbn; by rewrite ?Hnil.
  - destruct (Exited lc) eqn:Hx; cbn [negb].
    + assert (∀ d : Ctx E, match err with Some _ => d | None => d end = d) as -> by (by destruct err).
      unfold FlushOutput. destruct (OutputBuffer lc) as [|b bs] eqn:Hb; cbn; rewrite ?Hx; by rewrite ?Hnil.
    + unfold FlushOutput. destruct (OutputBuffer lc) as [|b bs] eqn:Hb; cbn; rewrite ?Hx; by rewrite ?Hnil.
Qed.

(** A script that fails does not stop the request: its error page is handed to the next
    handler, which answers in its place. An access check that fails lets everyone in. *)
Theorem failing_script_lets_in pool m next c e lc c' :
  lm_enabled m = true → InitCoroutine c = None →
  run_script (lm_script m) (with_coroutine (SetPhase (AcquireContext (pool c)) (lm_phase m))) c = (Some e, lc, c') →
  is_ngx_exit (Some e) = false → Exited lc = false → OutputBuffer lc = [] →
  Lua_Process pool m next c = next (ctx_Error c' (go!"lua execution failed: " ++ e) 500).
Proof.
  intros He Hi Hr Hn Hx Ho. rewrite script_stops by done. rewrite Hi, Hr, Hn, Hx, Ho. cbn [orb].
  f_equal. unfold set_body, with_rs. cbn. by rewrite app_nil_r.
Qed.

End Lua.

(** ** The pool *)

(** A context that was released is as good as a new one: nothing of a request reaches
    the next one that gets its context. *)
Theorem released_is_fresh lc : AcquireContext (Some (Lua_Release lc)) = AcquireContext None.
Proof. unfold AcquireContext, Lua_Release, fresh_context. cbn. by rewrite clear_all. Qed.

(** ** Examples: a script that refuses, and one with a mistake *)

#[local] Instance http : FastHTTP := text_http.

Definition ex_script (path : gostring) (lc : LuaContext) (c : Ctx unit) : option gostring * LuaContext * Ctx unit :=
  if decide (path = go!"deny.lua") then (Some (go!"<string>:1: ngx.exit: 403"), Write lc (go!"no"), set_status c 403)
  else (Some (go!"<string>:7: attempt to index a nil value"), lc, c).

Definition ex_access (path : gostring) : LuaMw := mkLuaMw path (go!"lua-access") PhaseAccess 0 true.
Definition ex_c : Ctx unit := ex_ctx ∅ true (go!"/admin") tt.
Definition ex_secret (c : Ctx unit) : option (Ctx unit) := Some (set_body (set_status c 200) (go!"secret")).

Lemma script_stops_witness :
  Lua_Process (λ _, None) ex_script (λ _, None) (ex_access (go!"deny.lua")) ex_secret ex_c =
    Some (set_body (set_status ex_c 403) (go!"no")).
Proof. by rewrite (script_stops (λ _, None) ex_script (λ _, None) (ex_access (go!"deny.lua")) ex_secret ex_c eq_refl). Defined.

Lemma failing_script_lets_in_witness :
  rs_body ∘ rs <$> Lua_Process (λ _, None) ex_script (λ _, None) (ex_access (go!"bad.lua")) ex_secret ex_c = Some (go!"secret").
Proof.
  by rewrite (failing_script_lets_in (λ _, None) ex_script (λ _, None) (ex_access (go!"bad.lua")) ex_secret ex_c
    (go!"<string>:7: attempt to index a nil value") (with_coroutine (SetPhase (AcquireContext None) PhaseAccess)) ex_c).
Defined.
