(* ===== verification/Chain.v ===== *)
(** * Chain: the middlewares of a server

    [src/internal/server/middleware_builder.go], with [accesslog.go] and the wrappers
    of [access.go], [ratelimit.go] and [rewrite.go] around what [Access], [RateLimit] and
    [Rewrite] model.  The environment has what the middlewares keep between requests: the
    limiters, the counter and the lines of the access log, the clock, the cache of
    addresses.  The parameters are those of the parts; the Lua engine gives its scripts.

    Shown: a request that reaches the handler has passed every guard that the
    configuration asks for, because any other is answered the same whatever the handler
    is; the access log sees every answer, those of the guards included; which requests it
    records; how scripts of one phase displace one another; and a request that takes a
    connection's slot and gives back another's. *)

From Corelib Require Import SpecFloat.
From S2P Require Import Prelude GoStrings Float64 Location NetIP.
From S2P Require Access RateLimit Rewrite.
From S2P Require Import Config ConfigUpdate ReqVars Target Selector ProxyHeaders Http.
From S2P Require Auth BodyLimit ResponseHeaders ErrorPages Compression AuthRequest LuaMiddleware.

Record log_entry := mkEntry { l_status : Z; l_size : Z; l_duration : Z; l_user : option gostring }.

Record Env := mkEnv {
  e_limiter : option RateLimit.limiter; e_conns : option RateLimit.ConnLimiter;
  e_counter : Z; e_log : list log_entry; e_now : Z; e_cache : gmap gostring gostring }.

Definition with_limiter (e : Env) (l : RateLimit.limiter) : Env :=
  mkEnv (Some l) (e_conns e) (e_counter e) (e_log e) (e_now e) (e_cache e).
Definition with_conns (e : Env) (l : RateLimit.ConnLimiter) : Env :=
  mkEnv (e_limiter e) (Some l) (e_counter e) (e_log e) (e_now e) (e_cache e).
Definition with_log (e : Env) (counter : Z) (l : list log_entry) : Env :=
  mkEnv (e_limiter e) (e_conns e) counter l (e_now e) (e_cache e).
Definition with_addr_cache (e : Env) (m : gmap gostring gostring) : Env :=
  mkEnv (e_limiter e) (e_conns e) (e_counter e) (e_log e) (e_now e) m.

(** ** [accesslog.go] *)

Record AccessLog := mkAccessLog { sampleRate : float64; sampleInterval : Z }.

(** [uint64(f)], on amd64. *)
Definition uint64_of_f64 (f : float64) : Z :=
  match f with
  | S754_nan | S754_infinity _ => 2 ^ 63
  | _ => let v := f64_trunc f in if (0 <=? v) && (v <? 2 ^ 64) then v else 2 ^ 63
  end.

Definition f64_half : float64 := f64_div (f64_of_int 1) (f64_of_int 2).

Definition accesslog_New (cfg : LoggingConfig) : AccessLog :=
  let r := al_SampleRate (lg_Access cfg) in
  let r := if f64_ltb r (f64_of_int 0) || f64_ltb (f64_of_int 1) r then f64_of_int 1 else r in
  let interval :=
    if f64_ltb (f64_of_int 0) r && f64_ltb r (f64_of_int 1) then
      let i := uint64_of_f64 (f64_add (f64_div (f64_of_int 1) r) f64_half) in if i <? 1 then 1 else i
    else 1 in
  mkAccessLog r interval.

(** The decision, and the counter after it. *)
Definition shouldLog (a : AccessLog) (status counter : Z) : bool * Z :=
  if 500 <=? status then (true, counter)
  else if f64_leb (sampleRate a) (f64_of_int 0) && f64_leb (f64_of_int 0) (sampleRate a) then (false, counter)
  else if f64_leb (f64_of_int 1) (sampleRate a) then (true, counter)
  else let n := wrap64 (counter + 1) in (n mod sampleInterval a =? 1, n).

Section Chain.
Context {F : FastHTTP} `{Regexp}.
Context (db_country : IP → option gostring) (db_opens : gostring → bool) (ip_string : IP → gostring).
Context (bcrypt_Compare : gostring → gostring → bool)
        (argon2_IDKey : gostring → gostring → Z → Z → Z → Z → option gostring).
Context (range_limits : gmap gostring Z → list (gostring * Z)).
Context (Do : option (gostring * bool) → AuthRequest.subrequest → option Z)
        (ssl_getter : reqctx → gostring → gostring) (globals : gmap gostring gostring)
        (range_headers : gmap gostring gostring → list (gostring * gostring)).
Context (ReplaceAllString : regexp → gostring → gostring → gostring)
        (SetRequestURI : reqctx → gostring → reqctx) (Redirect : Ctx Env → gostring → Z → response).
Context (compress : Compression.Algorithm → Z → gostring → gostring).
Context (InitCoroutine : Ctx Env → option gostring)
        (run_script : gostring → LuaMiddleware.LuaContext → Ctx Env → option gostring * LuaMiddleware.LuaContext * Ctx Env)
        (pool : Ctx Env → option LuaMiddleware.LuaContext).
Implicit Types (c d : Ctx Env) (next : handler Env).

Definition log_answer (a : AccessLog) (start : Z) c : Ctx Env :=
  let '(log, counter) := shouldLog a (rs_status (rs c)) (e_counter (env c)) in
  let entry := mkEntry (rs_status (rs c)) (zlen (rs_body (rs c))) (time_sub (e_now (env c)) start) (remote_user (rq c)) in
  with_env c (with_log (env c) counter (if log then e_log (env c) ++ [entry] else e_log (env c))).

Definition AccessLog_Process (a : AccessLog) next : handler Env := λ c,
  let start := e_now (env c) in
  out ← next c; Some (log_answer a start out).

(** ** [access.go]: [Process] *)

Definition Access_Process (ac : Access.AccessControl) next : handler Env := λ c,
  if negb (Access.Check db_country ac (Access.getClientIP ac (conn_of (rq c)))) then
    Some (ctx_Error c (go!"Forbidden: Access denied") 403)
  else next c.

(** ** [ratelimit.go]: the two kinds of [Process], and the connections *)

Definition header_key c : gostring := Peek (rq_headers (rq c)) (go!"X-RateLimit-Key").

Definition token_key (rl : RateLimit.RateLimiter) (k : RateLimit.key_type) c : gostring :=
  match k with
  | RateLimit.ByIP => RateLimit.RL_keyByIP ip_string (RateLimit.trustedProxies rl) (conn_of (rq c))
  | RateLimit.ByHeader => RateLimit.RL_keyByHeader ip_string (RateLimit.trustedProxies rl) (header_key c) (conn_of (rq c))
  end.

Definition plain_key (k : RateLimit.key_type) c : gostring :=
  match k with
  | RateLimit.ByIP => RateLimit.keyByIP ip_string (conn_of (rq c))
  | RateLimit.ByHeader => RateLimit.keyByHeader ip_string (header_key c) (conn_of (rq c))
  end.

(** Does the limiter let the request pass? And the context, with its new state. *)
Definition rate_limit c : bool * Ctx Env :=
  match e_limiter (env c) with
  | None => (true, c)
  | Some (RateLimit.TokenBucket rl k) =>
      let key := token_key rl k c in
      let '(ok, rl) := RateLimit.RL_Allow (e_now (env c)) (e_now (env c)) rl key in
      let c := with_env c (with_limiter (env c) (RateLimit.TokenBucket rl k)) in
      (ok, if ok then c
           else SendError (put_header c (go!"Retry-After") (FormatInt (RateLimit.getRetryAfter rl key))) ErrTooManyRequests)
  | Some (RateLimit.Sliding s k) =>
      let '(ok, s) := RateLimit.Allow (e_now (env c)) s (plain_key k c) in
      let c := with_env c (with_limiter (env c) (RateLimit.Sliding s k)) in
      (ok, if ok then c else SendError c ErrTooManyRequests)
  end.

Definition Rate_Process next : handler Env := λ c,
  let '(ok, c) := rate_limit c in if ok then next c else Some c.

Definition conn_key (cl : RateLimit.ConnLimiter) c : gostring :=
  match RateLimit.cl_key cl with Some k => plain_key k c | None => [] end.

Definition Acquire c : bool * Ctx Env :=
  match e_conns (env c) with
  | None => (true, c)
  | Some cl =>
      if RateLimit.perKey cl then
        let '(ok, cl) := RateLimit.Acquire_key cl (conn_key cl c) in (ok, with_env c (with_conns (env c) cl))
      else
        let '(ok, cl) := RateLimit.Acquire_add cl in
        (ok, with_env c (with_conns (env c) (if ok then cl else RateLimit.Acquire_undo cl)))
  end.

Definition Conn_Release c : Ctx Env :=
  match e_conns (env c) with
  | None => c
  | Some cl => with_env c (with_conns (env c) (RateLimit.Release cl (conn_key cl c)))
  end.

Definition Conn_Process next : handler Env := λ c,
  let '(ok, c) := Acquire c in
  if negb ok then Some (SendErrorWithDetail c ErrServiceUnavailable (go!"Connection limit exceeded"))
  else out ← next c; Some (Conn_Release out).

(** ** [rewrite.go]: [Process] *)

Definition rewrite_expand (e : Env) (v : reqctx) (t : gostring) : gostring :=
  (Expand ip_string ssl_getter globals (NewContext None (mkWorld (e_cache e) v)) t).1.

Definition Rewrite_Process (rules : list Rewrite.Rule) next : handler Env := λ c,
  match Rewrite.Process ReplaceAllString rq_path SetRequestURI (rewrite_expand (env c)) rules (vars (rq c)) with
  | None => None
  | Some Rewrite.Failed500 => Some (SendError c ErrInternalError)
  | Some (Rewrite.Redirected loc permanent) => Some (with_rs c (Redirect c loc (if permanent then 301 else 302)))
  | Some (Rewrite.Passed v) => next (with_rq c (with_vars (rq c) v))
  end.

(** ** Layers *)

Definition accesslog_layer (a : AccessLog) : layer Env := mkLayer Go (λ c out, Some (log_answer a (e_now (env c)) out)).
Definition access_layer (ac : Access.AccessControl) : layer Env := mkLayer
  (λ c,
    if negb (Access.Check db_country ac (Access.getClientIP ac (conn_of (rq c)))) then
      Answer (ctx_Error c (go!"Forbidden: Access denied") 403)
    else Go c) (λ _, Some).
Definition rate_layer : layer Env := mkLayer (λ c, let '(ok, c) := rate_limit c in if ok then Go c else Answer c) (λ _, Some).
Definition conn_layer : layer Env := mkLayer
  (λ c,
    let '(ok, c) := Acquire c in
    if negb ok then Answer (SendErrorWithDetail c ErrServiceUnavailable (go!"Connection limit exceeded")) else Go c)
  (λ _ out, Some (Conn_Release out)).
Definition rewrite_layer (rules : list Rewrite.Rule) : layer Env := mkLayer
  (λ c,
    match Rewrite.Process ReplaceAllString rq_path SetRequestURI (rewrite_expand (env c)) rules (vars (rq c)) with
    | None => Panic
    | Some Rewrite.Failed500 => Answer (SendError c ErrInternalError)
    | Some (Rewrite.Redirected loc permanent) => Answer (with_rs c (Redirect c loc (if permanent then 301 else 302)))
    | Some (Rewrite.Passed v) => Go (with_rq c (with_vars (rq c) v))
    end) (λ _, Some).

Definition AccessLog_Middleware a : Middleware Env := mkMiddleware (go!"accesslog") (AccessLog_Process a).
Definition Access_Middleware ac : Middleware Env := mkMiddleware (go!"access_control") (Access_Process ac).
Definition Rate_Middleware (l : RateLimit.limiter) : Middleware Env :=
  mkMiddleware (match l with RateLimit.TokenBucket _ _ => go!"rate_limiter" | _ => go!"sliding_window_limiter" end) Rate_Process.
Definition Conn_Middleware : Middleware Env := mkMiddleware (go!"conn_limiter") Conn_Process.
Definition Rewrite_Middleware rules : Middleware Env := mkMiddleware (go!"rewrite") (Rewrite_Process rules).

#[local] Instance AccessLog_layered a : Layered (AccessLog_Middleware a) (accesslog_layer a).
Proof. by intros next c. Qed.

#[local] Instance Access_layered ac : Layered (Access_Middleware ac) (access_layer ac).
Proof. intros next c. unfold around. cbn. unfold Access_Process. destruct (negb _); [done|]. by destruct (next c). Qed.

#[local] Instance Rate_layered l : Layered (Rate_Middleware l) rate_layer.
Proof. intros next c. unfold around. cbn. unfold Rate_Process. destruct (rate_limit c) as [[] c']; [|done]. by destruct (next c'). Qed.

#[local] Instance Conn_layered : Layered Conn_Middleware conn_layer.
Proof. intros next c. unfold around. cbn. unfold Conn_Process. by destruct (Acquire c) as [[] c']. Qed.

#[local] Instance Rewrite_layered rules : Layered (Rewrite_Middleware rules) (rewrite_layer rules).
Proof.
  intros next c. unfold around, rewrite_layer, Rewrite_Middleware. cbn [Process before after]. unfold Rewrite_Process.
  destruct (Rewrite.Process _ _ _ _ _ _) as [[| |v]|]; try done. by destruct (next _).
Qed.

(** ** Building *)

Inductive build_error :=
  | AccessFailed (e : Access.access_error) | RateFailed (e : RateLimit.limit_error) | ConnFailed (e : RateLimit.limit_error)
  | AuthFailed (e : Auth.auth_error) | AuthRequestFailed (e : AuthRequest.ar_error)
  | BodyLimitFailed (e : BodyLimit.size_error) | PathLimitFailed (e : BodyLimit.size_error)
  | RewriteFailed (e : Rewrite.rewrite_error) | UnknownPhase (phase : gostring) | LuaFailed (e : LuaMiddleware.lua_error).

Definition failing {A B T} (f : A → B) (r : res A T) : res B T :=
  match r with Ok t => Ok t | Err e => Err (f e) end.



(** *** [buildLuaMiddlewares] *)

Inductive lua_item := Single (m : LuaMiddleware.LuaMw) | Several (m : LuaMiddleware.MultiPhase).



Definition script_timeout (s : LuaScriptConfig) : Z := if ls_Timeout s =? 0 then 30 * second else ls_Timeout s.

(** The loop over the scripts of one phase. *)
Fixpoint add_scripts (phase : gostring) (scripts : list LuaScriptConfig) (m : LuaMiddleware.MultiPhase)
  : res build_error LuaMiddleware.MultiPhase :=
  match scripts with
  | [] => Ok m
  | s :: scripts =>
      match LuaMiddleware.ParsePhase phase with
      | None => Err (UnknownPhase phase)
      | Some p =>
          match LuaMiddleware.AddPhase m p (ls_Path s) (script_timeout s) with
          | (Some e, _) => Err (LuaFailed e)
          | (None, m) => add_scripts phase scripts m
          end
      end
  end.

Definition lua_of_phase (phase : gostring) (scripts : list LuaScriptConfig) : res build_error (list lua_item) :=
  match scripts with
  | [] => Ok []
  | [s] =>
      match LuaMiddleware.ParsePhase phase with
      | None => Err (UnknownPhase phase)
      | Some p =>
          m ← failing LuaFailed (LuaMiddleware.NewLuaMiddleware true
                (LuaMiddleware.mkLuaMwConfig (ls_Path s) (go!"lua-" ++ phase) p (script_timeout s) false false));
          Ok [Single m]
      end
  | _ =>
      m ← add_scripts phase scripts (LuaMiddleware.NewMultiPhaseLuaMiddleware true (go!"lua-multi-" ++ phase));
      Ok [Several m]
  end.



(** *** [buildMiddlewareChain] *)

Record parts := mkParts {
  p_log : AccessLog; p_access : option Access.AccessControl; p_rate : option RateLimit.limiter;
  p_conn : option RateLimit.ConnLimiter; p_auth : option Auth.BasicAuth; p_auth_request : option AuthRequest.AuthRequest;
  p_limit : BodyLimit.BodyLimit; p_rewrite : option (list Rewrite.Rule); p_compress : option Compression.Compressor;
  p_headers : option ResponseHeaders.HeadersMiddleware; p_cors : option ResponseHeaders.CORSMiddleware;
  p_pages : option ErrorPages.ErrorPageManager; p_lua : list lua_item }.






Definition opt_list {A B} (f : A → B) (o : option A) : list B := match o with Some a => [f a] | None => [] end.

Definition auth_request_mw := AuthRequest.AuthRequest_Middleware Do ip_string ssl_getter globals
  (λ e : Env, e_cache e) with_addr_cache range_headers.

Definition lua_mw (i : lua_item) : Middleware Env :=
  match i with
  | Single m => LuaMiddleware.Lua_Middleware InitCoroutine run_script pool m
  | Several m => LuaMiddleware.Multi_Middleware InitCoroutine run_script pool m
  end.

(** The order of the source. *)
Definition chain_of (p : parts) : Chain Env := NewChain (
  [ResponseHeaders.RequestID_Middleware; AccessLog_Middleware (p_log p)] ++
  opt_list Access_Middleware (p_access p) ++
  opt_list Rate_Middleware (p_rate p) ++
  opt_list (λ _, Conn_Middleware) (p_conn p) ++
  opt_list (Auth.Auth_Middleware bcrypt_Compare argon2_IDKey) (p_auth p) ++
  opt_list auth_request_mw (p_auth_request p) ++
  [BodyLimit.BodyLimit_Middleware range_limits (p_limit p)] ++
  opt_list Rewrite_Middleware (p_rewrite p) ++
  opt_list (Compression.Compression_Middleware compress) (p_compress p) ++
  opt_list ResponseHeaders.Headers_Middleware (p_headers p) ++
  opt_list ResponseHeaders.CORS_Middleware (p_cors p) ++
  opt_list (λ m, ErrorPages.Intercept_Middleware (Some m)) (p_pages p) ++
  (lua_mw <$> p_lua p)).








(** ** What the guards read of a request stays as it is on the way to them *)

(** Up to the authentication service. *)
Definition untouched c d : Prop :=
  vars (rq d) = vars (rq c) ∧ rq_headers (rq d) = rq_headers (rq c) ∧
  contentLength (rq d) = contentLength (rq c) ∧ e_cache (env d) = e_cache (env c).

#[local] Instance untouched_preorder : PreOrder untouched.
Proof. split; [done|]. unfold untouched. intros x y z (? & ? & ? & ?) (? & ? & ? & ?). split_and!; congruence. Qed.





(** ** The guards *)















(** ** What the configuration asks for *)









(** ** Around the handler *)

(** Every answer of a server goes through its log, the refusals of the guards and the
    answers of the scripts included, with the time since the request came. *)
Theorem answers_are_logged p final c :
  ∃ rest : Ctx Env → option (Ctx Env),
    Apply (chain_of p) final c = out ← rest (ResponseHeaders.with_id c); Some (log_answer (p_log p) (e_now (env c)) out).
Proof.
  exists (foldr (λ v h, Process v h) final (drop 2 (middlewares (chain_of p)))). by rewrite Apply_foldr.
Qed.

(** The slot that a request takes is given back under the key that the request has then:
    a handler that changes what the key is made of leaves the slot taken. *)
Theorem changed_key_keeps_slot next c cl out cl' :
  e_conns (env c) = Some cl → RateLimit.perKey cl = true →
  default 0 (RateLimit.counts cl !! conn_key cl c) < RateLimit.max cl →
  next (with_env c (with_conns (env c) (RateLimit.with_count cl (conn_key cl c)
    (default 0 (RateLimit.counts cl !! conn_key cl c) + 1)))) = Some out →
  e_conns (env out) = Some cl' → RateLimit.perKey cl' = true → conn_key cl' out ≠ conn_key cl c →
  ∃ end_, Conn_Process next c = Some end_ ∧
    (λ l, RateLimit.counts l !! conn_key cl c) <$> e_conns (env end_) = Some (RateLimit.counts cl' !! conn_key cl c).
Proof.
  intros Hc Hp Hm Hn Ho Hp' Hk. exists (Conn_Release out). unfold Conn_Process, Acquire. rewrite Hc, Hp.
  unfold RateLimit.Acquire_key. rewrite (proj2 (Z.leb_gt _ _)) by done. cbn [negb]. rewrite Hn. split; [done|].
  unfold Conn_Release. rewrite Ho. cbn. f_equal. unfold RateLimit.Release. rewrite Hp'. destruct (0 <? _); [|done].
  cbn. by rewrite lookup_insert_ne.
Qed.

End Chain.

(** ** Scripts of one phase *)

Lemma AddPhase_ok m p path timeout :
  path ≠ [] → LuaMiddleware.mp_engine m = true →
  ∃ mw m', LuaMiddleware.AddPhase m p path timeout = (None, m') ∧
    LuaMiddleware.phases m' = <[p := mw]> (LuaMiddleware.phases m) ∧ LuaMiddleware.mp_engine m' = true ∧
    LuaMiddleware.lm_script mw = path.
Proof.
  intros Hp He. unfold LuaMiddleware.AddPhase, LuaMiddleware.NewLuaMiddleware. rewrite He. cbn [negb].
  rewrite decide_False by done. eexists _, _. by split.
Qed.

Lemma add_scripts_last phase p scripts s m :
  LuaMiddleware.ParsePhase phase = Some p → LuaMiddleware.mp_engine m = true →
  Forall (λ s, ls_Path s ≠ []) (scripts ++ [s]) →
  ∃ m' mw, add_scripts phase (scripts ++ [s]) m = Ok m' ∧
    LuaMiddleware.phases m' = <[p := mw]> (LuaMiddleware.phases m) ∧ LuaMiddleware.lm_script mw = ls_Path s.
Proof.
  intros Hp. revert m. induction scripts as [|x scripts IH]; intros m He Hs; cbn [app add_scripts]; rewrite Hp.
  - apply Forall_cons in Hs as [Hs _]. destruct (AddPhase_ok m p (ls_Path s) (script_timeout s) Hs He) as (mw & m' & -> & Hm & _ & Hw).
    by exists m', mw.
  - apply Forall_cons in Hs as [Hx Hs].
    destruct (AddPhase_ok m p (ls_Path x) (script_timeout x) Hx He) as (mw & m1 & -> & Hm1 & He1 & _).
    destruct (IH m1 He1 Hs) as (m' & mw' & Hadd & Hm' & Hw). exists m', mw'. split_and!; [done| |done].
    by rewrite Hm', Hm1, insert_insert_eq.
Qed.

(** Of several scripts configured for one phase, only the last is ever run: each takes the
    place of the one before it. *)
Theorem only_last_script_runs phase p scripts s :
  LuaMiddleware.ParsePhase phase = Some p → scripts ≠ [] → Forall (λ s, ls_Path s ≠ []) (scripts ++ [s]) →
  ∃ m mw, lua_of_phase phase (scripts ++ [s]) = Ok [Several m] ∧
    LuaMiddleware.phases m = {[ p := mw ]} ∧ LuaMiddleware.lm_script mw = ls_Path s.
Proof.
  intros Hp Hne Hs.
  destruct (add_scripts_last phase p scripts s (LuaMiddleware.NewMultiPhaseLuaMiddleware true (go!"lua-multi-" ++ phase)) Hp eq_refl Hs)
    as (m & mw & Hadd & Hm & Hw).
  exists m, mw. split_and!; [|by rewrite Hm|done].
  destruct scripts as [|x [|y scripts]]; [done|..]; cbn [app lua_of_phase] in *; by rewrite Hadd.
Qed.

(** ** Sampling *)

(** How many of [n] answers without a server error are recorded, one after the other. *)
Fixpoint recorded (a : AccessLog) (status : Z) (n : nat) (counter : Z) : Z :=
  match n with
  | O => 0
  | S n => let '(log, counter) := shouldLog a status counter in (if log then 1 else 0) + recorded a status n counter
  end.

Definition sampled (a : AccessLog) : Prop :=
  f64_leb (sampleRate a) (f64_of_int 0) && f64_leb (f64_of_int 0) (sampleRate a) = false ∧
  f64_leb (f64_of_int 1) (sampleRate a) = false.

Lemma recorded_from a status n counter :
  sampled a → status < 500 → 0 < sampleInterval a → 0 ≤ counter → counter + Z.of_nat n < 2 ^ 64 →
  recorded a status n counter =
    if sampleInterval a =? 1 then 0
    else (counter + Z.of_nat n + sampleInterval a - 1) / sampleInterval a - (counter + sampleInterval a - 1) / sampleInterval a.
Proof.
  intros [H0 H1] Hs Hi. revert counter. induction n as [|n IH]; intros counter Hc Hn; cbn [recorded].
  - rewrite Z.add_0_r. destruct (_ =? 1); lia.
  - unfold shouldLog. rewrite (proj2 (Z.leb_gt 500 status)), H0, H1 by done.
    rewrite wrap64_id by (unfold in_uint64; lia). rewrite IH by lia. set (k := sampleInterval a) in *.
    destruct (k =? 1) eqn:Hk; [apply Z.eqb_eq in Hk|apply Z.eqb_neq in Hk].
    + rewrite Hk, Z.mod_1_r. done.
    + replace (counter + 1 + Z.of_nat n) with (counter + Z.of_nat (S n)) by lia.
      assert ((counter + 1 + k - 1) / k = (counter + k - 1) / k + (if (counter + 1) mod k =? 1 then 1 else 0)) as ->; [|lia].
      replace (counter + 1 + k - 1) with (counter + 1 * k) by lia. rewrite Z.div_add by lia.
      replace (counter + k - 1) with (counter - 1 + 1 * k) by lia. rewrite Z.div_add by lia.
      pose proof (Z.div_mod counter k ltac:(lia)). pose proof (Z.mod_pos_bound counter k ltac:(lia)).
      destruct (Z.eq_dec (counter mod k) 0) as [Hz|Hz].
      * assert ((counter + 1) mod k = 1) as ->.
        { symmetry. apply (Z.mod_unique _ _ (counter / k)); lia. }
        assert ((counter - 1) / k = counter / k - 1) as ->; [|cbn; lia].
        symmetry. apply (Z.div_unique _ _ _ (k - 1)); lia.
      * assert ((counter - 1) / k = counter / k) as ->.
        { symmetry. apply (Z.div_unique _ _ _ (counter mod k - 1)); lia. }
        destruct ((counter + 1) mod k =? 1) eqn:Hm; [|lia]. apply Z.eqb_eq in Hm. exfalso.
        destruct (decide (counter mod k + 1 = k)) as [Hlast|Hlast].
        -- assert ((counter + 1) mod k = 0); [|lia]. symmetry. apply (Z.mod_unique _ _ (counter / k + 1)); lia.
        -- assert ((counter + 1) mod k = counter mod k + 1); [|lia].
           symmetry. apply (Z.mod_unique _ _ (counter / k)); lia.
Qed.

(** With an interval of [k], one in [k] answers is recorded, the first among them; with an
    interval of one, which is what every rate between two thirds and one comes to, none. *)
Theorem sampling_records a status n :
  sampled a → status < 500 → 0 < sampleInterval a → Z.of_nat n < 2 ^ 64 →
  recorded a status n 0 =
    if sampleInterval a =? 1 then 0 else (Z.of_nat n + sampleInterval a - 1) / sampleInterval a.
Proof.
  intros Ha Hs Hi Hn. rewrite recorded_from by (done || lia). destruct (_ =? 1) eqn:Hk; [done|]. apply Z.eqb_neq in Hk.
  rewrite (Z.div_small (0 + _ - 1)) by lia. rewrite Z.add_0_l, Z.sub_0_r. done.
Qed.

(** ** Examples *)

Section Examples.

#[local] Instance http : FastHTTP := text_http.
#[local] Instance no_regexp : Regexp := {|
  regexp := gostring; regexp_Compile p := Some p; MatchString p s := HasPrefix s p;
  FindStringSubmatch _ _ := None; SubexpNames _ := []; regexp_String p := p |}.









Lemma sampling_records_witness :
  let a := accesslog_New (mkLoggingConfig [] (mkAccessLogConfig [] [] (f64_div (f64_of_int 1) (f64_of_int 10))) (mkErrorLogConfig [] [])) in
  sampleInterval a = 10 ∧ recorded a 200 25 0 = 3.
Proof.
  split; [vm_compute; reflexivity|].
  apply (sampling_records (accesslog_New (mkLoggingConfig [] (mkAccessLogConfig [] [] (f64_div (f64_of_int 1) (f64_of_int 10)))
    (mkErrorLogConfig [] []))) 200 25); [split|..]; vm_compute; reflexivity.
Defined.

(** A rate of nine tenths records nothing at all. *)
Example ex_ninety_percent :
  let a := accesslog_New (mkLoggingConfig [] (mkAccessLogConfig [] [] (f64_div (f64_of_int 9) (f64_of_int 10))) (mkErrorLogConfig [] [])) in
  sampleInterval a = 1 ∧ recorded a 200 1000 0 = 0.
Proof. by vm_compute. Qed.

Lemma only_last_script_runs_witness :
  ∃ m mw, lua_of_phase (go!"access")
    [mkLuaScriptConfig (go!"check_token.lua") (go!"access") [] [] 0 true; mkLuaScriptConfig (go!"count.lua") (go!"access") [] [] 0 true] =
    Ok [Several m] ∧ LuaMiddleware.phases m = {[ LuaMiddleware.PhaseAccess := mw ]} ∧ LuaMiddleware.lm_script mw = go!"count.lua".
Proof.
  by apply (only_last_script_runs (go!"access") LuaMiddleware.PhaseAccess
    [mkLuaScriptConfig (go!"check_token.lua") (go!"access") [] [] 0 true] (mkLuaScriptConfig (go!"count.lua") (go!"access") [] [] 0 true));
    [..|repeat constructor].
Defined.

(** A client that sends an X-Forwarded-For that is no address takes a slot under the
    address of its X-Real-IP, which the proxy's headers then replace: the slot of whoever
    has that address is never given back. *)
Definition ex_ip (ip : IP) : gostring := formatIPv4 (default ip (To4 ip)).

Definition ex_conns : Env :=
  mkEnv None (Some (RateLimit.mkCL ∅ 1 0 true (Some RateLimit.ByIP))) 0 [] 0 ∅.

Definition ex_junk : Ctx Env :=
  ex_ctx {[ go!"x-forwarded-for" := go!"junk"; go!"x-real-ip" := go!"192.0.2.9" ]} false (go!"/") ex_conns.

(** What the proxy does to the headers of the request it passes on. *)
Definition ex_proxy (c : Ctx Env) : option (Ctx Env) :=
  let h := rq_headers (rq c) in
  let fh := ExtractForwardedHeaders
    (Selector.mkCtx (Peek h (go!"X-Forwarded-For")) (Peek h (go!"X-Real-IP")) (go!"10.0.0.7") (go!"/") (λ _, []) (λ _, []))
    (go!"example.com") false in
  Some (with_rq c (mkRequest (vars (rq c)) (SetForwardedHeaders h fh true true true)
    (contentLength (rq c)) (bodyStream (rq c)) (remote_user (rq c)))).

Lemma changed_key_keeps_slot_witness :
  ∃ end_, Conn_Process ex_ip ex_proxy ex_junk = Some end_ ∧
    (λ l, RateLimit.counts l !! go!"192.0.2.9") <$> e_conns (env end_) = Some (Some 1).
Proof.
  destruct (changed_key_keeps_slot ex_ip ex_proxy ex_junk (RateLimit.mkCL ∅ 1 0 true (Some RateLimit.ByIP))
    (default ex_junk (ex_proxy (with_env ex_junk (with_conns (env ex_junk)
       (RateLimit.mkCL {[ go!"192.0.2.9" := 1 ]} 1 0 true (Some RateLimit.ByIP))))))
    (RateLimit.mkCL {[ go!"192.0.2.9" := 1 ]} 1 0 true (Some RateLimit.ByIP))) as (e & He & Hk);
    [vm_compute; reflexivity..|vm_compute; discriminate|].
  exists e. split; [exact He|]. etransitivity; [exact Hk|vm_compute; reflexivity].
Defined.

End Examples.
