(* ===== verification/Threads.v ===== *)
(** * Threads: goroutines as sequences of atomic sections

    A goroutine is the list of the atomic sections it has left: each is one atomic
    operation, one stretch under a lock, or one call of the network, and running it
    changes the shared state, may put further sections before the rest and may start
    other goroutines.  An event runs the next section of one goroutine, with what the
    world outside answers to it, or lets the world outside act.  Shown: how a quantity
    spread over the shared state and the sections that are left is conserved, which
    is how the counters of the managers are tied to what they count. *)

From S2P Require Import Prelude.

(** The sections [A] over the shared state [St], the answers [O] of the world outside
    and its own acts [C]. *)
Class Machine (St A O C : Type) := {
  run_section : A → O → St → option (St * list A * list (list A));
  act : C → St → option (St * list (list A)) }.

Section Threads.
Context {St A O C : Type} {M : Machine St A O C}.

Record world := mkWorld { shared : St; threads : list (list A) }.

Inductive event := Run (k : nat) (o : O) | Act (c : C).

Definition step (w : world) (e : event) : option world :=
  match e with
  | Run k o =>
      t ← threads w !! k;
      match t with
      | [] => None
      | a :: rest =>
          '(s, before, started) ← run_section a o (shared w);
          Some (mkWorld s (<[k := before ++ rest]> (threads w) ++ started))
      end
  | Act c => '(s, started) ← act c (shared w); Some (mkWorld s (threads w ++ started))
  end.

Fixpoint run (w : world) (es : list event) : option world :=
  match es with
  | [] => Some w
  | e :: es => w ← step w e; run w es
  end.

(** No goroutine has a section left. *)
Definition quiet (w : world) : Prop := Forall (λ t, t = []) (threads w).

Lemma run_app w es es' : run w (es ++ es') = w' ← run w es; run w' es'.
Proof. revert w. induction es as [|e es IH]; intros w; cbn; [done|]. destruct (step w e); cbn; auto. Qed.

(** One when it holds. *)
Definition one (b : bool) : Z := if b then 1 else 0.
Lemma one_range b : 0 ≤ one b ≤ 1. Proof. destruct b; cbn; lia. Qed.
Lemma one_nonneg b : 0 ≤ one b. Proof. apply one_range. Qed.

(** *** Quantities *)

Fixpoint sum_over {X} (f : X → Z) (l : list X) : Z := match l with [] => 0 | x :: l => f x + sum_over f l end.

(** The sum of [f] over every section that is left. *)
Definition pending (f : A → Z) (ts : list (list A)) : Z := sum_over (sum_over f) ts.

Lemma sum_over_app {X} (f : X → Z) l l' : sum_over f (l ++ l') = sum_over f l + sum_over f l'.
Proof. induction l; cbn; lia. Qed.

Lemma sum_over_insert {X} (f : X → Z) l k x y : l !! k = Some x → sum_over f (<[k := y]> l) = sum_over f l - f x + f y.
Proof.
  intros Hk. rewrite <- (take_drop_middle _ _ _ Hk) at 2.
  rewrite insert_take_drop by by eapply lookup_lt_Some. rewrite !sum_over_app. cbn. lia.
Qed.

Lemma sum_over_nonneg {X} (f : X → Z) l : (∀ x, x ∈ l → 0 ≤ f x) → 0 ≤ sum_over f l.
Proof.
  induction l as [|x l IH]; cbn; intros H; [done|]. pose proof (H x ltac:(left)).
  specialize (IH ltac:(intros; apply H; by right)). lia.
Qed.

Lemma sum_over_in {X} (f : X → Z) l x : (∀ x, x ∈ l → 0 ≤ f x) → x ∈ l → f x ≤ sum_over f l.
Proof.
  intros Hf Hx. apply list_elem_of_split in Hx as (l1 & l2 & ->). rewrite sum_over_app. cbn.
  pose proof (sum_over_nonneg f l1 ltac:(intros; apply Hf; set_solver)).
  pose proof (sum_over_nonneg f l2 ltac:(intros; apply Hf; set_solver)). lia.
Qed.

Lemma sum_over_zero {X} (f : X → Z) l : (∀ x, x ∈ l → f x = 0) → sum_over f l = 0.
Proof. induction l as [|x l IH]; cbn; intros H; [done|]. rewrite (H x), IH; [done| |left]. intros; apply H; by right. Qed.

Lemma sum_over_ext {X} (f g : X → Z) l : (∀ x, x ∈ l → f x = g x) → sum_over f l = sum_over g l.
Proof. induction l as [|x l IH]; cbn; intros H; [done|]. rewrite (H x), IH; [done| |left]. intros; apply H; by right. Qed.

Lemma sum_over_fmap {X Y} (f : Y → Z) (g : X → Y) l : sum_over f (g <$> l) = sum_over (f ∘ g) l.
Proof. induction l; cbn; congruence. Qed.

Lemma sum_over_perm {X} (f : X → Z) l l' : l ≡ₚ l' → sum_over f l = sum_over f l'.
Proof. induction 1; cbn; lia. Qed.

(** A share that the sections with [P] do not have. *)
Lemma shares_none (P : A → Prop) f l : (∀ a, P a → f a = 0) → Forall P l → sum_over f l = 0.
Proof. intros Hf Hl. apply sum_over_zero. intros a Ha. apply Hf. by apply (proj1 (Forall_forall _ _) Hl). Qed.
Lemma pending_none (P : A → Prop) f ts : (∀ a, P a → f a = 0) → Forall (Forall P) ts → pending f ts = 0.
Proof. intros Hf Hl. apply sum_over_zero. intros t Ht. apply (shares_none P); [done|]. by apply (proj1 (Forall_forall _ _) Hl). Qed.

Lemma pending_nonneg f ts : (∀ a, 0 ≤ f a) → 0 ≤ pending f ts.
Proof. intros Hf. apply sum_over_nonneg. intros t _. by apply sum_over_nonneg. Qed.

Lemma pending_quiet f w : quiet w → pending f (threads w) = 0.
Proof. intros Hq. apply sum_over_zero. intros t Ht. by rewrite (proj1 (Forall_forall _ _) Hq t Ht). Qed.

Lemma pending_run f ts k a rest before started :
  ts !! k = Some (a :: rest) →
  pending f (<[k := before ++ rest]> ts ++ started) = pending f ts - f a + sum_over f before + pending f started.
Proof.
  intros Hk. unfold pending. rewrite sum_over_app, (sum_over_insert _ _ _ _ _ Hk), sum_over_app.
  cbn. lia.
Qed.

(** A section that is left has its share. *)
Lemma pending_in f ts t a : (∀ a, 0 ≤ f a) → t ∈ ts → a ∈ t → f a ≤ pending f ts.
Proof.
  intros Hf Ht Ha. transitivity (sum_over f t); [by apply sum_over_in|].
  apply (sum_over_in (sum_over f)); [|done]. intros x _. by apply sum_over_nonneg.
Qed.

Lemma pending_pos f ts : 0 < pending f ts → ∃ t a, t ∈ ts ∧ a ∈ t ∧ f a ≠ 0.
Proof.
  intros Hp. destruct (decide (Exists (Exists (λ a, f a ≠ 0)) ts)) as [He|He].
  - apply Exists_exists in He as (t & Ht & (a & Ha & Hf)%Exists_exists). eauto.
  - exfalso. apply Forall_Exists_neg in He. enough (pending f ts = 0) by lia. apply sum_over_zero. intros t Ht.
    rewrite Forall_forall in He. specialize (He t Ht). apply Forall_Exists_neg in He. rewrite Forall_forall in He.
    apply sum_over_zero. intros a Ha. specialize (He a Ha). destruct (decide (f a = 0)); [done|tauto].
Qed.

(** *** Conservation

    What one step changes of a quantity is what its section changes. *)
Lemma moved (R : Z → Prop) (f : A → Z) (m : St → Z) (w w' : world) (e : event) :
  (∀ k a rest o s before started, threads w !! k = Some (a :: rest) → run_section a o (shared w) = Some (s, before, started) →
     R (m s + sum_over f before + pending f started - (m (shared w) + f a))) →
  (∀ c s started, act c (shared w) = Some (s, started) → R (m s + pending f started - m (shared w))) →
  step w e = Some w' →
  R (m (shared w') + pending f (threads w') - (m (shared w) + pending f (threads w))).
Proof.
  intros Hrun Hact. destruct e as [k o|c]; cbn [step].
  - destruct (threads w !! k) as [[|a rest]|] eqn:Hk; cbn; [done| |done].
    destruct (run_section a o (shared w)) as [[[s before] started]|] eqn:Hs; cbn; [|done]. intros [= <-].
    specialize (Hrun k a rest o s before started Hk Hs). cbn [shared threads]. rewrite (pending_run _ _ _ _ _ _ _ Hk).
    eapply eq_ind; [exact Hrun|lia].
  - destruct (act c (shared w)) as [[s started]|] eqn:Hs; cbn; [|done]. intros [= <-]. specialize (Hact c s started Hs). cbn [shared threads].
    unfold pending. rewrite sum_over_app. eapply eq_ind; [exact Hact|unfold pending; lia].
Qed.

(** A property of sections that every section hands on. *)
Lemma sections_ok (P : A → Prop) (w w' : world) (e : event) :
  (∀ k a rest o s before started, threads w !! k = Some (a :: rest) → run_section a o (shared w) = Some (s, before, started) →
     P a → Forall P before ∧ Forall (Forall P) started) →
  (∀ c s started, act c (shared w) = Some (s, started) → Forall (Forall P) started) →
  step w e = Some w' → Forall (Forall P) (threads w) → Forall (Forall P) (threads w').
Proof.
  intros Hrun Hact. destruct e as [k o|c]; cbn [step].
  - destruct (threads w !! k) as [[|a rest]|] eqn:Hk; cbn; [done| |done].
    destruct (run_section a o (shared w)) as [[[s before] started]|] eqn:Hs; cbn; [|done]. intros [= <-] Hw.
    pose proof (Forall_lookup_1 _ _ _ _ Hw Hk) as [Ha Hr]%Forall_cons. destruct (Hrun k a rest o s before started Hk Hs Ha).
    cbn. apply Forall_app. split; [|done]. apply Forall_insert; [done|]. by apply Forall_app.
  - destruct (act c (shared w)) as [[s started]|] eqn:Hs; cbn; [|done]. intros [= <-] Hw. cbn. apply Forall_app. eauto.
Qed.

(** Invariants by induction over the events. *)
Lemma run_ind (I : nat → world → Prop) :
  (∀ n w e w', I n w → step w e = Some w' → I (S n) w') →
  ∀ es n w w', I n w → run w es = Some w' → I (n + length es)%nat w'.
Proof.
  intros Hs es. induction es as [|e es IH]; intros n w w' Hw; cbn.
  - intros [= <-]. by rewrite Nat.add_0_r.
  - destruct (step w e) as [w1|] eqn:He; cbn; [|done]. intros Hr. rewrite Nat.add_succ_r. apply (IH (S n) w1); eauto.
Qed.
End Threads.

Arguments world St A : clear implicits.
Arguments event O C : clear implicits.
Arguments Run {O C} k o.
Arguments Act {O C} c.
