(* ===== verification/Sockets.v ===== *)
(** * Sockets: the TCP sockets of scripts

    [src/internal/lua/socket_manager.go], [api_socket_tcp.go] and [ip_guard.go]: the
    manager that hands out operations, counts them and times them out; the sockets,
    whose operations run in goroutines of their own; the guard that keeps scripts from
    private addresses.  The machine is one of Threads: a section is what a goroutine
    does in one step that others can see, the answers of the world are those of the
    network, and its acts are the calls of scripts, the ticks and the clock.  A pointer
    to an operation, a socket or a connection is its place in the list of those made.

    Shown: under every interleaving each operation is in one place, a goroutine is left
    that completes it, and the counters, but those of active operations and of time-outs,
    count what there is ([operations_conserved]);
    what the guard lets scripts reach ([dialed_unrestricted]); what reading up to a
    pattern returns ([receive_until_first]). *)

From S2P Require Import Prelude GoStrings NetIP Threads.

(** ** [ip_guard.go], over the predicates of [net.IP] *)

Definition IPv4 (a b c d : Z) : IP := v4InV6Prefix ++ [a; b; c; d].
Definition IPv6loopback : IP := replicate 15 0 ++ [1].
Definition IPv6unspecified : IP := replicate 16 0.

(** [ip.Equal(x)]: the four-byte and the sixteen-byte form of an address are equal. *)
Definition ip_Equal (a b : IP) : bool :=
  if (length a =? length b)%nat then bool_decide (a = b)
  else if (length a =? 4)%nat && (length b =? 16)%nat then bool_decide (v4InV6Prefix ++ a = b)
  else if (length a =? 16)%nat && (length b =? 4)%nat then bool_decide (a = v4InV6Prefix ++ b)
  else false.

Definition IsLoopback (ip : IP) : bool :=
  match To4 ip with Some ip4 => nth 0 ip4 0 =? 127 | None => ip_Equal ip IPv6loopback end.

Definition IsPrivate (ip : IP) : bool :=
  match To4 ip with
  | Some ip4 =>
      (nth 0 ip4 0 =? 10) || ((nth 0 ip4 0 =? 172) && (Z.land (nth 1 ip4 0) 240 =? 16))
      || ((nth 0 ip4 0 =? 192) && (nth 1 ip4 0 =? 168))
  | None => (length ip =? 16)%nat && (Z.land (nth 0 ip 0) 254 =? 252)
  end.

Definition IsLinkLocalUnicast (ip : IP) : bool :=
  match To4 ip with
  | Some ip4 => (nth 0 ip4 0 =? 169) && (nth 1 ip4 0 =? 254)
  | None => (length ip =? 16)%nat && (nth 0 ip 0 =? 254) && (Z.land (nth 1 ip 0) 192 =? 128)
  end.

Definition IsLinkLocalMulticast (ip : IP) : bool :=
  match To4 ip with
  | Some ip4 => (nth 0 ip4 0 =? 224) && (nth 1 ip4 0 =? 0) && (nth 2 ip4 0 =? 0)
  | None => (length ip =? 16)%nat && (nth 0 ip 0 =? 255) && (Z.land (nth 1 ip 0) 15 =? 2)
  end.

Definition IsUnspecified (ip : IP) : bool := ip_Equal ip (IPv4 0 0 0 0) || ip_Equal ip IPv6unspecified.

Definition isRestrictedIP (ip : IP) : bool :=
  IsLoopback ip || IsPrivate ip || IsLinkLocalUnicast ip || IsLinkLocalMulticast ip || IsUnspecified ip.

(** ** Data *)

Inductive SocketState := Idle | Connecting | Connected | Sending | Receiving | Closing | Closed | StateError.
#[export] Instance SocketState_eq : EqDecision SocketState. Proof. solve_decision. Defined.

Definition SocketState_String (s : SocketState) : gostring :=
  match s with
  | Idle => go!"idle" | Connecting => go!"connecting" | Connected => go!"connected" | Sending => go!"sending"
  | Receiving => go!"receiving" | Closing => go!"closing" | Closed => go!"closed" | StateError => go!"error"
  end.

Inductive OperationType := OpConnect | OpSend | OpReceive | OpClose.

Inductive sock_error :=
  | NotIdle (s : SocketState) | NotConnected (s : SocketState) | Busy | NilConnection | Denied (ip : IP)
  | ResolveFailed | DialFailed | DeadlineFailed | WriteFailed | ReadFailed
  | EmptyPattern | TooLong | SocketClosed | DeadlineExceeded | Canceled.
#[export] Instance sock_error_eq : EqDecision sock_error. Proof. solve_decision. Defined.

(** What an operation gives: nothing, a connection, a count, bytes. *)
Inductive result := RNil | RConn (c : nat) | RInt (n : Z) | RBytes (bs : gostring).

Record SocketOperation := mkOp {
  op_ID : Z; op_Type : OperationType; op_State : SocketState; op_Socket : nat; op_Timeout : Z;
  op_CreatedAt : Z; op_LastActivity : Z; op_Result : result; op_Error : option sock_error; completed : bool }.

(** [IsCompleted], [Complete] and [Touch]; the channel [Done] is closed exactly when
    the operation is completed. *)
Definition IsCompleted (op : SocketOperation) : bool := completed op.

Definition op_Complete (r : result) (e : option sock_error) (op : SocketOperation) : SocketOperation :=
  if completed op then op
  else mkOp (op_ID op) (op_Type op) (op_State op) (op_Socket op) (op_Timeout op) (op_CreatedAt op) (op_LastActivity op) r e true.

Definition Touch (now : Z) (op : SocketOperation) : SocketOperation :=
  mkOp (op_ID op) (op_Type op) (op_State op) (op_Socket op) (op_Timeout op) (op_CreatedAt op) now
    (op_Result op) (op_Error op) (completed op).

(** [Wait]: the result and the error, [None] while it blocks.  When both are there,
    Go takes either. *)
Definition Wait (op : SocketOperation) (ctx_done : option sock_error) : list (result * option sock_error) :=
  (if completed op then [(op_Result op, op_Error op)] else []) ++ (match ctx_done with Some e => [(RNil, Some e)] | None => [] end).

Record CosocketStats := mkStats {
  TotalOperations : Z; ActiveOperations : Z; TimeoutOperations : Z; ErrorOperations : Z;
  ActiveSockets : Z; TotalSocketsCreated : Z; TotalSocketsClosed : Z }.

Inductive counter := CTotal | CActive | CTimeout | CError | CSockets | CCreated | CClosed.
#[export] Instance counter_eq : EqDecision counter. Proof. solve_decision. Defined.

Definition counter_of (k : counter) (s : CosocketStats) : Z :=
  match k with
  | CTotal => TotalOperations s | CActive => ActiveOperations s | CTimeout => TimeoutOperations s | CError => ErrorOperations s
  | CSockets => ActiveSockets s | CCreated => TotalSocketsCreated s | CClosed => TotalSocketsClosed s
  end.

(** [atomic.AddUint64(&stats.k, d)], with [^uint64(0)] for minus one. *)
Definition add_stat (k : counter) (d : Z) (s : CosocketStats) : CosocketStats :=
  let at_ k' := if decide (k = k') then wrap64 (counter_of k s + d) else counter_of k' s in
  mkStats (at_ CTotal) (at_ CActive) (at_ CTimeout) (at_ CError) (at_ CSockets) (at_ CCreated) (at_ CClosed).

Record CosocketManager := mkManager {
  operations : gmap Z nat; nextID : Z; defaultTimeout : Z; stats : CosocketStats; DisableSSRFGuard : bool }.

Definition NewCosocketManager (testing : bool) : CosocketManager :=
  mkManager ∅ 0 (60 * second) (mkStats 0 0 0 0 0 0 0) testing.

(** [locked] is the lock [mu] held over several sections, which only [Close] does. *)
Record TCPSocket := mkSocket {
  sock_conn : option nat; currentOp : option nat; sock_addr : option (IP * Z);
  readTimeout : Z; sendTimeout : Z; connectTimeout : Z; sock_state : SocketState; closed : bool; locked : bool }.

Definition NewTCPSocket : TCPSocket := mkSocket None None None (60 * second) (60 * second) (30 * second) Idle false false.

(** A connection: where to, and whether it is open. *)
Record Connection := mkConnection { peer : IP * Z; is_open : bool }.

Record state := mkState {
  manager : CosocketManager; ops : list SocketOperation; socks : list TCPSocket; conns : list Connection; clock : Z }.

(** *** Updates *)

Definition with_state (v : SocketState) (t : TCPSocket) : TCPSocket :=
  mkSocket (sock_conn t) (currentOp t) (sock_addr t) (readTimeout t) (sendTimeout t) (connectTimeout t) v (closed t) (locked t).
Definition with_op (v : option nat) (t : TCPSocket) : TCPSocket :=
  mkSocket (sock_conn t) v (sock_addr t) (readTimeout t) (sendTimeout t) (connectTimeout t) (sock_state t) (closed t) (locked t).
Definition with_target (v : IP * Z) (t : TCPSocket) : TCPSocket :=
  mkSocket (sock_conn t) (currentOp t) (Some v) (readTimeout t) (sendTimeout t) (connectTimeout t) (sock_state t) (closed t) (locked t).
Definition with_conn (v : option nat) (t : TCPSocket) : TCPSocket :=
  mkSocket v (currentOp t) (sock_addr t) (readTimeout t) (sendTimeout t) (connectTimeout t) (sock_state t) (closed t) (locked t).
Definition with_closed (t : TCPSocket) : TCPSocket :=
  mkSocket (sock_conn t) (currentOp t) (sock_addr t) (readTimeout t) (sendTimeout t) (connectTimeout t) (sock_state t) true (locked t).
Definition with_locked (v : bool) (t : TCPSocket) : TCPSocket :=
  mkSocket (sock_conn t) (currentOp t) (sock_addr t) (readTimeout t) (sendTimeout t) (connectTimeout t) (sock_state t) (closed t) v.
Definition with_timeouts (r s c : option Z) (t : TCPSocket) : TCPSocket :=
  mkSocket (sock_conn t) (currentOp t) (sock_addr t) (default (readTimeout t) r) (default (sendTimeout t) s)
    (default (connectTimeout t) c) (sock_state t) (closed t) (locked t).

Definition on_manager (f : CosocketManager → CosocketManager) (s : state) : state :=
  mkState (f (manager s)) (ops s) (socks s) (conns s) (clock s).
Definition on_op (p : nat) (f : SocketOperation → SocketOperation) (s : state) : state :=
  mkState (manager s) (alter f p (ops s)) (socks s) (conns s) (clock s).
Definition on_sock (i : nat) (f : TCPSocket → TCPSocket) (s : state) : state :=
  mkState (manager s) (ops s) (alter f i (socks s)) (conns s) (clock s).
Definition on_conns (f : list Connection → list Connection) (s : state) : state :=
  mkState (manager s) (ops s) (socks s) (f (conns s)) (clock s).

Definition add_stats (k : counter) (d : Z) (m : CosocketManager) : CosocketManager :=
  mkManager (operations m) (nextID m) (defaultTimeout m) (add_stat k d (stats m)) (DisableSSRFGuard m).
Definition with_operations (o : gmap Z nat) (m : CosocketManager) : CosocketManager :=
  mkManager o (nextID m) (defaultTimeout m) (stats m) (DisableSSRFGuard m).
Definition with_nextID (n : Z) (m : CosocketManager) : CosocketManager :=
  mkManager (operations m) n (defaultTimeout m) (stats m) (DisableSSRFGuard m).
Definition SetDefaultTimeout (d : Z) (m : CosocketManager) : CosocketManager :=
  mkManager (operations m) (nextID m) d (stats m) (DisableSSRFGuard m).

(** ** Reading up to a pattern: the loop of [ReceiveUntil] *)

(** What [conn.Read] of one byte answers. *)
Inductive read_event := RByte (c : ascii) | RNothing | REOF | RError.

Definition ends_with (result pattern : gostring) : bool :=
  (length pattern <=? length result)%nat && bool_decide (drop (length result - length pattern) result = pattern).

Definition until_limit : Z := 1024 * 1024.

(** The loop over the answers of the connection: the bytes, the error, and the answers
    that are left; [None] while it is still reading. *)
Fixpoint until_loop (pattern : gostring) (inclusive : bool) (evs : list read_event) (result : gostring)
  : option (gostring * option sock_error * list read_event) :=
  match evs with
  | [] => None
  | REOF :: evs => Some (result, None, evs)
  | RError :: evs => Some (result, Some ReadFailed, evs)
  | RNothing :: evs => until_loop pattern inclusive evs result
  | RByte c :: evs =>
      let result := result ++ [c] in
      if ends_with result pattern then
        Some (if inclusive then result else take (length result - length pattern) result, None, evs)
      else if until_limit <? zlen result then Some (result, Some TooLong, evs)
      else until_loop pattern inclusive evs result
  end.

(** ** Sections *)

(** What an operation is for: the connection and what its goroutine does with it. *)
Inductive plan := PConnect (addr : IP * Z) | PSend (c : nat) (data : gostring) | PReceive (c : nat) (size : Z).

(** What a call returns: its error, an operation, or data. *)
Inductive returns := Failed (e : sock_error) | Operation (id : Z) | Count (n : Z) | Data (bs : gostring) (e : option sock_error) | Nothing.

Inductive section :=
  (* counters *)
  | SAdd (k : counter) (d : Z)
  (* connect *)
  | SCheckBusy (s : nat) (host : gostring) (port : Z) | SBegin (s : nat) (host : gostring) (port : Z)
  | SResolve (s : nat) (host : gostring) (port : Z) | SGuard (s : nat) (id : Z) (addr : IP * Z) | SDial (s : nat) (id : Z) (addr : IP * Z)
  | SConnected (s : nat) (c : nat)
  (* operations *)
  | SAllocate (s : nat) (pl : plan) (timeout : Z) | SRegister (s : nat) (pl : plan) (timeout id now : Z)
  | SCurrent (s : nat) (pl : plan) (p : nat) (id : Z) | SSpawn (s : nat) (pl : plan) (id : Z)
  | SComplete (id : Z) (r : result) (e : option sock_error) | SFinish (p : nat) (r : result) (e : option sock_error)
  | SClear (s : nat) | SSetState (s : nat) (v : SocketState)
  (* send and receive *)
  | SSendAsync (s : nat) (data : gostring) | SReceiveAsync (s : nat) (size : Z)
  | SWrite (s : nat) (id : Z) (c : nat) (data : gostring) | SRead (s : nat) (id : Z) (c : nat) (size : Z)
  | SSend (s : nat) (data : gostring) | SReceive (s : nat) (size : Z) | SUntil (s : nat) (pattern : gostring) (inclusive : bool)
  | SSyncWrite (s : nat) (c : nat) (data : gostring) | SSyncRead (s : nat) (c : nat) (size : Z)
  | SSyncUntil (s : nat) (c : nat) (pattern : gostring) (inclusive : bool)
  (* closing and timing out *)
  | SClose (s : nat) | SCloseLocked (s : nat) | SDropOp (s : nat) | SCloseConn (s : nat) | SUnlock (s : nat)
  | SCleanup | SCloseManager
  (* the end of a call *)
  | SReturn (r : returns).

(** The answers of the network: nothing, a failure to set the deadline, a failure after
    [n] bytes, success, bytes, the end, and the answers to the reads of a loop. *)
Inductive answer := ANone | ADeadline | AFail (n : Z) | ADone | AData (bs : gostring) | AEOF | AEvents (evs : list read_event).

(** [mu] is taken and given back within the section. *)
Definition locking {X} (st : state) (s : nat) (k : TCPSocket → option X) : option X :=
  t ← socks st !! s; if locked t then None else k t.

Definition connection_open (st : state) (c : nat) : bool :=
  match conns st !! c with Some k => is_open k | None => false end.

(** The check that [Send], [SendAsync], [Receive], [ReceiveAsync] and [ReceiveUntil]
    begin with. *)
Definition connected (t : TCPSocket) (k : nat → list section) : list section :=
  if decide (sock_state t = Connected) then
    match sock_conn t with Some c => k c | None => [SReturn (Failed NilConnection)] end
  else [SReturn (Failed (NotConnected (sock_state t)))].

(** [TCPAddr]: a host that is no address gives a nil IP. *)
Definition TCPAddr (host : gostring) (port : Z) : IP * Z := (default [] (ParseIP host), port).

(** [net.ResolveTCPAddr] of an address without a host: [addr.String()] of a nil IP is
    a colon and the port. *)
Definition ResolveTCPAddr (port : Z) : option (IP * Z) :=
  if (0 <=? port) && (port <=? 65535) then Some ([], port) else None.

Definition denied (m : CosocketManager) (ip : IP) : bool := negb (DisableSSRFGuard m) && isRestrictedIP ip.

Definition plan_type (pl : plan) : OperationType :=
  match pl with PConnect _ => OpConnect | PSend _ _ => OpSend | PReceive _ _ => OpReceive end.

(** What follows [s.currentOp = op]: [setState] for sending and receiving, then [go]. *)
Definition after_current (s : nat) (pl : plan) (id : Z) : list section :=
  match pl with
  | PConnect _ => [] | PSend _ _ => [SSetState s Sending] | PReceive _ _ => [SSetState s Receiving]
  end ++ [SSpawn s pl id; SReturn (Operation id)].

(** The goroutine of an operation. *)
Definition goroutine (s : nat) (pl : plan) (id : Z) : list section :=
  match pl with
  | PConnect addr => [SGuard s id addr; SClear s]
  | PSend c data => [SWrite s id c data; SClear s; SSetState s Connected]
  | PReceive c size => [SRead s id c size; SClear s; SSetState s Connected]
  end.

(** [CompleteOperation] after a failure that is also the socket's. *)
Definition fail (s : nat) (id : Z) (r : result) (e : sock_error) : list section :=
  [SSetState s StateError; SComplete id r (Some e)].

Section Machine.
(** The order in which Go ranges over a map. *)
Context (range : gmap Z nat → list (Z * nat)).

Definition overdue (st : state) : list Z :=
  (range (operations (manager st))) ≫= (λ '(id, p),
    match ops st !! p with
    | Some op =>
        if negb (IsCompleted op) && (op_Timeout op <? time_sub (clock st) (op_LastActivity op)) then [op_ID op] else []
    | None => []
    end).

Definition run_section (a : section) (o : answer) (st : state) : option (state * list section * list (list section)) :=
  let m := manager st in
  let ok st' before : option (state * list section * list (list section)) := Some (st', before, []) in
  match a with
  | SAdd k d => ok (on_manager (add_stats k d) st) []
  (* [ConnectAsync], [connectWithOp] *)
  | SCheckBusy s host port =>
      locking st s (λ t, ok st (match currentOp t with Some _ => [SReturn (Failed Busy)] | None => [SBegin s host port] end))
  | SBegin s host port =>
      locking st s (λ t,
        if decide (sock_state t = Idle) then ok (on_sock s (with_state Connecting) st) [SResolve s host port]
        else ok st [SReturn (Failed (NotIdle (sock_state t)))])
  | SResolve s host port =>
      t ← socks st !! s;
      let addr := TCPAddr host port in
      if bool_decide (addr.1 ≠ []) && denied m addr.1 then ok st [SSetState s StateError; SReturn (Failed (Denied addr.1))]
      else ok (on_sock s (with_target addr) st) [SAllocate s (PConnect addr) (connectTimeout t)]
  | SGuard s id addr =>
      if decide (addr.1 = []) then
        match ResolveTCPAddr addr.2 with
        | None => ok st (fail s id RNil ResolveFailed)
        | Some target =>
            if denied m target.1 then ok st (fail s id RNil (Denied target.1)) else ok st [SDial s id target]
        end
      else ok st [SDial s id addr]
  | SDial s id addr =>
      match o with
      | ADone => ok (on_conns (λ l, l ++ [mkConnection addr true]) st) [SConnected s (length (conns st)); SComplete id (RConn (length (conns st))) None]
      | AFail _ => ok st (fail s id RNil DialFailed)
      | _ => None
      end
  | SConnected s c => locking st s (λ _, ok (on_sock s (λ t, with_state Connected (with_conn (Some c) t)) st) [])
  (* [StartOperation] and what its callers do next *)
  | SAllocate s pl timeout =>
      let id := wrap64 (nextID m + 1) in
      ok (on_manager (with_nextID id) st) [SRegister s pl (if timeout <=? 0 then defaultTimeout m else timeout) id (clock st)]
  | SRegister s pl timeout id now =>
      let p := length (ops st) in
      let op := mkOp id (plan_type pl) Idle s timeout now now RNil None false in
      ok (mkState (with_operations (<[id := p]> (operations m)) m) (ops st ++ [op]) (socks st) (conns st) (clock st))
         [SAdd CTotal 1; SAdd CActive 1; SCurrent s pl p id]
  | SCurrent s pl p id => locking st s (λ _, ok (on_sock s (with_op (Some p)) st) (after_current s pl id))
  | SSpawn s pl id => Some (st, [], [goroutine s pl id])
  (* [CompleteOperation] *)
  | SComplete id r e =>
      match operations m !! id with
      | Some p =>
          ok (on_manager (with_operations (delete id (operations m))) st)
             ([SFinish p r e; SAdd CActive (-1)] ++ match e with Some _ => [SAdd CError 1] | None => [] end)
      | None => ok st []
      end
  | SFinish p r e => ok (on_op p (op_Complete r e) st) []
  | SClear s => locking st s (λ _, ok (on_sock s (with_op None) st) [])
  | SSetState s v => locking st s (λ _, ok (on_sock s (with_state v) st) [])
  (* [SendAsync] and [ReceiveAsync], and their goroutines *)
  | SSendAsync s data => locking st s (λ t, ok st (connected t (λ c, [SAllocate s (PSend c data) (sendTimeout t)])))
  | SReceiveAsync s size => locking st s (λ t, ok st (connected t (λ c, [SAllocate s (PReceive c size) (readTimeout t)])))
  | SWrite s id c data =>
      match o with
      | ADeadline => ok st [SComplete id (RInt 0) (Some DeadlineFailed)]
      | AFail n => ok st (fail s id (RInt n) WriteFailed)
      | ADone => if connection_open st c then ok st [SComplete id (RInt (zlen data)) None] else None
      | _ => None
      end
  | SRead s id c size =>
      match o with
      | ADeadline => ok st [SComplete id RNil (Some DeadlineFailed)]
      | AFail _ => ok st (fail s id RNil ReadFailed)
      | AEOF => ok st [SComplete id (RBytes []) None]
      | AData bs =>
          if connection_open st c && (zlen bs <=? if size <=? 0 then 4096 else size) then ok st [SComplete id (RBytes bs) None] else None
      | _ => None
      end
  (* [Send], [Receive] and [ReceiveUntil] *)
  | SSend s data => locking st s (λ t, ok st (connected t (λ c, [SSyncWrite s c data])))
  | SReceive s size => locking st s (λ t, ok st (connected t (λ c, [SSyncRead s c size])))
  | SUntil s pattern inclusive =>
      if decide (pattern = []) then ok st [SReturn (Failed EmptyPattern)]
      else locking st s (λ t, ok st (connected t (λ c, [SSyncUntil s c pattern inclusive])))
  | SSyncWrite s c data =>
      match o with
      | ADeadline => ok st [SReturn (Failed DeadlineFailed)]
      | AFail n => ok st [SSetState s StateError; SReturn (Failed WriteFailed)]
      | ADone => if connection_open st c then ok st [SReturn (Count (zlen data))] else None
      | _ => None
      end
  | SSyncRead s c size =>
      match o with
      | ADeadline => ok st [SReturn (Failed DeadlineFailed)]
      | AFail _ => ok st [SSetState s StateError; SReturn (Failed ReadFailed)]
      | AEOF => ok st [SReturn (Data [] None)]
      | AData bs =>
          if connection_open st c && (zlen bs <=? if size <=? 0 then 4096 else size) then ok st [SReturn (Data bs None)] else None
      | _ => None
      end
  | SSyncUntil s c pattern inclusive =>
      match o with
      | ADeadline => ok st [SReturn (Failed DeadlineFailed)]
      | AEvents evs =>
          match until_loop pattern inclusive evs [] with
          | Some (bs, e, []) =>
              if negb (connection_open st c) && existsb (λ ev, match ev with RByte _ => true | _ => false end) evs then None
              else ok st ((if decide (e = Some ReadFailed) then [SSetState s StateError] else []) ++ [SReturn (Data bs e)])
          | _ => None
          end
      | _ => None
      end
  (* [TCPSocket.Close] *)
  | SClose s =>
      t ← socks st !! s;
      if closed t then ok st [SReturn Nothing] else ok (on_sock s with_closed st) [SCloseLocked s]
  | SCloseLocked s =>
      locking st s (λ t,
        let cancel :=
          match currentOp t with
          | Some p =>
              match ops st !! p with
              | Some op => if IsCompleted op then [] else [SComplete (op_ID op) RNil (Some SocketClosed); SDropOp s]
              | None => []
              end
          | None => []
          end in
        ok (on_sock s (with_locked true) st) (cancel ++ [SCloseConn s; SAdd CClosed 1; SAdd CSockets (-1); SUnlock s; SReturn Nothing]))
  | SDropOp s => ok (on_sock s (with_op None) st) []
  | SCloseConn s =>
      t ← socks st !! s;
      let st := match sock_conn t with
                | Some c => on_conns (alter (λ k, mkConnection (peer k) false) c) st
                | None => st
                end in
      ok (on_sock s (λ t, with_state Closed (with_conn None t)) st) []
  | SUnlock s => ok (on_sock s (with_locked false) st) []
  (* [cleanup] and [CosocketManager.Close] *)
  | SCleanup => ok st ((overdue st) ≫= (λ id, [SComplete id RNil (Some DeadlineExceeded); SAdd CTimeout 1]))
  | SCloseManager =>
      ok (on_manager (with_operations ∅) st) ((λ '(_, p), SFinish p RNil (Some Canceled)) <$> range (operations m))
  | SReturn _ => ok st []
  end.

(** ** The calls *)

Definition ms (t : Z) : Z := swrap64 (t * millisecond).

(** What the world does: scripts call, the ticker and the clock tick.  The times-out of
    [tcpSocketConnect] and its like are in milliseconds. *)
Inductive call :=
  | NewSocket | Connect (s : nat) (host : gostring) (port : Z)
  | tcpSocketConnect (s : nat) (host : gostring) (port : Z) (timeout : option Z)
  | tcpSocketSend (s : nat) (data : gostring) (timeout : option Z)
  | tcpSocketReceive (s : nat) (size : Z) (timeout : option Z)
  | tcpSocketReceivePattern (s : nat) (pattern : gostring)
  | tcpSocketReceiveUntil (s : nat) (pattern : gostring) (inclusive : bool)
  | Send (s : nat) (data : gostring) | tcpSocketClose (s : nat)
  | tcpSocketSetTimeout (s : nat) (t : Z) | tcpSocketSetTimeouts (s : nat) (connect send read : Z)
  | SetDefaultTimeout_ (d : Z) | TouchOp (p : nat) | CleanupTick | CloseManager | Elapse (d : Z).

Definition act (c : call) (st : state) : option (state * list (list section)) :=
  match c with
  | NewSocket =>
      Some (mkState (manager st) (ops st) (socks st ++ [NewTCPSocket]) (conns st) (clock st), [[SAdd CCreated 1; SAdd CSockets 1]])
  | Connect s host port => Some (st, [[SBegin s host port]])
  | tcpSocketConnect s host port timeout =>
      Some (on_sock s (with_timeouts None None (Some (ms (default 30000 timeout)))) st, [[SCheckBusy s host port]])
  | tcpSocketSend s data timeout =>
      Some (on_sock s (with_timeouts None (Some (ms (default 60000 timeout))) None) st, [[SSendAsync s data]])
  | tcpSocketReceive s size timeout =>
      Some (on_sock s (with_timeouts (Some (ms (default 60000 timeout))) None None) st, [[SReceiveAsync s size]])
  | tcpSocketReceivePattern s pattern =>
      Some (st, [if decide (pattern = go!"*l") then [SUntil s ["010"%char] true]
                 else if decide (pattern = go!"*a") then [SReceive s (64 * 1024)] else []])
  | tcpSocketReceiveUntil s pattern inclusive => Some (st, [[SUntil s pattern inclusive]])
  | Send s data => Some (st, [[SSend s data]])
  | tcpSocketClose s => Some (st, [[SClose s]])
  | tcpSocketSetTimeout s t => Some (on_sock s (with_timeouts (Some (ms t)) (Some (ms t)) (Some (ms t))) st, [])
  | tcpSocketSetTimeouts s c w r => Some (on_sock s (with_timeouts (Some (ms r)) (Some (ms w)) (Some (ms c))) st, [])
  | SetDefaultTimeout_ d => Some (on_manager (SetDefaultTimeout d) st, [])
  | TouchOp p => Some (on_op p (Touch (clock st)) st, [])
  | CleanupTick => Some (st, [[SCleanup]])
  | CloseManager => Some (st, [[SCloseManager]])
  | Elapse d => if 0 <=? d then Some (mkState (manager st) (ops st) (socks st) (conns st) (clock st + d), []) else None
  end.

Definition sockets : Machine state section answer call := {| Threads.run_section := run_section; Threads.act := act |}.

(** A new manager, before any call. *)
Definition initial (testing : bool) (now : Z) : world state section :=
  mkWorld (mkState (NewCosocketManager testing) [] [] [] now) [].
End Machine.

(** ** Waiting for an operation *)

(** What goes back to the script. *)
Inductive lval := LNil | LNumber (n : Z) | LString (bs : gostring) | LError (e : sock_error).

Inductive handled := OperationNotFound | Values (vs : list lval).

(** What the three handlers make of a result. *)
Definition connect_values (r : result) : list lval := match r with RNil => [LNil; LNil] | _ => [LNumber 1] end.
Definition send_values (r : result) : list lval :=
  match r with RInt n => [LNumber n] | _ => [LNil; LString (go!"invalid result")] end.
Definition receive_values (r : result) : list lval :=
  match r with
  | RBytes [] => [LNil; LString (go!"closed")]
  | RBytes bs => [LString bs]
  | _ => [LNil; LString (go!"invalid result")]
  end.

Definition GetOperation (st : state) (id : Z) : option nat := operations (manager st) !! id.

(** [handleCosocketConnect], [handleCosocketSend] and [handleCosocketReceive] look the
    operation up in one state and read it in a later one: what they may answer there,
    nothing while they block. *)
Definition handleCosocket (values : result → list lval) (st st' : state) (id : Z) (ctx_done : option sock_error) : list handled :=
  match GetOperation st id with
  | None => [OperationNotFound]
  | Some p =>
      match ops st' !! p with
      | Some op => (λ '(r, e), Values (match e with Some e => [LNil; LError e] | None => values r end)) <$> Wait op ctx_done
      | None => []
      end
  end.

(** ** What is conserved *)

Section Conserved.
Context (range : gmap Z nat → list (Z * nat)).
Hypothesis range_ok : ∀ m, range m ≡ₚ map_to_list m.

#[local] Instance machine : Machine state section answer call := sockets range.

(** Shares of a section: in a counter, in an id, in the completion of an operation. *)
Definition counter_index (k : counter) : nat :=
  match k with CTotal => 0 | CActive => 1 | CTimeout => 2 | CError => 3 | CSockets => 4 | CCreated => 5 | CClosed => 6 end.
Definition adds (k : counter) (a : section) : Z :=
  match a with SAdd k' d => if (counter_index k =? counter_index k')%nat then d else 0 | _ => 0 end.
Definition registers (v : Z) (a : section) : Z := match a with SRegister _ _ _ id _ => one (id =? v) | _ => 0 end.
Definition finishes (p : nat) (a : section) : Z := match a with SFinish p' _ _ => one (p' =? p)%nat | _ => 0 end.
Definition answers_for (v : Z) (a : section) : Z :=
  match a with
  | SCurrent _ _ _ id | SSpawn _ _ id | SGuard _ id _ | SDial _ id _ | SWrite _ id _ _ | SRead _ id _ _ | SComplete id _ _ => one (id =? v)
  | _ => 0
  end.

(** Only the closing of the manager cancels. *)
Definition no_cancel (a : section) : Prop := match a with SComplete _ _ e => e ≠ Some Canceled | _ => True end.

Definition msize (m : gmap Z nat) : Z := zlen (map_to_list m).
Definition held_by (p : nat) (m : gmap Z nat) : Z := sum_over (λ '(_, q), one (q =? p)%nat) (map_to_list m).

Lemma msize_insert m i x : m !! i = None → msize (<[i := x]> m) = msize m + 1.
Proof. intros Hi. unfold msize. rewrite (Permutation_length (map_to_list_insert m i x Hi)). cbn. lia. Qed.
Lemma held_insert p m i x : m !! i = None → held_by p (<[i := x]> m) = held_by p m + one (x =? p)%nat.
Proof. intros Hi. unfold held_by. rewrite (sum_over_perm _ _ _ (map_to_list_insert m i x Hi)). cbn. lia. Qed.
Lemma msize_delete m i x : m !! i = Some x → msize (delete i m) = msize m - 1.
Proof. intros Hi. unfold msize. rewrite <- (Permutation_length (map_to_list_delete m i x Hi)). cbn. lia. Qed.
Lemma held_delete p m i x : m !! i = Some x → held_by p (delete i m) = held_by p m - one (x =? p)%nat.
Proof. intros Hi. unfold held_by. rewrite <- (sum_over_perm _ _ _ (map_to_list_delete m i x Hi)). cbn. lia. Qed.

Lemma stat_add k k' d s : counter_of k (add_stat k' d s) = if decide (k = k') then wrap64 (counter_of k s + d) else counter_of k s.
Proof. destruct k, k'; done. Qed.

Lemma adds_add k k' d : adds k (SAdd k' d) = if decide (k = k') then d else 0.
Proof. by destruct k, k'. Qed.

(** *** What a section does *)

(** Sections that count nothing, register nothing and finish nothing. *)
Definition plain (a : section) : Prop :=
  match a with SAdd _ _ | SRegister _ _ _ _ _ | SFinish _ _ _ | SCloseLocked _ => False | _ => no_cancel a end.

Definition flags (st : state) : list bool := closed <$> socks st.

Record same (st st' : state) : Prop := mkSame {
  same_manager : manager st' = manager st; same_ops : ops st' = ops st; same_flags : flags st' = flags st }.

Inductive effect (st : state) : section → state → list section → list (list section) → Prop :=
  | E_add k d : effect st (SAdd k d) (on_manager (add_stats k d) st) [] []
  | E_allocate s pl t t' : let id := wrap64 (nextID (manager st) + 1) in
      effect st (SAllocate s pl t) (on_manager (with_nextID id) st) [SRegister s pl t' id (clock st)] []
  | E_register s pl t id now st' op :
      manager st' = with_operations (<[id := length (ops st)]> (operations (manager st))) (manager st) →
      ops st' = ops st ++ [op] → flags st' = flags st → op_ID op = id → op_Error op = None → completed op = false →
      effect st (SRegister s pl t id now) st' [SAdd CTotal 1; SAdd CActive 1; SCurrent s pl (length (ops st)) id] []
  | E_complete id r e p : operations (manager st) !! id = Some p →
      effect st (SComplete id r e) (on_manager (with_operations (delete id (operations (manager st)))) st)
        ([SFinish p r e; SAdd CActive (-1)] ++ match e with Some _ => [SAdd CError 1] | None => [] end) []
  | E_lost id r e : operations (manager st) !! id = None → effect st (SComplete id r e) st [] []
  | E_finish p r e : effect st (SFinish p r e) (on_op p (op_Complete r e) st) [] []
  | E_cleanup : effect st SCleanup st (overdue range st ≫= (λ id, [SComplete id RNil (Some DeadlineExceeded); SAdd CTimeout 1])) []
  | E_cancel : effect st SCloseManager (on_manager (with_operations ∅) st)
      ((λ '(_, p), SFinish p RNil (Some Canceled)) <$> range (operations (manager st))) []
  | E_close s t : socks st !! s = Some t → closed t = false → effect st (SClose s) (on_sock s with_closed st) [SCloseLocked s] []
  | E_closing s st' cancel : same st st' → Forall plain cancel →
      effect st (SCloseLocked s) st' (cancel ++ [SCloseConn s; SAdd CClosed 1; SAdd CSockets (-1); SUnlock s; SReturn Nothing]) []
  | E_plain a st' before started : plain a → same st st' → Forall plain before → Forall (Forall plain) started →
      (∀ v, answers_for v a ≤ sum_over (answers_for v) before + pending (answers_for v) started) →
      effect st a st' before started.

Lemma flags_sock s f st : (∀ t, closed (f t) = closed t) → flags (on_sock s f st) = flags st.
Proof.
  intros Hf. unfold flags. cbn. apply list_eq. intros i. rewrite !list_lookup_fmap, list_lookup_alter.
  case_decide as Hsi; [|done]. rewrite Hsi. destruct (socks st !! i) as [t|]; cbn; [by rewrite Hf|done].
Qed.

Lemma same_sock s f st : (∀ t, closed (f t) = closed t) → same st (on_sock s f st).
Proof. intros Hf. split; [done|done|by apply flags_sock]. Qed.

Lemma same_refl st : same st st.
Proof. done. Qed.

Ltac plain_step :=
  apply E_plain; [done|first [apply same_refl|by apply same_sock|done]|repeat constructor; done|repeat constructor; done|
    intros ?; cbn; repeat case_match; lia].

Lemma section_effect a o st st' before started :
  no_cancel a → run_section range a o st = Some (st', before, started) → effect st a st' before started.
Proof.
  intros Hnc Hs. destruct a; cbn [run_section] in Hs; unfold locking, connected, fail, after_current in Hs; cbn zeta in Hs.
  all: try (destruct (socks st !! _) as [t|] eqn:Ht; cbn [mbind option_bind] in Hs; [|done]).
  all: try (destruct (locked t) eqn:Hl; [done|]).
  all: try by (simplify_eq; constructor).
  all: try by (repeat case_match; simplify_eq; plain_step).
  - simplify_eq. by eapply E_register.
  - simplify_eq. apply E_plain; [done|done|constructor| |].
    + destruct pl; repeat constructor; done.
    + intros v. destruct pl; cbn; lia.
  - destruct (operations (manager st) !! id) as [p|] eqn:Hp; simplify_eq; [by apply E_complete|by apply E_lost].
  - repeat case_match; simplify_eq; try plain_step.
    destruct (socks st !! s) as [t|]; cbn [mbind option_bind] in *; repeat case_match; simplify_eq; plain_step.
  - destruct (closed t) eqn:Hc; simplify_eq; [plain_step|]. by apply (E_close _ _ t).
  - simplify_eq. apply E_closing; [by apply same_sock|]. repeat case_match; repeat constructor; done.
  - simplify_eq. apply E_plain; [done| |constructor|constructor|done].
    destruct (sock_conn t); [|by apply same_sock].
    destruct (same_sock s (λ t, with_state Closed (with_conn None t)) st ltac:(done)) as [H1 H2 H3]. by split.
Qed.

(** *** What an act of the world does *)

Abbreviation mark := (Z * bool * option sock_error)%type.

(** What the counts need of an operation: id, completion and error. *)
Definition marks (st : state) : list mark := (λ op, (op_ID op, completed op, op_Error op)) <$> ops st.

Record same_counts (st st' : state) : Prop := mkCounts {
  sc_operations : operations (manager st') = operations (manager st);
  sc_next : nextID (manager st') = nextID (manager st);
  sc_stats : stats (manager st') = stats (manager st);
  sc_marks : marks st' = marks st; sc_flags : flags st' = flags st }.

Inductive act_effect (st : state) : state → list (list section) → Prop :=
  | A_new : act_effect st (mkState (manager st) (ops st) (socks st ++ [NewTCPSocket]) (conns st) (clock st))
              [[SAdd CCreated 1; SAdd CSockets 1]]
  | A_other st' started : same_counts st st' → Forall (Forall plain) started → act_effect st st' started.

Lemma marks_touch p now st : marks (on_op p (Touch now) st) = marks st.
Proof.
  unfold marks. cbn. apply list_eq. intros i. rewrite !list_lookup_fmap, list_lookup_alter.
  case_decide as Hp; [|done]. rewrite Hp. by destruct (ops st !! i).
Qed.

Lemma same_counts_sock s f st : (∀ t, closed (f t) = closed t) → same_counts st (on_sock s f st).
Proof. intros Hf. split; [done..|by apply flags_sock]. Qed.

Lemma act_effects c st st' started : act c st = Some (st', started) → act_effect st st' started.
Proof.
  intros Ha. destruct c; cbn [act] in Ha; repeat case_match; simplify_eq; try apply A_new; apply A_other;
    try (repeat constructor; done); try (by apply same_counts_sock).
  split; try done. apply marks_touch.
Qed.

(** *** Quantities of the state *)

Definition ids (v : Z) (ms : list mark) : Z := sum_over (λ '(i, _, _), one (i =? v)) ms.
Definition ended (P : sock_error → bool) (ms : list mark) : Z :=
  sum_over (λ '(_, c, e), one (c && match e with Some e => P e | None => false end)) ms.
Definition done_at (p : nat) (ms : list mark) : Z := match ms !! p with Some (_, true, _) => 1 | _ => 0 end.

Definition is_canceled (e : sock_error) : bool := match e with Canceled => true | _ => false end.
Definition is_failure (e : sock_error) : bool := negb (is_canceled e).

Definition ends (P : sock_error → bool) (a : section) : Z := match a with SFinish _ _ (Some e) => one (P e) | _ => 0 end.
Definition closing (a : section) : Z := match a with SCloseLocked _ => 1 | _ => 0 end.
Definition count_closed (fl : list bool) : Z := sum_over one fl.

Lemma marks_finish p r e st m :
  marks st !! p = Some m → m.1.2 = false →
  marks (on_op p (op_Complete r e) st) = <[p := (m.1.1, true, e)]> (marks st).
Proof.
  intros Hm Hc. unfold marks in *. rewrite list_lookup_fmap in Hm. destruct (ops st !! p) as [op|] eqn:Hp; [|done].
  cbn in Hm. simplify_eq. cbn in Hc. cbn [on_op ops]. apply list_eq. intros i. rewrite list_lookup_fmap, list_lookup_alter.
  case_decide as Hpi.
  - subst i. rewrite list_lookup_insert_eq by (rewrite length_fmap; by eapply lookup_lt_Some).
    rewrite Hp. cbn. unfold op_Complete. by rewrite Hc.
  - by rewrite list_lookup_insert_ne, list_lookup_fmap.
Qed.

Lemma plain_shares a : plain a →
  (∀ k, adds k a = 0) ∧ (∀ v, registers v a = 0) ∧ (∀ p, finishes p a = 0) ∧ (∀ P, ends P a = 0) ∧ closing a = 0.
Proof. by destruct a. Qed.

Definition shareless (f : section → Z) : Prop := ∀ a, plain a → f a = 0.

Lemma shareless_adds k : shareless (adds k). Proof. intros a Ha. by apply plain_shares. Qed.
Lemma shareless_registers v : shareless (registers v). Proof. intros a Ha. by apply plain_shares. Qed.
Lemma shareless_finishes p : shareless (finishes p). Proof. intros a Ha. by apply plain_shares. Qed.
Lemma shareless_ends P : shareless (ends P). Proof. intros a Ha. by apply plain_shares. Qed.
Lemma shareless_closing : shareless closing. Proof. intros a Ha. by apply plain_shares. Qed.

(** *** The quantities *)

Inductive quantity := QTotal | QActive | QError | QCreated | QClosed | QSockets | QId (v : Z) | QPlace (p : nat).

(** The counters wrap; the other two are exact. *)
Definition modulus (q : quantity) : Z := match q with QId _ | QPlace _ => 0 | _ => 2 ^ 64 end.

Definition share (q : quantity) (a : section) : Z :=
  match q with
  | QTotal => adds CTotal a
  | QActive => adds CActive a - ends is_canceled a
  | QError => adds CError a - ends is_failure a
  | QCreated => adds CCreated a
  | QClosed => adds CClosed a + closing a
  | QSockets => adds CSockets a - closing a
  | QId v => registers v a
  | QPlace p => finishes p a
  end.

Definition balance (q : quantity) (st : state) : Z :=
  let m := manager st in
  match q with
  | QTotal => counter_of CTotal (stats m) - zlen (marks st)
  | QActive => counter_of CActive (stats m) - msize (operations m) - ended is_canceled (marks st)
  | QError => counter_of CError (stats m) - ended is_failure (marks st)
  | QCreated => counter_of CCreated (stats m) - zlen (flags st)
  | QClosed => counter_of CClosed (stats m) - count_closed (flags st)
  | QSockets => counter_of CSockets (stats m) - zlen (flags st) + count_closed (flags st)
  | QId v => ids v (marks st) - one ((1 <=? v) && (v <=? nextID m))
  | QPlace p => held_by p (operations m) + done_at p (marks st) - one (p <? length (marks st))%nat
  end.

Lemma shareless_share q : shareless (share q).
Proof. intros a Ha. destruct (plain_shares a Ha) as (H1 & H2 & H3 & H4 & H5). destruct q; cbn; rewrite ?H1, ?H2, ?H3, ?H4, ?H5; done. Qed.

(** What the place of a section among those that are left says of the state. *)
Definition ready (a : section) (st : state) : Prop :=
  match a with
  | SAllocate _ _ _ => 0 ≤ nextID (manager st) < 2 ^ 64 - 1
  | SRegister _ _ _ id _ => operations (manager st) !! id = None
  | SFinish p _ _ => ∃ m, marks st !! p = Some m ∧ m.1.2 = false
  | _ => no_cancel a
  end.

Lemma same_base q st st' : same_counts st st' → balance q st' = balance q st.
Proof. intros [H1 H2 H3 H4 H5]. unfold balance. by rewrite H1, H2, H3, H4, H5. Qed.

Lemma same_counts_same st st' : same st st' → same_counts st st'.
Proof. intros [H1 H2 H3]. split; unfold marks; by rewrite ?H1, ?H2, ?H3. Qed.

Lemma divide_0 z : z = 0 → (2 ^ 64 | z).
Proof. intros ->. apply Z.divide_0_r. Qed.

Lemma count_closed_close s t st : socks st !! s = Some t → closed t = false →
  zlen (flags (on_sock s with_closed st)) = zlen (flags st) ∧ count_closed (flags (on_sock s with_closed st)) = count_closed (flags st) + 1.
Proof.
  intros Ht Hc. assert (flags (on_sock s with_closed st) = <[s := true]> (flags st)) as ->.
  { unfold flags. cbn. apply list_eq. intros i. rewrite list_lookup_fmap, list_lookup_alter. case_decide as Hsi.
    - subst i. rewrite list_lookup_insert_eq by (rewrite length_fmap; by eapply lookup_lt_Some). by rewrite Ht.
    - by rewrite list_lookup_insert_ne, list_lookup_fmap. }
  rewrite length_insert. split; [done|]. unfold count_closed. rewrite (sum_over_insert _ _ _ false); [cbn; lia|].
  unfold flags. by rewrite list_lookup_fmap, Ht, <- Hc.
Qed.

Lemma zero_sum {X} (f : X → Z) (l : list X) n : (∀ x, x ∈ l → f x = 0) → n = 0 → n + sum_over f l = 0.
Proof. intros Hf ->. by rewrite (sum_over_zero f l Hf). Qed.

Definition conserves (q : quantity) (st st' : state) (a : section) (before : list section) (started : list (list section)) : Prop :=
  (modulus q | balance q st' + sum_over (share q) before + pending (share q) started - (balance q st + share q a)).

Lemma conserves_eq q st st' a before started :
  balance q st' + sum_over (share q) before + pending (share q) started = balance q st + share q a → conserves q st st' a before started.
Proof. unfold conserves. intros ->. rewrite Z.sub_diag. apply Z.divide_0_r. Qed.

Lemma add_conserves q k d st : conserves q st (on_manager (add_stats k d) st) (SAdd k d) [] [].
Proof.
  unfold conserves, balance. cbn [on_manager manager add_stats stats operations nextID sum_over pending].
  assert (marks (on_manager (add_stats k d) st) = marks st) as -> by done.
  assert (flags (on_manager (add_stats k d) st) = flags st) as -> by done.
  destruct q; cbn [share ends closing registers finishes modulus]; rewrite ?stat_add, ?adds_add;
    try (destruct (decide _) as [<-|]); try (exists 0; lia);
    match goal with |- context [wrap64 ?x] => destruct (wrap64_divide x) as [z Hz]; exists z; lia end.
Qed.

Lemma register_conserves q s pl t id now st st' op :
  operations (manager st) !! id = None →
  manager st' = with_operations (<[id := length (ops st)]> (operations (manager st))) (manager st) →
  ops st' = ops st ++ [op] → flags st' = flags st → op_ID op = id → op_Error op = None → completed op = false →
  conserves q st st' (SRegister s pl t id now) [SAdd CTotal 1; SAdd CActive 1; SCurrent s pl (length (ops st)) id] [].
Proof.
  intros Hid Hm Ho Hf Hi He Hc. apply conserves_eq.
  assert (marks st' = marks st ++ [(id, false, None)]) as Hk.
  { unfold marks. rewrite Ho, fmap_app. cbn. by rewrite Hi, He, Hc. }
  assert (length (ops st) = length (marks st)) as Hlen by (unfold marks; by rewrite length_fmap).
  unfold balance. rewrite Hm, Hk, Hf. cbn [with_operations operations stats nextID manager].
  destruct q; unfold ids, ended, done_at; rewrite ?sum_over_app, ?length_app, ?msize_insert, ?held_insert by done;
    cbn -[Nat.ltb]; try lia.
  rewrite Hlen. destruct (decide (p < length (marks st))%nat) as [Hp|Hp].
  - rewrite lookup_app_l by done. rewrite (proj2 (Nat.ltb_lt _ _)), (proj2 (Nat.ltb_lt _ _)) by lia.
    rewrite (proj2 (Nat.eqb_neq _ _)) by lia. cbn. lia.
  - rewrite (lookup_ge_None_2 (marks st) p), lookup_app_r by lia. destruct (decide (p = length (marks st))) as [->|Hne].
    + rewrite Nat.sub_diag, Nat.eqb_refl, (proj2 (Nat.ltb_lt _ _)), (proj2 (Nat.ltb_ge _ _)) by lia. cbn. lia.
    + rewrite (proj2 (Nat.ltb_ge _ _)), (proj2 (Nat.ltb_ge _ _)), (proj2 (Nat.eqb_neq _ _)) by lia.
      rewrite (lookup_ge_None_2 [_]) by (cbn; lia). cbn. lia.
Qed.

Lemma complete_conserves q id r e p st :
  e ≠ Some Canceled → operations (manager st) !! id = Some p →
  conserves q st (on_manager (with_operations (delete id (operations (manager st)))) st) (SComplete id r e)
    ([SFinish p r e; SAdd CActive (-1)] ++ match e with Some _ => [SAdd CError 1] | None => [] end) [].
Proof.
  intros He Hp. apply conserves_eq. unfold balance. cbn [with_operations operations stats nextID manager on_manager].
  assert (marks (on_manager (with_operations (delete id (operations (manager st)))) st) = marks st) as -> by done.
  assert (flags (on_manager (with_operations (delete id (operations (manager st)))) st) = flags st) as -> by done.
  rewrite (msize_delete _ _ _ Hp), sum_over_app.
  destruct q; cbn [share]; destruct e as [err|]; cbn; try lia.
  - destruct err; cbn; (lia || congruence).
  - destruct err; cbn; (lia || congruence).
  - rewrite (held_delete _ _ _ _ Hp). lia.
  - rewrite (held_delete _ _ _ _ Hp). lia.
Qed.

Lemma finish_conserves q p r e m st :
  marks st !! p = Some m → m.1.2 = false → conserves q st (on_op p (op_Complete r e) st) (SFinish p r e) [] [].
Proof.
  intros Hm Hc. apply conserves_eq. pose proof (marks_finish p r e st m Hm Hc) as Hk.
  unfold balance. rewrite Hk. cbn [on_op manager]. assert (flags (on_op p (op_Complete r e) st) = flags st) as -> by done.
  rewrite length_insert. destruct m as [[i c] e0]. cbn in Hc. subst c.
  destruct q; unfold ids, ended; rewrite ?(sum_over_insert _ _ _ _ _ Hm); cbn -[Nat.ltb]; try lia.
  - destruct e; cbn; lia.
  - destruct e; cbn; lia.
  - unfold done_at. destruct (decide (p = p0)) as [->|Hne].
    + rewrite list_lookup_insert_eq by by eapply lookup_lt_Some. rewrite Hm, Nat.eqb_refl. cbn. lia.
    + rewrite list_lookup_insert_ne, (proj2 (Nat.eqb_neq _ _)) by done. cbn. lia.
Qed.

Lemma msize_empty : msize ∅ = 0. Proof. done. Qed.
Lemma held_empty p : held_by p ∅ = 0. Proof. done. Qed.

Lemma cancel_conserves q st :
  conserves q st (on_manager (with_operations ∅) st) SCloseManager
    ((λ '(_, p), SFinish p RNil (Some Canceled)) <$> range (operations (manager st))) [].
Proof.
  apply conserves_eq. unfold balance. cbn [with_operations operations stats nextID manager on_manager].
  assert (marks (on_manager (with_operations ∅) st) = marks st) as -> by done.
  assert (flags (on_manager (with_operations ∅) st) = flags st) as -> by done.
  rewrite sum_over_fmap, (sum_over_perm _ _ _ (range_ok (operations (manager st)))).
  destruct q; rewrite ?msize_empty, ?held_empty; unfold msize, held_by;
    induction (map_to_list (operations (manager st))) as [|[i x] l IH]; cbn -[Nat.ltb] in *; lia.
Qed.

Lemma section_conserves q a st st' before started :
  ready a st → effect st a st' before started → conserves q st st' a before started.
Proof.
  intros Hr He. destruct He.
  - apply add_conserves.
  - apply conserves_eq. cbn in Hr. assert (id = nextID (manager st) + 1) as ->.
    { unfold id. rewrite wrap64_id by (unfold in_uint64; lia). done. }
    assert (marks (on_manager (with_nextID (nextID (manager st) + 1)) st) = marks st) as Hk by done.
    unfold balance. rewrite Hk. destruct q; cbn [share sum_over pending adds ends registers finishes closing on_manager with_nextID manager operations stats nextID];
      try change (flags (on_manager _ st)) with (flags st); try lia.
    destruct (Z.leb_spec 1 v), (Z.leb_spec v (nextID (manager st))), (Z.leb_spec v (nextID (manager st) + 1)),
      (Z.eqb_spec (nextID (manager st) + 1) v); cbn; lia.
  - by eapply register_conserves.
  - by apply complete_conserves.
  - apply conserves_eq. destruct q; cbn; lia.
  - destruct Hr as (m & Hm & Hc). by eapply finish_conserves.
  - apply conserves_eq. generalize (overdue range st). intros l. induction l as [|i l IH]; [destruct q; cbn; lia|].
    cbn [mbind list_bind]. rewrite sum_over_app. destruct q; cbn in *; lia.
  - apply cancel_conserves.
  - apply conserves_eq. destruct (count_closed_close s t st) as [H1 H2]; [done..|]. unfold balance.
    assert (marks (on_sock s with_closed st) = marks st) as H3 by done. rewrite H1, H2, H3.
    destruct q; cbn -[Nat.ltb]; lia.
  - apply conserves_eq. rewrite (same_base q st st') by by apply same_counts_same. rewrite sum_over_app, (shares_none plain _ cancel (shareless_share q)) by done.
    destruct q; cbn; lia.
  - apply conserves_eq. rewrite (same_base q st st') by by apply same_counts_same.
    rewrite (shares_none plain _ before (shareless_share q)), (pending_none plain _ started (shareless_share q)), (shareless_share q a) by done. lia.
Qed.

Lemma act_conserves q st st' started :
  act_effect st st' started → (modulus q | balance q st' + pending (share q) started - balance q st).
Proof.
  assert (∀ z, z = 0 → (modulus q | z)) as H0 by (intros ? ->; apply Z.divide_0_r).
  destruct 1 as [|st' started Hc Hp]; apply H0.
  - unfold balance. cbn [manager]. unfold flags, marks. cbn [socks ops]. rewrite fmap_app, length_app.
    assert (count_closed ((closed <$> socks st) ++ (closed <$> [NewTCPSocket])) = count_closed (closed <$> socks st)) as Hz
      by (unfold count_closed; rewrite sum_over_app; cbn; lia).
    destruct q; cbn [share pending sum_over adds closing]; rewrite ?Hz; cbn; lia.
  - rewrite (same_base q st st') by done. rewrite (pending_none plain _ started (shareless_share q)) by done. lia.
Qed.

(** *** The invariant *)

Record consistent (n : nat) (w : world state section) : Prop := mkConsistent {
  con_sections : Forall (Forall no_cancel) (threads w);
  con_next : 0 ≤ nextID (manager (shared w)) ≤ Z.of_nat n;
  con_ops : ∀ id p, operations (manager (shared w)) !! id = Some p → ∃ m, marks (shared w) !! p = Some m ∧ m.1.1 = id;
  con_quantities : ∀ q, (modulus q | balance q (shared w) + pending (share q) (threads w));
  con_answer : ∀ id, is_Some (operations (manager (shared w)) !! id) → 1 ≤ pending (answers_for id) (threads w) }.

Lemma finishes_nonneg p a : 0 ≤ finishes p a. Proof. destruct a; cbn; try lia. apply one_nonneg. Qed.
Lemma registers_nonneg v a : 0 ≤ registers v a. Proof. destruct a; cbn; try lia. apply one_nonneg. Qed.
Lemma answers_nonneg v a : 0 ≤ answers_for v a. Proof. destruct a; cbn; try lia; apply one_nonneg. Qed.
Lemma held_nonneg p m : 0 ≤ held_by p m. Proof. apply sum_over_nonneg. intros [i x] _. apply one_nonneg. Qed.
Lemma ids_nonneg v ms : 0 ≤ ids v ms. Proof. apply sum_over_nonneg. intros [[i x] y] _. apply one_nonneg. Qed.
Lemma done_nonneg p ms : 0 ≤ done_at p ms. Proof. unfold done_at. repeat case_match; lia. Qed.

Lemma exact_quantity n w q : consistent n w → modulus q = 0 → balance q (shared w) + pending (share q) (threads w) = 0.
Proof. intros Hc Hq. pose proof (con_quantities _ _ Hc q) as H. rewrite Hq in H. by apply Z.divide_0_l in H. Qed.

(** Where an operation is, exactly. *)
Lemma one_place n w p : consistent n w →
  held_by p (operations (manager (shared w))) + done_at p (marks (shared w)) + pending (finishes p) (threads w) =
  one (p <? length (marks (shared w)))%nat.
Proof. intros Hc. pose proof (exact_quantity n w (QPlace p) Hc eq_refl) as H. cbn [balance] in H.
  change (pending (share (QPlace p)) (threads w)) with (pending (finishes p) (threads w)) in H. lia. Qed.

Lemma ready_section n w k a rest :
  consistent n w → Z.of_nat n < 2 ^ 64 - 1 → threads w !! k = Some (a :: rest) → ready a (shared w).
Proof.
  intros Hc Hn Hk. assert (no_cancel a) as Ha.
  { pose proof (Forall_lookup_1 _ _ _ _ (con_sections _ _ Hc) Hk) as [? _]%Forall_cons. done. }
  assert (∀ f : section → Z, (∀ b, 0 ≤ f b) → f a ≤ pending f (threads w)) as Hp.
  { intros f Hf. apply (pending_in f _ (a :: rest)); [done|by eapply list_elem_of_lookup_2|left]. }
  destruct a; cbn [ready]; try done.
  - pose proof (con_next _ _ Hc). lia.
  - specialize (Hp (registers id) (registers_nonneg id)). cbn in Hp. rewrite Z.eqb_refl in Hp. cbn in Hp.
    pose proof (exact_quantity n w (QId id) Hc eq_refl) as H. cbn [balance] in H.
    change (pending (share (QId id)) (threads w)) with (pending (registers id) (threads w)) in H.
    pose proof (one_range ((1 <=? id) && (id <=? nextID (manager (shared w))))).
    destruct (operations (manager (shared w)) !! id) as [q|] eqn:Hq; [|done]. exfalso.
    destruct (con_ops _ _ Hc _ _ Hq) as ([[i c] e] & Hm & Hi). cbn in Hi. subst i.
    apply list_elem_of_lookup_2 in Hm. unfold ids in H.
    assert (∀ m : mark, m ∈ marks (shared w) → 0 ≤ (λ '(i, _, _), one (i =? id)) m) as Hpos by (intros [[? ?] ?] _; apply one_nonneg).
    pose proof (sum_over_in _ _ _ Hpos Hm) as H1. cbn beta iota in H1. rewrite Z.eqb_refl in H1. cbn [one] in H1. lia.
  - specialize (Hp (finishes p) (finishes_nonneg p)). cbn in Hp. rewrite Nat.eqb_refl in Hp. cbn in Hp.
    pose proof (one_place n w p Hc) as H. pose proof (held_nonneg p (operations (manager (shared w)))).
    pose proof (done_nonneg p (marks (shared w))). pose proof (one_range (p <? length (marks (shared w)))%nat) as Hone.
    assert (one (p <? length (marks (shared w)))%nat = 1 ∧ done_at p (marks (shared w)) = 0) as [Hlt H2] by lia.
    destruct (p <? length (marks (shared w)))%nat eqn:Hl; [|done]. apply Nat.ltb_lt, lookup_lt_is_Some in Hl as [[[i c] e1] Hm].
    exists (i, c, e1). split; [done|]. unfold done_at in H2. rewrite Hm in H2. by destruct c.
Qed.

Lemma effect_ops a st st' before started :
  ready a st → effect st a st' before started →
  (∀ id p, operations (manager st) !! id = Some p → ∃ m, marks st !! p = Some m ∧ m.1.1 = id) →
  ∀ id p, operations (manager st') !! id = Some p → ∃ m, marks st' !! p = Some m ∧ m.1.1 = id.
Proof.
  intros Hr He H id p Hp. destruct He as [| |? ? ? ? ? ? op Hm Ho ? Hi ? ?| | | | | | |? ? ? Hs|? ? ? ? ? Hs]; try (by apply H).
  - rewrite Hm in Hp. cbn in Hp. unfold marks. rewrite Ho, fmap_app. apply lookup_insert_Some in Hp as [[<- <-]|[Hne Hp]].
    + exists (op_ID op, completed op, op_Error op). split; [|done]. by rewrite lookup_app_r, length_fmap, Nat.sub_diag by (rewrite length_fmap; done).
    + destruct (H _ _ Hp) as (m & Hl & Hid). exists m. split; [|done]. by apply lookup_app_l_Some.
  - cbn in Hp. apply lookup_delete_Some in Hp as [_ Hp]. by apply H.
  - destruct Hr as (m & Hl & Hc). rewrite (marks_finish _ _ _ _ _ Hl Hc). destruct (H _ _ Hp) as (m' & Hl' & Hid).
    destruct (decide (p = p0)) as [->|Hne].
    + rewrite list_lookup_insert_eq by by eapply lookup_lt_Some. eexists. split; [done|]. cbn. by simplify_eq.
    + rewrite list_lookup_insert_ne by done. eauto.
  - destruct Hs as [Hm Ho _]. rewrite Hm in Hp. unfold marks. rewrite Ho. by apply H.
  - destruct Hs as [Hm Ho _]. rewrite Hm in Hp. unfold marks. rewrite Ho. by apply H.
Qed.

Lemma effect_no_cancel a st st' before started :
  effect st a st' before started → no_cancel a → Forall no_cancel before ∧ Forall (Forall no_cancel) started.
Proof.
  assert (∀ b, plain b → no_cancel b) as Hpl by by intros [].
  intros He Ha. destruct He; split; try by repeat constructor.
  - destruct e; repeat constructor.
  - generalize (overdue range st). intros l. induction l as [|i l IH]; cbn; [done|]. by repeat constructor.
  - apply Forall_fmap, Forall_true. by intros [i x].
  - apply Forall_app. split; [by eapply Forall_impl|]. by repeat constructor.
  - by eapply Forall_impl.
  - eapply Forall_impl; [done|]. intros l Hl. by eapply Forall_impl.
Qed.

Lemma effect_next a st st' before started :
  ready a st → effect st a st' before started → 0 ≤ nextID (manager st) →
  0 ≤ nextID (manager st') ≤ nextID (manager st) + 1.
Proof.
  intros Hr He Hn. destruct He as [| |? ? ? ? ? ? op Hm| | | | | | |? ? ? Hs|? ? ? ? ? Hs]; try (cbn; lia).
  - cbn in *. subst id. rewrite wrap64_id by (unfold in_uint64; lia). lia.
  - rewrite Hm. cbn. lia.
  - rewrite (same_manager _ _ Hs). lia.
  - rewrite (same_manager _ _ Hs). lia.
Qed.

Lemma sum_answers_nonneg v l : 0 ≤ sum_over (answers_for v) l.
Proof. apply sum_over_nonneg. intros a _. apply answers_nonneg. Qed.
Lemma pending_answers_nonneg v ts : 0 ≤ pending (answers_for v) ts.
Proof. apply sum_over_nonneg. intros t _. apply sum_answers_nonneg. Qed.

Lemma before_nonneg v l ts : 0 ≤ sum_over (answers_for v) l + pending (answers_for v) ts.
Proof. pose proof (sum_answers_nonneg v l). pose proof (pending_answers_nonneg v ts). lia. Qed.

(** A registered operation is answered for after a step if it was before. *)
Lemma effect_answers v a st st' before started :
  effect st a st' before started → is_Some (operations (manager st') !! v) →
  is_Some (operations (manager st) !! v) ∧ answers_for v a ≤ sum_over (answers_for v) before + pending (answers_for v) started
  ∨ 1 ≤ sum_over (answers_for v) before.
Proof.
  intros He Hv. destruct He as [| |? ? ? ? ? ? op Hm|i r e p Hp|i r e Hp| | | | |? ? ? Hs|? ? ? ? ? Hs];
    try (left; split; [done|]; apply before_nonneg).
  - rewrite Hm in Hv. cbn in Hv. destruct (decide (id = v)) as [->|Hne].
    + right. cbn. rewrite Z.eqb_refl. cbn. lia.
    + left. rewrite lookup_insert_ne in Hv by done. split; [done|]. cbn. destruct (id =? v); cbn; lia.
  - left. cbn in Hv. destruct (decide (i = v)) as [->|Hne]; [by rewrite lookup_delete_eq in Hv; destruct Hv|].
    rewrite lookup_delete_ne in Hv by done. split; [done|]. cbn [answers_for]. rewrite (proj2 (Z.eqb_neq _ _)) by done.
    apply before_nonneg.
  - left. split; [done|]. cbn. destruct (Z.eqb_spec i v) as [->|]; [|done]. rewrite Hp in Hv. by destruct Hv.
  - cbn in Hv. by destruct Hv.
  - left. destruct Hs as [Hm _ _]. rewrite Hm in Hv. split; [done|]. apply before_nonneg.
  - left. destruct Hs as [Hm _ _]. rewrite Hm in Hv. by split.
Qed.

Lemma consistent_step n w e w' :
  consistent n w → Z.of_nat n < 2 ^ 64 - 1 → step w e = Some w' → consistent (S n) w'.
Proof.
  intros Hc Hn Hs.
  assert (∀ k a rest o st' before started, threads w !! k = Some (a :: rest) →
    Threads.run_section a o (shared w) = Some (st', before, started) →
    no_cancel a ∧ ready a (shared w) ∧ effect (shared w) a st' before started) as Hrun.
  { intros k a rest o st' before started Hk Hr.
    pose proof (Forall_lookup_1 _ _ _ _ (con_sections _ _ Hc) Hk) as [Ha _]%Forall_cons.
    split_and!; [done|by eapply ready_section|]. eapply section_effect; [done|exact Hr]. }
  split.
  - eapply (sections_ok no_cancel); [| |exact Hs|apply (con_sections _ _ Hc)].
    + intros k a rest o st' before started Hk Hr Ha. destruct (Hrun _ _ _ _ _ _ _ Hk Hr) as (_ & _ & He).
      by eapply effect_no_cancel.
    + intros c st' started Ha%act_effects. assert (∀ b, plain b → no_cancel b) as Hpl by by intros [].
      destruct Ha; [by repeat constructor|]. eapply Forall_impl; [done|]. intros l Hl. by eapply Forall_impl.
  - destruct (con_next _ _ Hc) as [H0 H1]. destruct e as [k o|c]; cbn [step] in Hs.
    + apply bind_Some in Hs as ([|a rest] & Hk & Hs); [done|]. apply bind_Some in Hs as ([[st' before] started] & Hr & [= <-]).
      destruct (Hrun _ _ _ _ _ _ _ Hk Hr) as (_ & Hrd & He). pose proof (effect_next _ _ _ _ _ Hrd He H0). cbn [shared]. lia.
    + apply bind_Some in Hs as ([st' started] & Ha & [= <-]). cbn [shared]. apply act_effects in Ha. destruct Ha as [|? ? [_ Hx _ _ _]]; [cbn; lia|].
      rewrite Hx. lia.
  - destruct e as [k o|c]; cbn [step] in Hs.
    + apply bind_Some in Hs as ([|a rest] & Hk & Hs); [done|]. apply bind_Some in Hs as ([[st' before] started] & Hr & [= <-]).
      destruct (Hrun _ _ _ _ _ _ _ Hk Hr) as (_ & Hrd & He). eapply effect_ops; [done..|]. apply (con_ops _ _ Hc).
    + apply bind_Some in Hs as ([st' started] & Ha & [= <-]). cbn [shared]. apply act_effects in Ha.
      destruct Ha as [|? ? [Ho _ _ Hm _]]; [apply (con_ops _ _ Hc)|]. rewrite Ho, Hm. apply (con_ops _ _ Hc).
  - intros q. assert (modulus q | balance q (shared w') + pending (share q) (threads w') - (balance q (shared w) + pending (share q) (threads w))) as Hd.
    { eapply (moved (λ z, (modulus q | z)) (share q) (balance q)); [| |exact Hs].
      - intros k a rest o st' before started Hk Hr. destruct (Hrun _ _ _ _ _ _ _ Hk Hr) as (_ & Hrd & He). by apply section_conserves.
      - intros c st' started Ha%act_effects. by apply act_conserves. }
    pose proof (con_quantities _ _ Hc q) as Hq. pose proof (Z.divide_add_r _ _ _ Hd Hq) as H. eapply eq_ind; [exact H|lia].
  - intros v Hv. pose proof (con_answer _ _ Hc v) as Hans. destruct e as [k o|c]; cbn [step] in Hs.
    + apply bind_Some in Hs as ([|a rest] & Hk & Hs); [done|]. apply bind_Some in Hs as ([[st' before] started] & Hr & [= <-]).
      destruct (Hrun _ _ _ _ _ _ _ Hk Hr) as (_ & Hrd & He). cbn [shared threads] in *. rewrite (pending_run _ _ _ _ _ _ _ Hk).
      assert (answers_for v a ≤ pending (answers_for v) (threads w)) as Hle.
      { apply (pending_in _ _ (a :: rest)); [apply answers_nonneg|by eapply list_elem_of_lookup_2|left]. }
      pose proof (pending_answers_nonneg v started). destruct (effect_answers v _ _ _ _ _ He Hv) as [[H1%Hans H2]|H1]; lia.
    + apply bind_Some in Hs as ([st' started] & Ha & [= <-]). cbn [shared threads] in *. unfold pending. rewrite sum_over_app.
      pose proof (pending_answers_nonneg v started) as Hp. unfold pending in Hp, Hans. apply act_effects in Ha.
      destruct Ha as [|? ? [Ho _ _ _ _]]; [specialize (Hans Hv); lia|]. rewrite Ho in Hv. specialize (Hans Hv). lia.
Qed.

Lemma consistent_initial testing now : consistent 0 (initial testing now).
Proof.
  split; cbn; [constructor|done|by intros ? ? ?%lookup_empty_Some| |by intros ? [? ?%lookup_empty_Some]].
  intros q. assert (balance q (mkState (NewCosocketManager testing) [] [] [] now) = 0) as ->; [|apply Z.divide_0_r].
  destruct q; cbn; try done.
  - destruct (Z.leb_spec 1 v), (Z.leb_spec v 0); cbn; lia.
Qed.

Lemma consistent_run testing now es w :
  run (initial testing now) es = Some w → zlen es < 2 ^ 64 → consistent (length es) w.
Proof.
  intros Hr Hl. pose proof (run_ind (λ n w, Z.of_nat n < 2 ^ 64 → consistent n w)) as H.
  apply (H ltac:(intros n w1 e w2 H1 Hs Hn; eapply consistent_step; [apply H1; lia|lia|exact Hs]) es 0%nat (initial testing now) w
    (λ _, consistent_initial testing now) Hr). lia.
Qed.

Lemma count_ops_place n w p op : consistent n w → ops (shared w) !! p = Some op →
  held_by p (operations (manager (shared w))) + one (completed op) + pending (finishes p) (threads w) = 1.
Proof.
  intros Hc Hp. pose proof (one_place n w p Hc) as H. unfold done_at, marks in H. rewrite list_lookup_fmap, Hp in H. cbn [fmap option_fmap option_map] in H.
  rewrite length_fmap, (proj2 (Nat.ltb_lt _ _)) in H by by eapply lookup_lt_Some. destruct (completed op); cbn in *; lia.
Qed.

Lemma wrap64_congr a b : (2 ^ 64 | a - b) → wrap64 a = wrap64 b.
Proof. intros [z Hz]. unfold wrap64. replace a with (b + z * 2 ^ 64) by lia. by rewrite Z_mod_plus_full. Qed.

Lemma quiet_counter n w q : consistent n w → quiet w → modulus q = 2 ^ 64 → (2 ^ 64 | balance q (shared w)).
Proof.
  intros Hc Hq Hm. pose proof (con_quantities _ _ Hc q) as H. rewrite Hm in H.
  unfold machine in *. rewrite (pending_quiet _ _ Hq), Z.add_0_r in H. done.
Qed.

(** What the operations came to. *)
Definition ends_in (P : sock_error → bool) (op : SocketOperation) : bool :=
  completed op && match op_Error op with Some e => P e | None => false end.
Definition ended_ops (P : sock_error → bool) (st : state) : Z := zlen (filter (λ op, ends_in P op = true) (ops st)).

Lemma ended_marks P st : ended P (marks st) = ended_ops P st.
Proof.
  unfold ended, ended_ops, marks. rewrite sum_over_fmap. induction (ops st) as [|op l IH]; [done|].
  cbn [sum_over]. rewrite IH, filter_cons. cbn [compose]. change (one (completed op && _)) with (one (ends_in P op)).
  destruct (ends_in P op) eqn:He; [rewrite decide_True by done|rewrite decide_False by done]; cbn [one length]; lia.
Qed.

Lemma count_closed_flags st : count_closed (flags st) = zlen (filter (λ t, closed t = true) (socks st)).
Proof.
  unfold count_closed, flags. rewrite sum_over_fmap. induction (socks st) as [|t l IH]; [done|].
  cbn [sum_over]. rewrite IH, filter_cons. cbn [compose].
  destruct (closed t) eqn:Hc; [rewrite decide_True by done|rewrite decide_False by done]; cbn [one length]; lia.
Qed.

(** C18: Under every interleaving of scripts, goroutines, ticks and closings, every operation
    is in one place: registered with the manager, with one goroutine that has taken it
    out to complete it, or completed; a registered one always has a section left that
    completes it.  When nothing is left to run, no operation is registered, all are
    completed, and these counters are, modulo [2 ^ 64], exact: of the operations made, of
    those that failed, of the sockets made, closed, and open.  The counter of active
    operations is not: none is active, and it says how many the closing of the manager
    cancelled, for those are never counted out.  The counter of time-outs is not
    covered: it also counts operations that were completed before their time-out. *)
Theorem operations_conserved testing now es w (st := shared w) :
  run (initial testing now) es = Some w → zlen es < 2 ^ 64 →
  (∀ p op, ops st !! p = Some op →
     held_by p (operations (manager st)) + one (completed op) + pending (finishes p) (threads w) = 1) ∧
  (∀ id, is_Some (operations (manager st) !! id) → ∃ t a, t ∈ threads w ∧ a ∈ t ∧ answers_for id a ≠ 0) ∧
  (quiet w →
     operations (manager st) = ∅ ∧ Forall (λ op, completed op = true) (ops st) ∧
     let s := stats (manager st) in
     wrap64 (TotalOperations s) = wrap64 (zlen (ops st)) ∧
     wrap64 (ActiveOperations s) = wrap64 (ended_ops is_canceled st) ∧
     wrap64 (ErrorOperations s) = wrap64 (ended_ops is_failure st) ∧
     wrap64 (TotalSocketsCreated s) = wrap64 (zlen (socks st)) ∧
     wrap64 (TotalSocketsClosed s) = wrap64 (zlen (filter (λ t, closed t = true) (socks st))) ∧
     wrap64 (ActiveSockets s) = wrap64 (zlen (filter (λ t, closed t = false) (socks st)))).
Proof.
  intros Hr Hl. pose proof (consistent_run _ _ _ _ Hr Hl) as Hc.
  assert (∀ id, is_Some (operations (manager st) !! id) → 0 < pending (answers_for id) (threads w)) as Hans.
  { intros id Hid. pose proof (con_answer _ _ Hc id Hid). lia. }
  split; [intros p op; by eapply count_ops_place|]. split.
  { intros id Hid. by apply pending_pos, Hans. }
  intros Hq. assert (operations (manager st) = ∅) as He.
  { apply map_eq. intros id. rewrite lookup_empty. destruct (operations (manager st) !! id) as [p|] eqn:Hid; [|done].
    specialize (Hans id (ex_intro _ p Hid)). by rewrite (pending_quiet _ _ Hq) in Hans. }
  split; [done|]. split.
  { apply Forall_lookup. intros p op Hp. pose proof (count_ops_place _ _ _ _ Hc Hp) as H. fold st in H.
    rewrite He, (pending_quiet _ _ Hq) in H. by destruct (completed op). }
  cbn zeta. pose proof (λ q, quiet_counter _ _ q Hc Hq) as H. fold st in H.
  assert (zlen (marks st) = zlen (ops st)) as Hms by (unfold marks; by rewrite length_fmap).
  assert (zlen (flags st) = zlen (socks st)) as Hfs by (unfold flags; by rewrite length_fmap).
  rewrite <- !ended_marks, <- count_closed_flags.
  assert (zlen (filter (λ t, closed t = false) (socks st)) = zlen (socks st) - count_closed (flags st)) as ->.
  { rewrite count_closed_flags. clear. induction (socks st) as [|t l IH]; [done|]. rewrite !filter_cons.
    destruct (closed t) eqn:Hc; repeat first [rewrite decide_True by done|rewrite decide_False by done]; cbn [length]; lia. }
  split_and!; apply wrap64_congr; eapply eq_ind.
  - exact (H QTotal eq_refl).
  - cbn [balance counter_of]. lia.
  - exact (H QActive eq_refl).
  - cbn [balance counter_of]. rewrite He, msize_empty. lia.
  - exact (H QError eq_refl).
  - cbn [balance counter_of]. lia.
  - exact (H QCreated eq_refl).
  - cbn [balance counter_of]. lia.
  - exact (H QClosed eq_refl).
  - cbn [balance counter_of]. lia.
  - exact (H QSockets eq_refl).
  - cbn [balance counter_of]. lia.
Qed.

(** *** Results *)

Lemma sum_over_delete {X} (f : X → Z) l i x : l !! i = Some x → sum_over f l = f x + sum_over f (delete i l).
Proof.
  intros Hi. rewrite <- (take_drop_middle _ _ _ Hi) at 1. rewrite delete_take_drop, !sum_over_app. cbn. lia.
Qed.

(** Ids are never given twice. *)
Lemma unique_ids n w p q m m' : consistent n w →
  marks (shared w) !! p = Some m → marks (shared w) !! q = Some m' → m.1.1 = m'.1.1 → p = q.
Proof.
  intros Hc Hp Hq Heq. destruct m as [[i c] e], m' as [[i' c'] e']. cbn in Heq. subst i'.
  destruct (decide (p = q)) as [|Hne]; [done|]. exfalso.
  pose proof (exact_quantity n w (QId i) Hc eq_refl) as H. cbn [balance] in H.
  change (pending (share (QId i)) (threads w)) with (pending (registers i) (threads w)) in H.
  assert (0 ≤ pending (registers i) (threads w)) as H0.
  { apply sum_over_nonneg. intros t _. apply sum_over_nonneg. intros a _. apply registers_nonneg. }
  pose proof (one_range ((1 <=? i) && (i <=? nextID (manager (shared w))))) as H1. unfold ids in H.
  rewrite (sum_over_delete _ _ p (i, c, e) Hp) in H.
  assert ((i, c', e') ∈ delete p (marks (shared w))) as Hin.
  { destruct (decide (q < p)%nat).
    - apply list_elem_of_lookup. exists q. by rewrite list_lookup_delete_lt by lia.
    - apply list_elem_of_lookup. exists (q - 1)%nat. rewrite list_lookup_delete_ge by lia. replace (S (q - 1)) with q by lia. done. }
  assert (∀ m : mark, m ∈ delete p (marks (shared w)) → 0 ≤ (λ '(j, _, _), one (j =? i)) m) as Hpos by (intros [[? ?] ?] _; apply one_nonneg).
  pose proof (sum_over_in _ _ _ Hpos Hin) as H2. cbn beta iota in H, H2. rewrite Z.eqb_refl in H, H2. cbn [one] in H, H2. lia.
Qed.

(** A script that asks for its operation after the goroutine completed it is told
    that there is none, and the result is lost. *)
Theorem completed_is_not_found testing now es w p op values st' ctx_done :
  run (initial testing now) es = Some w → zlen es < 2 ^ 64 →
  ops (shared w) !! p = Some op → completed op = true →
  handleCosocket values (shared w) st' (op_ID op) ctx_done = [OperationNotFound].
Proof.
  intros Hr Hl Hp Hc. pose proof (consistent_run _ _ _ _ Hr Hl) as Hcon. unfold handleCosocket, GetOperation.
  destruct (operations (manager (shared w)) !! op_ID op) as [q|] eqn:Hq; [|done]. exfalso.
  destruct (con_ops _ _ Hcon _ _ Hq) as (m & Hm & Hi).
  assert (marks (shared w) !! p = Some (op_ID op, true, op_Error op)) as Hmp.
  { unfold marks. rewrite list_lookup_fmap, Hp. cbn. by rewrite Hc. }
  assert (q = p) as -> by by eapply (unique_ids _ _ q p m).
  pose proof (count_ops_place _ _ _ _ Hcon Hp) as H. rewrite Hc in H.
  assert (1 ≤ held_by p (operations (manager (shared w)))) as H1.
  { apply elem_of_map_to_list in Hq. unfold held_by.
    assert (∀ x : Z * nat, x ∈ map_to_list (operations (manager (shared w))) → 0 ≤ (λ '(_, q), one (q =? p)%nat) x) as Hpos
      by (intros [? ?] _; apply one_nonneg).
    pose proof (sum_over_in _ _ _ Hpos Hq) as H1. cbn beta iota in H1. rewrite Nat.eqb_refl in H1. done. }
  assert (0 ≤ pending (finishes p) (threads w)).
  { apply sum_over_nonneg. intros t _. apply sum_over_nonneg. intros a _. apply finishes_nonneg. }
  cbn [one] in H. lia.
Qed.

(** What a completed operation says is final. *)
Definition final (op op' : SocketOperation) : Prop :=
  completed op = true → completed op' = true ∧ op_Result op' = op_Result op ∧ op_Error op' = op_Error op.

Lemma effect_final a st st' before started p op :
  effect st a st' before started → ops st !! p = Some op → ∃ op', ops st' !! p = Some op' ∧ final op op'.
Proof.
  intros He Hp. assert (final op op) as Hf by done.
  destruct He as [| |? ? ? ? ? ? ? Hm Ho| | | | | | |? ? ? Hs|? ? ? ? ? Hs]; try (by exists op).
  - exists op. split; [|done]. rewrite Ho. by apply lookup_app_l_Some.
  - cbn. rewrite list_lookup_alter. case_decide as Hpp; [subst|by exists op]. rewrite Hp. cbn.
    eexists. split; [done|]. intros Hc. unfold op_Complete. by rewrite Hc.
  - exists op. by rewrite (same_ops _ _ Hs).
  - exists op. by rewrite (same_ops _ _ Hs).
Qed.

Lemma act_final c st st' started p op : act c st = Some (st', started) → ops st !! p = Some op → ∃ op', ops st' !! p = Some op' ∧ final op op'.
Proof.
  intros Ha Hp. assert (final op op) as Hf by done.
  destruct c; cbn [act] in Ha; repeat case_match; simplify_eq; try (by exists op).
  cbn. rewrite list_lookup_alter. case_decide as Hpp; [subst|by exists op]. rewrite Hp. cbn. by eexists.
Qed.

(** Once a script can read a result, every later reading gives the same. *)
Theorem results_are_final testing now es es' w w' p op :
  run (initial testing now) es = Some w → run w es' = Some w' → zlen (es ++ es') < 2 ^ 64 →
  ops (shared w) !! p = Some op → completed op = true →
  ∃ op', ops (shared w') !! p = Some op' ∧ ∀ ctx_done, (op_Result op, op_Error op) ∈ Wait op' ctx_done.
Proof.
  intros Hr Hr' Hl Hp Hc.
  enough (∃ op', ops (shared w') !! p = Some op' ∧ final op op') as (op' & Hp' & Hf).
  { exists op'. split; [done|]. intros ctx. destruct (Hf Hc) as (H1 & H2 & H3). unfold Wait. rewrite H1, H2, H3. left. }
  clear Hc. rewrite length_app in Hl. assert (consistent (length es) w) as Hcon by (eapply consistent_run; [done|lia]).
  clear Hr. revert w op Hr' Hp Hcon. generalize (length es) Hl. clear Hl. induction es' as [|e es' IH]; intros n Hl w op Hr Hp Hcon.
  - injection Hr as <-. exists op. by split.
  - cbn [run] in Hr. apply bind_Some in Hr as (w1 & Hs & Hr). cbn [length] in Hl.
    assert (consistent (S n) w1) as Hcon1 by (eapply consistent_step; [done|lia|done]).
    assert (∃ op1, ops (shared w1) !! p = Some op1 ∧ final op op1) as (op1 & Hp1 & Hf1).
    { destruct e as [k o|c]; cbn [step] in Hs.
      - apply bind_Some in Hs as ([|a rest] & Hk & Hs); [done|]. apply bind_Some in Hs as ([[st' before] started] & Hrs & [= <-]).
        pose proof (Forall_lookup_1 _ _ _ _ (con_sections _ _ Hcon) Hk) as [Ha _]%Forall_cons.
        eapply effect_final; [|done]. eapply section_effect; [done|exact Hrs].
      - apply bind_Some in Hs as ([st' started] & Ha & [= <-]). by eapply act_final. }
    destruct (IH (S n) ltac:(lia) w1 op1 Hr Hp1 Hcon1) as (op' & Hp' & Hf'). exists op'. split; [done|].
    intros H. destruct (Hf1 H) as (H1 & H2 & H3). destruct (Hf' H1) as (H4 & H5 & H6). by rewrite H5, H6.
Qed.
End Conserved.

(** ** What scripts can reach *)

Section Guard.
Context (range : gmap Z nat → list (Z * nat)).
#[local] Instance guarded : Machine state section answer call := sockets range.

(** The guard knows addresses by their bytes; the nil address has none. *)
Definition admitted (addr : IP * Z) : Prop := addr.1 = [] ∨ isRestrictedIP addr.1 = false.

Definition plan_ok (pl : plan) : Prop := match pl with PConnect addr => admitted addr | _ => True end.
Definition section_ok (a : section) : Prop :=
  match a with
  | SGuard _ _ addr | SDial _ _ addr => admitted addr
  | SAllocate _ pl _ | SRegister _ pl _ _ _ | SCurrent _ pl _ _ | SSpawn _ pl _ => plan_ok pl
  | _ => True
  end.

Record guarded_state (st : state) : Prop := mkGuarded {
  g_on : DisableSSRFGuard (manager st) = false;
  g_peers : Forall (λ c, admitted (peer c)) (conns st) }.

Lemma admitted_denied m addr : DisableSSRFGuard m = false → addr.1 ≠ [] ∧ denied m addr.1 = true ∨ admitted addr.
Proof.
  intros Hg. unfold denied, admitted. rewrite Hg. cbn. destruct (isRestrictedIP addr.1); [|auto].
  destruct (decide (addr.1 = [])); auto.
Qed.

Ltac foralls := repeat first [apply Forall_nil_2|apply Forall_cons_2]; try done.
Ltac guard_step := split; [by split|split; foralls].

Lemma section_guarded a o st st' before started :
  run_section range a o st = Some (st', before, started) → guarded_state st → section_ok a →
  guarded_state st' ∧ Forall section_ok before ∧ Forall (Forall section_ok) started.
Proof.
  intros Hs [Hg Hp] Ha. destruct a; cbn [run_section] in Hs; unfold locking, connected, fail, after_current in Hs; cbn zeta in Hs.
  all: try (destruct (socks st !! _) as [t|] eqn:Ht; cbn [mbind option_bind] in Hs; [|done]).
  all: try (destruct (locked t) eqn:Hl; [done|]).
  all: try by (simplify_eq; guard_step).
  all: try by (repeat case_match; simplify_eq; guard_step).
  - destruct (admitted_denied (manager st) (TCPAddr host port) Hg) as [[Hn Hd]|Hok].
    + rewrite Hd, bool_decide_true in Hs by done. cbn in Hs. simplify_eq. guard_step.
    + case_match; simplify_eq; guard_step.
  - unfold ResolveTCPAddr in Hs. repeat case_match; simplify_eq; guard_step. by left.
  - destruct o; try done; simplify_eq; [guard_step|]. split; [|split; foralls]. split; [done|]. cbn.
    apply Forall_app. split; [done|]. foralls.
  - destruct pl; simplify_eq; guard_step.
  - destruct (decide (pattern = [])); [simplify_eq; guard_step|].
    destruct (socks st !! s) as [t|]; cbn [mbind option_bind] in Hs; repeat case_match; simplify_eq; guard_step.
  - simplify_eq. split; [|split; foralls]. destruct (sock_conn t) as [c|]; [|by split]. split; [done|]. cbn.
    apply Forall_alter; [done|]. intros k Hk Hx. exact Hx.
  - simplify_eq. split; [by split|]. split; [|constructor]. generalize (overdue range st'). intros l.
    induction l; cbn; foralls.
  - simplify_eq. split; [by split|]. split; [|constructor]. apply Forall_fmap, Forall_true. by intros [].
Qed.

Lemma act_guarded c st st' started :
  act c st = Some (st', started) → guarded_state st → guarded_state st' ∧ Forall (Forall section_ok) started.
Proof.
  intros Ha [Hg Hp]. destruct c; cbn [act] in Ha; repeat case_match; simplify_eq; (split; [by split|foralls; foralls]).
Qed.

Lemma guarded_step w e w' :
  step w e = Some w' → guarded_state (shared w) → Forall (Forall section_ok) (threads w) →
  guarded_state (shared w') ∧ Forall (Forall section_ok) (threads w').
Proof.
  intros Hs Hg Hf. destruct e as [k o|c]; cbn [step] in Hs.
  - apply bind_Some in Hs as ([|a rest] & Hk & Hs); [done|]. apply bind_Some in Hs as ([[st' before] started] & Hr & [= <-]).
    pose proof (Forall_lookup_1 _ _ _ _ Hf Hk) as [Ha Hrest]%Forall_cons.
    destruct (section_guarded _ _ _ _ _ _ Hr Hg Ha) as (H1 & H2 & H3). split; [done|]. cbn [threads].
    apply Forall_app. split; [|done]. apply Forall_insert; [done|]. by apply Forall_app.
  - apply bind_Some in Hs as ([st' started] & Ha & [= <-]). destruct (act_guarded _ _ _ _ Ha Hg). split; [done|].
    cbn [threads]. by apply Forall_app.
Qed.

(** C19: With the guard on, every connection a script ever gets is to an address written as
    such that is not restricted, or to the nil address, which is the local system. *)
Theorem dialed_unrestricted now es w c :
  run (initial false now) es = Some w → c ∈ conns (shared w) →
  (peer c).1 = [] ∨ isRestrictedIP (peer c).1 = false.
Proof.
  intros Hr Hc.
  pose proof (run_ind (λ _ w, guarded_state (shared w) ∧ Forall (Forall section_ok) (threads w))) as H.
  assert (guarded_state (shared w)) as [_ Hp]; [|by eapply (proj1 (Forall_forall _ _) Hp)].
  apply (H ltac:(intros _ w1 e w2 [Hg Hf] Hs; exact (guarded_step w1 e w2 Hs Hg Hf)) es 0%nat (initial false now) w); [|done].
  split; [by split|constructor].
Qed.
End Guard.

(** A host name is dropped: what is dialed is the local system, whatever the name, and
    the guard lets it pass. *)
Theorem host_names_dial_local m host port :
  ParseIP host = None → 0 ≤ port ≤ 65535 →
  TCPAddr host port = ([], port) ∧ ResolveTCPAddr port = Some ([], port) ∧ denied m [] = false.
Proof.
  intros Hh Hp. unfold TCPAddr, ResolveTCPAddr, denied. rewrite Hh.
  rewrite (proj2 (Z.leb_le _ _)), (proj2 (Z.leb_le _ _)) by lia. split_and!; [done..|]. apply andb_false_r.
Qed.

(** ** The guard as a list of networks *)

Definition restricted_networks : list IPNet :=
  omap ParseCIDR [go!"127.0.0.0/8"; go!"10.0.0.0/8"; go!"172.16.0.0/12"; go!"192.168.0.0/16"; go!"169.254.0.0/16"; go!"224.0.0.0/24"; go!"0.0.0.0/32"].

Lemma byte_land_255 x : is_byte x → Z.land x 255 = x.
Proof. intros Hx. change 255 with (Z.ones 8). rewrite Z.land_ones by done. apply Z.mod_small. unfold is_byte in Hx. lia. Qed.

Definition restricted_list : list IPNet := Eval vm_compute in restricted_networks.

Lemma unspecified_v4 a b c d :
  IsUnspecified (IPv4 a b c d) = (a =? 0) && (b =? 0) && (c =? 0) && (d =? 0).
Proof.
  assert (ip_Equal (IPv4 a b c d) IPv6unspecified = false) as H6 by by apply bool_decide_eq_false_2.
  unfold IsUnspecified. rewrite H6, orb_false_r. change (ip_Equal _ _) with (bool_decide (IPv4 a b c d = IPv4 0 0 0 0)).
  apply eq_true_iff_eq. rewrite bool_decide_eq_true, !andb_true_iff, !Z.eqb_eq. split; [by intros [= -> -> -> ->]|].
  by intros [[[-> ->] ->] ->].
Qed.

(** On IPv4 the guard is these seven networks. *)
Theorem restricted_v4 a b c d :
  is_byte a → is_byte b → is_byte c → is_byte d →
  isRestrictedIP (IPv4 a b c d) = IPInAllowList (IPv4 a b c d) restricted_networks.
Proof.
  intros Ha Hb Hc Hd. assert (To4 (IPv4 a b c d) = Some [a; b; c; d]) as H4 by done.
  unfold isRestrictedIP, IsLoopback, IsPrivate, IsLinkLocalUnicast, IsLinkLocalMulticast. rewrite unspecified_v4, H4. cbn [nth].
  change restricted_networks with restricted_list. unfold IPInAllowList, restricted_list. cbn [existsb].
  unfold Contains. rewrite H4.
  repeat match goal with |- context [networkNumberAndMask ?n] =>
    let x := eval vm_compute in (networkNumberAndMask n) in change (networkNumberAndMask n) with x end.
  change (default (IPv4 a b c d) (Some [a; b; c; d])) with [a; b; c; d]. unfold mask_eqb.
  cbn [length Nat.eqb andb zip zip_with forallb]. rewrite !Z.land_0_r, !byte_land_255 by done.
  change (Z.land 172 255) with 172. change (Z.land 16 240) with 16.
  repeat match goal with |- context [Z.land (Zpos ?x) 255] => change (Z.land (Zpos x) 255) with (Zpos x) end.
  change (Z.land 0 255) with 0. rewrite !(Z.eqb_sym _ a), !(Z.eqb_sym _ b), !(Z.eqb_sym _ c), !(Z.eqb_sym _ d), (Z.eqb_sym 16).
  cbn [andb]. rewrite !andb_true_r, !orb_false_r. 
  by rewrite <- !orb_assoc, <- !andb_assoc.
Qed.

(** ** Reading up to a pattern *)

(** The bytes that the reads gave. *)
Definition read_bytes (evs : list read_event) : gostring :=
  evs ≫= (λ ev, match ev with RByte c => [c] | _ => [] end).

Lemma ends_with_spec r p : ends_with r p = true ↔ p `suffix_of` r.
Proof.
  unfold ends_with. rewrite andb_true_iff, Nat.leb_le, bool_decide_eq_true. split.
  - intros [Hl Hd]. exists (take (length r - length p) r). rewrite <- Hd at 2. by rewrite take_drop.
  - intros [k ->]. rewrite length_app. split; [lia|]. replace (length k + length p - length p)%nat with (length k) by lia.
    by rewrite drop_app_length.
Qed.

(** How the loop ended: with the last answer it took. *)
Definition until_outcome (pattern : gostring) (inclusive : bool) (last : read_event) (read bs : gostring) (e : option sock_error) : Prop :=
  match last with
  | RByte c =>
      if ends_with read pattern then e = None ∧ read = bs ++ (if inclusive then [] else pattern)
      else e = Some TooLong ∧ bs = read ∧ until_limit < zlen read
  | REOF => e = None ∧ bs = read
  | RError => e = Some ReadFailed ∧ bs = read
  | RNothing => False
  end.

Lemma until_loop_from pattern inclusive evs result bs e rest :
  until_loop pattern inclusive evs result = Some (bs, e, rest) → zlen result ≤ until_limit →
  ∃ consumed last, evs = consumed ++ last :: rest ∧ zlen (result ++ read_bytes consumed) ≤ until_limit ∧
    (∀ r, r `prefix_of` read_bytes consumed → r ≠ [] → ¬ pattern `suffix_of` result ++ r) ∧
    until_outcome pattern inclusive last (result ++ read_bytes (consumed ++ [last])) bs e.
Proof.
  revert result. induction evs as [|ev evs IH]; intros result Hu Hl; [done|].
  assert (∀ r : gostring, r `prefix_of` [] → r ≠ [] → ¬ pattern `suffix_of` result ++ r) as Hnil.
  { intros r Hr Hne. by apply prefix_nil_inv in Hr. }
  destruct ev as [c| | |]; cbn [until_loop] in Hu.
  - destruct (ends_with (result ++ [c]) pattern) eqn:He.
    + injection Hu as <- <- <-. exists [], (RByte c). split; [done|]. cbn. rewrite app_nil_r, He. split_and!; [done|done|done|].
      apply ends_with_spec in He as [k Hk]. destruct inclusive; [by rewrite app_nil_r|]. rewrite Hk, length_app.
      replace (length k + length pattern - length pattern)%nat with (length k) by lia. by rewrite take_app_length.
    + destruct (until_limit <? zlen (result ++ [c])) eqn:Hlim.
      * injection Hu as <- <- <-. exists [], (RByte c). split; [done|]. cbn. rewrite app_nil_r, He. apply Z.ltb_lt in Hlim. done.
      * apply Z.ltb_ge in Hlim. destruct (IH _ Hu Hlim) as (consumed & last & -> & Hle & Hno & Hout).
        exists (RByte c :: consumed), last. split; [done|]. change (read_bytes (RByte c :: consumed)) with (c :: read_bytes consumed).
        change (read_bytes ((RByte c :: consumed) ++ [last])) with (c :: read_bytes (consumed ++ [last])).
        rewrite <- !app_assoc in *. cbn [app] in *. split_and!; [done| |done].
        intros [|c' r] Hr Hne; [done|]. apply prefix_cons_inv_1 in Hr as Hc. apply prefix_cons_inv_2 in Hr. subst c'.
        destruct (decide (r = [])) as [->|Hr0].
        -- rewrite <- ends_with_spec. by rewrite He.
        -- specialize (Hno r Hr Hr0). by rewrite <- app_assoc in Hno.
  - destruct (IH _ Hu Hl) as (consumed & last & -> & Hle & Hno & Hout). by exists (RNothing :: consumed), last.
  - injection Hu as <- <- <-. exists [], REOF. split; [done|]. cbn. rewrite app_nil_r. done.
  - injection Hu as <- <- <-. exists [], RError. split; [done|]. cbn. rewrite app_nil_r. done.
Qed.

(** Reading ends when the connection does or the bound is passed.  It stops at the
    first answer after which what was read ends with the pattern, and gives what was
    read, without the pattern unless it is wanted; or when the connection ends, with
    what was read and no error at its end, though the pattern never came; or with an
    error one byte past the bound. *)
Theorem receive_until_first pattern inclusive evs :
  Exists (λ ev, ev = REOF ∨ ev = RError) evs ∨ until_limit < zlen (read_bytes evs) →
  ∃ bs e consumed last rest,
    until_loop pattern inclusive evs [] = Some (bs, e, rest) ∧ evs = consumed ++ last :: rest ∧
    zlen (read_bytes consumed) ≤ until_limit ∧
    (∀ r, r `prefix_of` read_bytes consumed → r ≠ [] → ¬ pattern `suffix_of` r) ∧
    until_outcome pattern inclusive last (read_bytes (consumed ++ [last])) bs e.
Proof.
  intros Hend.
  assert (∀ evs result, zlen result ≤ until_limit →
    Exists (λ ev, ev = REOF ∨ ev = RError) evs ∨ until_limit < zlen (result ++ read_bytes evs) →
    is_Some (until_loop pattern inclusive evs result)) as Htot.
  { clear. induction evs as [|ev evs IH]; intros result Hl [He|He].
    - by apply Exists_nil in He.
    - cbn in He. rewrite app_nil_r in He. lia.
    - destruct ev as [c| | |]; cbn; try by eexists.
      + repeat case_match; try by eexists. bool_to_prop. apply IH; [done|]. left. apply Exists_cons in He as [[|]|]; done.
      + apply IH; [done|]. left. apply Exists_cons in He as [[|]|]; done.
    - destruct ev as [c| | |]; cbn; try by eexists.
      + repeat case_match; try by eexists. bool_to_prop. apply IH; [done|]. right. by rewrite <- app_assoc.
      + apply IH; [done|]. by right. }
  destruct (Htot evs [] ltac:(done) Hend) as [[[bs e] rest] Hu].
  destruct (until_loop_from pattern inclusive evs [] bs e rest Hu ltac:(done)) as (consumed & last & H1 & H2 & H3 & H4).
  by exists bs, e, consumed, last, rest.
Qed.

(** ** Examples *)

Section Examples.
#[local] Instance example : Machine state section answer call := sockets map_to_list.

Definition runs (k n : nat) : list (event answer call) := replicate n (Run k ANone).

(** A socket is made and connected to an address. *)
Definition ex_connect (host : gostring) (o : answer) (n : nat) : list (event answer call) :=
  [Act NewSocket] ++ runs 0 2 ++ [Act (tcpSocketConnect 0 host 80 None)] ++ runs 1 10 ++ [Run 2 ANone; Run 2 o] ++ runs 2 n.

Definition ex_world (es : list (event answer call)) : option (world state section) := run (initial false 0) es.

Definition ex_socket (es : list (event answer call)) : option (SocketState * bool * list Connection) :=
  w ← ex_world es; t ← socks (shared w) !! 0%nat; Some (sock_state t, closed t, conns (shared w)).

(** A public address is reached; so is the local system, under any name. *)
Lemma ex_reached :
  ex_socket (ex_connect (go!"93.184.216.34") ADone 5) =
    Some (Connected, false, [mkConnection (IPv4 93 184 216 34, 80) true]) ∧
  ex_socket (ex_connect (go!"internal.example") ADone 5) = Some (Connected, false, [mkConnection ([], 80) true]).
Proof. split; by vm_compute. Qed.

(** A socket whose sending failed is connected again as soon as the goroutine ends. *)
Lemma failed_send_stays_connected :
  let es := ex_connect (go!"93.184.216.34") ADone 5 ++ [Act (tcpSocketSend 0 (go!"ping") None)] ++ runs 3 9 ++ [Run 4 (AFail 0); Run 4 ANone] in
  (λ x, x.1.1) <$> ex_socket es = Some StateError ∧ (λ x, x.1.1) <$> ex_socket (es ++ runs 4 6) = Some Connected.
Proof. split; by vm_compute. Qed.

(** A socket that is closed while it connects is connected afterwards, with a
    connection that nothing closes any more. *)
Lemma closed_socket_connects :
  ex_socket ([Act NewSocket] ++ runs 0 2 ++ [Act (tcpSocketConnect 0 (go!"93.184.216.34") 80 None)] ++ runs 1 10 ++ [Run 2 ANone; Run 2 ADone]
             ++ [Act (tcpSocketClose 0)] ++ runs 3 12 ++ runs 2 3) =
    Some (Connected, true, [mkConnection (IPv4 93 184 216 34, 80) true]).
Proof. by vm_compute. Qed.

(** Closing the manager does not count the operations out that it cancels. *)
Definition ex_cancelled : list (event answer call) :=
  [Act NewSocket] ++ runs 0 2 ++ [Act (tcpSocketConnect 0 (go!"93.184.216.34") 80 None)] ++ runs 1 10 ++
  [Act CloseManager] ++ runs 3 2 ++ [Run 2 ANone; Run 2 (AFail 0)] ++ runs 2 3.

Definition ex_reached_events : list (event answer call) := ex_connect (go!"93.184.216.34") ADone 5.
Definition ex_operation : SocketOperation := mkOp 1 OpConnect Idle 0 30000000000 0 0 (RConn 0) None true.

Lemma ex_cancelled_run : ∃ w, run (M := machine map_to_list) (initial false 0) ex_cancelled = Some w ∧ quiet w ∧ ended_ops is_canceled (shared w) = 1.
Proof.
  destruct (run (M := machine map_to_list) (initial false 0) ex_cancelled) as [w|] eqn:Hw.
  - exists w. split; [done|]. split.
    + unfold quiet. rewrite (fmap_known threads _ w [[]; []; []; []] Hw); [by repeat constructor|by vm_compute].
    + apply (fmap_known (ended_ops is_canceled ∘ shared) _ w 1 Hw). by vm_compute.
  - assert ((λ _, tt) <$> run (M := machine map_to_list) (initial false 0) ex_cancelled = Some tt) as Hx by by vm_compute.
    by rewrite Hw in Hx.
Qed.

Lemma ex_reached_run :
  ∃ w, run (M := machine map_to_list) (initial false 0) ex_reached_events = Some w ∧
    conns (shared w) = [mkConnection (IPv4 93 184 216 34, 80) true] ∧ ops (shared w) = [ex_operation].
Proof.
  destruct (run (M := machine map_to_list) (initial false 0) ex_reached_events) as [w|] eqn:Hw.
  - exists w. split; [done|]. split.
    + apply (fmap_known (conns ∘ shared) _ w _ Hw). by vm_compute.
    + apply (fmap_known (ops ∘ shared) _ w _ Hw). by vm_compute.
  - assert ((λ _, tt) <$> run (M := machine map_to_list) (initial false 0) ex_reached_events = Some tt) as Hx by by vm_compute.
    by rewrite Hw in Hx.
Qed.

(** After a connection attempt that the closing of the manager cancelled nothing runs
    any more, and one operation still counts as active. *)
Lemma operations_conserved_witness :
  ∃ w, run (M := machine map_to_list) (initial false 0) ex_cancelled = Some w ∧ operations (manager (shared w)) = ∅ ∧
    wrap64 (ActiveOperations (stats (manager (shared w)))) = wrap64 1.
Proof.
  destruct ex_cancelled_run as (w & Hw & Hq & Hc). exists w. split; [exact Hw|].
  destruct (operations_conserved map_to_list (λ _, reflexivity _) false 0 ex_cancelled w Hw ltac:(vm_compute; reflexivity)) as (_ & _ & H).
  destruct (H Hq) as (He & _ & _ & Ha & _). split; [exact He|]. rewrite Ha, Hc. reflexivity.
Defined.

Lemma dialed_unrestricted_witness :
  ∃ w c, run (M := guarded map_to_list) (initial false 0) ex_reached_events = Some w ∧
    c ∈ conns (shared w) ∧ ((peer c).1 = [] ∨ isRestrictedIP (peer c).1 = false).
Proof.
  destruct ex_reached_run as (w & Hw & Hc & _). change (machine map_to_list) with (guarded map_to_list) in Hw.
  exists w, (mkConnection (IPv4 93 184 216 34, 80) true). split; [exact Hw|].
  assert (mkConnection (IPv4 93 184 216 34, 80) true ∈ conns (shared w)) as Hin by (rewrite Hc; left).
  split; [exact Hin|]. exact (dialed_unrestricted map_to_list 0 ex_reached_events w _ Hw Hin).
Defined.

(** The result of a finished attempt is there, and is not found. *)
Lemma completed_is_not_found_witness :
  ∃ w, run (M := machine map_to_list) (initial false 0) ex_reached_events = Some w ∧ ops (shared w) = [ex_operation] ∧
    handleCosocket connect_values (shared w) (shared w) 1 None = [OperationNotFound].
Proof.
  destruct ex_reached_run as (w & Hw & _ & Ho). exists w. split; [exact Hw|]. split; [exact Ho|].
  apply (completed_is_not_found map_to_list (λ _, reflexivity _) false 0 ex_reached_events w 0 ex_operation _ _ None Hw);
    [vm_compute; reflexivity|rewrite Ho; reflexivity|reflexivity].
Defined.

Definition ex_reads : list read_event := [RByte "a"; RNothing; RByte "010"; RByte "b"; REOF]%char.

Lemma receive_until_first_witness :
  Exists (λ ev, ev = REOF ∨ ev = RError) ex_reads ∧
  ∃ bs e consumed last rest,
    until_loop ["010"%char] false ex_reads [] = Some (bs, e, rest) ∧ ex_reads = consumed ++ last :: rest ∧ bs = go!"a" ∧ e = None.
Proof.
  assert (Exists (λ ev, ev = REOF ∨ ev = RError) ex_reads) as He.
  { right. right. right. right. left. by left. }
  split; [exact He|].
  destruct (receive_until_first ["010"%char] false ex_reads (or_introl He)) as (bs & e & consumed & last & rest & H1 & H2 & _).
  exists bs, e, consumed, last, rest. split; [exact H1|]. split; [exact H2|].
  vm_compute in H1. injection H1 as <- <- _. by split.
Defined.
End Examples.
