(* ===== verification/Timers.v ===== *)
(** * Timers: the timers of scripts

    [src/internal/lua/api_timer.go]: [ngx.timer.at] arms a timer, whose expiry puts its
    callback in a queue from which one scheduler runs the callbacks, each in the state
    of its own; timers are cancelled by their handle, waited for, and given up when the
    manager is closed.  The machine is one of Threads; a pointer to a timer is its place
    in the list of those made.  What a callback does is left to its script.

    Shown: under every interleaving a callback runs at most once and never when its
    timer was cancelled before it expired, the callbacks run in the order in which they
    were queued, the queue keeps within its capacity, and the count of active timers is
    that of the timers that are armed or expiring ([timers_conserved], [queue_order]). *)

From S2P Require Import Prelude GoStrings Threads.

(** A compiled function, with the number of variables it captures. *)
Record FunctionProto := mkProto { proto_code : nat; NumUpvalues : Z }.

(** [armed]: the [time.AfterFunc] has not fired. *)
Record TimerEntry := mkEntry {
  te_id : Z; te_delay : Z; callbackProto : option FunctionProto; te_cancel : bool; te_done : bool;
  armed : bool; deadline : Z }.

Record TimerManager := mkManager {
  timers : gmap Z nat; callbackQueue : list nat; queueClosed : bool; schedulerDone : bool; schedulerL : bool;
  nextID : Z; active : Z; stopping : bool }.

(** The manager, the timers made, the callbacks that have run, whether the process has
    panicked, and the clock. *)
Record state := mkState {
  manager : TimerManager; entries : list TimerEntry; executed : list nat; panicked : bool; clock : Z }.

Definition queue_capacity : nat := Z.to_nat 1024.

Definition NewTimerManager : TimerManager := mkManager ∅ [] false false true 0 0 false.

Definition on_manager (f : TimerManager → TimerManager) (s : state) : state :=
  mkState (f (manager s)) (entries s) (executed s) (panicked s) (clock s).
Definition on_entry (p : nat) (f : TimerEntry → TimerEntry) (s : state) : state :=
  mkState (manager s) (alter f p (entries s)) (executed s) (panicked s) (clock s).
Definition panic (s : state) : state := mkState (manager s) (entries s) (executed s) true (clock s).

Definition with_timers (t : gmap Z nat) (m : TimerManager) : TimerManager :=
  mkManager t (callbackQueue m) (queueClosed m) (schedulerDone m) (schedulerL m) (nextID m) (active m) (stopping m).
Definition with_queue (q : list nat) (m : TimerManager) : TimerManager :=
  mkManager (timers m) q (queueClosed m) (schedulerDone m) (schedulerL m) (nextID m) (active m) (stopping m).
Definition close_queue (m : TimerManager) : TimerManager :=
  mkManager (timers m) (callbackQueue m) true (schedulerDone m) (schedulerL m) (nextID m) (active m) (stopping m).
Definition scheduler_done (m : TimerManager) : TimerManager :=
  mkManager (timers m) (callbackQueue m) (queueClosed m) true (schedulerL m) (nextID m) (active m) (stopping m).
Definition close_state (m : TimerManager) : TimerManager :=
  mkManager (timers m) (callbackQueue m) (queueClosed m) (schedulerDone m) false (nextID m) (active m) (stopping m).
Definition with_nextID (n : Z) (m : TimerManager) : TimerManager :=
  mkManager (timers m) (callbackQueue m) (queueClosed m) (schedulerDone m) (schedulerL m) n (active m) (stopping m).
(** [active.Add(d)] on an [atomic.Int32]. *)
Definition add_active (d : Z) (m : TimerManager) : TimerManager :=
  mkManager (timers m) (callbackQueue m) (queueClosed m) (schedulerDone m) (schedulerL m) (nextID m) (swrap32 (active m + d)) (stopping m).
Definition stop (m : TimerManager) : TimerManager :=
  mkManager (timers m) (callbackQueue m) (queueClosed m) (schedulerDone m) (schedulerL m) (nextID m) (active m) true.

Definition cancel_entry (e : TimerEntry) : TimerEntry :=
  mkEntry (te_id e) (te_delay e) (callbackProto e) true (te_done e) (armed e) (deadline e).
Definition fire_entry (e : TimerEntry) : TimerEntry :=
  mkEntry (te_id e) (te_delay e) (callbackProto e) (te_cancel e) (te_done e) false (deadline e).
Definition done_entry (e : TimerEntry) : TimerEntry :=
  mkEntry (te_id e) (te_delay e) (callbackProto e) (te_cancel e) true (armed e) (deadline e).

Inductive returns := Handle (id : Z) | ShuttingDown | CapturesUpvalues | Result (b : bool) | Nothing.

Inductive section :=
  (* [At] *)
  | TAt (delay : Z) (proto : option FunctionProto) | TCreate (delay : Z) (proto : option FunctionProto)
  (* [executeTimer] *)
  | TExpired (p : nat) | TForget (p : nat) | TEnqueue (p : nat) | TCountOut (p : nat) | TDone (p : nat)
  (* [schedulerLoop] *)
  | TSchedule | TCall (p : nat) | TSchedulerDone
  (* [Cancel], [WaitAll] *)
  | TCancel (id : Z) | TWaitAll (timeout : Z) | TWait (start timeout : Z) | TCancelAll
  (* [Close], [gracefulShutdown] *)
  | TClose | TStop | TCloseQueue (timeout : Z) | TAwait (start timeout : Z) | TCloseState
  | TReturn (r : returns).

(** [executeTimer] with its deferred [active.Add(-1)] and [close(done)]. *)
Definition executeTimer (p : nat) : list section := [TExpired p; TCountOut p; TDone p].

(** [gracefulShutdown]: the queue is closed, then the scheduler awaited. *)
Definition gracefulShutdown (timeout : Z) : list section := [TCloseQueue timeout].

Definition run_section (a : section) (o : unit) (st : state) : option (state * list section * list (list section)) :=
  let m := manager st in
  let ok st' before : option (state * list section * list (list section)) := Some (st', before, []) in
  if panicked st then None else
  match a with
  | TAt delay proto => ok st (if stopping m then [TReturn ShuttingDown] else [TCreate delay proto])
  | TCreate delay proto =>
      let id := wrap64 (nextID m + 1) in
      let m := with_nextID id m in
      if match proto with Some f => 0 <? NumUpvalues f | None => false end then
        ok (on_manager (λ _, m) st) [TReturn CapturesUpvalues]
      else
        let e := mkEntry id delay proto false false true (clock st + delay) in
        ok (mkState (add_active 1 (with_timers (<[id := length (entries st)]> (timers m)) m)) (entries st ++ [e])
              (executed st) (panicked st) (clock st)) [TReturn (Handle id)]
  | TExpired p =>
      e ← entries st !! p;
      ok st (if te_cancel e then [] else TForget p :: (match callbackProto e with Some _ => [TEnqueue p] | None => [] end))
  | TForget p => e ← entries st !! p; ok (on_manager (with_timers (delete (te_id e) (timers m))) st) []
  | TEnqueue p =>
      if queueClosed m then ok st []
      else if (length (callbackQueue m) <? queue_capacity)%nat then ok (on_manager (with_queue (callbackQueue m ++ [p])) st) []
      else ok st []
  | TCountOut _ => ok (on_manager (add_active (-1)) st) []
  | TDone p => ok (on_entry p done_entry st) []
  | TSchedule =>
      match callbackQueue m with
      | p :: q => ok (on_manager (with_queue q) st) [TCall p; TSchedule]
      | [] => if queueClosed m then ok st [TSchedulerDone] else None
      end
  | TCall p =>
      if schedulerL m then ok (mkState m (entries st) (executed st ++ [p]) (panicked st) (clock st)) []
      else ok (panic st) []
  | TSchedulerDone => ok (on_manager scheduler_done st) []
  | TCancel id =>
      match timers m !! id with
      | None => ok st [TReturn (Result false)]
      | Some p => ok (on_entry p cancel_entry (on_manager (with_timers (delete id (timers m))) st)) [TReturn (Result true)]
      end
  | TWaitAll timeout => ok (on_manager stop st) [TWait (clock st) timeout]
  | TWait start timeout =>
      if 0 <? active m then
        if timeout <? time_sub (clock st) start then ok st [TCancelAll; TReturn (Result false)] else ok st [TWait start timeout]
      else ok st [TReturn (Result true)]
  | TCancelAll =>
      ok (mkState (with_timers ∅ m) (imap (λ p e, if decide (p ∈ (map_to_list (timers m)).*2) then cancel_entry e else e) (entries st))
            (executed st) (panicked st) (clock st)) []
  | TClose => ok st (if stopping m then [] else TStop :: gracefulShutdown (5 * second) ++ [TCloseState])
  | TStop => ok (on_manager stop st) []
  | TCloseQueue timeout =>
      if queueClosed m then ok (panic st) [] else ok (on_manager close_queue st) [TAwait (clock st) timeout]
  | TAwait start timeout => if schedulerDone m || (timeout <=? clock st - start) then ok st [] else None
  | TCloseState => ok (on_manager close_state st) []
  | TReturn _ => ok st []
  end.

(** Scripts call, timers expire, the clock ticks.  [ngx.timer.at] takes seconds, with
    their fraction cut off; a delay below a second is none. *)
Inductive call :=
  | At (seconds : Z) (proto : option FunctionProto) | Cancel (id : Z) | WaitAll (timeout : Z) | Close
  | Expire (p : nat) | Elapse (d : Z).

Definition act (c : call) (st : state) : option (state * list (list section)) :=
  match c with
  | At seconds proto => Some (st, [[TAt (swrap64 (seconds * second)) proto]])
  | Cancel id => Some (st, [[TCancel id]])
  | WaitAll timeout => Some (st, [[TWaitAll timeout]])
  | Close => Some (st, [[TClose]])
  | Expire p =>
      e ← entries st !! p;
      if armed e && (deadline e <=? clock st) then Some (on_entry p fire_entry st, [executeTimer p]) else None
  | Elapse d => if 0 <=? d then Some (mkState (manager st) (entries st) (executed st) (panicked st) (clock st + d), []) else None
  end.

#[export] Instance timer_machine : Machine state section unit call := {| Threads.run_section := run_section; Threads.act := act |}.

(** [NewTimerManager] starts the scheduler, the first goroutine. *)
Definition initial (now : Z) : world state section := mkWorld (mkState NewTimerManager [] [] false now) [[TSchedule]].

Definition ActiveCount (m : TimerManager) : Z := active m.

(** ** [uint64ToStr] *)

Definition uint64ToStr (n : Z) : gostring := if n =? 0 then go!"0" else reverse (rev_digits 20 n []).

(** ** Where a callback is *)

Definition count (p : nat) (l : list nat) : Z := sum_over (λ q, one (q =? p)%nat) l.
Definition armed_at (p : nat) (es : list TimerEntry) : Z := match es !! p with Some e => one (armed e) | None => 0 end.
Definition armed_count (es : list TimerEntry) : Z := sum_over (λ e, one (armed e)) es.

(** The sections that hold the callback of a timer. *)
Definition expiring (p : nat) (a : section) : Z := match a with TExpired q => one (q =? p)%nat | _ => 0 end.
Definition queueing (p : nat) (a : section) : Z := match a with TEnqueue q | TCall q => one (q =? p)%nat | _ => 0 end.
Definition counted (a : section) : Z := match a with TCountOut _ => -1 | _ => 0 end.

(** The callbacks that are queued or have run. *)
Definition reached (p : nat) (st : state) : Z := count p (callbackQueue (manager st)) + count p (executed st).

Definition places (p : nat) (st : state) : Z := armed_at p (entries st) + reached p st - one (p <? length (entries st))%nat.

Lemma count_nonneg p l : 0 ≤ count p l. Proof. apply sum_over_nonneg. intros. apply one_nonneg. Qed.
Lemma count_app p l l' : count p (l ++ l') = count p l + count p l'. Proof. apply sum_over_app. Qed.
Lemma count_cons p q l : count p (q :: l) = one (q =? p)%nat + count p l. Proof. done. Qed.
Lemma count_one p q : count p [q] = one (q =? p)%nat. Proof. cbn. lia. Qed.
Lemma expiring_nonneg p a : 0 ≤ expiring p a. Proof. destruct a; cbn; try lia; apply one_nonneg. Qed.
Lemma queueing_nonneg p a : 0 ≤ queueing p a. Proof. destruct a; cbn; try lia; apply one_nonneg. Qed.
Lemma armed_nonneg p es : 0 ≤ armed_at p es. Proof. unfold armed_at. case_match; [apply one_nonneg|done]. Qed.
(** Updates that leave alone whether a timer is armed. *)
Lemma armed_at_alter p (q : nat) f (es : list TimerEntry) : (∀ e, armed (f e) = armed e) → armed_at p (alter f q es) = armed_at p es.
Proof.
  intros Hf. unfold armed_at. rewrite list_lookup_alter. case_decide as Hq; [|done]. rewrite Hq. destruct (es !! p); cbn; [by rewrite Hf|done].
Qed.
Lemma armed_at_imap p f (es : list TimerEntry) : (∀ i e, armed (f i e) = armed e) → armed_at p (imap f es) = armed_at p es.
Proof. intros Hf. unfold armed_at. rewrite list_lookup_imap. destruct (es !! p); cbn; [by rewrite Hf|done]. Qed.
Lemma armed_flags_alter (q : nat) f (es : list TimerEntry) : (∀ e, armed (f e) = armed e) → armed <$> alter f q es = armed <$> es.
Proof.
  intros Hf. apply list_eq. intros i. rewrite !list_lookup_fmap, list_lookup_alter. case_decide as Hq; [|done].
  rewrite Hq. destruct (es !! i); cbn; [by rewrite Hf|done].
Qed.
Lemma armed_flags_imap f (es : list TimerEntry) : (∀ i e, armed (f i e) = armed e) → armed <$> imap f es = armed <$> es.
Proof. intros Hf. apply list_eq. intros i. rewrite !list_lookup_fmap, list_lookup_imap. destruct (es !! i); cbn; [by rewrite Hf|done]. Qed.
Lemma armed_count_flags (es : list TimerEntry) : armed_count es = sum_over one (armed <$> es).
Proof. unfold armed_count. by rewrite sum_over_fmap. Qed.

(** *** What a section does *)

(** Sections that hold no callback and count nothing. *)
Definition plain (a : section) : Prop :=
  match a with TExpired _ | TEnqueue _ | TCall _ | TCountOut _ | TSchedule => False | _ => True end.

(** What an update of the timers may change: a cancellation is never taken back. *)
Definition keeps (es es' : list TimerEntry) : Prop :=
  armed <$> es' = armed <$> es ∧
  ∀ p e, es !! p = Some e → ∃ e', es' !! p = Some e' ∧ (te_cancel e = true → te_cancel e' = true).

Record same (st st' : state) : Prop := mkSame {
  same_queue : callbackQueue (manager st') = callbackQueue (manager st); same_executed : executed st' = executed st;
  same_active : active (manager st') = active (manager st); same_entries : keeps (entries st) (entries st') }.

Inductive effect (st : state) : section → state → list section → Prop :=
  | E_create d pr st' e r :
      callbackQueue (manager st') = callbackQueue (manager st) → executed st' = executed st →
      active (manager st') = swrap32 (active (manager st) + 1) → entries st' = entries st ++ [e] →
      armed e = true → effect st (TCreate d pr) st' [TReturn r]
  | E_expired p e : entries st !! p = Some e →
      effect st (TExpired p) st (if te_cancel e then [] else TForget p :: (match callbackProto e with Some _ => [TEnqueue p] | None => [] end))
  | E_enqueue p : (length (callbackQueue (manager st)) < queue_capacity)%nat →
      effect st (TEnqueue p) (on_manager (with_queue (callbackQueue (manager st) ++ [p])) st) []
  | E_dropped p : effect st (TEnqueue p) st []
  | E_pop p q : callbackQueue (manager st) = p :: q → effect st TSchedule (on_manager (with_queue q) st) [TCall p; TSchedule]
  | E_end : callbackQueue (manager st) = [] → effect st TSchedule st [TSchedulerDone]
  | E_call p : effect st (TCall p) (mkState (manager st) (entries st) (executed st ++ [p]) (panicked st) (clock st)) []
  | E_panic p : effect st (TCall p) (panic st) []
  | E_count p : effect st (TCountOut p) (on_manager (add_active (-1)) st) []
  | E_plain a st' before : plain a → same st st' → Forall plain before → effect st a st' before.

Lemma keeps_refl es : keeps es es.
Proof. split; [done|]. intros p e He. by exists e. Qed.

Lemma keeps_alter es q f :
  (∀ e, armed (f e) = armed e) → (∀ e, te_cancel e = true → te_cancel (f e) = true) → keeps es (alter f q es).
Proof.
  intros Ha Hc. split; [by apply armed_flags_alter|]. intros p e He. rewrite list_lookup_alter. case_decide as Hq; [|by exists e].
  rewrite Hq, He. cbn. eauto.
Qed.

Lemma keeps_imap es f :
  (∀ i e, armed (f i e) = armed e) → (∀ i e, te_cancel e = true → te_cancel (f i e) = true) → keeps es (imap f es).
Proof.
  intros Ha Hc. split; [by apply armed_flags_imap|]. intros p e He. rewrite list_lookup_imap, He. cbn. eauto.
Qed.

Lemma timer_effect a o st st' before started :
  run_section a o st = Some (st', before, started) → started = [] ∧ effect st a st' before.
Proof.
  intros Hs. unfold run_section in Hs. destruct (panicked st) eqn:Hpan; [done|].
  assert (same st st) as Hrefl by (split; [done..|apply keeps_refl]).
  destruct a; cbn zeta in Hs; try (destruct (entries st !! _) as [e|] eqn:He; cbn [mbind option_bind] in Hs; [|done]).
  all: repeat case_match; simplify_eq; split; try done.
  all: try by (apply E_plain; [done|first [done|split; try done; apply keeps_refl]|repeat constructor]).
  all: try by (constructor; bool_to_prop).
  - by eapply E_create.
  - by eapply E_create.
  - match goal with Ht : te_cancel e = true |- _ => pose proof (E_expired st' p e He) as Hx; by rewrite Ht in Hx end.
  - match goal with Ht : te_cancel e = false, Hp : callbackProto e = _ |- _ => pose proof (E_expired st' p e He) as Hx; by rewrite Ht, Hp in Hx end.
  - match goal with Ht : te_cancel e = false, Hp : callbackProto e = _ |- _ => pose proof (E_expired st' p e He) as Hx; by rewrite Ht, Hp in Hx end.
  - apply E_plain; [done| |constructor]. split; try done. by apply keeps_alter.
  - rewrite <- Hpan. apply E_call.
  - apply E_plain; [done| |by repeat constructor]. split; try done. by apply keeps_alter.
  - apply E_plain; [done| |constructor]. split; try done. apply keeps_imap; intros i e; by case_decide.
Qed.

(** What an act does: timers expire, goroutines start. *)
Inductive act_effect (st : state) : state → list (list section) → Prop :=
  | A_fire p e : entries st !! p = Some e → armed e = true → act_effect st (on_entry p fire_entry st) [executeTimer p]
  | A_plain st' started : same st st' → Forall (Forall plain) started → act_effect st st' started.

Lemma timer_acts c st st' started : act c st = Some (st', started) → act_effect st st' started.
Proof.
  assert (same st st) as Hrefl by (split; [done..|apply keeps_refl]).
  intros Ha. destruct c; cbn [act] in Ha; repeat case_match; simplify_eq.
  all: try (apply A_plain; [done|by repeat constructor]).
  - destruct (entries st !! p) as [e|] eqn:He; cbn in Ha; [|done]. destruct (armed e) eqn:Har; cbn in Ha; [|done].
    case_match; simplify_eq. by eapply A_fire.
  - apply A_plain; [|constructor]. split; [done..|apply keeps_refl].
Qed.

(** *** The places of a callback *)

Definition share (p : nat) (a : section) : Z := expiring p a + queueing p a.
Lemma share_nonneg p a : 0 ≤ share p a.
Proof. unfold share. pose proof (expiring_nonneg p a). pose proof (queueing_nonneg p a). lia. Qed.

Definition shareless (f : section → Z) : Prop := ∀ a, plain a → f a = 0.
Lemma shareless_places p : shareless (share p). Proof. by intros []. Qed.
Lemma shareless_queueing p : shareless (queueing p). Proof. by intros []. Qed.
Lemma shareless_counted : shareless counted. Proof. by intros []. Qed.

Lemma armed_at_flags p es es' : armed <$> es' = armed <$> es → armed_at p es' = armed_at p es.
Proof.
  intros H. unfold armed_at. pose proof (f_equal (λ l, l !! p) H) as Hp. cbn in Hp. rewrite !list_lookup_fmap in Hp.
  destruct (es' !! p), (es !! p); by simplify_eq/=; congruence.
Qed.

Lemma armed_at_snoc p es e : armed e = true →
  armed_at p (es ++ [e]) - one (p <? length (es ++ [e]))%nat = armed_at p es - one (p <? length es)%nat.
Proof.
  intros He. unfold armed_at. rewrite length_app. cbn [length].
  destruct (Nat.ltb_spec p (length es)) as [Hp|Hp].
  - rewrite lookup_app_l, (proj2 (Nat.ltb_lt _ _)) by lia. done.
  - rewrite (lookup_ge_None_2 es), lookup_app_r by lia. destruct (decide (p = length es)) as [->|Hne].
    + rewrite Nat.sub_diag. cbn [lookup list_lookup]. rewrite He, (proj2 (Nat.ltb_lt _ _)) by lia. done.
    + rewrite (lookup_ge_None_2 [e]), (proj2 (Nat.ltb_ge _ _)) by (cbn; lia). done.
Qed.

Lemma armed_at_fire p q e es : es !! q = Some e → armed e = true →
  armed_at p (alter fire_entry q es) = armed_at p es - one (q =? p)%nat.
Proof.
  intros He Ha. unfold armed_at. rewrite list_lookup_alter. case_decide as Hq.
  - subst q. rewrite He, Nat.eqb_refl. cbn. by rewrite Ha.
  - rewrite (proj2 (Nat.eqb_neq _ _)) by done. cbn. lia.
Qed.

Lemma places_same p st st' : same st st' → places p st' = places p st.
Proof.
  intros [Hq Hx _ [Ha _]]. unfold places, reached. rewrite Hq, Hx, (armed_at_flags p _ _ Ha).
  pose proof (f_equal length Ha) as Hl. rewrite !length_fmap in Hl. by rewrite Hl.
Qed.

Ltac timer_cbn := cbn [sum_over expiring queueing manager executed entries callbackQueue on_manager with_queue add_active panic].

Lemma effect_places p st a st' before :
  effect st a st' before → places p st' + sum_over (share p) before - (places p st + share p a) ≤ 0.
Proof.
  intros He. destruct He as [d pr st' e r Hq Hx _ Hen Ha| | | |q l Hq| | | | |a st' before Hp Hs Hb].
  - unfold places, reached. rewrite Hq, Hx, Hen. unfold share. pose proof (armed_at_snoc p (entries st) e Ha). timer_cbn. lia.
  - destruct (te_cancel e), (callbackProto e); unfold share; cbn; pose proof (one_range (p0 =? p)%nat); lia.
  - unfold places, reached, share. timer_cbn. timer_cbn. rewrite count_app, count_one. lia.
  - unfold share. cbn. pose proof (one_range (p0 =? p)%nat). lia.
  - unfold places, reached, share. timer_cbn. timer_cbn. rewrite Hq, count_cons. lia.
  - unfold share. cbn. lia.
  - unfold places, reached, share. timer_cbn. timer_cbn. rewrite count_app, count_one. lia.
  - unfold places, reached, share. timer_cbn. pose proof (one_range (p0 =? p)%nat). lia.
  - unfold places, reached, share. timer_cbn. lia.
  - rewrite (places_same p st st' Hs), (shares_none plain _ _ (shareless_places p) Hb), (shareless_places p a Hp). lia.
Qed.

Lemma act_places p st st' started : act_effect st st' started → places p st' + pending (share p) started - places p st ≤ 0.
Proof.
  intros [q e He Ha|st1 started' Hs Hp].
  - unfold places, reached. cbn [on_entry manager executed entries]. rewrite length_alter, (armed_at_fire p q e _ He Ha).
    unfold pending, share, executeTimer. timer_cbn. lia.
  - rewrite (places_same p st st1 Hs), (pending_none plain _ _ (shareless_places p) Hp). lia.
Qed.

(** *** The invariant *)

Record consistent (w : world state section) : Prop := mkConsistent {
  con_queue : (length (callbackQueue (manager (shared w))) ≤ queue_capacity)%nat;
  con_places : ∀ p, places p (shared w) + pending (share p) (threads w) ≤ 0;
  con_active : (2 ^ 32 | active (manager (shared w)) - armed_count (entries (shared w)) + pending counted (threads w)) }.

Lemma armed_count_same st st' : same st st' → armed_count (entries st') = armed_count (entries st).
Proof. intros [_ _ _ [Ha _]]. by rewrite !armed_count_flags, Ha. Qed.

Lemma armed_count_fire q e es : es !! q = Some e → armed e = true → armed_count (alter fire_entry q es) = armed_count es - 1.
Proof.
  intros He Ha. assert (armed <$> alter fire_entry q es = <[q := false]> (armed <$> es)) as Hf.
  { apply list_eq. intros i. rewrite list_lookup_fmap, list_lookup_alter. case_decide as Hq.
    - subst i. rewrite list_lookup_insert_eq by (rewrite length_fmap; by eapply lookup_lt_Some). by rewrite He.
    - by rewrite list_lookup_insert_ne, list_lookup_fmap. }
  rewrite !armed_count_flags, Hf, (sum_over_insert _ _ _ true); [cbn; lia|]. by rewrite list_lookup_fmap, He, <- Ha.
Qed.

Lemma divide_zero z : z = 0 → (2 ^ 32 | z).
Proof. intros ->. apply Z.divide_0_r. Qed.

Lemma effect_active st a st' before : effect st a st' before →
  (2 ^ 32 | active (manager st') - armed_count (entries st') + sum_over counted before -
            (active (manager st) - armed_count (entries st) + counted a)).
Proof.
  intros He. destruct He as [d pr st' e r Hq Hx Hac Hen Ha|p e He| | |q l Hq| | | |p|a st' before Hp Hs Hb].
  - rewrite Hac, Hen. unfold armed_count. rewrite sum_over_app. cbn [sum_over counted]. rewrite Ha.
    destruct (swrap32_divide (active (manager st) + 1)) as [z Hz]. exists z. cbn [one]. lia.
  - apply divide_zero. destruct (te_cancel e), (callbackProto e); cbn; lia.
  - apply divide_zero. cbn [sum_over counted manager entries active on_manager with_queue panic]. lia.
  - apply divide_zero. cbn [sum_over counted manager entries active on_manager with_queue panic]. lia.
  - apply divide_zero. cbn [sum_over counted manager entries active on_manager with_queue panic]. lia.
  - apply divide_zero. cbn [sum_over counted manager entries active on_manager with_queue panic]. lia.
  - apply divide_zero. cbn [sum_over counted manager entries active on_manager with_queue panic]. lia.
  - apply divide_zero. cbn [sum_over counted manager entries active on_manager with_queue panic]. lia.
  - cbn [on_manager manager add_active active entries sum_over counted].
    destruct (swrap32_divide (active (manager st) + -1)) as [z Hz]. exists z. lia.
  - apply divide_zero. rewrite (same_active _ _ Hs), (armed_count_same _ _ Hs), (shares_none plain _ _ shareless_counted Hb), (shareless_counted a Hp). lia.
Qed.

Lemma act_active st st' started : act_effect st st' started →
  (2 ^ 32 | active (manager st') - armed_count (entries st') + pending counted started - (active (manager st) - armed_count (entries st))).
Proof.
  intros [q e He Ha|st1 started' Hs Hp]; apply divide_zero.
  - cbn [on_entry manager entries]. rewrite (armed_count_fire q e _ He Ha). cbn. lia.
  - rewrite (same_active _ _ Hs), (armed_count_same _ _ Hs), (pending_none plain _ _ shareless_counted Hp). lia.
Qed.

(** What a step does, for every quantity. *)
Lemma step_moved (R : Z → Prop) (f : section → Z) (m : state → Z) w e w' :
  (∀ k a rest st' before, threads w !! k = Some (a :: rest) → effect (shared w) a st' before →
     R (m st' + sum_over f before - (m (shared w) + f a))) →
  (∀ st' started, act_effect (shared w) st' started → R (m st' + pending f started - m (shared w))) →
  step w e = Some w' → R (m (shared w') + pending f (threads w') - (m (shared w) + pending f (threads w))).
Proof.
  intros Hs Ha. apply moved.
  - intros k a rest o st' before started Hk Hr. destruct (timer_effect _ _ _ _ _ _ Hr) as [-> He].
    cbn [pending sum_over]. rewrite Z.add_0_r. by eapply Hs.
  - intros c st' started Hc%timer_acts. by apply Ha.
Qed.

Lemma effect_queue st a st' before : effect st a st' before →
  (length (callbackQueue (manager st)) ≤ queue_capacity)%nat → (length (callbackQueue (manager st')) ≤ queue_capacity)%nat.
Proof.
  intros He Hl. destruct He as [? ? ? ? ? Hq| |p Hlt| |p q Hq| | | | |? ? ? ? Hs]; try done.
  - by rewrite Hq.
  - cbn [on_manager manager with_queue callbackQueue]. rewrite length_app. cbn [length]. lia.
  - rewrite Hq in Hl. cbn [on_manager manager with_queue callbackQueue]. cbn [length] in Hl. lia.
  - by rewrite (same_queue _ _ Hs).
Qed.

Lemma timers_step w e w' : consistent w → step w e = Some w' → consistent w'.
Proof.
  intros [Hq Hp Ha] Hs. split.
  - destruct e as [k o|c]; cbn [step] in Hs.
    + apply bind_Some in Hs as ([|a rest] & Hk & Hs); [done|]. apply bind_Some in Hs as ([[st' before] started] & Hr & [= <-]).
      destruct (timer_effect _ _ _ _ _ _ Hr) as [_ He]. by eapply effect_queue.
    + apply bind_Some in Hs as ([st' started] & Hc & [= <-]). apply timer_acts in Hc. cbn [shared].
      destruct Hc as [|? ? Hs]; [done|]. by rewrite (same_queue _ _ Hs).
  - intros p. pose proof (step_moved (λ z, z ≤ 0) (share p) (places p) w e w') as Hm. pose proof (Hp p) as Hpp.
    enough (places p (shared w') + pending (share p) (threads w') - (places p (shared w) + pending (share p) (threads w)) ≤ 0) by lia.
    apply Hm; [|apply act_places|done]. intros k a rest st' before _. apply effect_places.
  - pose proof (step_moved (λ z, (2 ^ 32 | z)) counted (λ st, active (manager st) - armed_count (entries st)) w e w') as Hm.
    eapply eq_ind; [apply (Z.divide_add_r _ _ _ (Hm ltac:(intros ? ? ? ? ? _; apply effect_active) (act_active _) Hs) Ha)|]. lia.
Qed.

Lemma timers_consistent now es w : run (initial now) es = Some w → consistent w.
Proof.
  intros Hr. pose proof (run_ind (λ _ w, consistent w)) as H.
  apply (H ltac:(intros n w1 e w2; apply timers_step) es 0%nat (initial now) w); [|done].
  split; cbn; [unfold queue_capacity; lia| |apply divide_zero; done].
  intros p. unfold places, reached, armed_at, share. cbn. rewrite lookup_nil. lia.
Qed.

(** ** Properties *)

Lemma timers_conserved_places now es w : run (initial now) es = Some w → ∀ p,
  armed_at p (entries (shared w)) + pending (expiring p) (threads w) + pending (queueing p) (threads w)
  + count p (callbackQueue (manager (shared w))) + count p (executed (shared w)) ≤ 1 ∧ 0 ≤ pending (expiring p) (threads w).
Proof.
  intros Hr p. destruct (timers_consistent _ _ _ Hr) as [_ Hp _]. specialize (Hp p).
  pose proof (one_range (p <? length (entries (shared w)))%nat).
  assert (pending (share p) (threads w) = pending (expiring p) (threads w) + pending (queueing p) (threads w)) as Hs.
  { clear Hp. unfold pending. induction (threads w) as [|t ts IH]; [done|]. cbn [sum_over]. rewrite IH.
    enough (sum_over (share p) t = sum_over (expiring p) t + sum_over (queueing p) t) by lia.
    clear. induction t as [|a t IH]; [done|]. cbn [sum_over]. rewrite IH. unfold share. lia. }
  unfold places, reached in Hp. split; [lia|]. apply pending_nonneg, expiring_nonneg.
Qed.

(** C20: Under every interleaving each callback is at most once among those that may still
    run and those that have: armed, expiring, queued, called, or run; the queue keeps
    within its capacity; and [active] is, up to the width of its word, the number of
    timers that are armed or have expired and not been counted out, cancelled or not. *)
Theorem timers_conserved now es w (st := shared w) :
  run (initial now) es = Some w →
  (∀ p, armed_at p (entries st) + pending (expiring p) (threads w) + pending (queueing p) (threads w)
        + count p (callbackQueue (manager st)) + count p (executed st) ≤ 1) ∧
  (length (callbackQueue (manager st)) ≤ queue_capacity)%nat ∧
  (2 ^ 32 | ActiveCount (manager st) - (armed_count (entries st) - pending counted (threads w))).
Proof.
  intros Hr. destruct (timers_consistent _ _ _ Hr) as [Hq _ Ha]. split; [|split; [done|]].
  - intros p. by apply (timers_conserved_places now es).
  - unfold ActiveCount. eapply eq_ind; [exact Ha|]. fold st. lia.
Qed.

(** The timer is cancelled, and nothing that could run its callback is left. *)
Definition harmless (p : nat) (w : world state section) : Prop :=
  (∃ e, entries (shared w) !! p = Some e ∧ te_cancel e = true) ∧ reached p (shared w) + pending (queueing p) (threads w) ≤ 0.

Lemma reached_nonneg p st : 0 ≤ reached p st.
Proof. unfold reached. pose proof (count_nonneg p (callbackQueue (manager st))). pose proof (count_nonneg p (executed st)). lia. Qed.

Lemma effect_cancelled p st a st' before : effect st a st' before →
  (∃ e, entries st !! p = Some e ∧ te_cancel e = true) →
  (∃ e, entries st' !! p = Some e ∧ te_cancel e = true) ∧
  reached p st' + sum_over (queueing p) before - (reached p st + queueing p a) ≤ 0.
Proof.
  intros He (e1 & Hp & Hc). destruct He as [d pr st' e r Hq Hx _ Hen Ha|q e He| | |q l Hq| | | | |a st' before Hpl Hs Hb].
  - split; [exists e1; split; [rewrite Hen; by apply lookup_app_l_Some|done]|]. unfold reached. rewrite Hq, Hx. cbn [sum_over queueing]. lia.
  - split; [by exists e1|]. destruct (decide (q = p)) as [->|Hne].
    + assert (e1 = e) as -> by congruence. rewrite Hc. cbn. lia.
    + destruct (te_cancel e), (callbackProto e); cbn; rewrite ?(proj2 (Nat.eqb_neq _ _)) by done; cbn; lia.
  - split; [by exists e1|]. unfold reached. timer_cbn. rewrite count_app, count_one. lia.
  - split; [by exists e1|]. timer_cbn. pose proof (one_nonneg (p0 =? p)%nat). lia.
  - split; [by exists e1|]. unfold reached. timer_cbn. rewrite Hq, count_cons. lia.
  - split; [by exists e1|]. cbn. lia.
  - split; [by exists e1|]. unfold reached. timer_cbn. rewrite count_app, count_one. lia.
  - split; [by exists e1|]. unfold reached. timer_cbn. pose proof (one_nonneg (p0 =? p)%nat). lia.
  - split; [by exists e1|]. unfold reached. timer_cbn. lia.
  - destruct Hs as [Hq Hx _ [_ Hk]]. destruct (Hk _ _ Hp) as (e' & Hp' & Hc'). split; [exists e'; auto|].
    unfold reached. rewrite Hq, Hx, (shares_none plain _ _ (shareless_queueing p) Hb), (shareless_queueing p a Hpl). lia.
Qed.

Lemma act_cancelled p st st' started : act_effect st st' started →
  (∃ e, entries st !! p = Some e ∧ te_cancel e = true) →
  (∃ e, entries st' !! p = Some e ∧ te_cancel e = true) ∧ reached p st' + pending (queueing p) started - reached p st ≤ 0.
Proof.
  intros [q e He Ha|st1 started' Hs Hpl] (e1 & Hp & Hc).
  - split; [|change (reached p (on_entry q fire_entry st)) with (reached p st); unfold pending, executeTimer; cbn [sum_over queueing]; lia].
    cbn [on_entry entries]. rewrite list_lookup_alter. case_decide as Hq; [|by exists e1].
    rewrite Hq, Hp. cbn. by eexists.
  - destruct Hs as [Hq Hx _ [_ Hk]]. destruct (Hk _ _ Hp) as (e' & Hp' & Hc'). split; [exists e'; auto|].
    unfold reached. rewrite Hq, Hx, (pending_none plain _ _ (shareless_queueing p) Hpl). lia.
Qed.

Lemma harmless_step p w e w' : harmless p w → step w e = Some w' → harmless p w'.
Proof.
  intros [Hc Hr] Hs. split.
  - destruct e as [k o|c]; cbn [step] in Hs.
    + apply bind_Some in Hs as ([|a rest] & Hk & Hs); [done|]. apply bind_Some in Hs as ([[st' before] started] & Hrun & [= <-]).
      destruct (timer_effect _ _ _ _ _ _ Hrun) as [_ He]. by eapply effect_cancelled.
    + apply bind_Some in Hs as ([st' started] & Ha & [= <-]). apply timer_acts in Ha. by eapply act_cancelled.
  - enough (reached p (shared w') + pending (queueing p) (threads w') - (reached p (shared w) + pending (queueing p) (threads w)) ≤ 0) by lia.
    apply (step_moved (λ z, z ≤ 0) (queueing p) (reached p) w e w'); [| |done].
    + intros k a rest st' before _ He. by eapply effect_cancelled.
    + intros st' started Ha. by eapply act_cancelled.
Qed.

(** A timer that was cancelled before it expired never runs. *)
Theorem cancelled_never_runs now es es' w w' p e :
  run (initial now) es = Some w → run w es' = Some w' →
  entries (shared w) !! p = Some e → armed e = true → te_cancel e = true →
  p ∉ executed (shared w').
Proof.
  intros Hr Hr' He Ha Hc. assert (harmless p w) as Hh.
  { split; [by exists e|]. destruct (timers_conserved_places now es w Hr p) as [H1 H2].
    unfold armed_at in H1. rewrite He, Ha in H1. cbn [one] in H1. unfold reached. lia. }
  assert (harmless p w') as [_ H].
  { pose proof (run_ind (λ _ w, harmless p w)) as H. apply (H ltac:(intros n w1 e1 w2; apply harmless_step) es' 0%nat w w'); done. }
  intros Hin. pose proof (pending_nonneg (queueing p) (threads w') (queueing_nonneg p)) as H1.
  unfold reached in H. pose proof (count_nonneg p (callbackQueue (manager (shared w')))) as H2.
  pose proof (sum_over_in (λ q, one (q =? p)%nat) _ p (λ _ _, one_nonneg _) Hin) as H3. cbn beta in H3. rewrite Nat.eqb_refl in H3.
  unfold count in H, H2. cbn [one] in H3. lia.
Qed.

(** ** The order of the callbacks *)

(** The callback that the scheduler has taken from the queue and not run. *)
Definition calling (ts : list (list section)) : list nat := match ts !! 0%nat with Some (TCall p :: _) => [p] | _ => [] end.

(** The callbacks in the order in which they were queued: run, called, waiting. *)
Definition order (w : world state section) : list nat :=
  executed (shared w) ++ calling (threads w) ++ callbackQueue (manager (shared w)).

Definition not_scheduler (a : section) : Prop := match a with TCall _ | TSchedule => False | _ => True end.
Definition scheduler_code (t : list section) : Prop :=
  t = [TSchedule] ∨ (∃ p, t = [TCall p; TSchedule]) ∨ Forall not_scheduler t.

(** There is one scheduler, the first goroutine. *)
Record one_scheduler (w : world state section) : Prop := mkOne {
  os_code : ∃ t ts, threads w = t :: ts ∧ scheduler_code t ∧ Forall (Forall not_scheduler) ts }.

Lemma plain_not_scheduler l : Forall plain l → Forall not_scheduler l.
Proof. intros Hl. eapply Forall_impl; [done|]. by intros []. Qed.

Lemma effect_not_scheduler st a st' before : effect st a st' before → not_scheduler a → Forall not_scheduler before.
Proof.
  intros He Ha. destruct He; try done; try by repeat constructor.
  - destruct (te_cancel e), (callbackProto e); by repeat constructor.
  - by apply plain_not_scheduler.
Qed.

Lemma act_not_scheduler st st' started : act_effect st st' started → Forall (Forall not_scheduler) started.
Proof.
  intros [q e He Ha|st1 started' _ Hp]; [by repeat constructor|]. eapply Forall_impl; [done|]. intros l. apply plain_not_scheduler.
Qed.

Lemma effect_order st a st' before : effect st a st' before → not_scheduler a →
  executed st' = executed st ∧ callbackQueue (manager st) `prefix_of` callbackQueue (manager st').
Proof.
  intros He Ha. destruct He as [? ? ? ? ? Hq Hx| | | | | | | | |? ? ? ? Hs]; try done.
  - by rewrite Hq.
  - split; [done|]. cbn. by apply prefix_app_r.
  - by rewrite (same_executed _ _ Hs), (same_queue _ _ Hs).
Qed.

Lemma calling_none t ts : Forall not_scheduler t → calling (t :: ts) = [].
Proof. intros Ht. destruct t as [|[] t]; try done. by apply Forall_cons in Ht as [? _]. Qed.

Lemma prefix_parts (x q q' : list nat) c : q `prefix_of` q' → x ++ c ++ q `prefix_of` x ++ c ++ q'.
Proof. intros Hq. by do 2 apply prefix_app. Qed.

(** The scheduler's own step keeps the order as it is. *)
Lemma scheduler_step st t ts a rest st' before :
  t = a :: rest → scheduler_code t → effect st a st' before → panicked st' = false →
  scheduler_code (before ++ rest) ∧
  executed st ++ calling (t :: ts) ++ callbackQueue (manager st) `prefix_of`
    executed st' ++ calling ((before ++ rest) :: ts) ++ callbackQueue (manager st').
Proof.
  intros -> [[= -> ->]|[(p & [= -> ->])|Hn]] He Hpan.
  - inversion He as [| | | |p q Hq|Hq| | | |? ? ? Hp]; subst; [| |done].
    + split; [right; left; by exists p|]. cbn. by rewrite Hq.
    + split; [right; right; by repeat constructor|]. done.
  - inversion He as [| | | | | |? |? | |? ? ? Hp]; subst; [|done|done].
    split; [by left|]. cbn. by rewrite <- app_assoc.
  - pose proof Hn as [Ha Hr]%Forall_cons. pose proof (effect_not_scheduler _ _ _ _ He Ha) as Hb.
    destruct (effect_order _ _ _ _ He Ha) as [-> Hq]. assert (Forall not_scheduler (before ++ rest)) as Hbr by by apply Forall_app.
    split; [by right; right|]. rewrite !calling_none by done. by apply prefix_parts.
Qed.

Lemma one_scheduler_step w e w' : one_scheduler w → step w e = Some w' → panicked (shared w') = false →
  one_scheduler w' ∧ order w `prefix_of` order w'.
Proof.
  intros [(t & ts & Hw & Ht & Hts)] Hs Hpan. destruct e as [k o|c]; cbn [step] in Hs.
  - apply bind_Some in Hs as ([|a rest] & Hk & Hs); [done|]. apply bind_Some in Hs as ([[st' before] started] & Hr & [= <-]).
    destruct (timer_effect _ _ _ _ _ _ Hr) as [-> He]. rewrite app_nil_r. cbn [shared] in Hpan. unfold order. cbn [shared threads].
    rewrite Hw in *. destruct k as [|k].
    + cbn in Hk. injection Hk as ->. destruct (scheduler_step _ _ ts _ _ _ _ eq_refl Ht He Hpan) as [H1 H2].
      split; [split; by exists (before ++ rest), ts|done].
    + cbn in Hk. pose proof (Forall_lookup_1 _ _ _ _ Hts Hk) as [Ha Hrest]%Forall_cons.
      destruct (effect_order _ _ _ _ He Ha) as [-> Hq]. split; [|by apply prefix_parts].
      split. exists t, (<[k := before ++ rest]> ts). split_and!; [done..|].
      apply Forall_insert; [done|]. apply Forall_app. split; [by eapply effect_not_scheduler|done].
  - apply bind_Some in Hs as ([st' started] & Ha & [= <-]). apply timer_acts in Ha. pose proof (act_not_scheduler _ _ _ Ha) as Hst.
    unfold order. cbn [shared threads]. rewrite Hw. split.
    + split. exists t, (ts ++ started). split_and!; [done..|]. by apply Forall_app.
    + assert (executed st' = executed (shared w) ∧ callbackQueue (manager st') = callbackQueue (manager (shared w))) as [-> ->]
        by (destruct Ha as [|? ? Hs]; [done|]; split; apply Hs).
      done.
Qed.

(** A panic ends everything. *)
Lemma panicked_step w e w' : step w e = Some w' → panicked (shared w') = false → panicked (shared w) = false.
Proof.
  intros Hs Hp. destruct (panicked (shared w)) eqn:H; [|done]. exfalso. destruct e as [k o|c]; cbn [step] in Hs.
  - apply bind_Some in Hs as ([|a rest] & Hk & Hs); [done|]. apply bind_Some in Hs as (x & Hr & _).
    cbn in Hr. unfold run_section in Hr. by rewrite H in Hr.
  - apply bind_Some in Hs as ([st' started] & Ha & [= <-]). cbn [shared] in Hp.
    cbn in Ha. destruct c; cbn [act] in Ha; repeat case_match; simplify_eq; try congruence.
    + apply bind_Some in Ha as (e & _ & Ha). case_match; simplify_eq. cbn in Hp. congruence.
    + cbn in Hp. congruence.
Qed.

Lemma scheduler_run es w w' : run w es = Some w' → panicked (shared w') = false →
  panicked (shared w) = false ∧ (one_scheduler w → one_scheduler w' ∧ order w `prefix_of` order w').
Proof.
  revert w. induction es as [|e es IH]; intros w Hr Hp; cbn [run] in Hr; [by injection Hr as <-|].
  apply bind_Some in Hr as (w1 & Hs & Hr). destruct (IH _ Hr Hp) as [Hp1 H1]. split; [by eapply panicked_step|].
  intros Ho. destruct (one_scheduler_step _ _ _ Ho Hs Hp1) as [Ho1 Hpre]. destruct (H1 Ho1) as [Ho' Hpre'].
  split; [done|]. by etrans.
Qed.

(** The callbacks run in the order in which they came into the queue: whatever happens,
    the order so far is the beginning of the order later, and what has run is the
    beginning of it. *)
Theorem queue_order now es es' w w' :
  run (initial now) es = Some w → run w es' = Some w' → panicked (shared w') = false →
  order w `prefix_of` order w' ∧ executed (shared w') `prefix_of` order w'.
Proof.
  intros Hr Hr' Hp. split; [|by apply prefix_app_r].
  destruct (scheduler_run _ _ _ Hr' Hp) as [Hpan H]. apply H.
  destruct (scheduler_run _ _ _ Hr Hpan) as [_ Hi]. apply Hi. split. by exists [TSchedule], []; split_and!; [|left|].
Qed.

(** [uint64ToStr] is the decimal form. *)
Lemma uint64ToStr_FormatInt n : 0 ≤ n ≤ int64_max → uint64ToStr n = FormatInt n.
Proof. intros Hn. unfold uint64ToStr. destruct (Z.eqb_spec n 0) as [->|]; [done|]. apply rev_digits_FormatInt. lia. Qed.

(** ** Examples *)

Definition runs (k n : nat) : list (event unit call) := replicate n (Run k tt).

Definition ex_world (es : list (event unit call)) : option (world state section) := run (initial 0) es.

(** A timer of no delay, made by the second goroutine and expiring in the third. *)
Definition ex_proto : FunctionProto := mkProto 7 0.
Definition ex_at : list (event unit call) := [Act (At 0 (Some ex_proto))] ++ runs 1 3 ++ [Act (Expire 0)].

(** It runs. *)
Definition ex_ran : list (event unit call) := ex_at ++ runs 2 5 ++ runs 0 2.

(** Cancelled between the check and the removal it runs all the same, though the
    cancellation succeeded. *)
Lemma cancelled_yet_run :
  (λ w, (executed (shared w), te_cancel <$> entries (shared w), threads w !! 3%nat)) <$>
    ex_world (ex_at ++ runs 2 1 ++ [Act (Cancel 1)] ++ runs 3 1 ++ runs 2 4 ++ runs 0 2) =
  Some ([0%nat], [true], Some [TReturn (Result true)]).
Proof. by vm_compute. Qed.

(** A cancelled timer stays active until it would have expired. *)
Lemma cancelled_stays_active :
  (λ w, (ActiveCount (manager (shared w)), map_to_list (timers (manager (shared w))))) <$>
    ex_world ([Act (At 3600 (Some ex_proto))] ++ runs 1 3 ++ [Act (Cancel 1)] ++ runs 2 2 ++ [Act (Elapse (3599 * second))]) =
  Some (1, []).
Proof. by vm_compute. Qed.

(** Five seconds after the closing began the state of the scheduler is taken away, and
    the next callback of the queue panics. *)
Lemma shutdown_panics :
  (λ w, panicked (shared w)) <$>
    ex_world (ex_at ++ runs 2 5 ++ [Act Close] ++ runs 3 3 ++ [Act (Elapse (5 * second))] ++ runs 3 2 ++ runs 0 2) = Some true.
Proof. by vm_compute. Qed.

(** After [WaitAll], [Close] does nothing: the queue stays open and the scheduler waits. *)
Lemma close_after_wait :
  (λ w, (queueClosed (manager (shared w)), threads w)) <$>
    ex_world ([Act (WaitAll second)] ++ runs 1 3 ++ [Act Close] ++ runs 2 1) = Some (false, [[TSchedule]; []; []]).
Proof. by vm_compute. Qed.

Lemma ex_ran_run : ∃ w, run (initial 0) ex_ran = Some w ∧ executed (shared w) = [0%nat].
Proof.
  destruct (run (initial 0) ex_ran) as [w|] eqn:Hw.
  - exists w. split; [done|]. apply (fmap_known (executed ∘ shared) _ w _ Hw). by vm_compute.
  - assert ((λ _, tt) <$> run (initial 0) ex_ran = Some tt) as Hx by by vm_compute. by rewrite Hw in Hx.
Qed.

Lemma timers_conserved_witness :
  ∃ w, run (initial 0) ex_ran = Some w ∧ executed (shared w) = [0%nat] ∧
    armed_at 0 (entries (shared w)) + pending (expiring 0) (threads w) + pending (queueing 0) (threads w)
      + count 0 (callbackQueue (manager (shared w))) + 1 ≤ 1.
Proof.
  destruct ex_ran_run as (w & Hw & He). exists w. split; [exact Hw|]. split; [exact He|].
  destruct (timers_conserved 0 ex_ran w Hw) as (H & _). specialize (H 0%nat). rewrite He in H. exact H.
Defined.

(** A timer cancelled while it is armed. *)
Definition ex_cancel : list (event unit call) := [Act (At 0 (Some ex_proto))] ++ runs 1 3 ++ [Act (Cancel 1)] ++ runs 2 2.
Definition ex_cancelled : TimerEntry := mkEntry 1 0 (Some ex_proto) true false true 0.

Lemma ex_cancel_run : ∃ w w', run (initial 0) ex_cancel = Some w ∧ entries (shared w) = [ex_cancelled] ∧
  run w ([Act (Expire 0)] ++ runs 3 3) = Some w'.
Proof.
  destruct (run (initial 0) ex_cancel) as [w|] eqn:Hw.
  - exists w. destruct (run w ([Act (Expire 0)] ++ runs 3 3)) as [w'|] eqn:Hw'.
    + exists w'. split; [done|]. split; [|done]. apply (fmap_known (entries ∘ shared) _ w _ Hw). by vm_compute.
    + assert ((λ _, tt) <$> run (initial 0) (ex_cancel ++ [Act (Expire 0)] ++ runs 3 3) = Some tt) as Hx by by vm_compute.
      rewrite run_app, Hw in Hx. cbn [mbind option_bind] in Hx. by rewrite Hw' in Hx.
  - assert ((λ _, tt) <$> run (initial 0) ex_cancel = Some tt) as Hx by by vm_compute. by rewrite Hw in Hx.
Qed.

Lemma cancelled_never_runs_witness :
  ∃ w w', run (initial 0) ex_cancel = Some w ∧ run w ([Act (Expire 0)] ++ runs 3 3) = Some w' ∧ 0%nat ∉ executed (shared w').
Proof.
  destruct ex_cancel_run as (w & w' & Hw & He & Hw'). exists w, w'. split; [exact Hw|]. split; [exact Hw'|].
  apply (cancelled_never_runs 0 ex_cancel _ w w' 0 ex_cancelled Hw Hw'); [rewrite He; reflexivity|reflexivity|reflexivity].
Defined.

Lemma queue_order_witness :
  ∃ w, run (initial 0) ex_ran = Some w ∧ order w `prefix_of` order w ∧ executed (shared w) `prefix_of` order w.
Proof.
  destruct ex_ran_run as (w & Hw & He). exists w. split; [exact Hw|].
  apply (queue_order 0 ex_ran [] w w Hw eq_refl).
  destruct (panicked (shared w)) eqn:Hp; [|reflexivity]. exfalso.
  pose proof (f_equal (λ o, (λ w, panicked (shared w)) <$> o) Hw) as H. cbn [fmap option_fmap option_map] in H. rewrite Hp in H.
  vm_compute in H. discriminate H.
Defined.
