(* ===== verification/FloatInt.v ===== *)
(** * FloatInt: integers as [float64]

    [float64(z)] and [int64(f)] of Float64 on the integers that fit the mantissa: the
    conversion is exact up to [2 ^ 53], and comparisons with the bounds of an index
    are those of the integers. *)

From Corelib Require Import SpecFloat.
From S2P Require Import Prelude Float64.

(** ** Integers as floats *)

Lemma iter_xO m d : Zpos (Pos.iter xO m d) = Zpos m * 2 ^ Zpos d ∧ Zpos (digits2_pos (Pos.iter xO m d)) = Zpos (digits2_pos m) + Zpos d.
Proof.
  induction d as [|d [IH1 IH2]] using Pos.peano_ind; [cbn; lia|]. rewrite Pos.iter_succ. split.
  - rewrite Pos2Z.inj_succ, Z.pow_succ_r by lia. rewrite Pos2Z.inj_xO, IH1. lia.
  - cbn [digits2_pos]. rewrite !Pos2Z.inj_succ, IH2. lia.
Qed.

Lemma digits_bound m : 2 ^ (Zpos (digits2_pos m) - 1) ≤ Zpos m < 2 ^ Zpos (digits2_pos m).
Proof.
  induction m as [m IH|m IH|]; cbn [digits2_pos]; [| |cbn; lia].
  all: rewrite Pos2Z.inj_succ, Z.pow_succ_r by lia; replace (Z.succ (Zpos (digits2_pos m)) - 1) with (Z.succ (Zpos (digits2_pos m) - 1)) by lia;
    rewrite Z.pow_succ_r by lia; rewrite ?Pos2Z.inj_xI, ?(Pos2Z.inj_xO m); lia.
Qed.

(** Below [2 ^ 53] the digits fit the mantissa. *)
Lemma digits_fit m : Zpos m < 2 ^ 53 → 1 ≤ Zpos (digits2_pos m) ≤ 53.
Proof.
  intros Hm. pose proof (digits_bound m) as Hd. split; [lia|]. set (n := Zpos (digits2_pos m)) in *.
  destruct (Z.le_gt_cases n 53); [done|]. assert (2 ^ 53 ≤ 2 ^ (n - 1)) by (apply Z.pow_le_mono_r; lia). lia.
Qed.

Lemma round_exact s M : Zpos (digits2_pos M) = 53 → ∀ e, -1074 ≤ e ≤ 971 →
  binary_round_aux f64_prec f64_emax s (Zpos M) e loc_Exact = S754_finite s M e.
Proof.
  intros Hd e He. unfold binary_round_aux, shr_fexp. cbn [shr_record_of_loc Zdigits2].
  assert (fexp f64_prec f64_emax (Zpos (digits2_pos M) + e) - e = 0) as Hf.
  { unfold fexp, emin, f64_prec, f64_emax. lia. }
  rewrite Hf. cbn [shr shr_m loc_of_shr_record round_nearest_even Zdigits2]. rewrite Hf. cbn [shr shr_m].
  unfold f64_emax, f64_prec. rewrite (proj2 (Z.leb_le _ _)) by lia. done.
Qed.

(** A positive integer below [2 ^ 53]: its digits shifted to fill the mantissa. *)
Definition normal (m : positive) (f : float64) (s : bool) : Prop :=
  ∃ M e, f = S754_finite s M e ∧ e = Zpos (digits2_pos m) - 53 ∧ Zpos M = Zpos m * 2 ^ (- e).

Lemma round_normal s m : Zpos m < 2 ^ 53 → normal m (binary_round f64_prec f64_emax s m 0) s.
Proof.
  intros Hm. pose proof (digits_fit m Hm) as Hn. set (n := Zpos (digits2_pos m)) in *.
  unfold binary_round. fold n.
  assert (fexp f64_prec f64_emax (n + 0) = n - 53) as -> by (unfold fexp, emin, f64_prec, f64_emax; lia).
  unfold shl_align. rewrite Z.sub_0_r. destruct (n - 53) as [|p|d] eqn:Hk; [| lia|].
  - exists m, 0. rewrite round_exact by (fold n; lia). split_and!; [done|fold n; lia|cbn; lia].
  - destruct (iter_xO m d) as [H1 H2]. fold n in H2. exists (Pos.iter xO m d), (Zneg d).
    rewrite round_exact by lia. split_and!; [done|fold n; lia|]. rewrite H1. done.
Qed.

Lemma f64_of_pos m : Zpos m < 2 ^ 53 → normal m (f64_of_int (Zpos m)) false.
Proof. apply round_normal. Qed.
Lemma f64_of_neg m : Zpos m < 2 ^ 53 → normal m (f64_of_int (Zneg m)) true.
Proof. apply round_normal. Qed.

Lemma trunc_normal m f s : Zpos m < 2 ^ 53 → normal m f s → int_of_f64 f = if s then Zneg m else Zpos m.
Proof.
  intros Hm (M & e & -> & He & HM). unfold int_of_f64, f64_trunc.
  pose proof (digits_fit m Hm) as Hd.
  assert (Z.shiftl (Zpos M) e = Zpos m) as ->.
  { replace e with (- (- e)) by lia. rewrite Z.shiftl_opp_r, Z.shiftr_div_pow2 by lia. rewrite HM. apply Z.div_mul.
    apply Z.pow_nonzero; lia. }
  unfold int64_min, int64_max. destruct s; case_tests; lia.
Qed.

(** The conversion is exact up to [2 ^ 53]. *)
Lemma int_of_f64_of_int z : - 2 ^ 53 ≤ z ≤ 2 ^ 53 → int_of_f64 (f64_of_int z) = z.
Proof.
  intros Hz. destruct (decide (z = 2 ^ 53)) as [->|H1]; [by vm_compute|]. destruct (decide (z = - 2 ^ 53)) as [->|H2]; [by vm_compute|].
  destruct z as [|m|m]; [done| |].
  - apply (trunc_normal m _ false); [lia|]. apply f64_of_pos. lia.
  - apply (trunc_normal m _ true); [lia|]. apply f64_of_neg. lia.
Qed.

(** Arrays begin at one, and no index is beyond an [int]. *)
Lemma index_range z : 1 ≤ z < 2 ^ 53 →
  f64_ltb (f64_of_int z) (f64_of_int 1) = false ∧ f64_ltb (f64_of_int (2 ^ 63)) (f64_of_int z) = false.
Proof.
  intros Hz. destruct z as [|m|]; try lia. destruct (f64_of_pos m ltac:(lia)) as (M & e & -> & He & HM).
  pose proof (digits_bound m) as Hd. pose proof (digits_fit m ltac:(lia)) as Hn. set (n := Zpos (digits2_pos m)) in *.
  assert (f64_of_int 1 = S754_finite false (2 ^ 52) (-52)) as -> by by vm_compute.
  assert (f64_of_int (2 ^ 63) = S754_finite false (2 ^ 52) 11) as -> by by vm_compute.
  unfold f64_ltb, SFltb, SFcompare. split.
  - destruct (Z.compare_spec e (-52)) as [->| |]; [|lia|done].
    assert (n = 1) as Hn1 by lia. rewrite Hn1 in Hd. assert (m = 1%positive) as -> by lia.
    assert (M = (2 ^ 52)%positive) as -> by (cbn in HM; lia). done.
  - destruct (Z.compare_spec 11 e); [lia|lia|done].
Qed.

Lemma f64_eqb_refl z : - 2 ^ 53 ≤ z ≤ 2 ^ 53 → SFeqb (f64_of_int z) (f64_of_int z) = true.
Proof.
  intros Hz. destruct (decide (z = 2 ^ 53)) as [->|H1]; [by vm_compute|]. destruct (decide (z = - 2 ^ 53)) as [->|H2]; [by vm_compute|].
  unfold SFeqb. destruct z as [|m|m]; [done| |].
  - destruct (f64_of_pos m ltac:(lia)) as (M & e & -> & _). cbn. rewrite Z.compare_refl. by rewrite Pos.compare_cont_refl.
  - destruct (f64_of_neg m ltac:(lia)) as (M & e & -> & _). cbn. rewrite Z.compare_refl. by rewrite Pos.compare_cont_refl.
Qed.

Lemma f64_of_int_inj a b : - 2 ^ 53 ≤ a ≤ 2 ^ 53 → - 2 ^ 53 ≤ b ≤ 2 ^ 53 → f64_of_int a = f64_of_int b → a = b.
Proof. intros Ha Hb H. rewrite <- (int_of_f64_of_int a), <- (int_of_f64_of_int b) by done. by rewrite H. Qed.

(** Equality of integers as floats. *)
Lemma f64_eqb_int a b : - 2 ^ 53 ≤ a ≤ 2 ^ 53 → - 2 ^ 53 ≤ b ≤ 2 ^ 53 → SFeqb (f64_of_int a) (f64_of_int b) = true → a = b.
Proof.
  intros Ha Hb H. apply f64_of_int_inj; [done..|].
  assert (∀ z, - 2 ^ 53 ≤ z ≤ 2 ^ 53 → f64_of_int z = S754_zero false ∨ ∃ s M e, f64_of_int z = S754_finite s M e) as Hz.
  { intros z Hz. destruct (decide (z = 2 ^ 53)) as [->|H1]; [right; vm_compute; eauto|].
    destruct (decide (z = - 2 ^ 53)) as [->|H2]; [right; vm_compute; eauto|]. destruct z as [|m|m]; [by left| |].
    - destruct (f64_of_pos m ltac:(lia)) as (M & e & -> & _). eauto.
    - destruct (f64_of_neg m ltac:(lia)) as (M & e & -> & _). eauto. }
  destruct (Hz a Ha) as [Ea|(s & M & e & Ea)], (Hz b Hb) as [Eb|(s' & M' & e' & Eb)]; rewrite Ea, Eb in H |- *; unfold SFeqb in H; cbn in H; [done|by destruct s'|by destruct s|].
  change (Pos.compare_cont Eq M M') with (Pos.compare M M') in H.
  destruct s, s', (Z.compare_spec e e') as [->| |], (Pos.compare_spec M M') as [->| |]; done.
Qed.

(** The bounds within which every integer is a float. *)
Lemma f64_leb_bounds z : - 2 ^ 53 ≤ z ≤ 2 ^ 53 →
  f64_leb (f64_of_int (- 2 ^ 53)) (f64_of_int z) = true ∧ f64_leb (f64_of_int z) (f64_of_int (2 ^ 53)) = true.
Proof.
  intros Hz. destruct (decide (z = 2 ^ 53)) as [->|H1]; [by vm_compute|]. destruct (decide (z = - 2 ^ 53)) as [->|H2]; [by vm_compute|].
  assert (f64_of_int (2 ^ 53) = S754_finite false (2 ^ 52) 1) as -> by by vm_compute.
  assert (f64_of_int (- 2 ^ 53) = S754_finite true (2 ^ 52) 1) as -> by by vm_compute.
  destruct z as [|m|m]; [by vm_compute| |].
  - destruct (f64_of_pos m ltac:(lia)) as (M & e & -> & He & _). pose proof (digits_fit m ltac:(lia)).
    split; [done|]. unfold f64_leb, SFleb, SFcompare. destruct (Z.compare_spec e 1); [lia|done|lia].
  - destruct (f64_of_neg m ltac:(lia)) as (M & e & -> & He & _). pose proof (digits_fit m ltac:(lia)).
    split; [|done]. unfold f64_leb, SFleb, SFcompare. destruct (Z.compare_spec 1 e); [lia|lia|done].
Qed.
