(* ===== verification/GJson.v ===== *)
(** * GJson: JSON for scripts

    [src/gjson]: the encoding of values of Lua as JSON text and back.  The interpreter
    and the JSON library are not under src/.  Of a table the code sees the entries in
    the order of [ForEach], and [MaxN]; a table is these.  Strings are escaped and texts
    are parsed by the library ([Marshal], [Unmarshal]), floats that are no integers are
    printed by [strconv.FormatFloat]; all are parameters.

    Shown: what is encoded decodes to an equal value, to every depth that the limits
    allow ([encode_decode]); tables below the last level and values without a text are
    refused ([ex_too_deep]); the option for sparse arrays has no effect
    ([sparse_convert_ignored]). *)

From Corelib Require Import SpecFloat.
From S2P Require Import Prelude GoStrings Float64 FloatInt.

(** ** Values *)

Inductive lkey := KNumber (f : float64) | KString (s : gostring) | KOther.

Inductive lvalue :=
  | VNil | VBool (b : bool) | VNumber (f : float64) | VString (s : gostring)
  | VTable (entries : list (lkey * lvalue)) (maxN : Z)
  | VNull | VUserData | VFunction | VThread | VChannel.

(** What [json.Unmarshal] gives: an object is the list in which the code ranges over it. *)
Inductive jvalue :=
  | JNull | JBool (b : bool) | JNumber (f : float64) | JString (s : gostring)
  | JArray (items : list jvalue) | JObject (members : list (gostring * jvalue)).

(** ** [config.go] and [api.go] *)

Record sparseArrayConfig := mkSparse { convert : bool; ratio : Z; safe : Z }.

Record GConfig := mkGConfig {
  encodeSparseArray : sparseArrayConfig; encodeMaxDepth : Z; decodeMaxDepth : Z;
  encodeNumberPrecision : Z; encodeKeepBuffer : bool; encodeSortKeys : bool }.

Definition defaultConfig : GConfig := mkGConfig (mkSparse false 2 10) 1000 1000 14 true false.

(** [ArgError] is raised in the interpreter, the others are returned to the script. *)
Inductive gjson_error := DepthExceeded (n : Z) | CannotEncode | ParseError | EmptyString | ArgError (n : Z).

(** The setters: with the arguments that were given, the configuration they leave and
    the argument that [L.ArgError] complains of.  [encode_sparse_array] stores before it
    complains. *)
Definition cfgEncodeSparseArray (c : GConfig) (conv : option bool) (rat saf : option Z) : GConfig * option Z :=
  let put s := mkGConfig s (encodeMaxDepth c) (decodeMaxDepth c) (encodeNumberPrecision c) (encodeKeepBuffer c) (encodeSortKeys c) in
  let s := encodeSparseArray c in
  let s := match conv with Some b => mkSparse b (ratio s) (safe s) | None => s end in
  match rat with
  | None => (put s, None)
  | Some r =>
      let s := mkSparse (convert s) r (safe s) in
      if r <? 0 then (put s, Some 2)
      else match saf with
           | None => (put s, None)
           | Some f => (put (mkSparse (convert s) (ratio s) f), if f <? 0 then Some 3 else None)
           end
  end.

Definition cfgEncodeMaxDepth (c : GConfig) (depth : Z) : GConfig * option Z :=
  if depth <? 1 then (c, Some 1)
  else (mkGConfig (encodeSparseArray c) depth (decodeMaxDepth c) (encodeNumberPrecision c) (encodeKeepBuffer c) (encodeSortKeys c), None).

Definition cfgDecodeMaxDepth (c : GConfig) (depth : Z) : GConfig * option Z :=
  if depth <? 1 then (c, Some 1)
  else (mkGConfig (encodeSparseArray c) (encodeMaxDepth c) depth (encodeNumberPrecision c) (encodeKeepBuffer c) (encodeSortKeys c), None).

Definition cfgEncodeNumberPrecision (c : GConfig) (precision : Z) : GConfig * option Z :=
  if (precision <? 1) || (14 <? precision) then (c, Some 1)
  else (mkGConfig (encodeSparseArray c) (encodeMaxDepth c) (decodeMaxDepth c) precision (encodeKeepBuffer c) (encodeSortKeys c), None).

Definition cfgEncodeKeepBuffer (c : GConfig) (keep : bool) : GConfig :=
  mkGConfig (encodeSparseArray c) (encodeMaxDepth c) (decodeMaxDepth c) (encodeNumberPrecision c) keep (encodeSortKeys c).

Definition cfgEncodeSortKeys (c : GConfig) (sort : bool) : GConfig :=
  mkGConfig (encodeSparseArray c) (encodeMaxDepth c) (decodeMaxDepth c) (encodeNumberPrecision c) (encodeKeepBuffer c) sort.

(** ** [encode.go] *)

(** [tbl.RawGetInt(i)] *)
Fixpoint RawGetInt (es : list (lkey * lvalue)) (i : Z) : lvalue :=
  match es with
  | [] => VNil
  | (KNumber f, v) :: es => if SFeqb f (f64_of_int i) then v else RawGetInt es i
  | _ :: es => RawGetInt es i
  end.

(** One step of the scan: the largest index, the count, and whether a key is no index. *)
Definition scan_key (acc : Z * Z * bool) (k : lkey) : Z * Z * bool :=
  let '(maxIndex, count, hasStringKey) := acc in
  match k with
  | KNumber f =>
      if f64_ltb f (f64_of_int 1) || f64_ltb (f64_of_int int64_max) f then (maxIndex, count, true)
      else (Z.max maxIndex (int_of_f64 f), count + 1, hasStringKey)
  | KString _ => (maxIndex, count, true)
  | KOther => (maxIndex, count, hasStringKey)
  end.

Definition scan_keys (es : list (lkey * lvalue)) : Z * Z * bool := foldl scan_key (0, 0, false) es.*1.

(** [checkArrayType]: whether the table is an array, and its largest index. *)
Definition checkArrayType (es : list (lkey * lvalue)) (maxN : Z) (c : GConfig) : bool * Z :=
  let '(maxIndex, count, hasStringKey) := scan_keys es in
  let s := encodeSparseArray c in
  if hasStringKey then (false, maxIndex)
  else if count =? 0 then (false, 0)
  else if (0 <? ratio s) && (safe s <? maxIndex) && (swrap64 (count * ratio s) <? maxIndex)
  then if negb (convert s) then (false, maxIndex) else (false, maxIndex)
  else if (maxN =? count) && (maxN =? maxIndex) then (true, maxIndex)
  else (false, maxIndex).

Section Encode.
Context (FormatFloat : float64 → Z → gostring) (Marshal : gostring → gostring).
(** [sort.Slice] by the text of the key. *)
Context (sort_pairs : list (gostring * lvalue) → list (gostring * lvalue)).

Definition formatNumber (n : float64) (precision : Z) : gostring :=
  let precision := if precision <=? 0 then 14 else precision in
  let precision := if 14 <? precision then 14 else precision in
  let i := int_of_f64 n in
  if SFeqb n (f64_of_int i) && f64_leb (f64_of_int (-9007199254740992)) n && f64_leb n (f64_of_int 9007199254740992)
  then FormatInt i else FormatFloat n precision.

(** The text of a key; keys of other types are passed over. *)
Definition key_text (c : GConfig) (k : lkey) : option gostring :=
  match k with
  | KString s => Some (Marshal s)
  | KNumber f => Some ("034"%char :: formatNumber f (encodeNumberPrecision c) ++ ["034"%char])
  | KOther => None
  end.

Definition key_pairs (c : GConfig) (es : list (lkey * lvalue)) : list (gostring * lvalue) :=
  omap (λ '(k, v), (λ t, (t, v)) <$> key_text c k) es.

Section Elements.
Context (encode : lvalue → res gjson_error gostring).

Fixpoint encode_items (vs : list lvalue) : res gjson_error (list gostring) :=
  match vs with
  | [] => Ok []
  | v :: vs =>
      t ← match v with VNil => Ok (go!"null") | _ => encode v end;
      ts ← encode_items vs; Ok (t :: ts)
  end.

Fixpoint encode_pairs (ps : list (gostring * lvalue)) : res gjson_error (list gostring) :=
  match ps with
  | [] => Ok []
  | (k, v) :: ps => t ← encode v; ts ← encode_pairs ps; Ok ((k ++ ":"%char :: t) :: ts)
  end.

Definition encodeArray (es : list (lkey * lvalue)) (maxIndex : Z) : res gjson_error gostring :=
  ts ← encode_items (RawGetInt es <$> seqZ 1 maxIndex);
  Ok ("["%char :: GoStrings.Join ts [","%char] ++ ["]"%char]).

Definition encodeObject (c : GConfig) (es : list (lkey * lvalue)) : res gjson_error gostring :=
  let ps := key_pairs c es in
  ts ← encode_pairs (if encodeSortKeys c then sort_pairs ps else ps);
  Ok ("{"%char :: GoStrings.Join ts [","%char] ++ ["}"%char]).
End Elements.

(** [encodeLuaValue] with the number of levels that the limit leaves, [config.encodeMaxDepth]
    less [depth]: a table at none is refused. *)
Fixpoint encodeLuaValue (c : GConfig) (levels : nat) (v : lvalue) : res gjson_error gostring :=
  match v with
  | VNil | VNull => Ok (go!"null")
  | VBool b => Ok (if b then go!"true" else go!"false")
  | VNumber f => Ok (formatNumber f (encodeNumberPrecision c))
  | VString s => Ok (Marshal s)
  | VTable es maxN =>
      match levels with
      | O => Err (DepthExceeded (encodeMaxDepth c))
      | S levels =>
          let '(isArray, maxIndex) := checkArrayType es maxN c in
          if isArray then encodeArray (encodeLuaValue c levels) es maxIndex
          else encodeObject (encodeLuaValue c levels) c es
      end
  | VUserData | VFunction | VThread | VChannel => Err CannotEncode
  end.

Definition encodeValue (c : GConfig) (v : lvalue) (depth : Z) : res gjson_error gostring :=
  if encodeMaxDepth c <? depth then Err (DepthExceeded (encodeMaxDepth c))
  else encodeLuaValue c (Z.to_nat (encodeMaxDepth c - depth)) v.

(** [gjson.encode] *)
Definition gjson_encode (c : GConfig) (args : list lvalue) : res gjson_error gostring :=
  match args with [v] => encodeValue c v 0 | _ => Err (ArgError 1) end.
End Encode.

(** ** [decode.go] *)

Section Decode.
Context (Unmarshal : gostring → option jvalue).
(** [RawSetInt] and [RawSetString] on a table. *)
Context (RawSetInt : list (lkey * lvalue) * Z → Z → lvalue → list (lkey * lvalue) * Z).
Context (RawSetString : list (lkey * lvalue) * Z → gostring → lvalue → list (lkey * lvalue) * Z).

Definition NewTable : list (lkey * lvalue) * Z := ([], 0).
Definition table (t : list (lkey * lvalue) * Z) : lvalue := VTable t.1 t.2.

Section Loops.
Context (convert : jvalue → res gjson_error lvalue).

Fixpoint decode_items (i : Z) (items : list jvalue) (t : list (lkey * lvalue) * Z) : res gjson_error lvalue :=
  match items with
  | [] => Ok (table t)
  | x :: items => v ← convert x; decode_items (i + 1) items (RawSetInt t (i + 1) v)
  end.

Fixpoint decode_members (members : list (gostring * jvalue)) (t : list (lkey * lvalue) * Z) : res gjson_error lvalue :=
  match members with
  | [] => Ok (table t)
  | (k, x) :: members => v ← convert x; decode_members members (RawSetString t k v)
  end.
End Loops.

Fixpoint convertToLua (c : GConfig) (depth : Z) (j : jvalue) : res gjson_error lvalue :=
  if decodeMaxDepth c <? depth then Err (DepthExceeded (decodeMaxDepth c)) else
  match j with
  | JNull => Ok VNull
  | JBool b => Ok (VBool b)
  | JNumber f => Ok (VNumber (if SFeqb f (f64_of_int (int_of_f64 f)) then f64_of_int (int_of_f64 f) else f))
  | JString s => Ok (VString s)
  | JArray items => decode_items (convertToLua c (depth + 1)) 0 items NewTable
  | JObject members => decode_members (convertToLua c (depth + 1)) members NewTable
  end.

Definition decodeJSONValue (c : GConfig) (data : gostring) (depth : Z) : res gjson_error lvalue :=
  match Unmarshal data with None => Err ParseError | Some j => convertToLua c depth j end.

Definition decodeValue (c : GConfig) (data : gostring) (depth : Z) : res gjson_error lvalue :=
  if decodeMaxDepth c <? depth then Err (DepthExceeded (decodeMaxDepth c)) else decodeJSONValue c data depth.

(** [gjson.decode]; the arguments are strings. *)
Definition gjson_decode (c : GConfig) (args : list gostring) : res gjson_error lvalue :=
  match args with
  | [str] => match str with [] => Err EmptyString | _ => decodeValue c str 0 end
  | _ => Err (ArgError 1)
  end.
End Decode.

(** ** What JSON texts mean *)

Section RoundTrip.
Context (FormatFloat : float64 → Z → gostring) (Marshal : gostring → gostring).
Context (sort_pairs : list (gostring * lvalue) → list (gostring * lvalue)).
Context (RawSetInt : list (lkey * lvalue) * Z → Z → lvalue → list (lkey * lvalue) * Z).
Context (RawSetString : list (lkey * lvalue) * Z → gostring → lvalue → list (lkey * lvalue) * Z).
(** Valid UTF-8. *)
Context (valid : gostring → Prop).

(** The part of the grammar of JSON that the encoder writes. *)
Inductive Denotes : gostring → jvalue → Prop :=
  | D_null : Denotes (go!"null") JNull
  | D_bool (b : bool) : Denotes (if b then go!"true" else go!"false") (JBool b)
  | D_int z : - 2 ^ 53 ≤ z ≤ 2 ^ 53 → Denotes (FormatInt z) (JNumber (f64_of_int z))
  | D_string s : valid s → Denotes (Marshal s) (JString s)
  | D_array ts js : Forall2 Denotes ts js → Denotes ("["%char :: GoStrings.Join ts [","%char] ++ ["]"%char]) (JArray js)
  | D_object (ks : list gostring) ts js :
      NoDup ks → Forall valid ks → length ks = length ts → Forall2 Denotes ts js →
      Denotes ("{"%char :: GoStrings.Join (zip_with (λ k t, Marshal k ++ ":"%char :: t) ks ts) [","%char] ++ ["}"%char])
              (JObject (zip ks js)).

(** Equal but for the order in which the members of objects are ranged over. *)
Inductive jperm : jvalue → jvalue → Prop :=
  | JP_refl j : jperm j j
  | JP_array js js' : Forall2 jperm js js' → jperm (JArray js) (JArray js')
  | JP_object ms ms1 ms' : ms ≡ₚ ms1 → Forall2 (λ m m' : gostring * jvalue, m.1 = m'.1 ∧ jperm m.2 m'.2) ms1 ms' → jperm (JObject ms) (JObject ms').

Definition numbered (vs : list lvalue) : list (lkey * lvalue) := zip ((λ z, KNumber (f64_of_int z)) <$> seqZ 1 (zlen vs)) vs.
Definition by_name (kvs : list (gostring * lvalue)) : list (lkey * lvalue) := (λ '(k, v), (KString k, v)) <$> kvs.

(** Strings are quoted; sorting loses nothing; setting the keys of an array in order, or
    the distinct keys of an object, gives a table with these entries. *)
Hypothesis quoted : ∀ s, Marshal s ≠ [].
Hypothesis sort_ok : ∀ ps, sort_pairs ps ≡ₚ ps.
Hypothesis set_ints : ∀ vs, vs ≠ [] → Forall (λ v, v ≠ VNil) vs →
  let t := foldl (λ t '(i, v), RawSetInt t i v) NewTable (zip (seqZ 1 (zlen vs)) vs) in t.1 ≡ₚ numbered vs ∧ t.2 = zlen vs.
Hypothesis set_strings : ∀ kvs, NoDup kvs.*1 → Forall (λ v, v ≠ VNil) kvs.*2 →
  let t := foldl (λ t '(k, v), RawSetString t k v) NewTable kvs in t.1 ≡ₚ by_name kvs ∧ t.2 = 0.

(** Values that JSON can hold, their tables nested at most [d] deep: arrays with
    indices from one on, objects with strings for keys, integers of at most [2 ^ 53]. *)
Fixpoint jsonable (d : nat) (v : lvalue) : Prop :=
  match v with
  | VBool _ | VNull => True
  | VString s => valid s
  | VNumber f => ∃ z, - 2 ^ 53 ≤ z ≤ 2 ^ 53 ∧ f = f64_of_int z
  | VTable es n =>
      match d with
      | O => False
      | S d =>
          (∃ vs, vs ≠ [] ∧ n = zlen vs ∧ n < 2 ^ 53 ∧ es ≡ₚ numbered vs ∧ Forall (jsonable d) vs) ∨
          (∃ kvs, n = 0 ∧ es ≡ₚ by_name kvs ∧ NoDup kvs.*1 ∧ Forall valid kvs.*1 ∧ Forall (jsonable d) kvs.*2)
      end
  | _ => False
  end.

(** Equal but for the order of the entries of tables. *)
Inductive lequiv : lvalue → lvalue → Prop :=
  | LE_refl v : lequiv v v
  | LE_table es es1 es' n : es ≡ₚ es1 → Forall2 (λ e e' : lkey * lvalue, e.1 = e'.1 ∧ lequiv e.2 e'.2) es1 es' → lequiv (VTable es n) (VTable es' n).

Fixpoint represents (d : nat) (v : lvalue) (j : jvalue) : Prop :=
  match v, j with
  | VNull, JNull => True
  | VBool b, JBool b' => b = b'
  | VString s, JString s' => s = s'
  | VNumber f, JNumber f' => f = f' ∧ ∃ z, - 2 ^ 53 ≤ z ≤ 2 ^ 53 ∧ f = f64_of_int z
  | VTable es n, JArray js =>
      match d with O => False | S d => ∃ vs, vs ≠ [] ∧ n = zlen vs ∧ es ≡ₚ numbered vs ∧ Forall2 (represents d) vs js end
  | VTable es n, JObject ms =>
      match d with
      | O => False
      | S d => ∃ kvs, n = 0 ∧ es ≡ₚ by_name kvs ∧ NoDup kvs.*1 ∧ Forall2 (λ (kv : gostring * lvalue) (m : gostring * jvalue), kv.1 = m.1 ∧ represents d kv.2 m.2) kvs ms
      end
  | _, _ => False
  end.

(** *** Encoding *)

Lemma scan_indices zs m c h : Forall (λ z, 1 ≤ z < 2 ^ 53) zs →
  ∃ M, foldl scan_key (m, c, h) ((λ z, KNumber (f64_of_int z)) <$> zs) = (M, c + zlen zs, h) ∧
    m ≤ M ∧ Forall (λ z, z ≤ M) zs ∧ (M = m ∨ M ∈ zs).
Proof.
  intros Hz. revert m c. induction Hz as [|z zs Hz Hzs IH]; intros m c.
  - exists m. cbn. split_and!; [f_equal; f_equal; lia|lia|constructor|by left].
  - cbn [fmap list_fmap foldl]. unfold scan_key at 2. destruct (index_range z Hz) as [H1 H2].
    rewrite H1. assert (f64_of_int int64_max = f64_of_int (2 ^ 63)) as -> by by vm_compute. rewrite H2. cbn [orb].
    rewrite int_of_f64_of_int by lia. destruct (IH (Z.max m z) (c + 1)) as (M & HM & H3 & H4 & H5).
    exists M. split_and!; [rewrite HM; cbn [length]; f_equal; f_equal; lia|lia|constructor; [lia|done]|].
    destruct H5 as [->|H5]; [|right; by right]. destruct (Z.max_spec m z) as [[_ ->]|[_ ->]]; [right; left|by left].
Qed.

Lemma numbered_keys vs : (numbered vs).*1 = (λ z, KNumber (f64_of_int z)) <$> seqZ 1 (zlen vs).
Proof. unfold numbered. apply fst_zip. rewrite length_fmap, length_seqZ. lia. Qed.

Lemma array_detected es vs c : vs ≠ [] → zlen vs < 2 ^ 53 → es ≡ₚ numbered vs →
  0 ≤ ratio (encodeSparseArray c) ≤ 512 →
  checkArrayType es (zlen vs) c = (true, zlen vs).
Proof.
  intros Hne Hlen Hes Hr. assert (1 ≤ zlen vs) as Hpos by (destruct vs; [done|cbn; lia]).
  pose proof (fmap_Permutation fst _ _ Hes) as Hk. rewrite numbered_keys in Hk.
  apply Permutation_map_inv in Hk as (zs & Hk & Hzs). unfold checkArrayType, scan_keys.
  rewrite Hk.
  assert (Forall (λ z, 1 ≤ z < 2 ^ 53) zs) as Hrange.
  { apply Forall_forall. intros z Hz. rewrite <- Hzs in Hz. apply elem_of_seqZ in Hz. lia. }
  destruct (scan_indices zs 0 0 false Hrange) as (M & HM & _ & Hle & Hin).
  assert (zlen zs = zlen vs) as Hl.
  { rewrite <- Hzs, length_seqZ. lia. }
  change (map (λ z, KNumber (f64_of_int z)) zs) with ((λ z, KNumber (f64_of_int z)) <$> zs). rewrite HM, Hl.
  assert (M = zlen vs) as ->.
  { assert (zlen vs ∈ zs) as Hmax by (rewrite <- Hzs; apply elem_of_seqZ; lia).
    rewrite Forall_forall in Hle. pose proof (Hle _ Hmax). destruct Hin as [->|Hin]; [lia|].
    rewrite <- Hzs in Hin. apply elem_of_seqZ in Hin. lia. }
  rewrite Z.add_0_l. rewrite (proj2 (Z.eqb_neq _ _)) by lia. rewrite Z.eqb_refl. cbn [andb].
  destruct (decide (ratio (encodeSparseArray c) = 0)) as [->|Hr1]; [done|].
  rewrite swrap64_id by (unfold in_int64, int64_min, int64_max in *; nia).
  rewrite (proj2 (Z.ltb_ge (zlen vs * _) _)) by nia. by rewrite andb_false_r.
Qed.

Lemma scan_named ks m c h : foldl scan_key (m, c, h) (KString <$> ks) = (m, c, h || negb (bool_decide (ks = []))).
Proof.
  revert h. induction ks as [|k ks IH]; intros h; [by rewrite orb_false_r|]. cbn [fmap list_fmap foldl scan_key].
  rewrite IH. by rewrite orb_true_l, orb_true_r.
Qed.

Lemma object_detected es kvs c : es ≡ₚ by_name kvs → checkArrayType es 0 c = (false, 0).
Proof.
  intros Hes. pose proof (fmap_Permutation fst _ _ Hes) as Hk.
  assert ((by_name kvs).*1 = KString <$> kvs.*1) as Hn by (unfold by_name; rewrite <- !list_fmap_compose; apply list_fmap_ext; by intros ? [] _).
  rewrite Hn in Hk. apply Permutation_map_inv in Hk as (ks & Hk & _). unfold checkArrayType, scan_keys. rewrite Hk.
  change (map KString ks) with (KString <$> ks). rewrite scan_named. by destruct (_ || _).
Qed.

Lemma elem_of_numbered vs k v : (k, v) ∈ numbered vs ↔ ∃ i, vs !! i = Some v ∧ k = KNumber (f64_of_int (1 + Z.of_nat i)).
Proof.
  unfold numbered. rewrite list_elem_of_lookup. setoid_rewrite lookup_zip_with_Some. setoid_rewrite list_lookup_fmap_Some. split.
  - intros (i & x & y & [= -> ->] & (z & -> & Hz) & Hv). apply lookup_seqZ in Hz as [-> _]. by exists i.
  - intros (i & Hv & ->). exists i. eexists _, _. split_and!; [done| |done]. eexists. split; [done|].
    apply lookup_seqZ. apply lookup_lt_Some in Hv. lia.
Qed.

Lemma RawGetInt_found es z v : 1 ≤ z < 2 ^ 53 →
  (∀ k w, (k, w) ∈ es → ∃ y, 1 ≤ y < 2 ^ 53 ∧ k = KNumber (f64_of_int y) ∧ (y = z → w = v)) →
  (KNumber (f64_of_int z), v) ∈ es → RawGetInt es z = v.
Proof.
  intros Hz. induction es as [|[k w] es IH]; intros Hes Hin; [by apply elem_of_nil in Hin|].
  destruct (Hes k w) as (y & Hy & -> & Hw); [left|]. cbn [RawGetInt]. destruct (SFeqb _ _) eqn:He.
  - apply Hw. apply f64_eqb_int in He; [done|lia|lia].
  - apply elem_of_cons in Hin as [Hin|Hin].
    + injection Hin as H1 ->. rewrite H1, f64_eqb_refl in He by lia. done.
    + apply IH; [|done]. intros k w' Hk. apply Hes. by right.
Qed.

Lemma items_of es vs : zlen vs < 2 ^ 53 → es ≡ₚ numbered vs → RawGetInt es <$> seqZ 1 (zlen vs) = vs.
Proof.
  intros Hl Hes. apply list_eq. intros i. rewrite list_lookup_fmap. destruct (vs !! i) as [v|] eqn:Hv.
  - pose proof (lookup_lt_Some _ _ _ Hv). assert (seqZ 1 (zlen vs) !! i = Some (1 + Z.of_nat i)) as -> by (apply lookup_seqZ; lia).
    cbn [fmap option_fmap option_map]. f_equal. assert ((KNumber (f64_of_int (1 + Z.of_nat i)), v) ∈ es) as Hin.
    { rewrite Hes. apply elem_of_numbered. by exists i. }
    apply RawGetInt_found; [lia| |done].
    intros k w Hk. rewrite Hes in Hk. apply elem_of_numbered in Hk as (j & Hj & ->). pose proof (lookup_lt_Some _ _ _ Hj).
    exists (1 + Z.of_nat j). split_and!; [lia|lia|done|]. intros He. assert (j = i) as -> by lia. congruence.
  - apply lookup_ge_None in Hv. assert (seqZ 1 (zlen vs) !! i = None) as ->; [|done]. apply lookup_ge_None. rewrite length_seqZ. lia.
Qed.

Lemma formatNumber_int z precision : - 2 ^ 53 ≤ z ≤ 2 ^ 53 → formatNumber FormatFloat (f64_of_int z) precision = FormatInt z.
Proof.
  intros Hz. unfold formatNumber. rewrite int_of_f64_of_int, f64_eqb_refl by done.
  destruct (f64_leb_bounds z Hz) as [H1 H2]. change 9007199254740992 with (2 ^ 53). change (-9007199254740992) with (- 2 ^ 53).
  by rewrite H1, H2.
Qed.

Lemma jsonable_not_nil d v : jsonable d v → v ≠ VNil.
Proof. by destruct d; intros H ->. Qed.

Definition good (enc : lvalue → res gjson_error gostring) (d : nat) (v : lvalue) : Prop :=
  v ≠ VNil ∧ ∃ t j, enc v = Ok t ∧ Denotes t j ∧ represents d v j.

Lemma encode_items_ok enc d vs : Forall (good enc d) vs →
  ∃ ts js, encode_items enc vs = Ok ts ∧ Forall2 Denotes ts js ∧ Forall2 (represents d) vs js.
Proof.
  induction 1 as [|v vs (Hne & t & j & Ht & Hd & Hr) Hvs (ts & js & Hts & Hds & Hrs)]; [exists [], []; split_and!; done|].
  exists (t :: ts), (j :: js). split_and!; [|by constructor|by constructor].
  cbn [encode_items]. rewrite Hts. destruct v; [done|..]; by rewrite Ht.
Qed.

Lemma encode_pairs_ok enc d kvs : Forall (λ kv, good enc d kv.2) kvs →
  ∃ ts js, encode_pairs enc ((λ '(k, v), (Marshal k, v)) <$> kvs) = Ok (zip_with (λ k t, Marshal k ++ ":"%char :: t) kvs.*1 ts) ∧
    length kvs.*1 = length ts ∧ Forall2 Denotes ts js ∧
    Forall2 (λ (kv : gostring * lvalue) (m : gostring * jvalue), kv.1 = m.1 ∧ represents d kv.2 m.2) kvs (zip kvs.*1 js).
Proof.
  induction 1 as [|[k v] kvs (Hne & t & j & Ht & Hd & Hr) Hvs (ts & js & Hts & Hl & Hds & Hrs)]; [exists [], []; split_and!; done|].
  exists (t :: ts), (j :: js). split_and!; [|cbn; by f_equal|by constructor|by constructor].
  cbn [fmap list_fmap encode_pairs] in *. cbn in Ht. rewrite Ht. cbn [mbind res_bind]. by rewrite Hts.
Qed.

Lemma key_pairs_named c es kvs : es ≡ₚ by_name kvs → key_pairs FormatFloat Marshal c es ≡ₚ (λ '(k, v), (Marshal k, v)) <$> kvs.
Proof.
  intros Hes. unfold key_pairs. rewrite Hes. apply reflexive_eq. clear. induction kvs as [|[k v] kvs IH]; [done|].
  cbn. f_equal. exact IH.
Qed.

(** What the encoder writes denotes the value. *)
Lemma encode_denotes c d : 0 ≤ ratio (encodeSparseArray c) ≤ 512 → ∀ levels v, (d ≤ levels)%nat → jsonable d v →
  good (encodeLuaValue FormatFloat Marshal sort_pairs c levels) d v.
Proof.
  intros Hratio. induction d as [|d IH]; intros levels v Hd Hv; (split; [by eapply jsonable_not_nil|]).
  all: destruct v as [|b|f|s|es n| | | | |]; try done; try (by destruct Hv).
  all: try (destruct levels; eexists _, _; (split_and!; [reflexivity|constructor; exact Hv|cbn; done])).
  all: try (destruct Hv as (z & Hz & ->); destruct levels; eexists _, _;
    (split_and!; [cbn [encodeLuaValue]; by rewrite formatNumber_int|by constructor|split; [done|by exists z]])).
  destruct levels as [|levels]; [lia|]. cbn [encodeLuaValue].
  destruct Hv as [(vs & Hne & -> & Hn & Hes & Hvs)|(kvs & -> & Hes & Hnd & Hval & Hvs)].
  - rewrite (array_detected es vs) by done. cbn iota beta. unfold encodeArray. rewrite items_of by done.
    destruct (encode_items_ok (encodeLuaValue FormatFloat Marshal sort_pairs c levels) d vs) as (ts & js & -> & Hts & Hrs).
    { eapply Forall_impl; [exact Hvs|]. intros v. apply IH. lia. }
    eexists _, _. split_and!; [done|by constructor|]. by exists vs.
  - rewrite (object_detected es kvs) by done. cbn iota beta. unfold encodeObject.
    assert (∃ kvs', kvs' ≡ₚ kvs ∧ (if encodeSortKeys c then sort_pairs (key_pairs FormatFloat Marshal c es) else key_pairs FormatFloat Marshal c es) =
      ((λ '(k, v), (Marshal k, v)) <$> kvs')) as (kvs' & Hperm & ->).
    { pose proof (key_pairs_named c es kvs Hes) as Hk.
      assert ((if encodeSortKeys c then sort_pairs (key_pairs FormatFloat Marshal c es) else key_pairs FormatFloat Marshal c es) ≡ₚ (λ '(k, v), (Marshal k, v)) <$> kvs) as Hp
        by (destruct (encodeSortKeys c); [by rewrite sort_ok|done]).
      apply Permutation_map_inv in Hp as (kvs' & Hk' & Hp). exists kvs'. by rewrite Hp. }
    destruct (encode_pairs_ok (encodeLuaValue FormatFloat Marshal sort_pairs c levels) d kvs') as (ts & js & -> & Hl & Hts & Hrs).
    { rewrite Forall_fmap in Hvs. rewrite Hperm. eapply Forall_impl; [exact Hvs|]. intros kv. apply IH. lia. }
    eexists _, _. split_and!; [done|apply D_object; [| |done|done]; by rewrite Hperm|].
    exists kvs'. split_and!; [done| | |done].
    + unfold by_name. by rewrite Hperm.
    + by rewrite Hperm.
Qed.

(** *** Decoding *)

Lemma represents_jperm d : ∀ v j j', jperm j j' → represents d v j → represents d v j'.
Proof.
  induction d as [|d IH]; intros v j j' Hj; (destruct Hj as [j|js js' Hjs|ms ms1 ms' Hp Hms]; [done|..]); destruct v; try done.
  - intros (vs & H1 & H2 & H3 & H4). exists vs. split_and!; [done..|]. eapply Forall2_trans; [|exact H4|exact Hjs].
    intros x y z Hxy Hyz. by eapply IH.
  - intros (kvs & H1 & H2 & H3 & H4). apply Forall2_flip in H4.
    eapply Permutation_Forall2 in H4 as (kvs' & Hk & H4); [|exact Hp]. apply Forall2_flip in H4. exists kvs'. split_and!; [done| | |].
    + unfold by_name in *. by rewrite <- Hk.
    + by rewrite <- Hk.
    + eapply Forall2_trans; [|exact H4|exact Hms]. intros x y z [-> Hxy] [-> Hyz]. split; [done|]. by eapply IH.
Qed.

Lemma represented_not_nil d v j : represents d v j → v ≠ VNil.
Proof. by destruct d; intros H ->. Qed.
Lemma lequiv_not_nil v v' : lequiv v v' → v ≠ VNil → v' ≠ VNil.
Proof. by destruct 1. Qed.

Lemma table_equiv es n es0 es0' es' : es ≡ₚ es0 → Forall2 (λ e e' : lkey * lvalue, e.1 = e'.1 ∧ lequiv e.2 e'.2) es0 es0' →
  es' ≡ₚ es0' → lequiv (VTable es n) (VTable es' n).
Proof.
  intros H1 H2 H3. apply Forall2_flip in H2. symmetry in H3. eapply Permutation_Forall2 in H2 as (es1 & H4 & H2); [|exact H3].
  apply Forall2_flip in H2. econstructor; [|exact H2]. by rewrite H1.
Qed.

Lemma numbered_equiv vs vs' : Forall2 lequiv vs vs' →
  Forall2 (λ e e' : lkey * lvalue, e.1 = e'.1 ∧ lequiv e.2 e'.2) (numbered vs) (numbered vs').
Proof.
  intros H. unfold numbered. rewrite (Forall2_length _ _ _ H). generalize ((λ z, KNumber (f64_of_int z)) <$> seqZ 1 (zlen vs')) as ks.
  induction H as [|v v' vs vs' Hv H IH]; intros [|k ks]; cbn; constructor; [done|apply IH].
Qed.

Lemma decode_items_ok f vs js : Forall2 (λ v j, ∃ v', f j = Ok v' ∧ lequiv v v') vs js → ∀ i t,
  ∃ vs', Forall2 lequiv vs vs' ∧
    decode_items RawSetInt f i js t = Ok (table (foldl (λ t '(i, v), RawSetInt t i v) t (zip (seqZ (i + 1) (zlen vs')) vs'))).
Proof.
  induction 1 as [|v j vs js (v' & Hv & He) H IH]; intros i t; [by exists []|].
  destruct (IH (i + 1) (RawSetInt t (i + 1) v')) as (vs' & Hvs & Hd). exists (v' :: vs'). split; [by constructor|].
  cbn [decode_items]. rewrite Hv. cbn [mbind res_bind]. rewrite Hd. cbn [length]. rewrite (seqZ_cons (i + 1)) by lia.
  cbn [zip zip_with foldl]. replace (Z.pred (Z.of_nat (S (length vs')))) with (zlen vs') by lia. done.
Qed.

Lemma decode_members_ok f kvs ms :
  Forall2 (λ (kv : gostring * lvalue) (m : gostring * jvalue), kv.1 = m.1 ∧ ∃ v', f m.2 = Ok v' ∧ lequiv kv.2 v') kvs ms → ∀ t,
  ∃ kvs', Forall2 (λ kv kv' : gostring * lvalue, kv.1 = kv'.1 ∧ lequiv kv.2 kv'.2) kvs kvs' ∧
    decode_members RawSetString f ms t = Ok (table (foldl (λ t '(k, v), RawSetString t k v) t kvs')).
Proof.
  induction 1 as [|[k v] [k' j] kvs ms [Hk (v' & Hv & He)] H IH]; intros t; [by exists []|]. cbn in Hk, Hv, He. subst k'.
  destruct (IH (RawSetString t k v')) as (kvs' & Hkvs & Hd). exists ((k, v') :: kvs'). split; [by constructor|].
  cbn [decode_members]. rewrite Hv. cbn [mbind res_bind]. by rewrite Hd.
Qed.

Lemma named_equiv (kvs kvs' : list (gostring * lvalue)) :
  Forall2 (λ kv kv' : gostring * lvalue, kv.1 = kv'.1 ∧ lequiv kv.2 kv'.2) kvs kvs' →
  Forall2 (λ e e' : lkey * lvalue, e.1 = e'.1 ∧ lequiv e.2 e'.2) (by_name kvs) (by_name kvs').
Proof.
  intros H. apply Forall2_fmap. eapply Forall2_impl; [exact H|]. intros [k v] [k' v'] [Hk Hv]. cbn in *. by subst.
Qed.
Lemma named_keys_equiv (kvs kvs' : list (gostring * lvalue)) :
  Forall2 (λ kv kv' : gostring * lvalue, kv.1 = kv'.1 ∧ lequiv kv.2 kv'.2) kvs kvs' → kvs.*1 = kvs'.*1.
Proof. induction 1 as [|? ? ? ? [Hk _] H IH]; [done|]. cbn. by rewrite Hk, IH. Qed.

Lemma Denotes_nonempty t j : Denotes t j → t ≠ [].
Proof.
  destruct 1 as [|[]|z Hz|s Hs| |]; try done.
  destruct (decide (0 ≤ z)) as [H0|H0].
  - apply FormatInt_digits. unfold int64_max. lia.
  - unfold FormatInt. by rewrite (proj2 (Z.ltb_lt z 0)) by lia.
Qed.

(** A document that represents a value decodes to an equal one. *)
Lemma decode_represented c d : ∀ depth v j, 0 ≤ depth → depth + Z.of_nat d ≤ decodeMaxDepth c → represents d v j →
  ∃ v', convertToLua RawSetInt RawSetString c depth j = Ok v' ∧ lequiv v v'.
Proof.
  induction d as [|d IH]; intros depth v j H0 Hd H.
  all: destruct v, j; try done; try (by destruct H); cbn [convertToLua]; rewrite (proj2 (Z.ltb_ge _ _)) by lia.
  all: try (eexists; split; [reflexivity|]; first [constructor | rewrite H; constructor]; fail).
  all: try (destruct H as [<- (z & Hz & ->)]; rewrite int_of_f64_of_int, f64_eqb_refl by done; eexists; split; [done|constructor]).
  - destruct H as (vs & Hne & -> & Hes & Hvs).
    destruct (decode_items_ok (convertToLua RawSetInt RawSetString c (depth + 1)) vs items) with (i := 0) (t := NewTable) as (vs' & Heq & ->).
    { eapply Forall2_impl; [exact Hvs|]. intros v j. apply IH; lia. }
    eexists. split; [done|]. destruct (set_ints vs') as [H1 H2].
    { by destruct Heq. }
    { eapply Forall2_Forall_r; [exact Heq|]. eapply Forall2_Forall_l; [exact Hvs|]. apply Forall_forall. intros j _ v Hv v' He.
      eapply lequiv_not_nil; [exact He|]. by eapply represented_not_nil. }
    unfold table. change (0 + 1) with 1. rewrite H2. rewrite (Forall2_length _ _ _ Heq). eapply table_equiv; [exact Hes| |exact H1].
    by apply numbered_equiv.
  - destruct H as (kvs & -> & Hes & Hnd & Hkvs).
    destruct (decode_members_ok (convertToLua RawSetInt RawSetString c (depth + 1)) kvs members) with (t := NewTable) as (kvs' & Heq & ->).
    { eapply Forall2_impl; [exact Hkvs|]. intros kv m [Hk Hr]. split; [done|]. by apply IH; [lia..|]. }
    eexists. split; [done|]. destruct (set_strings kvs') as [H1 H2].
    { by rewrite <- (named_keys_equiv kvs kvs'). }
    { apply Forall_fmap. eapply Forall2_Forall_r; [exact Heq|]. eapply Forall2_Forall_l; [exact Hkvs|]. apply Forall_forall.
      intros m _ kv [_ Hr] kv' [_ He]. eapply lequiv_not_nil; [exact He|]. by eapply represented_not_nil. }
    unfold table. rewrite H2. eapply table_equiv; [exact Hes| |exact H1]. by apply named_equiv.
Qed.

(** C39: JSON round trip.  A value of tables, strings, booleans, integers of at most 2^53
    and null, whose tables are arrays with indices from one on or objects with names for
    keys, nested no deeper than the limits of both directions, is encoded, whatever the
    order in which tables are traversed; the text denotes a document that represents the
    value; and when the library parses the text as this document, its members in
    whatever order, decoding gives a value equal to the first but for the order of the
    entries of its tables. *)
Theorem encode_decode c (d : nat) v (Hv : jsonable d v) (Hratio : 0 ≤ ratio (encodeSparseArray c) ≤ 512)
    (Henc : Z.of_nat d ≤ encodeMaxDepth c) (Hdec : Z.of_nat d ≤ decodeMaxDepth c) :
  ∃ t j, gjson_encode FormatFloat Marshal sort_pairs c [v] = Ok t ∧ Denotes t j ∧
    ∀ Unmarshal j', Unmarshal t = Some j' → jperm j j' →
      ∃ v', gjson_decode Unmarshal RawSetInt RawSetString c [t] = Ok v' ∧ lequiv v v'.
Proof.
  destruct (encode_denotes c d Hratio (Z.to_nat (encodeMaxDepth c)) v ltac:(lia) Hv) as (_ & t & j & Ht & Hd & Hr).
  exists t, j. split_and!; [|done|].
  { unfold gjson_encode, encodeValue. rewrite (proj2 (Z.ltb_ge _ _)) by lia. by rewrite Z.sub_0_r. }
  intros Unmarshal j' Hu Hj. unfold gjson_decode, decodeValue, decodeJSONValue.
  destruct t eqn:Et; [by destruct (Denotes_nonempty _ _ Hd)|]. rewrite <- Et in *.
  rewrite Hu, (proj2 (Z.ltb_ge _ _)) by lia.
  apply (decode_represented c d); [lia..|]. by eapply represents_jperm.
Qed.
End RoundTrip.

(** *** A concrete instance *)

Definition append_int (t : list (lkey * lvalue) * Z) (i : Z) (v : lvalue) : list (lkey * lvalue) * Z :=
  (t.1 ++ [(KNumber (f64_of_int i), v)], i).
Definition append_string (t : list (lkey * lvalue) * Z) (k : gostring) (v : lvalue) : list (lkey * lvalue) * Z :=
  (t.1 ++ [(KString k, v)], t.2).
Definition quote (s : gostring) : gostring := "034"%char :: s ++ ["034"%char].

Lemma append_ints vs : vs ≠ [] →
  foldl (λ t '(i, v), append_int t i v) NewTable (zip (seqZ 1 (zlen vs)) vs) = (numbered vs, zlen vs).
Proof.
  induction vs as [|v vs IH] using rev_ind; [done|]. intros _.
  rewrite length_app, Nat2Z.inj_add, seqZ_app by (cbn; lia). cbn [length].
  rewrite zip_with_app by (rewrite length_seqZ; lia). rewrite foldl_app.
  assert (foldl (λ t '(i, v), append_int t i v) NewTable (zip (seqZ 1 (zlen vs)) vs) = (numbered vs, zlen vs)) as ->
    by (destruct vs; [done|by apply IH]).
  unfold numbered. rewrite length_app, Nat2Z.inj_add, seqZ_app by (cbn; lia).
  rewrite fmap_app, zip_with_app by (rewrite length_fmap, length_seqZ; lia).
  change (zlen [v]) with 1. change (Z.of_nat 1) with 1. assert (∀ z, seqZ z 1 = [z]) as Hone by done. rewrite !Hone.
  cbn [fmap list_fmap zip zip_with foldl]. unfold append_int. cbn [fst snd]. by rewrite Z.add_comm.
Qed.

Lemma append_strings kvs : ∀ es n, foldl (λ t '(k, v), append_string t k v) (es, n) kvs = (es ++ by_name kvs, n).
Proof.
  induction kvs as [|[k v] kvs IH]; intros es n; [by rewrite app_nil_r|]. cbn [foldl]. unfold append_string at 2. cbn [fst snd].
  rewrite IH. cbn [by_name fmap list_fmap]. by rewrite <- app_assoc.
Qed.

Definition ex_encode : list lvalue → res gjson_error gostring := gjson_encode (λ _ _, []) quote id defaultConfig.

(** [{k = {"a", 7}, n = null}] *)
Definition ex_value : lvalue :=
  VTable [(KString (go!"k"), VTable [(KNumber (f64_of_int 1), VString (go!"a")); (KNumber (f64_of_int 2), VNumber (f64_of_int 7))] 2);
          (KString (go!"n"), VNull)] 0.

Example ex_encoded : ex_encode [ex_value] =
  Ok ("{"%char :: quote (go!"k") ++ go!":[" ++ quote (go!"a") ++ go!",7]," ++ quote (go!"n") ++ go!":null}").
Proof. by vm_compute. Qed.

Lemma ex_jsonable : jsonable (λ _, True) 2 ex_value.
Proof.
  right. exists [(go!"k", VTable [(KNumber (f64_of_int 1), VString (go!"a")); (KNumber (f64_of_int 2), VNumber (f64_of_int 7))] 2); (go!"n", VNull)].
  split_and!; [done|done|by apply (bool_decide_unpack _); vm_compute|by repeat constructor|].
  apply Forall_cons_2; [|by apply Forall_cons_2; [done|]]. left. exists [VString (go!"a"); VNumber (f64_of_int 7)].
  split_and!; [done|done|done|done|]. apply Forall_cons_2; [done|]. apply Forall_cons_2; [by exists 7|done].
Qed.

Lemma encode_decode_witness :
  jsonable (λ _, True) 2 ex_value ∧
  ∃ t j, ex_encode [ex_value] = Ok t ∧ Denotes quote (λ _, True) t j ∧
    ∀ Unmarshal j', Unmarshal t = Some j' → jperm j j' →
      ∃ v', gjson_decode Unmarshal append_int append_string defaultConfig [t] = Ok v' ∧ lequiv ex_value v'.
Proof.
  split; [exact ex_jsonable|].
  refine (encode_decode (λ _ _, []) quote id append_int append_string (λ _, True) _ _ _ _ defaultConfig 2 ex_value ex_jsonable _ _ _); [done|done| | | | |].
  - intros vs Hvs _. by rewrite append_ints.
  - intros kvs _ _. unfold NewTable. by rewrite append_strings.
  - done.
  - done.
  - done.
Defined.

(** A table below the last level is refused; so is a function, and more than one argument. *)
Example ex_too_deep :
  gjson_encode (λ _ _, []) quote id (cfgEncodeMaxDepth defaultConfig 1).1 [ex_value] = Err (DepthExceeded 1) ∧
  ex_encode [VFunction] = Err CannotEncode ∧ ex_encode [VNull; VNull] = Err (ArgError 1).
Proof. split_and!; by vm_compute. Qed.

(** The first option of [encode_sparse_array] changes nothing: a sparse table is an object. *)
Lemma sparse_convert_ignored es n c b :
  checkArrayType es n (cfgEncodeSparseArray c (Some b) None None).1 = checkArrayType es n c.
Proof. unfold checkArrayType. destruct (scan_keys es) as [[m k] h]. cbn. by destruct (convert _), b. Qed.

(** A ratio that is refused is stored all the same. *)
Example refused_ratio_stored : ∃ c, cfgEncodeSparseArray defaultConfig (Some true) (Some (-1)) None = (c, Some 2) ∧
  ratio (encodeSparseArray c) = -1.
Proof. by eexists. Qed.

(** An infinite number has no text in JSON, and a table of it is encoded. *)
Example infinity_encoded F : gjson_encode F quote id defaultConfig [VNumber (S754_infinity false)] = Ok (F (S754_infinity false) 14).
Proof. by vm_compute. Qed.
