(* ===== verification/Ocsp.v ===== *)
(** * Ocsp: the stapling of OCSP responses

    [src/internal/ssl/ocsp.go]: the responses that the manager keeps for its
    certificates, their refreshing, and what a handshake is given.  The network, the
    building of requests and the parsing of responses are not under src/ and are
    parameters; the goroutine that refreshes, the registrations and the handshakes are
    threads over the state of the manager, one section per stretch under its lock.
    Certificates are kept by the decimal form of their serial numbers; here the number
    is the key.

    Shown: under every interleaving what a handshake is given came from a server of a
    certificate registered under that serial number, parsed against the issuer it was
    registered with, and says that the certificate is good ([stapled_is_good]); how many
    failures make a response unusable ([refresh_gives_up]). *)

From S2P Require Import Prelude Threads.

(** What the code reads of a certificate. *)
Record Certificate := mkCertificate { SerialNumber : Z; OCSPServer : list gostring; Raw : gostring }.
#[export] Instance Certificate_eq_dec : EqDecision Certificate.
Proof. solve_decision. Defined.

Inductive OCSPStatus := statusValid | statusStale | statusFailed.
#[export] Instance OCSPStatus_eq_dec : EqDecision OCSPStatus.
Proof. solve_decision. Defined.

(** Times are in nanoseconds; [fetchedAt] is never read. *)
Record ocspResponse := mkResponse {
  thisUpdate : Z; nextUpdate : Z; response : gostring; status : OCSPStatus; errors : Z }.

Definition with_status (s : OCSPStatus) (r : ocspResponse) : ocspResponse :=
  mkResponse (thisUpdate r) (nextUpdate r) (response r) s (errors r).

Record certPair := mkPair { cert : Certificate; issuer : Certificate }.

Record OCSPConfig := mkOCSPConfig { RefreshInterval : Z; Timeout : Z; MaxRetries : Z }.
Definition DefaultOCSPConfig : OCSPConfig := mkOCSPConfig (3600 * second) (10 * second) 3.

(** The responses are pointers to objects, which handshakes keep while the manager
    replaces them. *)
Record OCSPManager := mkOCSP {
  responses : gmap Z nat; objects : list ocspResponse; certs : gmap Z certPair;
  refreshInterval : Z; timeout : Z; maxRetries : Z; running : bool; stopClosed : bool; panicked : bool }.

Definition NewOCSPManager (cfg : option OCSPConfig) : OCSPManager :=
  let cfg := default DefaultOCSPConfig cfg in
  mkOCSP ∅ [] ∅ (if RefreshInterval cfg =? 0 then 3600 * second else RefreshInterval cfg)
    (if Timeout cfg =? 0 then 10 * second else Timeout cfg)
    (if MaxRetries cfg =? 0 then 3 else MaxRetries cfg) false false false.

Definition with_store (rs : gmap Z nat) (os : list ocspResponse) (m : OCSPManager) : OCSPManager :=
  mkOCSP rs os (certs m) (refreshInterval m) (timeout m) (maxRetries m) (running m) (stopClosed m) (panicked m).
Definition with_certs (cs : gmap Z certPair) (m : OCSPManager) : OCSPManager :=
  mkOCSP (responses m) (objects m) cs (refreshInterval m) (timeout m) (maxRetries m) (running m) (stopClosed m) (panicked m).
Definition with_running (b : bool) (m : OCSPManager) : OCSPManager :=
  mkOCSP (responses m) (objects m) (certs m) (refreshInterval m) (timeout m) (maxRetries m) b (stopClosed m) (panicked m).
(** Closing a channel that is closed panics. *)
Definition close_stop (m : OCSPManager) : OCSPManager :=
  mkOCSP (responses m) (objects m) (certs m) (refreshInterval m) (timeout m) (maxRetries m) (running m) true (stopClosed m).

(** [m.responses[serial] = &ocspResponse{...}] *)
Definition put_response (serial : Z) (r : ocspResponse) (m : OCSPManager) : OCSPManager :=
  with_store (<[serial := length (objects m)]> (responses m)) (objects m ++ [r]) m.
Definition on_object (p : nat) (f : ocspResponse → ocspResponse) (m : OCSPManager) : OCSPManager :=
  with_store (responses m) (alter f p (objects m)) m.

Inductive ocsp_error :=
  | CertificateNil | NoServer | CreateFailed | RequestFailed | DoFailed | BadStatusCode (n : Z) | ReadFailed
  | ParseFailed | NotGood (status : Z) | SerialMismatch | AllFailed (last : option ocsp_error) | FetchFailed (e : ocsp_error).

(** ** Fetching *)

(** What one attempt meets: no request could be built, no answer came, or an answer
    with its code and the first megabyte of its body. *)
Inductive http_answer := NoRequest | NoAnswer | Answered (code : Z) (body : option gostring).

(** What the library makes of a response. *)
Record parsed := mkParsed { p_status : Z; p_serial : Z; p_thisUpdate : Z; p_nextUpdate : Z }.
Definition Good : Z := 0.

Section Ocsp.
Context (CreateRequest : Certificate → Certificate → option gostring).
Context (ParseResponse : gostring → Certificate → option parsed).

(** The network during one fetch: for a server and the number of the attempt, the answer. *)
Abbreviation network := (gostring → Z → http_answer).

Definition singleOCSPAttempt (a : http_answer) : res ocsp_error gostring :=
  match a with
  | NoRequest => Err RequestFailed
  | NoAnswer => Err DoFailed
  | Answered code body =>
      if negb (code =? 200) then Err (BadStatusCode code)
      else match body with None => Err ReadFailed | Some b => Ok b end
  end.

(** [for i := 0; i < m.maxRetries; i++]; without an attempt both results are nil. *)
Fixpoint attempts (net : Z → http_answer) (i : Z) (n : nat) (last : option ocsp_error) : res (option ocsp_error) gostring :=
  match n with
  | O => match last with None => Ok [] | Some e => Err (Some e) end
  | S n =>
      match singleOCSPAttempt (net i) with
      | Err e => match n with O => Err (Some e) | _ => attempts net (i + 1) n (Some e) end
      | Ok body => Ok body
      end
  end.

Definition sendOCSPRequest (m : OCSPManager) (net : network) (url : gostring) : res (option ocsp_error) gostring :=
  attempts (net url) 0 (Z.to_nat (maxRetries m)) None.

(** [big.Int.Bytes]: the absolute value. *)
Definition same_serial (a b : Z) : bool := Z.abs a =? Z.abs b.

Fixpoint try_servers (m : OCSPManager) (net : network) (c i : Certificate) (urls : list gostring) (last : option ocsp_error)
  : res ocsp_error ocspResponse :=
  match urls with
  | [] => Err (AllFailed last)
  | url :: urls =>
      match sendOCSPRequest m net url with
      | Err e => try_servers m net c i urls e
      | Ok data =>
          match ParseResponse data i with
          | None => try_servers m net c i urls (Some ParseFailed)
          | Some p =>
              if negb (p_status p =? Good) then Err (NotGood (p_status p))
              else if negb (same_serial (p_serial p) (SerialNumber c)) then Err SerialMismatch
              else Ok (mkResponse (p_thisUpdate p) (p_nextUpdate p) data statusValid 0)
          end
      end
  end.

Definition fetchOCSP (m : OCSPManager) (net : network) (c i : Certificate) : res ocsp_error ocspResponse :=
  match OCSPServer c with
  | [] => Err NoServer
  | urls => match CreateRequest c i with None => Err CreateFailed | Some _ => try_servers m net c i urls None end
  end.

(** ** The manager *)

(** [RegisterCertificate] without interference, as it runs while the server starts. *)
Definition RegisterCertificate (m : OCSPManager) (net : network) (c : option Certificate) (i : Certificate)
  : option ocsp_error * OCSPManager :=
  match c with
  | None => (Some CertificateNil, m)
  | Some c =>
      if decide (OCSPServer c = []) then (Some NoServer, m)
      else
        let m := with_certs (<[SerialNumber c := mkPair c i]> (certs m)) m in
        match fetchOCSP m net c i with
        | Err e => (Some (FetchFailed e), put_response (SerialNumber c) (mkResponse 0 0 [] statusFailed 1) m)
        | Ok r => (None, put_response (SerialNumber c) r m)
        end
  end.

(** The response that a handshake reads under the first lock: what it returns, and
    whether it then marks the object. *)
Definition get_read (m : OCSPManager) (now serial : Z) : option gostring * option nat :=
  match p ← responses m !! serial; r ← objects m !! p; Some (p, r) with
  | None => (None, None)
  | Some (p, r) =>
      match status r with
      | statusValid => (Some (response r), if nextUpdate r <? now then Some p else None)
      | statusStale => (Some (response r), None)
      | statusFailed => (None, None)
      end
  end.

(** Under the second lock: only if the response is still the same object. *)
Definition get_mark (serial : Z) (p : nat) (m : OCSPManager) : OCSPManager :=
  if decide (responses m !! serial = Some p) then on_object p (with_status statusStale) m else m.

Definition GetOCSPResponse (m : OCSPManager) (now serial : Z) : option gostring * OCSPManager :=
  let '(r, mark) := get_read m now serial in
  (r, match mark with None => m | Some p => get_mark serial p m end).

(** A refresh that failed; the number of failures is an [int]. *)
Definition fail_response (maxRetries : Z) (r : ocspResponse) : ocspResponse :=
  let n := swrap64 (errors r + 1) in
  mkResponse (thisUpdate r) (nextUpdate r) (response r) (if maxRetries <=? n then statusFailed else status r) n.

Definition needs_refresh (now : Z) (r : ocspResponse) : bool :=
  (nextUpdate r <? now) || bool_decide (status r ≠ statusValid).

(** ** Threads *)

Inductive section :=
  | ORegister (c i : Certificate)
  | OFetchFirst (c i : Certificate)
  | OStore (serial : Z) (r : ocspResponse)
  | OLoop
  | OScan
  | ORefresh (serial : Z)
  | OFetch (serial : Z) (pr : certPair)
  | OFailed (serial : Z)
  | OMark (serial : Z) (p : nat)
  | OStop | OCloseChan
  | OStart | OSpawn.

(** What the world answers: the time, the network, or which case of the select is taken. *)
Inductive answer := ANone | ANow (now : Z) | ANet (net : network) | ATick | AStopped.

(** The order in which the map of responses is ranged over. *)
Context (order : gmap Z nat → list (Z * nat)).

Definition to_refresh (m : OCSPManager) (now : Z) : list Z :=
  omap (λ '(serial, p), match objects m !! p with Some r => if needs_refresh now r then Some serial else None | None => None end)
    (order (responses m)).

Definition run_section (a : section) (o : answer) (m : OCSPManager) : option (OCSPManager * list section * list (list section)) :=
  let ok m' before : option (OCSPManager * list section * list (list section)) := Some (m', before, []) in
  if panicked m then None else
  match a with
  | ORegister c i => ok (with_certs (<[SerialNumber c := mkPair c i]> (certs m)) m) [OFetchFirst c i]
  | OFetchFirst c i =>
      match o with
      | ANet net =>
          ok m [OStore (SerialNumber c) (match fetchOCSP m net c i with Ok r => r | Err _ => mkResponse 0 0 [] statusFailed 1 end)]
      | _ => None
      end
  | OStore serial r => ok (put_response serial r m) []
  | OLoop =>
      match o with
      | ATick => ok m [OScan; OLoop]
      | AStopped => if stopClosed m then ok m [] else None
      | _ => None
      end
  | OScan => match o with ANow now => ok m (ORefresh <$> to_refresh m now) | _ => None end
  | ORefresh serial => ok m (match certs m !! serial with None => [] | Some pr => [OFetch serial pr] end)
  | OFetch serial pr =>
      match o with
      | ANet net => ok m [match fetchOCSP m net (cert pr) (issuer pr) with Ok r => OStore serial r | Err _ => OFailed serial end]
      | _ => None
      end
  | OFailed serial =>
      ok (match responses m !! serial with Some p => on_object p (fail_response (maxRetries m)) m | None => m end) []
  | OMark serial p => ok (get_mark serial p m) []
  | OStart => ok (if running m then m else with_running true m) (if running m then [] else [OSpawn])
  | OSpawn => Some (m, [], [[OLoop]])
  | OStop => ok (if running m then with_running false m else m) (if running m then [OCloseChan] else [])
  | OCloseChan => ok (close_stop m) []
  end.

Inductive call := Register (c : option Certificate) (i : Certificate) | Get (now serial : Z) | Start | Stop.

Definition act (c : call) (m : OCSPManager) : option (OCSPManager * list (list section)) :=
  match c with
  | Register None _ => Some (m, [])
  | Register (Some c) i => Some (m, if decide (OCSPServer c = []) then [] else [[ORegister c i]])
  | Get now serial => Some (m, match (get_read m now serial).2 with None => [] | Some p => [[OMark serial p]] end)
  | Start => Some (m, [[OStart]])
  | Stop => Some (m, [[OStop]])
  end.

#[export] Instance ocsp_machine : Machine OCSPManager section answer call := {| Threads.run_section := run_section; Threads.act := act |}.
End Ocsp.

(** ** What is stapled *)

Section Stapled.
Context (CreateRequest : Certificate → Certificate → option gostring).
Context (ParseResponse : gostring → Certificate → option parsed).
Context (order : gmap Z nat → list (Z * nat)).
#[local] Existing Instance ocsp_machine.
Abbreviation machine := (ocsp_machine CreateRequest ParseResponse order).
Abbreviation run := (Threads.run (M := machine)).
Abbreviation step := (Threads.step (M := machine)).

(** The data say, for the issuer, that the certificate is good. *)
Definition vouched (c i : Certificate) (data : gostring) : Prop :=
  ∃ p, ParseResponse data i = Some p ∧ p_status p = Good ∧ same_serial (p_serial p) (SerialNumber c) = true.

Lemma try_servers_vouched m net c i urls last r :
  try_servers ParseResponse m net c i urls last = Ok r → vouched c i (response r) ∧ status r = statusValid ∧ errors r = 0.
Proof.
  revert last. induction urls as [|url urls IH]; intros last; cbn [try_servers]; [done|].
  destruct (sendOCSPRequest m net url) as [data|e]; [|apply IH]. destruct (ParseResponse data i) as [p|] eqn:Hp; [|apply IH].
  destruct (Z.eqb_spec (p_status p) Good) as [Hg|]; [|done]. destruct (same_serial _ _) eqn:Hs; [|done].
  intros [= <-]. split; [|done]. by exists p.
Qed.

Lemma fetch_vouched m net c i r :
  fetchOCSP CreateRequest ParseResponse m net c i = Ok r → vouched c i (response r) ∧ status r = statusValid ∧ errors r = 0.
Proof. unfold fetchOCSP. destruct (OCSPServer c); [done|]. destruct (CreateRequest c i); [|done]. apply try_servers_vouched. Qed.

Section Registered.
(** The pairs that were registered. *)
Context (P : Certificate → Certificate → Prop).

Definition good_for (serial : Z) (data : gostring) : Prop := ∃ c i, P c i ∧ SerialNumber c = serial ∧ vouched c i data.

Definition response_ok (serial : Z) (r : ocspResponse) : Prop := status r = statusFailed ∨ good_for serial (response r).

Definition pair_ok (serial : Z) (pr : certPair) : Prop := SerialNumber (cert pr) = serial ∧ P (cert pr) (issuer pr).

Record manager_ok (m : OCSPManager) : Prop := {
  ok_certs : ∀ serial pr, certs m !! serial = Some pr → pair_ok serial pr;
  ok_pointers : ∀ serial p, responses m !! serial = Some p → (p < length (objects m))%nat;
  ok_own : ∀ serial serial' p, responses m !! serial = Some p → responses m !! serial' = Some p → serial = serial';
  ok_responses : ∀ serial p r, responses m !! serial = Some p → objects m !! p = Some r → response_ok serial r }.

Definition section_ok (m : OCSPManager) (a : section) : Prop :=
  match a with
  | ORegister c i | OFetchFirst c i => P c i
  | OStore serial r => response_ok serial r
  | OFetch serial pr => pair_ok serial pr
  | OMark serial p => ∃ r, objects m !! p = Some r ∧ good_for serial (response r)
  | _ => True
  end.

(** Objects are only added, and their data stay. *)
Definition grows (m m' : OCSPManager) : Prop :=
  ∀ p r, objects m !! p = Some r → ∃ r', objects m' !! p = Some r' ∧ response r' = response r.

Lemma grows_refl m m' : objects m' = objects m → grows m m'.
Proof. intros He p r Hp. exists r. by rewrite He. Qed.
Lemma grows_put m serial r : grows m (put_response serial r m).
Proof. intros p r' Hp. exists r'. split; [|done]. by apply lookup_app_l_Some. Qed.
Lemma grows_on m p f : (∀ r, response (f r) = response r) → grows m (on_object p f m).
Proof.
  intros Hf q r Hq. cbn. destruct (decide (q = p)) as [->|Hne].
  - exists (f r). rewrite list_lookup_alter_eq, Hq. split; [done|apply Hf].
  - exists r. by rewrite list_lookup_alter_ne.
Qed.
Lemma section_grows m m' a : grows m m' → section_ok m a → section_ok m' a.
Proof.
  intros Hg. destruct a; try done. intros (r & Hr & Hok). destruct (Hg _ _ Hr) as (r' & Hr' & He).
  exists r'. by rewrite He.
Qed.

Lemma ok_put serial r m : response_ok serial r → manager_ok m → manager_ok (put_response serial r m).
Proof.
  intros Hr [H1 H2 H3 H4]. split; cbn.
  - exact H1.
  - intros s p [[<- <-]|[Hne Hp]]%lookup_insert_Some; rewrite length_app; cbn; [lia|]. specialize (H2 _ _ Hp). lia.
  - intros s s' p [[<- <-]|[Hne Hp]]%lookup_insert_Some [[<- Hp']|[Hne' Hp']]%lookup_insert_Some; [done| | |by eapply H3].
    + specialize (H2 _ _ Hp'). lia.
    + specialize (H2 _ _ Hp). subst. lia.
  - intros s p r' [[<- <-]|[Hne Hp]]%lookup_insert_Some Hr'.
    + rewrite lookup_app_r, Nat.sub_diag in Hr' by done. by injection Hr' as <-.
    + rewrite lookup_app_l in Hr' by by eapply H2. by eapply H4.
Qed.

Lemma ok_on serial p f m : responses m !! serial = Some p →
  (∀ r, objects m !! p = Some r → response_ok serial r → response_ok serial (f r)) →
  manager_ok m → manager_ok (on_object p f m).
Proof.
  intros Hs Hf [H1 H2 H3 H4]. split; cbn.
  - exact H1.
  - intros s q Hq. rewrite length_alter. by eapply H2.
  - exact H3.
  - intros s q r Hq Hr. destruct (decide (q = p)) as [->|Hne].
    + assert (s = serial) as -> by by eapply H3. rewrite list_lookup_alter_eq in Hr.
      destruct (objects m !! p) as [r0|] eqn:Hp; [|done]. injection Hr as <-. apply Hf; [done|]. by eapply H4.
    + rewrite list_lookup_alter_ne in Hr by done. by eapply H4.
Qed.

Lemma section_step a o m m' before started : manager_ok m → section_ok m a →
  run_section CreateRequest ParseResponse order a o m = Some (m', before, started) →
  manager_ok m' ∧ grows m m' ∧ Forall (section_ok m') before ∧ Forall (Forall (section_ok m')) started.
Proof.
  intros Hm Ha. unfold run_section. destruct (panicked m); [done|].
  destruct a as [c i|c i|serial r| | |serial|serial pr|serial|serial p| | | |]; cbn in Ha.
  - intros [= <- <- <-]. split_and!; [|by apply grows_refl|by repeat constructor|done]. destruct Hm as [H1 H2 H3 H4]. split; cbn; try done.
    intros s pr [[<- <-]|[_ Hp]]%lookup_insert_Some; [by split|by apply H1].
  - destruct o as [| |net| |]; try done. intros [= <- <- <-]. split_and!; [done|by apply grows_refl| |done].
    apply Forall_singleton. cbn. destruct (fetchOCSP _ _ _ _ _ _) as [r|] eqn:Hf; [|by left].
    right. exists c, i. split_and!; [done|done|]. by eapply fetch_vouched.
  - intros [= <- <- <-]. split_and!; [by apply ok_put|apply grows_put|done|done].
  - destruct o; try done; [|destruct (stopClosed m); [|done]]; intros [= <- <- <-];
      (split_and!; [done|by apply grows_refl|by repeat constructor|done]).
  - destruct o as [|now| | |]; try done. intros [= <- <- <-]. split_and!; [done|by apply grows_refl| |done].
    apply Forall_fmap, Forall_forall. done.
  - intros [= <- <- <-]. split_and!; [done|by apply grows_refl| |done]. destruct (certs m !! serial) as [pr|] eqn:Hc; [|done].
    apply Forall_singleton. by apply (ok_certs _ Hm).
  - destruct o as [| |net| |]; try done. intros [= <- <- <-]. split_and!; [done|by apply grows_refl| |done].
    apply Forall_singleton. destruct (fetchOCSP _ _ _ _ _ _) as [r|] eqn:Hf; [|done].
    right. destruct Ha as [Hs HP]. exists (cert pr), (issuer pr). split_and!; [done|done|]. by eapply fetch_vouched.
  - intros [= <- <- <-]. destruct (responses m !! serial) as [p|] eqn:Hp; [|split_and!; [done|by apply grows_refl|done|done]].
    split_and!; [|by apply grows_on|done|done]. apply (ok_on serial); [done| |done].
    intros r Hr [Hs|Hg]; [left|by right]. cbn. by destruct (_ <=? _).
  - intros [= <- <- <-]. unfold get_mark. destruct (decide _) as [Hp|_]; [|split_and!; [done|by apply grows_refl|done|done]].
    split_and!; [|by apply grows_on|done|done]. apply (ok_on serial); [done| |done]. intros r Hr _. right.
    destruct Ha as (r' & Hr' & Hg). assert (r' = r) as -> by congruence. exact Hg.
  - intros [= <- <- <-]. split_and!; [|apply grows_refl; by destruct (running m)|by destruct (running m); repeat constructor|done].
    destruct (running m); [by destruct Hm|done].
  - intros [= <- <- <-]. split_and!; [by destruct Hm|by apply grows_refl|done|done].
  - intros [= <- <- <-]. split_and!; [|apply grows_refl; by destruct (running m)|by destruct (running m); repeat constructor|done].
    destruct (running m); [done|by destruct Hm].
  - intros [= <- <- <-]. split_and!; [done|by apply grows_refl|done|by repeat constructor].
Qed.

Definition world_ok (w : world OCSPManager section) : Prop := manager_ok (shared w) ∧ Forall (Forall (section_ok (shared w))) (threads w).

Definition event_ok (e : event answer call) : Prop := match e with Act (Register (Some c) i) => P c i | _ => True end.

Lemma get_read_ok m now serial data : manager_ok m → (get_read m now serial).1 = Some data → good_for serial data.
Proof.
  intros Hm. unfold get_read. destruct (responses m !! serial) as [p|] eqn:Hp; [|done]. cbn.
  destruct (objects m !! p) as [r|] eqn:Hr; [|done]. cbn. pose proof (ok_responses _ Hm _ _ _ Hp Hr) as Hok.
  destruct (status r) eqn:Hs; cbn; try done; intros [= <-]; destruct Hok as [Hf|]; done || congruence.
Qed.

Lemma world_step w e w' : world_ok w → event_ok e → step w e = Some w' → world_ok w'.
Proof.
  intros [Hm Ht] He. destruct e as [k o|c]; cbn [Threads.step].
  - intros Hs. apply bind_Some in Hs as ([|a rest] & Hk & Hs); [done|]. apply bind_Some in Hs as ([[m' before] started] & Hr & [= <-]).
    pose proof (Forall_lookup_1 _ _ _ _ Ht Hk) as [Ha Hrest]%Forall_cons.
    destruct (section_step _ _ _ _ _ _ Hm Ha Hr) as (Hm' & Hg & Hb & Hst). split; [done|]. cbn [threads shared].
    assert (∀ t, Forall (section_ok (shared w)) t → Forall (section_ok m') t) as Hmono
      by (intros t Hx; eapply Forall_impl; [exact Hx|]; intros x; by apply section_grows).
    apply Forall_app. split; [|done]. apply Forall_insert; [by eapply Forall_impl|]. apply Forall_app. by auto.
  - intros Hs. apply bind_Some in Hs as ([m' started] & Ha & [= <-]). destruct c as [[c|] i|now serial| |]; cbn in Ha; injection Ha as <- <-.
    all: split; [done|]; cbn [threads shared]; apply Forall_app; split; [done|]; try done; try by repeat constructor.
    + destruct (decide _); [done|]. by repeat constructor.
    + destruct (get_read (shared w) now serial).2 as [p|] eqn:Hg; [|done]. apply Forall_singleton, Forall_singleton.
      unfold get_read in Hg. destruct (responses (shared w) !! serial) as [q|] eqn:Hq; [|done]. cbn in Hg.
      destruct (objects (shared w) !! q) as [r|] eqn:Hr; [|done]. cbn in Hg. destruct (status r) eqn:Hst; cbn in Hg; try done.
      destruct (_ <? _); [|done]. injection Hg as <-. exists r. split; [done|].
      destruct (ok_responses _ Hm _ _ _ Hq Hr) as [Hf|]; [congruence|done].
Qed.

Lemma world_run es w w' : world_ok w → Forall event_ok es → run w es = Some w' → world_ok w'.
Proof.
  intros Hw Hes. revert w Hw. induction Hes as [|e es He Hes IH]; intros w Hw Hr; cbn in Hr; [by injection Hr as <-|].
  apply bind_Some in Hr as (w1 & Hs & Hr). eapply IH; [|exact Hr]. by eapply world_step.
Qed.
End Registered.

(** C22: Whatever handshakes, registrations, refreshes, stops and starts interleave, what a
    handshake is given for a serial number are data that the library parsed, against the
    issuer of a certificate registered under that number, as a response that calls the
    certificate good. *)
Theorem stapled_is_good cfg es w now serial data :
  run (mkWorld (NewOCSPManager cfg) []) es = Some w →
  (get_read (shared w) now serial).1 = Some data →
  ∃ c i, Act (Register (Some c) i) ∈ es ∧ SerialNumber c = serial ∧ vouched c i data.
Proof.
  intros Hr Hd. set (P c i := Act (Register (Some c) i) ∈ es).
  assert (world_ok P (mkWorld (NewOCSPManager cfg) [])) as Hw by (split; [split; done|done]).
  assert (Forall (event_ok P) es) as He.
  { apply Forall_forall. intros e Hin. destruct e as [k o|[[c|] i|now' serial'| |]]; done. }
  eapply get_read_ok; [|exact Hd]. by eapply (world_run P es).
Qed.
End Stapled.

(** ** Giving up *)

(** The section of a refresh that failed, as many times as it is run. *)
Fixpoint failures (n : nat) (serial : Z) (m : OCSPManager) : OCSPManager :=
  match n with
  | O => m
  | S n =>
      let m := failures n serial m in
      match responses m !! serial with Some p => on_object p (fail_response (maxRetries m)) m | None => m end
  end.

Fixpoint fail_times (k : Z) (n : nat) (r : ocspResponse) : ocspResponse :=
  match n with O => r | S n => fail_response k (fail_times k n r) end.

Lemma iter_fail k n r : errors r = 0 → status r ≠ statusFailed → 1 ≤ k → Z.of_nat n < 2 ^ 62 →
  let r' := fail_times k n r in
  errors r' = Z.of_nat n ∧ response r' = response r ∧
  status r' = if k <=? Z.of_nat n then statusFailed else status r.
Proof.
  intros He Hs Hk. induction n as [|n IH]; intros Hn; cbn [fail_times].
  - split_and!; [done|done|]. by rewrite (proj2 (Z.leb_gt _ _)) by lia.
  - destruct (IH ltac:(lia)) as (H1 & H2 & H3). unfold fail_response. cbn [errors response status].
    rewrite H1, H2, H3. rewrite swrap64_id by (unfold in_int64, int64_min, int64_max; lia). rewrite Nat2Z.inj_succ.
    split_and!; [lia|done|]. destruct (Z.leb_spec k (Z.of_nat n + 1)), (Z.leb_spec k (Z.succ (Z.of_nat n))), (Z.leb_spec k (Z.of_nat n)); try lia; done.
Qed.

Lemma failures_object n serial m p r : responses m !! serial = Some p → objects m !! p = Some r →
  let m' := failures n serial m in
  responses m' = responses m ∧ maxRetries m' = maxRetries m ∧ objects m' !! p = Some (fail_times (maxRetries m) n r).
Proof.
  intros Hs Hp. induction n as [|n (H1 & H2 & H3)]; cbn [failures fail_times]; [done|]. cbn zeta in *.
  rewrite H1, Hs. cbn [on_object with_store responses maxRetries objects]. split_and!; [done|done|].
  by rewrite list_lookup_alter_eq, H3, H2.
Qed.

(** A response that was fetched is given to handshakes until [maxRetries] refreshes in a
    row have failed, and not afterwards. *)
Theorem refresh_gives_up n serial m p r now :
  responses m !! serial = Some p → objects m !! p = Some r → errors r = 0 → status r ≠ statusFailed →
  1 ≤ maxRetries m → Z.of_nat n < 2 ^ 62 →
  (get_read (failures n serial m) now serial).1 = if maxRetries m <=? Z.of_nat n then None else Some (response r).
Proof.
  intros Hs Hp He Hst Hk Hn. destruct (failures_object n serial m p r Hs Hp) as (H1 & _ & H3).
  destruct (iter_fail (maxRetries m) n r He Hst Hk Hn) as (_ & Hr & Hs').
  unfold get_read. rewrite H1, Hs. cbn [mbind option_bind]. rewrite H3. cbn [mbind option_bind]. rewrite Hs', Hr.
  destruct (_ <=? _); [done|]. by destruct (status r).
Qed.

(** ** Examples *)

(** A closed run, by evaluating what is said of where it ends. *)
Lemma reaches {A B} (f : A → B) (o : option A) y : f <$> o = Some y → ∃ w, o = Some w ∧ f w = y.
Proof. destruct o as [w|]; [|done]. intros [= <-]. by exists w. Qed.

Definition ex_cert : Certificate := mkCertificate 7 [go!"http://ocsp"] (go!"leaf").
Definition ex_issuer : Certificate := mkCertificate 1 [] (go!"ca").
(** A library that reads [g] as good until time 100 and anything else as revoked. *)
Definition ex_parse (data : gostring) (i : Certificate) : option parsed :=
  Some (mkParsed (if decide (data = go!"g") then 0 else 1) 7 0 100).
Definition ex_request (c i : Certificate) : option gostring := Some [].
Definition ex_net (body : gostring) : gostring → Z → http_answer := λ _ _, Answered 200 (Some body).
Abbreviation ex_run := (Threads.run (M := ocsp_machine ex_request ex_parse map_to_list)).
Definition ex_start : world OCSPManager section := mkWorld (NewOCSPManager None) [].

Definition ex_registered : list (event answer call) :=
  [Act (Register (Some ex_cert) ex_issuer); Run 0 ANone; Run 0 (ANet (ex_net (go!"g"))); Run 0 ANone].

Lemma ex_registered_run : ∃ w, ex_run ex_start ex_registered = Some w ∧ (get_read (shared w) 50 7).1 = Some (go!"g").
Proof. apply (reaches (λ w, (get_read (shared w) 50 7).1)). by vm_compute. Qed.

Lemma stapled_is_good_witness :
  ∃ w, ex_run ex_start ex_registered = Some w ∧ (get_read (shared w) 50 7).1 = Some (go!"g") ∧
  ∃ c i, Act (Register (Some c) i) ∈ ex_registered ∧ SerialNumber c = 7 ∧ vouched ex_parse c i (go!"g").
Proof.
  destruct ex_registered_run as (w & Hw & Hd). exists w. split; [exact Hw|]. split; [exact Hd|].
  exact (stapled_is_good ex_request ex_parse map_to_list None ex_registered w 50 7 (go!"g") Hw Hd).
Defined.

Definition ex_manager : OCSPManager := (RegisterCertificate ex_request ex_parse (NewOCSPManager None) (ex_net (go!"g")) (Some ex_cert) ex_issuer).2.

Lemma refresh_gives_up_witness :
  (get_read (failures 2 7 ex_manager) 50 7).1 = Some (go!"g") ∧ (get_read (failures 3 7 ex_manager) 50 7).1 = None.
Proof.
  split.
  - exact (refresh_gives_up 2 7 ex_manager 0 (mkResponse 0 100 (go!"g") statusValid 0) 50 eq_refl eq_refl eq_refl ltac:(discriminate) ltac:(vm_compute; discriminate) eq_refl).
  - exact (refresh_gives_up 3 7 ex_manager 0 (mkResponse 0 100 (go!"g") statusValid 0) 50 eq_refl eq_refl eq_refl ltac:(discriminate) ltac:(vm_compute; discriminate) eq_refl).
Defined.

(** A certificate that was revoked keeps its old response: the refresh that learns of it
    counts as a failure. *)
Example revoked_still_stapled : ∃ w,
  ex_run ex_start (ex_registered ++ [Act Start; Run 1 ANone; Run 1 ANone; Run 2 ATick; Run 2 (ANow 200); Run 2 ANone;
    Run 2 (ANet (ex_net (go!"r"))); Run 2 ANone]) = Some w ∧ (get_read (shared w) 200 7).1 = Some (go!"g").
Proof. apply (reaches (λ w, (get_read (shared w) 200 7).1)). by vm_compute. Qed.

(** A handshake that read a valid response marks it stale after the last refresh failed,
    and handshakes are given it again. *)
Example failed_becomes_stale : ∃ w,
  ex_run ex_start (ex_registered ++ [Act Start; Run 1 ANone; Run 1 ANone; Act (Get 150 7);
    Run 2 ATick; Run 2 (ANow 200); Run 2 ANone; Run 2 (ANet (ex_net (go!"r"))); Run 2 ANone;
    Run 2 ATick; Run 2 (ANow 300); Run 2 ANone; Run 2 (ANet (ex_net (go!"r"))); Run 2 ANone;
    Run 2 ATick; Run 2 (ANow 400); Run 2 ANone; Run 2 (ANet (ex_net (go!"r"))); Run 2 ANone; Run 3 ANone]) = Some w ∧
  (get_read (shared w) 400 7).1 = Some (go!"g").
Proof. apply (reaches (λ w, (get_read (shared w) 400 7).1)). by vm_compute. Qed.

(** Stopped and started again, the loop ends at once; the second stop closes the closed
    channel and panics. *)
Example ocsp_second_stop_panics : ∃ w,
  ex_run ex_start [Act Start; Run 0 ANone; Run 0 ANone; Act Stop; Run 2 ANone; Run 2 ANone; Run 1 AStopped;
    Act Start; Run 3 ANone; Run 3 ANone; Run 4 AStopped; Act Stop; Run 5 ANone; Run 5 ANone] = Some w ∧
  panicked (shared w) = true.
Proof. apply (reaches (panicked ∘ shared)). by vm_compute. Qed.
