(* ===== verification/Tls.v ===== *)
(** * Tls: certificates, protocol versions and client verification

    [src/internal/ssl/ssl.go], [ssl/client_verify.go], [src/internal/sslutil] and
    [proxy/proxy_ssl.go]: what the configurations given to [crypto/tls] say. Files,
    the parsing of PEM, certificates and revocation lists, and the verification of
    chains are parameters; of [crypto/tls] the model has the documented meaning of
    [ClientAuth] and [VerifyConnection].  [Config.Clone] is shallow, so the array of
    certificates is shared between a configuration and its clones and lives in a heap.

    Shown: which clients a server with client verification accepts
    ([client_verify_enforced]), revoked ones among them when no depth is configured
    ([revoked_accepted]), and that an error in its configuration opens it to all
    ([client_verify_fails_open]); that no handshake goes below TLS 1.2 or uses an
    insecure suite ([tls_floor]); that a staple stays once it was given
    ([staple_sticks]). *)

From S2P Require Import Prelude GoStrings Config TicketKeys Ocsp.

(** ** [sslutil/tlsconfig.go] *)

Definition VersionTLS10 : Z := 769.
Definition VersionTLS11 : Z := 770.
Definition VersionTLS12 : Z := 771.
Definition VersionTLS13 : Z := 772.

Inductive tls_error :=
  | InsecureVersion (p : gostring) | UnknownVersion (p : gostring) | UnknownSuite (c : gostring) | InsecureSuite (c : gostring)
  | ReadError | ParseError | BadMode (m : gostring) | NoClientCA | NilConfig | NoCertificate | KeyPair
  | InvalidMin (v : gostring) | InvalidMax (v : gostring).

Definition is_v12 (p : gostring) : bool := bool_decide (p ∈ [go!"TLSv1.2"; go!"TLSV1.2"]).
Definition is_v13 (p : gostring) : bool := bool_decide (p ∈ [go!"TLSv1.3"; go!"TLSV1.3"]).
Definition is_old (p : gostring) : bool := bool_decide (p ∈ [go!"TLSv1.0"; go!"TLSV1.0"; go!"TLSv1.1"; go!"TLSV1.1"]).

Fixpoint versions_loop (ps : list gostring) (minVer maxVer : Z) : res tls_error (Z * Z) :=
  match ps with
  | [] => Ok (minVer, maxVer)
  | p :: ps =>
      if is_v12 p then versions_loop ps (if VersionTLS12 <? minVer then VersionTLS12 else minVer) maxVer
      else if is_v13 p then versions_loop ps minVer VersionTLS13
      else if is_old p then Err (InsecureVersion p)
      else Err (UnknownVersion p)
  end.

Definition ParseTLSVersions (protocols : list gostring) : res tls_error (Z * Z) :=
  versions_loop protocols VersionTLS13 VersionTLS13.

Fixpoint ParseMinTLSVersion (protocols : list gostring) : Z :=
  match protocols with
  | [] => VersionTLS12
  | p :: ps => if is_v13 p then VersionTLS13 else if is_v12 p then VersionTLS12 else ParseMinTLSVersion ps
  end.

(** The suites of [crypto/tls] that the code names. *)
Inductive CipherSuite :=
  | RSA_RC4_128_SHA | RSA_3DES_EDE_CBC_SHA | RSA_AES_128_CBC_SHA | RSA_AES_256_CBC_SHA | RSA_AES_128_CBC_SHA256
  | RSA_AES_128_GCM_SHA256 | RSA_AES_256_GCM_SHA384
  | ECDHE_ECDSA_RC4_128_SHA | ECDHE_ECDSA_AES_128_CBC_SHA | ECDHE_ECDSA_AES_256_CBC_SHA
  | ECDHE_RSA_RC4_128_SHA | ECDHE_RSA_3DES_EDE_CBC_SHA | ECDHE_RSA_AES_128_CBC_SHA | ECDHE_RSA_AES_256_CBC_SHA
  | ECDHE_ECDSA_AES_128_CBC_SHA256 | ECDHE_RSA_AES_128_CBC_SHA256
  | ECDHE_RSA_AES_128_GCM_SHA256 | ECDHE_ECDSA_AES_128_GCM_SHA256 | ECDHE_RSA_AES_256_GCM_SHA384 | ECDHE_ECDSA_AES_256_GCM_SHA384
  | ECDHE_RSA_CHACHA20_POLY1305 | ECDHE_ECDSA_CHACHA20_POLY1305
  | AES_128_GCM_SHA256 | AES_256_GCM_SHA384 | CHACHA20_POLY1305_SHA256.
#[export] Instance CipherSuite_eq_dec : EqDecision CipherSuite.
Proof. solve_decision. Defined.

Definition cipherNameToID : list (gostring * CipherSuite) := [
  (go!"ECDHE-RSA-AES128-GCM-SHA256", ECDHE_RSA_AES_128_GCM_SHA256);
  (go!"ECDHE-RSA-AES256-GCM-SHA384", ECDHE_RSA_AES_256_GCM_SHA384);
  (go!"ECDHE-ECDSA-AES128-GCM-SHA256", ECDHE_ECDSA_AES_128_GCM_SHA256);
  (go!"ECDHE-ECDSA-AES256-GCM-SHA384", ECDHE_ECDSA_AES_256_GCM_SHA384);
  (go!"ECDHE-RSA-CHACHA20-POLY1305", ECDHE_RSA_CHACHA20_POLY1305);
  (go!"ECDHE-ECDSA-CHACHA20-POLY1305", ECDHE_ECDSA_CHACHA20_POLY1305);
  (go!"AES128-GCM-SHA256", AES_128_GCM_SHA256);
  (go!"AES256-GCM-SHA384", AES_256_GCM_SHA384);
  (go!"CHACHA20-POLY1305", CHACHA20_POLY1305_SHA256);
  (go!"ECDHE-RSA-AES128-CBC-SHA", ECDHE_RSA_AES_128_CBC_SHA);
  (go!"ECDHE-RSA-AES256-CBC-SHA", ECDHE_RSA_AES_256_CBC_SHA);
  (go!"ECDHE-ECDSA-AES128-CBC-SHA", ECDHE_ECDSA_AES_128_CBC_SHA);
  (go!"ECDHE-ECDSA-AES256-CBC-SHA", ECDHE_ECDSA_AES_256_CBC_SHA);
  (go!"RSA-AES128-GCM-SHA256", RSA_AES_128_GCM_SHA256);
  (go!"RSA-AES256-GCM-SHA384", RSA_AES_256_GCM_SHA384);
  (go!"RSA-AES128-CBC-SHA", RSA_AES_128_CBC_SHA);
  (go!"RSA-AES256-CBC-SHA", RSA_AES_256_CBC_SHA);
  (go!"ECDHE-RSA-3DES-EDE-CBC-SHA", ECDHE_RSA_3DES_EDE_CBC_SHA);
  (go!"RSA-3DES-EDE-CBC-SHA", RSA_3DES_EDE_CBC_SHA);
  (go!"TLS_ECDHE_RSA_WITH_AES_128_GCM_SHA256", ECDHE_RSA_AES_128_GCM_SHA256);
  (go!"TLS_ECDHE_RSA_WITH_AES_256_GCM_SHA384", ECDHE_RSA_AES_256_GCM_SHA384);
  (go!"TLS_ECDHE_RSA_WITH_CHACHA20_POLY1305", ECDHE_RSA_CHACHA20_POLY1305);
  (go!"TLS_ECDHE_ECDSA_WITH_AES_128_GCM_SHA256", ECDHE_ECDSA_AES_128_GCM_SHA256);
  (go!"TLS_ECDHE_ECDSA_WITH_AES_256_GCM_SHA384", ECDHE_ECDSA_AES_256_GCM_SHA384);
  (go!"TLS_ECDHE_ECDSA_WITH_CHACHA20_POLY1305", ECDHE_ECDSA_CHACHA20_POLY1305);
  (go!"TLS_ECDHE_RSA_WITH_AES_128_CBC_SHA", ECDHE_RSA_AES_128_CBC_SHA);
  (go!"TLS_ECDHE_RSA_WITH_AES_256_CBC_SHA", ECDHE_RSA_AES_256_CBC_SHA);
  (go!"TLS_ECDHE_ECDSA_WITH_AES_128_CBC_SHA", ECDHE_ECDSA_AES_128_CBC_SHA);
  (go!"TLS_ECDHE_ECDSA_WITH_AES_256_CBC_SHA", ECDHE_ECDSA_AES_256_CBC_SHA);
  (go!"TLS_RSA_WITH_AES_128_GCM_SHA256", RSA_AES_128_GCM_SHA256);
  (go!"TLS_RSA_WITH_AES_256_GCM_SHA384", RSA_AES_256_GCM_SHA384);
  (go!"TLS_RSA_WITH_AES_128_CBC_SHA", RSA_AES_128_CBC_SHA);
  (go!"TLS_RSA_WITH_AES_256_CBC_SHA", RSA_AES_256_CBC_SHA)].

Fixpoint suite_named (table : list (gostring * CipherSuite)) (c : gostring) : option CipherSuite :=
  match table with [] => None | (n, id) :: table => if decide (n = c) then Some id else suite_named table c end.

Definition insecureCipherIDs : list CipherSuite := [
  RSA_RC4_128_SHA; RSA_3DES_EDE_CBC_SHA; RSA_AES_128_CBC_SHA256; ECDHE_ECDSA_RC4_128_SHA; ECDHE_RSA_RC4_128_SHA;
  ECDHE_RSA_3DES_EDE_CBC_SHA; ECDHE_ECDSA_AES_128_CBC_SHA256; ECDHE_RSA_AES_128_CBC_SHA256].

Definition IsInsecureCipher (id : CipherSuite) : bool := bool_decide (id ∈ insecureCipherIDs).

Fixpoint ParseCipherSuites (ciphers : list gostring) : res tls_error (list CipherSuite) :=
  match ciphers with
  | [] => Ok []
  | c :: ciphers =>
      match suite_named cipherNameToID c with
      | None => Err (UnknownSuite c)
      | Some id => if IsInsecureCipher id then Err (InsecureSuite c) else ids ← ParseCipherSuites ciphers; Ok (id :: ids)
      end
  end.

Definition lenient (c : gostring) : option CipherSuite :=
  id ← suite_named cipherNameToID c; if IsInsecureCipher id then None else Some id.

(** [None] is the nil slice, the default of the library. *)
Definition ParseCipherSuitesLenient (ciphers : list gostring) : option (list CipherSuite) :=
  match omap lenient ciphers with [] => None | suites => Some suites end.

Definition DefaultCipherSuites : list CipherSuite := [
  ECDHE_RSA_AES_128_GCM_SHA256; ECDHE_RSA_AES_256_GCM_SHA384; ECDHE_RSA_CHACHA20_POLY1305;
  ECDHE_ECDSA_AES_128_GCM_SHA256; ECDHE_ECDSA_AES_256_GCM_SHA384; ECDHE_ECDSA_CHACHA20_POLY1305].

(** A TLS version by its name in upper case; zero is the default of the library. *)
Definition TLSVersionMap (name : gostring) : option Z :=
  if decide (name = go!"TLSV1.0") then Some VersionTLS10
  else if decide (name = go!"TLSV1.1") then Some VersionTLS11
  else if decide (name = go!"TLSV1.2") then Some VersionTLS12
  else if decide (name = go!"TLSV1.3") then Some VersionTLS13
  else if decide (name = []) then Some 0 else None.

(** ** [client_verify.go] *)

Inductive ClientVerifyMode := VerifyOff | VerifyOn | VerifyOptional | VerifyOptionalNoCA.
#[export] Instance ClientVerifyMode_eq_dec : EqDecision ClientVerifyMode.
Proof. solve_decision. Defined.

Definition ParseVerifyMode (mode : gostring) : res tls_error ClientVerifyMode :=
  if decide (mode = go!"off" ∨ mode = []) then Ok VerifyOff
  else if decide (mode = go!"on") then Ok VerifyOn
  else if decide (mode = go!"optional") then Ok VerifyOptional
  else if decide (mode = go!"optional_no_ca") then Ok VerifyOptionalNoCA
  else Err (BadMode mode).

(** [tls.ClientAuthType] *)
Inductive ClientAuthType := NoClientCert | RequestClientCert | RequireAnyClientCert | VerifyClientCertIfGiven | RequireAndVerifyClientCert.

Definition TLSClientAuth (m : ClientVerifyMode) : ClientAuthType :=
  match m with
  | VerifyOff => NoClientCert
  | VerifyOn => RequireAndVerifyClientCert
  | VerifyOptional => VerifyClientCertIfGiven
  | VerifyOptionalNoCA => RequestClientCert
  end.

Section Tls.
Context {CertPool : Type} (ReadFile : gostring → option gostring) (AppendCertsFromPEM : gostring → option CertPool).
(** A block of a PEM text: its type, its bytes, and the rest of the text. *)
Context (pem_Decode : gostring → option (gostring * gostring * gostring)).
Context (ParseRevocationList : gostring → option (list Z)).
(** The chain of a certificate file, when the key file fits. *)
Context (LoadX509KeyPair : gostring → gostring → option (list gostring)).
Context (ParseCertificate : gostring → option Certificate).

Record ClientVerifier := mkVerifier { caPool : option CertPool; crl : option (list Z); v_mode : ClientVerifyMode; verifyDepth : Z }.

(** [LoadCertPool] and [LoadCACertPool] *)
Definition LoadCACertPool (file : gostring) : res tls_error CertPool :=
  match ReadFile file with
  | None => Err ReadError
  | Some data => match AppendCertsFromPEM data with None => Err ParseError | Some p => Ok p end
  end.

Definition LoadCRL (file : gostring) : res tls_error (list Z) :=
  match ReadFile file with
  | None => Err ReadError
  | Some data =>
      let data := match pem_Decode data with Some (_, bytes, _) => bytes | None => data end in
      match ParseRevocationList data with None => Err ParseError | Some l => Ok l end
  end.

Definition NewClientVerifier (cfg : ClientVerifyConfig) : res tls_error ClientVerifier :=
  if negb (cv_Enabled cfg) then Ok (mkVerifier None None VerifyOff 0)
  else
    mode ← ParseVerifyMode (cv_Mode cfg);
    pool ← (if decide (mode = VerifyOn ∨ mode = VerifyOptional)
            then if decide (cv_ClientCA cfg = []) then Err NoClientCA else p ← LoadCACertPool (cv_ClientCA cfg); Ok (Some p)
            else Ok None);
    list ← (if decide (cv_CRL cfg = []) then Ok None else l ← LoadCRL (cv_CRL cfg); Ok (Some l));
    Ok (mkVerifier pool list mode (cv_VerifyDepth cfg)).

Definition checkCRL (v : ClientVerifier) (c : Certificate) : bool :=
  match crl v with None => true | Some revoked => negb (bool_decide (SerialNumber c ∈ revoked)) end.

(** Whether the connection is let through. *)
Definition verifyConnection (v : ClientVerifier) (peers : list Certificate) : bool :=
  match peers with [] => true | leaf :: _ => checkCRL v leaf end &&
  negb ((0 <? verifyDepth v) && (verifyDepth v <? zlen peers)).

(** *** [tls.Config] *)

Record tls_Certificate := mkTLSCertificate { chain : list gostring; OCSPStaple : option gostring }.

(** [Certificates] points to an array; [GetConfigForClient] is set or nil. *)
Record tls_Config := mkTLSConfig {
  Certificates : nat; MinVersion : Z; MaxVersion : Z; NextProtos : list gostring; CipherSuites : list CipherSuite;
  SessionTicketKeys : option (list key); ClientAuth : ClientAuthType; ClientCAs : option CertPool;
  VerifyConnection : option ClientVerifier; GetConfigForClient : bool }.

Definition ConfigureTLS (v : ClientVerifier) (c : tls_Config) : tls_Config :=
  if decide (v_mode v = VerifyOff) then c
  else mkTLSConfig (Certificates c) (MinVersion c) (MaxVersion c) (NextProtos c) (CipherSuites c) (SessionTicketKeys c)
         (TLSClientAuth (v_mode v)) (caPool v) (if 0 <? verifyDepth v then Some v else VerifyConnection c) (GetConfigForClient c).

(** ** [ssl.go] *)

Record TLSManager := mkManager {
  configs : gmap gostring tls_Config; defaultCfg : tls_Config; ocspManager : option OCSPManager;
  sessionTicketMgr : option (SessionTicketManager * file); clientVerifier : option ClientVerifier;
  certificates : gmap Z Certificate; defaultCert : option Certificate; issuers : gmap Z Certificate;
  arrays : list (list tls_Certificate) }.

Inductive warning := TicketsFailed | OCSPFailed | VerifyFailed (e : tls_error).

Definition extractPEMBlock (data : gostring) : option (gostring * gostring) :=
  match pem_Decode data with
  | None => None
  | Some (type, bytes, rest) => if decide (type = go!"CERTIFICATE") then Some (bytes, rest) else None
  end.

(** A block takes at least a byte of the text. *)
Fixpoint pem_loop (fuel : nat) (rest : gostring) : list gostring :=
  match fuel with
  | O => []
  | S fuel =>
      match extractPEMBlock rest with
      | None => []
      | Some (block, rest) => (if decide (block = []) then [] else [block]) ++ pem_loop fuel rest
      end
  end.

Definition parsePEMChain (data : gostring) : list gostring := pem_loop (S (length data)) data.

Definition loadCertificate (certPath keyPath certChainPath : gostring) : res tls_error (list gostring) :=
  match LoadX509KeyPair certPath keyPath with
  | None => Err KeyPair
  | Some ders =>
      if decide (certChainPath = []) then Ok ders
      else match ReadFile certChainPath with None => Err ReadError | Some data => Ok (ders ++ parsePEMChain data) end
  end.

Section Manager.
Context (CreateRequest : Certificate → Certificate → option gostring) (ParseResponse : gostring → Certificate → option parsed).
(** What making the manager of session tickets meets, and the network. *)
Context (fresh : option key) (readable writable : bool) (keyFile : file) (net : gostring → Z → http_answer).

(** The manager of responses with the default certificate registered, when its issuer
    is part of the chain. *)
Definition init_ocsp (ders : list gostring) : OCSPManager * option Certificate * gmap Z Certificate * gmap Z Certificate * list warning :=
  let om := NewOCSPManager (Some DefaultOCSPConfig) in
  match d ← head ders; ParseCertificate d with
  | None => (om, None, ∅, ∅, [])
  | Some c =>
      match OCSPServer c with
      | [] => (om, Some c, ∅, ∅, [])
      | _ =>
          match d ← ders !! 1%nat; ParseCertificate d with
          | None => (om, Some c, {[SerialNumber c := c]}, ∅, [])
          | Some i =>
              let '(e, om) := RegisterCertificate CreateRequest ParseResponse om net (Some c) i in
              (om, Some c, {[SerialNumber c := c]}, {[SerialNumber c := i]}, match e with None => [] | Some _ => [OCSPFailed] end)
          end
      end
  end.

Definition NewTLSManager (cfg : option SSLConfig) : res tls_error (TLSManager * list warning) :=
  match cfg with
  | None => Err NilConfig
  | Some cfg =>
      if bool_decide (ssl_Cert cfg = []) || bool_decide (ssl_Key cfg = []) then Err NoCertificate
      else
        ders ← loadCertificate (ssl_Cert cfg) (ssl_Key cfg) (ssl_CertChain cfg);
        suites ← match ssl_Ciphers cfg with [] => Ok DefaultCipherSuites | cs => ParseCipherSuites cs end;
        '(minVer, maxVer) ← match ssl_Protocols cfg with [] => Ok (VersionTLS12, VersionTLS13) | ps => ParseTLSVersions ps end;
        let '(tickets, w1) :=
          if tk_Enabled (ssl_SessionTickets cfg) then
            match NewSessionTicketManager (ssl_SessionTickets cfg) fresh readable writable keyFile with
            | Ok (t, f) => (Some (Tickets_Start t, f), [])
            | Err _ => (None, [TicketsFailed])
            end
          else (None, []) in
        let '(om, dc, cs, iss, w2) :=
          if ssl_OCSPStapling cfg then
            let '(om, dc, cs, iss, w) := init_ocsp ders in (Some (with_running true om), dc, cs, iss, w)
          else (None, None, ∅, ∅, []) in
        let c := mkTLSConfig 0 minVer maxVer [go!"h2"; go!"http/1.1"] suites
                   (match tickets with Some (t, _) => Some (ApplyToTLSConfig t) | None => None end)
                   NoClientCert None None (ssl_OCSPStapling cfg) in
        let '(v, c, w3) :=
          if cv_Enabled (ssl_ClientVerify cfg) then
            match NewClientVerifier (ssl_ClientVerify cfg) with
            | Ok v => (Some v, ConfigureTLS v c, [])
            | Err e => (None, c, [VerifyFailed e])
            end
          else (None, c, []) in
        Ok (mkManager ∅ c om tickets v cs dc iss [[mkTLSCertificate ders None]], w1 ++ w2 ++ w3)
  end.
End Manager.

Definition GetTLSConfig (m : TLSManager) : tls_Config := defaultCfg m.

Definition with_ocsp (om : option OCSPManager) (m : TLSManager) : TLSManager :=
  mkManager (configs m) (defaultCfg m) om (sessionTicketMgr m) (clientVerifier m) (certificates m) (defaultCert m) (issuers m) (arrays m).
Definition with_arrays (a : list (list tls_Certificate)) (m : TLSManager) : TLSManager :=
  mkManager (configs m) (defaultCfg m) (ocspManager m) (sessionTicketMgr m) (clientVerifier m) (certificates m) (defaultCert m) (issuers m) a.

(** [Close]; the manager of responses is stopped by its own section. *)
Definition TLS_Close (m : TLSManager) : TLSManager :=
  mkManager (configs m) (defaultCfg m) ((λ om, if running om then close_stop (with_running false om) else om) <$> ocspManager m)
    ((λ '(t, f), (Tickets_Stop t, f)) <$> sessionTicketMgr m) (clientVerifier m) (certificates m) (defaultCert m) (issuers m) (arrays m).

(** The first certificate of an array is given a staple, in place. *)
Definition set_staple (data : gostring) (certs : list tls_Certificate) : list tls_Certificate :=
  match certs with [] => [] | c :: certs => mkTLSCertificate (chain c) (Some data) :: certs end.

Definition baseConfig (m : TLSManager) (serverName : gostring) : tls_Config :=
  match serverName with [] => defaultCfg m | _ => default (defaultCfg m) (configs m !! serverName) end.

Definition getConfigForClientWithOCSP (m : TLSManager) (now : Z) (serverName : gostring) : tls_Config * TLSManager :=
  let base := baseConfig m serverName in
  match ocspManager m, arrays m !! Certificates base with
  | Some om, Some (c :: _) =>
      match chain c, defaultCert m with
      | _ :: _, Some parsed =>
          let '(r, om) := GetOCSPResponse om now (SerialNumber parsed) in
          let m := with_ocsp (Some om) m in
          (base, match r with Some data => with_arrays (alter (set_staple data) (Certificates base) (arrays m)) m | None => m end)
      | _, _ => (base, m)
      end
  | _, _ => (base, m)
  end.

(** What [crypto/tls] does with the configuration at a handshake. *)
Definition handshake (m : TLSManager) (now : Z) (serverName : gostring) : tls_Config * TLSManager :=
  if GetConfigForClient (defaultCfg m) then getConfigForClientWithOCSP m now serverName else (defaultCfg m, m).

(** The staple that goes out with the configuration. *)
Definition staple (m : TLSManager) (c : tls_Config) : option gostring :=
  certs ← arrays m !! Certificates c; c ← head certs; OCSPStaple c.

(** ** What is negotiated *)

Context (CreateRequest : Certificate → Certificate → option gostring) (ParseResponse : gostring → Certificate → option parsed).
Context (fresh : option key) (readable writable : bool) (keyFile : file) (net : gostring → Z → http_answer).
Abbreviation make := (NewTLSManager CreateRequest ParseResponse fresh readable writable keyFile net).

Definition secure (c : tls_Config) : Prop :=
  VersionTLS12 ≤ MinVersion c ≤ VersionTLS13 ∧ MaxVersion c = VersionTLS13 ∧
  CipherSuites c ≠ [] ∧ Forall (λ s, IsInsecureCipher s = false) (CipherSuites c).

Definition no_client_auth (c : tls_Config) : Prop := ClientAuth c = NoClientCert ∧ VerifyConnection c = None.

Lemma ConfigureTLS_secure v c : secure c → secure (ConfigureTLS v c).
Proof. unfold ConfigureTLS. by destruct (decide _). Qed.

Lemma versions_range ps a b lo hi : VersionTLS12 ≤ lo ≤ VersionTLS13 → hi = VersionTLS13 →
  versions_loop ps lo hi = Ok (a, b) → VersionTLS12 ≤ a ≤ VersionTLS13 ∧ b = VersionTLS13.
Proof.
  unfold VersionTLS12, VersionTLS13. revert lo hi. induction ps as [|p ps IH]; intros lo hi Hlo Hhi; cbn [versions_loop]; [by intros [= <- <-]|].
  destruct (is_v12 p); [|destruct (is_v13 p); [|by destruct (is_old p)]]; intros H; (eapply IH; [| |exact H]); try done.
  unfold VersionTLS12. destruct (_ <? _); lia.
Qed.

Lemma suites_secure cs ids : ParseCipherSuites cs = Ok ids → length ids = length cs ∧ Forall (λ s, IsInsecureCipher s = false) ids.
Proof.
  revert ids. induction cs as [|c cs IH]; intros ids; cbn [ParseCipherSuites]; [by intros [= <-]|].
  destruct (suite_named cipherNameToID c) as [id|]; [|done]. destruct (IsInsecureCipher id) eqn:Hi; [done|].
  destruct (ParseCipherSuites cs) as [l|]; [|done]. cbn. intros [= <-]. destruct (IH l eq_refl) as [H1 H2].
  split; [cbn; by f_equal|by constructor].
Qed.

(** What a manager that was made has for its configuration. *)
Lemma make_config cfg m ws : make (Some cfg) = Ok (m, ws) →
  configs m = ∅ ∧ ∃ base, secure base ∧ no_client_auth base ∧
    defaultCfg m = if cv_Enabled (ssl_ClientVerify cfg)
                   then match NewClientVerifier (ssl_ClientVerify cfg) with Ok v => ConfigureTLS v base | Err _ => base end
                   else base.
Proof.
  unfold NewTLSManager. destruct (_ || _); [done|]. destruct (loadCertificate _ _ _) as [ders|]; [|done]. cbn [mbind res_bind].
  destruct (match ssl_Ciphers cfg with [] => _ | _ => _ end) as [suites|] eqn:Hs; [|done]. cbn [mbind res_bind].
  destruct (match ssl_Protocols cfg with [] => _ | _ => _ end) as [[lo hi]|] eqn:Hv; [|done]. cbn [mbind res_bind].
  destruct (if tk_Enabled _ then _ else _) as [tickets w1].
  destruct (if ssl_OCSPStapling cfg then _ else _) as [[[[om dc] cs] iss] w2].
  set (base := mkTLSConfig 0 lo hi _ suites _ _ _ _ _). destruct (if cv_Enabled _ then _ else _) as [[v c] w3] eqn:Hc.
  intros [= <- <-]. split; [done|]. exists base. cbn. split_and!; [|done|].
  - assert (VersionTLS12 ≤ lo ≤ VersionTLS13 ∧ hi = VersionTLS13) as [H1 H2].
    { destruct (ssl_Protocols cfg); [by injection Hv as <- <-|]. by eapply versions_range; [| |exact Hv]. }
    split; [exact H1|]. split; [exact H2|]. cbn. destruct (ssl_Ciphers cfg) as [|c0 cs0].
    + injection Hs as <-. split; [done|]. by repeat constructor.
    + destruct (suites_secure _ _ Hs) as [H3 H4]. split; [|done]. by destruct suites.
  - destruct (cv_Enabled _); [|by injection Hc as <- <- <-]. by destruct (NewClientVerifier _); injection Hc as <- <- <-.
Qed.

Lemma handshake_config m now name : configs m = ∅ →
  (handshake m now name).1 = defaultCfg m ∧ configs (handshake m now name).2 = ∅ ∧ defaultCfg (handshake m now name).2 = defaultCfg m.
Proof.
  intros Hm. unfold handshake. destruct (GetConfigForClient _); [|done].
  assert (baseConfig m name = defaultCfg m) as Hb by (unfold baseConfig; destruct name; [done|]; by rewrite Hm, lookup_empty).
  unfold getConfigForClientWithOCSP. rewrite Hb. destruct (ocspManager m); [|done]. destruct (arrays m !! _) as [[|c l]|]; [done| |done].
  destruct (chain c); [done|]. destruct (defaultCert m); [|done]. destruct (GetOCSPResponse _ _ _) as [[data|] om]; done.
Qed.

(** Handshakes, and whatever happens to the responses between them. *)
Inductive tls_event := Hello (now : Z) (name : gostring) | Refreshed (om : OCSPManager).

Definition tls_run (m : TLSManager) (es : list tls_event) : TLSManager :=
  foldl (λ m e, match e with Hello now name => (handshake m now name).2 | Refreshed om => with_ocsp (const om <$> ocspManager m) m end) m es.

Lemma run_config es m : configs m = ∅ → configs (tls_run m es) = ∅ ∧ defaultCfg (tls_run m es) = defaultCfg m.
Proof.
  revert m. induction es as [|[now name|om] es IH]; intros m Hm; [done| |]; cbn [tls_run foldl].
  - destruct (handshake_config m now name Hm) as (_ & H1 & H2). destruct (IH _ H1) as [H3 H4]. split; [done|]. by etrans.
  - by apply (IH (with_ocsp _ m)).
Qed.

(** Whatever the protocols and suites that are configured, every handshake of a
    manager that could be made offers at least TLS 1.2, at most TLS 1.3, and suites
    none of which is insecure. *)
Theorem tls_floor cfg m ws es now name : make (Some cfg) = Ok (m, ws) →
  let c := (handshake (tls_run m es) now name).1 in
  VersionTLS12 ≤ MinVersion c ≤ VersionTLS13 ∧ MaxVersion c = VersionTLS13 ∧
  CipherSuites c ≠ [] ∧ Forall (λ s, IsInsecureCipher s = false) (CipherSuites c).
Proof.
  intros Hm. destruct (make_config _ _ _ Hm) as (H0 & base & Hs & _ & Hd). destruct (run_config es m H0) as [H1 H2].
  destruct (handshake_config (tls_run m es) now name H1) as [-> _]. rewrite H2, Hd. change (secure (if cv_Enabled (ssl_ClientVerify cfg) then
    match NewClientVerifier (ssl_ClientVerify cfg) with Ok v => ConfigureTLS v base | Err _ => base end else base)).
  destruct (cv_Enabled _); [|done]. destruct (NewClientVerifier _); [by apply ConfigureTLS_secure|done].
Qed.

(** ** Clients *)

(** [x509.Certificate.Verify] against a pool. *)
Context (verifies : option CertPool → list Certificate → bool).

(** Whether [crypto/tls] goes on with a client that has these certificates to offer. *)
Definition accepts (c : tls_Config) (offered : list Certificate) : bool :=
  let peers := match ClientAuth c with NoClientCert => [] | _ => offered end in
  match ClientAuth c with
  | NoClientCert | RequestClientCert => true
  | RequireAnyClientCert => negb (bool_decide (peers = []))
  | VerifyClientCertIfGiven => bool_decide (peers = []) || verifies (ClientCAs c) peers
  | RequireAndVerifyClientCert => negb (bool_decide (peers = [])) && verifies (ClientCAs c) peers
  end && match VerifyConnection c with None => true | Some v => verifyConnection v peers end.

(** What the configuration asks of a client: a certificate, one that the pool verifies
    if there is one, no more certificates than the depth allows, and a first one that
    is not on the list of the revoked. *)
Definition client_ok (v : ClientVerifier) (offered : list Certificate) : Prop :=
  (v_mode v = VerifyOn → offered ≠ []) ∧
  (v_mode v = VerifyOn ∨ v_mode v = VerifyOptional → offered ≠ [] → verifies (caPool v) offered = true) ∧
  (v_mode v ≠ VerifyOff → 0 < verifyDepth v → zlen offered ≤ verifyDepth v) ∧
  (v_mode v ≠ VerifyOff → ∀ leaf rest revoked,
     offered = leaf :: rest → crl v = Some revoked → SerialNumber leaf ∉ revoked).

(** The list is looked at only by the callback that a limit for the depth sets. *)
Definition crl_watched (v : ClientVerifier) : Prop := crl v = None ∨ 0 < verifyDepth v.

Definition not_revoked (v : ClientVerifier) (offered : list Certificate) : Prop :=
  ∀ leaf rest revoked, offered = leaf :: rest → crl v = Some revoked → SerialNumber leaf ∉ revoked.

Lemma checkCRL_ok v leaf rest : checkCRL v leaf = true ↔ not_revoked v (leaf :: rest).
Proof.
  unfold checkCRL, not_revoked. destruct (crl v) as [revoked|]; [|by split].
  rewrite negb_true_iff, bool_decide_eq_false. split; [by intros H ? ? ? [= <- <-] [= <-]|intros H; by eapply H].
Qed.

Lemma verifyConnection_ok v offered : 0 < verifyDepth v →
  verifyConnection v offered = true ↔ zlen offered ≤ verifyDepth v ∧ not_revoked v offered.
Proof.
  intros Hd. unfold verifyConnection. rewrite (proj2 (Z.ltb_lt _ _)) by done. rewrite andb_true_iff, negb_true_iff. cbn [andb].
  rewrite Z.ltb_ge. destruct offered as [|leaf rest].
  - split; [intros [_ H]; by split|intros [H _]; by split].
  - rewrite (checkCRL_ok v leaf rest). tauto.
Qed.

(** What the callback asks, when it is set. *)
Definition callback_ok (v : ClientVerifier) (offered : list Certificate) : Prop :=
  v_mode v ≠ VerifyOff → 0 < verifyDepth v → zlen offered ≤ verifyDepth v ∧ not_revoked v offered.

Lemma configured_accepts v c offered : no_client_auth c →
  accepts (ConfigureTLS v c) offered = true ↔
    (v_mode v = VerifyOn → offered ≠ []) ∧
    (v_mode v = VerifyOn ∨ v_mode v = VerifyOptional → offered ≠ [] → verifies (caPool v) offered = true) ∧
    callback_ok v offered.
Proof.
  intros [Ha Hv]. unfold ConfigureTLS. destruct (decide (v_mode v = VerifyOff)) as [Hoff|Hon].
  { unfold accepts, callback_ok. rewrite Ha, Hv, Hoff. split; [|done]. intros _. split_and!; [done|by intros []|done]. }
  unfold accepts. cbn [ClientAuth VerifyConnection ClientCAs].
  assert (∀ P Q : Prop, (match (if 0 <? verifyDepth v then Some v else VerifyConnection c) with None => true | Some v => verifyConnection v offered end = true ↔
    callback_ok v offered)) as Hc.
  { intros _ _. unfold callback_ok.
    destruct (Z.ltb_spec 0 (verifyDepth v)) as [Hd|Hd]; [|rewrite Hv; split; [intros _ _ H; lia|done]].
    rewrite verifyConnection_ok by done. split; [auto|]. intros H. by apply H. }
  destruct (v_mode v) eqn:Hm; [done| | |]; cbn [TLSClientAuth]; rewrite andb_true_iff, (Hc True True); clear Hc.
  - destruct (decide (offered = [])) as [->|Hne]; [rewrite bool_decide_true by done|rewrite bool_decide_false by done]; cbn [negb andb].
    + split; [by intros []|]. intros (H & _). by destruct H.
    + split; [intros [H1 H2]; by split_and!|intros (_ & H1 & H2); split; [by apply H1; [left|]|done]].
  - destruct (decide (offered = [])) as [->|Hne]; [rewrite bool_decide_true by done|rewrite bool_decide_false by done]; cbn [orb].
    + split; [intros [_ H2]; by split_and!|intros (_ & _ & H2); by split].
    + split; [intros [H1 H2]; by split_and!|intros (_ & H1 & H2); split; [by apply H1; [right|]|done]].
  - split; [intros [_ H2]; split_and!; [done|by intros []|done]|intros (_ & _ & H2); by split].
Qed.

Lemma callback_watched v offered : crl_watched v →
  callback_ok v offered ↔ (v_mode v ≠ VerifyOff → 0 < verifyDepth v → zlen offered ≤ verifyDepth v) ∧
                          (v_mode v ≠ VerifyOff → not_revoked v offered).
Proof.
  unfold callback_ok. intros Hw. split.
  - intros H. split; [intros Hm Hd; by apply H|]. intros Hm. destruct Hw as [Hn|Hd]; [|by apply H].
    intros leaf rest revoked _. by rewrite Hn.
  - intros [H1 H2] Hm Hd. auto.
Qed.

(** C21: When the verification of clients is configured without an error, every
    handshake, whatever was stapled and refreshed before, accepts every client that the
    mode, the pool of the configured file, the depth and the list of revoked certificates
    allow; and it accepts no other, provided that a configured list comes with a limit
    for the depth: without one the list is never looked at (revoked_accepted). *)
Theorem client_verify_enforced cfg m ws v es now name offered : make (Some cfg) = Ok (m, ws) →
  cv_Enabled (ssl_ClientVerify cfg) = true → NewClientVerifier (ssl_ClientVerify cfg) = Ok v →
  let accepted := accepts (handshake (tls_run m es) now name).1 offered = true in
  (client_ok v offered → accepted) ∧ (crl_watched v → accepted → client_ok v offered).
Proof.
  intros Hm He Hv. destruct (make_config _ _ _ Hm) as (H0 & base & _ & Hb & Hd). destruct (run_config es m H0) as [H1 H2].
  destruct (handshake_config (tls_run m es) now name H1) as [-> _]. cbn zeta.
  rewrite H2, Hd, He, Hv, (configured_accepts v base offered Hb). split.
  - intros (Hc1 & Hc2 & Hc3 & Hc4). split; [done|]. split; [done|]. intros Hon Hdepth. split; [auto|].
    intros leaf rest revoked. by apply Hc4.
  - intros Hw (Hc1 & Hc2 & Hc3). apply (callback_watched v offered Hw) in Hc3 as [Hc3 Hc4]. by split_and!.
Qed.

(** An error in the configuration of client verification, a mode that does not exist or
    a file that cannot be read, is a warning, and every client is accepted. *)
Theorem client_verify_fails_open cfg m ws e es now name offered : make (Some cfg) = Ok (m, ws) →
  NewClientVerifier (ssl_ClientVerify cfg) = Err e →
  accepts (handshake (tls_run m es) now name).1 offered = true.
Proof.
  intros Hm Hv. destruct (make_config _ _ _ Hm) as (H0 & base & _ & [Ha Hc] & Hd). destruct (run_config es m H0) as [H1 H2].
  destruct (handshake_config (tls_run m es) now name H1) as [-> _]. rewrite H2, Hd, Hv. unfold accepts.
  destruct (cv_Enabled _); by rewrite Ha, Hc.
Qed.

(** ** Staples *)

(** What a manager staples to its default configuration. *)
Definition stapled (m : TLSManager) : option gostring := staple m (defaultCfg m).

Lemma staple_kept m e : configs m = ∅ → is_Some (stapled m) →
  is_Some (stapled (tls_run m [e])).
Proof.
  intros Hm Hs. destruct e as [now name|om]; [|done]. cbn [tls_run foldl]. unfold handshake.
  destruct (GetConfigForClient _); [|done]. unfold getConfigForClientWithOCSP.
  assert (baseConfig m name = defaultCfg m) as -> by (unfold baseConfig; destruct name; [done|]; by rewrite Hm, lookup_empty).
  destruct (ocspManager m); [|done]. destruct (arrays m !! _) as [[|c l]|] eqn:Ha; [done| |done].
  destruct (chain c); [done|]. destruct (defaultCert m); [|done]. destruct (GetOCSPResponse _ _ _) as [[data|] om]; [|done].
  unfold stapled, staple. cbn. rewrite list_lookup_alter_eq, Ha. cbn. by eexists.
Qed.

(** A staple that went out once goes out at every later handshake, though the manager of
    responses may have given it up: it was written into the array of certificates that
    the configuration shares with its clones. *)
Theorem staple_sticks m es : configs m = ∅ → is_Some (stapled m) → is_Some (stapled (tls_run m es)).
Proof.
  revert m. induction es as [|e es IH]; intros m Hm Hs; [done|]. apply (IH (tls_run m [e])); [|by apply staple_kept].
  by apply run_config.
Qed.

(** ** [proxy_ssl.go]: connections to back ends *)

Record upstream_Config := mkUpstream {
  ServerName : gostring; InsecureSkipVerify : bool; RootCAs : option CertPool; u_Certificates : list (list gostring);
  u_MinVersion : Z; u_MaxVersion : Z }.

Definition version_or (name : gostring) (without : Z) (err : gostring → tls_error) : res tls_error Z :=
  if decide (name = []) then Ok without
  else match TLSVersionMap (ToUpper name) with None => Err (err name) | Some v => Ok v end.

(** [None] is the nil configuration. *)
Definition CreateTLSConfig (cfg : option ProxySSLConfig) (defaultServerName : gostring) : res tls_error (option upstream_Config) :=
  match cfg with
  | None => Ok None
  | Some cfg =>
      if negb (ps_Enabled cfg) then Ok None
      else
        pool ← (if decide (ps_TrustedCA cfg = []) then Ok None else p ← LoadCACertPool (ps_TrustedCA cfg); Ok (Some p));
        certs ← (if bool_decide (ps_ClientCert cfg ≠ []) && bool_decide (ps_ClientKey cfg ≠ [])
                 then match LoadX509KeyPair (ps_ClientCert cfg) (ps_ClientKey cfg) with None => Err KeyPair | Some ders => Ok [ders] end
                 else Ok []);
        lo ← version_or (ps_MinVersion cfg) VersionTLS12 InvalidMin;
        hi ← version_or (ps_MaxVersion cfg) 0 InvalidMax;
        Ok (Some (mkUpstream (if decide (ps_ServerName cfg = []) then defaultServerName else ps_ServerName cfg)
                    (ps_InsecureSkipVerify cfg) pool certs lo hi))
  end.

(** Certificates of back ends go unverified only when the configuration says so, and
    versions below TLS 1.2 are offered only when it names one. *)
Lemma CreateTLSConfig_strict cfg name c : CreateTLSConfig (Some cfg) name = Ok (Some c) →
  InsecureSkipVerify c = ps_InsecureSkipVerify cfg ∧
  (ps_TrustedCA cfg ≠ [] → ∃ data pool, ReadFile (ps_TrustedCA cfg) = Some data ∧ AppendCertsFromPEM data = Some pool ∧ RootCAs c = Some pool) ∧
  (ps_MinVersion cfg = [] → u_MinVersion c = VersionTLS12) ∧
  VersionTLS10 ≤ u_MinVersion c ≤ VersionTLS13.
Proof.
  unfold CreateTLSConfig. destruct (ps_Enabled cfg); [|done]. cbn [negb].
  destruct (if decide (ps_TrustedCA cfg = []) then _ else _) as [pool|] eqn:Hp; [|done]. cbn [mbind res_bind].
  destruct (if _ && _ then _ else _) as [certs|]; [|done]. cbn [mbind res_bind].
  destruct (version_or (ps_MinVersion cfg) _ _) as [lo|] eqn:Hlo; [|done]. cbn [mbind res_bind].
  destruct (version_or (ps_MaxVersion cfg) _ _) as [hi|]; [|done]. cbn [mbind res_bind]. intros [= <-]. cbn. split; [done|]. split; [|split].
  - intros Hne. rewrite decide_False in Hp by done. unfold LoadCACertPool in Hp. destruct (ReadFile _) as [data|]; [|done].
    destruct (AppendCertsFromPEM data) as [p|] eqn:Ha; [|done]. injection Hp as <-. by exists data, p.
  - intros Hm. unfold version_or in Hlo. rewrite decide_True in Hlo by done. by injection Hlo.
  - clear Hp. unfold version_or, TLSVersionMap in Hlo. destruct (decide (ps_MinVersion cfg = [])); [by injection Hlo as <-|].
    repeat (case_decide; [try by injection Hlo as <-|]); [|done]. exfalso. by destruct (ps_MinVersion cfg).
Qed.
End Tls.

(** ** Examples *)

(** A library without roots, whose files hold what their names say and whose chains
    verify when their first certificate has the number 5. *)
Definition ex_verifies (pool : option gostring) (offered : list Certificate) : bool :=
  match pool, offered with Some _, c :: _ => SerialNumber c =? 5 | _, _ => false end.
Definition ex_files (f : gostring) : option gostring := if decide (f = go!"/missing") then None else Some f.
Definition ex_certificate (d : gostring) : option Certificate := Some (if decide (d = go!"leaf") then ex_cert else ex_issuer).
Definition ex_make : option SSLConfig → res tls_error (@TLSManager gostring * list warning) :=
  NewTLSManager ex_files Some (λ _, None) (λ _, Some [5]) (λ _ _, Some [go!"leaf"; go!"ca"]) ex_certificate ex_request ex_parse
    None false false None (ex_net (go!"g")).
Definition ex_verifier : ClientVerifyConfig → res tls_error (@ClientVerifier gostring) := NewClientVerifier ex_files Some (λ _, None) (λ _, Some [5]).

Definition ex_ssl (mode crl : gostring) (depth : Z) (protocols : list gostring) : SSLConfig :=
  mkSSLConfig (mkClientVerifyConfig mode (go!"/ca") crl depth true) (go!"/cert") (go!"/key") [] protocols [] zero_SessionTicketsConfig
    zero_HTTP2Config zero_HSTSConfig true.
Definition ex_manager_of (r : res tls_error (TLSManager * list warning)) : option (@TLSManager gostring) :=
  match r with Ok (m, _) => Some m | Err _ => None end.
Definition client (n : Z) : Certificate := mkCertificate n [] [].

Lemma made {P} (r : res tls_error (@TLSManager P * list warning)) : match r with Ok _ => true | Err _ => false end = true → ∃ m ws, r = Ok (m, ws).
Proof. destruct r as [[m ws]|]; [eauto|done]. Qed.

Lemma tls_floor_witness : ∃ m ws, ex_make (Some (ex_ssl (go!"on") [] 2 [go!"TLSv1.2"])) = Ok (m, ws) ∧
  VersionTLS12 ≤ MinVersion (handshake (tls_run m [Hello 50 []]) 60 []).1.
Proof.
  destruct (made (ex_make (Some (ex_ssl (go!"on") [] 2 [go!"TLSv1.2"]))) ltac:(vm_compute; reflexivity)) as (m & ws & Hm).
  exists m, ws. split; [exact Hm|]. exact (proj1 (proj1 (tls_floor _ _ _ _ _ _ _ _ _ _ _ _ _ _ _ _ [Hello 50 []] 60 [] Hm))).
Defined.

Lemma client_verify_enforced_witness : ∃ m ws v, ex_make (Some (ex_ssl (go!"on") (go!"/crl") 2 [])) = Ok (m, ws) ∧
  ex_verifier (ssl_ClientVerify (ex_ssl (go!"on") (go!"/crl") 2 [])) = Ok v ∧
  (accepts ex_verifies (handshake (tls_run m [Hello 50 []]) 60 []).1 [client 5] = true → client_ok ex_verifies v [client 5]) ∧
  (client_ok ex_verifies v [] → accepts ex_verifies (handshake (tls_run m [Hello 50 []]) 60 []).1 [] = true).
Proof.
  destruct (made (ex_make (Some (ex_ssl (go!"on") (go!"/crl") 2 []))) ltac:(vm_compute; reflexivity)) as (m & ws & Hm).
  exists m, ws, (mkVerifier (Some (go!"/ca")) (Some [5]) VerifyOn 2). split; [exact Hm|]. split; [vm_compute; reflexivity|].
  split.
  - exact (proj2 (client_verify_enforced _ _ _ _ _ _ _ _ _ _ _ _ _ _ _ _ _ _ [Hello 50 []] 60 [] [client 5] Hm eq_refl
      ltac:(vm_compute; reflexivity)) ltac:(right; reflexivity)).
  - exact (proj1 (client_verify_enforced _ _ _ _ _ _ _ _ _ _ _ _ _ _ _ _ _ _ [Hello 50 []] 60 [] [] Hm eq_refl
      ltac:(vm_compute; reflexivity))).
Defined.

Definition ex_accepts (cfg : SSLConfig) (offered : list Certificate) : option bool :=
  (λ m, accepts ex_verifies (handshake m 50 []).1 offered) <$> ex_manager_of (ex_make (Some cfg)).

(** With a limit of two a revoked certificate is refused; without one it is accepted. *)
Example revoked_accepted :
  ex_accepts (ex_ssl (go!"on") (go!"/crl") 2 []) [client 5] = Some false ∧
  ex_accepts (ex_ssl (go!"on") (go!"/crl") 0 []) [client 5] = Some true.
Proof. split; by vm_compute. Qed.

(** The mode that the comment of the configuration recommends does not exist, and
    a client without a certificate gets in. *)
Example require_accepts_all :
  ex_verifier (ssl_ClientVerify (ex_ssl (go!"require") [] 1 [])) = Err (BadMode (go!"require")) ∧
  ex_accepts (ex_ssl (go!"require") [] 1 []) [] = Some true.
Proof. split; by vm_compute. Qed.

(** TLS 1.3 cannot be left out, and the least version depends on the order of a list. *)
Example only_v12_is_not_enough : ParseTLSVersions [go!"TLSv1.2"] = Ok (VersionTLS12, VersionTLS13).
Proof. by vm_compute. Qed.
Example min_version_by_order :
  ParseMinTLSVersion [go!"TLSv1.3"; go!"TLSv1.2"] = VersionTLS13 ∧ ParseMinTLSVersion [go!"TLSv1.2"; go!"TLSv1.3"] = VersionTLS12.
Proof. split; by vm_compute. Qed.

(** The response is given up and the staple stays. *)
Example given_up_and_stapled :
  (λ m, let m1 := (handshake m 50 []).2 in
        let m2 := tls_run m1 [Refreshed (failures 3 7 ex_manager); Hello 60 []] in
        ((om ← ocspManager m2; (get_read om 60 7).1), stapled m2)) <$> ex_manager_of (ex_make (Some (ex_ssl (go!"off") [] 0 [])))
  = Some (None, Some (go!"g")).
Proof. by vm_compute. Qed.
