(* ===== verification/Upstream.v ===== *)
(** * Upstream: the clients of back ends and the names they are dialed by

    [createHostClient] and [getClient] of [src/internal/proxy], and [proxy_dns.go]: the
    pool of clients, by the URL of their targets, and the refreshing of their addresses.
    [url.Parse], [net.ParseIP] and the answers of the resolver are parameters; times are
    read once per check and once per stored answer and are functions of the position of
    the target.

    Shown: a refresh changes nothing in a client but its address, which becomes the
    first address of the answer with the port of the target ([refresh_addresses]). *)

From S2P Require Import Prelude GoStrings Config NetIP VHost Target Ocsp Tls.

(** [Dial] is a timeout and the local address it binds to. *)
Record HostClient {CertPool : Type} := mkHostClient {
  Addr : gostring; IsTLS : bool; ReadTimeout : Z; WriteTimeout : Z; MaxIdleConnDuration : Z; MaxConns : Z;
  MaxConnWaitTimeout : Z; Dial : option (Z * gostring); StreamResponseBody : bool; ReadBufferSize : Z; WriteBufferSize : Z;
  TLSConfig : option (@upstream_Config CertPool) }.
Arguments HostClient CertPool : clear implicits.

Section Upstream.
Context {CertPool : Type} (ReadFile : gostring → option gostring) (AppendCertsFromPEM : gostring → option CertPool).
Context (LoadX509KeyPair : gostring → gostring → option (list gostring)).

Definition createHostClient (targetURL : gostring) (timeout : ProxyTimeout) (transportCfg : option TransportConfig)
    (sslCfg : option ProxySSLConfig) (proxyBind : gostring) (buffering : option ProxyBufferingConfig) : HostClient CertPool :=
  let '(addr, isTLS) := ParseTargetURL targetURL true in
  let idle := match transportCfg with Some t => if 0 <? tr_IdleConnTimeout t then tr_IdleConnTimeout t else 90 * second | None => 90 * second end in
  let conns := match transportCfg with Some t => if 0 <? tr_MaxConnsPerHost t then tr_MaxConnsPerHost t else 512 | None => 512 end in
  let dialTimeout := if to_Dial timeout <=? 0 then to_Connect timeout else to_Dial timeout in
  let dialTimeout := if dialTimeout <=? 0 then 30 * second else dialTimeout in
  let size := match buffering with Some b => if 0 <? bf_BufferSize b then bf_BufferSize b else 0 | None => 0 end in
  mkHostClient CertPool addr isTLS (to_Read timeout) (to_Write timeout) idle conns (to_Connect timeout)
    (if bool_decide (proxyBind ≠ []) || (0 <? to_Dial timeout) then Some (dialTimeout, proxyBind) else None)
    (match buffering with Some b => bool_decide (bf_Mode b = go!"off") | None => false end) size size
    (if match sslCfg with Some s => ps_Enabled s | None => false end && isTLS then
       match CreateTLSConfig ReadFile AppendCertsFromPEM LoadX509KeyPair sslCfg (ParseTargetURL targetURL false).1 with
       | Ok c => c | Err _ => None
       end
     else None).

Abbreviation pool := (gmap gostring (HostClient CertPool)).

Definition client_key (proxyBind targetURL : gostring) : gostring :=
  if decide (proxyBind = []) then targetURL else targetURL ++ "|"%char :: proxyBind.

Definition getClient (proxyBind : gostring) (clients : pool) (targetURL : gostring) : option (HostClient CertPool) :=
  clients !! client_key proxyBind targetURL.

(** The loop of [NewProxy] over the targets. *)
Definition init_clients (timeout : ProxyTimeout) (transportCfg : option TransportConfig) (sslCfg : option ProxySSLConfig)
    (proxyBind : gostring) (buffering : option ProxyBufferingConfig) (urls : list gostring) : pool :=
  foldl (λ (cs : pool) (u : gostring), if decide (u = []) then cs
                 else <[client_key proxyBind u := createHostClient u timeout transportCfg sslCfg proxyBind buffering]> cs) ∅ urls.

(** ** [proxy_dns.go] *)

(** Scheme and host of a URL. *)
Context (url_Parse : gostring → option (gostring * gostring)) (is_ip : gostring → bool).

Definition with_Addr (a : gostring) (c : HostClient CertPool) : HostClient CertPool :=
  mkHostClient CertPool a (IsTLS c) (ReadTimeout c) (WriteTimeout c) (MaxIdleConnDuration c) (MaxConns c) (MaxConnWaitTimeout c)
    (Dial c) (StreamResponseBody c) (ReadBufferSize c) (WriteBufferSize c) (TLSConfig c).

(** The address of a target at an IP address. *)
Definition newAddr (url ip : gostring) : option gostring :=
  '(scheme, host) ← url_Parse url;
  Some (JoinHostPort ip (match SplitHostPort host with
                         | Some (_, port) => port
                         | None => if decide (scheme = go!"https") then go!"443" else go!"80"
                         end)).

Definition updateHostClientAddr (proxyBind : gostring) (clients : pool) (url ip : gostring) : pool :=
  match newAddr url ip with
  | None => clients
  | Some a =>
      let key := client_key proxyBind url in
      match clients !! key with None => clients | Some c => <[key := with_Addr a c]> clients end
  end.

Definition getResolverTTL (has_resolver : bool) : Z := if has_resolver then 30 * second else 0.

(** [max(ttl/2, time.Second)] *)
Definition refresh_interval : Z :=
  let ttl := getResolverTTL true in
  let ttl := if ttl =? 0 then 30 * second else ttl in
  Z.max (ttl / 2) second.

(** [Start]; the error is that of the resolver. *)
Record started_state := mkStarted { started : bool; loops : nat }.
Definition Proxy_Start (has_resolver resolver_starts : bool) (s : started_state) : bool * started_state :=
  if started s then (true, s)
  else if has_resolver then
    if resolver_starts then (true, mkStarted true (S (loops s))) else (false, mkStarted true (loops s))
  else (true, mkStarted true (loops s)).

Section Refresh.
Context (proxyBind : gostring) (LookupHostWithCache : gostring → option (list gostring)).
(** The times of the checks and of the answers. *)
Context (checked stored : nat → Z).

Fixpoint refresh_loop (i : nat) (targets : list ptr) (h : heap) (clients : pool) : heap * pool :=
  match targets with
  | [] => (h, clients)
  | p :: rest =>
      let t := deref h p in
      if negb (NeedsResolve is_ip (checked i) (getResolverTTL true) t) then refresh_loop (S i) rest h clients
      else if decide (hostname t = []) then refresh_loop (S i) rest h clients
      else match LookupHostWithCache (hostname t) with
           | Some (ip :: ips) =>
               refresh_loop (S i) rest (store h p (SetResolvedIPs (stored i) t (ip :: ips))) (updateHostClientAddr proxyBind clients (URL t) ip)
           | _ => refresh_loop (S i) rest h clients
           end
  end.

Definition refreshDNS (has_resolver : bool) (targets : list ptr) (h : heap) (clients : pool) : heap * pool :=
  if has_resolver then refresh_loop 0 targets h clients else (h, clients).

(** ** What a refresh changes *)

(** The address that a target could be given: the first of the answer for its name. *)
Definition answered (url name addr : gostring) : Prop :=
  name ≠ [] ∧ ∃ ip ips, LookupHostWithCache name = Some (ip :: ips) ∧ newAddr url ip = Some addr.

Definition refreshed (names : list (gostring * gostring)) (key : gostring) (c c' : HostClient CertPool) : Prop :=
  c' = c ∨ ∃ url name addr, (url, name) ∈ names ∧ client_key proxyBind url = key ∧ answered url name addr ∧ c' = with_Addr addr c.

Definition pool_refreshed (names : list (gostring * gostring)) (cs cs' : pool) : Prop :=
  ∀ key, match cs !! key with
         | None => cs' !! key = None
         | Some c => ∃ c', cs' !! key = Some c' ∧ refreshed names key c c'
         end.

Lemma pool_refreshed_trans names cs1 cs2 cs3 : pool_refreshed names cs1 cs2 → pool_refreshed names cs2 cs3 → pool_refreshed names cs1 cs3.
Proof.
  intros H1 H2 key. specialize (H1 key). specialize (H2 key). destruct (cs1 !! key) as [c|].
  - destruct H1 as (c2 & Hc2 & Hr1). rewrite Hc2 in H2. destruct H2 as (c3 & Hc3 & Hr2). exists c3. split; [done|].
    destruct Hr2 as [->|(u & n & a & Hin & Hk & Ha & ->)]; [done|]. right. exists u, n, a. split_and!; [done..|].
    destruct Hr1 as [->|(u' & n' & a' & _ & _ & _ & ->)]; done.
  - by rewrite H1 in H2.
Qed.

Lemma pool_refreshed_weaken names names' cs cs' : names ⊆ names' → pool_refreshed names cs cs' → pool_refreshed names' cs cs'.
Proof.
  intros Hn H key. specialize (H key). destruct (cs !! key) as [c|]; [|done]. destruct H as (c' & Hc & [->|(u & n & a & Hin & H)]).
  - exists c. split; [done|by left].
  - exists c'. split; [done|]. right. exists u, n, a. split; [by apply Hn|done].
Qed.

Lemma pool_refreshed_refl names cs : pool_refreshed names cs cs.
Proof. intros key. destruct (cs !! key) as [c|] eqn:Hc; [|done]. exists c. split; [done|by left]. Qed.

Lemma update_refreshed cs url name ip ips : name ≠ [] → LookupHostWithCache name = Some (ip :: ips) →
  pool_refreshed [(url, name)] cs (updateHostClientAddr proxyBind cs url ip).
Proof.
  intros Hne Hl. unfold updateHostClientAddr. destruct (newAddr url ip) as [a|] eqn:Ha; [|apply pool_refreshed_refl].
  destruct (cs !! client_key proxyBind url) as [c|] eqn:Hc; [|apply pool_refreshed_refl]. intros key.
  destruct (decide (key = client_key proxyBind url)) as [->|Hk].
  - rewrite Hc, lookup_insert_eq. eexists. split; [done|]. right. exists url, name, a. split_and!; [left|done| |done].
    split; [done|]. by exists ip, ips.
  - rewrite lookup_insert_ne by done. destruct (cs !! key) as [c'|] eqn:Hc'; [|done]. exists c'. split; [done|by left].
Qed.

(** Names and URLs of targets are never changed. *)
Definition target_names (h : heap) (targets : list ptr) : list (gostring * gostring) := (λ p, (URL (deref h p), hostname (deref h p))) <$> targets.

Lemma store_names h p now ips q :
  let h' := store h p (SetResolvedIPs now (deref h p) ips) in
  URL (deref h' q) = URL (deref h q) ∧ hostname (deref h' q) = hostname (deref h q).
Proof.
  unfold store, deref. cbn zeta. destruct (decide (q = p)) as [->|Hne].
  - rewrite lookup_alter_eq. by destruct (h !! p).
  - by rewrite lookup_alter_ne.
Qed.

Lemma loop_refreshed targets : ∀ i h cs,
  pool_refreshed (target_names h targets) cs (refresh_loop i targets h cs).2.
Proof.
  induction targets as [|p rest IH]; intros i h cs; cbn [refresh_loop]; [apply pool_refreshed_refl|].
  assert (∀ cs, pool_refreshed (target_names h (p :: rest)) cs (refresh_loop (S i) rest h cs).2) as Hskip.
  { intros cs0. eapply pool_refreshed_weaken; [|apply IH]. intros x Hx. by right. }
  destruct (NeedsResolve _ _ _ _); [|apply Hskip]. cbn [negb]. destruct (decide _) as [|Hne]; [apply Hskip|].
  destruct (LookupHostWithCache _) as [[|ip ips]|] eqn:Hl; [apply Hskip| |apply Hskip].
  set (h' := store h p (SetResolvedIPs (stored i) (deref h p) (ip :: ips))).
  assert (target_names h' rest = target_names h rest) as Hn.
  { unfold target_names. apply list_fmap_ext. intros _ q _. destruct (store_names h p (stored i) (ip :: ips) q) as [H1 H2].
    unfold h'. by rewrite H1, H2. }
  eapply pool_refreshed_trans.
  - eapply pool_refreshed_weaken; [|by eapply update_refreshed]. intros x Hx%list_elem_of_singleton. subst. left.
  - eapply pool_refreshed_weaken; [|apply IH]. rewrite Hn. intros x Hx. by right.
Qed.

(** A refresh keeps the clients that there are and changes nothing in them but the
    address, which becomes the first address the resolver has for the name of a target
    with this client, with the port of the target; a target without an answer, or that
    needs none, leaves its client alone. *)
Theorem refresh_addresses has_resolver targets h cs key c : cs !! key = Some c →
  ∃ c', (refreshDNS has_resolver targets h cs).2 !! key = Some c' ∧ refreshed (target_names h targets) key c c'.
Proof.
  intros Hc. unfold refreshDNS. destruct has_resolver; [|exists c; by split; [|left]].
  pose proof (loop_refreshed targets 0 h cs key) as H. by rewrite Hc in H.
Qed.
End Refresh.
End Upstream.

(** ** Examples *)

(** The certificate of a back end with a port is checked against name and port. *)
Example client_name_with_port :
  (ServerName <$> TLSConfig (createHostClient (λ _, None) (λ _, Some tt) (λ _ _, None) (go!"https://back:8443") zero_ProxyTimeout None
    (Some (mkProxySSLConfig [] [] [] [] [] [] true false)) [] None)) = Some (go!"back:8443").
Proof. by vm_compute. Qed.

(** A configuration of TLS that cannot be made is dropped: the client certificate and
    the authority are not used. *)
Example bad_config_dropped :
  let c := createHostClient (λ _, None) (λ _, Some tt) (λ _ _, None) (go!"https://back") zero_ProxyTimeout None
    (Some (mkProxySSLConfig [] (go!"/missing") [] [] [] [] true false)) [] None in
  TLSConfig c = None ∧ IsTLS c = true.
Proof. split; by vm_compute. Qed.

Definition ex_target : Target := mkTarget (go!"http://back:8080") (go!"back") None 0 [] 1 0 true 0 0 0 false false [] 0 0 0 0 None.
Definition ex_clients : gmap gostring (HostClient unit) :=
  init_clients (λ _, None) (λ _, Some tt) (λ _ _, None) zero_ProxyTimeout None None [] None [go!"http://back:8080"].
Definition ex_refresh : gmap nat Target * gmap gostring (HostClient unit) :=
  refreshDNS (λ _, Some (go!"http", go!"back:8080")) (λ _, false) [] (λ _, Some [go!"10.0.0.7"]) (λ _, 50) (λ _, 60) true [0%nat] {[0%nat := ex_target]} ex_clients.

Example ex_refreshed : Addr <$> getClient [] ex_refresh.2 (go!"http://back:8080") = Some (go!"10.0.0.7:8080").
Proof. by vm_compute. Qed.

Lemma refresh_addresses_witness : ∃ c c', ex_clients !! go!"http://back:8080" = Some c ∧ ex_refresh.2 !! go!"http://back:8080" = Some c' ∧
  refreshed (λ _, Some (go!"http", go!"back:8080")) [] (λ _, Some [go!"10.0.0.7"]) (target_names {[0%nat := ex_target]} [0%nat]) (go!"http://back:8080") c c'.
Proof.
  destruct (refresh_addresses (CertPool := unit) (λ _, Some (go!"http", go!"back:8080")) (λ _, false) [] (λ _, Some [go!"10.0.0.7"]) (λ _, 50) (λ _, 60) true [0%nat] {[0%nat := ex_target]} ex_clients
    (go!"http://back:8080") (createHostClient (λ _, None) (λ _, Some tt) (λ _ _, None) (go!"http://back:8080") zero_ProxyTimeout None None [] None) ltac:(vm_compute; reflexivity))
    as (c' & Hc & Hr).
  eexists _, c'. split; [|split; [exact Hc|exact Hr]]. vm_compute. reflexivity.
Defined.

(** After a start that failed the refreshing is never started. *)
Example failed_start_sticks :
  let '(_, s) := Proxy_Start true false (mkStarted false 0) in Proxy_Start true true s = (true, mkStarted true 0).
Proof. done. Qed.
