(* ===== verification/WebSocket.v ===== *)
(** * WebSocket: the proxying of web sockets

    [src/internal/proxy/websocket.go]: the upgrade request, the dialing of the back end,
    the bridge between the two connections, and the handler over these.  The bridge is
    two goroutines that copy and one that waits for them, one section per call of the
    network; what the network and the libraries answer are arguments.

    Shown: a request whose parts are free of line ends is read back as the lines that
    were meant ([upgrade_request_lines]); under every interleaving each direction of the
    bridge delivers a prefix of what was read, all of it but the bytes that came with the
    error that ended its reading, and the bridge returns only when both directions have ended ([bridge_transparent]); every
    path of the handler closes what it was given and what it dialed
    ([handler_closes]). *)

From S2P Require Import Prelude GoStrings Config NetIP VHost ProxyHeaders Threads Ocsp Tls.

(** ** The upgrade request *)

(** What the request is built from: the decoded path, the query, the headers. *)
Record upgrade := mkUpgrade { up_Path : gostring; up_Query : gostring; up_Headers : headers; up_Forwarded : ForwardedHeaders }.

Definition copyHeaders : list gostring := [
  go!"Upgrade"; go!"Connection"; go!"Sec-WebSocket-Key"; go!"Sec-WebSocket-Version"; go!"Sec-WebSocket-Protocol";
  go!"Sec-WebSocket-Extensions"; go!"Origin"].

Definition header_lines (h : headers) : gostring :=
  concat ((λ name, match Peek h name with [] => [] | v => name ++ go!": " ++ v ++ crlf end) <$> copyHeaders).

Definition request_path (u : upgrade) : gostring :=
  let path := match up_Path u with [] => go!"/" | p => p end in
  match up_Query u with [] => path | q => path ++ "?"%char :: q end.

Definition buildWebSocketUpgradeRequest (u : upgrade) (targetHost : gostring) (headersConfig : option ProxyHeaders) : gostring :=
  let req := go!"GET " ++ request_path u ++ go!" HTTP/1.1" ++ crlf ++ go!"Host: " ++ targetHost ++ crlf ++ header_lines (up_Headers u) in
  let setHost := default true (c ← headersConfig; hd_SetForwardedHost c) in
  let setProto := default true (c ← headersConfig; hd_SetForwardedProto c) in
  WriteForwardedHeaders req (up_Forwarded u) setHost setProto ++ crlf.

(** *** What a server reads of it *)

Fixpoint read_line (s : gostring) : option (gostring * gostring) :=
  match s with
  | [] => None
  | c :: s' =>
      if Ascii.eqb c "013" && match s' with c' :: _ => Ascii.eqb c' "010" | [] => false end then Some ([], drop 1 s')
      else '(l, rest) ← read_line s'; Some (c :: l, rest)
  end.

(** The lines up to the blank one, and what follows. *)
Fixpoint read_head (fuel : nat) (s : gostring) : option (list gostring * gostring) :=
  match fuel with
  | O => None
  | S fuel =>
      '(l, rest) ← read_line s;
      match l with [] => Some ([], rest) | _ => '(ls, rest) ← read_head fuel rest; Some (l :: ls, rest) end
  end.

(** The lines that are meant. *)
Definition header_line (h : headers) (name : gostring) : option gostring :=
  match Peek h name with [] => None | v => Some (name ++ go!": " ++ v) end.

Definition forwarded_lines (fh : ForwardedHeaders) (setHost setProto : bool) : list gostring :=
  (if decide (fh_ClientIP fh = []) then [] else [go!"X-Forwarded-For: " ++ fh_ClientIP fh; go!"X-Real-IP: " ++ fh_ClientIP fh]) ++
  (if setHost && bool_decide (fh_Host fh ≠ []) then [go!"X-Forwarded-Host: " ++ fh_Host fh] else []) ++
  (if setProto && bool_decide (fh_Proto fh ≠ []) then [go!"X-Forwarded-Proto: " ++ fh_Proto fh] else []).

Definition request_lines (u : upgrade) (targetHost : gostring) (headersConfig : option ProxyHeaders) : list gostring :=
  [go!"GET " ++ request_path u ++ go!" HTTP/1.1"; go!"Host: " ++ targetHost] ++ omap (header_line (up_Headers u)) copyHeaders ++
  forwarded_lines (up_Forwarded u) (default true (c ← headersConfig; hd_SetForwardedHost c)) (default true (c ← headersConfig; hd_SetForwardedProto c)).

Definition ended_lines (ls : list gostring) : gostring := concat ((λ l, l ++ crlf) <$> ls).

Lemma ended_app ls ls' : ended_lines (ls ++ ls') = ended_lines ls ++ ended_lines ls'.
Proof. unfold ended_lines. by rewrite fmap_app, concat_app. Qed.

Lemma ended_headers h names : concat ((λ name, match Peek h name with [] => [] | v => name ++ go!": " ++ v ++ crlf end) <$> names) =
  ended_lines (omap (header_line h) names).
Proof.
  induction names as [|n names IH]; [done|]. cbn [fmap list_fmap concat omap list_omap]. rewrite IH. unfold header_line.
  destruct (Peek h n) as [|c v]; [done|]. unfold ended_lines. cbn [fmap list_fmap concat]. by rewrite <- !app_assoc.
Qed.

Lemma ended_forwarded req fh a b : WriteForwardedHeaders req fh a b = req ++ ended_lines (forwarded_lines fh a b).
Proof.
  unfold WriteForwardedHeaders, forwarded_lines. f_equal. rewrite !ended_app. f_equal; [|f_equal].
  - destruct (decide _); [done|]. unfold ended_lines. cbn [fmap list_fmap concat]. by rewrite app_nil_r, <- !app_assoc.
  - destruct (a && _); [|done]. unfold ended_lines. cbn [fmap list_fmap concat]. by rewrite app_nil_r, <- !app_assoc.
  - destruct (b && _); [|done]. unfold ended_lines. cbn [fmap list_fmap concat]. by rewrite app_nil_r, <- !app_assoc.
Qed.

Lemma request_ended u host hc : buildWebSocketUpgradeRequest u host hc = ended_lines (request_lines u host hc) ++ crlf.
Proof.
  unfold buildWebSocketUpgradeRequest, request_lines. rewrite ended_forwarded, !ended_app. unfold header_lines. rewrite ended_headers.
  unfold ended_lines at 3. cbn [fmap list_fmap concat]. by rewrite app_nil_r, <- !app_assoc.
Qed.

Abbreviation clean := (λ s : gostring, "013"%char ∉ s).

Lemma read_line_clean l rest : clean l → read_line (l ++ crlf ++ rest) = Some (l, rest).
Proof.
  induction l as [|c l IH]; intros Hc; [done|]. apply not_elem_of_cons in Hc as [Hne Hc].
  cbn [app read_line]. assert (Ascii.eqb c "013" = false) as -> by (apply Ascii.eqb_neq; congruence). cbn [andb].
  by rewrite IH.
Qed.

Lemma read_head_lines ls rest : Forall clean ls → Forall (λ l, l ≠ []) ls → ∀ fuel, (length ls < fuel)%nat →
  read_head fuel (ended_lines ls ++ crlf ++ rest) = Some (ls, rest).
Proof.
  intros Hc Hne. induction ls as [|l ls IH]; intros [|fuel] Hf; cbn in Hf; try lia; cbn [read_head].
  - done.
  - unfold ended_lines. cbn [fmap list_fmap concat]. rewrite <- !app_assoc. apply Forall_cons in Hc as [Hl Hc], Hne as [Hn Hne].
    rewrite read_line_clean by done. cbn [mbind option_bind]. fold (ended_lines ls). rewrite IH by (done || lia).
    by destruct l.
Qed.

Lemma clean_app a b : clean (a ++ b) ↔ clean a ∧ clean b.
Proof. by rewrite not_elem_of_app. Qed.

(** When neither the path, the query, the host of the target, the copied headers nor the
    forwarded values contain a line end, a server reads the upgrade request as exactly
    the lines that were meant. *)
Theorem upgrade_request_lines u host hc : clean (up_Path u) → clean (up_Query u) → clean host →
  (∀ name, name ∈ copyHeaders → clean (Peek (up_Headers u) name)) →
  clean (fh_ClientIP (up_Forwarded u)) → clean (fh_Host (up_Forwarded u)) → clean (fh_Proto (up_Forwarded u)) →
  read_head 20 (buildWebSocketUpgradeRequest u host hc) = Some (request_lines u host hc, []).
Proof.
  intros Hp Hq Hh Hhd H1 H2 H3. rewrite request_ended. rewrite <- (app_nil_r crlf).
  assert (∀ (s : gostring), bool_decide (clean s) = true → clean s) as Hk by (intros s; apply bool_decide_eq_true_1).
  apply read_head_lines.
  - unfold request_lines. rewrite !Forall_app. split_and!.
    + repeat apply Forall_cons_2; [| |done]; rewrite !clean_app; split_and!; try done; try by (apply Hk; vm_compute).
      unfold request_path. destruct (up_Query u) as [|q0 q], (up_Path u) as [|p0 p]; try done; try (by apply Hk; vm_compute);
        apply not_elem_of_app; split; try done; try (by apply Hk; vm_compute); apply not_elem_of_cons; by split.
    + apply Forall_forall. intros l Hl. apply list_elem_of_omap in Hl as (name & Hin & Hl). unfold header_line in Hl.
      specialize (Hhd name Hin). destruct (Peek (up_Headers u) name) as [|c v]; [done|]. apply (inj Some) in Hl as <-.
      apply clean_app; split; [|apply clean_app; split; [by apply Hk; vm_compute|done]].
      clear -Hin Hk. unfold copyHeaders in Hin. repeat (apply elem_of_cons in Hin as [->|Hin]; [by apply Hk; vm_compute|]). by apply elem_of_nil in Hin.
    + unfold forwarded_lines. rewrite !Forall_app. split_and!.
      * destruct (decide _); [done|]. repeat apply Forall_cons_2; [| |done]; rewrite clean_app; (split; [by apply Hk; vm_compute|done]).
      * destruct (_ && _); [|done]. apply Forall_singleton. rewrite clean_app. split; [by apply Hk; vm_compute|done].
      * destruct (_ && _); [|done]. apply Forall_singleton. rewrite clean_app. split; [by apply Hk; vm_compute|done].
  - unfold request_lines. rewrite !Forall_app. split_and!; [by repeat constructor| |].
    + apply Forall_forall. intros l Hl. apply list_elem_of_omap in Hl as (name & Hin & Hl). unfold header_line in Hl.
      destruct (Peek _ _); [done|]. injection Hl as <-. by destruct name.
    + unfold forwarded_lines. rewrite !Forall_app. split_and!; [destruct (decide _)|destruct (_ && _)|destruct (_ && _)]; by repeat constructor.
  - unfold request_lines. rewrite !length_app. cbn [length].
    assert (length (omap (header_line (up_Headers u)) copyHeaders) ≤ 7)%nat.
    { unfold copyHeaders. cbn [omap list_omap]. repeat (destruct (header_line _ _); cbn [length]); lia. }
    unfold forwarded_lines. rewrite !length_app. destruct (decide _), (_ && _), (_ && _); cbn [length]; lia.
Qed.

(** ** Errors of connections *)

(** [io.EOF], a [net.Error] with whether its text says that the connection is closed
    and whether it is a time-out, and others. *)
Inductive conn_error := EOF | NetError (closed_text timeout : bool) | OtherError (n : Z).

Definition isConnectionClosedError (e : option conn_error) : bool :=
  match e with
  | None => false
  | Some EOF => true
  | Some (NetError closed_text timeout) => closed_text || timeout
  | Some (OtherError _) => false
  end.

(** ** Dialing *)

(** A connection to the back end, with its deadlines. *)
Record target_conn := mkTargetConn { overTLS : bool; readDeadline : option Z; writeDeadline : option Z }.

Inductive ws_error :=
  | HijackFailed | ConnectFailed | TLSFailed (e : tls_error) | DeadlineError | HandshakeFailed | SendFailed | ResponseFailed
  | Rejected (code : Z) | ForwardFailed | CopyRead (e : conn_error) | CopyWrite (e : conn_error).

(** What the network answers while the handler runs. *)
Record ws_net := mkNet {
  connects : bool; deadline_set : bool; handshakes : bool; request_sent : bool; read_deadline_set : bool;
  (** code, status line, headers in the order of the map, and what was read beyond them *)
  upgrade_response : option (Z * gostring * list (gostring * list gostring) * gostring);
  response_sent : bool }.

Section Dial.
Context {CertPool : Type} (ReadFile : gostring → option gostring) (AppendCertsFromPEM : gostring → option CertPool).
Context (LoadX509KeyPair : gostring → gostring → option (list gostring)).

(** The two connections, and what was written to each. *)
Record conns := mkConns { client_open : bool; target_open : bool; to_target : gostring; to_client : gostring }.

Definition close_client (c : conns) : conns := mkConns false (target_open c) (to_target c) (to_client c).
Definition set_target (b : bool) (c : conns) : conns := mkConns (client_open c) b (to_target c) (to_client c).

(** [None] is a panic: the nil configuration of TLS is used. *)
Definition dialTarget (net : ws_net) (now : Z) (targetURL : gostring) (timeout : Z) (proxySSL : option ProxySSLConfig) (c : conns)
  : option (res ws_error target_conn) * conns :=
  let '(addr, isTLS) := ParseTargetURL targetURL true in
  if negb (connects net) then (Some (Err ConnectFailed), c)
  else
    let c := set_target true c in
    if negb isTLS then (Some (Ok (mkTargetConn false None None)), c)
    else
      match CreateTLSConfig ReadFile AppendCertsFromPEM LoadX509KeyPair proxySSL addr with
      | Err e => (Some (Err (TLSFailed e)), set_target false c)
      | Ok None => (None, c)
      | Ok (Some _) =>
          if negb (deadline_set net) then (Some (Err DeadlineError), set_target false c)
          else if negb (handshakes net) then (Some (Err HandshakeFailed), set_target false c)
          else (Some (Ok (mkTargetConn true (Some (now + timeout)) (Some (now + timeout)))), c)
      end.

(** The name that the certificate of the back end is checked against. *)
Definition dialed_name (targetURL : gostring) (proxySSL : option ProxySSLConfig) : option gostring :=
  let addr := (ParseTargetURL targetURL true).1 in
  match CreateTLSConfig ReadFile AppendCertsFromPEM LoadX509KeyPair proxySSL addr with
  | Ok (Some c) =>
      let host := match SplitHostPort addr with Some (h, _) => h | None => addr end in
      Some (if decide (ServerName c = []) then host else ServerName c)
  | _ => None
  end.

(** ** The handler *)

Definition writeUpgradeResponse (status : gostring) (hs : list (gostring * list gostring)) : gostring :=
  go!"HTTP/1.1 " ++ status ++ crlf ++
  concat ((λ '(k, vs), concat ((λ v, k ++ go!": " ++ v ++ crlf) <$> vs)) <$> hs) ++ crlf.

(** [Close] of the bridge, with its flag. *)
Definition bridge_Close (closed : bool) (c : conns) : bool * conns :=
  if closed then (true, c) else (true, set_target false (close_client c)).

(** The steps from the request to the bridge: the connections afterwards, and the
    connection that the bridge runs on with what it reads first, or the error. *)
Definition upgrade_steps (net : ws_net) (now : Z) (timeout : Z) (req : gostring) (conn : target_conn) (c : conns)
  : res ws_error (target_conn * gostring) * conns :=
  if negb (request_sent net) then (Err SendFailed, c)
  else
    let c := mkConns (client_open c) (target_open c) req (to_client c) in
    if negb (read_deadline_set net) then (Err ResponseFailed, c)
    else
      let conn := mkTargetConn (overTLS conn) (Some (now + timeout)) (writeDeadline conn) in
      match upgrade_response net with
      | None => (Err ResponseFailed, c)
      | Some (code, status, hs, buffered) =>
          if negb (code =? 101) then (Err (Rejected code), c)
          else if negb (response_sent net) then (Err ForwardFailed, c)
          else (Ok (conn, buffered), mkConns (client_open c) (target_open c) (to_target c) (writeUpgradeResponse status hs))
      end.

(** [hijacked]: whether [ctx.Hijack] has called its function when it returns, so that
    the connection of the client is there; [bridge] is what the bridge ends with.  The
    result, [None] for a panic, the connection that was bridged, and what is left. *)
Definition WebSocket (hijacked : bool) (net : ws_net) (now : Z) (targetURL : gostring) (timeout : Z) (u : upgrade)
    (headersConfig : option ProxyHeaders) (proxySSL : option ProxySSLConfig) (bridge : option ws_error)
  : option (option ws_error) * option (target_conn * gostring) * conns :=
  let c := mkConns hijacked false [] [] in
  if negb hijacked then (Some (Some HijackFailed), None, c)
  else
    match dialTarget net now targetURL timeout proxySSL c with
    | (None, c) => (None, None, c)
    | (Some (Err _), c) => (Some (Some ConnectFailed), None, close_client c)
    | (Some (Ok conn), c) =>
        let req := buildWebSocketUpgradeRequest u (ExtractHost targetURL) headersConfig in
        let '(r, c) := upgrade_steps net now timeout req conn c in
        let '(_, c) := bridge_Close false c in
        match r with Err e => (Some (Some e), None, c) | Ok b => (Some bridge, Some b, c) end
    end.

(** C24: Every path closes both connections, and a back end with TLS and no configuration of
    it is the only one that panics, leaving them open. *)
Theorem handler_closes hijacked net now url timeout u hc ssl bridge :
  let '(r, b, c) := WebSocket hijacked net now url timeout u hc ssl bridge in
  match r with
  | Some _ => client_open c = false ∧ target_open c = false
  | None => hijacked = true ∧ connects net = true ∧ (ParseTargetURL url true).2 = true ∧
            match ssl with Some s => ps_Enabled s = false | None => True end ∧ client_open c = true ∧ target_open c = true
  end.
Proof.
  unfold WebSocket. destruct hijacked; cbn [negb]; [|done]. unfold dialTarget.
  destruct (ParseTargetURL url true) as [addr isTLS]. destruct (connects net); cbn [negb]; [|done].
  assert (∀ req conn c, match (let '(r, c) := upgrade_steps net now timeout req conn c in
            let '(_, c) := bridge_Close false c in
            match r with Err e => (Some (Some e), None, c) | Ok b => (Some bridge, Some b, c) end : option (option ws_error) * option (target_conn * gostring) * conns)
          with (Some _, _, c) => client_open c = false ∧ target_open c = false | _ => False end) as Hup.
  { intros req conn c. destruct (upgrade_steps _ _ _ _ _ _) as [[b|e] c1]; done. }
  destruct isTLS; cbn [negb].
  - destruct (CreateTLSConfig _ _ _ _ _) as [[cfg|]|e] eqn:Hc; [| |done].
    + destruct (deadline_set net), (handshakes net); cbn [negb]; try done.
      match goal with |- context [upgrade_steps _ _ _ ?req ?conn ?c] => specialize (Hup req conn c) end.
      destruct (let '(r, c) := upgrade_steps _ _ _ _ _ _ in _) as [[[r|] b] c]; done.
    + split_and!; try done. destruct ssl as [s|]; [|done]. unfold CreateTLSConfig in Hc. destruct (ps_Enabled s); [|done]. cbn [negb] in Hc.
      repeat match type of Hc with context [mbind _ ?x] => destruct x; cbn [mbind res_bind] in Hc; try done end.
  - match goal with |- context [upgrade_steps _ _ _ ?req ?conn ?c] => specialize (Hup req conn c) end.
    destruct (let '(r, c) := upgrade_steps _ _ _ _ _ _ in _) as [[[r|] b] c]; done.
Qed.

(** The connection of the back end enters the bridge with the deadline of the upgrade. *)
Lemma deadline_left net now url timeout u hc ssl bridge conn buffered c :
  WebSocket true net now url timeout u hc ssl bridge = (Some bridge, Some (conn, buffered), c) → readDeadline conn = Some (now + timeout).
Proof.
  unfold WebSocket. cbn [negb]. destruct (dialTarget _ _ _ _ _ _) as [[[d|]|] c0]; [|done..].
  unfold upgrade_steps. repeat (case_match; try done); intros; simplify_eq; done.
Qed.
End Dial.

(** ** The bridge *)

Inductive direction := ToClient | ToTarget.
#[export] Instance direction_eq_dec : EqDecision direction.
Proof. solve_decision. Defined.

(** [lost] is what the last [Read] gave together with its error. *)
Inductive ended := ReadEnded (lost : gostring) (e : conn_error) | WriteEnded (e : conn_error).

(** One direction: what was read from its source, what was written to its destination,
    and why it ended. *)
Record flow := mkFlow { f_read : gostring; f_wrote : gostring; f_ended : option ended }.

Record bridge_state := mkBridge { toClient : flow; toTarget : flow; returned : option (option ws_error) }.

Definition get_flow (d : direction) (b : bridge_state) : flow := match d with ToClient => toClient b | ToTarget => toTarget b end.
Definition on_flow (d : direction) (f : flow → flow) (b : bridge_state) : bridge_state :=
  match d with
  | ToClient => mkBridge (f (toClient b)) (toTarget b) (returned b)
  | ToTarget => mkBridge (toClient b) (f (toTarget b)) (returned b)
  end.

(** What [copyData] returns. *)
Definition copyErr (e : ended) : option ws_error :=
  match e with
  | ReadEnded _ e => if isConnectionClosedError (Some e) then None else Some (CopyRead e)
  | WriteEnded e => if isConnectionClosedError (Some e) then None else Some (CopyWrite e)
  end.

(** The sections of [copyData] and the wait of [Bridge]. *)
Inductive ws_section := WRead (d : direction) | WWrite (d : direction) (data : gostring) | WWait.

(** A call of [Read] gives data, or an error and data with it, as an [io.Reader] may; one
    of [Write] writes all or fails after some bytes. *)
Inductive ws_answer := ARead (data : gostring) | AReadFails (data : gostring) (e : conn_error) | AWrote | AWriteFails (n : nat) (e : conn_error) | ADone.

Definition run_section (a : ws_section) (o : ws_answer) (b : bridge_state) : option (bridge_state * list ws_section * list (list ws_section)) :=
  match a, o with
  | WRead d, ARead data =>
      Some (on_flow d (λ f, mkFlow (f_read f ++ data) (f_wrote f) None) b,
            [if decide (data = []) then WRead d else WWrite d data], [])
  | WRead d, AReadFails data e => Some (on_flow d (λ f, mkFlow (f_read f ++ data) (f_wrote f) (Some (ReadEnded data e))) b, [], [])
  | WWrite d data, AWrote => Some (on_flow d (λ f, mkFlow (f_read f) (f_wrote f ++ data) None) b, [WRead d], [])
  | WWrite d data, AWriteFails n e =>
      Some (on_flow d (λ f, mkFlow (f_read f) (f_wrote f ++ take n data) (Some (WriteEnded e))) b, [], [])
  | WWait, ADone =>
      match f_ended (toClient b), f_ended (toTarget b) with
      | Some e1, Some e2 =>
          Some (mkBridge (toClient b) (toTarget b) (Some (match copyErr e1 with Some e => Some e | None => copyErr e2 end)), [], [])
      | _, _ => None
      end
  | _, _ => None
  end.

#[export] Instance ws_machine : Machine bridge_state ws_section ws_answer Empty_set :=
  {| Threads.run_section := run_section; Threads.act := λ (c : Empty_set) _, match c with end |}.

Definition NewWebSocketBridge : bridge_state := mkBridge (mkFlow [] [] None) (mkFlow [] [] None) None.

(** [Bridge] waits; the two goroutines copy. *)
Definition Bridge : world bridge_state ws_section := mkWorld NewWebSocketBridge [[WWait]; [WRead ToClient]; [WRead ToTarget]].

(** *** What the bridge delivers *)

Definition flow_ok (d : direction) (t : list ws_section) (f : flow) : Prop :=
  match t with
  | [WRead d'] => d' = d ∧ f_read f = f_wrote f ∧ f_ended f = None
  | [WWrite d' data] => d' = d ∧ f_read f = f_wrote f ++ data ∧ f_ended f = None
  | [] => f_wrote f `prefix_of` f_read f ∧ match f_ended f with Some (ReadEnded lost _) => f_read f = f_wrote f ++ lost | Some _ => True | None => False end
  | _ => False
  end.

Definition bridge_ok (w : world bridge_state ws_section) : Prop :=
  ∃ t0 t1 t2, threads w = [t0; t1; t2] ∧ flow_ok ToClient t1 (toClient (shared w)) ∧ flow_ok ToTarget t2 (toTarget (shared w)) ∧
    (t0 = [WWait] ∧ returned (shared w) = None ∨
     t0 = [] ∧ is_Some (returned (shared w)) ∧ is_Some (f_ended (toClient (shared w))) ∧ is_Some (f_ended (toTarget (shared w)))).

(** A step of the goroutine of one direction. *)
Lemma flow_step d t f a rest o b b' before started : t = a :: rest → flow_ok d t f → get_flow d b = f →
  run_section a o b = Some (b', before, started) →
  ∃ f', b' = on_flow d (const f') b ∧ flow_ok d (before ++ rest) f' ∧ started = [].
Proof.
  intros -> Hok Hf. destruct a as [d'|d' data|]; cbn in Hok; destruct rest as [|? ?]; try done.
  - destruct Hok as (-> & Heq & He). destruct o as [data|data e| | |]; try done; cbn [run_section]; intros [= <- <- <-].
    + exists (mkFlow (f_read f ++ data) (f_wrote f) None). split_and!; [|destruct (decide _) as [->|]; cbn; [by rewrite app_nil_r|by rewrite Heq]|done].
      by destruct d; cbn in *; subst f.
    + exists (mkFlow (f_read f ++ data) (f_wrote f) (Some (ReadEnded data e))).
      split_and!; [by destruct d; cbn in *; subst f| |done]. cbn. rewrite Heq. split; [by apply prefix_app_r|done].
  - destruct Hok as (-> & Heq & He). destruct o as [|? ?| |n e|]; try done; cbn [run_section]; intros [= <- <- <-].
    + exists (mkFlow (f_read f) (f_wrote f ++ data) None). split_and!; [|done|done]. by destruct d; cbn in *; subst f.
    + exists (mkFlow (f_read f) (f_wrote f ++ take n data) (Some (WriteEnded e))).
      split_and!; [by destruct d; cbn in *; subst f| |done]. cbn. split; [|done]. rewrite Heq. apply prefix_app, prefix_take.
Qed.

Lemma bridge_step w e w' : bridge_ok w → step w e = Some w' → bridge_ok w'.
Proof.
  intros (t0 & t1 & t2 & Ht & H1 & H2 & H0) Hs. destruct e as [k o|[]]. cbn [step] in Hs. rewrite Ht in Hs.
  apply bind_Some in Hs as ([|a rest] & Hk & Hs); [done|]. apply bind_Some in Hs as ([[b' before] started] & Hr & [= <-]).
  destruct k as [|[|[|k]]]; cbn in Hk; simplify_eq.
  - destruct H0 as [[[= -> ->] Hret]|[? _]]; [|done]. cbn in Hr. destruct o; try done.
    destruct (f_ended (toClient (shared w))) as [e1|] eqn:E1; [|done]. destruct (f_ended (toTarget (shared w))) as [e2|] eqn:E2; [|done].
    injection Hr as <- <- <-. exists [], t1, t2. cbn. rewrite E1, E2. split_and!; [done..|]. right. by split_and!; eauto.
  - destruct (flow_step ToClient _ _ _ _ _ _ _ _ _ eq_refl H1 eq_refl Hr) as (f' & -> & Hf & ->).
    exists t0, (before ++ rest), t2. cbn. split_and!; [done..|]. destruct H0 as [H0|(-> & Hret & He & _)]; [by left|].
    exfalso. cbn in H1. destruct a; destruct rest; try done; destruct H1 as (_ & _ & H1); rewrite H1 in He; by destruct He.
  - destruct (flow_step ToTarget _ _ _ _ _ _ _ _ _ eq_refl H2 eq_refl Hr) as (f' & -> & Hf & ->).
    exists t0, t1, (before ++ rest). cbn. split_and!; [done..|]. destruct H0 as [H0|(-> & Hret & _ & He)]; [by left|].
    exfalso. cbn in H2. destruct a; destruct rest; try done; destruct H2 as (_ & _ & H2); rewrite H2 in He; by destruct He.
Qed.

(** C23: Under every interleaving of the two directions, what was written to either side
    is a prefix of what was read from the other; when a direction ended because its source
    gave an error, all of it but the bytes that the very [Read] of the error gave, which
    are dropped; so all of it when the error came alone. The bridge returns only when both
    directions have ended. *)
Theorem bridge_transparent es w d (f := get_flow d (shared w)) : run Bridge es = Some w →
  f_wrote f `prefix_of` f_read f ∧
  (∀ lost e, f_ended f = Some (ReadEnded lost e) → f_read f = f_wrote f ++ lost) ∧
  (is_Some (returned (shared w)) → is_Some (f_ended f)).
Proof.
  intros Hr. assert (bridge_ok w) as (t0 & t1 & t2 & _ & H1 & H2 & H0).
  { apply (run_ind (λ _ w, bridge_ok w) (λ _ w e w', bridge_step w e w') es 0%nat Bridge w); [|done].
    exists [WWait], [WRead ToClient], [WRead ToTarget]. split_and!; try done. by left. }
  assert (∃ t, flow_ok d t f) as [t Hf] by (destruct d; eauto). split_and!.
  - destruct t as [|[d'|d' data|] [|? ?]]; cbn in Hf; try done; [by destruct Hf| |];
      destruct Hf as (_ & -> & _); [done|by apply prefix_app_r].
  - intros lost e He. destruct t as [|[d'|d' data|] [|? ?]]; cbn in Hf; try done; rewrite He in Hf; by destruct Hf as (? & ? & ?) || destruct Hf.
  - intros Hs. destruct H0 as [[_ Hn]|(_ & _ & H3 & H4)]; [rewrite Hn in Hs; by destruct Hs|]. by destruct d.
Qed.

(** ** What came with the upgrade response *)

(** [bufferedConn.Read]: at most [n] bytes, from the buffer of the reader while it has
    any, else from the connection. *)
Definition buffered_Read (n : nat) (buffered conn : gostring) : gostring * gostring * gostring :=
  match buffered with
  | [] => (take n conn, [], drop n conn)
  | _ => (take n buffered, drop n buffered, conn)
  end.

Fixpoint buffered_reads (ns : list nat) (buffered conn : gostring) : gostring * gostring :=
  match ns with
  | [] => ([], buffered ++ conn)
  | n :: ns =>
      let '(data, buffered, conn) := buffered_Read n buffered conn in
      let '(more, rest) := buffered_reads ns buffered conn in (data ++ more, rest)
  end.

(** Frames that came with the response are read before those that follow, and none is
    lost. *)
Lemma buffered_in_order ns buffered conn : let '(data, rest) := buffered_reads ns buffered conn in data ++ rest = buffered ++ conn.
Proof.
  revert buffered conn. induction ns as [|n ns IH]; intros buffered conn; cbn [buffered_reads]; [done|].
  destruct buffered as [|c b]; cbn [buffered_Read].
  - specialize (IH [] (drop n conn)). destruct (buffered_reads ns [] (drop n conn)) as [more rest].
    rewrite <- app_assoc, IH. apply take_drop.
  - specialize (IH (drop n (c :: b)) conn). destruct (buffered_reads ns (drop n (c :: b)) conn) as [more rest].
    rewrite <- app_assoc, IH, app_assoc. by rewrite take_drop.
Qed.

(** ** Examples *)

Definition ex_upgrade (path : gostring) : upgrade :=
  mkUpgrade path [] (HSet (HSet ∅ (go!"Upgrade") (go!"websocket")) (go!"Connection") (go!"Upgrade")) (mkForwarded (go!"10.0.0.9") (go!"example") (go!"http")).

Lemma upgrade_request_lines_witness :
  read_head 20 (buildWebSocketUpgradeRequest (ex_upgrade (go!"/chat")) (go!"back:80") None) =
    Some ([go!"GET /chat HTTP/1.1"; go!"Host: back:80"; go!"Upgrade: websocket"; go!"Connection: Upgrade";
           go!"X-Forwarded-For: 10.0.0.9"; go!"X-Real-IP: 10.0.0.9"; go!"X-Forwarded-Host: example"; go!"X-Forwarded-Proto: http"], []).
Proof.
  etransitivity; [|vm_compute; reflexivity].
  apply (upgrade_request_lines (ex_upgrade (go!"/chat")) (go!"back:80") None); try (apply (bool_decide_unpack _); by vm_compute).
  apply Forall_forall, (bool_decide_unpack _). by vm_compute.
Defined.

(** The path is the decoded one: a request for [/%0d%0aX-Role:%20admin] has a header of
    the client's making. *)
Example path_injects_header :
  (λ r, (take 2 r.1)) <$> read_head 20 (buildWebSocketUpgradeRequest (ex_upgrade (go!"/ HTTP/1.1" ++ crlf ++ go!"X-Role: admin")) (go!"back:80") None)
  = Some [go!"GET / HTTP/1.1"; go!"X-Role: admin HTTP/1.1"].
Proof. by vm_compute. Qed.

Definition ex_events : list (event ws_answer Empty_set) :=
  [Run 1 (ARead (go!"hello")); Run 2 (ARead (go!"hi")); Run 1 AWrote; Run 2 (AWriteFails 1 (NetError true false)); Run 1 (AReadFails [] EOF); Run 0 ADone].

Lemma ex_bridged : ∃ w, run Bridge ex_events = Some w ∧ (f_wrote (toClient (shared w)), f_wrote (toTarget (shared w)), returned (shared w)) = (go!"hello", go!"h", Some None).
Proof. apply (reaches (λ w, (f_wrote (toClient (shared w)), f_wrote (toTarget (shared w)), returned (shared w)))). by vm_compute. Qed.

Lemma bridge_transparent_witness : ∃ w, run Bridge ex_events = Some w ∧
  f_wrote (toTarget (shared w)) = go!"h" ∧ f_wrote (toTarget (shared w)) `prefix_of` f_read (toTarget (shared w)).
Proof.
  destruct ex_bridged as (w & Hw & He). exists w. split; [exact Hw|]. split; [by injection He|].
  exact (proj1 (bridge_transparent ex_events w ToTarget Hw)).
Defined.

(** When the back end is quiet until the deadline of the upgrade, its direction ends
    without an error, and the bridge goes on waiting for the client. *)
Example deadline_ends_one_direction :
  (λ w, (f_ended (toClient (shared w)), returned (shared w), (λ w', returned (shared w')) <$> step w (Run 0 ADone))) <$>
    run Bridge [Run 1 (AReadFails [] (NetError false true)); Run 2 (ARead (go!"hi")); Run 2 AWrote]
  = Some (Some (ReadEnded [] (NetError false true)), None, None).
Proof. by vm_compute. Qed.

(** The bytes that come with the end are not passed on, and no error is returned. *)
Example last_bytes_dropped :
  (λ w, (f_read (toClient (shared w)), f_wrote (toClient (shared w)), f_ended (toClient (shared w)) ≫= copyErr)) <$>
    run Bridge [Run 1 (AReadFails (go!"bye") EOF)] = Some (go!"bye", [], None).
Proof. by vm_compute. Qed.

Definition ex_ws_net : ws_net := mkNet true true true true true (Some (101, go!"101 Switching Protocols", [], [])) true.

(** A back end with TLS and no configuration of it: a panic, and both connections stay. *)
Example tls_without_config_panics :
  WebSocket (λ _, None) (λ _, Some tt) (λ _ _, None) true ex_ws_net 0 (go!"https://back") second (ex_upgrade (go!"/")) None None None
  = (None, None, mkConns true true [] []).
Proof. by vm_compute. Qed.

(** The certificate of the back end is checked against its name and port. *)
Example name_with_port :
  dialed_name (λ _, None) (λ _, Some tt) (λ _ _, None) (go!"https://back")
    (Some (mkProxySSLConfig [] [] [] [] [] [] true false)) = Some (go!"back:443").
Proof. by vm_compute. Qed.
