(* ===== verification/Listeners.v ===== *)
(** * Listeners: sockets, descriptors, and the listeners a server starts with

    The part of the operating system that [src/internal/server/server.go] and
    [upgrade.go] depend on: sockets, the descriptors that hold them open, and the files
    that are the names of unix sockets; then [createListener] with its search among the
    listeners that a process has or inherits, and what a child of an upgrade inherits.
    How an address is resolved and which names the kernel refuses to bind together are
    parameters (class [Network]).

    Shown: a name that is taken is not bound again ([listen_refused]); a server that
    finds a listener for its address opens nothing ([createListener_reuses]); the child
    of an upgrade holds exactly the sockets of its parent ([inherited_all]). *)

From S2P Require Import Prelude GoStrings Config NetIP Sockets.

(** ** The operating system

    [held] are the sockets that other processes have open. A descriptor is a position
    of [fds]; the code depends on numbers only in a new process, whose first three are
    its standard streams. *)

Record Socket := mkSocket { sk_network : gostring; sk_name : gostring }.
(** The socket a file names, [None] for a file of another kind, and its permissions. *)
Record Inode := mkInode { in_socket : option nat; in_mode : Z }.
Record OS := mkOS { sockets : list Socket; held : list nat; fds : list (option nat); files : gmap gostring Inode }.

Class Network := {
  (** The name of the listener of [net.Listen("tcp", addr)], [Addr().String()]. *)
  net_bind : gostring → option gostring;
  (** The kernel refuses to bind the second name while the first is open. *)
  net_clash : gostring → gostring → bool;
  net_clash_refl a : net_clash a a = true;
  (** A socket can be made at a path where there is no file; not at the abstract names
      of Linux, which have no file. *)
  net_unix : gostring → bool
}.

(** [net.Listener]: the name and network are those of the socket when the listener was
    made; only [net.Listen] makes a listener that removes its file. *)
Record Listener := mkListener { ln_fd : nat; ln_network : gostring; ln_name : gostring; ln_unlink : bool }.

Definition networkTCP := go!"tcp".
Definition networkUnix := go!"unix".
Definition unix_prefix := go!"unix:".

Definition is_open (os : OS) (k : nat) : bool :=
  bool_decide (k ∈ held os) || bool_decide (Some k ∈ fds os).
(** The descriptor of a listener holds socket [k]. *)
Definition holds (os : OS) (ln : Listener) (k : nat) : Prop := fds os !! ln_fd ln = Some (Some k).

Definition open_fd (os : OS) (k : nat) : OS * nat :=
  (mkOS (sockets os) (held os) (fds os ++ [Some k]) (files os), length (fds os)).
Definition new_socket (os : OS) (s : Socket) : OS * nat :=
  (mkOS (sockets os ++ [s]) (held os) (fds os) (files os), length (sockets os)).
Definition set_files (os : OS) (f : gmap gostring Inode) : OS := mkOS (sockets os) (held os) (fds os) f.

(** An open TCP socket has a name that clashes. *)
Definition name_taken `{Network} (os : OS) (name : gostring) : bool :=
  existsb (λ '(k, s), is_open os k && bool_decide (sk_network s = networkTCP) && net_clash (sk_name s) name)
    (imap pair (sockets os)).

Definition Listen_tcp `{Network} (os : OS) (addr : gostring) : option (OS * Listener) :=
  name ← net_bind addr;
  if name_taken os name then None
  else
    let '(os, k) := new_socket os (mkSocket networkTCP name) in
    let '(os, fd) := open_fd os k in
    Some (os, mkListener fd networkTCP name true).

Definition Listen_unix `{Network} (os : OS) (path : gostring) : option (OS * Listener) :=
  match files os !! path with
  | Some _ => None
  | None =>
      if net_unix path then
        let '(os, k) := new_socket os (mkSocket networkUnix path) in
        let '(os, fd) := open_fd os k in
        Some (set_files os (<[path := mkInode (Some k) 493]> (files os)), mkListener fd networkUnix path true)
      else None
  end.

(** [Close]: the file is removed with the first closing, whichever socket it names then. *)
Definition Close_listener (os : OS) (ln : Listener) : OS :=
  match fds os !! ln_fd ln with
  | Some (Some _) =>
      mkOS (sockets os) (held os) (<[ln_fd ln := None]> (fds os))
        (if ln_unlink ln && bool_decide (ln_network ln = networkUnix) then delete (ln_name ln) (files os) else files os)
  | _ => os
  end.

(** [net.FileListener] on a descriptor: a new descriptor of the same socket. *)
Definition FileListener (os : OS) (fd : nat) : option (OS * Listener) :=
  match fds os !! fd with
  | Some (Some k) =>
      s ← sockets os !! k;
      let '(os, fd) := open_fd os k in
      Some (os, mkListener fd (sk_network s) (sk_name s) false)
  | _ => None
  end.

(** [DupListener]: the copy that [File] makes is closed again. *)
Definition DupListener (os : OS) (ln : Listener) : option (OS * Listener) := FileListener os (ln_fd ln).

(** ** [UpgradeManager] *)

Record UpgradeManager := mkUpgradeManager {
  GRACEFUL_UPGRADE : gostring; LISTEN_FDS : gostring; um_listeners : list (option Listener) }.

Definition IsChild (u : UpgradeManager) : bool := bool_decide (GRACEFUL_UPGRADE u = go!"1").

(** [fmt.Sscanf(s, "%d", &n)] *)
Fixpoint leading_digits (s : gostring) : gostring :=
  match s with c :: s' => if is_digit c then c :: leading_digits s' else [] | [] => [] end.
Fixpoint skip_blanks (s : gostring) : gostring :=
  match s with c :: s' => if Ascii.eqb c " " || (byteZ c =? 9) then skip_blanks s' else s | [] => [] end.
Definition Sscanf_d (s : gostring) : option Z :=
  match skip_blanks s with
  | c :: s' =>
      if Ascii.eqb c "-" || Ascii.eqb c "+" then Atoi (c :: leading_digits s')
      else Atoi (leading_digits (c :: s'))
  | [] => None
  end.

(** Descriptors [i], [i+1], ...; one that cannot be listened on is closed. *)
Fixpoint inherit_loop (n : nat) (i : nat) (os : OS) : OS * list Listener :=
  match n with
  | O => (os, [])
  | S n =>
      match FileListener os i with
      | Some (os, ln) => let '(os, lns) := inherit_loop n (S i) os in (os, ln :: lns)
      | None => inherit_loop n (S i) (mkOS (sockets os) (held os) (alter (const None) i (fds os)) (files os))
      end
  end.

Definition GetInheritedListeners (u : UpgradeManager) (os : OS) : OS * option (list Listener) :=
  if decide (LISTEN_FDS u = []) then (os, Some [])
  else match Sscanf_d (LISTEN_FDS u) with
       | None => (os, None)
       | Some fdCount => let '(os, lns) := inherit_loop (Z.to_nat fdCount) 3 os in (os, Some lns)
       end.

(** [listenerFile] and [exec.Command] of [GracefulUpgrade]: the sockets that become the
    descriptors 3, 4, ... of the child, with its environment; [None] for an error. *)
Definition listenerFile (os : OS) (ln : option Listener) : option nat :=
  ln ← ln; match fds os !! ln_fd ln with Some (Some k) => Some k | _ => None end.
Definition GracefulUpgrade (os : OS) (listeners : list (option Listener)) : option (list nat * UpgradeManager) :=
  match listeners with
  | [] => None
  | _ => ks ← mapM (listenerFile os) listeners;
         Some (ks, mkUpgradeManager (go!"1") (FormatInt (zlen listeners)) [])
  end.

(** The new process: what is open in the parent is held elsewhere. *)
Definition child_os (os : OS) (ks : list nat) : OS :=
  mkOS (sockets os) (held os ++ omap id (fds os)) (replicate 3 None ++ map Some ks) (files os).

(** ** [createListener] *)

Definition isAnyAddr (host : gostring) : bool :=
  bool_decide (host = []) || match ParseIP host with Some ip => IsUnspecified ip | None => false end.

Definition tcpAddrMatch (inherited target : gostring) : bool :=
  bool_decide (inherited = target)
  || match SplitHostPort inherited, SplitHostPort target with
     | Some (host1, port1), Some (host2, port2) =>
         bool_decide (port1 = port2) && (bool_decide (host1 = host2) || isAnyAddr host1 || isAnyAddr host2)
     | _, _ => false
     end.

(** The test that [matchInheritedListener] applies to a listener. *)
Definition listener_matches (listenAddr : gostring) (ln : Listener) : bool :=
  if HasPrefix listenAddr unix_prefix then
    bool_decide (ln_network ln = networkUnix) && bool_decide (ln_name ln = drop 5 listenAddr)
  else bool_decide (ln_network ln = networkTCP) && tcpAddrMatch (ln_name ln) listenAddr.

Fixpoint matchInheritedListener (inherited : list (option Listener)) (listenAddr : gostring) : option Listener :=
  match inherited with
  | [] => None
  | Some ln :: rest => if listener_matches listenAddr ln then Some ln else matchInheritedListener rest listenAddr
  | None :: rest => matchInheritedListener rest listenAddr
  end.

(** [os.Stat] and [os.Remove]. *)
Definition remove_file (os : OS) (path : gostring) : OS := set_files os (delete path (files os)).
Definition set_mode (os : OS) (path : gostring) (mode : Z) : OS :=
  set_files os (alter (λ i, mkInode (in_socket i) mode) path (files os)).

Section create.
Context `{Network}.

Definition create_new (os : OS) (cfg : ServerConfig) : OS * option Listener :=
  let listenAddr := srv_Listen cfg in
  if HasPrefix listenAddr unix_prefix then
    let path := drop 5 listenAddr in
    let os := remove_file os path in
    match Listen_unix os path with
    | None => (os, None)
    | Some (os, ln) =>
        let mode := us_Mode (srv_UnixSocket cfg) in
        (set_mode os path (if 0 <? mode then mode else 438), Some ln)
    end
  else match Listen_tcp os listenAddr with None => (os, None) | Some (os, ln) => (os, Some ln) end.

(** [listeners] are those of the server. *)
Definition createListener (um : option UpgradeManager) (listeners : list (option Listener)) (os : OS)
    (cfg : ServerConfig) : OS * option Listener :=
  let '(os, found) :=
    match um with
    | Some u =>
        if IsChild u then
          let '(os, inherited) := GetInheritedListeners u os in
          (os, matchInheritedListener (map Some (default [] inherited)) (srv_Listen cfg))
        else (os, None)
    | None => (os, None)
    end in
  match found with
  | Some ln => (os, Some ln)
  | None =>
      match matchInheritedListener listeners (srv_Listen cfg) with
      | Some ln => (os, Some ln)
      | None => create_new os cfg
      end
  end.

(** ** Properties *)

Lemma matched_in listeners addr ln :
  matchInheritedListener listeners addr = Some ln → Some ln ∈ listeners ∧ listener_matches addr ln = true.
Proof.
  induction listeners as [|[l|] ls IH]; simpl; [done| |]; [case_match|];
    rewrite ?elem_of_cons; intros; simplify_eq; naive_solver.
Qed.

Lemma matched_first listeners addr ln :
  listener_matches addr ln = true → matchInheritedListener (Some ln :: listeners) addr = Some ln.
Proof. simpl. by intros ->. Qed.

Lemma matched_nones n addr : matchInheritedListener (replicate n None) addr = None.
Proof. by induction n. Qed.

Lemma name_taken_open os k s name :
  sockets os !! k = Some s → is_open os k = true → sk_network s = networkTCP → net_clash (sk_name s) name = true →
  name_taken os name = true.
Proof.
  intros Hs Ho Hn Hc. apply existsb_exists. exists (k, s). split.
  - apply list_elem_of_In, list_elem_of_lookup. exists k. by rewrite list_lookup_imap, Hs.
  - by rewrite Ho, bool_decide_eq_true_2, Hc.
Qed.

(** While any process has a socket of a name open, no address of that name is bound. *)
Theorem listen_refused os k addr name :
  sockets os !! k = Some (mkSocket networkTCP name) → is_open os k = true → net_bind addr = Some name →
  Listen_tcp os addr = None.
Proof.
  intros Hs Ho Hb. unfold Listen_tcp. rewrite Hb. simpl.
  by rewrite (name_taken_open os k _ name Hs Ho eq_refl (net_clash_refl name)).
Qed.

(** A server that has a listener for its address uses the first, and the system does not
    change. *)
Theorem createListener_reuses os cfg listeners ln :
  listener_matches (srv_Listen cfg) ln = true →
  createListener None (Some ln :: listeners) os cfg = (os, Some ln).
Proof. intros Hm. unfold createListener. by rewrite matched_first. Qed.

End create.

(** *** What a child inherits *)

(** The descriptors that a system has stay as they are in another, which may have more. *)
Definition extends (os os' : OS) : Prop :=
  sockets os' = sockets os ∧ held os' = held os ∧ files os' = files os ∧ fds os `prefix_of` fds os'.

#[export] Instance extends_trans : Transitive extends.
Proof. intros a b c (?&?&?&?) (?&?&?&?). split_and!; etransitivity; eauto. Qed.
#[export] Instance extends_refl : Reflexive extends.
Proof. by intros a. Qed.

Lemma extends_holds os os' ln k : extends os os' → holds os ln k → holds os' ln k.
Proof. intros (_&_&_&Hp) Hh. by eapply prefix_lookup_Some. Qed.

(** The listener has an open descriptor of the socket, and its name. *)
Definition on_socket (os : OS) (ln : Listener) (k : nat) : Prop :=
  holds os ln k ∧ sockets os !! k = Some (mkSocket (ln_network ln) (ln_name ln)).

Lemma extends_on os os' ln k : extends os os' → on_socket os ln k → on_socket os' ln k.
Proof. intros He [? ?]. split; [by eapply extends_holds|]. by destruct He as [-> _]. Qed.

Lemma FileListener_on os fd k :
  fds os !! fd = Some (Some k) → is_Some (sockets os !! k) →
  ∃ os' ln, FileListener os fd = Some (os', ln) ∧ extends os os' ∧ on_socket os' ln k ∧
    ln_fd ln = length (fds os) ∧ ln_unlink ln = false ∧ fds os' = fds os ++ [Some k].
Proof.
  intros Hf [s Hs]. unfold FileListener. rewrite Hf, Hs. cbn.
  do 2 eexists. split_and!; [done| | |done..].
  - split_and!; try done. by eexists.
  - split; [|cbn; rewrite Hs; by destruct s]. unfold holds. cbn. by rewrite list_lookup_middle.
Qed.

Lemma inherit_loop_on ks : ∀ pre post os,
  fds os = pre ++ map Some ks ++ post → Forall (λ k, is_Some (sockets os !! k)) ks →
  ∃ os' lns, inherit_loop (length ks) (length pre) os = (os', lns) ∧ extends os os' ∧
    Forall2 (on_socket os') lns ks.
Proof.
  induction ks as [|k ks IH]; intros pre post os Hf Hv; cbn [inherit_loop length].
  { exists os, []. by split_and!. }
  apply Forall_cons in Hv as [Hk Hv].
  destruct (FileListener_on os (length pre) k) as (os1&ln&->&He&Hon&_&_&Hf1).
  { rewrite Hf. by apply list_lookup_middle. } { done. }
  destruct (IH (pre ++ [Some k]) (post ++ [Some k]) os1) as (os2&lns&Hl&He2&Hall).
  { rewrite Hf1, Hf. by rewrite <-!(assoc_L (++)). }
  { by destruct He as [-> _]. }
  rewrite length_app, Nat.add_comm in Hl. cbn in Hl. rewrite Hl.
  do 2 eexists. split_and!; [done|by etrans|]. constructor; [by eapply extends_on|done].
Qed.

Lemma leading_digits_all s : forallb is_digit s = true → leading_digits s = s.
Proof. induction s as [|c s IH]; cbn; [done|]. intros [-> ?]%andb_true_iff. by rewrite IH. Qed.

Lemma Sscanf_FormatInt n : 0 ≤ n ≤ int64_max → Sscanf_d (FormatInt n) = Some n.
Proof.
  intros Hn. destruct (FormatInt_digits n Hn) as [Hd Hne].
  assert (Atoi (FormatInt n) = Some n) as Ha.
  { apply Atoi_FormatInt. unfold in_int64, int64_min. lia. }
  unfold Sscanf_d. destruct (FormatInt n) as [|c s]; [done|].
  rewrite <-(leading_digits_all _ Hd) in Ha. cbn in Hd. apply andb_true_iff in Hd as [Hc Hs].
  destruct c as [[] [] [] [] [] [] [] []]; try done; exact Ha.
Qed.

(** Every descriptor is of a socket. *)
Definition os_ok (os : OS) : Prop :=
  Forall (λ o, match o with Some k => is_Some (sockets os !! k) | None => True end) (fds os).

Lemma inherits u os ks post :
  LISTEN_FDS u = FormatInt (zlen ks) → ks ≠ [] → zlen ks ≤ int64_max →
  fds os = replicate 3 None ++ map Some ks ++ post → Forall (λ k, is_Some (sockets os !! k)) ks →
  ∃ os' lns, GetInheritedListeners u os = (os', Some lns) ∧ extends os os' ∧ Forall2 (on_socket os') lns ks.
Proof.
  intros Hu Hne Hlen Hf Hv. unfold GetInheritedListeners. rewrite Hu.
  destruct (FormatInt_digits (zlen ks)) as [_ Hd]; [lia|]. rewrite decide_False by done.
  rewrite Sscanf_FormatInt by lia. rewrite Nat2Z.id.
  destruct (inherit_loop_on ks (replicate 3 None) post os Hf Hv) as (os'&lns&Hl&He&Hall).
  cbn [length replicate] in Hl. rewrite Hl. by do 2 eexists.
Qed.

Lemma upgrade_started os listeners ks u :
  GracefulUpgrade os listeners = Some (ks, u) →
  Forall2 (λ o k, ∃ ln, o = Some ln ∧ holds os ln k) listeners ks ∧ ks ≠ [] ∧
  IsChild u = true ∧ LISTEN_FDS u = FormatInt (zlen ks).
Proof.
  intros Hu. unfold GracefulUpgrade in Hu. destruct listeners as [|l ls]; [done|].
  destruct (mapM _ _) as [ks'|] eqn:Hm; [|done]. injection Hu as -> <-. apply mapM_Some_1 in Hm.
  pose proof (Forall2_length _ _ _ Hm) as Hk.
  split_and!; [|by destruct ks|done|by rewrite <-Hk].
  eapply Forall2_impl; [exact Hm|]. intros o k Ho. unfold listenerFile in Ho.
  destruct o as [ln|]; [|done]. cbn in Ho. repeat case_match; simplify_eq. by eexists.
Qed.

(** The child of an upgrade holds the sockets of its parent, one listener for each of
    the parent's, in their order and under their names; nothing is bound anew. *)
Theorem inherited_all os listeners ks u :
  os_ok os → zlen listeners ≤ int64_max → GracefulUpgrade os listeners = Some (ks, u) →
  ∃ os' lns, GetInheritedListeners u (child_os os ks) = (os', Some lns) ∧
    sockets os' = sockets os ∧ Forall2 (on_socket os') lns ks ∧
    Forall2 (λ o k, ∃ ln, o = Some ln ∧ holds os ln k) listeners ks.
Proof.
  intros Hok Hlen Hu. destruct (upgrade_started _ _ _ _ Hu) as (Hall&Hne&_&Hn).
  destruct (inherits u (child_os os ks) ks []) as (os'&lns&Hg&He&Hon); [done|done| |cbn; by rewrite app_nil_r| |].
  { by rewrite <-(Forall2_length _ _ _ Hall). }
  { apply Forall_forall. intros k (i&Hi)%list_elem_of_lookup.
    destruct (Forall2_lookup_r _ _ _ _ _ Hall Hi) as (o&_&ln&_&Hh).
    unfold os_ok in Hok. rewrite Forall_forall in Hok. by apply (Hok _ (list_elem_of_lookup_2 _ _ _ Hh)). }
  exists os', lns. by destruct He as [Hs _].
Qed.
