(* ===== verification/App.v ===== *)
(** * App: starting, reloading, upgrading and stopping the server

    [Start] of [src/internal/server/server.go] as far as listeners go, [lifecycle.go],
    and the life of the process in [src/internal/app]: [Run], the signals, [reloadConfig],
    [requiresFullRestart], [gracefulUpgrade]. Whether error pages, the Lua engine, routes,
    middlewares and certificates can be made is read off a [Setup]: other files model how.
    A signal is one step; the old server of a reload is stopped by a goroutine, a step of
    its own that comes at any time later.

    Shown: a process with one address, bound under a name that matches it, accepts on the
    socket it was started with after any reloads, successful or not, whose set-up is told
    before the timer of the reload, and so do the children of its upgrades for the same
    address whose set-up succeeds ([reload_keeps_serving]); with an address per server no reload succeeds
    ([multi_never_reloads]); HTTP/2 and HTTP/3 are never served ([http2_never_served]);
    what fails to hold when the address is a name, and for unix sockets. *)

From S2P Require Import Prelude GoStrings Config NetIP Sockets Listeners.

(** What the parts of a server that are made when it starts come to. *)
Record Setup := mkSetup {
  prepared : bool;   (** error pages and the Lua engine *)
  routed : bool;     (** routes and the middleware chains *)
  tls_made : bool;   (** the TLS managers that are needed *)
  slow : bool        (** the reload's timer fires before [Start] has returned its error *) }.

Record Server := mkServer {
  s_config : Config; s_listeners : list (option Listener); s_serving : list Listener;
  s_upgradeManager : option UpgradeManager; s_tlsManager : bool; s_running : bool }.

Definition New_server (cfg : Config) : Server := mkServer cfg [] [] None false false.
Definition SetListeners (ls : list (option Listener)) (s : Server) : Server :=
  mkServer (s_config s) ls (s_serving s) (s_upgradeManager s) (s_tlsManager s) (s_running s).
Definition SetUpgradeManager (u : UpgradeManager) (s : Server) : Server :=
  mkServer (s_config s) (s_listeners s) (s_serving s) (Some u) (s_tlsManager s) (s_running s).
Definition set_running (b : bool) (s : Server) : Server :=
  mkServer (s_config s) (s_listeners s) (s_serving s) (s_upgradeManager s) (s_tlsManager s) b.
Definition set_serving (ls : list Listener) (s : Server) : Server :=
  mkServer (s_config s) (s_listeners s) ls (s_upgradeManager s) (s_tlsManager s) (s_running s).
Definition GetTLSConfig (s : Server) : bool := s_tlsManager s.

Definition wants_tls (cfg : ServerConfig) : bool :=
  negb (bool_decide (ssl_Cert (srv_SSL cfg) = [])) && negb (bool_decide (ssl_Key (srv_SSL cfg) = [])).

Definition close_all (os : OS) (ls : list (option Listener)) : OS := foldl Close_listener os (omap id ls).

Section app.
Context `{Network}.

(** ** [Start]; the flag is false when it returns an error, else the server serves. *)

Definition startServer (os : OS) (s : Server) (cfg : ServerConfig) (su : Setup) : OS * Server * bool :=
  let '(os, ln) := createListener (s_upgradeManager s) (s_listeners s) os cfg in
  match ln with
  | None => (os, s, false)
  | Some ln =>
      let s := SetListeners (s_listeners s ++ [Some ln]) s in
      if wants_tls cfg && negb (tls_made su) then (os, s, false) else (os, set_serving [ln] s, true)
  end.

(** [startSingleMode] and [startVHostMode] differ in their routes. *)
Definition start_one (os : OS) (s : Server) (su : Setup) : OS * Server * bool :=
  match cfg_Servers (s_config s) with
  | [] => (os, s, false)
  | cfg :: _ => if routed su then startServer os (set_running true s) cfg su else (os, s, false)
  end.

(** The loop of [startMultiServerMode] with the listeners made so far; [None] after an
    error, when those are closed. *)
Fixpoint listen_loop (um : option UpgradeManager) (os : OS) (made : list (option Listener)) (cfgs : list ServerConfig) :
    OS * option (list (option Listener)) :=
  match cfgs with
  | [] => (os, Some made)
  | cfg :: rest =>
      let '(os, ln) := createListener um (made ++ replicate (length cfgs) None) os cfg in
      match ln with
      | None => (close_all os made, None)
      | Some ln => listen_loop um os (made ++ [Some ln]) rest
      end
  end.

Definition startMultiServerMode (os : OS) (s : Server) (su : Setup) : OS * Server * bool :=
  let cfgs := cfg_Servers (s_config s) in
  let '(os, made) := listen_loop (s_upgradeManager s) os [] cfgs in
  match made with
  | None => (os, s, false)
  | Some ls =>
      let s := SetListeners ls s in
      if routed su && (tls_made su || negb (existsb wants_tls cfgs)) then
        (os, set_running true (set_serving (omap id ls) s), true)
      else (close_all os ls, s, false)
  end.

Definition Start (os : OS) (s : Server) (su : Setup) : OS * Server * bool :=
  if decide (cfg_Servers (s_config s) = []) then (os, s, false)
  else if prepared su then
    if decide (GetMode (s_config s) = ServerModeMultiServer) then startMultiServerMode os s su
    else start_one os s su
  else (os, s, false).

(** [StopWithTimeout] and [GracefulStop] do the same to the listeners: each [Shutdown]
    closes what its server accepts on before it waits. *)
Definition stop_server (os : OS) (s : Server) : OS * Server :=
  (close_all os (map Some (s_serving s)), set_running false (set_serving [] s)).

(** [shutdownServers]: the results in the order in which they come, [None] for a server
    that is not done when the time is over. *)
Inductive stop_result := Stopped | StopErrors (errs : list gostring) | DeadlineExceeded.
Definition shutdownServers (rs : list (option (option gostring))) : stop_result :=
  match mapM id rs with
  | None => DeadlineExceeded
  | Some done => match omap id done with [] => Stopped | errs => StopErrors errs end
  end.
(** The only server of the other modes: its error is dropped. *)
Definition shutdown_one (r : option (option gostring)) : stop_result :=
  match r with None => DeadlineExceeded | Some _ => Stopped end.

(** ** [App] *)

Inductive signal := SIGQUIT | SIGTERM | SIGINT | SIGHUP | SIGUSR1 | SIGUSR2.

Record App := mkApp {
  a_os : OS; a_cfg : Config; a_srv : Server; a_old : list Server; a_http2 : bool; a_http3 : bool;
  a_env : UpgradeManager; a_children : list (list nat * UpgradeManager); a_sigints : nat; a_exit : option Z }.

Definition with_os (a : App) (os : OS) : App :=
  mkApp os (a_cfg a) (a_srv a) (a_old a) (a_http2 a) (a_http3 a) (a_env a) (a_children a) (a_sigints a) (a_exit a).
Definition with_exit (a : App) (code : Z) : App :=
  mkApp (a_os a) (a_cfg a) (a_srv a) (a_old a) (a_http2 a) (a_http3 a) (a_env a) (a_children a) (a_sigints a) (Some code).
Definition with_sigint (a : App) : App :=
  mkApp (a_os a) (a_cfg a) (a_srv a) (a_old a) (a_http2 a) (a_http3 a) (a_env a) (a_children a) (S (a_sigints a)) (a_exit a).
Definition stop_current (a : App) : App :=
  let '(os, s) := stop_server (a_os a) (a_srv a) in
  mkApp os (a_cfg a) s (a_old a) (a_http2 a) (a_http3 a) (a_env a) (a_children a) (a_sigints a) (a_exit a).

(** [initHTTP2] and [initHTTP3]; [made] is whether their server could be made. *)
Definition initHTTP2 (cfg : Config) (srv : Server) (made : bool) : bool :=
  match cfg_Servers cfg with
  | [] => false
  | s :: _ =>
      if h2_Enabled (ssl_HTTP2 (srv_SSL s)) && negb (bool_decide (ssl_Cert (srv_SSL s) = [])) then
        GetTLSConfig srv && made
      else false
  end.
Definition initHTTP3 (cfg : Config) (srv : Server) (made : bool) : bool :=
  match cfg_Servers cfg with
  | [] => false
  | s :: _ =>
      if h3_Enabled (cfg_HTTP3 cfg) && negb (bool_decide (ssl_Cert (srv_SSL s) = [])) then GetTLSConfig srv && made
      else false
  end.

Definition inheritListeners (env : UpgradeManager) (os : OS) : OS * list (option Listener) :=
  if decide (GRACEFUL_UPGRADE env = go!"1") then
    let '(os, lns) := GetInheritedListeners env os in (os, map Some (default [] lns))
  else (os, []).

(** [Run] up to the loop over signals: HTTP/2 and HTTP/3 come before [Start]. *)
Definition boot (os : OS) (env : UpgradeManager) (cfg : Config) (su : Setup) : App :=
  let '(os, inherited) := inheritListeners env os in
  let s := New_server cfg in
  let s := if decide (inherited = []) then s else SetListeners inherited s in
  let http3 := initHTTP3 cfg s true in
  let http2 := initHTTP2 cfg s true in
  let '(os, s, ok) := Start os (SetUpgradeManager env s) su in
  mkApp os cfg s [] http2 http3 env [] 0 (if ok then None else Some 1).

Fixpoint heads_differ (old new : list ServerConfig) : bool :=
  match old, new with
  | o :: old, n :: new => negb (bool_decide (srv_Listen o = srv_Listen n)) || heads_differ old new
  | _, _ => false
  end.

Definition requiresFullRestart (cfg newCfg : Config) : bool :=
  if decide (GetMode cfg = GetMode newCfg) then
    let mode := GetMode cfg in
    let old := cfg_Servers cfg in let new := cfg_Servers newCfg in
    if decide (mode = ServerModeSingle) then heads_differ (take 1 old) (take 1 new)
    else if decide (mode = ServerModeVHost) then
      negb (length old =? length new)%nat || heads_differ (take 1 old) (take 1 new)
    else if decide (mode = ServerModeMultiServer) then
      negb (length old =? length new)%nat || heads_differ old new
    else bool_decide (mode = ServerModeAuto)
  else true.

(** The loop of [reloadConfig] over [DupListener]; what was made is closed after an error. *)
Fixpoint dup_loop (os : OS) (made : list (option Listener)) (ls : list (option Listener)) :
    OS * option (list (option Listener)) :=
  match ls with
  | [] => (os, Some made)
  | l :: rest =>
      match ln ← l; DupListener os ln with
      | None => (close_all os made, None)
      | Some (os, ln) => dup_loop os (made ++ [Some ln]) rest
      end
  end.

(** What comes from outside when a signal is handled: the configuration that [Load]
    returns, the setup of the server, whether processes and servers can be made. *)
Record Outcome := mkOutcome {
  o_config : option Config; o_setup : Setup; o_exec : bool; o_http2 : bool; o_http3 : bool }.

Definition reloadConfig (a : App) (o : Outcome) : App :=
  match o_config o with
  | None => a
  | Some newCfg =>
      if requiresFullRestart (a_cfg a) newCfg then a
      else if decide (s_listeners (a_srv a) = []) then a
      else
        let '(os, duped) := dup_loop (a_os a) [] (s_listeners (a_srv a)) in
        match duped with
        | None => with_os a os
        | Some duped =>
            let '(os, newSrv, ok) := Start os (SetListeners duped (New_server newCfg)) (o_setup o) in
            if ok || slow (o_setup o) then
              mkApp os newCfg newSrv (a_old a ++ [a_srv a])
                (initHTTP2 newCfg newSrv (o_http2 o)) (initHTTP3 newCfg newSrv (o_http3 o))
                (mkUpgradeManager (GRACEFUL_UPGRADE (a_env a)) (LISTEN_FDS (a_env a)) (s_listeners newSrv))
                (a_children a) (a_sigints a) (a_exit a)
            else with_os a (close_all os duped)
        end
  end.

Definition gracefulUpgrade (a : App) (o : Outcome) : App :=
  if decide (s_listeners (a_srv a) = []) then a
  else
    match GracefulUpgrade (a_os a) (s_listeners (a_srv a)) with
    | Some child =>
        if o_exec o then
          stop_current (mkApp (a_os a) (a_cfg a) (a_srv a) (a_old a) (a_http2 a) (a_http3 a) (a_env a)
            (a_children a ++ [child]) (a_sigints a) (a_exit a))
        else a
    | None => a
    end.

(** [handleSignal]: whether to go on. *)
Definition handleSignal (a : App) (sig : signal) (o : Outcome) : App * bool :=
  match sig with
  | SIGQUIT | SIGTERM | SIGINT => (stop_current a, false)
  | SIGHUP => (reloadConfig a o, true)
  | SIGUSR1 => (a, true)
  | SIGUSR2 => (gracefulUpgrade a o, true)
  end.

(** The loop of [Run], and the end of a server that a reload has replaced. *)
Inductive event := Signal (sig : signal) (o : Outcome) | StopOld (i : nat).

Definition on_signal (a : App) (sig : signal) (o : Outcome) : App :=
  let a := match sig with SIGINT => with_sigint a | _ => a end in
  if match sig with SIGINT => (3 <=? a_sigints a)%nat | _ => false end then with_exit a 1
  else let '(a, go_on) := handleSignal a sig o in if go_on then a else with_exit a 0.

Definition app_step (a : App) (e : event) : App :=
  match a_exit a with
  | Some _ => a
  | None =>
      match e with
      | Signal sig o => on_signal a sig o
      | StopOld i =>
          match a_old a !! i with
          | Some s =>
              let '(os, _) := stop_server (a_os a) s in
              mkApp os (a_cfg a) (a_srv a) (delete i (a_old a)) (a_http2 a) (a_http3 a) (a_env a)
                (a_children a) (a_sigints a) (a_exit a)
          | None => a
          end
      end
  end.

Definition app_run : App → list event → App := foldl app_step.


(** ** Properties *)

(** The listener has socket [k] open and is one for the address. *)
Definition good (os : OS) (k : nat) (addr : gostring) (ln : Listener) : Prop :=
  on_socket os ln k ∧ listener_matches addr ln = true.

Lemma good_bound os k addr ln : good os k addr ln → (ln_fd ln < length (fds os))%nat.
Proof. intros [[Hh _] _]. by eapply lookup_lt_Some. Qed.

Lemma extends_good os os' k addr ln : extends os os' → good os k addr ln → good os' k addr ln.
Proof. intros He [Ho Hm]. split; [by eapply extends_on|done]. Qed.

Lemma good_dup os os' k addr ln d : extends os os' → good os k addr ln → on_socket os' d k → good os' k addr d.
Proof.
  intros He [[_ Hs] Hm] [Hd Hs']. split; [done|]. destruct He as [Hss _]. rewrite Hss, Hs in Hs'.
  injection Hs' as Hn Hname. unfold listener_matches in *. by rewrite <-Hn, <-Hname.
Qed.

(** Closing changes no descriptor but those that are closed. *)
Definition closes (os os' : OS) (cs : list nat) : Prop :=
  sockets os' = sockets os ∧ length (fds os') = length (fds os) ∧ ∀ i, i ∉ cs → fds os' !! i = fds os !! i.

Lemma Close_closes os ln : closes os (Close_listener os ln) [ln_fd ln].
Proof.
  unfold Close_listener. destruct (fds os !! ln_fd ln) as [[k|]|] eqn:E; try by split_and!.
  split_and!; cbn; [done|by rewrite length_insert|].
  intros i Hi. rewrite list_lookup_insert_ne; [done|]. set_solver.
Qed.

Lemma close_all_closes ls : ∀ os, closes os (close_all os (map Some ls)) (map ln_fd ls).
Proof.
  unfold close_all. induction ls as [|ln ls IH]; intros os; [by split_and!|]. cbn.
  destruct (Close_closes os ln) as (Hs&Hl&Hf). destruct (IH (Close_listener os ln)) as (Hs'&Hl'&Hf').
  split_and!; [congruence|congruence|]. intros i Hi. rewrite Hf', Hf; set_solver.
Qed.

Lemma closes_good os os' cs k addr ln : closes os os' cs → ln_fd ln ∉ cs → good os k addr ln → good os' k addr ln.
Proof. intros (Hs&_&Hf) Hn [[Hh Hk] Hm]. split; [|done]. split; [unfold holds; by rewrite Hf|by rewrite Hs]. Qed.

(** The copies that a reload makes are new descriptors of the same socket. *)
Lemma dup_loop_good k addr ls : ∀ os made,
  Forall (λ o, ∃ ln, o = Some ln ∧ good os k addr ln) ls →
  ∃ os' ds, dup_loop os made ls = (os', Some (made ++ map Some ds)) ∧ extends os os' ∧ length ds = length ls ∧
    Forall (λ d, good os' k addr d ∧ (length (fds os) ≤ ln_fd d)%nat) ds.
Proof.
  induction ls as [|o ls IH]; intros os made Hall; cbn [dup_loop].
  { exists os, []. by rewrite app_nil_r. }
  apply Forall_cons in Hall as [(ln&->&Hg) Hall]. cbn [mbind option_bind].
  destruct (FileListener_on os (ln_fd ln) k) as (os1&d&Hd&He&Hon&Hfd&_&Hfds).
  { apply Hg. } { destruct Hg as [[_ ->] _]. done. }
  unfold DupListener. rewrite Hd.
  destruct (IH os1 (made ++ [Some d])) as (os2&ds&->&He2&Hlen&Hds).
  { eapply Forall_impl; [exact Hall|]. intros o (l&->&Hl). exists l. split; [done|]. by eapply extends_good. }
  exists os2, (d :: ds). split_and!; [by rewrite <-(assoc_L (++))|by etrans|cbn; by rewrite Hlen|].
  constructor.
  - split; [|by rewrite Hfd]. apply (extends_good os1); [done|]. by eapply good_dup.
  - eapply Forall_impl; [exact Hds|]. intros l [? Hle]. split; [done|].
    rewrite Hfds, length_app in Hle. cbn in Hle. lia.
Qed.

(** A server that was given listeners for its address takes the first and leaves the
    system as it is. *)
Lemma start_given os s su cfg rest d ds :
  cfg_Servers (s_config s) = cfg :: rest → GetMode (s_config s) ≠ ServerModeMultiServer → s_upgradeManager s = None →
  s_listeners s = Some d :: ds → listener_matches (srv_Listen cfg) d = true →
  ∃ s' ok, Start os s su = (os, s', ok) ∧ s_config s' = s_config s ∧ s_tlsManager s' = s_tlsManager s ∧
    (ok = true → s_serving s' = [d] ∧ s_listeners s' = s_listeners s ++ [Some d]) ∧
    (prepared su && routed su && (tls_made su || negb (wants_tls cfg)) = ok).
Proof.
  intros Hc Hmode Hum Hls Hm. unfold Start, start_one, startServer. rewrite decide_False by (by rewrite Hc).
  destruct (prepared su); [|by do 2 eexists]. rewrite decide_False by done. rewrite Hc.
  destruct (routed su); [|by do 2 eexists].
  cbn [s_upgradeManager s_listeners set_running]. rewrite Hum, Hls, createListener_reuses by done.
  destruct (wants_tls cfg), (tls_made su); cbn; do 2 eexists; split_and!; try done; cbn; by rewrite ?Hls.
Qed.

(** *** The invariant of a process with one address *)

Definition owned (s : Server) : list Listener := omap id (s_listeners s) ++ s_serving s.
Definition one_address (m : ServerMode) : Prop := m = ServerModeSingle ∨ m = ServerModeVHost.

Record serves (k : nat) (addr : gostring) (m : ServerMode) (a : App) : Prop := mkServes {
  sg_exit : a_exit a = None;
  sg_mode : GetMode (a_cfg a) = m ∧ one_address m;
  sg_head : srv_Listen <$> head (cfg_Servers (a_cfg a)) = Some addr;
  sg_serving : ∃ ln, s_serving (a_srv a) = [ln] ∧ good (a_os a) k addr ln;
  sg_listeners : s_listeners (a_srv a) ≠ [] ∧
    Forall (λ o, ∃ ln, o = Some ln ∧ good (a_os a) k addr ln) (s_listeners (a_srv a));
  sg_old : Forall (λ s, Forall (λ l, (ln_fd l < length (fds (a_os a)))%nat ∧
    Forall (λ ln, ln_fd l ≠ ln_fd ln) (owned (a_srv a))) (s_serving s)) (a_old a) }.

Lemma serves_owned k addr m a : serves k addr m a → Forall (good (a_os a) k addr) (owned (a_srv a)).
Proof.
  intros []. destruct sg_serving0 as (ln&Hs&Hg), sg_listeners0 as [_ Hall]. unfold owned. rewrite Hs.
  apply Forall_app. split; [|by constructor].
  apply Forall_forall. intros l ([l'|]&Hin&[=->])%list_elem_of_omap.
  rewrite Forall_forall in Hall. by destruct (Hall _ Hin) as (?&[=->]&?).
Qed.

(** The system may change below a server as long as its listeners stay good. *)
Lemma serves_os k addr m a os :
  serves k addr m a → Forall (good os k addr) (owned (a_srv a)) → (length (fds (a_os a)) ≤ length (fds os))%nat →
  serves k addr m (with_os a os).
Proof.
  intros [? ? ? (ln&Hs&Hg) [Hne Hall] Hold] Hgood Hlen. unfold owned in Hgood. apply Forall_app in Hgood as [Hl Hsv].
  split; try done.
  - exists ln. split; [done|]. rewrite Hs in Hsv. by apply Forall_cons in Hsv as [? _].
  - split; [done|]. apply Forall_forall. intros o Ho. rewrite Forall_forall in Hall.
    destruct (Hall o Ho) as (l&->&_). exists l. split; [done|]. rewrite Forall_forall in Hl. apply Hl.
    apply list_elem_of_omap. by exists (Some l).
  - eapply Forall_impl; [exact Hold|]. intros s Hsold. eapply Forall_impl; [exact Hsold|]. cbn. intros l [? ?]. split; [lia|done].
Qed.

(** A configuration that needs no restart keeps the mode, and the address of the first
    server when it has one. *)
Lemma no_restart m addr cfg newCfg :
  GetMode cfg = m → one_address m → srv_Listen <$> head (cfg_Servers cfg) = Some addr →
  requiresFullRestart cfg newCfg = false →
  GetMode newCfg = m ∧
  (cfg_Servers newCfg = [] ∨ srv_Listen <$> head (cfg_Servers newCfg) = Some addr).
Proof.
  intros Hm Hone Hh. unfold requiresFullRestart. case_decide as Hsame; [|done].
  intros Hr. split; [congruence|]. destruct (cfg_Servers newCfg) as [|n new] eqn:Hn; [by left|right].
  destruct (cfg_Servers cfg) as [|o old] eqn:Ho; [done|]. cbn in Hh. injection Hh as <-.
  assert (heads_differ (take 1 (o :: old)) (take 1 (n :: new)) = false) as Hd.
  { rewrite Hm in Hr. destruct Hone as [-> | ->]; repeat case_decide; try done. by apply orb_false_iff in Hr as [_ ?]. }
  cbn in Hd. apply orb_false_iff in Hd as [Hd _]. apply negb_false_iff, bool_decide_eq_true in Hd. cbn. by rewrite Hd.
Qed.


(** A reload that does not come to an end leaves the server as it is. *)
Lemma reload_undone k addr m a os ds :
  serves k addr m a → extends (a_os a) os →
  Forall (λ d, good os k addr d ∧ (length (fds (a_os a)) ≤ ln_fd d)%nat) ds →
  serves k addr m (with_os a (close_all os (map Some ds))).
Proof.
  intros Hs He Hds. pose proof (close_all_closes ds os) as Hc. apply serves_os; [done| |].
  - eapply Forall_impl; [by eapply serves_owned|]. intros l Hl.
    eapply closes_good; [exact Hc| |by eapply extends_good].
    intros (d&Hfd&Hin)%list_elem_of_fmap. rewrite Forall_forall in Hds. destruct (Hds d Hin) as [_ Hle].
    apply good_bound in Hl. rewrite Hfd in Hl. lia.
  - destruct Hc as (_&->&_), He as (_&_&_&Hp). by apply prefix_length.
Qed.

(** After a reload the new server has the copies, and every replaced server accepts on
    descriptors of its own. *)
Lemma reload_done k addr m a os ds newCfg newSrv h2 h3 env :
  serves k addr m a → extends (a_os a) os →
  Forall (λ d, good os k addr d ∧ (length (fds (a_os a)) ≤ ln_fd d)%nat) ds →
  GetMode newCfg = m → srv_Listen <$> head (cfg_Servers newCfg) = Some addr →
  s_listeners newSrv = map Some ds → (∃ d, d ∈ ds ∧ s_serving newSrv = [d]) →
  serves k addr m (mkApp os newCfg newSrv (a_old a ++ [a_srv a]) h2 h3 env (a_children a) (a_sigints a) (a_exit a)).
Proof.
  intros Hs He Hds Hm Hh Hl (d&Hd&Hsv). pose proof (serves_owned _ _ _ _ Hs) as Hown.
  destruct Hs as [? [? Hone] ? (ln&Hserv&Hg) ? Hold]. rewrite Forall_forall in Hds.
  assert (length (fds (a_os a)) ≤ length (fds os))%nat as Hlen by (destruct He as (_&_&_&?); by apply prefix_length).
  split; cbn; [done|done|done| | |].
  - exists d. split; [done|]. by apply Hds.
  - rewrite Hl. split; [by destruct ds; [apply not_elem_of_nil in Hd|]|]. apply Forall_forall.
    intros o (l&->&Hin)%list_elem_of_fmap. exists l. split; [done|]. by apply Hds.
  - assert (Forall (λ l, length (fds (a_os a)) ≤ ln_fd l)%nat (owned newSrv)) as Hnew.
    { unfold owned. rewrite Hl, Hsv. apply Forall_app. split; [|by repeat constructor; apply Hds].
      apply Forall_forall. intros l (o&Ho&Hid)%list_elem_of_omap. apply list_elem_of_fmap in Ho as (l'&->&Hin).
      injection Hid as ->. by apply Hds. }
    assert (∀ l, (ln_fd l < length (fds (a_os a)))%nat → (ln_fd l < length (fds os))%nat ∧
      Forall (λ ln, ln_fd l ≠ ln_fd ln) (owned newSrv)) as Hsep.
    { intros l Hlt. split; [lia|]. eapply Forall_impl; [exact Hnew|]. cbn. lia. }
    apply Forall_app. split.
    + eapply Forall_impl; [exact Hold|]. intros s Ho. eapply Forall_impl; [exact Ho|]. intros l [? _]. by apply Hsep.
    + constructor; [|done]. rewrite Hserv. constructor; [|done]. apply Hsep. by eapply good_bound.
Qed.

Lemma reload_serves k addr m a o :
  serves k addr m a → slow (o_setup o) = false → serves k addr m (reloadConfig a o).
Proof.
  intros Hs Hslow. unfold reloadConfig. destruct (o_config o) as [newCfg|]; [|done].
  destruct (requiresFullRestart _ _) eqn:Hr; [done|]. case_decide; [done|].
  destruct (dup_loop_good k addr _ (a_os a) [] (proj2 (sg_listeners _ _ _ _ Hs))) as (os&ds&->&He&Hlen&Hds).
  cbn [app]. destruct (sg_mode _ _ _ _ Hs) as [Hm Hone].
  destruct (no_restart m addr _ _ Hm Hone (sg_head _ _ _ _ Hs) Hr) as [Hm' [Hnil|Hh]].
  - unfold Start. cbn [s_config SetListeners New_server]. rewrite decide_True by done.
    cbn. rewrite Hslow. by eapply reload_undone.
  - destruct ds as [|d ds]; [by destruct (s_listeners (a_srv a))|].
    destruct (cfg_Servers newCfg) as [|c rest] eqn:Hc; [done|]. cbn in Hh. injection Hh as Hh.
    assert (GetMode newCfg ≠ ServerModeMultiServer) as Hmode by (rewrite Hm'; by destruct Hone as [-> | ->]).
    destruct (start_given os (SetListeners (map Some (d :: ds)) (New_server newCfg)) (o_setup o) c rest d (map Some ds))
      as (s'&ok&->&_&_&Hok&_); [done..| |].
    { rewrite Hh. apply Forall_cons in Hds as [[[_ ?] _] _]. done. }
    destruct ok; cbn [orb]; [|rewrite Hslow; by eapply reload_undone].
    destruct (Hok eq_refl) as [Hsv Hl]. eapply (reload_done _ _ _ _ _ (d :: ds ++ [d])); try done.
    + apply Forall_cons in Hds as [? ?]. constructor; [done|]. apply Forall_app. split; [done|by constructor].
    + by rewrite Hc, <-Hh.
    + rewrite Hl. cbn. by rewrite map_app.
    + exists d. split; [left|done].
Qed.

(** The end of a replaced server closes what no other server has. *)
Lemma stop_old_serves k addr m a i : serves k addr m a → serves k addr m (app_step a (StopOld i)).
Proof.
  intros Hs. pose proof (serves_owned _ _ _ _ Hs) as Hown. unfold app_step. rewrite (sg_exit _ _ _ _ Hs).
  destruct (a_old a !! i) as [s|] eqn:Hi; [|done]. cbn.
  pose proof (close_all_closes (s_serving s) (a_os a)) as Hc.
  assert (serves k addr m (with_os a (close_all (a_os a) (map Some (s_serving s))))) as Hs'.
  { apply serves_os; [done| |by destruct Hc as (_&->&_)].
    pose proof (sg_old _ _ _ _ Hs) as Hold. rewrite Forall_forall in Hold.
    specialize (Hold s (list_elem_of_lookup_2 _ _ _ Hi)). rewrite Forall_forall in Hold.
    apply Forall_forall. intros ln Hin. rewrite Forall_forall in Hown. eapply closes_good; [exact Hc| |by apply Hown].
    intros (l&Hfd&Hl)%list_elem_of_fmap. destruct (Hold l Hl) as [_ Hne]. rewrite Forall_forall in Hne.
    by apply (Hne ln Hin). }
  destruct Hs'. split; try done. cbn in *. by apply Forall_delete.
Qed.

(** The events that are not meant to stop the server: reloads whose set-up is told in
    time, reopening of logs, the end of replaced servers. *)
Definition keeps (e : event) : Prop :=
  match e with
  | Signal SIGHUP o => slow (o_setup o) = false
  | Signal SIGUSR1 _ | StopOld _ => True
  | Signal _ _ => False
  end.

Lemma step_serves k addr m a e : keeps e → serves k addr m a → serves k addr m (app_step a e).
Proof.
  intros Hk Hs. destruct e as [sig o|i]; [|by apply stop_old_serves].
  unfold app_step. rewrite (sg_exit _ _ _ _ Hs).
  destruct sig; cbn in *; try done. by apply reload_serves.
Qed.

Lemma run_serves k addr m evs : ∀ a, Forall keeps evs → serves k addr m a → serves k addr m (app_run a evs).
Proof.
  induction evs as [|e evs IH]; intros a Hk Hs; [done|]. apply Forall_cons in Hk as [? ?].
  cbn. apply IH; [done|]. by apply step_serves.
Qed.


(** *** Starting *)

(** The name under which the address is bound is found again for the address; a unix
    address always is. *)
Definition address_stable (addr : gostring) : Prop :=
  HasPrefix addr unix_prefix = true ∨ ∀ name, net_bind addr = Some name → tcpAddrMatch name addr = true.

(** A listener that is opened is on a socket of its own. *)
Lemma create_new_good os cfg os' ln :
  address_stable (srv_Listen cfg) → create_new os cfg = (os', Some ln) →
  good os' (length (sockets os)) (srv_Listen cfg) ln.
Proof.
  intros Hst. unfold create_new, good, on_socket, holds, listener_matches.
  destruct (HasPrefix _ _) eqn:Hp.
  - unfold Listen_unix, remove_file. cbn. rewrite lookup_delete_eq. destruct (net_unix _); [|done].
    intros [= <- <-]. cbn. rewrite !list_lookup_middle by done. by rewrite !bool_decide_eq_true_2.
  - destruct Hst as [?|Hst]; [congruence|]. unfold Listen_tcp. destruct (net_bind _) as [name|]; [|done].
    cbn. destruct (name_taken _ _); [done|]. intros [= <- <-]. cbn. rewrite !list_lookup_middle by done.
    rewrite bool_decide_eq_true_2, Hst by done. done.
Qed.

(** What [Start] comes to for a server with one address. *)
Lemma start_found os s su cfg rest os' s' :
  cfg_Servers (s_config s) = cfg :: rest → GetMode (s_config s) ≠ ServerModeMultiServer →
  Start os s su = (os', s', true) →
  ∃ ln, createListener (s_upgradeManager s) (s_listeners s) os cfg = (os', Some ln) ∧
    s_serving s' = [ln] ∧ s_listeners s' = s_listeners s ++ [Some ln].
Proof.
  intros Hc Hmode. unfold Start, start_one, startServer. rewrite decide_False by (by rewrite Hc).
  destruct (prepared su); [|done]. rewrite decide_False by done. rewrite Hc. destruct (routed su); [|done].
  cbn [s_upgradeManager s_listeners set_running].
  destruct (createListener _ _ _ _) as [os1 [ln|]]; [|done].
  destruct (_ && _); [done|]. intros [= <- <-]. by exists ln.
Qed.

Lemma start_succeeds os s su cfg rest os' ln :
  cfg_Servers (s_config s) = cfg :: rest → GetMode (s_config s) ≠ ServerModeMultiServer →
  prepared su = true → routed su = true → tls_made su = true →
  createListener (s_upgradeManager s) (s_listeners s) os cfg = (os', Some ln) →
  ∃ s', Start os s su = (os', s', true).
Proof.
  intros Hc Hmode Hp Hr Ht Hl. unfold Start, start_one, startServer. rewrite decide_False by (by rewrite Hc).
  rewrite Hp, decide_False by done. rewrite Hc, Hr. cbn [s_upgradeManager s_listeners set_running].
  rewrite Hl, Ht, andb_false_r. by eexists.
Qed.

Lemma one_not_multi m : one_address m → m ≠ ServerModeMultiServer.
Proof. by intros [-> | ->]. Qed.

(** A process that was not started by an upgrade has made a socket for its address. *)
Lemma fresh_serves os env cfg su addr :
  IsChild env = false → one_address (GetMode cfg) → srv_Listen <$> head (cfg_Servers cfg) = Some addr →
  address_stable addr → a_exit (boot os env cfg su) = None →
  serves (length (sockets os)) addr (GetMode cfg) (boot os env cfg su).
Proof.
  intros Hchild Hone Hh Hst. unfold boot, inheritListeners. unfold IsChild in Hchild.
  apply bool_decide_eq_false in Hchild. rewrite decide_False by done. rewrite decide_True by done.
  destruct (Start _ _ _) as [[os' s'] ok] eqn:Hstart. destruct ok; [intros _|done].
  destruct (cfg_Servers cfg) as [|c rest] eqn:Hc; [done|]. cbn in Hh. injection Hh as <-.
  apply (start_found _ _ _ c rest) in Hstart as (ln&Hln&Hsv&Hls); [|done|by apply one_not_multi].
  cbn [s_upgradeManager s_listeners SetUpgradeManager New_server] in *.
  unfold createListener in Hln. unfold IsChild in Hln. rewrite bool_decide_eq_false_2 in Hln by done.
  cbn in Hln. apply create_new_good in Hln; [|done].
  split; cbn; [done|done|by rewrite Hc|by exists ln| |done].
  rewrite Hls. split; [done|]. repeat constructor. by exists ln.
Qed.

(** All that is inherited is on the socket of the parent's listener [ln0]. *)
Lemma inherits_good k addr u ks os0 ln0 :
  Forall (λ k', k' = k) ks → ks ≠ [] → LISTEN_FDS u = FormatInt (zlen ks) → zlen ks ≤ int64_max →
  sockets os0 !! k = Some (mkSocket (ln_network ln0) (ln_name ln0)) → listener_matches addr ln0 = true →
  ∀ os post, sockets os = sockets os0 → fds os = replicate 3 None ++ map Some ks ++ post →
    ∃ os' lns, GetInheritedListeners u os = (os', Some lns) ∧ extends os os' ∧ lns ≠ [] ∧ Forall (good os' k addr) lns.
Proof.
  intros Hk Hne Hn Hlen Hsock Hmatch os post Hsk Hf. destruct (inherits u os ks post) as (os'&lns&Hg&He&Hon); try done.
  { eapply Forall_impl; [exact Hk|]. intros ? ->. by rewrite Hsk, Hsock. }
  exists os', lns. split_and!; [done|done|by destruct Hon|].
  apply Forall_forall. intros l (i&Hi)%list_elem_of_lookup.
  destruct (Forall2_lookup_l _ _ _ _ _ Hon Hi) as (k'&Hk'&Honl). rewrite Forall_forall in Hk.
  rewrite (Hk k' (list_elem_of_lookup_2 _ _ _ Hk')) in Honl. split; [done|].
  destruct Honl as [_ Hso], He as [Hse _]. rewrite Hse, Hsk, Hsock in Hso. injection Hso as E1 E2.
  unfold listener_matches in *. by rewrite <-E1, <-E2.
Qed.

(** The child of an upgrade takes the socket over. *)
Lemma upgraded_serves k addr m a ks u cfg su :
  serves k addr m a → GracefulUpgrade (a_os a) (s_listeners (a_srv a)) = Some (ks, u) → zlen ks ≤ int64_max →
  GetMode cfg = m → srv_Listen <$> head (cfg_Servers cfg) = Some addr →
  prepared su = true → routed su = true → tls_made su = true →
  serves k addr m (boot (child_os (a_os a) ks) u cfg su).
Proof.
  intros Hs Hu Hlen Hm Hh Hp Hr Ht. destruct (upgrade_started _ _ _ _ Hu) as (Hall&Hne&Hchild&Hn).
  destruct (sg_mode _ _ _ _ Hs) as [_ Hone], (sg_listeners _ _ _ _ Hs) as [_ Hgood].
  destruct (sg_serving _ _ _ _ Hs) as (ln0&_&[[_ Hsock] Hmatch]).
  assert (Forall (λ k', k' = k) ks) as Hk.
  { apply Forall_forall. intros k' (i&Hi)%list_elem_of_lookup.
    destruct (Forall2_lookup_r _ _ _ _ _ Hall Hi) as (o&Ho&ln&->&Hh'). rewrite Forall_forall in Hgood.
    destruct (Hgood _ (list_elem_of_lookup_2 _ _ _ Ho)) as (ln'&[= <-]&[[Hh'' _] _]). unfold holds in *. congruence. }
  pose proof (inherits_good k addr u ks (a_os a) ln0 Hk Hne Hn Hlen Hsock Hmatch) as Hget.
  destruct (Hget (child_os (a_os a) ks) []) as (os1&lns1&Hg1&He1&Hne1&Hgood1); [done|by rewrite app_nil_r|].
  destruct (Hget os1) with (post := drop (3 + length ks) (fds os1)) as (os2&lns2&Hg2&He2&Hne2&Hgood2).
  { by destruct He1 as [-> _]. }
  { destruct He1 as (_&_&_&post&->). cbn [child_os fds]. rewrite <-(assoc_L (++)). do 2 f_equal.
    rewrite (assoc_L (++)), drop_app_length'; [done|]. by rewrite length_app, length_map. }
  destruct (cfg_Servers cfg) as [|c rest] eqn:Hc; [done|]. cbn in Hh. injection Hh as Hh.
  unfold boot, inheritListeners. unfold IsChild in Hchild. apply bool_decide_eq_true in Hchild as Hc1.
  rewrite decide_True by done. rewrite Hg1. cbn [from_option id].
  rewrite decide_False by (by destruct lns1). destruct lns2 as [|d lns2]; [done|].
  pose proof (Forall_inv Hgood2) as Hd.
  set (s := SetUpgradeManager u (SetListeners (map Some lns1) (New_server cfg))).
  assert (createListener (s_upgradeManager s) (s_listeners s) os1 c = (os2, Some d)) as Hcl.
  { unfold createListener. cbn [s s_upgradeManager SetUpgradeManager]. unfold IsChild. rewrite Hchild, Hg2. cbn [from_option map id].
    rewrite matched_first; [done|]. rewrite Hh. apply Hd. }
  destruct (start_succeeds os1 s su c rest os2 d) as [s' Hstart]; [done| |done..|].
  { cbn. rewrite Hm. by apply one_not_multi. }
  rewrite Hstart. apply (start_found _ _ _ c rest) in Hstart as (ln&Hln&Hsv&Hls); [|done|cbn; rewrite Hm; by apply one_not_multi].
  rewrite Hcl in Hln. injection Hln as <-.
  split; cbn; [done|done|by rewrite Hc, <-Hh|by exists d| |done].
  rewrite Hls. split; [by destruct lns1|]. cbn [s s_listeners SetUpgradeManager SetListeners].
  apply Forall_app. split; [|repeat constructor; by exists d].
  apply Forall_forall. intros o (l&->&Hl)%list_elem_of_fmap. exists l. split; [done|].
  eapply extends_good; [exact He2|]. rewrite Forall_forall in Hgood1. by apply Hgood1.
Qed.


(** The processes that come from one: by the steps it takes, and by the upgrades that it
    and its children start with a configuration for the same address. *)
Inductive descendant (a0 : App) : App → Prop :=
  | desc_self : descendant a0 a0
  | desc_step a e : descendant a0 a → keeps e → descendant a0 (app_step a e)
  | desc_upgraded a o ks u cfg su :
      descendant a0 a →
      a_children (app_step a (Signal SIGUSR2 o)) = a_children a ++ [(ks, u)] → zlen ks ≤ int64_max →
      GetMode cfg = GetMode (a_cfg a) →
      srv_Listen <$> head (cfg_Servers cfg) = srv_Listen <$> head (cfg_Servers (a_cfg a)) →
      prepared su = true → routed su = true → tls_made su = true →
      descendant a0 (boot (child_os (a_os a) ks) u cfg su).

(** It runs, and accepts connections on the socket. *)
Definition accepts (k : nat) (a : App) : Prop :=
  a_exit a = None ∧ ∃ ln, s_serving (a_srv a) = [ln] ∧ on_socket (a_os a) ln k.

Lemma upgrade_child a o ks u :
  a_exit a = None → a_children (app_step a (Signal SIGUSR2 o)) = a_children a ++ [(ks, u)] →
  GracefulUpgrade (a_os a) (s_listeners (a_srv a)) = Some (ks, u).
Proof.
  intros He. unfold app_step. rewrite He. cbn. unfold gracefulUpgrade.
  assert (∀ x, a_children a ≠ a_children a ++ [x]) as Hno.
  { intros x Hx%(f_equal length). rewrite length_app in Hx. cbn in Hx. lia. }
  case_decide; [by intros ?%Hno|]. destruct (GracefulUpgrade _ _) as [c|]; [|by intros ?%Hno].
  destruct (o_exec o); [|by intros ?%Hno]. cbn. intros Hc%app_inj_2; [|done]. by destruct Hc as [_ [= ->]].
Qed.

(** C5: A process that serves one address (single mode or virtual hosts), under a name that
    the system keeps for it, accepts on the socket that it made at its start: through every
    sequence of reloads, log reopenings and ends of replaced servers, whatever
    configuration is read, also one that cannot be read or started, if a set-up that fails
    does so before the timer of the reload; and so does every child of an upgrade that is
    given the same address and sets up its server, and every child of these. No
    connection that waits on the socket is lost. Without these conditions it is not so:
    slow_failure_stops_serving, multi_never_reloads, name_lost_by_upgrade. *)
Theorem reload_keeps_serving os env cfg su addr :
  IsChild env = false → one_address (GetMode cfg) → srv_Listen <$> head (cfg_Servers cfg) = Some addr →
  address_stable addr → a_exit (boot os env cfg su) = None →
  ∃ k, ∀ a, descendant (boot os env cfg su) a → accepts k a.
Proof.
  intros Hchild Hone Hh Hst Hrun.
  pose proof (fresh_serves os env cfg su addr Hchild Hone Hh Hst Hrun) as H0.
  exists (length (sockets os)). intros a Ha.
  assert (serves (length (sockets os)) addr (GetMode cfg) a) as Hs.
  { induction Ha as [|a e Ha IH Hk|a o ks u cfg' su' Ha IH Hc Hlen Hm Hh' Hp Hr Ht]; [done|by apply step_serves|].
    apply upgrade_child in Hc; [|apply IH]. destruct (sg_mode _ _ _ _ IH) as [Hmode _].
    eapply upgraded_serves; try done; [congruence|]. rewrite Hh'. apply IH. }
  split; [apply Hs|]. destruct (sg_serving _ _ _ _ Hs) as (ln&?&[??]). by exists ln.
Qed.

(** After an upgrade the parent accepts nothing and yet goes on: nothing but another
    signal ends it, and no configuration brings it back. *)
Theorem upgraded_parent_stays a o ks u :
  a_exit a = None → a_children (app_step a (Signal SIGUSR2 o)) = a_children a ++ [(ks, u)] →
  let a' := app_step a (Signal SIGUSR2 o) in a_exit a' = None ∧ s_serving (a_srv a') = [] ∧ s_running (a_srv a') = false.
Proof.
  intros He Hc. apply upgrade_child in Hc as Hu; [|done]. revert Hc. unfold app_step. rewrite He. cbn.
  unfold gracefulUpgrade. case_decide as Hnil; [by rewrite Hnil in Hu|]. rewrite Hu. destruct (o_exec o); cbn; [done|].
  intros Hx%(f_equal length). rewrite length_app in Hx. cbn in Hx. lia.
Qed.

Definition no_http2 (a : App) : Prop := s_tlsManager (a_srv a) = false ∧ a_http2 a = false ∧ a_http3 a = false.

Lemma Start_no_manager os s su os' s' ok :
  Start os s su = (os', s', ok) → s_tlsManager s' = s_tlsManager s.
Proof.
  unfold Start, start_one, startServer, startMultiServerMode. intros Hst.
  repeat (case_match || case_decide); simplify_eq; done.
Qed.

Lemma no_manager_no_http2 cfg srv made :
  s_tlsManager srv = false → initHTTP2 cfg srv made = false ∧ initHTTP3 cfg srv made = false.
Proof. intros Ht. unfold initHTTP2, initHTTP3, GetTLSConfig. rewrite Ht. split; repeat case_match; done. Qed.

(** No process serves HTTP/2 or HTTP/3: they take the certificates of a TLS manager that
    no start of a server stores. *)
Theorem http2_never_served os env cfg su evs : no_http2 (app_run (boot os env cfg su) evs).
Proof.
  assert (no_http2 (boot os env cfg su)) as H0.
  { unfold boot. destruct (inheritListeners env os) as [os1 inh].
    destruct (Start _ _ _) as [[os' s'] ok] eqn:Hst. apply Start_no_manager in Hst. cbn in Hst.
    repeat split; cbn; [rewrite Hst|apply no_manager_no_http2..]; by case_decide. }
  revert H0. generalize (boot os env cfg su). induction evs as [|e evs IH]; intros a Ha; [done|].
  cbn. apply IH. clear IH. destruct Ha as (Ht&H2&H3). unfold app_step. destruct (a_exit a); [done|].
  destruct e as [sig o|i]; [|by destruct (a_old a !! i)].
  assert (no_http2 (reloadConfig a o)) as Hr.
  { unfold reloadConfig. repeat (case_match || case_decide); try done. cbn.
    match goal with Hst : Start _ _ _ = _ |- _ => apply Start_no_manager in Hst; cbn in Hst end.
    split_and!; cbn; [done|by apply no_manager_no_http2..]. }
  assert (no_http2 (gracefulUpgrade a o)) as Hu.
  { unfold gracefulUpgrade. repeat (case_match || case_decide); done. }
  unfold on_signal. destruct sig; cbn; repeat case_match; simplify_eq; done.
Qed.

(** An interrupt ends the process at once, so the three that would force it to exit with
    an error are never counted. *)
Theorem interrupt_exits a o : a_exit a = None → (a_sigints a < 2)%nat → a_exit (app_step a (Signal SIGINT o)) = Some 0.
Proof.
  intros He Hn. unfold app_step, on_signal. rewrite He. cbn [with_sigint a_sigints].
  rewrite (proj2 (Nat.leb_gt 3 (S (a_sigints a)))) by lia. done.
Qed.


(** *** Several addresses *)

Lemma dup_loop_extends ls : ∀ os made os' ds, dup_loop os made ls = (os', Some ds) → extends os os'.
Proof.
  induction ls as [|[ln|] ls IH]; intros os made os' ds; cbn [dup_loop mbind option_bind]; [by intros [= <- _]| |done].
  unfold DupListener, FileListener. destruct (fds os !! ln_fd ln) as [[k|]|]; try done.
  destruct (sockets os !! k) as [s|]; [|done]. cbn. intros Hd%IH. etrans; [|exact Hd].
  split_and!; try done. by eexists.
Qed.

Lemma extends_open os os' k : extends os os' → is_open os k = true → is_open os' k = true.
Proof.
  intros (_&Hh&_&[t Hf]). unfold is_open. rewrite Hh, Hf, !orb_true_iff, !bool_decide_eq_true.
  intros [?|?]; [by left|right]. apply elem_of_app. by left.
Qed.

(** With an address per server the new server gets the copies of the listeners and
    forgets them: it makes its list anew, empty, and binds the first address, which the
    old server has open. So every reload fails. *)
Theorem multi_never_reloads a o c rest name k :
  GetMode (a_cfg a) = ServerModeMultiServer → cfg_Servers (a_cfg a) = c :: rest →
  HasPrefix (srv_Listen c) unix_prefix = false → net_bind (srv_Listen c) = Some name →
  sockets (a_os a) !! k = Some (mkSocket networkTCP name) → is_open (a_os a) k = true →
  slow (o_setup o) = false →
  let a' := reloadConfig a o in
  a_cfg a' = a_cfg a ∧ a_srv a' = a_srv a ∧ a_old a' = a_old a.
Proof.
  intros Hm Hc Hu Hb Hk Ho Hslow. cbn zeta. unfold reloadConfig. destruct (o_config o) as [newCfg|]; [|done].
  destruct (requiresFullRestart _ _) eqn:Hr; [done|]. case_decide; [done|].
  destruct (dup_loop _ _ _) as [os [duped|]] eqn:Hd; [|done]. apply dup_loop_extends in Hd as He.
  assert (Listen_tcp os (srv_Listen c) = None) as Href.
  { apply (listen_refused os k _ name); [|by eapply extends_open|done]. by destruct He as [-> _]. }
  enough (∃ os' s', Start os (SetListeners duped (New_server newCfg)) (o_setup o) = (os', s', false)) as (os'&s'&->).
  { by rewrite Hslow. }
  unfold requiresFullRestart in Hr. case_decide as Hsame; [|done]. rewrite Hm in Hr, Hsame.
  repeat (rewrite decide_False in Hr by done). rewrite decide_True in Hr by done.
  apply orb_false_iff in Hr as [Hlen Hr]. apply negb_false_iff, Nat.eqb_eq in Hlen. rewrite Hc in Hr, Hlen.
  destruct (cfg_Servers newCfg) as [|n new] eqn:Hn; [done|]. cbn in Hr. apply orb_false_iff in Hr as [Hr _].
  apply negb_false_iff, bool_decide_eq_true in Hr.
  unfold Start, startMultiServerMode. cbn [s_config SetListeners New_server s_upgradeManager].
  rewrite Hn, decide_False by done. destruct (prepared _); [|by do 2 eexists]. rewrite decide_True by done.
  cbn [listen_loop]. unfold createListener. rewrite (matched_nones (length (n :: new))).
  unfold create_new. rewrite <-Hr, Hu, Href. by do 2 eexists.
Qed.

End app.

(** ** A network, and what happens on it

    The wildcard is bound as [::], and names with a wildcard clash with all of their
    port; [localhost] is the only host with a name. *)

Definition ex_bind (addr : gostring) : option gostring :=
  '(host, port) ← SplitHostPort addr;
  Some (JoinHostPort (if decide (host = []) then go!"::" else if decide (host = go!"localhost") then go!"127.0.0.1" else host) port).
Definition ex_clash (a b : gostring) : bool := bool_decide (a = b) || tcpAddrMatch a b.
Lemma ex_clash_refl a : ex_clash a a = true.
Proof. unfold ex_clash. by rewrite bool_decide_eq_true_2. Qed.
#[local] Instance ex_network : Network := {|
  net_bind := ex_bind; net_clash := ex_clash; net_clash_refl := ex_clash_refl; net_unix := λ _, true |}.

Definition ex_os : OS := mkOS [] [] (replicate 3 None) ∅.
Definition ex_env : UpgradeManager := mkUpgradeManager [] [] [].
Definition ex_server (addr : gostring) : ServerConfig :=
  mkServerConfig None None [] [] [] [] [] addr zero_SecurityConfig zero_CompressionConfig zero_SSLConfig
    zero_UnixSocketConfig zero_LimitRateConfig zero_TypesConfig [] 0 0 0 0 0 0 0 0 false false false.
Definition ex_cfg (addrs : list gostring) : Config :=
  mkConfig [] zero_VariablesConfig zero_LoggingConfig (map ex_server addrs) [] zero_MonitoringConfig zero_HTTP3Config
    zero_ResolverConfig zero_PerformanceConfig zero_ShutdownConfig [].
Definition ex_good : Setup := mkSetup true true true false.
Definition ex_reload (addrs : list gostring) (su : Setup) : event :=
  Signal SIGHUP (mkOutcome (Some (ex_cfg addrs)) su true true true).
Definition ex_upgrade : event := Signal SIGUSR2 (mkOutcome None ex_good true true true).
Definition ex_start (addrs : list gostring) : App := boot ex_os ex_env (ex_cfg addrs) ex_good.
(** The descriptors that are accepted on, the sockets they are of, and how many
    listeners the server has. *)
Definition accepted_on (a : App) : list (nat * option (option nat)) :=
  map (λ ln, (ln_fd ln, fds (a_os a) !! ln_fd ln)) (s_serving (a_srv a)).
Definition listeners_of (a : App) : nat := length (s_listeners (a_srv a)).

Lemma reload_keeps_serving_witness :
  ∃ k, ∀ a, descendant (boot ex_os ex_env (ex_cfg [go!":80"]) ex_good) a → accepts k a.
Proof.
  apply (reload_keeps_serving ex_os ex_env (ex_cfg [go!":80"]) ex_good (go!":80"));
    [reflexivity|left; reflexivity|reflexivity| |vm_compute; reflexivity].
  right. intros name Hb. vm_compute in Hb. injection Hb as <-. vm_compute. reflexivity.
Defined.

(** Reloads on :80: each server is on a new descriptor of socket 0 and has one listener
    more than the one before, since each copies all of them and adds the one it uses;
    of the copies of the second server one, descriptor 6, is never closed. *)
Definition ex_reloads (n : nat) : App :=
  Nat.iter n (λ a, app_run a [ex_reload [go!":80"] ex_good; StopOld 0]) (ex_start [go!":80"]).
Example reloads_leak :
  map (λ n, (accepted_on (ex_reloads n), listeners_of (ex_reloads n))) [0; 1; 2; 3]%nat =
    [([(3, Some (Some 0))], 1); ([(4, Some (Some 0))], 2); ([(5, Some (Some 0))], 3); ([(7, Some (Some 0))], 4)]%nat ∧
  fds (a_os (ex_reloads 3)) = (replicate 6 None ++ replicate 4 (Some 0))%nat.
Proof. by vm_compute. Qed.

(** An address with a name is not found under the address that it was bound to: the
    reload of an unchanged configuration is refused. *)
Example name_never_reloads :
  app_step (ex_start [go!"localhost:80"]) (ex_reload [go!"localhost:80"] ex_good)
    = with_os (ex_start [go!"localhost:80"]) (a_os (app_step (ex_start [go!"localhost:80"]) (ex_reload [go!"localhost:80"] ex_good))) ∧
  a_old (app_step (ex_start [go!"localhost:80"]) (ex_reload [go!"localhost:80"] ex_good)) = [].
Proof. split; vm_compute; reflexivity. Qed.

(** After an upgrade of such a server nothing is served: the child does not start, and
    the parent, which does not wait to see it, has closed its listeners. *)
Example name_lost_by_upgrade :
  let a := app_step (ex_start [go!"localhost:80"]) ex_upgrade in
  accepted_on a = [] ∧
  match a_children a with
  | [(ks, u)] => ks = [0%nat] ∧ a_exit (boot (child_os (a_os (ex_start [go!"localhost:80"])) ks) u (ex_cfg [go!"localhost:80"]) ex_good) = Some 1
  | _ => False
  end.
Proof. split; vm_compute; [done|]. by split. Qed.

(** A set-up that fails after the timeout of the reload is taken for a success. *)
Example slow_failure_stops_serving :
  let a := app_run (ex_start [go!":80"]) [ex_reload [go!":80"] (mkSetup true false true true); StopOld 0] in
  accepted_on a = [] ∧ length (a_old a) = 0%nat ∧ a_exit a = None.
Proof. by vm_compute. Qed.

(** The end of the first server removes the file of its unix socket, on which the new
    server goes on to accept without a name. *)
Example unix_name_lost_by_reload :
  let a := app_run (ex_start [go!"unix:/run/lolly"]) [ex_reload [go!"unix:/run/lolly"] ex_good] in
  in_socket <$> files (a_os a) !! go!"/run/lolly" = Some (Some 0%nat) ∧
  files (a_os (app_step a (StopOld 0))) !! go!"/run/lolly" = None ∧
  accepted_on (app_step a (StopOld 0)) = [(4%nat, Some (Some 0%nat))].
Proof. by vm_compute. Qed.

(** With two addresses a reload that fails at the second has taken the file of the first,
    a unix socket, from the server that is running. *)
Example failed_reload_takes_unix_name :
  let a := ex_start [go!"unix:/run/lolly"; go!":80"] in
  let a' := app_step a (ex_reload [go!"unix:/run/lolly"; go!":80"] ex_good) in
  in_socket <$> files (a_os a) !! go!"/run/lolly" = Some (Some 0%nat) ∧
  files (a_os a') !! go!"/run/lolly" = None ∧ a_old a' = [] ∧ a_srv a' = a_srv a.
Proof. split_and!; [by vm_compute..|]; vm_compute; reflexivity. Qed.

(** Two servers of which one has the wildcard address share its listener. *)
Example wildcard_shares_listener :
  accepted_on (ex_start [go!":80"; go!"127.0.0.1:80"]) = [(3, Some (Some 0)); (3, Some (Some 0))]%nat.
Proof. by vm_compute. Qed.

(** The error of the only server is dropped, that of one of several is not. *)
Example shutdown_error_dropped :
  shutdown_one (Some (Some (go!"closed"))) = Stopped ∧ shutdownServers [Some (Some (go!"closed"))] = StopErrors [go!"closed"].
Proof. done. Qed.

Lemma multi_never_reloads_witness :
  let a := ex_start [go!":80"; go!":81"] in
  let a' := reloadConfig a (mkOutcome (Some (ex_cfg [go!":80"; go!":81"])) ex_good true true true) in
  a_cfg a' = a_cfg a ∧ a_srv a' = a_srv a ∧ a_old a' = a_old a.
Proof.
  apply (multi_never_reloads _ _ (ex_server (go!":80")) [ex_server (go!":81")] (go!"[::]:80") 0);
    first [reflexivity|vm_compute; reflexivity].
Defined.

Lemma upgraded_parent_stays_witness :
  let a' := app_step (ex_start [go!":80"]) ex_upgrade in
  a_exit a' = None ∧ s_serving (a_srv a') = [] ∧ s_running (a_srv a') = false.
Proof.
  apply (upgraded_parent_stays _ _ [0%nat] (mkUpgradeManager (go!"1") (go!"1") [])); vm_compute; reflexivity.
Defined.
