(* ===== verification/LuaEngine.v ===== *)
(** * LuaEngine: the pool of Lua states and the coroutines of requests

    [src/internal/lua/pool.go], and of [engine.go] and [coroutine.go] the making of an
    engine, [NewCoroutine], [releaseCoroutine], the counters and [Close].  Every request
    that runs a script is a thread over the engine; a stretch under the pool's mutex or
    an atomic operation is a section.  The interpreter itself is not under src/: what a
    script comes to is an answer, and a state is a number.

    Shown: under every interleaving no two requests share a state and none has one that
    is in the pool ([states_exclusive]); how many states and coroutines there are
    ([states_bounded], [coroutines_bounded]), and that none is lost when all is done; and
    that a request that runs a script while the engine is closed takes the process down
    ([close_crashes_requests]): [GracefulStop] closes the engine before it waits for
    requests. *)

From S2P Require Import Prelude Config Threads.

(** ** [LStatePool]; [current] counts the states made and not closed. *)
Record LStatePool := mkLStatePool { pool_states : list nat; current : Z; maxSize : Z }.

(** Fresh states are numbered by [made]. *)
Definition NewLStatePool (initialSize maxSize : Z) : LStatePool * nat :=
  let n := Z.to_nat initialSize in (mkLStatePool (seq 0 n) (Z.of_nat n) maxSize, n).

Definition pool_get (p : LStatePool) (made : nat) : option nat * LStatePool * nat :=
  match last (pool_states p) with
  | Some L => (Some L, mkLStatePool (removelast (pool_states p)) (current p) (maxSize p), made)
  | None =>
      if maxSize p <=? current p then (None, p, made)
      else (Some made, mkLStatePool [] (current p + 1) (maxSize p), S made)
  end.

Definition pool_put (L : nat) (p : LStatePool) : LStatePool :=
  if maxSize p <=? zlen (pool_states p) then mkLStatePool (pool_states p) (current p - 1) (maxSize p)
  else mkLStatePool (pool_states p ++ [L]) (current p) (maxSize p).

Definition pool_close (p : LStatePool) : LStatePool := mkLStatePool [] 0 (maxSize p).

(** ** [LuaEngine] *)

Record EngineStats := mkEngineStats {
  CoroutinesCreated : Z; CoroutinesClosed : Z; ScriptsExecuted : Z; ScriptsErrors : Z }.
(** [crashed]: a method was called on the pool after the engine had dropped it, and
    nothing recovers from it; the process ends there. *)
Record LuaEngine := mkLuaEngine {
  lstatePool : option LStatePool; made : nat; maxCoroutines : Z; activeCount : Z;
  stats : EngineStats; crashed : bool }.

(** [Config] of the engine. *)
Record EngineConfig := mkEngineConfig {
  MaxConcurrentCoroutines : Z; CoroutineTimeout : Z; CodeCacheSize : Z; CodeCacheTTL : Z; EnableFileWatch : bool;
  MaxExecutionTime : Z; EnableOSLib : bool; EnableIOLib : bool; EnableLoadLib : bool; LStatePoolInitialSize : Z;
  LStatePoolMaxSize : Z; CoroutineStackSize : Z; MinimizeStackMemory : bool; CoroutinePoolWarmup : Z }.

Definition NewEngine (cfg : EngineConfig) : LuaEngine :=
  let initial := if LStatePoolInitialSize cfg <=? 0 then 10 else LStatePoolInitialSize cfg in
  let max := if LStatePoolMaxSize cfg <=? 0 then 100 else LStatePoolMaxSize cfg in
  let '(p, n) := NewLStatePool initial max in
  mkLuaEngine (Some p) n (MaxConcurrentCoroutines cfg) 0 (mkEngineStats 0 0 0 0) false.

(** [initLuaEngine] of server/init.go: the configuration of the engine, if there is one. *)
Definition or_default (n d : Z) : Z := if n =? 0 then d else n.
Definition initLuaEngine (luaCfg : option LuaMiddlewareConfig) : option EngineConfig :=
  c ← luaCfg;
  if lua_Enabled c then
    let g := lua_GlobalSettings c in
    Some (mkEngineConfig
      (or_default (lgs_MaxConcurrentCoroutines g) 1000) (or_default (lgs_CoroutineTimeout g) (30 * second))
      (or_default (lgs_CodeCacheSize g) 1000) (3600 * second) true
      (or_default (lgs_MaxExecutionTime g) (30 * second)) false false false
      (or_default (lgs_LStatePoolInitialSize g) 100) (or_default (lgs_LStatePoolMaxSize g) 1000)
      (if 0 <? lgs_CoroutineStackSize g then lgs_CoroutineStackSize g else 64) (lgs_MinimizeStackMemory g)
      (if 0 <? lgs_CoroutinePoolWarmup g then lgs_CoroutinePoolWarmup g else 4))
  else None.

Definition set_pool (p : option LStatePool) (n : nat) (e : LuaEngine) : LuaEngine :=
  mkLuaEngine p n (maxCoroutines e) (activeCount e) (stats e) (crashed e).
Definition add_active (d : Z) (e : LuaEngine) : LuaEngine :=
  mkLuaEngine (lstatePool e) (made e) (maxCoroutines e) (swrap32 (activeCount e + d)) (stats e) (crashed e).
Definition set_stats (f : EngineStats → EngineStats) (e : LuaEngine) : LuaEngine :=
  mkLuaEngine (lstatePool e) (made e) (maxCoroutines e) (activeCount e) (f (stats e)) (crashed e).
Definition crash (e : LuaEngine) : LuaEngine :=
  mkLuaEngine (lstatePool e) (made e) (maxCoroutines e) (activeCount e) (stats e) true.

Definition count_created (s : EngineStats) : EngineStats :=
  mkEngineStats (wrap64 (CoroutinesCreated s + 1)) (CoroutinesClosed s) (ScriptsExecuted s) (ScriptsErrors s).
Definition count_closed (s : EngineStats) : EngineStats :=
  mkEngineStats (CoroutinesCreated s) (wrap64 (CoroutinesClosed s + 1)) (ScriptsExecuted s) (ScriptsErrors s).
Definition count_executed (s : EngineStats) : EngineStats :=
  mkEngineStats (CoroutinesCreated s) (CoroutinesClosed s) (wrap64 (ScriptsExecuted s + 1)) (ScriptsErrors s).
Definition count_error (s : EngineStats) : EngineStats :=
  mkEngineStats (CoroutinesCreated s) (CoroutinesClosed s) (ScriptsExecuted s) (wrap64 (ScriptsErrors s + 1)).

(** What a script comes to. *)
Inductive script_result := NotCompiled | Executed | Failed.

Inductive section :=
  | NCount                (** [NewCoroutine]: the count goes up and is compared *)
  | NUncount              (** it goes down again, and an error is returned *)
  | NGet                  (** [lstatePool.Get] *)
  | NExecute (L : nat)    (** [Execute] or [ExecuteFile] *)
  | NPut (L : nat)        (** [releaseCoroutine]: [lstatePool.Put] *)
  | NClosed               (** the counts of a coroutine that is closed *)
  | CPool                 (** [Close]: the pool is closed *)
  | CNil.                 (** and dropped *)

Definition NewCoroutine : list section := [NCount].
Definition Close : list section := [CPool; CNil].

Definition run_section (a : section) (o : script_result) (e : LuaEngine) :
    option (LuaEngine * list section * list (list section)) :=
  if crashed e then None
  else
    let go e before := Some (e, before, []) in
    match a with
    | NCount =>
        let e := add_active 1 e in
        go e (if swrap32 (maxCoroutines e) <? activeCount e then [NUncount] else [NGet])
    | NUncount => go (add_active (-1) e) []
    | NGet =>
        match lstatePool e with
        | None => go (crash e) [a]
        | Some p =>
            let '(L, p, n) := pool_get p (made e) in
            let e := set_pool (Some p) n e in
            match L with
            | None => go e [NUncount]
            | Some L => go (set_stats count_created e) [NExecute L; NPut L; NClosed]
            end
        end
    | NExecute _ =>
        go (match o with
            | NotCompiled => e
            | Executed => set_stats count_executed e
            | Failed => set_stats count_error e end) []
    | NPut L =>
        match lstatePool e with
        | None => go (crash e) [a]
        | Some p => go (set_pool (Some (pool_put L p)) (made e) e) []
        end
    | NClosed => go (set_stats count_closed (add_active (-1) e)) []
    | CPool => go (set_pool (pool_close <$> lstatePool e) (made e) e) []
    | CNil => go (set_pool None (made e) e) []
    end.

(** A request with a script, and a stop of the server. *)
Inductive call := Request | CloseEngine.
Definition act (c : call) (e : LuaEngine) : option (LuaEngine * list (list section)) :=
  if crashed e then None else Some (e, [match c with Request => NewCoroutine | CloseEngine => Close end]).

#[export] Instance lua_machine : Machine LuaEngine section script_result call :=
  {| Threads.run_section := run_section; Threads.act := act |}.
Abbreviation lua_world := (world LuaEngine section).
Abbreviation lua_event := (event script_result call).

Definition started (cfg : EngineConfig) : lua_world := mkWorld (NewEngine cfg) [].

(** ** Where the states are *)

Definition idle (w : lua_world) : list nat := match lstatePool (shared w) with Some p => pool_states p | None => [] end.
(** A request has a state until it gives it back. *)
Definition has_state (a : section) : option nat := match a with NPut L => Some L | _ => None end.
Definition busy (w : lua_world) : list nat := omap has_state (concat (threads w)).

Definition copies (L : nat) (p : list nat) : Z := sum_over (λ L', one (bool_decide (L' = L))) p.
Definition copies_idle (L : nat) (e : LuaEngine) : Z := match lstatePool e with Some p => copies L (pool_states p) | None => 0 end.
Definition copies_of (L : nat) (a : section) : Z := match has_state a with Some L' => one (bool_decide (L' = L)) | None => 0 end.

Lemma copies_app L p q : copies L (p ++ q) = copies L p + copies L q.
Proof. apply sum_over_app. Qed.

Lemma pending_copies L ts : pending (copies_of L) ts = copies L (omap has_state (concat ts)).
Proof.
  unfold pending. induction ts as [|t ts IH]; [done|]. cbn [sum_over concat]. rewrite IH, omap_app, copies_app. f_equal. clear.
  induction t as [|a t IH]; [done|]. cbn [sum_over]. rewrite IH. unfold copies_of. cbn. by destruct (has_state a).
Qed.

Lemma copies_pos L p : L ∈ p → 1 ≤ copies L p.
Proof.
  intros Hin. pose proof (sum_over_in (λ L', one (bool_decide (L' = L))) p L) as Hs.
  cbn in Hs. rewrite bool_decide_eq_true_2 in Hs by done. apply Hs; [|done]. intros x _. apply one_nonneg.
Qed.

Lemma copies_NoDup p : (∀ L, copies L p ≤ 1) → NoDup p.
Proof.
  induction p as [|L p IH]; intros Hc; [constructor|]. constructor.
  - intros Hin%copies_pos. specialize (Hc L). unfold copies in *. cbn in Hc.
    rewrite bool_decide_eq_true_2 in Hc by done. cbn in Hc. lia.
  - apply IH. intros L'. specialize (Hc L'). unfold copies in *. cbn in Hc.
    pose proof (one_nonneg (bool_decide (L = L'))). lia.
Qed.

Lemma last_removelast (p : list nat) L : last p = Some L → p = removelast p ++ [L].
Proof.
  destruct p as [|x p]; [done|]. intros Hl. rewrite (app_removelast_last 0%nat) at 1 by done. f_equal. f_equal.
  revert x Hl. induction p as [|y p IH]; intros x Hl; [by injection Hl|]. by apply (IH y).
Qed.

(** A state that is taken leaves the pool, or is new. *)
Lemma lstate_get_spec p n L p' n' :
  pool_get p n = (L, p', n') →
  maxSize p' = maxSize p ∧
  match L with
  | None => p' = p ∧ n' = n
  | Some L =>
      (pool_states p = pool_states p' ++ [L] ∧ current p' = current p ∧ n' = n) ∨
      (pool_states p = [] ∧ pool_states p' = [] ∧ L = n ∧ n' = S n ∧ current p' = current p + 1 ∧ current p < maxSize p)
  end.
Proof.
  unfold pool_get. destruct (last (pool_states p)) as [L0|] eqn:El.
  - intros [= <- <- <-]. split; [done|]. left. split_and!; [|done..]. cbn. by apply last_removelast.
  - apply last_None in El. destruct (Z.leb_spec (maxSize p) (current p)); intros [= <- <- <-]; split; [done|done|done|].
    right. by rewrite El.
Qed.

(** ** One step *)

Inductive stepped (w : lua_world) : lua_world → Prop :=
  | S_section k a rest o s before : threads w !! k = Some (a :: rest) → run_section a o (shared w) = Some (s, before, []) →
      stepped w (mkWorld s (<[k := before ++ rest]> (threads w) ++ []))
  | S_call t : crashed (shared w) = false → t = NewCoroutine ∨ t = Close → stepped w (mkWorld (shared w) (threads w ++ [t])).

Lemma run_starts_none a o e s before started : run_section a o e = Some (s, before, started) → started = [].
Proof. unfold run_section. intros Hr. repeat (case_match; simplify_eq; try done). Qed.

Lemma step_stepped w ev w' : step w ev = Some w' → stepped w w'.
Proof.
  destruct ev as [k o|c]; cbn [step].
  - destruct (threads w !! k) as [[|a rest]|] eqn:Hk; cbn; [done| |done].
    destruct (run_section a o (shared w)) as [[[s before] started]|] eqn:Hs; [|done]. cbn.
    apply run_starts_none in Hs as Hn. subst started. intros [= <-]. by eapply S_section.
  - cbn. unfold act. destruct (crashed (shared w)) eqn:Hc; cbn; [done|].
    intros [= <-]. apply S_call; [done|]. destruct c; auto.
Qed.

(** *** States *)

Lemma section_copies a o e e' before started : run_section a o e = Some (e', before, started) →
  (made e' = made e ∨ made e' = S (made e)) ∧ ∀ L,
    let d := copies_idle L e' + sum_over (copies_of L) before - (copies_idle L e + copies_of L a) in
    d ≤ 0 ∨ d = 1 ∧ L = made e ∧ made e' = S (made e).
Proof.
  unfold run_section. destruct (crashed e); [done|]. intros Hr.
  destruct a as [| | |L0|L0| | |]; cbn zeta in Hr.
  - injection Hr as <- <- <-. split; [by left|]. intros L. left. unfold copies_idle. cbn [lstatePool add_active].
    match goal with |- context [if ?b then [NUncount] else _] => destruct b end; cbn; lia.
  - injection Hr as <- <- <-. split; [by left|]. intros L. left. unfold copies_idle. cbn. lia.
  - destruct (lstatePool e) as [p|] eqn:Ep; [|injection Hr as <- <- <-; split; [by left|]; intros L; left; unfold copies_idle; cbn; rewrite Ep; lia].
    destruct (pool_get p (made e)) as [[[L0|] p'] n'] eqn:Eg; apply lstate_get_spec in Eg as [_ Eg]; injection Hr as <- <- <-.
    + destruct Eg as [(Hp&_&->)|(Hp&Hp'&->&->&_)]; (split; [cbn; auto|]); intros L; cbn zeta;
        unfold copies_idle; rewrite Ep; cbn [lstatePool set_stats set_pool]; rewrite Hp; unfold copies.
      * left. rewrite sum_over_app. cbn. lia.
      * rewrite Hp'. unfold copies_of. cbn. destruct (decide (made e = L)) as [<- |?].
        -- right. by rewrite bool_decide_eq_true_2.
        -- left. rewrite bool_decide_eq_false_2 by done. cbn. lia.
    + destruct Eg as [-> ->]. split; [by left|]. intros L. left. unfold copies_idle. cbn. rewrite Ep. lia.
  - injection Hr as <- <- <-. split; [left; by destruct o|]. intros L. left. unfold copies_idle. destruct o; cbn; lia.
  - destruct (lstatePool e) as [p|] eqn:Ep; injection Hr as <- <- <-; (split; [by left|]); intros L; left;
      unfold copies_idle, copies_of; rewrite Ep; cbn [lstatePool set_pool crash has_state sum_over];
      pose proof (one_nonneg (bool_decide (L0 = L))); [|rewrite Ep; unfold copies_of; cbn [has_state]; lia].
    unfold pool_put. destruct (_ <=? _); cbn [pool_states]; unfold copies; rewrite ?sum_over_app; cbn [sum_over]; lia.
  - injection Hr as <- <- <-. split; [by left|]. intros L. left. unfold copies_idle. cbn. lia.
  - injection Hr as <- <- <-. split; [by left|]. intros L. left. unfold copies_idle. cbn.
    destruct (lstatePool e) as [p|]; cbn; [|lia]. pose proof (sum_over_nonneg (λ L', one (bool_decide (L' = L))) (pool_states p)
      ltac:(intros; apply one_nonneg)). unfold copies. lia.
  - injection Hr as <- <- <-. split; [by left|]. intros L. left. unfold copies_idle. cbn.
    destruct (lstatePool e) as [p|]; [|lia]. pose proof (sum_over_nonneg (λ L', one (bool_decide (L' = L))) (pool_states p)
      ltac:(intros; apply one_nonneg)). unfold copies. lia.
Qed.

Definition where_is (L : nat) (w : lua_world) : Z := copies_idle L (shared w) + pending (copies_of L) (threads w).
Definition exclusive (w : lua_world) : Prop := ∀ L, where_is L w ≤ 1 ∧ ((made (shared w) ≤ L)%nat → where_is L w ≤ 0).

Lemma exclusive_step w w' : stepped w w' → exclusive w → exclusive w'.
Proof.
  intros Hst Hex L. destruct (Hex L) as [H1 H0]. unfold where_is in *.
  destruct Hst as [k a rest o s before Hk Hr|t _ Ht].
  - destruct (section_copies _ _ _ _ _ _ Hr) as [Hmade Hd]. specialize (Hd L). cbn zeta in Hd.
    cbn [shared threads]. rewrite (pending_run _ _ _ _ _ _ _ Hk). unfold pending at 2. cbn [sum_over].
    destruct Hd as [Hd|(Hd&->&Hm)].
    + split; [lia|]. intros Hle. apply Z.le_trans with (2 := H0 ltac:(lia)). unfold pending. cbn. lia.
    + specialize (H0 ltac:(lia)). split; [unfold pending in *; cbn; lia|lia].
  - cbn [shared threads]. unfold pending in *. rewrite sum_over_app. destruct Ht as [-> | ->]; cbn; split; intros; try specialize (H0 ltac:(done)); lia.
Qed.

Lemma copies_seq n : ∀ i L, copies L (seq i n) = one (bool_decide (i ≤ L < i + n)%nat).
Proof.
  induction n as [|n IH]; intros i L; unfold copies in *; cbn; [by rewrite bool_decide_eq_false_2 by lia|].
  rewrite IH. destruct (decide (i = L)) as [-> |?].
  - by rewrite bool_decide_eq_true_2, bool_decide_eq_false_2, bool_decide_eq_true_2 by lia.
  - rewrite bool_decide_eq_false_2 by done. cbn [one]. rewrite Z.add_0_l. f_equal. apply bool_decide_ext. lia.
Qed.

Lemma exclusive_started cfg : exclusive (started cfg).
Proof.
  intros L. unfold where_is, started, NewEngine, NewLStatePool, copies_idle.
  cbn [shared threads lstatePool pool_states made pending sum_over]. rewrite copies_seq. change (pending _ []) with 0.
  match goal with |- context [bool_decide ?P] => pose proof (one_range (bool_decide P)) end.
  split; [lia|]. intros Hle. rewrite bool_decide_eq_false_2 by lia. done.
Qed.

Lemma run_exclusive cfg es w : run (started cfg) es = Some w → exclusive w.
Proof.
  apply (run_ind (λ _, exclusive) (λ _ w e w' Hw Hs, exclusive_step w w' (step_stepped _ _ _ Hs) Hw) es 0%nat).
  apply exclusive_started.
Qed.

(** C6: Under every interleaving of requests and of closings of the engine, no two requests
    run in the same Lua state, and none runs in a state that another can take from the
    pool. *)
Theorem states_exclusive (cfg : EngineConfig) (es : list lua_event) (w : lua_world) :
  run (started cfg) es = Some w → NoDup (idle w ++ busy w).
Proof.
  intros Hw%run_exclusive. apply copies_NoDup. intros L. rewrite copies_app. destruct (Hw L) as [H1 _].
  unfold where_is in H1. rewrite pending_copies in H1. unfold idle, copies_idle, busy in *.
  by destruct (lstatePool (shared w)).
Qed.

(** *** Counts *)

(** The shares of sections in the count of active coroutines, in those that were
    admitted, and in those that are open: made, and not yet closed; and what a thread
    can come to have of the first. *)
Definition active_of (a : section) : Z := match a with NUncount | NGet | NClosed => 1 | _ => 0 end.
Definition admitted_of (a : section) : Z := match a with NGet | NClosed => 1 | _ => 0 end.
Definition open_of (a : section) : Z := match a with NClosed => 1 | _ => 0 end.
Definition potential_of (a : section) : Z := match a with NCount | NUncount | NGet | NClosed => 1 | _ => 0 end.
Definition coroutines (w : lua_world) : Z := pending open_of (threads w).

Lemma swrap32_add z d : swrap32 (swrap32 z + d) = swrap32 (z + d).
Proof.
  unfold swrap32. f_equal. replace ((z + 2 ^ 31) mod 2 ^ 32 - 2 ^ 31 + d + 2 ^ 31) with ((z + 2 ^ 31) mod 2 ^ 32 + d) by ring.
  rewrite Zplus_mod_idemp_l. f_equal. ring.
Qed.
Lemma swrap32_id z : - 2 ^ 31 ≤ z < 2 ^ 31 → swrap32 z = z.
Proof. intros Hz. unfold swrap32. rewrite Z.mod_small by lia. lia. Qed.

Lemma section_moves a o e e' before started : run_section a o e = Some (e', before, started) →
  let moved f := sum_over f before - f a in
  maxCoroutines e' = maxCoroutines e ∧ moved potential_of ≤ 0 ∧
  (activeCount e' = swrap32 (activeCount e + moved active_of) ∨ activeCount e' = activeCount e ∧ moved active_of = 0) ∧
  (moved admitted_of ≤ 0 ∨
   moved admitted_of = 1 ∧ potential_of a = 1 ∧ active_of a = 0 ∧ activeCount e' = swrap32 (activeCount e + 1) ∧
   activeCount e' ≤ swrap32 (maxCoroutines e)).
Proof.
  unfold run_section. destruct (crashed e); [done|]. intros Hr. cbn zeta in Hr.
  destruct a as [| | |L|L| | |]; cbn zeta.
  - injection Hr as <- <- <-. cbn [activeCount add_active maxCoroutines].
    match goal with |- context [if ?x <? ?y then _ else _] => destruct (Z.ltb_spec x y) as [Hlt|Hle] end;
      cbn [sum_over potential_of active_of admitted_of]; (split_and!; [done|lia|by left|]); [by left|right].
    by split_and!.
  - injection Hr as <- <- <-. cbn. split_and!; [done|lia|by left|left; lia].
  - destruct (lstatePool e) as [p|]; [|injection Hr as <- <- <-; cbn; split_and!; [done|lia|by right|left; lia]].
    destruct (pool_get p (made e)) as [[[L0|] p'] n']; injection Hr as <- <- <-; cbn; split_and!; try done; try lia; try (by right); by left.
  - injection Hr as <- <- <-. cbn. destruct o; cbn; split_and!; try done; try lia; try (by right); left; lia.
  - destruct (lstatePool e) as [p|]; injection Hr as <- <- <-; cbn; split_and!; try done; try lia; try (by right); left; lia.
  - injection Hr as <- <- <-. cbn. split_and!; [done|lia|by left|left; lia].
  - injection Hr as <- <- <-. cbn. split_and!; [done|lia|by right|left; lia].
  - injection Hr as <- <- <-. cbn. split_and!; [done|lia|by right|left; lia].
Qed.

Record counted (m : Z) (w : lua_world) : Prop := mkCounted {
  ct_max : maxCoroutines (shared w) = m;
  ct_active : activeCount (shared w) = swrap32 (pending active_of (threads w));
  ct_threads : pending potential_of (threads w) ≤ zlen (threads w);
  ct_admitted : zlen (threads w) < 2 ^ 31 → pending admitted_of (threads w) ≤ Z.max 0 (swrap32 m) }.

Lemma pending_call (f : section → Z) ts t : pending f (ts ++ [t]) = pending f ts + sum_over f t.
Proof. unfold pending. rewrite sum_over_app. cbn. lia. Qed.

(** A thread that is about to count is not counted yet. *)
Lemma active_potential ts k a rest : ts !! k = Some (a :: rest) → active_of a = 0 → potential_of a = 1 →
  0 ≤ pending active_of ts < pending potential_of ts.
Proof.
  intros Hk Ha Hp. split; [apply pending_nonneg; by intros []|].
  assert (pending (λ a : section, potential_of a - active_of a) ts = pending potential_of ts - pending active_of ts) as Hd.
  { unfold pending. clear. induction ts as [|t ts IH]; [done|]. cbn. rewrite IH.
    assert (sum_over (λ a : section, potential_of a - active_of a) t = sum_over potential_of t - sum_over active_of t) as ->; [|lia].
    induction t as [|a t IHt]; [done|]. cbn. rewrite IHt. lia. }
  pose proof (pending_in (λ a : section, potential_of a - active_of a) ts (a :: rest) a ltac:(by intros []) (list_elem_of_lookup_2 _ _ _ Hk) ltac:(left)).
  cbn in *. lia.
Qed.

Lemma counted_step m w w' : stepped w w' → counted m w → counted m w'.
Proof.
  intros Hst [Hm Ha Ht Had]. destruct Hst as [k a rest o s before Hk Hr|t _ Hcall].
  - destruct (section_moves _ _ _ _ _ _ Hr) as (Hmax&Hpot&Hact&Hadm). cbn zeta in *.
    assert (length (<[k := before ++ rest]> (threads w) ++ []) = length (threads w)) as Hlen
      by (by rewrite app_nil_r, length_insert).
    assert (∀ f, pending f (<[k := before ++ rest]> (threads w) ++ []) = pending f (threads w) - f a + sum_over f before) as Hp.
    { intros f. rewrite (pending_run _ _ _ _ _ _ _ Hk). unfold pending. cbn. lia. }
    split; cbn [shared threads]; rewrite ?Hlen, ?Hp; [congruence| |lia|].
    + destruct Hact as [-> |[-> Hz]]; rewrite Ha; [rewrite swrap32_add; f_equal; lia|f_equal; lia].
    + intros Hb. specialize (Had Hb). destruct Hadm as [?|(Hd&Hp1&Ha0&Hac&Hle)]; [lia|].
      destruct (active_potential _ _ _ _ Hk Ha0 Hp1). rewrite Ha, swrap32_add, swrap32_id in Hac by lia.
      rewrite Hm in Hle. rewrite Hac in Hle.
      assert (pending admitted_of (threads w) ≤ pending active_of (threads w)) as Hsub.
      { unfold pending. clear. induction (threads w) as [|t ts IH]; [done|]. cbn.
        assert (sum_over admitted_of t ≤ sum_over active_of t); [|lia]. induction t as [|[] t IHt]; cbn; lia. }
      lia.
  - assert (sum_over active_of t = 0 ∧ sum_over potential_of t ≤ 1 ∧ sum_over admitted_of t = 0) as (H1&H2&H3)
      by (by destruct Hcall as [-> | ->]).
    split; cbn [shared threads]; rewrite ?pending_call, ?length_app; cbn [length]; [done| |lia|].
    + rewrite Ha. f_equal. lia.
    + intros Hb. specialize (Had ltac:(lia)). lia.
Qed.

Lemma run_counted cfg es w : run (started cfg) es = Some w → counted (MaxConcurrentCoroutines cfg) w.
Proof.
  apply (run_ind (λ _, counted (MaxConcurrentCoroutines cfg))
    (λ _ w e w' Hw Hs, counted_step _ w w' (step_stepped _ _ _ Hs) Hw) es 0%nat).
  split; cbn; [done|done|unfold pending; cbn; lia|unfold pending; cbn; lia].
Qed.

(** As long as fewer than 2^31 requests come, no more coroutines are open than the
    configuration allows, none if it is not positive; and the count of the active ones,
    which refused requests are part of for a moment, is zero when all is done. *)
Theorem coroutines_bounded (cfg : EngineConfig) (es : list lua_event) (w : lua_world) :
  run (started cfg) es = Some w →
  (zlen (threads w) < 2 ^ 31 → coroutines w ≤ Z.max 0 (swrap32 (MaxConcurrentCoroutines cfg))) ∧
  (quiet w → activeCount (shared w) = 0).
Proof.
  intros [Hm Ha Ht Had]%run_counted. split.
  - intros Hb. specialize (Had Hb). etrans; [|exact Had]. unfold coroutines, pending. clear.
    induction (threads w) as [|t ts IH]; [done|]. cbn.
    assert (sum_over open_of t ≤ sum_over admitted_of t); [|lia]. induction t as [|[] t IHt]; cbn; lia.
  - intros Hq. by rewrite Ha, pending_quiet.
Qed.

(** *** As long as the engine is not closed *)

Definition holds_state (a : section) : Z := match has_state a with Some _ => 1 | None => 0 end.
Definition closing (a : section) : bool := match a with CPool | CNil => true | _ => false end.

Lemma busy_holds w : zlen (busy w) = pending holds_state (threads w).
Proof.
  unfold busy, pending. induction (threads w) as [|t ts IH]; [done|]. cbn [concat sum_over].
  rewrite omap_app, length_app, Nat2Z.inj_add, IH. f_equal. clear. induction t as [|a t IH]; [done|].
  cbn [sum_over]. rewrite <-IH. unfold holds_state. cbn. destruct (has_state a); cbn; lia.
Qed.

Record unclosed (size : Z) (w : lua_world) : Prop := mkUnclosed {
  un_pool : ∃ p, lstatePool (shared w) = Some p ∧ current p = zlen (pool_states p) + pending holds_state (threads w) ∧
    current p ≤ size ∧ maxSize p ≤ size;
  un_alive : crashed (shared w) = false;
  un_threads : Forall (Forall (λ a, closing a = false)) (threads w) }.

Lemma section_unclosed a o e e' before started p :
  run_section a o e = Some (e', before, started) → lstatePool e = Some p → closing a = false →
  ∃ p', lstatePool e' = Some p' ∧ maxSize p' = maxSize p ∧
    current p' - zlen (pool_states p') - sum_over holds_state before = current p - zlen (pool_states p) - holds_state a ∧
    (current p' ≤ current p ∨ current p' ≤ maxSize p) ∧ crashed e' = crashed e ∧ Forall (λ a, closing a = false) before.
Proof.
  unfold run_section. destruct (crashed e) eqn:Hc; [done|]. intros Hr Hp Hcl. cbn zeta in Hr.
  destruct a as [| | |L|L| | |]; try done; rewrite ?Hp in Hr.
  - injection Hr as <- <- <-. exists p. split_and!; try done; [|by left|].
    + match goal with |- context [if ?b then _ else _] => destruct b end; cbn; lia.
    + match goal with |- context [if ?b then _ else _] => destruct b end; by repeat constructor.
  - injection Hr as <- <- <-. exists p. cbn. split_and!; try done; try lia; by left.
  - destruct (pool_get p (made e)) as [[[L0|] p'] n'] eqn:Eg; apply lstate_get_spec in Eg as [Hmax Eg]; injection Hr as <- <- <-.
    + exists p'. cbn. split_and!; try done; [| |by repeat constructor].
      * destruct Eg as [(Hps&Hcur&_)|(Hps&Hps'&_&_&Hcur&_)]; rewrite Hps, ?Hps', Hcur; rewrite ?length_app; cbn; lia.
      * destruct Eg as [(_&Hcur&_)|(_&_&_&_&Hcur&Hlt)]; [left|right]; lia.
    + destruct Eg as [-> _]. exists p. cbn. split_and!; try done; try lia; try (by left); by repeat constructor.
  - injection Hr as <- <- <-. exists p. destruct o; cbn; split_and!; try done; try lia; by left.
  - injection Hr as <- <- <-. exists (pool_put L p). cbn. unfold pool_put.
    destruct (_ <=? _); cbn; rewrite ?length_app; cbn; split_and!; try done; try lia; left; lia.
  - injection Hr as <- <- <-. exists p. cbn. split_and!; try done; try lia; by left.
Qed.

Definition no_close (ev : lua_event) : Prop := ev ≠ Act CloseEngine.

Lemma unclosed_step size w ev w' : no_close ev → step w ev = Some w' → unclosed size w → unclosed size w'.
Proof.
  intros Hno Hst [(p&Hp&Hcur&Hle&Hmax) Hal Hth]. destruct ev as [k o|c].
  - cbn in Hst. destruct (threads w !! k) as [[|a rest]|] eqn:Hk; cbn in Hst; [done| |done].
    destruct (run_section a o (shared w)) as [[[s before] started]|] eqn:Hs; [|done]. cbn in Hst. injection Hst as <-.
    apply run_starts_none in Hs as Hn. subst started.
    pose proof (Forall_lookup_1 _ _ _ _ Hth Hk) as [Ha Hrest]%Forall_cons.
    destruct (section_unclosed _ _ _ _ _ _ _ Hs Hp Ha) as (p'&Hp'&Hm&Hc&Hb&Hal'&Hbef).
    split; cbn [shared threads]; [|congruence|].
    + exists p'. rewrite (pending_run _ _ _ _ _ _ _ Hk). unfold pending at 2. cbn. split_and!; [done|lia|lia|lia].
    + apply Forall_app. split; [|done]. apply Forall_insert; [done|]. by apply Forall_app.
  - cbn in Hst. unfold act in Hst. rewrite Hal in Hst. cbn in Hst. injection Hst as <-.
    destruct c; [|done]. split; cbn [shared threads]; [|done|].
    + exists p. rewrite pending_call. cbn. split_and!; [done|lia|done|done].
    + apply Forall_app. split; [done|]. by repeat constructor.
Qed.

Definition pool_limit (cfg : EngineConfig) : Z :=
  Z.max (if LStatePoolInitialSize cfg <=? 0 then 10 else LStatePoolInitialSize cfg)
        (if LStatePoolMaxSize cfg <=? 0 then 100 else LStatePoolMaxSize cfg).

Lemma run_unclosed cfg es w :
  Forall no_close es → run (started cfg) es = Some w → unclosed (pool_limit cfg) w.
Proof.
  assert (unclosed (pool_limit cfg) (started cfg)) as H0.
  { unfold started, NewEngine, NewLStatePool, pool_limit. split; cbn [shared threads lstatePool crashed]; [|done|done].
    eexists. split; [done|]. cbn [current pool_states maxSize]. rewrite length_seq.
    change (pending holds_state []) with 0. destruct (Z.leb_spec (LStatePoolInitialSize cfg) 0); lia. }
  revert H0. generalize (started cfg). intros w0 H0 Hes. revert w0 H0.
  induction Hes as [|ev es Hev _ IH]; intros w0 H0; cbn; [by intros [= <-]|].
  destruct (step w0 ev) as [w1|] eqn:Hst; cbn; [|done]. apply IH. by eapply unclosed_step.
Qed.

(** As long as the engine is open, the states in the pool and those of requests are no
    more than the pool may hold, or began with; the pool counts them; and when all is
    done every state is back. *)
Theorem states_bounded (cfg : EngineConfig) (es : list lua_event) (w : lua_world) :
  Forall no_close es → run (started cfg) es = Some w →
  zlen (idle w) + zlen (busy w) ≤ pool_limit cfg ∧ crashed (shared w) = false ∧
  current <$> lstatePool (shared w) = Some (zlen (idle w) + zlen (busy w)) ∧ (quiet w → busy w = []).
Proof.
  intros Hes Hr. destruct (run_unclosed _ _ _ Hes Hr) as [(p&Hp&Hcur&Hle&_) Hal _].
  unfold idle. rewrite busy_holds, Hp. cbn. split_and!; [lia|done|by f_equal|]. intros Hq.
  pose proof (busy_holds w) as Hb. rewrite pending_quiet in Hb by done. apply length_zero_iff_nil. lia.
Qed.

(** *** Closing *)

(** C26: Once the engine has dropped its pool, a request that has a state cannot give it back:
    whatever happens, the requests that had states still have them, and the next of them
    that ends takes the process down. *)
Theorem close_crashes_requests (w w' : lua_world) (es : list lua_event) :
  lstatePool (shared w) = None → busy w ≠ [] → run w es = Some w' →
  busy w' ≠ [] ∧
  ∀ k L rest o, threads w' !! k = Some (NPut L :: rest) → crashed (shared w') = false →
    ∃ w2, step w' (Run k o) = Some w2 ∧ crashed (shared w2) = true.
Proof.
  intros Hp Hb Hr.
  assert (lstatePool (shared w') = None ∧ 0 < pending holds_state (threads w')) as [Hp' Hb'].
  { assert (0 < pending holds_state (threads w)) as Hb0.
    { rewrite <-busy_holds. destruct (busy w); [done|]. cbn. lia. }
    clear Hb. revert w Hp Hb0 Hr. induction es as [|ev es IH]; intros w Hp Hb0; cbn; [by intros [= <-]|].
    destruct (step w ev) as [w1|] eqn:Hst; cbn; [|done]. apply step_stepped in Hst.
    apply IH; destruct Hst as [k a rest o s before Hk Hs|t _ Hc]; cbn [shared threads]; try done.
    - unfold run_section in Hs. rewrite Hp in Hs. repeat (case_match; simplify_eq; try done).
    - rewrite (pending_run _ _ _ _ _ _ _ Hk). unfold pending at 2. cbn.
      assert (holds_state a ≤ sum_over holds_state before); [|lia].
      unfold run_section in Hs. rewrite Hp in Hs. destruct (crashed (shared w)); [done|].
      destruct a; injection Hs as <- <-; try match goal with |- context [if ?b then _ else _] => destruct b end; cbn; lia.
    - rewrite pending_call. destruct Hc as [-> | ->]; cbn; lia. }
  split; [intros Hn; rewrite <-busy_holds, Hn in Hb'; cbn in Hb'; lia|].
  intros k L rest o Hk Hal. cbn. rewrite Hk. cbn. unfold run_section. rewrite Hal, Hp'. cbn. by eexists.
Qed.

(** ** Examples *)

Definition ex_engine : EngineConfig := mkEngineConfig 2 0 0 0 true 0 false false false 1 2 0 false 0.
Definition steps (k n : nat) : list lua_event := replicate n (Run k Executed).

(** Two requests have a state each; the third is refused. *)
Definition ex_three : list lua_event :=
  [Act Request; Act Request; Act Request] ++ steps 0 2 ++ steps 1 2 ++ steps 2 2.
Example ex_three_run :
  (λ w, (idle w, busy w, activeCount (shared w))) <$> run (started ex_engine) ex_three = Some ([], [0; 1]%nat, 2).
Proof. by vm_compute. Qed.

(** A stop of the server while a request runs a script, and the request's end. *)
Definition ex_stop : list lua_event := [Act Request] ++ steps 0 3 ++ [Act CloseEngine] ++ steps 1 2.
Lemma ex_stop_run : (λ w, (lstatePool (shared w), busy w)) <$> run (started ex_engine) ex_stop = Some (None, [0%nat]).
Proof. by vm_compute. Qed.
Example ex_stop_crashes :
  (λ w, crashed (shared w)) <$> run (started ex_engine) (ex_stop ++ [Run 0 Executed]) = Some true.
Proof. by vm_compute. Qed.

Lemma reached {B} (f : lua_world → B) cfg es y : f <$> run (started cfg) es = Some y → ∃ w, run (started cfg) es = Some w ∧ f w = y.
Proof. destruct (run (started cfg) es) as [w|]; [|done]. intros [= <-]. by exists w. Qed.

Lemma states_exclusive_witness :
  ∃ w, run (started ex_engine) ex_three = Some w ∧ NoDup (idle w ++ busy w).
Proof.
  destruct (reached _ _ _ _ ex_three_run) as (w&Hw&_). exists w. split; [exact Hw|]. exact (states_exclusive _ _ _ Hw).
Defined.

Lemma coroutines_bounded_witness :
  ∃ w, run (started ex_engine) ex_three = Some w ∧
    ((zlen (threads w) < 2 ^ 31 → coroutines w ≤ 2) ∧ (quiet w → activeCount (shared w) = 0)).
Proof.
  destruct (reached _ _ _ _ ex_three_run) as (w&Hw&_). exists w. split; [exact Hw|]. exact (coroutines_bounded _ _ _ Hw).
Defined.

Lemma states_bounded_witness :
  ∃ w, run (started ex_engine) ex_three = Some w ∧ zlen (idle w) + zlen (busy w) ≤ 2.
Proof.
  destruct (reached _ _ _ _ ex_three_run) as (w&Hw&_). exists w. split; [exact Hw|].
  apply (states_bounded ex_engine ex_three w); [|exact Hw]. by repeat constructor.
Defined.

Lemma close_crashes_requests_witness :
  ∃ w, run (started ex_engine) ex_stop = Some w ∧ busy w ≠ [].
Proof.
  destruct (reached _ _ _ _ ex_stop_run) as (w&Hw&Hf). exists w. split; [exact Hw|].
  injection Hf as Hp Hb. apply (close_crashes_requests w w []); [exact Hp|by rewrite Hb|reflexivity].
Defined.

(** The watching of files is on whatever the configuration says. *)
Theorem file_watch_always_on luaCfg cfg : initLuaEngine luaCfg = Some cfg → EnableFileWatch cfg = true.
Proof. unfold initLuaEngine. destruct luaCfg as [c|]; [|done]. cbn. destruct (lua_Enabled c); [|done]. by intros [= <-]. Qed.
