(* ===== verification/Server.v ===== *)
(** * Server: what a server registers, and the endpoints of its own

    [src/internal/server/router.go], and of [server.go], [status.go], [purge.go],
    [pprof.go] and [healthz.go] the routes of the three modes and the handlers of the
    monitoring endpoints. In single mode routes go to the location engine of
    [Location.v]; in the others to the router of [handler/router.go], which is
    fasthttp's: what is registered with it, method by method, is a table.
    A proxy is the parts that [NewProxy] makes of its configuration; its clients are
    those of [Upstream.v].

    Shown: whatever else is configured, the monitoring endpoints of single mode answer
    their paths, the first that claims a path ([monitoring_reachable]); the start fails
    exactly at a location with an invalid expression ([start_fails_iff]); the handler of
    profiles is only reached with paths below its own ([pprof_in_range]); the other modes
    know five methods ([router_methods]), make the default server's proxies twice
    ([default_proxies_twice]) and ignore the types of locations. *)

From S2P Require Import Prelude GoStrings ProxyCache Config NetIP VHost Radix Location Target Balancer Sticky Selector ReqVars ProxyHeaders Health Http.

(** ** The monitoring endpoints *)

(** [StatusHandler], [PprofHandler] and [PurgeHandler]: path and allowed networks. *)
Record StatusHandler := mkStatusHandler { sh_path : gostring; sh_format : gostring; sh_allowed : list IPNet }.
Record PprofHandler := mkPprofHandler { ph_path : gostring; ph_allowed : list IPNet }.
Record PurgeHandler := mkPurgeHandler { pu_path : gostring; pu_allowed : list IPNet; pu_auth : CacheAPIAuthConfig }.

Definition or_path (path d : gostring) : gostring := if decide (path = []) then d else path.

Definition NewStatusHandler (cfg : StatusConfig) : option StatusHandler :=
  allowed ← ParseIPAllowList (sx_Allow cfg);
  Some (mkStatusHandler (sx_Path cfg) (or_path (sx_Format cfg) (go!"json")) allowed).
Definition Status_Path (h : StatusHandler) : gostring := or_path (sh_path h) (go!"/_status").

Definition NewPprofHandler (cfg : PprofConfig) : option PprofHandler :=
  allowed ← ParseIPAllowList (pp_Allow cfg);
  let allowed := match allowed with [] => default [] (ParseIPAllowList [go!"localhost"]) | _ => allowed end in
  Some (mkPprofHandler (or_path (pp_Path cfg) (go!"/debug/pprof")) allowed).

Definition NewPurgeHandler (cfg : CacheAPIConfig) : option PurgeHandler :=
  allowed ← ParseIPAllowList (ca_Allow cfg);
  Some (mkPurgeHandler (or_path (ca_Path cfg) (go!"/_cache/purge")) allowed (ca_Auth cfg)).

(** ** Proxies *)

(** A target with a limit of failures has a time-out of ten seconds if it has none. *)
Definition target_of (hostname : gostring → gostring) (t : ProxyTarget) : Target :=
  let failTimeout := if (0 <? tg_MaxFails t) && (tg_FailTimeout t =? 0) then 10 * second else tg_FailTimeout t in
  NewTargetFromConfig (hostname (tg_URL t)) (tg_URL t) (tg_Weight t) (tg_MaxConns t) (tg_MaxFails t) failTimeout
    (tg_Backup t) (tg_Down t) (tg_ProxyURI t).

(** The cache of a proxy: one rule for its path when the configuration gives an age. *)
Definition cache_rules (cfg : ProxyConfig) : list ProxyCacheRule :=
  let c := px_Cache cfg in
  if 0 <? pc_MaxAge c then
    [mkRule (px_Path cfg) (match pc_Methods c with [] => [go!"GET"; go!"HEAD"] | ms => ms end) [] (pc_MaxAge c)]
  else [].
Definition cache_of (cfg : ProxyConfig) : option ProxyCache :=
  let c := px_Cache cfg in
  if pc_Enabled c then
    Some (NewProxyCache (cache_rules cfg) (pc_CacheLock c) (pc_StaleWhileRevalidate c) (pc_StaleIfError c) (pc_StaleIfTimeout c))
  else None.

Section Server.
(** The host names of URLs, the numbers of the random balancers, and a bound on the
    nesting of sticky balancers (see Sticky.v; 2 is enough for all that end). *)
Context `{Regexp} (hostname : gostring → gostring) (numbers : list nat) (fuel : nat).

Record Proxy := mkProxy {
  po_config : ProxyConfig; po_targets : list Target; po_balancer : Sticky.balancer;
  po_fallback : Sticky.balancer; po_cache : option ProxyCache; po_rewriter : RedirectRewriter;
  po_cacheIgnoreSet : gset gostring }.

(** [None] when the construction does not end, [Some None] for an error. *)
Definition NewProxy (cfg : ProxyConfig) (targets : list Target) : option (option Proxy) :=
  match targets with
  | [] => Some None
  | _ =>
      r ← new_balancers numbers fuel cfg;
      Some (match r with
            | Err _ => None
            | Ok (b, fb) =>
                rw ← NewRedirectRewriter (px_RedirectRewrite cfg) (px_Path cfg);
                Some (mkProxy cfg targets b fb (cache_of cfg) rw (list_to_set (map ToLower (pc_CacheIgnoreHeaders (px_Cache cfg)))))
            end)
  end.

(** The proxy, and whether its targets are checked. *)
Definition createProxyForConfig (cfg : ProxyConfig) : option (option (Proxy * bool)) :=
  p ← NewProxy cfg (map (target_of hostname) (px_Targets cfg));
  Some (p ← p; Some (p, 0 <? c_Interval (px_HealthCheck cfg))).

(** ** Routes *)

Inductive endpoint :=
  | EStatus (h : StatusHandler) | EHealthz | EReadyz | EPprof (h : PprofHandler) | EPurge (h : PurgeHandler)
  | EProxy (p : Proxy) | ELua (script : gostring) (timeout : Z) | EStatic (s : Config.StaticConfig).

(** Type, path, handler, and whether the location is internal. *)
Record route := mkRoute { rt_type : gostring; rt_path : gostring; rt_endpoint : endpoint; rt_internal : bool }.

Definition exact_route (path : gostring) (e : endpoint) : route := mkRoute LocationTypeExact path e false.

Definition status_handler (m : MonitoringConfig) : option StatusHandler :=
  if sx_Enabled (mo_Status m) then NewStatusHandler (mo_Status m) else None.
Definition pprof_handler (m : MonitoringConfig) : option PprofHandler :=
  if pp_Enabled (mo_Pprof m) then NewPprofHandler (mo_Pprof m) else None.
Definition purge_handler (srv : ServerConfig) : option PurgeHandler :=
  match srv_CacheAPI srv with
  | Some c => if ca_Enabled c then NewPurgeHandler c else None
  | None => None
  end.

(** The order of [startSingleMode]; an endpoint whose networks are not read is logged
    and left out. *)
Definition monitoring_routes (m : MonitoringConfig) (srv : ServerConfig) : list route :=
  match status_handler m with Some h => [exact_route (Status_Path h) (EStatus h)] | None => [] end ++
  (if hz_Enabled (mo_Healthz m) then [exact_route (or_path (hz_Path (mo_Healthz m)) (go!"/healthz")) EHealthz] else []) ++
  (if rz_Enabled (mo_Readyz m) then [exact_route (or_path (rz_Path (mo_Readyz m)) (go!"/readyz")) EReadyz] else []) ++
  match pprof_handler m with
  | Some h => [exact_route (ph_path h) (EPprof h);
               mkRoute LocationTypePrefixPriority (ph_path h ++ go!"/") (EPprof h) false]
  | None => []
  end ++
  match purge_handler srv with Some h => [exact_route (pu_path h) (EPurge h)] | None => [] end.

Definition location_type (t : gostring) : gostring := or_path t LocationTypePrefix.

(** [registerProxyRoutesWithLocationEngine] up to the registration. *)
Definition proxy_route (cfg : ProxyConfig) (p : Proxy) : route :=
  let locType := location_type (px_LocationType cfg) in
  let path := if decide (locType = LocationTypeNamed ∧ px_LocationName cfg ≠ [])
              then "@"%char :: px_LocationName cfg else px_Path cfg in
  mkRoute locType path (EProxy p) (px_Internal cfg).
Fixpoint proxies_of (cfgs : list ProxyConfig) : option (list (ProxyConfig * Proxy)) :=
  match cfgs with
  | [] => Some []
  | cfg :: cfgs =>
      p ← createProxyForConfig cfg; ps ← proxies_of cfgs;
      Some (match p with Some (p, _) => (cfg, p) :: ps | None => ps end)
  end.

(** [registerLuaRoutesWithLocationEngine]; [engine] is whether there is one. *)
Definition lua_scripts (engine : bool) (srv : ServerConfig) : list LuaScriptConfig :=
  match srv_Lua srv with
  | Some l => if engine && lua_Enabled l then filter (λ s, ls_Route s ≠ []) (lua_Scripts l) else []
  | None => []
  end.
Definition lua_endpoint (s : LuaScriptConfig) : endpoint :=
  ELua (ls_Path s) (if ls_Timeout s =? 0 then 30 * second else ls_Timeout s).
Definition lua_route (s : LuaScriptConfig) : route :=
  mkRoute (location_type (ls_RouteType s)) (ls_Route s) (lua_endpoint s) false.

Definition static_route (s : Config.StaticConfig) : route :=
  mkRoute (location_type (Config.st_LocationType s)) (or_path (Config.st_Path s) (go!"/")) (EStatic s) (Config.st_Internal s).

(** Everything that single mode registers, in order. *)
Definition single_routes (engine : bool) (m : MonitoringConfig) (srv : ServerConfig) : option (list route) :=
  ps ← proxies_of (srv_Proxy srv);
  Some (monitoring_routes m srv ++ map (λ '(cfg, p), proxy_route cfg p) ps ++
        map lua_route (lua_scripts engine srv) ++ map static_route (srv_Static srv)).

(** The registration goes on after a conflict and ends with another error. *)
Fixpoint register_loop (e : LocationEngine endpoint) (rs : list route) : LocationEngine endpoint * option engine_error :=
  match rs with
  | [] => (e, None)
  | r :: rs =>
      match registerRoute e (rt_type r) (rt_path r) (Some (rt_endpoint r)) (rt_internal r) with
      | (e, Some err) => (e, Some err)
      | (e, None) => register_loop e rs
      end
  end.

(** [startSingleMode] up to the base handler, which is [dispatch] of the engine. *)
Definition start_engine (rs : list route) : res engine_error (LocationEngine endpoint) :=
  match register_loop NewLocationEngine rs with
  | (_, Some err) => Err err
  | (e, None) => Ok (EngineMarkInitialized e)
  end.
Definition startSingleMode (engine : bool) (m : MonitoringConfig) (srv : ServerConfig) :
    option (res engine_error (LocationEngine endpoint)) :=
  rs ← single_routes engine m srv; Some (start_engine rs).

(** ** The router of the other modes *)

Record entry := mkEntry { en_method : gostring; en_pattern : gostring; en_endpoint : endpoint }.
Definition table := list entry.

Definition all_methods : list gostring := [go!"GET"; go!"POST"; go!"PUT"; go!"DELETE"; go!"HEAD"].
Definition entries_for (methods : list gostring) (pattern : gostring) (e : endpoint) : table :=
  map (λ m, mkEntry m pattern e) methods.
Definition with_slash (path : gostring) : gostring := if HasSuffix path (go!"/") then path else path ++ go!"/".

(** [registerMonitoringEndpoints] *)
Definition monitoring_entries (m : MonitoringConfig) (srv : ServerConfig) (isDefault : bool) : table :=
  if isDefault then
    match status_handler m with Some h => [mkEntry (go!"GET") (Status_Path h) (EStatus h)] | None => [] end ++
    match pprof_handler m with
    | Some h => entries_for [go!"GET"] (ph_path h) (EPprof h) ++ entries_for [go!"GET"] (ph_path h ++ go!"/{profile:*}") (EPprof h)
    | None => []
    end ++
    match purge_handler srv with Some h => [mkEntry (go!"POST") (pu_path h) (EPurge h)] | None => [] end ++
    (if hz_Enabled (mo_Healthz m) then [mkEntry (go!"GET") (or_path (hz_Path (mo_Healthz m)) (go!"/healthz")) EHealthz] else []) ++
    (if rz_Enabled (mo_Readyz m) then [mkEntry (go!"GET") (or_path (rz_Path (mo_Readyz m)) (go!"/readyz")) EReadyz] else [])
  else [].

(** [registerProxyRoutes] *)
Definition proxy_entries (cfg : ProxyConfig) (p : Proxy) : table :=
  entries_for all_methods (with_slash (px_Path cfg) ++ go!"{path:*}") (EProxy p).
(** [registerLuaRoutes] *)
Definition lua_entries (s : LuaScriptConfig) : table :=
  entries_for all_methods
    (if decide (ls_RouteType s = go!"exact") then ls_Route s else with_slash (ls_Route s) ++ go!"{path:*}") (lua_endpoint s).
(** [registerStaticHandlers] *)
Definition static_entries (s : Config.StaticConfig) : table :=
  entries_for [go!"GET"; go!"HEAD"] (with_slash (or_path (Config.st_Path s) (go!"/")) ++ go!"{filepath:*}") (EStatic s).

(** The router of a virtual host, and those of a default server and of one of several. *)
Definition host_table (srv : ServerConfig) : option table :=
  ps ← proxies_of (srv_Proxy srv);
  Some (concat (map (λ '(cfg, p), proxy_entries cfg p) ps) ++ concat (map static_entries (srv_Static srv))).
Definition default_table (m : MonitoringConfig) (srv : ServerConfig) : option table :=
  t ← host_table srv; Some (monitoring_entries m srv true ++ t).
Definition server_table (engine : bool) (m : MonitoringConfig) (srv : ServerConfig) : option table :=
  ps ← proxies_of (srv_Proxy srv);
  Some (monitoring_entries m srv (srv_Default srv) ++ concat (map (λ '(cfg, p), proxy_entries cfg p) ps) ++
        concat (map lua_entries (lua_scripts engine srv)) ++ concat (map static_entries (srv_Static srv))).

(** [startVHostMode]: the hosts, the default, and all the proxies that were made. *)
Fixpoint host_tables (cfgs : list ServerConfig) : option (list (list gostring * gostring * table)) :=
  match cfgs with
  | [] => Some []
  | s :: cfgs => t ← host_table s; ts ← host_tables cfgs; Some ((srv_ServerNames s, srv_Name s, t) :: ts)
  end.
Definition vhost_manager (cfg : Config) : option (option (VHostManager (Hd := table))) :=
  ts ← host_tables (cfg_Servers cfg);
  match GetDefaultServerFromList cfg with
  | Some d =>
      t ← default_table (cfg_Monitoring cfg) d;
      Some (v ← register_vhosts NewVHostManager ts; Some (SetDefault v t))
  | None => Some (register_vhosts NewVHostManager ts)
  end.

(** The proxies that a start appends to those of the server. *)
Definition proxies_made (mode : ServerMode) (cfg : Config) : option (list Proxy) :=
  let made s := (λ ps, ps.*2) <$> proxies_of (srv_Proxy s) in
  if decide (mode = ServerModeVHost) then
    all ← mapM made (cfg_Servers cfg);
    match GetDefaultServerFromList cfg with
    | Some d => again ← made d; Some (concat all ++ again)
    | None => Some (concat all)
    end
  else if decide (mode = ServerModeMultiServer) then all ← mapM made (cfg_Servers cfg); Some (concat all)
  else match cfg_Servers cfg with [] => Some [] | s :: _ => made s end.
End Server.

(** ** The handlers *)

Section Handlers.
Context {F : FastHTTP} {E : Type} (ip_string : IP → gostring).
Abbreviation Ctx := (Http.Ctx E).

Definition quoted (s : gostring) : gostring := ["034"%char] ++ s ++ ["034"%char].
Definition json_status (s rest : gostring) : gostring :=
  go!"{" ++ quoted (go!"status") ++ go!":" ++ quoted s ++ rest ++ go!"}".

Definition HealthzHandler (c : Ctx) : Ctx :=
  set_body (set_status (put_header c (go!"Content-Type") (go!"application/json")) 200) (json_status (go!"ok") []).

Definition buildReasonsJSON (reasons : list gostring) : gostring :=
  match reasons with
  | [] => json_status (go!"not ready") []
  | _ => json_status (go!"not ready")
           (go!"," ++ quoted (go!"reasons") ++ go!":[" ++ GoStrings.Join (map quoted reasons) (go!",") ++ go!"]")
  end.

(** [DefaultReadyzChecker]: the proxies are counted, and the count is not used. *)
Definition DefaultReadyzChecker (running : bool) (proxies : nat) : bool * list gostring :=
  if negb running then (false, [go!"server not running"])
  else if (proxies =? 0)%nat then (true, []) else (true, []).

Definition ReadyzHandler (checker : bool * list gostring) (c : Ctx) : Ctx :=
  let c := put_header c (go!"Content-Type") (go!"application/json") in
  if checker.1 then set_body (set_status c 200) (json_status (go!"ready") [])
  else set_body (set_status c 503) (buildReasonsJSON checker.2).

(** [isAllowed]: the address of the connection, printed and read again. *)
Definition pprof_isAllowed (h : PprofHandler) (c : Ctx) : bool :=
  match ph_allowed h with
  | [] => true
  | allowed =>
      match ParseIP (ip_string (match remote_ip (vars (rq c)) with [] => v4InV6Prefix ++ [0; 0; 0; 0] | ip => ip end)) with
      | Some ip => IPInAllowList ip allowed
      | None => false
      end
  end.

(** What the profiler writes, by name; [seconds] is that argument of the query. *)
Context (profile : gostring → gostring) (cpu_profile : Z → gostring) (seconds_arg : option gostring).

Definition cpu_seconds : Z :=
  match seconds_arg with
  | Some s => match Atoi s with Some sec => if 0 <? sec then sec else 30 | None => 30 end
  | None => 30
  end.
(** [time.Duration(seconds) * time.Second] *)
Definition cpu_duration : Z := swrap64 (cpu_seconds * second).

Definition index_row (path name title text : gostring) : gostring :=
  go!"<tr><td><a href=" ++ quoted (path ++ name) ++ go!">" ++ title ++ go!"</a></td><td>" ++ text ++ go!"</td></tr>" ++ ["010"%char].
Definition index_page (path : gostring) : gostring :=
  GoStrings.Join [go!"<html>"; go!"<head><title>Pprof Profiles</title></head>"; go!"<body>"; go!"<h1>Pprof Profiles</h1>"; go!"<table>"; []] ["010"%char] ++
  index_row path (go!"/profile?seconds=30") (go!"CPU Profile (30s)") (go!"CPU profile for 30 seconds") ++
  index_row path (go!"/heap") (go!"Heap Profile") (go!"Memory allocation profile (in-use)") ++
  index_row path (go!"/allocs") (go!"Allocs Profile") (go!"Memory allocation profile (allocations)") ++
  index_row path (go!"/goroutine") (go!"Goroutine Profile") (go!"Goroutine stack traces") ++
  index_row path (go!"/block") (go!"Block Profile") (go!"Blocking profile") ++
  index_row path (go!"/mutex") (go!"Mutex Profile") (go!"Mutex contention profile") ++
  go!"</table>" ++ ["010"%char] ++ go!"<p>Usage: curl " ++ path ++ go!"/profile?seconds=30 > cpu.pgo</p>" ++ ["010"%char] ++
  go!"</body>" ++ ["010"%char] ++ go!"</html>".

Definition stream_profile (c : Ctx) (b : gostring) : Ctx :=
  set_body (put_header c (go!"Content-Type") (go!"application/octet-stream")) b.

(** [PprofHandler.ServeHTTP]; [None] is the panic of a slice that is out of range. *)
Definition pprof_ServeHTTP (h : PprofHandler) (c : Ctx) : option Ctx :=
  if negb (pprof_isAllowed h c) then Some (set_body (set_status c 403) (go!"Forbidden"))
  else
    let path := rq_path (vars (rq c)) in
    if (length path <? length (ph_path h))%nat then None
    else
      let subPath := drop (length (ph_path h)) path in
      Some (
        if decide (subPath = [] ∨ subPath = go!"/") then
          set_body (put_header c (go!"Content-Type") (go!"text/html; charset=utf-8")) (index_page (ph_path h))
        else if decide (subPath = go!"/profile") then stream_profile c (cpu_profile cpu_duration)
        else if decide (subPath ∈ [go!"/heap"; go!"/goroutine"; go!"/block"; go!"/mutex"; go!"/allocs"]) then
          stream_profile c (profile (drop 1 subPath))
        else set_body (set_status c 404) (go!"Unknown profile: " ++ subPath)).

(** The base handler of single mode: the endpoint of the location, or 404. *)
Definition base_handler `{Regexp} (serve : endpoint → Ctx → option Ctx) (e : LocationEngine endpoint) (c : Ctx) : option Ctx :=
  match dispatch e (rq_path (vars (rq c))) with
  | Some ep => serve ep c
  | None => Some (set_body (set_status c 404) (go!"Not Found"))
  end.

(** [trackStats]: requests, and the bytes of bodies. *)
Record counters := mkCounters { requests : Z; bytesReceived : Z; bytesSent : Z }.
Definition trackStats (h : Ctx → option Ctx) (body_length : Ctx → Z) (s : counters) (c : Ctx) : option (Ctx * counters) :=
  let s := mkCounters (swrap64 (requests s + 1)) (swrap64 (bytesReceived s + body_length c)) (bytesSent s) in
  c' ← h c;
  Some (c', mkCounters (requests s) (bytesReceived s) (swrap64 (bytesSent s + zlen (rs_body (rs c'))))).
End Handlers.

(** The profiler of the CPU, which all requests share ([pprof_impl.go]). *)
Record profiler := mkProfiler { cpuProfileActive : bool; profiled_for : option nat }.
Definition startCPUProfile (request : nat) (p : profiler) : profiler :=
  if cpuProfileActive p then p else mkProfiler true (Some request).
Definition stopCPUProfile (p : profiler) : profiler :=
  if cpuProfileActive p then mkProfiler false None else p.

(** A second request writes nothing, and when its time is over it ends the profile of
    the first. *)
Example second_profile_ends_first :
  profiled_for (startCPUProfile 2 (startCPUProfile 1 (mkProfiler false None))) = Some 1%nat ∧
  stopCPUProfile (startCPUProfile 2 (startCPUProfile 1 (mkProfiler false None))) = mkProfiler false None.
Proof. done. Qed.

(** ** Properties *)

Section Properties.
Context `{Regexp} (hostname : gostring → gostring) (numbers : list nat) (fuel : nat).

Definition reg_of (r : route) : reg (Hd := endpoint) :=
  let p := rt_path r in let h := rt_endpoint r in
  if decide (rt_type r = LocationTypeExact) then RExact p h (rt_internal r)
  else if decide (rt_type r = LocationTypePrefixPriority) then RPrefixPriority p h (rt_internal r)
  else if decide (rt_type r = LocationTypeRegex) then RRegex p h false (rt_internal r)
  else if decide (rt_type r = LocationTypeRegexCaseless) then RRegex p h true (rt_internal r)
  else if decide (rt_type r = LocationTypeNamed) then RNamed p h
  else RPrefix p h (rt_internal r).

Lemma registerRoute_apply e r :
  registerRoute e (rt_type r) (rt_path r) (Some (rt_endpoint r)) (rt_internal r) =
  ((apply_reg e (reg_of r)).1, (apply_reg e (reg_of r)).2 ≫= handleRegistrationError).
Proof.
  unfold registerRoute, reg_of.
  repeat (case_decide; [destruct (apply_reg _ _) as [e' [err|]] eqn:Ha; cbn in Ha; rewrite Ha; done|]).
  destruct (apply_reg _ _) as [e' [err|]] eqn:Ha; cbn in Ha; rewrite Ha; done.
Qed.

(** When nothing ends the start, the engine is the one of all the registrations. *)
Lemma register_loop_all rs : ∀ e e', register_loop e rs = (e', None) → e' = register_all e (map reg_of rs).
Proof.
  induction rs as [|r rs IH]; intros e e'; cbn [register_loop]; [by intros [= <-]|].
  rewrite registerRoute_apply. destruct (_ ≫= _) as [err|]; [done|]. intros Hl%IH. done.
Qed.

Lemma start_engine_of rs e : start_engine rs = Ok e → e = EngineMarkInitialized (engine_of (map reg_of rs)).
Proof.
  unfold start_engine. destruct (register_loop _ rs) as [e1 [err|]] eqn:Hl; [done|]. intros [= <-].
  by rewrite (register_loop_all _ _ _ Hl).
Qed.

(** *** What a request is given *)

Lemma spec_apply_incl (s : spec_engine (Hd := endpoint)) r : accepted (spec_apply s r).1 = accepted s ∨ accepted (spec_apply s r).1 = accepted s ++ [r].
Proof. unfold spec_apply, spec_accept. destruct (closed s); [by left|]. destruct r; repeat case_match; cbn; auto. Qed.

Lemma accepted_incl rs : ∀ s : spec_engine (Hd := endpoint), accepted (spec_register_all s rs) ⊆ accepted s ++ rs.
Proof.
  induction rs as [|r rs IH]; intros s; [cbn; by rewrite app_nil_r|].
  etrans; [exact (IH (spec_apply s r).1)|].
  destruct (spec_apply_incl s r) as [-> | ->]; set_solver.
Qed.

(** The endpoint that is dispatched to is one of a route that covers the path. *)
Definition covers (r : route) (path : gostring) : Prop :=
  match reg_of r with
  | RExact p _ _ => path = p
  | RPrefixPriority p _ _ | RPrefix p _ _ => p `prefix_of` path
  | RRegex p _ _ _ => ∃ re, regexp_Compile p = Some re ∧ MatchString re path = true
  | RNamed _ _ => False
  end.

Definition reg_endpoint (r : reg (Hd := endpoint)) : endpoint :=
  match r with RExact _ h _ | RPrefixPriority _ h _ | RRegex _ h _ _ | RPrefix _ h _ | RNamed _ h => h end.
Lemma reg_of_endpoint r : reg_endpoint (reg_of r) = rt_endpoint r.
Proof. unfold reg_of. repeat case_decide; done. Qed.

Lemma dispatch_covers rs e path ep :
  start_engine rs = Ok e → path ≠ [] → dispatch e path = Some ep → ∃ r, r ∈ rs ∧ rt_endpoint r = ep ∧ covers r path.
Proof.
  intros ->%start_engine_of Hne Hd. unfold dispatch in Hd.
  assert (match_spec (accepted (spec_of (map reg_of rs))) path (Match (EngineMarkInitialized (engine_of (map reg_of rs))) path)) as Hm.
  { apply (Match_refines _ (mkSpec (accepted (spec_of (map reg_of rs))) true)); [|done]. apply refines_close, engine_of_refines. }
  assert (∀ rg, rg ∈ accepted (spec_of (map reg_of rs)) → ∃ r, r ∈ rs ∧ reg_of r = rg) as Hin.
  { intros rg Hrg%accepted_incl. cbn in Hrg. apply list_elem_of_fmap in Hrg as (r&->&Hr). by exists r. }
  destruct Hm as [h int Hx|q h r _ Hx Hp Hh|st1 pat h ci st2 re r _ _ Hx _ Hc Hms Hh|q h r _ _ _ Hx Hp Hh|]; try done.
  - injection Hd as ->. destruct (Hin _ Hx) as (r&Hr&Ho). exists r. split_and!; [done| |unfold covers; by rewrite Ho].
    by rewrite <-reg_of_endpoint, Ho.
  - rewrite Hh in Hd. injection Hd as ->. destruct (Hin _ Hx) as (r'&Hr&Ho). exists r'.
    split_and!; [done|by rewrite <-reg_of_endpoint, Ho|unfold covers; by rewrite Ho].
  - rewrite Hh in Hd. injection Hd as ->. destruct (Hin (RRegex pat ep ci (r_Internal r))) as (r'&Hr&Ho); [rewrite Hx; set_solver|].
    exists r'. split_and!; [done|by rewrite <-reg_of_endpoint, Ho|unfold covers; rewrite Ho; by exists re].
  - rewrite Hh in Hd. injection Hd as ->. destruct (Hin _ Hx) as (r'&Hr&Ho). exists r'.
    split_and!; [done|by rewrite <-reg_of_endpoint, Ho|unfold covers; by rewrite Ho].
Qed.

(** *** The engine keeps the first claim of a path *)

Definition claims_path (r : reg (Hd := endpoint)) (p : gostring) : Prop := fst <$> claimed r = Some p.

Lemma apply_unclaimed r p e :
  ¬ claims_path r p → registeredPaths e !! p = None → registeredPaths (apply_reg e r).1 !! p = None.
Proof.
  intros Hc Hn. unfold claims_path in Hc.
  destruct r; cbn in *; unfold AddExact, AddPrefixPriority, AddRegex, AddPrefix, AddNamed, checkConflict;
    repeat case_match; simplify_eq; cbn; try done; rewrite lookup_insert_ne by congruence; done.
Qed.

Definition claimed_for (p : gostring) (ep : endpoint) (e : LocationEngine endpoint) : Prop :=
  exactMatchers e !! p = Some (NewExactMatcher p (Some ep) 1 false) ∧ registeredPaths e !! p = Some LocationTypeExact.

Lemma apply_claimed r p ep e : claimed_for p ep e → claimed_for p ep (apply_reg e r).1.
Proof.
  intros [Hx Hr]. unfold claimed_for.
  destruct r as [q h int|q h int|q h ci int|q h int|q h]; cbn;
    unfold AddExact, AddPrefixPriority, AddRegex, AddPrefix, AddNamed, checkConflict;
    (destruct (initialized e); [done|]); try (destruct (decide (q = p)) as [-> |Hq]; [by rewrite Hr|]);
    repeat case_match; simplify_eq; cbn; rewrite ?lookup_insert_ne by done; done.
Qed.

Lemma all_claimed rs p ep : ∀ e, claimed_for p ep e → claimed_for p ep (register_all e rs).
Proof. induction rs as [|r rs IH]; intros e He; [done|]. cbn. apply IH. by apply apply_claimed. Qed.

Lemma all_unclaimed rs p : ∀ e, Forall (λ r, ¬ claims_path r p) rs → registeredPaths e !! p = None →
  registeredPaths (register_all e rs) !! p = None.
Proof.
  induction rs as [|r rs IH]; intros e Hrs He; [done|]. apply Forall_cons in Hrs as [? ?]. cbn.
  apply IH; [done|]. by apply apply_unclaimed.
Qed.

Lemma register_all_initialized rs : ∀ e : LocationEngine endpoint, initialized e = false → initialized (register_all e rs) = false.
Proof.
  induction rs as [|r rs IH]; intros e He; [done|]. cbn. apply IH.
  destruct r; cbn; unfold AddExact, AddPrefixPriority, AddRegex, AddPrefix, AddNamed, checkConflict;
    repeat case_match; simplify_eq; done.
Qed.

Lemma first_claim rs1 rs2 p ep e :
  start_engine (rs1 ++ exact_route p ep :: rs2) = Ok e → Forall (λ r, ¬ claims_path (reg_of r) p) rs1 → dispatch e p = Some ep.
Proof.
  intros ->%start_engine_of Hrs1. unfold engine_of, register_all. rewrite map_app, foldl_app. cbn [map foldl].
  set (e1 := foldl _ NewLocationEngine (map reg_of rs1)).
  assert (registeredPaths e1 !! p = None) as Hun.
  { apply (all_unclaimed (map reg_of rs1) p NewLocationEngine); [|done]. by apply Forall_map. }
  assert (initialized e1 = false) as Hini by by apply (register_all_initialized (map reg_of rs1) NewLocationEngine).
  assert (claimed_for p ep (apply_reg e1 (reg_of (exact_route p ep))).1) as Hcl.
  { change (reg_of (exact_route p ep)) with (RExact p ep false). cbn. unfold AddExact, checkConflict. rewrite Hini, Hun. split; cbn; by rewrite lookup_insert_eq. }
  apply (all_claimed (map reg_of rs2)) in Hcl as [Hx _]. unfold register_all in Hx.
  unfold dispatch, Match. cbn. by rewrite Hx.
Qed.

(** C25: The monitoring endpoints of single mode answer their paths, whatever locations the
    configuration has: of those with the same path the first in the order status,
    healthz, readyz, pprof, purge. *)
Theorem monitoring_reachable (engine : bool) (m : MonitoringConfig) (srv : ServerConfig) e r1 r2 p ep :
  startSingleMode hostname numbers fuel engine m srv = Some (Ok e) →
  monitoring_routes m srv = r1 ++ exact_route p ep :: r2 → p ∉ map rt_path r1 → dispatch e p = Some ep.
Proof.
  unfold startSingleMode, single_routes. destruct (proxies_of _ _ _ _) as [ps|]; [|done]. cbn. intros [= He] Hm Hp.
  rewrite Hm, <-(assoc_L (++)) in He. eapply first_claim; [exact He|].
  apply Forall_forall. intros r Hr Hc. apply Hp. apply list_elem_of_fmap. exists r. split; [|done].
  unfold claims_path, reg_of in Hc. repeat case_decide; cbn in Hc; congruence.
Qed.

(** *** What ends the start *)

Lemma spec_apply_error (s : spec_engine (Hd := endpoint)) r :
  closed s = false →
  ((spec_apply s r).2 ≫= handleRegistrationError ≠ None ↔
    match r with RRegex p _ _ _ => regexp_Compile p = None | _ => False end) ∧
  closed (spec_apply s r).1 = false.
Proof.
  intros Hc. unfold spec_apply. rewrite Hc.
  destruct r; repeat case_match; simplify_eq; cbn; (split; [|done]); split; try done; congruence.
Qed.

Lemma register_loop_fails rs : ∀ e s, refines e s → closed s = false →
  ((register_loop e rs).2 ≠ None ↔
   ∃ r p h ci int, r ∈ rs ∧ reg_of r = RRegex p h ci int ∧ regexp_Compile p = None).
Proof.
  induction rs as [|r rs IH]; intros e s Hr Hc; cbn [register_loop].
  { split; [done|]. by intros (r&?&?&?&?&Hin%elem_of_nil&_). }
  rewrite registerRoute_apply. destruct (sim_apply _ _ (reg_of r) Hr) as [Herr Href]. rewrite Herr.
  destruct (spec_apply_error s (reg_of r) Hc) as [Hiff Hc']. specialize (IH _ _ Href Hc').
  destruct ((spec_apply s (reg_of r)).2 ≫= handleRegistrationError) as [err|].
  - split; [intros _|done]. pose proof (proj1 Hiff ltac:(done)) as Hinv. destruct (reg_of r) as [| |p h ci int| |] eqn:E; try done.
    exists r, p, h, ci, int. split_and!; [left|done..].
  - rewrite IH. split; intros (r'&p&h&ci&int&Hin&Ho&Hre); exists r', p, h, ci, int; (split; [|done]); [by right|].
    apply elem_of_cons in Hin as [-> |]; [|done]. exfalso. rewrite Ho in Hiff. by apply Hiff.
Qed.

(** Single mode does not start exactly when a location has an invalid expression: a path
    or a name that is taken is skipped, and nothing else fails. *)
Theorem start_fails_iff (rs : list route) :
  (∃ err, start_engine rs = Err err) ↔
  ∃ r p h ci int, r ∈ rs ∧ reg_of r = RRegex p h ci int ∧ regexp_Compile p = None.
Proof.
  rewrite <-(register_loop_fails rs NewLocationEngine (mkSpec [] false)); [|apply refines_new|done].
  unfold start_engine. destruct (register_loop _ rs) as [e [err|]]; cbn; split; [done|by eexists|by intros [? ?]|done].
Qed.

(** *** The handler of profiles *)

Lemma single_pprof engine m srv rs r h :
  single_routes hostname numbers fuel engine m srv = Some rs → r ∈ rs → rt_endpoint r = EPprof h →
  r = exact_route (ph_path h) (EPprof h) ∨ r = mkRoute LocationTypePrefixPriority (ph_path h ++ go!"/") (EPprof h) false.
Proof.
  unfold single_routes. destruct (proxies_of _ _ _ _) as [ps|]; [|done]. cbn. intros [= <-] Hin He.
  apply elem_of_app in Hin as [Hin|Hin].
  - unfold monitoring_routes in Hin. repeat case_match; set_unfold; naive_solver.
  - exfalso. apply elem_of_app in Hin as [([cfg p]&->&_)%list_elem_of_fmap|Hin]; [done|].
    by apply elem_of_app in Hin as [(s&->&_)%list_elem_of_fmap|(s&->&_)%list_elem_of_fmap].
Qed.

(** In single mode the handler of profiles, which cuts its own path off the path of the
    request without looking, is only reached with paths that begin with it, so that the
    cut is in range and it answers. *)
Theorem pprof_in_range {F : FastHTTP} {E : Type} ip_string profile cpu_profile seconds_arg engine m srv e h (c : Http.Ctx E) :
  startSingleMode hostname numbers fuel engine m srv = Some (Ok e) → rq_path (vars (rq c)) ≠ [] →
  dispatch e (rq_path (vars (rq c))) = Some (EPprof h) →
  is_Some (pprof_ServeHTTP ip_string profile cpu_profile seconds_arg h c).
Proof.
  unfold startSingleMode. destruct (single_routes _ _ _ _ _ _) as [rs|] eqn:Hrs; [|done]. cbn. intros [= He] Hne Hd.
  destruct (dispatch_covers _ _ _ _ He Hne Hd) as (r&Hin&Hep&Hcov).
  assert (ph_path h `prefix_of` rq_path (vars (rq c))) as Hpre.
  { destruct (single_pprof _ _ _ _ _ _ Hrs Hin Hep) as [-> | ->]; cbn in Hcov; [by rewrite Hcov|].
    etrans; [|exact Hcov]. by eexists. }
  unfold pprof_ServeHTTP. destruct (negb _); [done|].
  rewrite (proj2 (Nat.ltb_ge _ _)) by by apply prefix_length. done.
Qed.


(** *** The other modes *)

(** Among virtual hosts the proxies of the default server are made twice, with their
    health checks: once for its names and once for the default. *)
Theorem default_proxies_twice (cfg : Config) (d : ServerConfig) all :
  proxies_made hostname numbers fuel ServerModeVHost cfg = Some all → GetDefaultServerFromList cfg = Some d →
  ∃ ps l1 l2, proxies_of hostname numbers fuel (srv_Proxy d) = Some ps ∧ all = l1 ++ ps.*2 ++ l2 ++ ps.*2.
Proof.
  unfold proxies_made. rewrite decide_True by done. intros Hall Hd. rewrite Hd in Hall.
  destruct (mapM _ (cfg_Servers cfg)) as [made|] eqn:Hm; [|done]. cbn in Hall.
  destruct (proxies_of _ _ _ (srv_Proxy d)) as [ps|] eqn:Hps; [|done]. cbn in Hall. injection Hall as <-.
  apply find_some in Hd as [Hin _]. apply list_elem_of_In, list_elem_of_lookup in Hin as [i Hi].
  apply mapM_Some_1 in Hm. destruct (Forall2_lookup_l _ _ _ _ _ Hm Hi) as (l&Hl&Hmade).
  rewrite Hps in Hmade. cbn in Hmade. injection Hmade as <-.
  exists ps, (concat (take i made)), (concat (drop (S i) made)). split; [done|].
  rewrite <-(take_drop_middle made i _ Hl) at 1. rewrite concat_app. cbn. by rewrite <-!(assoc_L (++)).
Qed.

Lemma entries_for_method ms p ep en : en ∈ entries_for ms p ep → en_method en ∈ ms.
Proof. by intros (mt&->&Hmt)%list_elem_of_fmap. Qed.

Lemma in_tables {A} (f : A → table) l en :
  (∀ x, en ∈ f x → en_method en ∈ all_methods) → en ∈ concat (map f l) → en_method en ∈ all_methods.
Proof.
  intros Hf (l'&Hl&Hen)%list_elem_of_In%in_concat. apply in_map_iff in Hl as (x&<-&Hx).
  by apply (Hf x), list_elem_of_In.
Qed.

(** What the router of one of several servers has is for five methods: a request with
    another, as PATCH or OPTIONS, reaches no proxy and no script. *)
Theorem router_methods engine m srv t en :
  server_table hostname numbers fuel engine m srv = Some t → en ∈ t → en_method en ∈ all_methods.
Proof.
  unfold server_table. destruct (proxies_of _ _ _ _) as [ps|]; [|done]. cbn [mbind option_bind]. intros Ht Hin. injection Ht as <-.
  repeat setoid_rewrite elem_of_app in Hin. destruct Hin as [Hin|[Hin|[Hin|Hin]]].
  - unfold monitoring_entries in Hin. destruct (srv_Default srv); [|by apply elem_of_nil in Hin].
    unfold all_methods. repeat case_match; set_solver.
  - eapply in_tables, Hin. intros [cfg p]. apply entries_for_method.
  - eapply in_tables, Hin. intros x. apply entries_for_method.
  - eapply in_tables, Hin. intros x Hx%entries_for_method. unfold all_methods. set_solver.
Qed.

End Properties.

(** ** Examples *)

#[local] Instance ex_regexp : Regexp := {|
  regexp := gostring; regexp_Compile p := if bool_decide (p = go!"(") then None else Some p;
  MatchString re s := HasPrefix s re;
  FindStringSubmatch re s := if HasPrefix s re then Some [re] else None;
  SubexpNames _ := [[]]; regexp_String re := re |}.

Definition ex_static (path : gostring) : Config.StaticConfig :=
  Config.mkStaticConfig path (go!"/srv") [] [] [] false false [] false [] false [] false false.
Definition ex_proxy_config (path ty : gostring) : ProxyConfig :=
  let z := zero_ProxyConfig in
  mkProxyConfig (px_RedirectRewrite z) (px_ProxySSL z) (px_CacheValid z) (px_Buffering z)
    [mkProxyTarget (go!"http://b") 1 0 3 0 false false []] path [] [] [] [] (px_Headers z)
    (px_BalancerByLua z) (px_HealthCheck z) (px_NextUpstream z) (px_Cache z) (px_Timeout z) (px_LeastTime z)
    (px_Sticky z) 0 ty [] false.
Definition ex_srv (proxies : list ProxyConfig) (statics : list Config.StaticConfig) : ServerConfig :=
  mkServerConfig None None statics proxies [] [] [] (go!":80") zero_SecurityConfig zero_CompressionConfig zero_SSLConfig
    zero_UnixSocketConfig zero_LimitRateConfig zero_TypesConfig [] 0 0 0 0 0 0 0 0 true false false.
Definition ex_monitoring : MonitoringConfig :=
  mkMonitoringConfig (mkStatusConfig [] [] [] true) (mkPprofConfig [] [] true) (mkHealthzConfig [] true) (mkReadyzConfig [] true).
Definition kind_of (e : endpoint) : gostring :=
  match e with
  | EStatus _ => go!"status" | EHealthz => go!"healthz" | EReadyz => go!"readyz" | EPprof _ => go!"pprof"
  | EPurge _ => go!"purge" | EProxy p => go!"proxy " ++ px_Path (po_config p) | ELua s _ => go!"lua " ++ s
  | EStatic s => go!"static " ++ Config.st_Path s
  end.
Definition ex_site : ServerConfig := ex_srv [ex_proxy_config (go!"/api") []; ex_proxy_config (go!"/healthz") (go!"exact")] [ex_static (go!"/")].
Definition ex_engine_of (srv : ServerConfig) : option (res engine_error (LocationEngine endpoint)) :=
  startSingleMode id [] 3 false ex_monitoring srv.
Definition ex_asked (srv : ServerConfig) (path : gostring) : option gostring :=
  match ex_engine_of srv with Some (Ok e) => kind_of <$> dispatch e path | _ => None end.

Example ex_dispatched :
  map (ex_asked ex_site) [go!"/_status"; go!"/healthz"; go!"/debug/pprof/heap"; go!"/api/x"; go!"/x"] =
  map Some [go!"status"; go!"healthz"; go!"pprof"; go!"proxy /api"; go!"static /"].
Proof. by vm_compute. Qed.

(** A target with a limit of failures and no time-out. *)
Example ex_fail_timeout :
  map FailTimeout (map (target_of id) (px_Targets (ex_proxy_config (go!"/") []))) = [10 * second].
Proof. by vm_compute. Qed.

(** A location type means nothing to the router of the other modes. *)
Example exact_proxy_widened :
  (λ t, map en_pattern (take 1 t)) <$> host_table id [] 3 (ex_srv [ex_proxy_config (go!"/login") (go!"exact")] []) =
  Some [go!"/login/{path:*}"].
Proof. by vm_compute. Qed.

(** A server that runs is ready, whatever its proxies. *)
Example ready_without_proxies n : DefaultReadyzChecker true n = (true, []).
Proof. unfold DefaultReadyzChecker. by destruct n. Qed.

(** The length of a profile is that of the query, as an int64 of nanoseconds. *)
Example ex_cpu_duration : cpu_duration (Some (go!"86400")) = 86400 * second ∧ cpu_duration (Some (go!"9999999999")) < 0.
Proof. split; by vm_compute. Qed.

Definition is_started {A} (r : option (res engine_error A)) : bool := match r with Some (Ok _) => true | _ => false end.

Lemma ex_started : ∃ e, startSingleMode id [] 3 false ex_monitoring ex_site = Some (Ok e).
Proof.
  assert (is_started (startSingleMode id [] 3 false ex_monitoring ex_site) = true) as H by by vm_compute.
  destruct (startSingleMode _ _ _ _ _ _) as [[e|err]|]; [by exists e|done..].
Qed.

Lemma ex_routes_split : ∃ r1 r2,
  monitoring_routes ex_monitoring ex_site = r1 ++ exact_route (go!"/healthz") EHealthz :: r2 ∧ go!"/healthz" ∉ map rt_path r1.
Proof.
  exists (take 1 (monitoring_routes ex_monitoring ex_site)), (drop 2 (monitoring_routes ex_monitoring ex_site)).
  split; [by vm_compute|]. apply (bool_decide_unpack _). by vm_compute.
Qed.

(** A proxy asks for the path of the probe too. *)
Lemma monitoring_reachable_witness :
  ∃ e, startSingleMode id [] 3 false ex_monitoring ex_site = Some (Ok e) ∧ dispatch e (go!"/healthz") = Some EHealthz.
Proof.
  destruct ex_started as [e He]. destruct ex_routes_split as (r1&r2&Hm&Hp). exists e. split; [exact He|].
  exact (monitoring_reachable id [] 3 false ex_monitoring ex_site e r1 r2 (go!"/healthz") EHealthz He Hm Hp).
Defined.
