(* ===== verification/Convert.v ===== *)
(** * Convert: from an nginx configuration to one of lolly

    [converter/nginx/converter.go], over the directives of [NginxParser] and the
    records of [Config]. What the Go code appends to the shared result, the warnings
    and the logging section, is threaded through as [conversion]; [None] is a panic.
    Shown: which files make the converter panic, and what is lost of durations and
    addresses; [ConvertSpec] shows what the servers of a file become. *)

From S2P Require Import Prelude GoStrings GoTime NginxParser ProxyCache Config ConfigUpdate.

Record Warning := mkWarning { wn_Directive : gostring; wn_Line : Z; wn_File : gostring; wn_Message : gostring }.

(** What the conversion accumulates beside the servers: [result.Warnings] and
    [result.Config.Logging]. *)
Record conversion := mkConversion { warnings : list Warning; logging : LoggingConfig }.

Record upstreamInfo := mkUpstreamInfo { ui_Targets : list ProxyTarget; ui_LoadBalance : gostring }.

Record listenInfo := mkListen { li_Addr : gostring; li_IsSSL : bool; li_IsDefault : bool }.

Inductive location_type := LProxy | LStatic | LRedirect | LUnsupported.

Record locationClassification := mkLocation {
  lc_LocType : location_type; lc_Path : gostring; lc_Modifier : gostring; lc_Directives : list Directive }.

Definition unsupportedDirectives (name : gostring) : option gostring :=
  snd <$> head (filter (λ e, name = e.1) [
    (go!"if", go!"the 'if' directive is not supported; consider using map or rewrite");
    (go!"map", go!"the 'map' directive is not supported; use variables config instead");
    (go!"set", go!"the 'set' directive is not supported; use variables config instead");
    (go!"limit_req", go!"the 'limit_req' directive is not supported; use rate_limit config instead");
    (go!"limit_conn", go!"the 'limit_conn' directive is not supported");
    (go!"add_header", go!"the 'add_header' directive is not supported; use security.headers config instead");
    (go!"more_set_headers", go!"the 'more_set_headers' directive is not supported; use security.headers config instead");
    (go!"auth_request", go!"the 'auth_request' directive is not supported; use security.auth_request config instead");
    (go!"split_clients", go!"the 'split_clients' directive is not supported");
    (go!"geo", go!"the 'geo' directive is not supported; use access.geoip config instead");
    (go!"range", go!"the 'range' directive is not supported");
    (go!"return", go!"the 'return' directive is not supported for non-redirect status codes; only 301/302 are supported")]).

Definition warn (d : Directive) (msg : gostring) (c : conversion) : conversion :=
  mkConversion (warnings c ++ [mkWarning (Name d) (Line d) (File d) msg]) (logging c).

(** A warning that has no position. *)
Definition warn_at_nothing (name msg : gostring) (c : conversion) : conversion :=
  mkConversion (warnings c ++ [mkWarning name 0 [] msg]) (logging c).

Definition warn_unsupported (d : Directive) (c : conversion) : conversion :=
  match unsupportedDirectives (Name d) with Some msg => warn d msg c | None => c end.

Definition set_logging (l : LoggingConfig) (c : conversion) : conversion := mkConversion (warnings c) l.

(** The first argument. *)
Definition arg1 (d : Directive) : option gostring := head (Args d).

(** A loop over directives that may panic. *)
Fixpoint each_directive {A} (f : A → Directive → option A) (a : A) (ds : list Directive) : option A :=
  match ds with
  | [] => Some a
  | d :: ds => a ← f a d; each_directive f a ds
  end.

(** ** Values *)

(** [parseDuration]; [None] is the panic on a string of white space. *)
Definition parseDuration (s : gostring) : option Z :=
  if decide (s = []) then Some 0
  else
    match ParseDuration s with
    | Some d => Some d
    | None =>
        let s := TrimSpace s in
        unit ← last s;
        let numStr := take (length s - 1) s in
        Some (match Atoi numStr with
              | None => 0
              | Some value =>
                  if decide (unit = "s"%char) then swrap64 (value * second)
                  else if decide (unit = "m"%char) then swrap64 (value * minute)
                  else if decide (unit = "h"%char) then swrap64 (value * hour)
                  else if decide (unit = "d"%char) then swrap64 (swrap64 (value * 24) * hour)
                  else 0
              end)
    end.

Definition modifierToLocationType (modifier : gostring) : gostring :=
  if decide (modifier = go!"=") then go!"exact"
  else if decide (modifier = go!"^~") then go!"prefix_priority"
  else if decide (modifier = go!"~") then go!"regex"
  else if decide (modifier = go!"~*") then go!"regex_caseless"
  else if decide (modifier = go!"@") then go!"named"
  else [].

(** What follows the first occurrence of a separator: [strings.Cut]. *)
Definition cut_after (s sep : gostring) : option gostring := (λ i, drop (i + length sep) s) <$> Index s sep.

(** The bytes before the first slash or question mark. *)
Fixpoint host_part (s : gostring) : gostring :=
  match s with
  | c :: s' => if decide (c = "/"%char ∨ c = "?"%char) then [] else c :: host_part s'
  | [] => []
  end.

(** [extractUpstreamName]: empty when the URL does not name an upstream. *)
Definition extractUpstreamName (url : gostring) : gostring :=
  match cut_after url (go!"://") with
  | Some rest =>
      let host := host_part rest in
      if negb (Contains host (go!":")) && negb (Contains host (go!".")) && negb (bool_decide (host = [])) then host else []
  | None => []
  end.

(** [strings.ReplaceAll], of a text that is not empty; the fuel bounds its occurrences. *)
Fixpoint replace_all (fuel : nat) (s old new : gostring) : gostring :=
  match Index s old, fuel with
  | Some i, S fuel => take i s ++ new ++ replace_all fuel (drop (i + length old) s) old new
  | _, _ => s
  end.

Definition add_x_forwarded_for : gostring := go!"$proxy_add_x_forwarded_for".

Definition mapVariable (value : gostring) (d : Directive) (c : conversion) : gostring * conversion :=
  if Contains value add_x_forwarded_for then
    (replace_all (length value) value add_x_forwarded_for (go!"$remote_addr"),
     mkConversion (warnings c ++ [mkWarning (go!"proxy_set_header") (Line d) (File d)
       (go!"$proxy_add_x_forwarded_for is replaced with $remote_addr; lolly automatically appends to X-Forwarded-For")])
       (logging c))
  else (value, c).

(** ** Upstreams *)

Definition http_scheme : gostring := go!"http://".

(** [strings.CutPrefix] *)
Definition CutPrefix (s p : gostring) : option gostring := if HasPrefix s p then Some (drop (length p) s) else None.

(** One parameter of a server of an upstream. *)
Definition server_param (t : ProxyTarget) (arg : gostring) : option ProxyTarget :=
  match CutPrefix arg (go!"weight=") with
  | Some v => Some (match Atoi v with Some n => set_tg_Weight n t | None => t end)
  | None =>
  match CutPrefix arg (go!"max_fails=") with
  | Some v => Some (match Atoi v with Some n => set_tg_MaxFails n t | None => t end)
  | None =>
  match CutPrefix arg (go!"fail_timeout=") with
  | Some v => n ← parseDuration v; Some (set_tg_FailTimeout n t)
  | None =>
      Some (if decide (arg = go!"backup") then set_tg_Backup true t
            else if decide (arg = go!"down") then set_tg_Down true t else t)
  end end end.

Fixpoint server_params (t : ProxyTarget) (args : list gostring) : option ProxyTarget :=
  match args with
  | [] => Some t
  | a :: args => t ← server_param t a; server_params t args
  end.

(** [convertUpstreamServer]; [d.Args[1:]] panics when there is no argument. *)
Definition convertUpstreamServer (d : Directive) : option ProxyTarget :=
  match Args d with
  | [] => None
  | url :: args =>
      let url := if HasPrefix url http_scheme || HasPrefix url (go!"https://") then url else http_scheme ++ url in
      server_params (set_tg_URL url zero_ProxyTarget) args
  end.

Definition upstream_directive (s : upstreamInfo * conversion) (bd : Directive) : option (upstreamInfo * conversion) :=
  let '(info, c) := s in
  let balance lb := Some (mkUpstreamInfo (ui_Targets info) lb, c) in
  if decide (Name bd = go!"server") then
    t ← convertUpstreamServer bd; Some (mkUpstreamInfo (ui_Targets info ++ [t]) (ui_LoadBalance info), c)
  else if decide (Name bd = go!"least_conn") then balance (go!"least_conn")
  else if decide (Name bd = go!"ip_hash") then balance (go!"ip_hash")
  else if decide (Name bd = go!"hash") then
    (if decide (Args bd = []) then Some s else balance (go!"consistent_hash"))
  else if decide (Name bd = go!"random") then balance (go!"random")
  else Some (info, warn bd (go!"unsupported directive in upstream block: " ++ Name bd) c).

Definition convertUpstream (d : Directive) (c : conversion) : option (upstreamInfo * conversion) :=
  each_directive upstream_directive (mkUpstreamInfo [] [], c) (Block d).

Abbreviation upstreams := (gmap gostring upstreamInfo).

(** An upstream block: converted, and named by its first argument. *)
Definition add_upstream (s : upstreams * conversion) (d : Directive) : option (upstreams * conversion) :=
  if decide (Name d = go!"upstream") then
    '(info, c) ← convertUpstream d s.2;
    Some (match arg1 d with Some name => <[name := info]> s.1 | None => s.1 end, c)
  else Some s.

(** The first pass of [Convert]: a directive of the top level, and those of an http block. *)
Definition collect_upstreams (s : upstreams * conversion) (d : Directive) : option (upstreams * conversion) :=
  s ← add_upstream s d;
  if decide (Name d = go!"http") then each_directive add_upstream s (Block d) else Some s.

(** ** Locations of a proxy *)

Definition convertProxyRedirect (d : Directive) (p : ProxyConfig) : ProxyConfig :=
  match Args d with
  | [] => p
  | a :: args =>
      let rr :=
        if decide (a = go!"off") then mkRedirectRewriteConfig (go!"off") []
        else if decide (a = go!"default") then mkRedirectRewriteConfig (go!"default") []
        else mkRedirectRewriteConfig (go!"custom")
               (match args with b :: _ => [mkRedirectRewriteRule a b] | [] => [] end) in
      set_px_RedirectRewrite (Some rr) p
  end.

(** One status of [proxy_cache_valid]. *)
Definition cache_status (dur : Z) (v : CacheValid) (arg : gostring) : CacheValid :=
  if decide (arg ∈ [go!"200"; go!"201"; go!"202"; go!"203"; go!"204"; go!"205"; go!"206"; go!"207"; go!"208"; go!"226"])
  then set_v_OK dur v
  else if decide (arg ∈ [go!"301"; go!"302"]) then set_v_Redirect dur v
  else if decide (arg = go!"404") then set_v_NotFound dur v
  else if decide (arg = go!"any") then mkValid dur dur dur dur dur
  else
    match Atoi arg with
    | Some code =>
        if (400 <=? code) && (code <? 500) && negb (code =? 404) then set_v_ClientError dur v
        else if 500 <=? code then set_v_ServerError dur v else v
    | None => v
    end.

Definition parseProxyCacheValid (d : Directive) (p : ProxyConfig) : option ProxyConfig :=
  match Args d with
  | _ :: _ :: _ =>
      dur ← parseDuration (default [] (last (Args d)));
      Some (set_px_CacheValid (Some (foldl (cache_status dur) (default (mkValid 0 0 0 0 0) (px_CacheValid p))
        (take (length (Args d) - 1) (Args d)))) p)
  | _ => Some p
  end.

(** The targets of [proxy_pass]. *)
Definition proxy_pass (url : gostring) (ups : upstreams) (p : ProxyConfig) : ProxyConfig :=
  let add ts := set_px_Targets (px_Targets p ++ ts) p in
  let name := extractUpstreamName url in
  if decide (name = []) then add [set_tg_URL url zero_ProxyTarget]
  else
    match ups !! name with
    | Some info =>
        let p := add (ui_Targets info) in
        if decide (ui_LoadBalance info ≠ [] ∧ px_LoadBalance p = []) then set_px_LoadBalance (ui_LoadBalance info) p else p
    | None => add [set_tg_URL url zero_ProxyTarget]
    end.

Definition set_header (d : Directive) (s : ProxyConfig * conversion) : ProxyConfig * conversion :=
  match Args d with
  | k :: v :: _ =>
      let '(v, c) := mapVariable v d s.2 in
      let v := if decide (v = [quote2; quote2]) then [] else v in
      let hd := px_Headers s.1 in
      (set_px_Headers (set_hd_SetRequest (<[k := v]> (hd_SetRequest hd)) hd) s.1, c)
  | _ => s
  end.

(** A directive of a proxy location; the arms that set a time-out share [timeout]. *)
Definition proxy_directive (ups : upstreams) (s : ProxyConfig * conversion) (d : Directive)
  : option (ProxyConfig * conversion) :=
  let '(p, c) := s in
  let on_arg (f : gostring → ProxyConfig) := Some (match arg1 d with Some a => f a | None => p end, c) in
  let headers (f : ProxyHeaders → ProxyHeaders) := set_px_Headers (f (px_Headers p)) p in
  let timeout (f : Z → ProxyTimeout → ProxyTimeout) :=
    match arg1 d with
    | Some a => n ← parseDuration a; Some (set_px_Timeout (f n (px_Timeout p)) p, c)
    | None => Some s
    end in
  if decide (Name d = go!"proxy_pass") then on_arg (λ url, proxy_pass url ups p)
  else if decide (Name d = go!"proxy_set_header") then Some (set_header d s)
  else if decide (Name d = go!"proxy_hide_header") then
    on_arg (λ a, headers (λ h, set_hd_HideResponse (hd_HideResponse h ++ [a]) h))
  else if decide (Name d = go!"proxy_pass_header") then
    on_arg (λ a, headers (λ h, set_hd_PassResponse (hd_PassResponse h ++ [a]) h))
  else if decide (Name d = go!"proxy_redirect") then Some (convertProxyRedirect d p, c)
  else if decide (Name d = go!"proxy_connect_timeout") then timeout set_to_Connect
  else if decide (Name d = go!"proxy_read_timeout") then timeout set_to_Read
  else if decide (Name d = go!"proxy_send_timeout") then timeout set_to_Write
  else if decide (Name d = go!"proxy_cache") then Some (set_px_Cache (set_pc_Enabled true (px_Cache p)) p, c)
  else if decide (Name d = go!"proxy_cache_valid") then p ← parseProxyCacheValid d p; Some (p, c)
  else Some (p, warn_unsupported d c).

Definition convertProxyDirectives (ds : list Directive) (p : ProxyConfig) (ups : upstreams) (c : conversion)
  : option (ProxyConfig * conversion) :=
  each_directive (proxy_directive ups) (p, c) ds.

(** ** Other locations *)

Definition static_directive (s : StaticConfig * conversion) (d : Directive) : StaticConfig * conversion :=
  let '(st, c) := s in
  let on_arg (f : gostring → StaticConfig) := (match arg1 d with Some a => f a | None => st end, c) in
  if decide (Name d = go!"root") then on_arg (λ a, set_st_Root a st)
  else if decide (Name d = go!"alias") then on_arg (λ a, set_st_Alias a st)
  else if decide (Name d = go!"index") then (set_st_Index (st_Index st ++ Args d) st, c)
  else if decide (Name d = go!"try_files") then (set_st_TryFiles (st_TryFiles st ++ Args d) st, c)
  else if decide (Name d = go!"expires") then on_arg (λ a, set_st_Expires a st)
  else (st, warn_unsupported d c).

Definition convertStaticDirectives (ds : list Directive) (st : StaticConfig) (c : conversion) : StaticConfig * conversion :=
  foldl static_directive (st, c) ds.

Definition add_rewrite (r : RewriteRule) (s : ServerConfig) : ServerConfig := set_srv_Rewrite (srv_Rewrite s ++ [r]) s.

Definition redirect_directive (locPath : gostring) (s : ServerConfig * conversion) (d : Directive) : ServerConfig * conversion :=
  let '(srv, c) := s in
  if decide (Name d = go!"return") then
    match Args d with
    | code :: url :: _ =>
        match Atoi code with
        | Some n =>
            let rule flag := mkRewriteRule (go!"^" ++ locPath ++ go!"$") url flag in
            if n =? 301 then
              (add_rewrite (rule (go!"permanent")) srv, warn d (go!"return 301 converted to rewrite rule with permanent flag") c)
            else if n =? 302 then
              (add_rewrite (rule (go!"redirect")) srv, warn d (go!"return 302 converted to rewrite rule with redirect flag") c)
            else (srv, warn d (go!"return " ++ FormatInt n ++ go!" in location is not a redirect; only 301/302 are supported") c)
        | None => s
        end
    | _ => s
    end
  else s.

Definition convertRedirectDirectives (ds : list Directive) (locPath : gostring) (srv : ServerConfig) (c : conversion)
  : ServerConfig * conversion := foldl (redirect_directive locPath) (srv, c) ds.

(** The path and the modifier of a location. *)
Definition location_path (args : list gostring) : gostring * gostring :=
  match args with
  | [] => ([], [])
  | first :: rest =>
      if decide (first ∈ [go!"="; go!"^~"; go!"~"; go!"~*"]) then (default [] (head rest), first)
      else if HasPrefix first (go!"@") then (drop 1 first, go!"@")
      else (first, [])
  end.

Definition is_redirect (d : Directive) : bool :=
  bool_decide (Name d = go!"return") &&
  match Args d with
  | a :: _ => match Atoi a with Some code => (code =? 301) || (code =? 302) | None => false end
  | [] => false
  end.

Definition named (names : list gostring) (d : Directive) : bool := bool_decide (Name d ∈ names).

Definition classifyLocation (d : Directive) (serverRoot : gostring) (c : conversion) : locationClassification * conversion :=
  let '(path, modifier) := location_path (Args d) in
  let hasProxyPass := existsb (named [go!"proxy_pass"]) (Block d) in
  let hasRootOrAlias := existsb (named [go!"root"; go!"alias"]) (Block d) in
  let hasTryFiles := existsb (named [go!"try_files"]) (Block d) in
  let hasRedirect := existsb is_redirect (Block d) in
  let class t := mkLocation t path modifier (Block d) in
  if hasProxyPass then
    (class LProxy, if hasRootOrAlias then warn (mkDirective (go!"location") (Args d) (Block d) (Line d) (File d))
       (go!"location has both proxy_pass and root/alias; proxy_pass takes priority") c else c)
  else if hasRootOrAlias || hasTryFiles then (class LStatic, c)
  else if hasRedirect then (class LRedirect, c)
  else if bool_decide (serverRoot ≠ []) then (class LStatic, c)
  else (class LUnsupported, c).

Definition convertLocation (class : locationClassification) (srv : ServerConfig) (ups : upstreams) (c : conversion)
  : option (ServerConfig * conversion) :=
  let locType := modifierToLocationType (lc_Modifier class) in
  match lc_LocType class with
  | LProxy =>
      let p := set_px_LocationType locType (set_px_Path (lc_Path class) zero_ProxyConfig) in
      let p := if decide (lc_Modifier class = go!"@") then set_px_LocationName (lc_Path class) p else p in
      '(p, c) ← convertProxyDirectives (lc_Directives class) p ups c;
      Some (set_srv_Proxy (srv_Proxy srv ++ [p]) srv, c)
  | LStatic =>
      let st := set_st_LocationType locType (set_st_Path (lc_Path class) zero_StaticConfig) in
      let '(st, c) := convertStaticDirectives (lc_Directives class) st c in
      Some (set_srv_Static (srv_Static srv ++ [st]) srv, c)
  | LRedirect => Some (convertRedirectDirectives (lc_Directives class) (lc_Path class) srv c)
  | LUnsupported =>
      let c := if decide (lc_Directives class = [])
               then warn_at_nothing (go!"location") (go!"location " ++ lc_Path class ++ go!" has no content and is unsupported") c
               else c in
      Some (srv, foldl (λ c bd, warn bd (go!"unsupported directive in location: " ++ Name bd) c) c (lc_Directives class))
  end.

(** ** Server blocks *)

Definition parseListenInfo (d : Directive) : listenInfo :=
  match Args d with
  | [] => mkListen [] false false
  | addr :: args =>
      mkListen
        (match Atoi addr with
         | Some port => go!":" ++ FormatInt port
         | None => if Contains addr (go!":") then addr else go!":" ++ addr
         end)
        (bool_decide (go!"ssl" ∈ args)) (bool_decide (go!"default_server" ∈ args))
  end.

Definition parseServerName (d : Directive) (s : ServerConfig) : ServerConfig :=
  match Args d with
  | [] => s
  | a :: _ => set_srv_ServerNames (srv_ServerNames s ++ Args d) (set_srv_Name a s)
  end.

Definition parseGzip (d : Directive) (s : ServerConfig) : ServerConfig :=
  if decide (arg1 d = Some (go!"on")) then set_srv_Compression (set_cp_Type (go!"gzip") (srv_Compression s)) s else s.

Definition parseAccessLog (d : Directive) (c : conversion) : conversion :=
  let upd f := set_logging (set_lg_Access (f (lg_Access (logging c))) (logging c)) c in
  match Args d with
  | [] => c
  | [p] => upd (set_al_Path p)
  | p :: f :: _ => upd (λ l, set_al_Format f (set_al_Path p l))
  end.

Definition parseErrorLog (d : Directive) (c : conversion) : conversion :=
  let upd f := set_logging (set_lg_Error (f (lg_Error (logging c))) (logging c)) c in
  match Args d with
  | [] => c
  | [p] => upd (set_el_Path p)
  | p :: l :: _ => upd (λ e, set_el_Level l (set_el_Path p e))
  end.

Definition parseServerReturn (d : Directive) (s : ServerConfig * conversion) : ServerConfig * conversion :=
  let '(srv, c) := s in
  match Args d with
  | [] => s
  | a :: args =>
      match Atoi a with
      | None => s
      | Some code =>
          let rule flag := mkRewriteRule (go!"^/") (default [] (head args)) flag in
          if code =? 301 then (add_rewrite (rule (go!"permanent")) srv, c)
          else if code =? 302 then (add_rewrite (rule (go!"redirect")) srv, c)
          else (srv, warn d (go!"return " ++ FormatInt code ++
                  go!" is not a redirect; only 301/302 are supported at server level") c)
      end
  end.

Definition parseRewrite (d : Directive) (s : ServerConfig) : ServerConfig :=
  match Args d with
  | p :: r :: args => add_rewrite (mkRewriteRule p r (default [] (head args))) s
  | _ => s
  end.

Definition parseErrorPage (d : Directive) (s : ServerConfig) : ServerConfig :=
  match Args d with
  | _ :: _ :: _ =>
      let page := default [] (last (Args d)) in
      let ep := sec_ErrorPage (srv_Security s) in
      let pages := foldl (λ m a, match Atoi a with Some code => <[code := page]> m | None => m end)
        (ep_Pages ep) (take (length (Args d) - 1) (Args d)) in
      set_srv_Security (set_sec_ErrorPage (set_ep_Pages pages ep) (srv_Security s)) s
  | _ => s
  end.

Definition parseAuthBasic (d : Directive) (s : ServerConfig) : ServerConfig :=
  match arg1 d with
  | Some a =>
      if decide (a ≠ go!"off") then
        let au := sec_Auth (srv_Security s) in
        set_srv_Security (set_sec_Auth (set_au_Realm a (set_au_Type (go!"basic") au)) (srv_Security s)) s
      else s
  | None => s
  end.

(** The second pass over a server block: the server, its root and index, and the result. *)
Record server_state := mkServerState {
  ss_server : ServerConfig; ss_root : gostring; ss_index : list gostring; ss_conv : conversion }.

Definition with_server (srv : ServerConfig) (s : server_state) : server_state :=
  mkServerState srv (ss_root s) (ss_index s) (ss_conv s).
Definition with_conv (c : conversion) (s : server_state) : server_state :=
  mkServerState (ss_server s) (ss_root s) (ss_index s) c.
Definition with_both (r : ServerConfig * conversion) (s : server_state) : server_state :=
  mkServerState r.1 (ss_root s) (ss_index s) r.2.

Definition server_directive (ups : upstreams) (s : server_state) (bd : Directive) : option server_state :=
  let srv := ss_server s in
  let c := ss_conv s in
  let on_arg (f : gostring → ServerConfig) := Some (match arg1 bd with Some a => with_server (f a) s | None => s end) in
  let ssl f := set_srv_SSL (f (srv_SSL srv)) srv in
  let compression f := set_srv_Compression (f (srv_Compression srv)) srv in
  if decide (Name bd = go!"listen") then Some s
  else if decide (Name bd = go!"server_name") then Some (with_server (parseServerName bd srv) s)
  else if decide (Name bd = go!"root") then
    Some (match arg1 bd with Some a => mkServerState srv a (ss_index s) c | None => s end)
  else if decide (Name bd = go!"index") then Some (mkServerState srv (ss_root s) (ss_index s ++ Args bd) c)
  else if decide (Name bd = go!"ssl_certificate") then on_arg (λ a, ssl (set_ssl_Cert a))
  else if decide (Name bd = go!"ssl_certificate_key") then on_arg (λ a, ssl (set_ssl_Key a))
  else if decide (Name bd = go!"gzip") then Some (with_server (parseGzip bd srv) s)
  else if decide (Name bd = go!"gzip_types") then Some (with_server (compression (set_cp_Types (Args bd))) s)
  else if decide (Name bd = go!"gzip_min_length") then
    on_arg (λ a, match Atoi a with Some v => compression (set_cp_MinSize v) | None => srv end)
  else if decide (Name bd = go!"client_max_body_size") then on_arg (λ a, set_srv_ClientMaxBodySize a srv)
  else if decide (Name bd = go!"server_tokens") then on_arg (λ a, set_srv_ServerTokens (bool_decide (a ≠ go!"off")) srv)
  else if decide (Name bd = go!"access_log") then Some (with_conv (parseAccessLog bd c) s)
  else if decide (Name bd = go!"error_log") then Some (with_conv (parseErrorLog bd c) s)
  else if decide (Name bd = go!"return") then Some (with_both (parseServerReturn bd (srv, c)) s)
  else if decide (Name bd = go!"rewrite") then Some (with_server (parseRewrite bd srv) s)
  else if decide (Name bd = go!"location") then
    let '(class, c) := classifyLocation bd (ss_root s) c in
    r ← convertLocation class srv ups c; Some (with_both r s)
  else if decide (Name bd = go!"error_page") then Some (with_server (parseErrorPage bd srv) s)
  else if decide (Name bd = go!"auth_basic") then Some (with_server (parseAuthBasic bd srv) s)
  else if decide (Name bd = go!"auth_basic_user_file") then
    Some (match arg1 bd with
          | Some a => with_conv (warn bd (go!"auth_basic_user_file (" ++ a ++
              go!") cannot be directly converted; htpasswd file must be manually migrated to auth.users") c) s
          | None => s
          end)
  else Some (with_conv (warn_unsupported bd c) s).

(** The root of the server: inherited by its static locations, and served at [/] when
    no location is there. *)
Definition inherit_root (root : gostring) (index : list gostring) (st : StaticConfig) : StaticConfig :=
  let st := if decide (st_Root st = []) then set_st_Root root st else st in
  if decide (st_Index st = [] ∧ index ≠ []) then set_st_Index index st else st.

Definition apply_root (root : gostring) (index : list gostring) (srv : ServerConfig) : ServerConfig :=
  if decide (root = []) then srv
  else
    let srv := set_srv_Static (inherit_root root index <$> srv_Static srv) srv in
    if existsb (λ st, bool_decide (st_Path st = go!"/")) (srv_Static srv) ||
       existsb (λ p, bool_decide (px_Path p = go!"/")) (srv_Proxy srv)
    then srv
    else set_srv_Static (srv_Static srv ++
           [set_st_Index index (set_st_Root root (set_st_Path (go!"/") zero_StaticConfig))]) srv.

(** The listening addresses, or the default one. *)
Definition listens (ds : list Directive) : list listenInfo :=
  match parseListenInfo <$> filter (λ d, Name d = go!"listen") ds with
  | [] => [mkListen (go!"0.0.0.0:80") false false]
  | l => l
  end.

Definition listen_on (srv : ServerConfig) (li : listenInfo) : ServerConfig :=
  set_srv_Default (li_IsDefault li) (set_srv_Listen (li_Addr li) srv).

Definition ssl_warning (srv : ServerConfig) (c : conversion) (li : listenInfo) : conversion :=
  if li_IsSSL li && (bool_decide (ssl_Cert (srv_SSL srv) = []) || bool_decide (ssl_Key (srv_SSL srv) = []))
  then warn_at_nothing (go!"listen")
    (go!"SSL is enabled via listen directive but ssl_certificate and/or ssl_certificate_key are not configured; SSL config will be incomplete") c
  else c.

Definition convertServerBlock (d : Directive) (ups : upstreams) (c : conversion) : option (list ServerConfig * conversion) :=
  s ← each_directive (server_directive ups) (mkServerState zero_ServerConfig [] [] c) (Block d);
  let srv := apply_root (ss_root s) (ss_index s) (ss_server s) in
  Some (listen_on srv <$> listens (Block d), foldl (ssl_warning srv) (ss_conv s) (listens (Block d))).

(** ** The whole file *)

(** The server blocks in order, and the warnings for what else is in an http block. *)
Definition collect_servers (s : list Directive * conversion) (d : Directive) : list Directive * conversion :=
  let '(servers, c) := s in
  if decide (Name d = go!"http") then
    foldl (λ s bd, if decide (Name bd = go!"server") then (s.1 ++ [bd], s.2) else (s.1, warn_unsupported bd s.2)) s (Block d)
  else if decide (Name d = go!"server") then (servers ++ [d], c)
  else s.

Definition convert_server (ups : upstreams) (s : list ServerConfig * conversion) (d : Directive)
  : option (list ServerConfig * conversion) :=
  '(servers, c) ← convertServerBlock d ups s.2; Some (s.1 ++ servers, c).

Definition no_warnings : conversion := mkConversion [] zero_LoggingConfig.

(** [Convert]; [None] is a panic, and there is no other error. *)
Definition Convert (directives : list Directive) : option (Config * list Warning) :=
  '(ups, c) ← each_directive collect_upstreams (∅, no_warnings) directives;
  let '(blocks, c) := foldl collect_servers ([], c) directives in
  '(servers, c) ← each_directive (convert_server ups) ([], c) blocks;
  Some (set_cfg_Logging (logging c) (set_cfg_Servers servers zero_Config), warnings c).

(** ** When the converter panics *)

(** A quoted word that is not empty, of nothing but white space, be it of ASCII or
    another white space of Unicode. *)
Definition blank (s : gostring) : Prop := s ≠ [] ∧ TrimSpace s = [].

Definition panics_duration (s : option gostring) : Prop := ∃ v, s = Some v ∧ blank v.

(** A server of an upstream without an address, or with a blank time-out. *)
Definition bad_backend (d : Directive) : Prop :=
  Name d = go!"server" ∧ (Args d = [] ∨ ∃ v, go!"fail_timeout=" ++ v ∈ drop 1 (Args d) ∧ blank v).

(** A directive of a proxy location with a blank duration. *)
Definition bad_duration (d : Directive) : Prop :=
  (Name d ∈ [go!"proxy_connect_timeout"; go!"proxy_read_timeout"; go!"proxy_send_timeout"] ∧ panics_duration (arg1 d)) ∨
  (Name d = go!"proxy_cache_valid" ∧ (2 ≤ length (Args d))%nat ∧ panics_duration (last (Args d))).

Definition bad_upstream (d : Directive) : Prop := Name d = go!"upstream" ∧ Exists bad_backend (Block d).

Definition bad_location (d : Directive) : Prop :=
  Name d = go!"location" ∧ Exists (λ e, Name e = go!"proxy_pass") (Block d) ∧ Exists bad_duration (Block d).

(** The server blocks of a file. *)
Definition server_blocks (ds : list Directive) : list Directive :=
  ds ≫= λ d, if decide (Name d = go!"http") then filter (λ bd, Name bd = go!"server") (Block d)
             else if decide (Name d = go!"server") then [d] else [].

Lemma each_directive_none {A} (f : A → Directive → option A) (P : Directive → Prop) ds :
  (∀ a d, f a d = None ↔ P d) → ∀ a, each_directive f a ds = None ↔ Exists P ds.
Proof.
  intros Hf. induction ds as [|d ds IH]; intros a; cbn [each_directive]; [by rewrite Exists_nil|].
  rewrite Exists_cons, <- (Hf a d). destruct (f a d); cbn [mbind option_bind]; [rewrite IH|]; naive_solver.
Qed.

Lemma last_none {A} (l : list A) : last l = None ↔ l = [].
Proof. apply last_None. Qed.

Lemma ParseDuration_blank s : TrimSpace s = [] → ParseDuration s = None.
Proof.
  intros [->|(p & k & Hp & ->)]%TrimSpace_nil; [done|].
  assert (∀ q, q ∈ [[" "]; ["009"]; ["010"]; ["011"]; ["012"]; ["013"]; ["194"]; ["225"]; ["226"]; ["227"]]%char →
    ∀ s, ParseDuration (q ++ s) = None) as Hfirst.
  { intros q Hq s. set_unfold in Hq. unfold ParseDuration.
    repeat destruct Hq as [->|Hq]; try done; cbn -[decide]; by rewrite !decide_False by done. }
  assert (forallb (λ p, bool_decide (take 1 p ∈ [[" "]; ["009"]; ["010"]; ["011"]; ["012"]; ["013"]; ["194"]; ["225"]; ["226"]; ["227"]]%char))
    white = true) as Hw by by vm_compute.
  rewrite forallb_forall in Hw. apply list_elem_of_In, Hw, bool_decide_eq_true in Hp.
  rewrite <- (take_drop 1 p), <- app_assoc. by apply Hfirst.
Qed.

Lemma parseDuration_none s : parseDuration s = None ↔ blank s.
Proof.
  unfold parseDuration, blank. case_decide; [naive_solver|].
  destruct (ParseDuration s) eqn:E.
  - split; [done|]. intros [_ Ht]. by rewrite ParseDuration_blank in E.
  - destruct (last (TrimSpace s)) eqn:El; cbn [mbind option_bind].
    + split; [done|]. intros [_ Ht]. by rewrite Ht in El.
    + apply last_None in El. naive_solver.
Qed.

Lemma CutPrefix_spec s p v : CutPrefix s p = Some v ↔ s = p ++ v.
Proof.
  unfold CutPrefix. destruct (HasPrefix s p) eqn:E.
  - apply HasPrefix_spec in E as [k ->]. rewrite drop_app_length.
    split; [by intros [= ->]|by intros <-%app_inv_head].
  - split; [done|]. intros ->. by rewrite HasPrefix_app in E.
Qed.

Lemma server_param_none t arg : server_param t arg = None ↔ ∃ v, arg = go!"fail_timeout=" ++ v ∧ blank v.
Proof.
  unfold server_param. split.
  - destruct (CutPrefix arg (go!"weight=")); [by destruct (Atoi _)|].
    destruct (CutPrefix arg (go!"max_fails=")); [by destruct (Atoi _)|].
    destruct (CutPrefix arg (go!"fail_timeout=")) as [v|] eqn:E; [|by repeat case_decide].
    destruct (parseDuration v) eqn:Ed; [done|]. intros _. apply CutPrefix_spec in E. apply parseDuration_none in Ed. eauto.
  - intros (v & -> & Hv%parseDuration_none). change (CutPrefix (go!"fail_timeout=" ++ v) (go!"weight=")) with (@None gostring).
    change (CutPrefix (go!"fail_timeout=" ++ v) (go!"max_fails=")) with (@None gostring).
    rewrite (proj2 (CutPrefix_spec _ _ v)) by done. by rewrite Hv.
Qed.

Lemma server_params_none t args :
  server_params t args = None ↔ ∃ v, go!"fail_timeout=" ++ v ∈ args ∧ blank v.
Proof.
  revert t. induction args as [|a args IH]; intros t; cbn [server_params]; [set_solver|].
  destruct (server_param t a) eqn:E; cbn [mbind option_bind].
  - rewrite IH. split; [intros (v & ? & ?); exists v; set_solver|]. intros (v & Hin & Hv). exists v. split; [|done].
    apply elem_of_cons in Hin as [<-|]; [|done].
    assert (server_param t (go!"fail_timeout=" ++ v) = None) by (apply server_param_none; eauto). congruence.
  - split; [|done]. intros _. apply server_param_none in E as (v & -> & Hv). exists v. split; [left|done].
Qed.

Lemma upstream_directive_none s bd : upstream_directive s bd = None ↔ bad_backend bd.
Proof.
  unfold upstream_directive, bad_backend. destruct s as [info c]. case_decide as Hn; [|by repeat case_decide; naive_solver].
  unfold convertUpstreamServer. destruct (Args bd) as [|url args]; [naive_solver|].
  match goal with |- context [server_params ?t args] => pose proof (server_params_none t args) as Hs; destruct (server_params t args) end.
  - cbn [mbind option_bind drop]. naive_solver.
  - cbn [mbind option_bind drop]. naive_solver.
Qed.

Lemma add_upstream_none s d : add_upstream s d = None ↔ bad_upstream d.
Proof.
  unfold add_upstream, bad_upstream, convertUpstream. case_decide; [|naive_solver].
  rewrite <- (each_directive_none upstream_directive bad_backend (Block d) upstream_directive_none (mkUpstreamInfo [] [], s.2)).
  destruct (each_directive _ _ _) as [[]|]; cbn [mbind option_bind]; naive_solver.
Qed.

Definition bad_collected (d : Directive) : Prop :=
  bad_upstream d ∨ Name d = go!"http" ∧ Exists bad_upstream (Block d).

Lemma collect_upstreams_none s d : collect_upstreams s d = None ↔ bad_collected d.
Proof.
  unfold collect_upstreams, bad_collected. rewrite <- (add_upstream_none s d).
  destruct (add_upstream s d) as [s'|]; cbn [mbind option_bind]; [|naive_solver].
  case_decide; [|naive_solver]. rewrite (each_directive_none _ _ _ add_upstream_none). naive_solver.
Qed.

Lemma timeout_none {A B} (a : option gostring) (f : Z → A) (b : B) (g : A → B) :
  match a with Some a => n ← parseDuration a; Some (g (f n)) | None => Some b end = None ↔ panics_duration a.
Proof.
  unfold panics_duration. destruct a as [a|]; [|naive_solver].
  pose proof (parseDuration_none a). destruct (parseDuration a); cbn [mbind option_bind]; naive_solver.
Qed.

Lemma cache_valid_none d p :
  parseProxyCacheValid d p = None ↔ (2 ≤ length (Args d))%nat ∧ panics_duration (last (Args d)).
Proof.
  unfold parseProxyCacheValid. destruct (Args d) as [|a [|b l]]; cbn [length]; [naive_solver lia..|].
  destruct (last (a :: b :: l)) as [x|] eqn:El; [|by apply last_None in El].
  change (default [] (Some x)) with x. pose proof (parseDuration_none x). unfold panics_duration.
  destruct (parseDuration x); cbn [mbind option_bind]; [|naive_solver lia].
  split; [done|]. intros (_ & v & [= <-] & Hv). naive_solver.
Qed.

Lemma proxy_directive_none ups s d : proxy_directive ups s d = None ↔ bad_duration d.
Proof.
  unfold proxy_directive. destruct s as [p c].
  assert (∀ n, n ∉ [go!"proxy_connect_timeout"; go!"proxy_read_timeout"; go!"proxy_send_timeout"; go!"proxy_cache_valid"] →
    Name d = n → ∀ r : ProxyConfig * conversion, Some r = None ↔ bad_duration d) as Hother.
  { intros n Hn <- r. split; [done|]. unfold bad_duration. intros [[H _]|[H _]]; exfalso; apply Hn; set_solver. }
  repeat (let Hd := fresh "Hd" in case_decide as Hd; [first
    [by eapply Hother; [|exact Hd]; set_solver
    |unfold bad_duration; rewrite Hd, (timeout_none (arg1 d) _ (p, c) (λ t, (set_px_Timeout t p, c)));
     split; [intros; left; split; [set_solver|done]|by intros [[_ ?]|[? _]]]
    |unfold bad_duration; rewrite Hd, <- (cache_valid_none d p);
     destruct (parseProxyCacheValid d p); cbn [mbind option_bind];
     [split; [done|intros [[? _]|[_ ?]]; [set_solver|done]]|split; [by right|done]]]|]).
  split; [done|]. unfold bad_duration. rewrite !elem_of_cons, elem_of_nil. naive_solver.
Qed.

Lemma convertLocation_none d root srv ups c1 c2 :
  convertLocation (classifyLocation d root c1).1 srv ups c2 = None ↔
  Exists (λ e, Name e = go!"proxy_pass") (Block d) ∧ Exists bad_duration (Block d).
Proof.
  assert (existsb (named [go!"proxy_pass"]) (Block d) = true ↔ Exists (λ e, Name e = go!"proxy_pass") (Block d)) as Hp.
  { rewrite existsb_exists, Exists_exists. unfold named. setoid_rewrite bool_decide_eq_true.
    setoid_rewrite <- list_elem_of_In. setoid_rewrite list_elem_of_singleton. done. }
  rewrite <- Hp. unfold classifyLocation. destruct (location_path (Args d)) as [path modifier].
  destruct (existsb (named [go!"proxy_pass"]) (Block d)).
  - cbn [fst]. unfold convertLocation, convertProxyDirectives. cbn [lc_LocType lc_Directives].
    match goal with |- context [each_directive ?f ?a ?l] => rewrite <- (each_directive_none f _ l (proxy_directive_none ups) a) end.
    destruct (each_directive _ _ _) as [[]|]; cbn [mbind option_bind]; naive_solver.
  - split; [|naive_solver]. unfold convertLocation. repeat case_match; naive_solver.
Qed.

Lemma server_directive_none ups s bd : server_directive ups s bd = None ↔ bad_location bd.
Proof.
  unfold server_directive, bad_location.
  repeat (let Hd := fresh "Hd" in case_decide as Hd;
    [try by rewrite Hd; split; [|intros [Hl _]]|]); [|by split; [|intros [? _]]].
  pose proof (convertLocation_none bd (ss_root s) (ss_server s) ups (ss_conv s) (classifyLocation bd (ss_root s) (ss_conv s)).2) as Hc.
  destruct (classifyLocation bd (ss_root s) (ss_conv s)) as [class c]. cbn [fst snd] in Hc.
  destruct (convertLocation class (ss_server s) ups c); cbn [mbind option_bind]; naive_solver.
Qed.

Lemma convert_server_none ups s d : convert_server ups s d = None ↔ Exists bad_location (Block d).
Proof.
  unfold convert_server, convertServerBlock.
  rewrite <- (each_directive_none _ _ (Block d) (server_directive_none ups) (mkServerState zero_ServerConfig [] [] s.2)).
  destruct (each_directive _ _ _) as [st|]; cbn [mbind option_bind]; naive_solver.
Qed.

Lemma collect_servers_blocks ds s : (foldl collect_servers s ds).1 = s.1 ++ server_blocks ds.
Proof.
  revert s. induction ds as [|d ds IH]; intros [bs c]; cbn [foldl]; [by rewrite app_nil_r|].
  rewrite IH. unfold server_blocks at 2. cbn [mbind list_bind]. rewrite app_assoc. f_equal.
  unfold collect_servers. case_decide; [|by case_decide; rewrite ?app_nil_r].
  cut (∀ l s, (foldl (λ s bd, if decide (Name bd = go!"server") then (s.1 ++ [bd], s.2) else (s.1, warn_unsupported bd s.2)) s l).1
    = s.1 ++ filter (λ bd, Name bd = go!"server") l); [by intros Hl; rewrite Hl|].
  induction l as [|b l IHl]; intros s; cbn [foldl]; [by rewrite filter_nil, app_nil_r|].
  rewrite IHl, filter_cons. by case_decide; cbn [fst]; rewrite <- ?app_assoc.
Qed.

(** C17: The converter fails on no file but these, where it panics: a server of an
    upstream without an address, and a duration of one or of a proxied location that is
    nothing but white space, of Unicode too.
    Whatever else the file holds, unknown directives and missing arguments included,
    it answers a configuration. *)
Theorem convert_panics ds :
  Convert ds = None ↔
    Exists bad_collected ds ∨ Exists (λ s, Exists bad_location (Block s)) (server_blocks ds).
Proof.
  unfold Convert.
  rewrite <- (each_directive_none _ _ ds collect_upstreams_none (∅, no_warnings)).
  destruct (each_directive collect_upstreams _ _) as [[ups c]|]; cbn [mbind option_bind]; [|naive_solver].
  pose proof (collect_servers_blocks ds ([], c)) as Hb. destruct (foldl collect_servers _ _) as [blocks c'].
  cbn [fst app] in Hb. subst. rewrite <- (each_directive_none _ _ _ (convert_server_none ups) ([], c')).
  destruct (each_directive (convert_server ups) _ _) as [[]|]; cbn [mbind option_bind]; naive_solver.
Qed.

(** ** What is lost *)

(** A duration in seconds without a unit, as nginx writes it, becomes zero: with
    [proxy_read_timeout 60] the time-out is not set. *)
Theorem bare_seconds_lost n : 0 < n ≤ int64_max → parseDuration (FormatInt n) = Some 0.
Proof.
  intros Hn. destruct (FormatInt_digits n ltac:(lia)) as [Hd Hne]. unfold parseDuration.
  rewrite decide_False, ParseDuration_bare by done. rewrite forallb_forall in Hd.
  assert (∀ c, c ∈ FormatInt n → is_digit c = true) as Hc by (intros c Hc; apply Hd; by apply list_elem_of_In).
  rewrite TrimSpace_id by (intros c Hin; by apply digit_plain, Hc).
  destruct (last (FormatInt n)) as [c|] eqn:El; [|by apply last_None in El]. cbn [mbind option_bind].
  apply last_Some_elem_of, Hc in El. destruct (Atoi _); [|done].
  repeat (case_decide; [subst; by vm_compute in El|]). done.
Qed.

(** A listening address without a port becomes a host name as a port: nginx reads
    [listen 127.0.0.1] as port 80 of that address. *)
Example listen_address_misread :
  li_Addr (parseListenInfo (mkDirective (go!"listen") [go!"127.0.0.1"] [] 0 [])) = go!":127.0.0.1" ∧
  li_Addr (parseListenInfo (mkDirective (go!"listen") [go!"localhost"] [] 0 [])) = go!":localhost".
Proof. by vm_compute. Qed.

(** A no-break space is white space: a time-out of nothing else panics. *)
Example no_break_space_panics :
  parseDuration (of_bytes [194; 160]) = None ∧ parseDuration (go!" ") = None ∧ parseDuration [] = Some 0.
Proof. by vm_compute. Qed.

(** So a back end with it as its time-out makes the conversion panic. *)
Lemma convert_panics_witness :
  Convert [mkDirective (go!"upstream") [go!"app"]
    [mkDirective (go!"server") [go!"10.0.0.1"; go!"fail_timeout=" ++ of_bytes [194; 160]] [] 2 []] 1 []] = None.
Proof.
  apply convert_panics. left. apply Exists_cons_hd. left. split; [reflexivity|]. apply Exists_cons_hd.
  split; [reflexivity|]. right. exists (of_bytes [194; 160]). split; [by left|]. split; [done|by vm_compute].
Defined.

Example server_without_address_panics :
  Convert [mkDirective (go!"upstream") [go!"app"] [mkDirective (go!"server") [] [] 2 []] 1 []] = None.
Proof. by vm_compute. Qed.
