(* ===== verification/ConvertSpec.v ===== *)
(** * ConvertSpec: what a converted file means

    The converter of [Convert] against descriptions of pools of back ends and of sites
    that proxy to them or serve files. Shown: positions matter only to the positions of
    warnings, and printing, parsing and converting a description gives the servers it
    describes. *)

From S2P Require Import Prelude GoStrings GoTime NginxParser ProxyCache Config ConfigUpdate Convert.

(** ** Positions only show in the positions of warnings

    [same] relates directives that differ in their lines and files only, and [alike]
    conversions that differ in those of their warnings only; every step respects them. *)

Definition same (d d' : Directive) : Prop := erase d = erase d'.

Definition unplaced (w : Warning) : Warning := mkWarning (wn_Directive w) 0 [] (wn_Message w).

Definition alike (c c' : conversion) : Prop :=
  logging c = logging c' ∧ map unplaced (warnings c) = map unplaced (warnings c').

Definition alike_with {A} : A * conversion → A * conversion → Prop := prod_relation (=) alike.

#[export] Instance alike_equivalence : Equivalence alike.
Proof. unfold alike. split; [by intros ?|by intros ?? []|by intros ??? [-> ->] [-> ->]]. Qed.

Lemma same_blocks l l' : map erase l = map erase l' ↔ Forall2 same l l'.
Proof.
  split.
  - revert l'. induction l as [|d l IH]; intros [|d' l']; try done. intros [=]. constructor; [done|by apply IH].
  - induction 1 as [|?????? IH]; [done|]. cbn [map]. by f_equal.
Qed.

Lemma same_fields d d' : same d d' → Name d = Name d' ∧ Args d = Args d' ∧ Forall2 same (Block d) (Block d').
Proof. destruct d, d'. unfold same. cbn. intros [=-> -> Hb]. split_and!; [done..|by apply same_blocks]. Qed.

Lemma each_directive_same {A} (R : A → A → Prop) (f g : A → Directive → option A) l l' :
  (∀ a a' d d', R a a' → same d d' → option_Forall2 R (f a d) (g a' d')) →
  Forall2 same l l' → ∀ a a', R a a' → option_Forall2 R (each_directive f a l) (each_directive g a' l').
Proof.
  intros Hf. induction 1 as [|d d' l l' Hd Hl IH]; intros a a' Ha; cbn [each_directive]; [by constructor|].
  destruct (Hf a a' d d' Ha Hd); cbn [mbind option_bind]; [by apply IH|constructor].
Qed.

Lemma fold_same {A} (R : A → A → Prop) (f g : A → Directive → A) l l' :
  (∀ a a' d d', R a a' → same d d' → R (f a d) (g a' d')) →
  Forall2 same l l' → ∀ a a', R a a' → R (foldl f a l) (foldl g a' l').
Proof. intros Hf. induction 1 as [|d d' l l' Hd Hl IH]; intros a a' Ha; [done|]. apply IH. by apply Hf. Qed.

Lemma alike_add c c' w w' l : alike c c' → unplaced w = unplaced w' → l = logging c →
  alike (mkConversion (warnings c ++ [w]) l) (mkConversion (warnings c' ++ [w']) (logging c')).
Proof. intros [Hl Hw] Hu ->. split; [done|]. cbn. by rewrite !map_app, Hw; cbn; rewrite Hu. Qed.

Lemma alike_warn d m c c' d' : Name d = Name d' → alike c c' → alike (warn d m c) (warn d' m c').
Proof. intros Hn Hc. apply alike_add; [done| |done]. unfold unplaced. cbn. by rewrite Hn. Qed.

Lemma alike_at_nothing n m c c' : alike c c' → alike (warn_at_nothing n m c) (warn_at_nothing n m c').
Proof. intros Hc. by apply alike_add. Qed.

Lemma alike_unsupported d d' c c' : Name d = Name d' → alike c c' → alike (warn_unsupported d c) (warn_unsupported d' c').
Proof. unfold warn_unsupported. intros Hn Hc. rewrite Hn. destruct (unsupportedDirectives _); [by apply alike_warn|done]. Qed.

#[local] Hint Resolve alike_warn alike_unsupported alike_at_nothing : core.

(** A step: what it looks at is the same, and what it answers is related. *)
Ltac step_same d d' :=
  let Hn := fresh in let Ha := fresh in let Hb := fresh in
  match goal with H : same d d' |- _ => destruct (same_fields d d' H) as (Hn & Ha & Hb) end;
  rewrite ?Hn, ?Ha in *.

Ltac alike_done := constructor; first [done|split; cbn [fst snd]; by auto].

Lemma upstream_directive_same s s' d d' :
  alike_with s s' → same d d' → option_Forall2 alike_with (upstream_directive s d) (upstream_directive s' d').
Proof.
  destruct s as [i c], s' as [i' c']. intros [[= ->] Hc] Hd. cbn [snd] in Hc.
  unfold upstream_directive, convertUpstreamServer. step_same d d'.
  repeat case_decide; try by alike_done.
  destruct (Args d') as [|url args]; [constructor|].
  destruct (server_params _ args); cbn [mbind option_bind]; by constructor.
Qed.

Lemma add_upstream_same s s' d d' :
  alike_with s s' → same d d' → option_Forall2 alike_with (add_upstream s d) (add_upstream s' d').
Proof.
  destruct s as [m c], s' as [m' c']. intros [[= ->] Hc] Hd. cbn [snd] in Hc.
  unfold add_upstream, convertUpstream, arg1. step_same d d'. case_decide; [|by constructor]. cbn [fst snd].
  destruct (each_directive_same alike_with _ _ _ _ upstream_directive_same ltac:(eassumption)
    (mkUpstreamInfo [] [], c) (mkUpstreamInfo [] [], c') ltac:(done)) as [[i1 c1] [i2 c2] [[= ->] ?]|]; cbn; constructor; done.
Qed.

Lemma collect_upstreams_same s s' d d' :
  alike_with s s' → same d d' → option_Forall2 alike_with (collect_upstreams s d) (collect_upstreams s' d').
Proof.
  intros Hs Hd. unfold collect_upstreams. destruct (add_upstream_same s s' d d' Hs Hd); cbn [mbind option_bind]; [|constructor].
  step_same d d'. case_decide; [|by constructor]. by apply each_directive_same; [apply add_upstream_same|..].
Qed.

Lemma bind_same {A B} (R : B → B → Prop) (o : option A) (f g : A → option B) :
  (∀ x, option_Forall2 R (f x) (g x)) → option_Forall2 R (o ≫= f) (o ≫= g).
Proof. intros Hf. destruct o; [apply Hf|constructor]. Qed.

Lemma some_same {A} (x : A) c c' : alike c c' → option_Forall2 alike_with (Some (x, c)) (Some (x, c')).
Proof. by constructor. Qed.

#[local] Hint Resolve bind_same some_same : core.

Lemma set_header_same d d' p c c' :
  Args d = Args d' → alike c c' → alike_with (set_header d (p, c)) (set_header d' (p, c')).
Proof.
  intros Ha Hc. unfold set_header, mapVariable. rewrite Ha. cbn [fst snd].
  destruct (Args d') as [|k [|v args]]; [done..|]. destruct (Contains v _); split; try done.
  by apply alike_add; destruct Hc.
Qed.

Lemma proxy_directive_same ups s s' d d' :
  alike_with s s' → same d d' → option_Forall2 alike_with (proxy_directive ups s d) (proxy_directive ups s' d').
Proof.
  destruct s as [p c], s' as [p' c']. intros [[= ->] Hc] Hd. cbn [snd] in Hc.
  pose proof (set_header_same d d' p' c c') as Hh. unfold proxy_directive, convertProxyRedirect, parseProxyCacheValid, arg1. step_same d d'.
  repeat case_decide; cbn [fst snd]; try by auto.
  - constructor. by apply Hh.
  - destruct (head _); auto.
  - destruct (head _); auto.
  - destruct (head _); auto.
Qed.

Lemma static_directive_same s s' d d' :
  alike_with s s' → same d d' → alike_with (static_directive s d) (static_directive s' d').
Proof.
  destruct s as [p c], s' as [p' c']. intros [[= ->] Hc] Hd. cbn [snd] in Hc.
  unfold static_directive, arg1. step_same d d'. repeat case_decide; split; cbn [fst snd]; auto.
Qed.

Lemma redirect_directive_same path s s' d d' :
  alike_with s s' → same d d' → alike_with (redirect_directive path s d) (redirect_directive path s' d').
Proof.
  destruct s as [p c], s' as [p' c']. intros [[= ->] Hc] Hd. cbn [snd] in Hc.
  unfold redirect_directive. step_same d d'. repeat case_match; first [done|split; cbn [fst snd]; by auto].
Qed.

Lemma existsb_same (f : Directive → bool) l l' :
  (∀ d d', same d d' → f d = f d') → Forall2 same l l' → existsb f l = existsb f l'.
Proof. intros Hf. induction 1 as [|d d' l l' Hd Hl IH]; [done|]. cbn [existsb]. by rewrite IH, (Hf d d'). Qed.

Lemma named_same names d d' : same d d' → named names d = named names d'.
Proof. intros Hd. unfold named. by step_same d d'. Qed.

Lemma is_redirect_same d d' : same d d' → is_redirect d = is_redirect d'.
Proof. intros Hd. unfold is_redirect. by step_same d d'. Qed.

Definition same_class (k k' : locationClassification) : Prop :=
  lc_LocType k = lc_LocType k' ∧ lc_Path k = lc_Path k' ∧ lc_Modifier k = lc_Modifier k' ∧
  Forall2 same (lc_Directives k) (lc_Directives k').

Lemma classifyLocation_same root c c' d d' :
  alike c c' → same d d' →
  same_class (classifyLocation d root c).1 (classifyLocation d' root c').1 ∧
  alike (classifyLocation d root c).2 (classifyLocation d' root c').2.
Proof.
  intros Hc Hd. unfold classifyLocation. step_same d d'. destruct (location_path (Args d')) as [path modifier].
  rewrite !(existsb_same _ (Block d) (Block d')) by auto using named_same, is_redirect_same.
  unfold same_class. repeat case_match; cbn [fst snd lc_LocType lc_Path lc_Modifier lc_Directives]; auto 6.
Qed.

Lemma convertLocation_same k k' srv ups c c' :
  same_class k k' → alike c c' → option_Forall2 alike_with (convertLocation k srv ups c) (convertLocation k' srv ups c').
Proof.
  intros (Ht & Hp & Hm & Hds) Hc. unfold convertLocation, convertProxyDirectives, convertStaticDirectives. rewrite Ht, Hp, Hm.
  destruct (lc_LocType k').
  - set (p := if decide _ then _ else _).
    destruct (each_directive_same alike_with _ _ _ _ (proxy_directive_same ups) Hds (p, c) (p, c')
      ltac:(done)) as [[p1 c1] [p2 c2] [[= ->] ?]|]; cbn [mbind option_bind]; by constructor.
  - set (st := set_st_LocationType _ _).
    pose proof (fold_same alike_with _ _ _ _ static_directive_same Hds (st, c) (st, c') ltac:(done)) as Hf.
    destruct (foldl static_directive (st, c) _) as [s1 c1], (foldl static_directive (st, c') _) as [s2 c2].
    destruct Hf as [[= ->] Hc']. by constructor.
  - constructor. unfold convertRedirectDirectives. by apply fold_same; [apply redirect_directive_same|..].
  - constructor. split; [done|]. cbn [snd].
    apply (fold_same alike); [|done|].
    + intros a a' d d' Ha Hd. step_same d d'. by apply alike_warn.
    + destruct Hds; repeat case_decide; by auto.
Qed.

Definition same_state (s s' : server_state) : Prop :=
  ss_server s = ss_server s' ∧ ss_root s = ss_root s' ∧ ss_index s = ss_index s' ∧ alike (ss_conv s) (ss_conv s').

Lemma same_state_intro srv r i c c' : alike c c' → same_state (mkServerState srv r i c) (mkServerState srv r i c').
Proof. done. Qed.

Lemma access_log_same d d' c c' : Args d = Args d' → alike c c' → alike (parseAccessLog d c) (parseAccessLog d' c').
Proof. unfold parseAccessLog, alike. intros -> [Hl Hw]. repeat case_match; cbn; by rewrite ?Hl. Qed.

Lemma error_log_same d d' c c' : Args d = Args d' → alike c c' → alike (parseErrorLog d c) (parseErrorLog d' c').
Proof. unfold parseErrorLog, alike. intros -> [Hl Hw]. repeat case_match; cbn; by rewrite ?Hl. Qed.

Lemma server_return_same d d' srv c c' :
  Name d = Name d' → Args d = Args d' → alike c c' → alike_with (parseServerReturn d (srv, c)) (parseServerReturn d' (srv, c')).
Proof. unfold parseServerReturn. intros Hn Ha Hc. rewrite Ha. repeat case_match; first [done|split; cbn [fst snd]; by auto]. Qed.

#[local] Hint Resolve same_state_intro access_log_same error_log_same : core.

Lemma server_directive_same ups s s' d d' :
  same_state s s' → same d d' → option_Forall2 same_state (server_directive ups s d) (server_directive ups s' d').
Proof.
  destruct s as [srv r i c], s' as [srv' r' i' c']. intros (H1 & H2 & H3 & Hc) Hd. cbn in H1, H2, H3, Hc. subst.
  pose proof (classifyLocation_same r' c c' d d' Hc Hd) as [Hk Hc'].
  unfold server_directive, parseServerName, parseGzip, parseRewrite, parseErrorPage, parseAuthBasic, with_server, with_conv, with_both, arg1.
  cbn [ss_server ss_root ss_index ss_conv].
  destruct (classifyLocation d r' c) as [k k2], (classifyLocation d' r' c') as [k' k2']. cbn [fst snd] in Hk, Hc'.
  pose proof (server_return_same d d' srv' c c') as Hret.
  step_same d d'.
  destruct (parseServerReturn d (srv', c)) as [x1 x2], (parseServerReturn d' (srv', c')) as [y1 y2].
  repeat (case_decide; [try (by constructor; repeat case_match; auto)|]); [| |by constructor; auto].
  - destruct Hret as [[= ->] ?]; [done..|]. by constructor.
  - destruct (convertLocation_same k k' srv' ups k2 k2' Hk Hc') as [[z1 z2] [w1 w2] [[= ->] ?]|]; cbn; by constructor.
Qed.

Lemma listens_same l l' : Forall2 same l l' → listens l = listens l'.
Proof.
  intros Hl. unfold listens. enough (parseListenInfo <$> filter (λ d, Name d = go!"listen") l =
    parseListenInfo <$> filter (λ d, Name d = go!"listen") l') as ->; [done|].
  induction Hl as [|d d' l l' Hd _ IH]; [done|]. rewrite !filter_cons. unfold parseListenInfo at 1 2. step_same d d'.
  case_decide; [|done]. rewrite !fmap_cons. f_equal; [|done]. unfold parseListenInfo. by rewrite H0.
Qed.

Lemma ssl_warning_same srv l c c' : alike c c' → alike (foldl (ssl_warning srv) c l) (foldl (ssl_warning srv) c' l).
Proof.
  revert c c'. induction l as [|li l IH]; intros c c' Hc; [done|]. cbn [foldl]. apply IH.
  unfold ssl_warning. destruct (_ && _); auto.
Qed.

Lemma convert_server_same ups s s' d d' :
  alike_with s s' → same d d' → option_Forall2 alike_with (convert_server ups s d) (convert_server ups s' d').
Proof.
  destruct s as [p c], s' as [p' c']. intros [[= ->] Hc] Hd. cbn [snd] in Hc.
  unfold convert_server, convertServerBlock. cbn [fst snd]. step_same d d'.
  rewrite (listens_same _ _ H1).
  destruct (each_directive_same same_state _ _ _ _ (server_directive_same ups) H1
    (mkServerState zero_ServerConfig [] [] c) (mkServerState zero_ServerConfig [] [] c') ltac:(done))
    as [[srv1 r1 i1 c1] [srv2 r2 i2 c2] (E1 & E2 & E3 & Hc')|]; cbn [mbind option_bind]; [|constructor].
  cbn in E1, E2, E3, Hc'. subst. constructor. split; [done|]. by apply ssl_warning_same.
Qed.

Lemma collect_servers_same s s' d d' :
  prod_relation (Forall2 same) alike s s' → same d d' →
  prod_relation (Forall2 same) alike (collect_servers s d) (collect_servers s' d').
Proof.
  destruct s as [l c], s' as [l' c']. intros [Hl Hc] Hd. cbn [fst snd] in Hl, Hc. unfold collect_servers. step_same d d'.
  case_decide.
  - apply (fold_same (prod_relation (Forall2 same) alike)); [|done..].
    intros [a b] [a' b'] e e' [Ha Hb] He. cbn [fst snd] in *. step_same e e'.
    case_decide; split; cbn [fst snd]; auto. by apply Forall2_app; [|constructor].
  - case_decide; split; cbn [fst snd]; auto. by apply Forall2_app; [|constructor].
Qed.

(** Positions matter neither to the configuration nor to what is warned of. *)
Lemma Convert_same l l' : Forall2 same l l' →
  option_Forall2 (λ r r', r.1 = r'.1 ∧ map unplaced r.2 = map unplaced r'.2) (Convert l) (Convert l').
Proof.
  intros Hl. unfold Convert.
  destruct (each_directive_same alike_with _ _ _ _ collect_upstreams_same Hl (∅, no_warnings) (∅, no_warnings)
    ltac:(done)) as [[u c] [u' c'] [[= ->] Hc]|]; cbn [mbind option_bind]; [|constructor].
  pose proof (fold_same (prod_relation (Forall2 same) alike) _ _ _ _ collect_servers_same Hl ([], c) ([], c') ltac:(done)) as Hf.
  destruct (foldl collect_servers _ _) as [b k], (foldl collect_servers _ _) as [b' k']. destruct Hf as [Hb Hk]. cbn [fst snd] in Hb, Hk.
  destruct (each_directive_same alike_with _ _ _ _ (convert_server_same u') Hb ([], k) ([], k') ltac:(done))
    as [[x y] [x' y'] [[= ->] Hy]|]; cbn [mbind option_bind]; constructor. destruct Hy as [Hy1 Hy2]. cbn in *. by rewrite Hy1.
Qed.

(** ** Descriptions of servers

    What an administrator means by a file with pools of back ends and sites that
    proxy to them or serve files; the file that says so; and the configuration that is
    meant. *)

Record backend := mkBackend { bk_addr : gostring; bk_weight : Z; bk_backup : bool }.
Record server_pool := mkServerPool { pl_name : gostring; pl_by_client : bool; pl_backends : list backend }.

Inductive place :=
  | Pass (path upstream : gostring) (timeout : Z)
  | Files (path root : gostring).

Record site := mkSite { si_name : gostring; si_ports : list Z; si_places : list place }.
Record description := mkDescription { de_pools : list server_pool; de_sites : list site }.

Definition dir (name : string) (args : list gostring) (block : list Directive) : Directive :=
  mkDirective (go!name) args block 0 [].

Definition backend_dir (b : backend) : Directive :=
  dir "server" (bk_addr b :: (go!"weight=" ++ FormatInt (bk_weight b)) :: if bk_backup b then [go!"backup"] else []) [].

Definition pool_dir (p : server_pool) : Directive :=
  dir "upstream" [pl_name p] ((if pl_by_client p then [dir "ip_hash" [] []] else []) ++ map backend_dir (pl_backends p)).

Definition place_dir (l : place) : Directive :=
  match l with
  | Pass path upstream timeout =>
      dir "location" [path] [dir "proxy_pass" [http_scheme ++ upstream] []; dir "proxy_read_timeout" [FormatInt timeout ++ go!"s"] []]
  | Files path root => dir "location" [path] [dir "root" [root] []]
  end.

Definition site_dir (s : site) : Directive :=
  dir "server" [] (map (λ p, dir "listen" [FormatInt p] []) (si_ports s) ++ dir "server_name" [si_name s] [] :: map place_dir (si_places s)).

Definition nginx_of (d : description) : list Directive :=
  [dir "http" [] (map pool_dir (de_pools d) ++ map site_dir (de_sites d))].

(** What is meant. *)
Definition target_of (b : backend) : ProxyTarget :=
  mkProxyTarget (http_scheme ++ bk_addr b) (bk_weight b) 0 0 0 (bk_backup b) false [].

Definition upstream_of (p : server_pool) : upstreamInfo :=
  mkUpstreamInfo (map target_of (pl_backends p)) (if pl_by_client p then go!"ip_hash" else []).

Definition find_pool (ps : list server_pool) (name : gostring) : option server_pool := head (filter (λ p, pl_name p = name) ps).

Definition proxies_of (ps : list server_pool) (ls : list place) : list ProxyConfig :=
  ls ≫= λ l,
    match l with
    | Pass path name timeout =>
        match find_pool ps name with
        | Some p =>
            [set_px_Timeout (mkProxyTimeout 0 0 (timeout * second) 0)
              (set_px_LoadBalance (ui_LoadBalance (upstream_of p))
                (set_px_Targets (ui_Targets (upstream_of p)) (set_px_Path path zero_ProxyConfig)))]
        | None => []
        end
    | Files _ _ => []
    end.

Definition statics_of (ls : list place) : list StaticConfig :=
  ls ≫= λ l, match l with Files path root => [set_st_Root root (set_st_Path path zero_StaticConfig)] | Pass _ _ _ => [] end.

Definition server_of (ps : list server_pool) (s : site) (port : Z) : ServerConfig :=
  set_srv_Listen (go!":" ++ FormatInt port)
    (set_srv_Name (si_name s) (set_srv_ServerNames [si_name s]
      (set_srv_Static (statics_of (si_places s)) (set_srv_Proxy (proxies_of ps (si_places s)) zero_ServerConfig)))).

Definition servers_of (d : description) : list ServerConfig :=
  de_sites d ≫= λ s, server_of (de_pools d) s <$> si_ports s.

(** Descriptions that can be written: words that are not empty, addresses without a
    scheme, names of pools that a URL can hold, paths without a modifier, ports and
    durations in range, pools that exist and differ. *)
Definition plain_path (path : gostring) : Prop := location_path [path] = (path, []) ∧ path ≠ [].

Definition backend_ok (b : backend) : Prop :=
  bk_addr b ≠ [] ∧ HasPrefix (bk_addr b) http_scheme = false ∧ HasPrefix (bk_addr b) (go!"https://") = false ∧ in_int64 (bk_weight b).

Definition pool_ok (p : server_pool) : Prop :=
  pl_name p ≠ [] ∧ extractUpstreamName (http_scheme ++ pl_name p) = pl_name p ∧ Forall backend_ok (pl_backends p).

Definition place_ok (ps : list server_pool) (l : place) : Prop :=
  match l with
  | Pass path name timeout =>
      plain_path path ∧ name ∈ map pl_name ps ∧ 0 ≤ timeout ∧ timeout * second ≤ int64_max
  | Files path root => plain_path path ∧ root ≠ []
  end.

Definition site_ok (ps : list server_pool) (s : site) : Prop :=
  si_name s ≠ [] ∧ si_ports s ≠ [] ∧ Forall (λ p, 0 ≤ p ≤ 65535) (si_ports s) ∧ Forall (place_ok ps) (si_places s).

Record description_ok (d : description) : Prop := {
  ok_names : NoDup (map pl_name (de_pools d));
  ok_pools : Forall pool_ok (de_pools d);
  ok_sites : Forall (site_ok (de_pools d)) (de_sites d) }.

Lemma each_directive_app {A} (f : A → Directive → option A) a l l' :
  each_directive f a (l ++ l') = each_directive f a l ≫= λ a, each_directive f a l'.
Proof. revert a. induction l as [|d l IH]; intros a; [done|]. cbn. destruct (f a d); [apply IH|done]. Qed.

(** Steps that each add something. *)
Lemma each_directive_map {A B} (f : A → Directive → option A) (g : B → Directive) (h : A → B → A) (P : B → Prop) l a :
  (∀ a x, P x → f a (g x) = Some (h a x)) → Forall P l → each_directive f a (map g l) = Some (foldl h a l).
Proof. intros Hf Hl. revert a. induction Hl as [|x l Hx Hl IH]; intros a; [done|]. cbn. rewrite Hf by done. apply IH. Qed.

Lemma upstream_directive_backend info c b : backend_ok b →
  upstream_directive (info, c) (backend_dir b) = Some (mkUpstreamInfo (ui_Targets info ++ [target_of b]) (ui_LoadBalance info), c).
Proof.
  intros (Hne & H1 & H2 & Hw). unfold upstream_directive. rewrite decide_True by done.
  unfold convertUpstreamServer, backend_dir, dir. cbn [Args]. rewrite H1, H2. cbn [orb server_params].
  unfold server_param at 1. rewrite (proj2 (CutPrefix_spec _ _ (FormatInt (bk_weight b)))) by done.
  rewrite Atoi_FormatInt by done. cbn [mbind option_bind]. unfold target_of. by destruct (bk_backup b).
Qed.

Lemma convertUpstream_pool p c : pool_ok p → convertUpstream (pool_dir p) c = Some (upstream_of p, c).
Proof.
  intros (_ & _ & Hb). unfold convertUpstream.
  change (Block (pool_dir p)) with ((if pl_by_client p then [dir "ip_hash" [] []] else []) ++ map backend_dir (pl_backends p)).
  rewrite each_directive_app.
  set (lb := if pl_by_client p then go!"ip_hash" else []).
  assert (each_directive upstream_directive (mkUpstreamInfo [] [], c) (if pl_by_client p then [dir "ip_hash" [] []] else []) =
    Some (mkUpstreamInfo [] lb, c)) as ->.
  { unfold lb. by destruct (pl_by_client p). }
  cbn [mbind option_bind].
  rewrite (each_directive_map _ _ (λ s b, (mkUpstreamInfo (ui_Targets s.1 ++ [target_of b]) (ui_LoadBalance s.1), s.2)) backend_ok);
    [|by intros [] b; apply upstream_directive_backend|done].
  f_equal. unfold upstream_of. fold lb. clear Hb.
  cut (∀ ts, foldl (λ s b, (mkUpstreamInfo (ui_Targets s.1 ++ [target_of b]) (ui_LoadBalance s.1), s.2)) (mkUpstreamInfo ts lb, c) (pl_backends p)
    = (mkUpstreamInfo (ts ++ map target_of (pl_backends p)) lb, c)); [by intros ->|].
  induction (pl_backends p) as [|b bs IH]; intros ts; cbn [foldl map]; [by rewrite app_nil_r|].
  cbn [fst snd ui_Targets ui_LoadBalance]. by rewrite IH, <- app_assoc.
Qed.

Definition pools_map (ps : list server_pool) : upstreams := foldl (λ m p, <[pl_name p := upstream_of p]> m) ∅ ps.

Lemma collect_upstreams_description d c : Forall pool_ok (de_pools d) →
  each_directive collect_upstreams (∅, c) (nginx_of d) = Some (pools_map (de_pools d), c).
Proof.
  intros Hp. change (each_directive collect_upstreams (∅, c) (nginx_of d)) with
    (s ← each_directive add_upstream (∅ : upstreams, c) (map pool_dir (de_pools d) ++ map site_dir (de_sites d)); Some s).
  rewrite each_directive_app.
  rewrite (each_directive_map _ _ (λ s p, (<[pl_name p := upstream_of p]> s.1, s.2)) pool_ok); [| |done].
  - cbn [mbind option_bind].
    rewrite (each_directive_map _ _ (λ s _, s) (λ _, True)); [|done|by apply Forall_true].
    assert (∀ (l : list site) (s : upstreams * conversion), foldl (λ s _, s) s l = s) as -> by (induction l; done).
    cbn. f_equal. unfold pools_map. generalize (∅ : upstreams). clear Hp.
    induction (de_pools d) as [|p ps IH]; intros m; [done|]. cbn [foldl fst snd]. apply IH.
  - intros [m c'] p Hok. unfold add_upstream. rewrite decide_True by done. cbn [snd]. by rewrite convertUpstream_pool.
Qed.

Lemma find_pool_In ps name : name ∈ map pl_name ps → ∃ p, find_pool ps name = Some p ∧ p ∈ ps ∧ pl_name p = name.
Proof.
  unfold find_pool. intros (p & -> & Hp)%list_elem_of_fmap.
  destruct (filter (λ q, pl_name q = pl_name p) ps) as [|q l] eqn:E.
  - assert (p ∈ filter (λ q, pl_name q = pl_name p) ps) as H by (by apply list_elem_of_filter). rewrite E in H. set_solver.
  - assert (q ∈ filter (λ q, pl_name q = pl_name p) ps) as [? ?]%list_elem_of_filter by (rewrite E; left). by exists q.
Qed.

Lemma pools_map_lookup ps p : NoDup (map pl_name ps) → p ∈ ps → pools_map ps !! pl_name p = Some (upstream_of p).
Proof.
  unfold pools_map. intros Hn Hp.
  cut (∀ m : upstreams, (pl_name p ∉ map pl_name ps → foldl (λ m p, <[pl_name p := upstream_of p]> m) m ps !! pl_name p = m !! pl_name p) ∧
    (p ∈ ps → foldl (λ m p, <[pl_name p := upstream_of p]> m) m ps !! pl_name p = Some (upstream_of p))); [naive_solver|].
  clear Hp. induction ps as [|q ps IH]; intros m; [set_solver|]. cbn [foldl map] in *. apply NoDup_cons in Hn as [Hq Hn].
  destruct (IH Hn (<[pl_name q:=upstream_of q]> m)) as [IH1 IH2]. split.
  - intros [Hne Hin]%not_elem_of_cons. rewrite IH1 by done. by rewrite lookup_insert_ne.
  - intros [->|Hin]%elem_of_cons; [|by apply IH2]. rewrite IH1 by done. by rewrite lookup_insert_eq.
Qed.

Lemma parseDuration_seconds t : 0 ≤ t → t * second ≤ int64_max → parseDuration (FormatInt t ++ go!"s") = Some (t * second).
Proof.
  intros H0 Hm. unfold parseDuration. rewrite decide_False by (by destruct (FormatInt t)).
  by rewrite (ParseDuration_units t (go!"s") second).
Qed.

(** The server of a site after some of its locations. *)
Definition partial_server (name : gostring) (st : list StaticConfig) (px : list ProxyConfig) : ServerConfig :=
  set_srv_Name name (set_srv_ServerNames [name] (set_srv_Static st (set_srv_Proxy px zero_ServerConfig))).

Lemma pass_location path name t ps p c :
  extractUpstreamName (http_scheme ++ name) = name → name ≠ [] → pools_map ps !! name = Some (upstream_of p) →
  find_pool ps name = Some p → 0 ≤ t → t * second ≤ int64_max →
  each_directive (proxy_directive (pools_map ps)) (set_px_LocationType [] (set_px_Path path zero_ProxyConfig), c)
    (Block (place_dir (Pass path name t))) = (λ x, (x, c)) <$> head (proxies_of ps [Pass path name t]).
Proof.
  intros Hx Hne Hm Hf Ht Hmax. unfold proxies_of. cbn [mbind list_bind]. rewrite Hf. cbn [app head fmap option_fmap option_map].
  unfold place_dir, dir. cbn [Block each_directive].
  match goal with |- ((?f ?s ?d) ≫= _) = _ =>
    assert (f s d = Some (proxy_pass (http_scheme ++ name) (pools_map ps) s.1, c)) as -> by done end.
  cbn [mbind option_bind fst]. unfold proxy_pass. rewrite Hx, decide_False, Hm by done.
  set (q := if decide (_ ∧ _) then _ else _).
  match goal with |- ((?f ?s ?d) ≫= _) = _ =>
    assert (f s d = n ← parseDuration (FormatInt t ++ go!"s"); Some (set_px_Timeout (set_to_Read n (px_Timeout q)) q, c)) as -> by done end.
  rewrite parseDuration_seconds by done. cbn [mbind option_bind]. do 2 f_equal.
  unfold q. clear q. unfold upstream_of. cbn [ui_LoadBalance ui_Targets]. by destruct (pl_by_client p).
Qed.

Lemma place_step ps l n st px c :
  NoDup (map pl_name ps) → Forall pool_ok ps → place_ok ps l →
  server_directive (pools_map ps) (mkServerState (partial_server n st px) [] [] c) (place_dir l) =
  Some (mkServerState (partial_server n (st ++ statics_of [l]) (px ++ proxies_of ps [l])) [] [] c).
Proof.
  intros Hn Hps Hl. destruct l as [path name t|path root].
  - destruct Hl as ([Hpath Hne] & Hin & Ht & Hmax). destruct (find_pool_In ps name Hin) as (p & Hf & Hp & <-).
    rewrite Forall_forall in Hps. destruct (Hps p Hp) as (Hne' & Hx & _).
    pose proof (pass_location path (pl_name p) t ps p c Hx Hne' (pools_map_lookup ps p Hn Hp) Hf Ht Hmax) as Hloc.
    match goal with |- server_directive ?u ?s ?d = _ =>
      assert (server_directive u s d = let '(class, c) := classifyLocation d [] c in
        r ← convertLocation class (partial_server n st px) u c; Some (with_both r s)) as -> by done end.
    assert (classifyLocation (place_dir (Pass path (pl_name p) t)) [] c =
      (mkLocation LProxy path [] (Block (place_dir (Pass path (pl_name p) t))), c)) as ->.
    { unfold classifyLocation, place_dir, dir. cbn [Args Block]. by rewrite Hpath. }
    unfold convertLocation. cbn [lc_LocType lc_Modifier lc_Path lc_Directives]. rewrite decide_False by done.
    unfold convertProxyDirectives. change (modifierToLocationType []) with (@nil ascii). rewrite Hloc.
    unfold proxies_of. cbn [mbind list_bind]. rewrite Hf. cbn [app head fmap option_fmap option_map mbind option_bind]. 
    change (statics_of [Pass path (pl_name p) t]) with (@nil StaticConfig). by rewrite app_nil_r.
  - destruct Hl as [[Hpath Hne] Hr].
    match goal with |- server_directive ?u ?s ?d = _ =>
      assert (server_directive u s d = let '(class, c) := classifyLocation d [] c in
        r ← convertLocation class (partial_server n st px) u c; Some (with_both r s)) as -> by done end.
    assert (classifyLocation (place_dir (Files path root)) [] c =
      (mkLocation LStatic path [] (Block (place_dir (Files path root))), c)) as ->.
    { unfold classifyLocation, place_dir, dir. cbn [Args Block]. by rewrite Hpath. }
    change (proxies_of ps [Files path root]) with (@nil ProxyConfig). rewrite app_nil_r. done.
Qed.

Lemma places_steps ps ls n c : NoDup (map pl_name ps) → Forall pool_ok ps → Forall (place_ok ps) ls →
  ∀ st px, each_directive (server_directive (pools_map ps)) (mkServerState (partial_server n st px) [] [] c) (map place_dir ls) =
    Some (mkServerState (partial_server n (st ++ statics_of ls) (px ++ proxies_of ps ls)) [] [] c).
Proof.
  intros Hn Hp. induction 1 as [|l ls Hl Hls IH]; intros st px; cbn [map each_directive].
  - by rewrite !app_nil_r.
  - rewrite place_step by done. cbn [mbind option_bind]. rewrite IH, <- !app_assoc.
    unfold statics_of, proxies_of. by rewrite <- !bind_app.
Qed.

Lemma listens_site s : si_ports s ≠ [] → Forall (λ p, 0 ≤ p ≤ 65535) (si_ports s) →
  listens (Block (site_dir s)) = (λ p, mkListen (go!":" ++ FormatInt p) false false) <$> si_ports s.
Proof.
  intros Hne Hp. unfold listens, site_dir, dir. cbn [Block]. rewrite filter_app, filter_cons_False by done.
  assert (∀ l, filter (λ d, Name d = go!"listen") (map place_dir l) = []) as ->.
  { induction l as [|[] l IH]; [done|..]; cbn [map]; by rewrite filter_cons_False. }
  rewrite app_nil_r. assert (∀ l, Forall (λ p, 0 ≤ p ≤ 65535) l →
    parseListenInfo <$> filter (λ d, Name d = go!"listen") (map (λ p, mkDirective (go!"listen") [FormatInt p] [] 0 []) l) =
    (λ p, mkListen (go!":" ++ FormatInt p) false false) <$> l) as ->; [|by destruct (si_ports s)|done].
  induction 1 as [|p l Hr Hl IH]; [done|]. cbn [map]. rewrite filter_cons_True by done. rewrite !fmap_cons, IH. f_equal.
  unfold parseListenInfo. cbn [Args]. rewrite Atoi_FormatInt; [done|]. unfold in_int64, int64_min, int64_max. lia.
Qed.

Lemma convertServerBlock_site ps s c : NoDup (map pl_name ps) → Forall pool_ok ps → site_ok ps s →
  convertServerBlock (site_dir s) (pools_map ps) c = Some (server_of ps s <$> si_ports s, c).
Proof.
  intros Hn Hps (Hname & Hne & Hport & Hl). unfold convertServerBlock. rewrite listens_site by done.
  change (Block (site_dir s)) with
    (map (λ p, dir "listen" [FormatInt p] []) (si_ports s) ++ dir "server_name" [si_name s] [] :: map place_dir (si_places s)).
  rewrite each_directive_app, (each_directive_map _ _ (λ s _, s) (λ _, True)); [|done|by apply Forall_true].
  assert (∀ (l : list Z) (st : server_state), foldl (λ st _, st) st l = st) as -> by (induction l; done).
  cbn [mbind option_bind each_directive].
  match goal with |- context [server_directive ?u ?st ?d] =>
    assert (server_directive u st d = Some (mkServerState (partial_server (si_name s) [] []) [] [] c)) as -> by done end.
  cbn [mbind option_bind]. rewrite places_steps by done. cbn [mbind option_bind ss_root ss_index ss_server ss_conv app].
  unfold apply_root. rewrite decide_True by done. f_equal. f_equal.
  - rewrite <- list_fmap_compose. by apply list_fmap_ext.
  - assert (∀ srv l, foldl (ssl_warning srv) c ((λ p, mkListen (go!":" ++ FormatInt p) false false) <$> l) = c) as ->; [|done].
    intros srv. induction l as [|p l IH]; [done|]. by rewrite fmap_cons.
Qed.

Lemma Convert_description d : description_ok d →
  Convert (nginx_of d) = Some (set_cfg_Servers (servers_of d) zero_Config, []).
Proof.
  intros [Hn Hp Hs]. unfold Convert. rewrite collect_upstreams_description by done. cbn [mbind option_bind].
  assert (foldl collect_servers ([], no_warnings) (nginx_of d) = (map site_dir (de_sites d), no_warnings)) as ->.
  { change (foldl collect_servers ([], no_warnings) (nginx_of d)) with
      (foldl (λ s bd, if decide (Name bd = go!"server") then (s.1 ++ [bd], s.2) else (s.1, warn_unsupported bd s.2))
        ([], no_warnings) (map pool_dir (de_pools d) ++ map site_dir (de_sites d))).
    rewrite foldl_app. clear. induction (de_pools d) as [|p ps IH].
    - cbn [map foldl]. set (f := λ s bd, if decide _ then _ else _).
      cut (∀ acc, foldl f (acc, no_warnings) (map site_dir (de_sites d)) = (acc ++ map site_dir (de_sites d), no_warnings)); [by intros ->|].
      induction (de_sites d) as [|s ss IH]; intros acc; [by rewrite app_nil_r|]. cbn [map foldl].
      rewrite cons_middle, app_assoc, <- IH. done.
    - cbn [map foldl]. apply IH. }
  rewrite (each_directive_map _ _ (λ s x, (s.1 ++ (server_of (de_pools d) x <$> si_ports x), s.2)) (site_ok (de_pools d))); [| |done].
  - cut (∀ acc, foldl (λ s x, (s.1 ++ (server_of (de_pools d) x <$> si_ports x), s.2)) (acc, no_warnings) (de_sites d) =
      (acc ++ servers_of d, no_warnings)); [by intros ->|].
    unfold servers_of. clear Hs. induction (de_sites d) as [|s ss IH]; intros acc; [by rewrite app_nil_r|].
    cbn [foldl mbind list_bind fst snd]. rewrite IH. by rewrite <- app_assoc.
  - intros [acc c] s Hok. unfold convert_server. cbn [fst snd]. by rewrite convertServerBlock_site.
Qed.

Lemma forallb_map_true {A B} (f : B → bool) (g : A → B) (P : A → Prop) l :
  (∀ x, P x → f (g x) = true) → Forall P l → forallb f (map g l) = true.
Proof. intros Hf. induction 1 as [|x l Hx _ IH]; [done|]. cbn. by rewrite Hf. Qed.

Lemma word_app (s t : gostring) : t ≠ [] → bool_decide (s ++ t = []) = false.
Proof. intros Ht. apply bool_decide_eq_false. destruct s; [done|]. done. Qed.

Lemma nginx_of_printable d : description_ok d → forallb printable (nginx_of d) = true.
Proof.
  intros [_ Hp Hs].
  assert (∀ d0, In d0 (nginx_of d) → printable d0 = true) as H; [|by apply forallb_forall].
  intros ? [<-|[]]. change (forallb printable (map pool_dir (de_pools d) ++ map site_dir (de_sites d)) = true).
  rewrite forallb_app. apply andb_true_iff. split.
  - apply (forallb_map_true _ _ pool_ok); [|done]. intros p (Hn & _ & Hb).
    change (negb (bool_decide (pl_name p = [])) && true && true &&
      forallb printable ((if pl_by_client p then [dir "ip_hash" [] []] else []) ++ map backend_dir (pl_backends p)) = true).
    rewrite bool_decide_false, forallb_app by done. cbn [negb andb]. apply andb_true_iff. split; [by destruct (pl_by_client p)|].
    apply (forallb_map_true _ _ backend_ok); [|done]. intros b (Ha & _).
    change (negb (bool_decide (bk_addr b = [])) && forallb (λ a, negb (bool_decide (a = [])))
      ((go!"weight=" ++ FormatInt (bk_weight b)) :: if bk_backup b then [go!"backup"] else []) && true && true = true).
    rewrite bool_decide_false by done. cbn [forallb]. by destruct (bk_backup b).
  - apply (forallb_map_true _ _ (site_ok (de_pools d))); [|done]. intros s (Hn & _ & Hport & Hl).
    change (forallb printable (map (λ p, dir "listen" [FormatInt p] []) (si_ports s) ++
      dir "server_name" [si_name s] [] :: map place_dir (si_places s)) = true).
    rewrite forallb_app. apply andb_true_iff. split.
    + apply (forallb_map_true _ _ (λ p, 0 ≤ p ≤ 65535)); [|done]. intros p Hr.
      change (negb (bool_decide (FormatInt p = [])) && true && true && true = true).
      rewrite bool_decide_false; [done|]. apply (FormatInt_digits p). unfold int64_max. lia.
    + change (negb (bool_decide (si_name s = [])) && true && true && true &&
        forallb printable (map place_dir (si_places s)) = true).
      rewrite bool_decide_false by done. apply (forallb_map_true _ _ (place_ok (de_pools d))); [|done].
      intros [path name t|path root].
      * intros ([_ Hne] & _).
        change (negb (bool_decide (path = [])) && true && true &&
          (true && (negb (bool_decide (FormatInt t ++ go!"s" = [])) && true && true && true) && true) = true).
        rewrite bool_decide_false, word_app by done. done.
      * intros ([_ Hne] & Hr).
        change (negb (bool_decide (path = [])) && true && true && ((negb (bool_decide (root = [])) && true && true && true) && true) = true).
        by rewrite !bool_decide_false by done.
Qed.

(** C16: From text to configuration: a file that is printed from a description of pools
    and sites, parsed and converted, gives one server for every site and port with the
    name, proxied locations, targets, weights, time-outs and static directories that
    were described, and no warning. *)
Theorem convert_describes `{FileSystem} d : description_ok d →
  ∃ ds, ParseString (print_all (nginx_of d)) = Ok ds ∧
    Convert ds = Some (set_cfg_Servers (servers_of d) zero_Config, []).
Proof.
  intros Hok. destruct (parse_print_tail (nginx_of d) []) as (ds & Hparse & Herase);
    [by apply nginx_of_printable|by left|].
  rewrite app_nil_r in Hparse. exists ds. split; [done|].
  pose proof (Convert_same ds (nginx_of d) ltac:(by apply same_blocks)) as Hsame.
  rewrite Convert_description in Hsame by done. inversion Hsame as [[cfg ws] ? [H1 H2] E|]; subst.
  cbn in H1, H2. subst. by apply map_eq_nil in H2 as ->.
Qed.

(** ** Witnesses *)

Definition ex_description : description := mkDescription
  [mkServerPool (go!"app") true [mkBackend (go!"10.0.0.1:8080") 3 false; mkBackend (go!"10.0.0.2:8080") 1 true]]
  [mkSite (go!"example.com") [80; 8080] [Pass (go!"/api/") (go!"app") 30; Files (go!"/") (go!"/var/www")]].

Lemma ex_description_ok : description_ok ex_description.
Proof.
  split.
  - apply NoDup_singleton.
  - repeat constructor; try done; unfold in_int64, int64_min, int64_max; cbn; lia.
  - repeat constructor; try done; unfold int64_max, second; cbn; lia.
Qed.

Example ex_servers :
  map (λ s, (srv_Listen s, map (λ p, map tg_URL (px_Targets p)) (srv_Proxy s), map st_Root (srv_Static s))) (servers_of ex_description) =
  [(go!":80", [[go!"http://10.0.0.1:8080"; go!"http://10.0.0.2:8080"]], [go!"/var/www"]);
   (go!":8080", [[go!"http://10.0.0.1:8080"; go!"http://10.0.0.2:8080"]], [go!"/var/www"])].
Proof. by vm_compute. Qed.

#[local] Instance no_files : FileSystem := {|
  ReadFile _ := None; EvalSymlinks _ := None; Glob _ := None; Abs _ := None
|}.

Lemma convert_describes_witness :
  description_ok ex_description ∧
  ∃ ds, ParseString (print_all (nginx_of ex_description)) = Ok ds ∧
    Convert ds = Some (set_cfg_Servers (servers_of ex_description) zero_Config, []).
Proof. split; [exact ex_description_ok|]. apply (convert_describes ex_description). exact ex_description_ok. Defined.
